(* ===== verification/_CoqProject ===== *)
-Q . S2P
Prelude.v
Machine.v
Ring.v
Kstring.v
Spinlock.v
Sleeplock.v
Kalloc.v
BlockCache.v
Bio.v
Sd.v
Log.v
TxStore.v
Fs.v
Dir.v
Vm.v
Kvm.v
Fork.v
Boot.v
Proc.v
Sched.v
File.v
Fswrite.v
Dirlink.v
Console.v
Kernel.v
Sysfile.v
Exec.v
Trap.v
Main.v
Mkfs.v
Image.v
Ulib.v
Grep.v
Umalloc.v
Sh.v
Uprog.v
Shrun.v
System.v
Usertests.v
Tested.v
