(* ===== verification/Prelude.v ===== *)
(** * Verification of xv6-k230

    xv6-k230 is the xv6 teaching kernel on the Kendryte K230 board: a Unix-like kernel with processes,
    paged virtual memory with copy-on-write and demand-zero pages, a logging file system on a RAM disk,
    pipes, a console and 21 system calls, with a shell and small programs, and a program that builds the
    disk image.  This library translates the C code under src/kernel, src/user and src/mkfs into
    executable definitions, function by function, and proves what makes each part correct.

    ** How the parts interact

    A trap enters [usertrap] (trap.c), which calls [syscall] (syscall.c), whose handlers (sysproc.c,
    sysfile.c, exec.c) use the process table (proc.c), open files and pipes (file.c, pipe.c), the file
    system (fs.c) and the console (uart.c).  The file system updates disk blocks only through the
    log (log.c), the log reads and writes them through the buffer cache (bio.c), and the cache through
    the RAM disk (ramdisk.c).  Processes and page tables (vm.c) live in pages of the page allocator
    (kalloc.c).  All of it uses spin locks (spinlock.c), sleep locks (sleeplock.c) and string.c.
    The user programs reach the kernel through system calls only; mkfs runs on the build machine and
    writes the image that becomes the RAM disk.

    ** How the code is represented

    A kernel function is a value of [M S A = kctx -> S -> outcome S A] (this file): it runs on a state
    [S] with what the CPU knows (the spin locks held, the wake-ups issued, the current pid) and ends in
    [Ret], [Panic], [Asleep] or [NoFuel].  The state of a component is a record with the fields of the C
    structure; a component that contains another reaches it through a lens ([zoom]).  Pointers into
    a table are indices, pointers to memory are addresses; w-bit integers are [Z] with the wrap written
    out (file Machine); an access outside an array is the outcome [undefined].

    [acquire] and [release] are those of one CPU and check for self-deadlock and for releasing a lock that
    is not held; the interleaving of CPUs is the subject of file Spinlock, of [lstep] in file Log and of
    [mstep] in file Sched.  A run of a function ends where it sleeps.  A function that sleeps and then
    simply starts over is run again from its beginning ([acquiresleep], [begin_op], [kwait], [piperead]);
    one that sleeps with work in progress returns that work and takes it back when it continues
    ([pipewrite_from], [consoleread_from], [uartwrite], [pause_from]).

    ** Files

    - Prelude: locks, channels, the kernel monad, its lemmas and tactics.
    - Machine: fixed-width integers, memory, constants (types.h, param.h, memlayout.h, riscv.h, fs.h).
    - Ring: ring buffers indexed by wrapping counters, shared by pipe.c and uart.c.
    - Kstring: string.c.
    - Spinlock: spinlock.c, one memory operation at a time on any number of CPUs.
    - Sleeplock: sleeplock.c.
    - Kalloc: kalloc.c, with the abstract pool of pages it implements.
    - BlockCache: the interface between bio.c and log.c (classes [BlockCacheOps], [BlockCache]).
    - Bio: bio.c and ramdisk.c; its last instance shows that they satisfy BlockCache.
    - Sd: k230_sd.c, for any controller that behaves as the SDHCI standard says (class [SdHost]), on a
      platform that carries out the driver's one misaligned store ([SplitStores]).
    - Log: log.c, proved for every BlockCache and then run over Bio.
    - TxStore: the interface between log.c and fs.c (classes [TxOps], [TxStore]) and the instance
      for the log.
    - Fs: fs.c, proved for every TxStore.  Further theorems about it are in Dir (directories as lists
      of entries), Fswrite (writei, and bmap when it allocates) and Dirlink (dirlink).
    - Vm: vm.c.   - Kvm: the page table of the kernel and the first one of a process as a whole.
    - Fork: two processes after uvmcopy.
    - Boot: start.c, timer.c, plic.c, wdt.c and the register accessors of riscv.h.
    - Proc: proc.c, less the functions that use open files.
    - Sched: the functions of Proc on the process table, statement by statement, on any number of CPUs.
    - File: file.c and pipe.c; what they use of the process is class [ProcOps], and [UserOps] of Fs.
    - Console: uart.c; what it uses of the process is class [TtyOps].
    - Kernel: all components in one state, the remaining functions of proc.c, argument fetching
      (syscall.c), sysproc.c; the instances of [UserOps], [ProcOps] and [TtyOps] for the process table.
    - Sysfile: sysfile.c.   - Exec: exec.c.   - Trap: the dispatch of syscall.c, and trap.c.
    - Main: main.c, the initialisers it calls, the scheduler's loop, panic, and test_proc.c.
    - Mkfs: mkfs.c.   - Image: the kernel of the files above started on an image of Mkfs.
    - Ulib: ulib.c.   - Umalloc: umalloc.c; [sbrk] is class [Sbrk].
    - Grep: grep.c; [read] is class [ReadStream].   - Sh: the parser of sh.c.   - Shrun: its [runcmd].
    - Uprog: printf.c, cat.c, echo.c, ls.c, mkdir.c, rm.c, init.c as trees of system calls; what they
      rely on is stated by classes such as [CatOps].
    - System: such trees as processes of the kernel model.   - Usertests: usertests.c and schedtest.c.
    - Tested: the kernel, from a disk image of Mkfs, running some tests of Usertests, as a check of the
      definitions by computation.

    ** What the theorems show

    - Disk (Bio, Log): the linked-list cache is a cache of the device with least-recently-used
      replacement; a commit is atomic under power failure after any of its block writes, recovery
      can be repeated, an operation of at most MAXOPBLOCKS updates is applied as a whole when enough buffers are
      free, and admission keeps the log from overflowing for every interleaving of operations.
      [full_log_panics] shows the limit: with NBUF = LOGBLOCKS a full log leaves commit without a buffer.
      The SD card driver (Sd) is a disk of blocks for every controller that follows the standard, on such a platform.
    - File system (Fs, Dir, Fswrite, Dirlink): block allocation; reading and writing of a file through
      direct and indirect blocks, with the blocks that writing allocates, and that a chunk of
      filewrite stays within MAXOPBLOCKS logged blocks; lookup and insertion of directory entries; the
      round trip of an inode through the disk, uniqueness of in-memory inodes, and path resolution as a
      walk over the parts of the path.
    - Disk image (Mkfs, Image): mkfs writes a file system with the files it is given, and the kernel,
      started on the image, finds each file by its name and reads its bytes.
    - Files, pipes, console (File, Console): pipes and the console input refine FIFO queues and a line
      discipline, across the wrap of their counters; number printing stays within its buffer.
    - System calls (Sysfile, Exec): sharing by dup, the bounds of exec's argument stack.
    - Memory (Kalloc, Vm, Kstring): the free list and the reference counts implement a pool of pages with
      owners; page-table updates have the intended effect on the flat view of the table; copies between
      kernel and user memory move exactly the bytes asked for, and page faults are transparent.
      After the copy-on-write fork (Fork) the child reads what the parent read, and what one of them
      writes the other does not see.
    - Processes (Spinlock, Sched, Proc): mutual exclusion of spin locks; no process on two CPUs, for every
      interleaving of the statements of proc.c; on one CPU, that a pass of the scheduler serves every runnable process,
      and what exit and wait do to the table.
    - Start-up (Boot, Kvm, Main): [start] enters main in supervisor mode whatever the registers held;
      the kernel's page table maps its text without write permission, each stack between two
      unmapped pages and everything else to itself; [main] returns with every component
      initialised and the first process ready to run.
    - User programs: grep prints the lines in which the pattern, read as a language, occurs (without NUL bytes
      and lines too long for its buffer); the areas
      that malloc hands out are disjoint; the shell's parser decides a grammar, returns what the grammar
      means and leaves its words as separate strings; [runcmd] starts the programs of a command with
      their files and pipes connected as it says, under idealised system calls ([launch]).

    ** Fuel

    A loop whose bound is not structural takes a number of iterations computed from its arguments:
    [rw_fuel] (n / BSIZE + 2: every iteration of readi and writei but the first and last moves a whole
    block), [dir_fuel] (one per directory entry), [copy_fuel] (len / PGSIZE + 2, likewise by pages),
    [map_fuel] (one per page), one per bitmap block for balloc, the length of the path for namex, the
    number of bytes for the loops of pipes and console, 64 digits for printint; the length of the input
    plus one for grep, 2 * blocks + 4 for the search of malloc, 4 * (length + 1) for the calls of the
    shell's parser. Test programs run on the kernel for at most 2000 system calls and switches, and the
    loops of usertests.c that only the kernel ends take a bound. The loops of the SD card driver run
    under [kloop], with the bounds of the code (0x500001 and 0xFFFFFFF polls) and 2^32 where it has
    none. The theorems about these loops state that they return, so [NoFuel] is excluded where they
    apply.

    ** Not modelled

    Assembly (entry.S, swtch.S, trampoline.S, kernelvec.S): a context switch is where a function ends.
    Text printed for diagnosis, except that of printf itself.  The linker symbols [end] and [trampoline]
    are parameters; so are the contents of uninitialised stack memory that reach user space.  Memory is
    sequentially consistent, so the fences of spinlock.c and main.c are left out. *)

From stdpp Require Import base list gmap sets functions strings numbers.
From Stdlib Require Import ZArith Lia.

#[global] Open Scope Z_scope.

(** ** Kernel objects that are named by their address in the C code *)

(** Spin locks.  The C code identifies a lock by its address; each global lock, and each family
    of locks embedded in an array of structures, has a constructor. *)
Inductive lock :=
  | LK_kmem                    (* kalloc.c: kmem.lock *)
  | LK_bcache                  (* bio.c: bcache.lock *)
  | LK_bufsl (i : nat)         (* the spin lock inside bcache.buf[i].lock *)
  | LK_log                     (* log.c: log.lock *)
  | LK_itable                  (* fs.c: itable.lock *)
  | LK_inodesl (i : nat)       (* the spin lock inside itable.inode[i].lock *)
  | LK_ftable                  (* file.c: ftable.lock *)
  | LK_pipe (pi : Z)           (* pipe.c: pi->lock *)
  | LK_proc (i : nat)          (* proc.c: proc[i].lock *)
  | LK_wait                    (* proc.c: wait_lock *)
  | LK_pid                     (* proc.c: pid_lock *)
  | LK_ticks                   (* trap.c: tickslock *)
  | LK_cons                    (* uart.c: cons.lock *)
  | LK_uart                    (* uart.c: uart_tx_lock *)
  | LK_pr                      (* uart.c: pr.lock *)
  | LK_sd.                     (* k230_sd.c: sd_lock *)

(** Sleep channels: the address passed to [sleep] and [wakeup]. *)
Inductive chan :=
  | CH_bufsl (i : nat)         (* &bcache.buf[i].lock *)
  | CH_inodesl (i : nat)       (* &itable.inode[i].lock *)
  | CH_log                     (* &log *)
  | CH_nread (pi : Z)          (* &pi->nread *)
  | CH_nwrite (pi : Z)         (* &pi->nwrite *)
  | CH_proc (i : nat)          (* &proc[i] *)
  | CH_ticks                   (* &ticks *)
  | CH_cons                    (* &cons.r *)
  | CH_uart.                   (* &uart_tx_chan *)

#[global] Instance lock_eq_dec : EqDecision lock.
Proof. solve_decision. Defined.
#[global] Instance chan_eq_dec : EqDecision chan.
Proof. solve_decision. Defined.

(** ** The kernel monad

    A kernel function is run by one process on one CPU.  [kctx] is what the CPU knows while it
    runs: the spin locks it holds (most recent first), the channels it has called [wakeup] on, in
    order, and the pid of the running process.  A function either returns, panics, goes to sleep
    on a channel, or exhausts the fuel of a bounded loop. *)
Record kctx := mkctx {
  held : list lock;
  woken : list chan;
  curpid : Z
}.

Inductive outcome (S A : Type) : Type :=
  | Ret (a : A) (c : kctx) (s : S)
  | Panic (msg : string)
  | Asleep (ch : chan) (c : kctx) (s : S)
  | NoFuel.
Arguments Ret {S A} a c s.
Arguments Panic {S A} msg.
Arguments Asleep {S A} ch c s.
Arguments NoFuel {S A}.

Definition M (S A : Type) : Type := kctx → S → outcome S A.

Definition kret {S A} (a : A) : M S A := λ c s, Ret a c s.

Definition kbind {S A B} (m : M S A) (f : A → M S B) : M S B := λ c s,
  match m c s with
  | Ret a c' s' => f a c' s'
  | Panic msg => Panic msg
  | Asleep ch c' s' => Asleep ch c' s'
  | NoFuel => NoFuel
  end.

Definition panic {S A} (msg : string) : M S A := λ _ _, Panic msg.
(** C gives the operation no meaning (an access outside an array): the model stops. *)
Definition undefined {S A} (what : string) : M S A := panic ("undefined behaviour: " +:+ what).
Definition nofuel {S A} : M S A := λ _ _, NoFuel.
Definition kget {S} : M S S := λ c s, Ret s c s.
Definition kgets {S A} (f : S → A) : M S A := λ c s, Ret (f s) c s.
Definition kmod {S} (f : S → S) : M S unit := λ c s, Ret tt c (f s).
Definition mypid {S} : M S Z := λ c s, Ret (curpid c) c s.

Declare Scope kernel_scope.
Delimit Scope kernel_scope with kernel.
Notation "'do' x <- m ; k" := (kbind m (λ x, k))
  (at level 10, x name, m at level 100, k at level 200) : kernel_scope.
Notation "m ;;; k" := (kbind m (λ _, k))
  (at level 199, right associativity) : kernel_scope.
#[global] Open Scope kernel_scope.

(** A component's function runs inside a larger state through a lens. *)
Record lens (S T : Type) := mklens { lget : S → T; lset : T → S → S }.
Arguments mklens {S T} lget lset.
Arguments lget {S T} l s.
Arguments lset {S T} l t s.

Definition zoom {S T A} (l : lens S T) (m : M T A) : M S A := λ c s,
  match m c (lget l s) with
  | Ret a c' t => Ret a c' (lset l t s)
  | Panic msg => Panic msg
  | Asleep ch c' t => Asleep ch c' (lset l t s)
  | NoFuel => NoFuel
  end.

(** [for (i = lo; ...; i++) body(i)], [n] iterations. *)
Fixpoint kfor {S} (n : nat) (i : Z) (body : Z → M S unit) : M S unit :=
  match n with
  | O => kret tt
  | S n' => body i ;;; kfor n' (i + 1) body
  end.

(** ** Spin locks, as one CPU sees them

    [acquire] panics on a lock the CPU already holds and [release] on one it does not hold
    (spinlock.c); the other CPUs are the subject of the file Spinlock. *)
Fixpoint drop_lock (l : lock) (hs : list lock) : list lock :=
  match hs with
  | [] => []
  | x :: hs' => if decide (x = l) then hs' else x :: drop_lock l hs'
  end.

Definition set_held (h : list lock) (c : kctx) : kctx := mkctx h (woken c) (curpid c).

Definition acquire {S} (l : lock) : M S unit := λ c s,
  if decide (l ∈ held c) then Panic "acquire" else Ret tt (set_held (l :: held c) c) s.

Definition release {S} (l : lock) : M S unit := λ c s,
  if decide (l ∈ held c) then Ret tt (set_held (drop_lock l (held c)) c) s
  else Panic "release".

(** [wakeup(chan)] is recorded; the process table turns the record into RUNNABLE processes. *)
Definition wakeup {S} (ch : chan) : M S unit := λ c s,
  Ret tt (mkctx (held c) (woken c ++ [ch]) (curpid c)) s.

(** [sleep(chan, lk)] takes p->lock, releases [lk] and calls [sched], which panics unless p->lock
    is then the only lock held (noff == 1). *)
Definition sleep {S A} (ch : chan) (lk : lock) : M S A := λ c s,
  if decide (lk ∈ held c) then
    match drop_lock lk (held c) with
    | [] => Asleep ch (set_held [] c) s
    | _ :: _ => Panic "sched locks"
    end
  else Panic "release".

(** ** Lemmas about the monad *)

Lemma kbind_ret {S A B} (m : M S A) (f : A → M S B) c s a c' s' :
  m c s = Ret a c' s' → kbind m f c s = f a c' s'.
Proof. unfold kbind. by intros ->. Qed.

(** A bind whose first part is known, whatever its outcome. *)
Lemma kbind_run {S A B} (m : M S A) (f : A → M S B) c s o :
  m c s = o → kbind m f c s = match o with
                              | Ret a c' s' => f a c' s'
                              | Panic msg => Panic msg
                              | Asleep ch c' s' => Asleep ch c' s'
                              | NoFuel => NoFuel
                              end.
Proof. unfold kbind. by intros ->. Qed.

Lemma kbind_panic {S A B} (m : M S A) (f : A → M S B) c s msg :
  m c s = Panic msg → kbind m f c s = Panic msg.
Proof. unfold kbind. by intros ->. Qed.

Lemma kbind_asleep {S A B} (m : M S A) (f : A → M S B) c s ch c' s' :
  m c s = Asleep ch c' s' → kbind m f c s = Asleep ch c' s'.
Proof. unfold kbind. by intros ->. Qed.

Lemma kbind_assoc {S A B C} (m : M S A) (f : A → M S B) (g : B → M S C) c s :
  kbind (kbind m f) g c s = kbind m (λ x, kbind (f x) g) c s.
Proof. unfold kbind. by destruct (m c s). Qed.

Lemma kbind_ext {S A B} (m : M S A) (f g : A → M S B) c s :
  (∀ a c s, f a c s = g a c s) → kbind m f c s = kbind m g c s.
Proof. intros E. unfold kbind. by destruct (m c s). Qed.

Lemma zoom_ret {S T A} (l : lens S T) (m : M T A) c s a c' t :
  m c (lget l s) = Ret a c' t → zoom l m c s = Ret a c' (lset l t s).
Proof. unfold zoom. by intros ->. Qed.

Lemma zoom_panic {S T A} (l : lens S T) (m : M T A) c s msg :
  m c (lget l s) = Panic msg → zoom l m c s = Panic msg.
Proof. unfold zoom. by intros ->. Qed.

Lemma set_held_id c : set_held (held c) c = c.
Proof. by destruct c. Qed.

Lemma drop_lock_head l hs : drop_lock l (l :: hs) = hs.
Proof. simpl. by rewrite decide_True. Qed.

Lemma elem_of_drop_lock l l' hs :
  NoDup hs → l' ∈ drop_lock l hs ↔ l' ∈ hs ∧ l' ≠ l.
Proof.
  induction 1 as [|x hs Hx Hnd IH]; simpl; [rewrite elem_of_nil; tauto|].
  case_decide; rewrite !elem_of_cons; naive_solver.
Qed.

Lemma NoDup_drop_lock l hs : NoDup hs → NoDup (drop_lock l hs).
Proof.
  induction 1 as [|x hs Hx Hnd IH]; simpl; [constructor|].
  case_decide; [done|]. constructor; [|done]. rewrite elem_of_drop_lock by done. tauto.
Qed.

Lemma length_drop_lock l hs : l ∈ hs → length hs = S (length (drop_lock l hs)).
Proof.
  induction hs as [|x hs IH]; simpl; [by intros ?%elem_of_nil|].
  intros [-> | Hl]%elem_of_cons; [by rewrite decide_True|].
  case_decide; [done|]. simpl. by rewrite IH.
Qed.

Lemma acquire_ret {S} l c (s : S) :
  l ∉ held c → acquire l c s = Ret tt (set_held (l :: held c) c) s.
Proof. intros ?. unfold acquire. by rewrite decide_False. Qed.

Lemma acquire_twice {S} l c (s : S) : l ∈ held c → acquire l c s = Panic "acquire".
Proof. intros ?. unfold acquire. by rewrite decide_True. Qed.

(** Leaving the critical section entered by the matching [acquire] restores the context. *)
Lemma release_head {S} l hs c (s : S) :
  held c = l :: hs → release l c s = Ret tt (set_held hs c) s.
Proof.
  intros E. unfold release. rewrite E, drop_lock_head.
  by rewrite decide_True by constructor.
Qed.

(** A bind that returns. *)
Lemma kbind_inv {T A B} (m : M T A) (f : A → M T B) c (s : T) b c' s' :
  kbind m f c s = Ret b c' s' → ∃ a c1 s1, m c s = Ret a c1 s1 ∧ f a c1 s1 = Ret b c' s'.
Proof. unfold kbind. destruct (m c s); try done. eauto. Qed.

Lemma acquire_inv {T} l c (s : T) a c' s' : acquire l c s = Ret a c' s' → s' = s.
Proof. unfold acquire. case_decide; [done|]. by intros [= <- <- <-]. Qed.

Lemma release_inv {T} l c (s : T) a c' s' : release l c s = Ret a c' s' → s' = s.
Proof. unfold release. case_decide; [|done]. by intros [= <- <- <-]. Qed.

Lemma sleep_inv {T A} ch l c (s : T) (a : A) c' s' : sleep ch l c s = Ret a c' s' → False.
Proof. unfold sleep. case_decide; [|done]. by destruct (drop_lock _ _). Qed.

(** Two contexts that differ only in the wake-ups issued. *)
Definition same_ctx (c c' : kctx) : Prop := held c' = held c ∧ curpid c' = curpid c.

#[global] Instance same_ctx_equiv : Equivalence same_ctx.
Proof.
  split.
  - by intros c.
  - intros c d [??]. split; congruence.
  - intros c d e [??] [??]. split; congruence.
Qed.

Lemma wakeup_same {S} ch c (s : S) :
  ∃ c', wakeup ch c s = Ret tt c' s ∧ same_ctx c c'.
Proof. eexists. split; [reflexivity|done]. Qed.

(** ** Tactics

    [kexec] runs a kernel function symbolically on an explicit context [mkctx h w p]: it unfolds
    the monad, and enters and leaves critical sections whose lock is not in [h]. *)
Lemma acquire_mk {S} l h w p (s : S) :
  l ∉ h → acquire l (mkctx h w p) s = Ret tt (mkctx (l :: h) w p) s.
Proof. apply (acquire_ret l (mkctx h w p)). Qed.

Lemma release_mk {S} l h w p (s : S) :
  release l (mkctx (l :: h) w p) s = Ret tt (mkctx h w p) s.
Proof. by apply release_head. Qed.

Ltac kexec_step :=
  first
    [ progress unfold kbind, kret, kgets, kget, kmod, mypid, panic, nofuel, wakeup
    | rewrite acquire_mk by (assumption || set_solver)
    | rewrite release_mk ];
  cbn beta iota zeta; cbn [held woken curpid].
Ltac kexec := repeat kexec_step.

Ltac kstep H := erewrite (kbind_ret _ _ _ _ _ _ _ H); cbn beta.

(** [fsplit] decides the reads of updated functions in the goal, by cases on the key. *)
Ltac fsplit :=
  repeat match goal with
  | |- context [@insert _ _ _ (@fn_insert _ _ _) ?i ?v ?f ?j] =>
      first
        [ rewrite (fn_lookup_insert_ne f i j v) by congruence
        | unify i j; rewrite (fn_lookup_insert f i v)
        | destruct (decide (j = i)) as [-> |] ]
  end.
