(* ===== verification/Machine.v ===== *)
(** * Machine-level data: fixed-width integers, byte strings, memory, configuration constants

    The types of kernel/types.h, the macros of kernel/riscv.h and the constants of kernel/param.h,
    kernel/memlayout.h and kernel/fs.h that the components use.  A w-bit unsigned integer is a [Z]
    kept in range by an explicit wrap; memory is a total map from addresses to bytes, accessed
    little-endian as on the K230. *)

From stdpp Require Import base list numbers strings.
From Stdlib Require Import ZArith Lia.
From S2P Require Import Prelude.

(** ** Fixed-width integers *)

Definition u8 (x : Z) : Z := x mod 2 ^ 8.
Definition u16 (x : Z) : Z := x mod 2 ^ 16.
Definition u32 (x : Z) : Z := x mod 2 ^ 32.
Definition u64 (x : Z) : Z := x mod 2 ^ 64.
Definition s32 (x : Z) : Z := let y := u32 x in if y <? 2 ^ 31 then y else y - 2 ^ 32.

(** The bytes of a string literal, without the final NUL. *)
Definition ascii_bytes (s : string) : list Z := (λ a, Z.of_N (Ascii.N_of_ascii a)) <$> String.list_ascii_of_string s.

(** ** Configuration constants *)

Definition NPROC : nat := 64.
Definition NCPU : nat := 2.
Definition NOFILE : nat := 16.
Definition NFILE : nat := 100.
Definition NINODE : nat := 50.
Definition ROOTDEV : Z := 1.
Definition MAXOPBLOCKS : Z := 10.
Definition LOGBLOCKS : Z := MAXOPBLOCKS * 3.
Definition NBUF : nat := Z.to_nat (MAXOPBLOCKS * 3).
Definition FSSIZE : Z := 2000.
Definition BSIZE : Z := 1024.
Definition NDEV : Z := 10.
Definition MAXARG : nat := 32.
Definition MAXPATH : Z := 128.
Definition USERSTACK : Z := 1.

Definition PGSIZE : Z := 4096.
Definition KERNBASE : Z := 0x00200000.
Definition PHYSTOP : Z := KERNBASE + 1022 * 1024 * 1024.
Definition MAXVA : Z := Z.shiftl 1 (9 + 9 + 9 + 12 - 1).
Definition TRAMPOLINE : Z := MAXVA - PGSIZE.
Definition TRAPFRAME : Z := TRAMPOLINE - PGSIZE.
Definition KSTACK (p : Z) : Z := TRAMPOLINE - (p + 1) * 2 * PGSIZE.

(** [~(PGSIZE-1)] is an [int] constant, sign-extended to 64 bits by the conversion. *)
Definition PGROUNDDOWN (a : Z) : Z := Z.land a (u64 (Z.lnot (PGSIZE - 1))).
Definition PGROUNDUP (sz : Z) : Z := Z.land (u64 (sz + PGSIZE - 1)) (u64 (Z.lnot (PGSIZE - 1))).

(** The condition [x & mask] of an [if] or a [while]. *)
Definition has (x mask : Z) : bool := negb (Z.land x mask =? 0).

(** ** Byte strings *)

Definition byte (b : Z) : Prop := 0 <= b < 256.

Fixpoint le_split (n : nat) (z : Z) : list Z :=
  match n with
  | O => []
  | S n' => z mod 256 :: le_split n' (z / 256)
  end.

Fixpoint le_combine (l : list Z) : Z :=
  match l with
  | [] => 0
  | b :: l' => b + 256 * le_combine l'
  end.

(** Overwriting part of an array. *)
Definition splice {A} (d : list A) (off : nat) (l : list A) : list A :=
  take off d ++ l ++ drop (off + length l) d.

Definition slice {A} (d : list A) (off n : nat) : list A := take n (drop off d).

(** A 32-bit field of a structure laid over a byte array. *)
Definition ld32 (d : list Z) (off : nat) : Z := le_combine (slice d off 4).
Definition st32 (d : list Z) (off : nat) (v : Z) : list Z := splice d off (le_split 4 (u32 v)).

(** ** Memory *)

Definition mem := Z → Z.

Definition mput (m : mem) (a v : Z) : mem := λ x, if x =? a then v else m x.

Definition mread (m : mem) (a : Z) (n : nat) : list Z := (λ i, m (a + Z.of_nat i)) <$> seq 0 n.

Definition mwrite (m : mem) (a : Z) (l : list Z) : mem :=
  let e := a + Z.of_nat (length l) in
  λ x, if (a <=? x) && (x <? e) then nth (Z.to_nat (x - a)) l 0 else m x.

Definition mfill (m : mem) (a : Z) (v : Z) (n : Z) : mem := λ x,
  if (a <=? x) && (x <? a + n) then v else m x.

Definition load64 (m : mem) (a : Z) : Z := le_combine (mread m a 8).
Definition store64 (m : mem) (a v : Z) : mem := mwrite m a (le_split 8 (u64 v)).

(** ** Lemmas: integers *)

Ltac uconst := unfold TRAPFRAME, TRAMPOLINE, MAXVA, PHYSTOP, KERNBASE, PGSIZE,
  BSIZE, LOGBLOCKS, MAXOPBLOCKS, ROOTDEV, FSSIZE in *;
  change (Z.shiftl 1 (9 + 9 + 9 + 12 - 1)) with (2 ^ 38) in *.

Lemma u32_small x : 0 <= x < 2 ^ 32 → u32 x = x.
Proof. apply Z.mod_small. Qed.
Lemma u64_small x : 0 <= x < 2 ^ 64 → u64 x = x.
Proof. apply Z.mod_small. Qed.
Lemma u32_range x : 0 <= u32 x < 2 ^ 32.
Proof. apply Z.mod_pos_bound. lia. Qed.
Lemma u64_range x : 0 <= u64 x < 2 ^ 64.
Proof. apply Z.mod_pos_bound. lia. Qed.

Lemma s32_small x : 0 <= x < 2 ^ 31 → s32 x = x.
Proof.
  intros. unfold s32. rewrite u32_small by lia.
  by destruct (Z.ltb_spec x (2 ^ 31)); [|lia].
Qed.

Lemma s32_range x : - 2 ^ 31 <= s32 x < 2 ^ 31.
Proof.
  unfold s32. pose proof (u32_range x). destruct (Z.ltb_spec (u32 x) (2 ^ 31)); lia.
Qed.

(** Masking with ~(PGSIZE-1) clears the page offset. *)
Lemma land_page_mask a :
  0 <= a < 2 ^ 64 → Z.land a (u64 (Z.lnot (PGSIZE - 1))) = a - a mod PGSIZE.
Proof.
  intros Ha.
  replace (u64 (Z.lnot (PGSIZE - 1))) with (Z.ldiff (Z.ones 64) (Z.ones 12))
    by reflexivity.
  replace (Z.land a (Z.ldiff (Z.ones 64) (Z.ones 12))) with (Z.ldiff a (Z.ones 12)).
  - rewrite Z.ldiff_ones_r, Z.shiftr_div_pow2, Z.shiftl_mul_pow2 by lia.
    change PGSIZE with (2 ^ 12). pose proof (Z.div_mod a (2 ^ 12)). lia.
  - apply Z.bits_inj'. intros n Hn.
    rewrite Z.land_spec, !Z.ldiff_spec.
    destruct (Z.lt_ge_cases n 64).
    + rewrite (Z.ones_spec_low 64) by lia. by rewrite andb_true_l.
    + rewrite (Z.bits_above_log2 a n); [done|lia|].
      destruct (Z.eq_dec a 0) as [->|]; [simpl; lia|].
      apply Z.log2_lt_pow2; [lia|].
      apply Z.lt_le_trans with (2 ^ 64); [lia|]. apply Z.pow_le_mono_r; lia.
Qed.

Lemma PGROUNDDOWN_eq a : 0 <= a < 2 ^ 64 → PGROUNDDOWN a = a - a mod PGSIZE.
Proof. apply land_page_mask. Qed.

Lemma PGROUNDUP_eq a :
  0 <= a → a + PGSIZE - 1 < 2 ^ 64 →
  PGROUNDUP a = a + PGSIZE - 1 - (a + PGSIZE - 1) mod PGSIZE.
Proof.
  intros. unfold PGROUNDUP. rewrite u64_small by (uconst; lia).
  apply land_page_mask. uconst. lia.
Qed.

Lemma PGROUNDUP_spec a :
  0 <= a → a + PGSIZE - 1 < 2 ^ 64 →
  PGROUNDUP a mod PGSIZE = 0 ∧ a <= PGROUNDUP a < a + PGSIZE.
Proof.
  intros. rewrite PGROUNDUP_eq by done. uconst.
  pose proof (Z.mod_pos_bound (a + 4096 - 1) 4096).
  split; [|lia].
  rewrite Zminus_mod_idemp_r, Z.sub_diag. done.
Qed.

Lemma has_bit v k : 0 <= k → has v (Z.shiftl 1 k) = Z.testbit v k.
Proof.
  intros Hk. unfold has. rewrite Z.shiftl_1_l. destruct (Z.testbit v k) eqn:E.
  - apply negb_true_iff, Z.eqb_neq. intros H0.
    assert (Z.testbit (Z.land v (2 ^ k)) k = true) as Hb by (rewrite Z.land_spec, E, Z.pow2_bits_true; done).
    by rewrite H0, Z.bits_0 in Hb.
  - apply negb_false_iff, Z.eqb_eq. apply Z.bits_inj'. intros n Hn.
    rewrite Z.land_spec, Z.bits_0. destruct (Z.eq_dec n k) as [->|Hne]; [by rewrite E|].
    rewrite Z.pow2_bits_false by done. apply andb_false_r.
Qed.

(** ** Lemmas: byte strings *)

Lemma length_le_split n z : length (le_split n z) = n.
Proof. revert z. induction n; intros; simpl; auto. Qed.

Lemma le_combine_split n z : le_combine (le_split n z) = z mod 256 ^ Z.of_nat n.
Proof.
  revert z. induction n as [|n IH]; intros z; [by rewrite Z.mod_1_r|].
  cbn [le_split le_combine]. rewrite IH.
  rewrite Nat2Z.inj_succ, Z.pow_succ_r by lia.
  rewrite (Z.rem_mul_r z 256) by lia. done.
Qed.

Lemma le_split_bytes n z : Forall byte (le_split n z).
Proof.
  revert z. induction n; intros; simpl; constructor; auto.
  apply Z.mod_pos_bound. lia.
Qed.

Section lists.
Context {A : Type}.
Implicit Types d l : list A.

Lemma length_splice d off l :
  (off + length l ≤ length d)%nat → length (splice d off l) = length d.
Proof. intros. unfold splice. rewrite !length_app, length_take, length_drop. lia. Qed.

Lemma length_slice d off n : (off + n ≤ length d)%nat → length (slice d off n) = n.
Proof. intros. unfold slice. rewrite length_take, length_drop. lia. Qed.

Lemma slice_splice_eq d off l :
  (off + length l ≤ length d)%nat → slice (splice d off l) off (length l) = l.
Proof.
  intros. unfold slice, splice.
  rewrite drop_app_ge by (rewrite length_take; lia).
  rewrite length_take, Nat.min_l by lia. rewrite Nat.sub_diag, drop_0.
  by rewrite take_app_length.
Qed.

Lemma lookup_splice_ne d off l i :
  (off + length l ≤ length d)%nat → (i < off ∨ off + length l ≤ i)%nat →
  splice d off l !! i = d !! i.
Proof.
  intros Hl [Hi|Hi]; unfold splice.
  - rewrite lookup_app_l by (rewrite length_take; lia). by rewrite lookup_take_lt.
  - rewrite lookup_app_r by (rewrite length_take; lia).
    rewrite length_take, Nat.min_l by lia.
    rewrite lookup_app_r by lia. rewrite lookup_drop. f_equal. lia.
Qed.

Lemma slice_splice_ne d off l o n :
  (off + length l ≤ length d)%nat → (o + n ≤ off ∨ off + length l ≤ o)%nat →
  slice (splice d off l) o n = slice d o n.
Proof.
  intros Hl Hd. apply list_eq. intros i. unfold slice.
  destruct (decide (i < n)%nat).
  - rewrite !lookup_take_lt by done. rewrite !lookup_drop.
    apply lookup_splice_ne; [done|lia].
  - by rewrite !lookup_take_ge by lia.
Qed.
End lists.

Lemma length_st32 d off v : (off + 4 ≤ length d)%nat → length (st32 d off v) = length d.
Proof. intros. unfold st32. apply length_splice. rewrite length_le_split. lia. Qed.

Lemma ld32_st32 d off v : (off + 4 ≤ length d)%nat → ld32 (st32 d off v) off = u32 v.
Proof.
  intros. unfold ld32, st32.
  rewrite <- (length_le_split 4 (u32 v)) at 2.
  rewrite slice_splice_eq by (by rewrite length_le_split).
  rewrite le_combine_split. change (256 ^ Z.of_nat 4) with (2 ^ 32).
  apply Z.mod_small, u32_range.
Qed.

Lemma ld32_st32_ne d off v o :
  (off + 4 ≤ length d)%nat → (o + 4 ≤ off ∨ off + 4 ≤ o)%nat →
  ld32 (st32 d off v) o = ld32 d o.
Proof.
  intros. unfold ld32, st32. by rewrite slice_splice_ne by (rewrite length_le_split; lia).
Qed.

(** ** Lemmas: memory *)

Lemma mput_eq m a v : mput m a v a = v.
Proof. unfold mput. by rewrite Z.eqb_refl. Qed.

Lemma mput_ne m a v x : x ≠ a → mput m a v x = m x.
Proof. intros. unfold mput. by destruct (Z.eqb_spec x a). Qed.

Lemma length_mread m a n : length (mread m a n) = n.
Proof. unfold mread. by rewrite length_fmap, length_seq. Qed.

Lemma mread_ext m m' a n :
  (∀ x, a <= x < a + Z.of_nat n → m x = m' x) → mread m a n = mread m' a n.
Proof.
  intros E. unfold mread. apply list_fmap_ext. intros i j Hi.
  apply lookup_seq in Hi as [-> ?]. apply E. lia.
Qed.

Lemma mwrite_out m a l x :
  x < a ∨ a + Z.of_nat (length l) <= x → mwrite m a l x = m x.
Proof.
  intros. unfold mwrite.
  destruct (Z.leb_spec a x), (Z.ltb_spec x (a + Z.of_nat (length l))); simpl; lia || done.
Qed.

Lemma mfill_out m a v n x : x < a ∨ a + n <= x → mfill m a v n x = m x.
Proof.
  intros. unfold mfill.
  destruct (Z.leb_spec a x), (Z.ltb_spec x (a + n)); simpl; lia || done.
Qed.

Lemma mfill_in m a v n x : a <= x < a + n → mfill m a v n x = v.
Proof.
  intros. unfold mfill.
  destruct (Z.leb_spec a x), (Z.ltb_spec x (a + n)); simpl; lia || done.
Qed.

Lemma mread_mwrite_eq m a l : mread (mwrite m a l) a (length l) = l.
Proof.
  apply list_eq. intros i. unfold mread. rewrite list_lookup_fmap.
  destruct (decide (i < length l)%nat) as [Hi|Hi].
  - rewrite lookup_seq_lt by done. simpl. unfold mwrite.
    replace (a <=? a + Z.of_nat i) with true by (symmetry; apply Z.leb_le; lia).
    replace (a + Z.of_nat i <? a + Z.of_nat (length l)) with true
      by (symmetry; apply Z.ltb_lt; lia).
    simpl. replace (Z.to_nat (a + Z.of_nat i - a)) with i by lia.
    destruct (lookup_lt_is_Some_2 l i Hi) as [y Hy]. rewrite Hy.
    f_equal. by apply nth_lookup_Some.
  - rewrite lookup_seq_ge by lia. simpl. symmetry. apply lookup_ge_None. lia.
Qed.

Lemma mread_mwrite_ne m a l b n :
  b + Z.of_nat n <= a ∨ a + Z.of_nat (length l) <= b →
  mread (mwrite m a l) b n = mread m b n.
Proof. intros. apply mread_ext. intros. apply mwrite_out. lia. Qed.

Lemma load64_store64 m a v : 0 <= v < 2 ^ 64 → load64 (store64 m a v) a = v.
Proof.
  intros. unfold load64, store64.
  rewrite <- (length_le_split 8 (u64 v)) at 2.
  rewrite mread_mwrite_eq, le_combine_split.
  rewrite u64_small by done. by apply Z.mod_small.
Qed.

Lemma load64_ext m m' a : (∀ x, a <= x < a + 8 → m x = m' x) → load64 m a = load64 m' a.
Proof. intros. unfold load64. f_equal. apply mread_ext. intros. auto with lia. Qed.

Lemma load64_store64_ne m a v b :
  b + 8 <= a ∨ a + 8 <= b → load64 (store64 m a v) b = load64 m b.
Proof.
  intros. apply load64_ext. intros. apply mwrite_out. rewrite length_le_split. lia.
Qed.

