(* ===== verification/Ring.v ===== *)
(** * Ring buffers indexed by wrapping 32-bit counters

    The pipes (pipe.c) and the console input (uart.c) keep bytes in an array of [N] entries and count
    positions with [uint] counters that are never reset: entry [x % N] holds position [x].  This file
    has the arithmetic both share; [N] divides 2^32, so the index survives the wrap of the counter. *)

From stdpp Require Import base list numbers.
From Stdlib Require Import ZArith Lia.
From S2P Require Import Prelude Machine.

(** The number of positions from [a] to [b]: the value of the C expression [b - a]. *)
Definition udist (a b : Z) : Z := u32 (b - a).

(** [len] entries from position [from]. *)
Definition rseg (N : Z) (data : list Z) (from len : Z) : list Z :=
  (λ k, nth (Z.to_nat ((from + Z.of_nat k) mod N)) data 0) <$> seq 0 (Z.to_nat len).

Lemma udist_range a b : 0 <= udist a b < 2 ^ 32.
Proof. apply u32_range. Qed.

Lemma udist_refl a : udist a a = 0.
Proof. unfold udist. by rewrite Z.sub_diag. Qed.

Lemma udist_u32_r a b : udist a (u32 b) = udist a b.
Proof. unfold udist, u32. by rewrite Zminus_mod_idemp_l. Qed.

Lemma udist_u32_l a b : udist (u32 a) b = udist a b.
Proof. unfold udist, u32. by rewrite Zminus_mod_idemp_r. Qed.

Lemma udist_add a b k : 0 <= udist a b + k < 2 ^ 32 → udist a (b + k) = udist a b + k.
Proof.
  intros Hk. unfold udist, u32 in *. replace (b + k - a) with (b - a + k) by lia.
  rewrite <- Zplus_mod_idemp_l. by apply Z.mod_small.
Qed.

Lemma udist_sub a b k : 0 <= udist a b - k < 2 ^ 32 → udist (a + k) b = udist a b - k.
Proof.
  intros Hk. unfold udist, u32 in *. replace (b - (a + k)) with (b - a - k) by lia.
  rewrite <- Zminus_mod_idemp_l. by apply Z.mod_small.
Qed.

Lemma udist_zero a b : 0 <= a < 2 ^ 32 → 0 <= b < 2 ^ 32 → udist a b = 0 ↔ a = b.
Proof.
  intros Ha Hb. split; [|intros ->; apply udist_refl]. unfold udist, u32. intros E.
  pose proof (Z.div_mod (b - a) (2 ^ 32) ltac:(lia)). lia.
Qed.

(** [b] is [udist a b] steps after [a]. *)
Lemma udist_step a b : 0 <= a < 2 ^ 32 → 0 <= b < 2 ^ 32 → b = u32 (a + udist a b).
Proof.
  intros Ha Hb. unfold udist, u32. rewrite Zplus_mod_idemp_r. replace (a + (b - a)) with b by lia. by rewrite Z.mod_small.
Qed.

Section ring.
Context (N : Z) (HN : 0 < N) (Hdiv : (N | 2 ^ 32)).
Implicit Types (data : list Z) (from len x : Z).

Lemma u32_mod_ring x k : (u32 x + k) mod N = (x + k) mod N.
Proof.
  unfold u32. destruct Hdiv as [m Em]. rewrite (Z.mod_eq x (2 ^ 32)) by lia. rewrite Em at 1.
  replace (x - m * N * (x / 2 ^ 32) + k) with (x + k + - (m * (x / 2 ^ 32)) * N) by lia. apply Z.mod_add. lia.
Qed.

Lemma length_rseg data from len : length (rseg N data from len) = Z.to_nat len.
Proof. unfold rseg. by rewrite length_fmap, length_seq. Qed.

Lemma rseg_u32 data x len : rseg N data (u32 x) len = rseg N data x len.
Proof. unfold rseg. apply list_fmap_ext. intros i k _. by rewrite u32_mod_ring. Qed.

Lemma rseg_app data from a b : 0 <= a → 0 <= b →
  rseg N data from (a + b) = rseg N data from a ++ rseg N data (from + a) b.
Proof.
  intros Ha Hb. unfold rseg. rewrite Z2Nat.inj_add, seq_app, fmap_app by done. f_equal.
  rewrite (Nat.add_comm 0), <- fmap_add_seq, <- list_fmap_compose. apply list_fmap_ext. intros i k _. cbn [compose].
  do 3 f_equal. lia.
Qed.

Lemma rseg_one data from : rseg N data from 1 = [nth (Z.to_nat (from mod N)) data 0].
Proof. unfold rseg. change (Z.to_nat 1) with 1%nat. cbn. by rewrite Z.add_0_r. Qed.

(** A store at position [x] is invisible to [len] positions from [from] that do not include [x]. *)
Lemma rseg_put_ne data from len x v :
  udist from x + 1 <= N → len <= udist from x → 0 <= from → rseg N (<[Z.to_nat (x mod N):=v]> data) from len = rseg N data from len.
Proof.
  intros Hx Hl Hf. unfold rseg. apply list_fmap_ext. intros i k Hk. apply lookup_seq in Hk as [-> Hk].
  rewrite !nth_lookup, list_lookup_insert_ne; [done|]. intros Eq0.
  pose proof (Z.mod_pos_bound x N HN). pose proof (Z.mod_pos_bound (from + Z.of_nat (0 + i)) N HN).
  assert (Eq : x mod N = (from + Z.of_nat (0 + i)) mod N) by lia. clear Eq0.
  assert (Ex : x mod N = (from + udist from x) mod N).
  { unfold udist. rewrite (Z.add_comm from), u32_mod_ring. f_equal. lia. }
  rewrite Ex in Eq. pose proof (udist_range from x). pose proof (Z.div_mod (from + udist from x) N ltac:(lia)).
  pose proof (Z.div_mod (from + Z.of_nat (0 + i)) N ltac:(lia)).
  assert (Hq : (from + udist from x) / N = (from + Z.of_nat (0 + i)) / N ∨ (from + udist from x) / N > (from + Z.of_nat (0 + i)) / N).
  { pose proof (Z.div_le_mono (from + Z.of_nat (0 + i)) (from + udist from x) N HN ltac:(lia)). lia. }
  destruct Hq; nia.
Qed.

(** Appending at the end of a segment. *)
Lemma rseg_put data from x v :
  length data = Z.to_nat N → udist from x < N → 0 <= from →
  rseg N (<[Z.to_nat (x mod N):=v]> data) from (udist from x + 1) = rseg N data from (udist from x) ++ [v].
Proof.
  intros Hd Hx Hf. pose proof (udist_range from x) as Hr. rewrite rseg_app, rseg_put_ne by lia. f_equal.
  rewrite rseg_one. f_equal.
  assert (Ex : (from + udist from x) mod N = x mod N).
  { unfold udist. rewrite (Z.add_comm from), u32_mod_ring. f_equal. lia. }
  rewrite Ex. apply nth_lookup_Some, list_lookup_insert_eq. rewrite Hd. pose proof (Z.mod_pos_bound x N HN). lia.
Qed.
End ring.
