(* ===== verification/Kstring.v ===== *)
(** * Memory and string primitives (kernel/string.c)

    The functions run on a byte memory.  [memmove_copies] shows that the direction test makes the
    byte-by-byte copy correct for overlapping ranges; the string theorems relate the loops to the
    C strings the memory holds. *)

From stdpp Require Import base list functions numbers strings.
From Stdlib Require Import ZArith Lia.
From S2P Require Import Prelude Machine.

Implicit Types (m : mem) (a d s t p q : Z).

(** ** Operations

    A loop [while(n-- > 0)] is a recursion on the number of iterations; pointers are addresses. *)

Fixpoint memset_loop m (cdst c : Z) (i : Z) (k : nat) : mem :=
  match k with
  | O => m
  | S k' => memset_loop (mput m (cdst + i) (u8 c)) cdst c (i + 1) k'
  end.
Definition memset m (dst c n : Z) : mem := memset_loop m dst c 0 (Z.to_nat n).

Fixpoint memcmp_loop m (s1 s2 : Z) (n : nat) : Z :=
  match n with
  | O => 0
  | S n' => if m s1 =? m s2 then memcmp_loop m (s1 + 1) (s2 + 1) n' else m s1 - m s2
  end.
Definition memcmp m (v1 v2 n : Z) : Z := memcmp_loop m v1 v2 (Z.to_nat n).

(** [*d++ = *s++] *)
Fixpoint copy_up m d s (n : nat) : mem :=
  match n with
  | O => m
  | S n' => copy_up (mput m d (m s)) (d + 1) (s + 1) n'
  end.
(** [*--d = *--s] *)
Fixpoint copy_down m d s (n : nat) : mem :=
  match n with
  | O => m
  | S n' => copy_down (mput m (d - 1) (m (s - 1))) (d - 1) (s - 1) n'
  end.
Definition memmove m (dst src n : Z) : mem :=
  if n =? 0 then m
  else if (src <? dst) && (dst <? src + n) then copy_down m (dst + n) (src + n) (Z.to_nat n)
  else copy_up m dst src (Z.to_nat n).

Definition memcpy m (dst src n : Z) : mem := memmove m dst src n.

Fixpoint strncmp_loop m p q (n : nat) : Z :=
  match n with
  | O => 0
  | S n' =>
      if negb (m p =? 0) && (m p =? m q) then strncmp_loop m (p + 1) (q + 1) n'
      else m p - m q
  end.
Definition strncmp m p q (n : Z) : Z := strncmp_loop m p q (Z.to_nat n).

(** The padding loop, then the copying loop of [strncpy]: [k] is the number of bytes left. *)
Fixpoint strncpy_pad m s (k : nat) : mem :=
  match k with
  | O => m
  | S k' => strncpy_pad (mput m s 0) (s + 1) k'
  end.
Fixpoint strncpy_loop m s t (k : nat) : mem :=
  match k with
  | O => m
  | S k' =>
      let m' := mput m s (m t) in
      if m t =? 0 then strncpy_pad m' (s + 1) k' else strncpy_loop m' (s + 1) (t + 1) k'
  end.
Definition strncpy m s t (n : Z) : mem := strncpy_loop m s t (Z.to_nat n).

(** At most [k] = n - 1 bytes are copied, then a NUL is stored after the last byte written: a NUL
    that was copied is followed by a second one. *)
Fixpoint safestrcpy_loop m s t (k : nat) : mem :=
  match k with
  | O => mput m s 0
  | S k' =>
      let m' := mput m s (m t) in
      if m t =? 0 then mput m' (s + 1) 0 else safestrcpy_loop m' (s + 1) (t + 1) k'
  end.
Definition safestrcpy m s t (n : Z) : mem :=
  if n <=? 0 then m else safestrcpy_loop m s t (Z.to_nat (n - 1)).

(** [strlen]; [None] when no NUL is found within the fuel. *)
Fixpoint strlen_loop m s (n : Z) (fuel : nat) : option Z :=
  match fuel with
  | O => None
  | S fuel' => if m (s + n) =? 0 then Some n else strlen_loop m s (n + 1) fuel'
  end.
Definition strlen (fuel : nat) m s : option Z := strlen_loop m s 0 fuel.

(** ** What a bounded string field holds *)

(** The bytes at [a] up to the first NUL, and at most [n] of them: the meaning of a field such as
    [dirent.name], which need not end in a NUL. *)
Fixpoint name_at m a (n : nat) : list Z :=
  match n with
  | O => []
  | S n' => if m a =? 0 then [] else m a :: name_at m (a + 1) n'
  end.

(** ** Lemmas *)

Lemma name_at_ext n : ∀ m m' a,
  (∀ x, a <= x < a + Z.of_nat n → m' x = m x) → name_at m' a n = name_at m a n.
Proof.
  induction n as [|n IH]; intros m m' a E; [done|]. cbn [name_at].
  rewrite (E a) by lia. rewrite (IH m m') by (intros; apply E; lia). done.
Qed.

Lemma name_at_unfold n m a :
  name_at m a (S n) = if m a =? 0 then [] else m a :: name_at m (a + 1) n.
Proof. done. Qed.

Lemma name_at_length n : ∀ m a, (length (name_at m a n) ≤ n)%nat.
Proof.
  induction n as [|n IH]; intros; cbn [name_at]; [done|].
  destruct (_ =? 0); simpl; [lia|]. specialize (IH m (a + 1)). lia.
Qed.

(** The forward copy is right when the destination starts outside the bytes still to be read. *)
Lemma copy_up_spec n : ∀ m d s x,
  d <= s ∨ s + Z.of_nat n <= d →
  copy_up m d s n x =
    if (d <=? x) && (x <? d + Z.of_nat n) then m (s + (x - d)) else m x.
Proof.
  induction n as [|n IH]; intros m d s x Hov.
  { cbn [copy_up].
    destruct (Z.leb_spec d x), (Z.ltb_spec x (d + Z.of_nat 0)); simpl; lia || done. }
  cbn [copy_up]. rewrite IH by lia.
  destruct (Z.eq_dec x d) as [->|].
  - replace (d + 1 <=? d) with false by (symmetry; apply Z.leb_gt; lia). simpl.
    rewrite mput_eq.
    destruct (Z.leb_spec d d), (Z.ltb_spec d (d + Z.of_nat (S n))); try lia. simpl.
    f_equal. lia.
  - destruct (Z.leb_spec (d + 1) x), (Z.ltb_spec x (d + 1 + Z.of_nat n)),
      (Z.leb_spec d x), (Z.ltb_spec x (d + Z.of_nat (S n))); try lia; simpl;
      rewrite mput_ne by lia; auto. f_equal. lia.
Qed.

(** The backward copy is right when the source starts before the destination. *)
Lemma copy_down_spec n : ∀ m d s x,
  s <= d →
  copy_down m d s n x =
    if (d - Z.of_nat n <=? x) && (x <? d) then m (s - (d - x)) else m x.
Proof.
  induction n as [|n IH]; intros m d s x Hov.
  { cbn [copy_down].
    destruct (Z.leb_spec (d - Z.of_nat 0) x), (Z.ltb_spec x d); simpl; lia || done. }
  cbn [copy_down]. rewrite IH by lia.
  destruct (Z.eq_dec x (d - 1)) as [->|].
  - replace (d - 1 <? d - 1) with false by (symmetry; apply Z.ltb_ge; lia).
    rewrite andb_false_r, mput_eq.
    destruct (Z.leb_spec (d - Z.of_nat (S n)) (d - 1)), (Z.ltb_spec (d - 1) d); try lia.
    simpl. f_equal. lia.
  - destruct (Z.leb_spec (d - 1 - Z.of_nat n) x), (Z.ltb_spec x (d - 1)),
      (Z.leb_spec (d - Z.of_nat (S n)) x), (Z.ltb_spec x d); try lia; simpl;
      rewrite mput_ne by lia; auto. f_equal. lia.
Qed.

Lemma memset_loop_spec k : ∀ m a c i x,
  memset_loop m a c i k x =
    if (a + i <=? x) && (x <? a + i + Z.of_nat k) then u8 c else m x.
Proof.
  induction k as [|k IH]; intros m a c i x; cbn [memset_loop].
  { destruct (Z.leb_spec (a + i) x), (Z.ltb_spec x (a + i + Z.of_nat 0)); simpl; lia || done. }
  rewrite IH. destruct (Z.eq_dec x (a + i)) as [->|].
  - rewrite mput_eq.
    destruct (Z.leb_spec (a + i) (a + i)), (Z.ltb_spec (a + i) (a + i + Z.of_nat (S k)));
      try lia. simpl. by destruct (_ && _).
  - rewrite mput_ne by done.
    destruct (Z.leb_spec (a + (i + 1)) x), (Z.ltb_spec x (a + (i + 1) + Z.of_nat k)),
      (Z.leb_spec (a + i) x), (Z.ltb_spec x (a + i + Z.of_nat (S k))); try lia; done.
Qed.

(** [memset] has the closed form the other components use. *)
Lemma memset_mfill m a c n x : 0 <= n → memset m a c n x = mfill m a (u8 c) n x.
Proof.
  intros. unfold memset, mfill. rewrite memset_loop_spec, Z2Nat.id by done.
  by rewrite Z.add_0_r.
Qed.

Lemma strncmp_loop_zero n : ∀ m p q,
  strncmp_loop m p q n = 0 ↔ name_at m p n = name_at m q n.
Proof.
  induction n as [|n IH]; intros m p q; [done|]. cbn [strncmp_loop name_at].
  destruct (Z.eqb_spec (m p) 0) as [E|E], (Z.eqb_spec (m q) 0) as [F|F],
    (Z.eqb_spec (m p) (m q)) as [G|G]; simpl; try (rewrite IH); split; intros H;
    try lia; try done; try congruence; injection H; congruence.
Qed.

Lemma strncpy_pad_out k : ∀ m s x,
  x < s ∨ s + Z.of_nat k <= x → strncpy_pad m s k x = m x.
Proof.
  induction k as [|k IH]; intros m s x Hx; cbn [strncpy_pad]; [done|].
  rewrite IH, mput_ne by lia. done.
Qed.

Lemma strncpy_pad_in k : ∀ m s x, s <= x < s + Z.of_nat k → strncpy_pad m s k x = 0.
Proof.
  induction k as [|k IH]; intros m s x Hx; cbn [strncpy_pad]; [lia|].
  destruct (Z.eq_dec x s) as [->|]; [|apply IH; lia].
  rewrite strncpy_pad_out by lia. apply mput_eq.
Qed.

Lemma strncpy_loop_out k : ∀ m s t x,
  x < s ∨ s + Z.of_nat k <= x → strncpy_loop m s t k x = m x.
Proof.
  induction k as [|k IH]; intros m s t x Hx; cbn [strncpy_loop]; [done|].
  destruct (m t =? 0); [rewrite strncpy_pad_out by lia|rewrite IH by lia];
    by rewrite mput_ne by lia.
Qed.

Lemma strncpy_loop_name k : ∀ m s t,
  s + Z.of_nat k <= t ∨ t + Z.of_nat k <= s →
  name_at (strncpy_loop m s t k) s k = name_at m t k.
Proof.
  induction k as [|k IH]; intros m s t Hd; [done|]. cbn [strncpy_loop name_at].
  destruct (Z.eqb_spec (m t) 0) as [E|E].
  - rewrite strncpy_pad_out, mput_eq by lia. by rewrite E.
  - rewrite strncpy_loop_out, mput_eq by lia.
    destruct (Z.eqb_spec (m t) 0); [done|]. f_equal.
    rewrite IH by lia. apply name_at_ext. intros. apply mput_ne. lia.
Qed.

(** Once [strncpy] has copied the NUL, the rest of the field is zero. *)
Lemma strncpy_loop_pad k : ∀ m s t x,
  s + Z.of_nat k <= t ∨ t + Z.of_nat k <= s →
  s + Z.of_nat (length (name_at m t k)) <= x < s + Z.of_nat k →
  strncpy_loop m s t k x = 0.
Proof.
  induction k as [|k IH]; intros m s t x Hd Hx; [simpl in *; lia|].
  cbn [strncpy_loop name_at] in *. destruct (Z.eqb_spec (m t) 0) as [E|E].
  - destruct (Z.eq_dec x s) as [->|].
    + rewrite strncpy_pad_out, mput_eq by lia. done.
    + apply strncpy_pad_in. simpl in Hx. lia.
  - apply IH; [lia|].
    rewrite (name_at_ext k m) by (intros; apply mput_ne; lia). simpl in Hx. lia.
Qed.

Lemma safestrcpy_loop_out k : ∀ m s t x,
  x < s ∨ s + Z.of_nat k < x → safestrcpy_loop m s t k x = m x.
Proof.
  induction k as [|k IH]; intros m s t x Hx; cbn [safestrcpy_loop].
  - apply mput_ne. lia.
  - destruct (m t =? 0); [by rewrite !mput_ne by lia|]. by rewrite IH, mput_ne by lia.
Qed.

Lemma safestrcpy_loop_name k : ∀ m s t,
  s + Z.of_nat k < t ∨ t + Z.of_nat k <= s →
  name_at (safestrcpy_loop m s t k) s (S k) = name_at m t k.
Proof.
  induction k as [|k IH]; intros m s t Hd.
  - simpl. by rewrite mput_eq.
  - cbn [safestrcpy_loop]. rewrite (name_at_unfold k m t), name_at_unfold.
    destruct (Z.eqb_spec (m t) 0) as [E|E].
    + by rewrite mput_ne, mput_eq, E by lia.
    + rewrite safestrcpy_loop_out, mput_eq by lia.
      destruct (Z.eqb_spec (m t) 0); [done|]. f_equal.
      rewrite IH by lia. apply name_at_ext. intros. apply mput_ne. lia.
Qed.

Lemma strlen_loop_spec fuel : ∀ m s n,
  0 <= n → (length (name_at m (s + n) fuel) < fuel)%nat →
  strlen_loop m s n fuel = Some (n + Z.of_nat (length (name_at m (s + n) fuel))).
Proof.
  induction fuel as [|fuel IH]; intros m s n Hn; [simpl; lia|].
  cbn [strlen_loop name_at]. destruct (Z.eqb_spec (m (s + n)) 0); simpl.
  - intros _. f_equal. lia.
  - replace (s + n + 1) with (s + (n + 1)) by lia. intros Hl.
    rewrite IH by lia. f_equal. lia.
Qed.

Lemma memmove_spec m dst src n x :
  0 <= n →
  memmove m dst src n x =
    if (dst <=? x) && (x <? dst + n) then m (src + (x - dst)) else m x.
Proof.
  intros Hn. unfold memmove. destruct (Z.eqb_spec n 0) as [->|].
  { destruct (Z.leb_spec dst x), (Z.ltb_spec x (dst + 0)); simpl; lia || done. }
  destruct (Z.ltb_spec src dst), (Z.ltb_spec dst (src + n)); simpl.
  - rewrite copy_down_spec, Z2Nat.id by lia.
    replace (dst + n - n) with dst by lia. by replace (src + n - (dst + n - x)) with
      (src + (x - dst)) by lia.
  - rewrite copy_up_spec; rewrite Z2Nat.id by lia; done || lia.
  - rewrite copy_up_spec; rewrite Z2Nat.id by lia; done || lia.
  - rewrite copy_up_spec; rewrite Z2Nat.id by lia; done || lia.
Qed.

(** The bytes of the source at the destination, all at once. *)
Definition mcopy m (dst src n : Z) : mem := let l := mread m src (Z.to_nat n) in mwrite m dst l.

Lemma mcopy_spec m dst src n x :
  0 <= n → mcopy m dst src n x = if (dst <=? x) && (x <? dst + n) then m (src + (x - dst)) else m x.
Proof.
  intros Hn. unfold mcopy, mwrite. rewrite length_mread, Z2Nat.id by done.
  destruct (Z.leb_spec dst x), (Z.ltb_spec x (dst + n)); simpl; try done.
  unfold mread. rewrite nth_lookup, list_lookup_fmap, lookup_seq_lt by lia. simpl. f_equal. lia.
Qed.

(** What the callers of [memmove] use. *)
Lemma mcopy_memmove m dst src n x : 0 <= n → mcopy m dst src n x = memmove m dst src n x.
Proof. intros Hn. by rewrite mcopy_spec, memmove_spec. Qed.

(** ** Theorems *)

(** [memmove] copies the source bytes as they were before the call, whether or not the two
    ranges overlap and in either order, and writes nothing else. *)
Theorem memmove_copies m dst src n x :
  0 <= n →
  memmove m dst src n x =
    if (dst <=? x) && (x <? dst + n) then m (src + (x - dst)) else m x.
Proof. apply memmove_spec. Qed.

Lemma memmove_copies_witness :
  memmove (λ x, x) 12 10 4 15 = 13 ∧ memmove (λ x, x) 8 10 4 11 = 13.
Proof.
  split; [rewrite (memmove_copies (λ x, x) 12 10 4 15)|
          rewrite (memmove_copies (λ x, x) 8 10 4 11)]; reflexivity || lia.
Defined.

(** [strncmp] returns 0 exactly when the two bounded strings are equal, and a name stored with
    [strncpy] into a field of the same bound reads back as that name: the pair is what directory
    entries rely on.  The field is zero after the name and the bytes outside it are untouched. *)
Theorem strncpy_strncmp m s t n :
  0 <= n → s + n <= t ∨ t + n <= s →
  let m' := strncpy m s t n in
  name_at m' s (Z.to_nat n) = name_at m t (Z.to_nat n) ∧
  strncmp m' s t n = 0 ∧
  (∀ q, q + n <= s ∨ s + n <= q →
     strncmp m' s q n = 0 ↔ name_at m t (Z.to_nat n) = name_at m q (Z.to_nat n)) ∧
  (∀ x, s + Z.of_nat (length (name_at m t (Z.to_nat n))) <= x < s + n → m' x = 0) ∧
  (∀ x, x < s ∨ s + n <= x → m' x = m x).
Proof.
  intros Hn Hd m'.
  assert (Hext : ∀ q, q + n <= s ∨ s + n <= q →
            name_at m' q (Z.to_nat n) = name_at m q (Z.to_nat n)).
  { intros q Hq. apply name_at_ext. intros. apply strncpy_loop_out.
    rewrite Z2Nat.id by lia. lia. }
  assert (Hname : name_at m' s (Z.to_nat n) = name_at m t (Z.to_nat n)).
  { apply strncpy_loop_name. rewrite Z2Nat.id by lia. lia. }
  split_and!; [done|..].
  - apply strncmp_loop_zero. rewrite Hname, Hext by lia. done.
  - intros q Hq. unfold strncmp. by rewrite strncmp_loop_zero, Hname, Hext.
  - intros x Hx. apply strncpy_loop_pad; rewrite Z2Nat.id by lia; lia.
  - intros x Hx. apply strncpy_loop_out. rewrite Z2Nat.id by lia. lia.
Qed.

Lemma strncpy_strncmp_witness :
  let m := mwrite (λ _, 7) 100 [97; 98; 0] in
  strncmp (strncpy m 0 100 14) 0 100 14 = 0 ∧ strncpy m 0 100 14 13 = 0.
Proof.
  intros m. destruct (strncpy_strncmp m 0 100 14) as (_ & H & _ & Hz & _).
  - lia.
  - lia.
  - split; [exact H|]. apply Hz. vm_compute. split; [discriminate|reflexivity].
Defined.

(** [safestrcpy] into a buffer of [n] > 0 bytes always leaves a NUL-terminated string: the
    longest prefix of the source that fits in n - 1 bytes; it writes only inside the buffer. *)
Theorem safestrcpy_terminates m s t n :
  0 < n → s + n <= t ∨ t + n <= s →
  let m' := safestrcpy m s t n in
  name_at m' s (Z.to_nat n) = name_at m t (Z.to_nat (n - 1)) ∧
  strlen (Z.to_nat n) m' s = Some (Z.of_nat (length (name_at m t (Z.to_nat (n - 1))))) ∧
  (∀ x, x < s ∨ s + n <= x → m' x = m x).
Proof.
  intros Hn Hd m'. unfold safestrcpy in m'.
  destruct (Z.leb_spec n 0); [lia|].
  assert (En : Z.to_nat n = S (Z.to_nat (n - 1))) by lia.
  assert (Hname : name_at m' s (Z.to_nat n) = name_at m t (Z.to_nat (n - 1))).
  { rewrite En. apply safestrcpy_loop_name. rewrite Z2Nat.id by lia. lia. }
  pose proof (name_at_length (Z.to_nat (n - 1)) m t) as Hl.
  split_and!; [done|..].
  - unfold strlen. rewrite strlen_loop_spec; rewrite ?Z.add_0_r, ?Hname; [done|lia|lia].
  - intros x Hx. apply safestrcpy_loop_out. rewrite Z2Nat.id by lia. lia.
Qed.

Lemma safestrcpy_terminates_witness :
  strlen 3 (safestrcpy (mwrite (λ _, 7) 100 [97; 98; 99; 100; 0]) 0 100 3) 0 = Some 2.
Proof.
  destruct (safestrcpy_terminates (mwrite (λ _, 7) 100 [97; 98; 99; 100; 0]) 0 100 3)
    as (_ & H & _); [lia|lia|]. exact H.
Defined.
