(* ===== verification/Spinlock.v ===== *)
(** * Spin locks on several CPUs (kernel/spinlock.c)

    Each CPU executes [acquire] and [release] one memory operation at a time, interleaved with the
    other CPUs; the state of a lock is its two fields [locked] and [cpu], that of a CPU its
    [noff] and [intena] fields and the interrupt-enable bit of its sstatus register.  The invariant
    [spin_inv] is preserved by every step; from it follow mutual exclusion, that the panics of
    pop_off are unreachable, and that a CPU holding a lock has interrupts disabled. *)

From stdpp Require Import base list functions sets relations numbers strings.
From Stdlib Require Import ZArith Lia.
From S2P Require Import Prelude Machine.

(** ** Data *)

(** [struct spinlock]; [lk_cpu] is [None] for a null pointer. *)
Record spinlock := mkspin { locked : Z; lk_cpu : option nat }.

(** The fields of [struct cpu] used here, and SSTATUS_SIE of the hart. *)
Record cpu := mkcpu { noff : Z; intena : bool; sie : bool }.

Definition initlock : spinlock := mkspin 0 None.
Definition cpuinit (ie : bool) : cpu := mkcpu 0 false ie.

(** ** push_off and pop_off *)

Definition push_off (c : cpu) : cpu :=
  let old := sie c in
  mkcpu (noff c + 1) (if noff c =? 0 then old else intena c) false.

Definition pop_off (c : cpu) : cpu + string :=
  if sie c then inr "pop_off - interruptible"%string
  else if noff c <? 1 then inr "pop_off"%string
  else
    let n := noff c - 1 in
    inl (mkcpu n (intena c) (if (n =? 0) && intena c then true else sie c)).

(** [holding(lk)] on CPU [i]. *)
Definition holding (lk : spinlock) (i : nat) : bool :=
  negb (locked lk =? 0) && bool_decide (lk_cpu lk = Some i).

(** ** The interleaved machine *)

(** Where a CPU is in the lock code. *)
Inductive pc :=
  | Run                 (* outside acquire and release *)
  | AcqTest (l : lock)  (* push_off done, in holding(lk): about to load lk->locked *)
  | AcqCpu (l : lock)   (* it was not 0, about to load lk->cpu *)
  | AcqSpin (l : lock)  (* about to execute the atomic swap *)
  | AcqSet (l : lock)   (* the swap returned 0, about to store lk->cpu *)
  | RelTest (l : lock)  (* in holding(lk): about to load lk->locked *)
  | RelCpu (l : lock)   (* it was not 0, about to load lk->cpu *)
  | RelClr (l : lock)   (* about to clear lk->cpu *)
  | RelSwap (l : lock)  (* about to store 0 into lk->locked *)
  | RelPop              (* about to call pop_off *)
  | Dead (msg : string).

#[global] Instance pc_eq_dec : EqDecision pc.
Proof. solve_decision. Defined.

Record smp := mksmp {
  at_pc : nat → pc;
  cpus : nat → cpu;
  locks : lock → spinlock
}.

Definition set_pc (i : nat) (p : pc) (s : smp) : smp := mksmp (<[i:=p]> (at_pc s)) (cpus s) (locks s).
Definition set_cpu (i : nat) (c : cpu) (s : smp) : smp := mksmp (at_pc s) (<[i:=c]> (cpus s)) (locks s).
Definition set_lock (l : lock) (k : spinlock) (s : smp) : smp :=
  mksmp (at_pc s) (cpus s) (<[l:=k]> (locks s)).

(** One memory operation of CPU [i]. *)
Definition cpu_step (i : nat) (s : smp) : smp :=
  match at_pc s i with
  | Run | Dead _ => s
  | AcqTest l => if locked (locks s l) =? 0 then set_pc i (AcqSpin l) s else set_pc i (AcqCpu l) s
  | AcqCpu l =>
      if bool_decide (lk_cpu (locks s l) = Some i) then set_pc i (Dead "acquire") s else set_pc i (AcqSpin l) s
  | AcqSpin l =>                                (* amoswap.w.aq *)
      let old := locked (locks s l) in
      let s' := set_lock l (mkspin 1 (lk_cpu (locks s l))) s in
      if old =? 0 then set_pc i (AcqSet l) s' else s'
  | AcqSet l => set_pc i Run (set_lock l (mkspin (locked (locks s l)) (Some i)) s)
  | RelTest l => if locked (locks s l) =? 0 then set_pc i (Dead "release") s else set_pc i (RelCpu l) s
  | RelCpu l =>
      if bool_decide (lk_cpu (locks s l) = Some i) then set_pc i (RelClr l) s else set_pc i (Dead "release") s
  | RelClr l => set_pc i (RelSwap l) (set_lock l (mkspin (locked (locks s l)) None) s)
  | RelSwap l => set_pc i RelPop (set_lock l (mkspin 0 (lk_cpu (locks s l))) s)
  | RelPop =>
      match pop_off (cpus s i) with
      | inl c => set_pc i Run (set_cpu i c s)
      | inr msg => set_pc i (Dead msg) s
      end
  end.

(** A CPU outside the lock code may call [acquire] or [release] on any lock, and, while it holds
    no lock, switch its interrupts on or off. *)
Inductive step : smp → smp → Prop :=
  | step_acquire i l s :
      (i < NCPU)%nat → at_pc s i = Run →
      step s (set_pc i (AcqTest l) (set_cpu i (push_off (cpus s i)) s))
  | step_release i l s :
      (i < NCPU)%nat → at_pc s i = Run → step s (set_pc i (RelTest l) s)
  | step_intr i b s :
      (i < NCPU)%nat → at_pc s i = Run → noff (cpus s i) = 0 →
      step s (set_cpu i (mkcpu (noff (cpus s i)) (intena (cpus s i)) b) s)
  | step_cpu i s : (i < NCPU)%nat → step s (cpu_step i s).

Definition boot : smp := mksmp (λ _, Run) (λ _, cpuinit false) (λ _, initlock).

(** CPU [i] is between the swap that took lock [l] and the store that releases it. *)
Definition in_section (s : smp) (i : nat) (l : lock) : Prop :=
  (locked (locks s l) = 1 ∧ lk_cpu (locks s l) = Some i) ∨
  at_pc s i = AcqSet l ∨ at_pc s i = RelSwap l.

(** ** The invariant *)

(** [push_off] has been called for a lock that [lk_cpu] does not show as held. *)
Definition pending (p : pc) : Z :=
  match p with
  | AcqTest _ | AcqCpu _ | AcqSpin _ | AcqSet _ | RelSwap _ | RelPop => 1
  | Dead _ | Run | RelTest _ | RelCpu _ | RelClr _ => 0
  end.

(** The CPU owns [l] although lk->cpu is null. *)
Definition between (p : pc) (l : lock) : bool :=
  match p with
  | AcqSet l' | RelSwap l' => bool_decide (l = l')
  | _ => false
  end.

(** [noff] counts the [k] locks held and the one in transit; a CPU can only die of a misused lock. *)
Definition noff_ok (p : pc) (n : Z) (k : nat) : Prop :=
  match p with
  | Dead m => m = "acquire"%string ∨ m = "release"%string
  | _ => n = Z.of_nat k + pending p
  end.

(** [hs i] are the locks whose [cpu] field is CPU [i]. *)
Record spin_inv (hs : nat → list lock) (s : smp) : Prop := {
  si_owner : ∀ i l, lk_cpu (locks s l) = Some i ↔ l ∈ hs i;
  si_nodup : ∀ i, NoDup (hs i);
  si_locked : ∀ l, locked (locks s l) = 0 ∨ locked (locks s l) = 1;
  si_owned : ∀ i l, lk_cpu (locks s l) = Some i →
    locked (locks s l) = 1 ∧ ∀ j, between (at_pc s j) l = false;
  si_between : ∀ i l, between (at_pc s i) l = true →
    locked (locks s l) = 1 ∧ lk_cpu (locks s l) = None ∧
    ∀ j, between (at_pc s j) l = true → j = i;
  si_clr : ∀ i l, at_pc s i = RelClr l → lk_cpu (locks s l) = Some i;
  si_noff : ∀ i, noff_ok (at_pc s i) (noff (cpus s i)) (length (hs i));
  si_sie : ∀ i, 0 < noff (cpus s i) → sie (cpus s i) = false
}.

(** ** Preservation *)

Section preservation.
Implicit Types (s : smp) (i j : nat) (l : lock) (hs : nat → list lock).

Lemma spin_inv_boot : spin_inv (λ _, []) boot.
Proof. split; simpl; try done; try (intros; set_solver). by left. Qed.

(** Moving CPU [i] between program points that claim no lock leaves the lock part alone. *)
Lemma spin_inv_move hs s i p c :
  spin_inv hs s → (∀ l, between p l = false) → (∀ l, between (at_pc s i) l = false) →
  (∀ l, p = RelClr l → lk_cpu (locks s l) = Some i) →
  noff_ok p (noff c) (length (hs i)) →
  (0 < noff c → sie c = false) →
  spin_inv hs (set_pc i p (set_cpu i c s)).
Proof.
  intros [H1 H2 H3 H4 H5 H6 H7 H8] Hp Hi Hclr Hn Hs. split; simpl; auto.
  - intros j l Hj. destruct (H4 j l Hj) as [? Hb]. split; [done|].
    intros k. fsplit; auto.
  - intros j l. fsplit; [by rewrite Hp|]. intros Hb.
    destruct (H5 j l Hb) as (? & ? & Hu). split_and!; [done..|].
    intros k. fsplit; [by rewrite Hp|auto].
  - intros j l. fsplit; auto.
  - intros j. fsplit; auto.
  - intros j. fsplit; auto.
Qed.

Lemma set_cpu_same s i : ∀ j, cpus (set_cpu i (cpus s i) s) j = cpus s j.
Proof. intros j. simpl. by fsplit. Qed.

(** [spin_inv] reads the CPUs and program points only pointwise. *)
Lemma spin_inv_ext hs s s' :
  spin_inv hs s → (∀ i, at_pc s' i = at_pc s i) → (∀ i, cpus s' i = cpus s i) →
  (∀ l, locks s' l = locks s l) → spin_inv hs s'.
Proof.
  intros [H1 H2 H3 H4 H5 H6 H7 H8] Ep Ec El. split; intros *; rewrite ?Ep, ?Ec, ?El; auto.
  - intros Hj. destruct (H4 i l Hj) as [? Hb]. split; [done|]. intros k. by rewrite Ep.
  - intros Hb. destruct (H5 i l Hb) as (? & ? & Hu). split_and!; [done..|].
    intros k. rewrite Ep. auto.
Qed.

(** Moves that do not touch the CPU's interrupt state. *)
Lemma spin_inv_goto hs s i p :
  spin_inv hs s → (∀ l, between p l = false) → (∀ l, between (at_pc s i) l = false) →
  (∀ l, p = RelClr l → lk_cpu (locks s l) = Some i) →
  noff_ok p (noff (cpus s i)) (length (hs i)) →
  spin_inv hs (set_pc i p s).
Proof.
  intros H Hb Hb' Hc Hn.
  eapply spin_inv_ext; [eapply (spin_inv_move hs s i p (cpus s i)); eauto using si_sie|..];
    try done. intros j. simpl. by fsplit.
Qed.

Lemma holding_spec hs s i l :
  spin_inv hs s → holding (locks s l) i = true ↔ lk_cpu (locks s l) = Some i.
Proof.
  intros H. unfold holding. rewrite andb_true_iff, bool_decide_eq_true.
  split; [tauto|]. intros E. split; [|done].
  destruct (si_owned _ _ H i l E) as [-> _]. done.
Qed.

(** The swap succeeds on a free lock: CPU [i] now owns it. *)
Lemma spin_inv_take hs s i l :
  spin_inv hs s → at_pc s i = AcqSpin l → locked (locks s l) = 0 →
  spin_inv hs (set_pc i (AcqSet l) (set_lock l (mkspin 1 (lk_cpu (locks s l))) s)).
Proof.
  intros [H1 H2 H3 H4 H5 H6 H7 H8] Hi H0.
  assert (Hfree : lk_cpu (locks s l) = None).
  { destruct (lk_cpu (locks s l)) as [j|] eqn:E; [|done]. apply H4 in E as [? _]. lia. }
  assert (Hnb : ∀ j, between (at_pc s j) l = false).
  { intros j. destruct (between (at_pc s j) l) eqn:E; [|done]. apply H5 in E as [? _]. lia. }
  split; simpl; auto.
  - intros j k. fsplit; simpl; auto.
  - intros k. fsplit; simpl; auto.
  - intros j k. fsplit; simpl; [by rewrite Hfree|]. intros E.
    destruct (H4 j k E) as [? Hb]. split; [done|]. intros a. fsplit; simpl; auto.
    by rewrite bool_decide_false.
  - intros j k. destruct (decide (j = i)) as [->|Hji].
    + rewrite fn_lookup_insert. simpl. intros ->%bool_decide_eq_true.
      rewrite fn_lookup_insert. split_and!; [done..|]. intros a. fsplit; [done|].
      by rewrite Hnb.
    + rewrite fn_lookup_insert_ne by done. intros E.
      destruct (H5 j k E) as (? & ? & Hu).
      assert (k ≠ l) by (intros ->; by rewrite Hnb in E).
      rewrite fn_lookup_insert_ne by done. split_and!; [done..|].
      intros a. fsplit; simpl; [by rewrite bool_decide_false|auto].
  - intros j k. destruct (decide (j = i)) as [->|]; [by rewrite fn_lookup_insert|].
    rewrite fn_lookup_insert_ne by done. intros E. fsplit; simpl; eauto.
  - intros j. fsplit; [|apply H7]. specialize (H7 i). by rewrite Hi in H7.
Qed.

(** Storing lk->cpu makes the ownership visible. *)
Lemma spin_inv_own hs s i l :
  spin_inv hs s → at_pc s i = AcqSet l →
  spin_inv (<[i:=l :: hs i]> hs)
    (set_pc i Run (set_lock l (mkspin (locked (locks s l)) (Some i)) s)).
Proof.
  intros [H1 H2 H3 H4 H5 H6 H7 H8] Hi.
  destruct (H5 i l) as (Hl & Hn & Hu); [rewrite Hi; simpl; by apply bool_decide_eq_true|].
  assert (Hni : ∀ j, l ∉ hs j) by (intros j; rewrite <- H1; congruence).
  split; simpl; auto.
  - intros j k. fsplit; simpl; rewrite ?elem_of_cons, <- ?H1; naive_solver.
  - intros j. fsplit; auto. by apply NoDup_cons.
  - intros k. fsplit; simpl; auto.
  - intros j k. destruct (decide (k = l)) as [->|].
    + rewrite fn_lookup_insert. intros _. split; [done|]. intros a. fsplit; [done|].
      destruct (between (at_pc s a) l) eqn:E; [|done]. by apply Hu in E.
    + rewrite fn_lookup_insert_ne by done. intros E. destruct (H4 j k E) as [? Hb].
      split; [done|]. intros a. fsplit; auto.
  - intros j k. destruct (decide (j = i)) as [->|]; [by rewrite fn_lookup_insert|].
    rewrite fn_lookup_insert_ne by done. intros E.
    destruct (decide (k = l)) as [->|]; [by apply Hu in E|].
    rewrite fn_lookup_insert_ne by done. destruct (H5 j k E) as (? & ? & Hu').
    split_and!; [done..|]. intros a. fsplit; [done|auto].
  - intros j k. destruct (decide (j = i)) as [->|]; [by rewrite fn_lookup_insert|].
    rewrite fn_lookup_insert_ne by done. intros E%H6. fsplit; simpl; congruence.
  - intros j. fsplit; [|apply H7]. specialize (H7 i). rewrite Hi in H7. simpl in *. lia.
Qed.

(** Clearing lk->cpu. *)
Lemma spin_inv_clear hs s i l :
  spin_inv hs s → at_pc s i = RelClr l →
  spin_inv (<[i:=drop_lock l (hs i)]> hs)
    (set_pc i (RelSwap l) (set_lock l (mkspin (locked (locks s l)) None) s)).
Proof.
  intros [H1 H2 H3 H4 H5 H6 H7 H8] Hi.
  pose proof (H6 i l Hi) as Hown. destruct (H4 i l Hown) as [Hl Hnb].
  assert (Hin : l ∈ hs i) by by apply H1.
  split; simpl; auto.
  - intros j k. fsplit; simpl; rewrite ?elem_of_drop_lock, <- ?H1 by auto; naive_solver.
  - intros j. fsplit; auto. by apply NoDup_drop_lock.
  - intros k. fsplit; simpl; auto.
  - intros j k. destruct (decide (k = l)) as [->|]; [by rewrite fn_lookup_insert|].
    rewrite fn_lookup_insert_ne by done. intros E. destruct (H4 j k E) as [? Hb].
    split; [done|]. intros a. fsplit; auto. simpl. by rewrite bool_decide_false.
  - intros j k. destruct (decide (j = i)) as [->|].
    + rewrite fn_lookup_insert. simpl. intros ->%bool_decide_eq_true.
      rewrite fn_lookup_insert. split_and!; [done..|]. intros a. fsplit; [done|].
      by rewrite Hnb.
    + rewrite fn_lookup_insert_ne by done. intros E.
      destruct (decide (k = l)) as [->|]; [by rewrite Hnb in E|].
      rewrite fn_lookup_insert_ne by done. destruct (H5 j k E) as (? & ? & Hu').
      split_and!; [done..|]. intros a. fsplit; [|auto]. simpl. by rewrite bool_decide_false.
  - intros j k. destruct (decide (j = i)) as [->|]; [by rewrite fn_lookup_insert|].
    rewrite fn_lookup_insert_ne by done. intros E%H6. fsplit; simpl; congruence.
  - intros j. fsplit; [|apply H7]. specialize (H7 i). rewrite Hi in H7. simpl in *.
    apply length_drop_lock in Hin. lia.
Qed.

(** Storing 0 into lk->locked. *)
Lemma spin_inv_free hs s i l :
  spin_inv hs s → at_pc s i = RelSwap l →
  spin_inv hs (set_pc i RelPop (set_lock l (mkspin 0 (lk_cpu (locks s l))) s)).
Proof.
  intros [H1 H2 H3 H4 H5 H6 H7 H8] Hi.
  destruct (H5 i l) as (Hl & Hn & Hu); [rewrite Hi; simpl; by apply bool_decide_eq_true|].
  split; simpl; auto.
  - intros j k. fsplit; simpl; auto.
  - intros k. fsplit; simpl; auto.
  - intros j k. destruct (decide (k = l)) as [->|];
      [rewrite fn_lookup_insert; simpl; by rewrite Hn|].
    rewrite fn_lookup_insert_ne by done. intros E. destruct (H4 j k E) as [? Hb].
    split; [done|]. intros a. fsplit; auto.
  - intros j k. destruct (decide (j = i)) as [->|]; [by rewrite fn_lookup_insert|].
    rewrite fn_lookup_insert_ne by done. intros E.
    destruct (decide (k = l)) as [->|]; [by apply Hu in E|].
    rewrite fn_lookup_insert_ne by done. destruct (H5 j k E) as (? & ? & Hu').
    split_and!; [done..|]. intros a. fsplit; [done|auto].
  - intros j k. destruct (decide (j = i)) as [->|]; [by rewrite fn_lookup_insert|].
    rewrite fn_lookup_insert_ne by done. intros E%H6. fsplit; simpl; congruence.
  - intros j. fsplit; [|apply H7]. specialize (H7 i). by rewrite Hi in H7.
Qed.

Lemma pop_off_ok c k :
  noff c = Z.of_nat k + 1 → sie c = false →
  ∃ c', pop_off c = inl c' ∧ noff c' = Z.of_nat k ∧ (0 < noff c' → sie c' = false).
Proof.
  intros Hn Hs. unfold pop_off. rewrite Hs. destruct (Z.ltb_spec (noff c) 1); [lia|].
  eexists. split_and!; [done|simpl; lia|]. simpl. intros ?.
  destruct (Z.eqb_spec (noff c - 1) 0); [lia|done].
Qed.

Lemma cpu_step_inv hs s i : spin_inv hs s → ∃ hs', spin_inv hs' (cpu_step i s).
Proof.
  intros H. pose proof (si_noff _ _ H i) as Hn. pose proof (si_sie _ _ H i) as Hs.
  unfold cpu_step. destruct (at_pc s i) as [|l|l|l|l|l|l|l|l| |msg] eqn:Hi; simpl in Hn; eauto.
  - exists hs. destruct (locked (locks s l) =? 0); apply spin_inv_goto; rewrite ?Hi; simpl; auto; done.
  - exists hs. destruct (bool_decide (lk_cpu (locks s l) = Some i)); apply spin_inv_goto; rewrite ?Hi; simpl; auto; done.
  - exists hs. destruct (Z.eqb_spec (locked (locks s l)) 0); [by apply spin_inv_take|].
    eapply spin_inv_ext; [exact H|done|done|]. intros k. simpl. fsplit; [|done].
    destruct (si_locked _ _ H l), (locks s l); simpl in *; congruence.
  - eauto using spin_inv_own.
  - exists hs. destruct (locked (locks s l) =? 0); apply spin_inv_goto; rewrite ?Hi; simpl; auto; done.
  - exists hs. destruct (bool_decide (lk_cpu (locks s l) = Some i)) eqn:E; apply spin_inv_goto;
      rewrite ?Hi; simpl; auto; try done.
    intros k [= ->]. by apply bool_decide_eq_true in E.
  - eauto using spin_inv_clear.
  - exists hs. by apply spin_inv_free.
  - destruct (pop_off_ok (cpus s i) (length (hs i))) as (c & -> & Hc & Hc'); [lia| |].
    + apply Hs. lia.
    + exists hs. apply spin_inv_move; rewrite ?Hi; simpl; auto; lia || done.
Qed.

Lemma step_inv hs s s' : spin_inv hs s → step s s' → ∃ hs', spin_inv hs' s'.
Proof.
  intros H Hst. destruct Hst as [i l s Hlt Hi|i l s Hlt Hi|i b s Hlt Hi Hz|i s Hlt];
    [| | |by eapply cpu_step_inv].
  - pose proof (si_noff _ _ H i) as Hn. rewrite Hi in Hn. simpl in Hn. exists hs.
    apply spin_inv_move; rewrite ?Hi; simpl; auto; lia || done.
  - pose proof (si_noff _ _ H i) as Hn. rewrite Hi in Hn. simpl in Hn. exists hs.
    apply spin_inv_goto; rewrite ?Hi; simpl; auto; lia || done.
  - pose proof (si_noff _ _ H i) as Hn. rewrite Hi in Hn. exists hs.
    eapply spin_inv_ext;
      [apply (spin_inv_move hs s i Run (mkcpu (noff (cpus s i)) (intena (cpus s i)) b) H)|..];
      rewrite ?Hi; simpl; auto; try done; try lia.
    intros j. by fsplit.
Qed.

Lemma reach_inv s : rtc step boot s → ∃ hs, spin_inv hs s.
Proof.
  assert (Hg : ∀ s0, (∃ hs, spin_inv hs s0) → rtc step s0 s → ∃ hs, spin_inv hs s).
  { intros s0 Hi Hr. induction Hr as [|x y z Hxy _ IH]; [done|].
    destruct Hi as [hs Hi]. eauto using step_inv. }
  intros. eapply Hg; eauto using spin_inv_boot.
Qed.
End preservation.

(** ** Theorems *)

(** C30. in every state the CPUs can reach by interleaving the memory operations of [acquire] and
    [release], at most one CPU is between the swap that took a given lock and the store that frees
    it, and that CPU has interrupts disabled with [noff] positive, unless it has already panicked. *)
Theorem mutual_exclusion s i j l :
  rtc step boot s → in_section s i l → in_section s j l →
  i = j ∧ ((∀ m, at_pc s i ≠ Dead m) → 0 < noff (cpus s i) ∧ sie (cpus s i) = false).
Proof.
  intros (hs & H)%reach_inv Hi Hj. split.
  - destruct Hi as [[_ Hi] | Hi], Hj as [[_ Hj] | Hj].
    + congruence.
    + destruct (si_owned _ _ H i l Hi) as [_ Hb]. specialize (Hb j).
      destruct Hj as [Hj | Hj]; rewrite Hj in Hb; simpl in Hb; by apply bool_decide_eq_false in Hb.
    + destruct (si_owned _ _ H j l Hj) as [_ Hb]. specialize (Hb i).
      destruct Hi as [Hi | Hi]; rewrite Hi in Hb; simpl in Hb; by apply bool_decide_eq_false in Hb.
    + assert (Hbi : between (at_pc s i) l = true)
        by (destruct Hi as [-> | ->]; by apply bool_decide_eq_true).
      assert (Hbj : between (at_pc s j) l = true)
        by (destruct Hj as [-> | ->]; by apply bool_decide_eq_true).
      symmetry. by apply (si_between _ _ H i l Hbi).
  - intros Halive. assert (Hpos : 0 < noff (cpus s i)); [|split; [done|by apply (si_sie _ _ H)]].
    pose proof (si_noff _ _ H i) as Hn. destruct Hi as [[_ Hi] | [Hi | Hi]].
    + apply (si_owner _ _ H) in Hi. destruct (hs i) as [|x t]; [by apply elem_of_nil in Hi|].
      destruct (at_pc s i); simpl in Hn; try lia. by destruct (Halive msg).
    + rewrite Hi in Hn. simpl in Hn. lia.
    + rewrite Hi in Hn. simpl in Hn. lia.
Qed.

(** a CPU can only panic in the lock code by calling [acquire] on a lock whose holder it is, or
    [release] on one it does not hold: the panics of [pop_off] are unreachable, and a CPU that holds
    a lock and calls [release] on it gets past the [holding] test. *)
Theorem lock_panics s i l m :
  rtc step boot s →
  (at_pc s i = Dead m → m = "acquire"%string ∨ m = "release"%string) ∧
  (at_pc s i = AcqCpu l → (∃ m', at_pc (cpu_step i s) i = Dead m') ↔ holding (locks s l) i = true) ∧
  (holding (locks s l) i = true →
    (at_pc s i = RelTest l → at_pc (cpu_step i s) i = RelCpu l) ∧ (at_pc s i = RelCpu l → at_pc (cpu_step i s) i = RelClr l)).
Proof.
  intros (hs & H)%reach_inv. split_and!.
  - intros Hi. pose proof (si_noff _ _ H i) as Hn. by rewrite Hi in Hn.
  - intros Hi. unfold cpu_step. rewrite Hi. rewrite (holding_spec hs) by done.
    case_bool_decide; simpl; rewrite fn_lookup_insert; naive_solver.
  - intros Ho%(holding_spec hs); [|done]. destruct (si_owned _ _ H i l Ho) as [Hl _].
    split; intros Hi; unfold cpu_step; rewrite Hi, ?Hl, ?bool_decide_true by done; apply fn_lookup_insert.
Qed.

(** ** Nested push_off and pop_off *)

(** [n] calls of [pop_off] in a row. *)
Fixpoint pops (n : nat) (c : cpu) : cpu + string :=
  match n with
  | O => inl c
  | S n' => match pop_off c with inl c' => pops n' c' | inr m => inr m end
  end.

Lemma pushes_nested n c :
  0 < noff c →
  Nat.iter n push_off c = mkcpu (noff c + Z.of_nat n) (intena c) (if n is O then sie c else false).
Proof.
  intros Hc. induction n as [|n IH]; simpl.
  - destruct c; simpl. f_equal. lia.
  - rewrite IH. unfold push_off. simpl.
    destruct (Z.eqb_spec (noff c + Z.of_nat n) 0); [lia|]. f_equal. lia.
Qed.

Lemma pops_spec n : ∀ c,
  noff c = Z.of_nat n → sie c = false → (0 < n)%nat →
  pops n c = inl (mkcpu 0 (intena c) (intena c)).
Proof.
  induction n as [|n IH]; intros c Hn Hs Hpos; [lia|]. simpl. unfold pop_off.
  rewrite Hs. destruct (Z.ltb_spec (noff c) 1); [lia|].
  destruct (Z.eqb_spec (noff c - 1) 0) as [E|E].
  - assert (n = 0%nat) as -> by lia. simpl. rewrite E. by destruct (intena c).
  - cbn [andb]. rewrite IH by (simpl; lia || done). done.
Qed.

(** [n] nested [push_off] calls on a CPU with [noff] = 0 disable interrupts, and the [n]
    matching [pop_off] calls succeed and restore the interrupt state, on or off, that the first
    [push_off] found. *)
Theorem push_pop_restores n c :
  noff c = 0 → (0 < n)%nat →
  sie (Nat.iter n push_off c) = false ∧
  ∃ c', pops n (Nat.iter n push_off c) = inl c' ∧ noff c' = 0 ∧ sie c' = sie c.
Proof.
  intros Hc Hn. destruct n as [|n]; [lia|].
  rewrite Nat.iter_succ_r, pushes_nested by (unfold push_off; simpl; lia).
  assert (E : (if n is O then sie (push_off c) else false) = false) by by destruct n.
  rewrite E. simpl sie. split; [done|].
  rewrite pops_spec by (simpl; lia || done). eexists. split_and!; [done|done|].
  simpl. by rewrite Hc.
Qed.

(** ** Witnesses *)

(** CPU 0 takes the lock while CPU 1 spins on it. *)
Definition demo_smp : smp :=
  cpu_step 1 (cpu_step 1 (cpu_step 1 (set_pc 1 (AcqTest LK_kmem) (set_cpu 1 (push_off (cpuinit false))
    (cpu_step 0 (cpu_step 0 (cpu_step 0
      (set_pc 0 (AcqTest LK_kmem) (set_cpu 0 (push_off (cpuinit false)) boot))))))))).

Lemma demo_smp_reach : rtc step boot demo_smp.
Proof.
  unfold demo_smp.
  eapply rtc_l; [apply (step_acquire 0 LK_kmem); [unfold NCPU; lia|done]|].
  do 3 (eapply rtc_l; [apply (step_cpu 0); unfold NCPU; lia|]).
  eapply rtc_l; [apply (step_acquire 1 LK_kmem); [unfold NCPU; lia|done]|].
  do 3 (eapply rtc_l; [apply (step_cpu 1); unfold NCPU; lia|]).
  apply rtc_refl.
Qed.

Lemma mutual_exclusion_witness :
  in_section demo_smp 0 LK_kmem ∧ at_pc demo_smp 1 = AcqSpin LK_kmem ∧
  sie (cpus demo_smp 0) = false.
Proof.
  assert (H : in_section demo_smp 0 LK_kmem) by (left; split; reflexivity).
  split; [exact H|]. split; [reflexivity|].
  apply (mutual_exclusion demo_smp 0 0 LK_kmem demo_smp_reach H H). discriminate.
Defined.

Lemma lock_panics_witness :
  at_pc (cpu_step 0 (set_pc 0 (RelTest LK_kmem) demo_smp)) 0 = RelCpu LK_kmem.
Proof.
  apply (lock_panics (set_pc 0 (RelTest LK_kmem) demo_smp) 0 LK_kmem "");
    [|reflexivity|reflexivity].
  eapply rtc_r; [apply demo_smp_reach|].
  apply step_release; [unfold NCPU; lia|reflexivity].
Defined.

Lemma push_pop_restores_witness :
  ∃ c', pops 3 (Nat.iter 3 push_off (mkcpu 0 false true)) = inl c' ∧ sie c' = true.
Proof.
  destruct (push_pop_restores 3 (mkcpu 0 false true)) as (_ & c' & E & _ & H);
    [reflexivity|lia|]. exists c'. split; [exact E|exact H].
Defined.
