(* ===== verification/Sleeplock.v ===== *)
(** * Sleep locks (kernel/sleeplock.c)

    A sleep lock lives inside a buffer or an inode, so its operations take the lens that reaches it,
    together with the spin lock that protects it and the channel its waiters sleep on. *)

From stdpp Require Import base list sets numbers strings.
From Stdlib Require Import ZArith Lia.
From S2P Require Import Prelude Machine.

(** [struct sleeplock]; the spin lock [lk] is identified by a [lock], the name is for debugging. *)
Record sleeplock := mksleep { sl_locked : bool; sl_pid : Z }.

Definition initsleeplock : sleeplock := mksleep false 0.

Section ops.
Context {S : Type} (l : lens S sleeplock) (lk : lock) (ch : chan).

(** The loop [while (lk->locked) sleep(lk, &lk->lk)]: the process goes to sleep when the lock is
    taken, and runs the same test again when it is woken. *)
Definition acquiresleep : M S unit :=
  acquire lk ;;;
  do s <- kget;
  if sl_locked (lget l s) then sleep ch lk
  else
    do me <- mypid;
    kmod (lset l (mksleep true me)) ;;;
    release lk.

Definition releasesleep : M S unit :=
  acquire lk ;;;
  kmod (lset l (mksleep false 0)) ;;;
  wakeup ch ;;;
  release lk.

Definition holdingsleep : M S bool :=
  acquire lk ;;;
  do sl <- kgets (lget l);
  do me <- mypid;
  release lk ;;;
  kret (sl_locked sl && (sl_pid sl =? me)).

Lemma acquiresleep_run c s :
  lk ∉ held c → sl_locked (lget l s) = false →
  acquiresleep c s = Ret tt c (lset l (mksleep true (curpid c)) s).
Proof.
  destruct c as [h w p]. simpl. intros Hc Hl. unfold acquiresleep. kexec. rewrite Hl. by kexec.
Qed.

Lemma holdingsleep_run c s :
  lk ∉ held c →
  holdingsleep c s = Ret (sl_locked (lget l s) && (sl_pid (lget l s) =? curpid c)) c s.
Proof. destruct c as [h w p]. simpl. intros Hc. unfold holdingsleep. by kexec. Qed.

Lemma releasesleep_run c s :
  lk ∉ held c →
  releasesleep c s =
    Ret tt (mkctx (held c) (woken c ++ [ch]) (curpid c)) (lset l (mksleep false 0) s).
Proof. destruct c as [h w p]. simpl. intros Hc. unfold releasesleep. by kexec. Qed.
End ops.

(** A process that finds the lock taken sleeps on the lock's channel holding nothing. *)
Lemma acquiresleep_waits {S} (l : lens S sleeplock) lk ch c s :
  held c = [] → sl_locked (lget l s) = true →
  acquiresleep l lk ch c s = Asleep ch c s.
Proof.
  destruct c as [h w p]. simpl. intros -> Hl. unfold acquiresleep. kexec.
  rewrite Hl. unfold sleep. simpl.
  rewrite decide_True by constructor. by rewrite decide_True.
Qed.
