(* ===== verification/Kalloc.v ===== *)
(** * Physical page allocator (kernel/kalloc.c)

    The free list is threaded through the free pages themselves ([struct run]); [krefcount] counts
    the page tables that share a page, for copy-on-write.  The linker symbol [end] is a parameter.

    [kabs] relates the allocator's memory to an abstract pool of pages; [kalloc_refines],
    [kfree_refines], [krefpage_refines] and [kinit_refines] show that each function implements the
    corresponding operation of the pool, and [reach_owned] that no sequence of calls by clients
    that free only what they own hands out a page twice. *)

From stdpp Require Import base list functions sets relations numbers strings.
From Stdlib Require Import ZArith Lia.
From S2P Require Import Prelude Machine.

(** ** Data *)

(** Memory, [kmem.freelist] and [krefcount]. *)
Record kmem := mkkmem {
  kmem_mem : mem;
  freelist : Z;
  krefcount : Z → Z
}.

Definition set_mem (m : mem) (k : kmem) : kmem := mkkmem m (freelist k) (krefcount k).
Definition set_freelist (p : Z) (k : kmem) : kmem := mkkmem (kmem_mem k) p (krefcount k).
Definition set_ref (idx v : Z) (k : kmem) : kmem :=
  mkkmem (kmem_mem k) (freelist k) (<[idx:=v]> (krefcount k)).

Definition KREF_INDEX (pa : Z) : Z := u64 (pa - KERNBASE) / PGSIZE.
Definition KREF_COUNT : Z := (PHYSTOP - KERNBASE) / PGSIZE.

(** ** Operations *)

(** [krefcount] is an array of [int]: the increment wraps at 32 bits. *)
Definition krefpage (pa : Z) : M kmem unit :=
  let idx := KREF_INDEX pa in
  if KREF_COUNT <=? idx then kret tt
  else
    acquire LK_kmem ;;;
    do k <- kget;
    kmod (set_ref idx (s32 (krefcount k idx + 1))) ;;;
    release LK_kmem.

Definition kgetref (pa : Z) : M kmem Z :=
  let idx := KREF_INDEX pa in
  if KREF_COUNT <=? idx then kret 1
  else
    acquire LK_kmem ;;;
    do ref <- kgets (λ k, krefcount k idx);
    release LK_kmem ;;;
    kret ref.

(** [memset(pa, v, PGSIZE)]. *)
Definition memset_page (pa v : Z) : M kmem unit :=
  kmod (λ k, set_mem (mfill (kmem_mem k) pa v PGSIZE) k).

Definition kfree (kend pa : Z) : M kmem unit :=
  if negb (pa mod PGSIZE =? 0) || (pa <? kend) || (PHYSTOP <=? pa) then panic "kfree"
  else
    let idx := KREF_INDEX pa in
    do shared <-
      (if idx <? KREF_COUNT then
         acquire LK_kmem ;;;
         do ref <- kgets (λ k, krefcount k idx);
         if 1 <? ref then
           kmod (set_ref idx (s32 (ref - 1))) ;;;
           release LK_kmem ;;;
           kret true
         else
           kmod (set_ref idx 0) ;;;
           release LK_kmem ;;;
           kret false
       else kret false);
    if (shared : bool) then kret tt
    else
      memset_page pa 1 ;;;
      acquire LK_kmem ;;;
      kmod (λ k, set_mem (store64 (kmem_mem k) pa (freelist k)) k) ;;;   (* r->next = kmem.freelist *)
      kmod (set_freelist pa) ;;;
      release LK_kmem.

Definition kalloc : M kmem Z :=
  acquire LK_kmem ;;;
  do r <- kgets freelist;
  (if r =? 0 then kret tt
   else kmod (λ k, set_freelist (load64 (kmem_mem k) r) k)) ;;;         (* kmem.freelist = r->next *)
  release LK_kmem ;;;
  (if r =? 0 then kret tt
   else memset_page r 0 ;;; kmod (set_ref (KREF_INDEX r) 1)) ;;;
  kret r.

(** The loop of [kinit]; [fuel] bounds the number of pages. *)
Fixpoint kinit_loop (kend : Z) (fuel : nat) (p : Z) : M kmem unit :=
  if p + PGSIZE <=? PHYSTOP then
    match fuel with
    | O => nofuel
    | S fuel' =>
        kmod (set_ref (KREF_INDEX p) 1) ;;;
        kfree kend p ;;;
        kinit_loop kend fuel' (p + PGSIZE)
    end
  else kret tt.

Definition kinit (kend : Z) : M kmem unit :=
  kinit_loop kend (Z.to_nat KREF_COUNT) (PGROUNDUP kend).

(** ** Abstract specification: a pool of pages *)

(** [pfree] lists the free pages, next to be allocated first; [prefs] counts the references to
    each page. *)
Record pool := mkpool { pfree : list Z; prefs : Z → Z }.

Definition pool_alloc (p : pool) : pool * Z :=
  match pfree p with
  | [] => (p, 0)
  | a :: l => (mkpool l (<[a:=1]> (prefs p)), a)
  end.

Definition pool_free (a : Z) (p : pool) : pool :=
  if 1 <? prefs p a then mkpool (pfree p) (<[a:=prefs p a - 1]> (prefs p))
  else mkpool (a :: pfree p) (<[a:=0]> (prefs p)).

Definition pool_ref (a : Z) (p : pool) : pool :=
  mkpool (pfree p) (<[a:=prefs p a + 1]> (prefs p)).

(** The pages kfree accepts. *)
Definition page_ok (kend a : Z) : Prop := a mod PGSIZE = 0 ∧ kend <= a < PHYSTOP.

(** [chain m p l]: following [next] from [p] in memory [m] visits exactly the pages [l]. *)
Fixpoint chain (m : mem) (p : Z) (l : list Z) : Prop :=
  match l with
  | [] => p = 0
  | a :: l' => p = a ∧ chain m (load64 m a) l'
  end.

(** The allocator's memory [k] represents the pool [p]. *)
Record kabs (kend : Z) (k : kmem) (p : pool) : Prop := mkkabs {
  kabs_chain : chain (kmem_mem k) (freelist k) (pfree p);
  kabs_nodup : NoDup (pfree p);
  kabs_pages : Forall (page_ok kend) (pfree p);
  kabs_refs : ∀ a, page_ok kend a → krefcount k (KREF_INDEX a) = prefs p a;
  kabs_zero : ∀ a, a ∈ pfree p → prefs p a = 0;
  kabs_pos : ∀ a, page_ok kend a → 0 <= prefs p a < 2 ^ 31
}.

(** Everything outside page [a] keeps its contents. *)
Definition same_outside (a : Z) (m m' : mem) : Prop :=
  ∀ x, x < a ∨ a + PGSIZE <= x → m' x = m x.

(** The clients' view: [owned a] references to page [a] are held by them.  They call [kfree] and
    [krefpage] only on pages they hold a reference to. *)
Inductive kstep (kend : Z) (c : kctx) : kmem * (Z → Z) → kmem * (Z → Z) → Prop :=
  | kstep_alloc k k' own a :
      kalloc c k = Ret a c k' → a ≠ 0 →
      kstep kend c (k, own) (k', <[a:=own a + 1]> own)
  | kstep_nomem k k' own :
      kalloc c k = Ret 0 c k' →
      kstep kend c (k, own) (k', own)
  | kstep_free k k' own a :
      0 < own a → kfree kend a c k = Ret tt c k' →
      kstep kend c (k, own) (k', <[a:=own a - 1]> own)
  | kstep_ref k k' own a :
      0 < own a < 2 ^ 31 - 1 → krefpage a c k = Ret tt c k' →
      kstep kend c (k, own) (k', <[a:=own a + 1]> own).

(** ** Pages *)

Section pages.
Context (kend : Z) (Hend : KERNBASE <= kend).

Lemma page_ok_range a : page_ok kend a → KERNBASE <= a ∧ a + PGSIZE <= PHYSTOP.
Proof.
  intros [Ha ?]. split; [lia|]. uconst.
  pose proof (Z.div_mod a 4096). lia.
Qed.

Lemma page_ok_nonzero a : page_ok kend a → a ≠ 0.
Proof. intros [??]. uconst. lia. Qed.

Lemma page_disjoint a b :
  page_ok kend a → page_ok kend b → a ≠ b → a + PGSIZE <= b ∨ b + PGSIZE <= a.
Proof.
  intros [Ha ?] [Hb ?] ?. uconst.
  pose proof (Z.div_mod a 4096). pose proof (Z.div_mod b 4096). lia.
Qed.

Lemma KREF_INDEX_eq a : page_ok kend a → KREF_INDEX a = (a - KERNBASE) / PGSIZE.
Proof.
  intros [??]. unfold KREF_INDEX. rewrite u64_small; [done|]. uconst. lia.
Qed.

Lemma KREF_INDEX_inj a b :
  page_ok kend a → page_ok kend b → KREF_INDEX a = KREF_INDEX b → a = b.
Proof.
  intros Ha Hb. rewrite !KREF_INDEX_eq by done. destruct Ha as [Ha ?], Hb as [Hb ?].
  uconst. Z.div_mod_to_equations. lia.
Qed.

Lemma KREF_INDEX_lt a : page_ok kend a → 0 <= KREF_INDEX a < KREF_COUNT.
Proof.
  intros Ha. rewrite KREF_INDEX_eq by done. destruct Ha as [Ha ?].
  unfold KREF_COUNT. uconst. Z.div_mod_to_equations. lia.
Qed.

Lemma page_ok_guard a :
  negb (a mod PGSIZE =? 0) || (a <? kend) || (PHYSTOP <=? a) = false ↔ page_ok kend a.
Proof.
  unfold page_ok. rewrite !orb_false_iff, negb_false_iff, Z.eqb_eq, Z.ltb_ge, Z.leb_gt. lia.
Qed.

Lemma chain_ext m m' p l :
  chain m p l → (∀ a x, a ∈ l → a <= x < a + PGSIZE → m' x = m x) → chain m' p l.
Proof.
  revert p. induction l as [|a l IH]; intros p; [done|]. cbn [chain].
  intros [-> Hc] E. split; [done|].
  rewrite (load64_ext m' m) by (intros; apply (E a); [constructor|uconst; lia]).
  apply IH; [done|]. intros b x ??. apply (E b); [by constructor|done].
Qed.

(** Writing inside a page that is not on the list leaves the list alone. *)
Lemma chain_same_outside m m' p l a :
  chain m p l → Forall (page_ok kend) l → page_ok kend a → a ∉ l →
  same_outside a m m' → chain m' p l.
Proof.
  intros Hc Hl Ha Hn E. apply (chain_ext m); [done|]. intros b x Hb Hx. apply E.
  rewrite Forall_forall in Hl.
  destruct (page_disjoint a b) as [|]; auto; [|lia|lia]. by intros ->.
Qed.

Lemma same_outside_fill m a v : same_outside a m (mfill m a v PGSIZE).
Proof. intros x ?. by apply mfill_out. Qed.

Lemma same_outside_store m a v : same_outside a m (store64 m a v).
Proof. intros x ?. apply mwrite_out. rewrite length_le_split. uconst. lia. Qed.

Lemma same_outside_trans a m1 m2 m3 :
  same_outside a m1 m2 → same_outside a m2 m3 → same_outside a m1 m3.
Proof. intros H1 H2 x ?. by rewrite H2, H1. Qed.
End pages.

(** ** Each function implements its abstract operation *)

Section refinement.
Context (kend : Z) (Hend : KERNBASE <= kend).
Implicit Types (k : kmem) (p : pool) (c : kctx).

Lemma chain_head_ok k p :
  kabs kend k p → freelist k = match pfree p with [] => 0 | a :: _ => a end.
Proof. intros []. by destruct (pfree p); simpl in *; destruct_and?. Qed.

(** Popping a page and handing it out zeroed. *)
Lemma kabs_alloc k a l refs :
  kabs kend k (mkpool (a :: l) refs) →
  kabs kend
    (mkkmem (mfill (kmem_mem k) a 0 PGSIZE) (load64 (kmem_mem k) a)
       (<[KREF_INDEX a:=1]> (krefcount k)))
    (mkpool l (<[a:=1]> refs)).
Proof.
  intros [Hc Hn Hp Hr Hz Hpos]. simpl in *.
  destruct Hc as [_ Hc]. apply NoDup_cons in Hn as [Hni Hn].
  apply Forall_cons in Hp as [Ha Hp].
  split; simpl; auto.
  - eapply chain_same_outside; eauto using same_outside_fill.
  - intros b Hb. destruct (decide (b = a)) as [->|].
    + by rewrite !fn_lookup_insert.
    + rewrite !fn_lookup_insert_ne; auto. intros E.
      by apply (KREF_INDEX_inj kend Hend) in E.
  - intros b Hb. rewrite fn_lookup_insert_ne by (intros ->; done).
    apply Hz. by constructor.
  - intros b Hb. destruct (decide (b = a)) as [->|].
    + rewrite fn_lookup_insert. lia.
    + rewrite fn_lookup_insert_ne by done. auto.
Qed.

Lemma kabs_set_ref k p a v :
  kabs kend k p → page_ok kend a → a ∉ pfree p → 0 <= v < 2 ^ 31 →
  kabs kend (set_ref (KREF_INDEX a) v k) (mkpool (pfree p) (<[a:=v]> (prefs p))).
Proof.
  intros [Hc Hn Hp Hr Hz Hpos] Ha Hni Hv. split; simpl; auto.
  - intros b Hb. destruct (decide (b = a)) as [->|].
    + by rewrite !fn_lookup_insert.
    + rewrite !fn_lookup_insert_ne; auto. intros E.
      by apply (KREF_INDEX_inj kend Hend) in E.
  - intros b Hb. rewrite fn_lookup_insert_ne by (intros ->; done). auto.
  - intros b Hb. destruct (decide (b = a)) as [->|].
    + by rewrite fn_lookup_insert.
    + rewrite fn_lookup_insert_ne by done. auto.
Qed.

Lemma freelist_range k p : kabs kend k p → 0 <= freelist k < 2 ^ 64.
Proof.
  intros H. rewrite (chain_head_ok k p H). destruct H as [_ _ Hp _ _ _].
  destruct (pfree p) as [|a l]; [lia|]. apply Forall_cons in Hp as [[_ ?] _].
  uconst. lia.
Qed.

(** Pushing a page whose count is zero. *)
Lemma kabs_push k p a m' :
  kabs kend k p → page_ok kend a → a ∉ pfree p → prefs p a = 0 →
  same_outside a (kmem_mem k) m' → load64 m' a = freelist k →
  kabs kend (mkkmem m' a (krefcount k)) (mkpool (a :: pfree p) (prefs p)).
Proof.
  intros [Hc Hn Hp Hr Hz Hpos] Ha Hni H0 Hs Hl. split; simpl; auto.
  - split; [done|]. rewrite Hl. eapply chain_same_outside; eauto.
  - by apply NoDup_cons.
  - intros b [-> | Hb]%elem_of_cons; auto.
Qed.

Lemma kalloc_run c k :
  LK_kmem ∉ held c →
  kalloc c k =
    let r := freelist k in
    Ret r c (if r =? 0 then k
             else mkkmem (mfill (kmem_mem k) r 0 PGSIZE) (load64 (kmem_mem k) r)
                    (<[KREF_INDEX r:=1]> (krefcount k))).
Proof.
  destruct c as [h w q]. simpl. intros Hc. unfold kalloc, memset_page. kexec.
  destruct (freelist k =? 0) eqn:E; kexec; by rewrite ?E.
Qed.

Lemma krefpage_run c k a :
  LK_kmem ∉ held c → page_ok kend a →
  krefpage a c k =
    Ret tt c (set_ref (KREF_INDEX a) (s32 (krefcount k (KREF_INDEX a) + 1)) k).
Proof.
  destruct c as [h w q]. simpl. intros Hc Ha. unfold krefpage.
  pose proof (KREF_INDEX_lt kend Hend a Ha).
  destruct (Z.leb_spec KREF_COUNT (KREF_INDEX a)); [lia|]. by kexec.
Qed.

(** The two paths of [kfree] that do not panic. *)
Lemma kfree_run c k a :
  LK_kmem ∉ held c → page_ok kend a →
  kfree kend a c k =
    let ref := krefcount k (KREF_INDEX a) in
    Ret tt c
      (if 1 <? ref then set_ref (KREF_INDEX a) (s32 (ref - 1)) k
       else mkkmem (store64 (mfill (kmem_mem k) a 1 PGSIZE) a (freelist k)) a
              (<[KREF_INDEX a:=0]> (krefcount k))).
Proof.
  destruct c as [h w q]. simpl. intros Hc Ha. unfold kfree, memset_page.
  rewrite (proj2 (page_ok_guard kend a) Ha).
  pose proof (KREF_INDEX_lt kend Hend a Ha).
  destruct (Z.ltb_spec (KREF_INDEX a) KREF_COUNT); [|lia]. kexec.
  by destruct (1 <? krefcount k (KREF_INDEX a)); kexec.
Qed.

(** What [kfree] does to the abstract pool, for a page that is not free. *)
Lemma kabs_free k p a :
  kabs kend k p → page_ok kend a → a ∉ pfree p →
  kabs kend
    (if 1 <? krefcount k (KREF_INDEX a)
     then set_ref (KREF_INDEX a) (s32 (krefcount k (KREF_INDEX a) - 1)) k
     else mkkmem (store64 (mfill (kmem_mem k) a 1 PGSIZE) a (freelist k)) a
            (<[KREF_INDEX a:=0]> (krefcount k)))
    (pool_free a p).
Proof.
  intros H Ha Hni. pose proof (kabs_pos _ _ _ H a Ha) as Hpos.
  pose proof (freelist_range _ _ H).
  unfold pool_free. rewrite (kabs_refs _ _ _ H a Ha).
  destruct (Z.ltb_spec 1 (prefs p a)).
  - rewrite s32_small by lia. apply kabs_set_ref; auto; lia.
  - pose proof (kabs_push (set_ref (KREF_INDEX a) 0 k)
             (mkpool (pfree p) (<[a:=0]> (prefs p))) a
             (store64 (mfill (kmem_mem k) a 1 PGSIZE) a (freelist k))) as Hpush.
    apply Hpush; simpl; auto.
    + apply kabs_set_ref; auto; lia.
    + apply fn_lookup_insert.
    + eapply same_outside_trans; [apply same_outside_fill|apply same_outside_store].
    + by apply load64_store64.
Qed.

Lemma kabs_ref k p a :
  kabs kend k p → page_ok kend a → a ∉ pfree p → prefs p a < 2 ^ 31 - 1 →
  kabs kend (set_ref (KREF_INDEX a) (s32 (krefcount k (KREF_INDEX a) + 1)) k)
    (pool_ref a p).
Proof.
  intros H Ha Hni Hlt. pose proof (kabs_pos _ _ _ H a Ha).
  rewrite (kabs_refs _ _ _ H a Ha), s32_small by lia. apply kabs_set_ref; auto; lia.
Qed.

(** Only the counts of real pages matter. *)
Lemma kabs_refs_ext k p l refs :
  kabs kend k p → pfree p = l → (∀ a, page_ok kend a → refs a = prefs p a) →
  kabs kend k (mkpool l refs).
Proof.
  intros [Hc Hn Hp Hr Hz Hpos] <- E. split; simpl; auto.
  - intros. rewrite E; auto.
  - intros a Ha. rewrite E; auto. by rewrite Forall_forall in Hp; apply Hp.
  - intros. rewrite E; auto.
Qed.
End refinement.

(** ** kinit: the pages between [end] and PHYSTOP *)

Section boot.
Context (kend : Z) (Hend : KERNBASE <= kend <= PHYSTOP).

(** The pages from [p] to PHYSTOP, the highest first: the order [kinit] leaves them in. *)
Definition pages_from (p : Z) (n : nat) : list Z :=
  reverse ((λ i, p + Z.of_nat i * PGSIZE) <$> seq 0 n).

Lemma pages_from_S p n : pages_from p (S n) = pages_from (p + PGSIZE) n ++ [p].
Proof.
  unfold pages_from. rewrite <- cons_seq, fmap_cons, reverse_cons. f_equal.
  - f_equal. rewrite <- fmap_S_seq, <- list_fmap_compose.
    apply list_fmap_ext. intros i x _. simpl. lia.
  - f_equal. lia.
Qed.

Lemma elem_of_pages_from x p n :
  x ∈ pages_from p n ↔ ∃ i, (i < n)%nat ∧ x = p + Z.of_nat i * PGSIZE.
Proof.
  unfold pages_from. rewrite elem_of_reverse, list_elem_of_fmap. split.
  - intros (i & -> & Hi%elem_of_seq). exists i. split; [lia|done].
  - intros (i & Hi & ->). exists i. split; [done|]. apply elem_of_seq. lia.
Qed.

Lemma kinit_loop_run n : ∀ fuel p c k free,
  LK_kmem ∉ held c → p mod PGSIZE = 0 → kend <= p →
  p + Z.of_nat n * PGSIZE = PHYSTOP → (n ≤ fuel)%nat →
  kabs kend k (mkpool free (λ _, 0)) → (∀ x, x ∈ free → x < p) →
  ∃ k', kinit_loop kend fuel p c k = Ret tt c k' ∧
    kabs kend k' (mkpool (pages_from p n ++ free) (λ _, 0)).
Proof.
  induction n as [|n IH]; intros fuel p c k free Hc Hp Hlo Hn Hf H Hfree.
  { exists k. split; [|done]. destruct fuel; simpl;
      (destruct (Z.leb_spec (p + PGSIZE) PHYSTOP); [uconst; lia|done]). }
  destruct fuel as [|fuel]; [lia|]. cbn [kinit_loop].
  assert (Ha : page_ok kend p) by (split; [done|uconst; lia]).
  destruct (Z.leb_spec (p + PGSIZE) PHYSTOP); [|uconst; lia].
  assert (Hni : p ∉ free) by (intros ?%Hfree; lia).
  assert (H1 : kabs kend (set_ref (KREF_INDEX p) 1 k)
                 (mkpool free (<[p:=1]> (λ _, 0)))).
  { apply (kabs_set_ref kend (proj1 Hend) k (mkpool free (λ _, 0))); auto; lia. }
  unfold kbind at 1, kmod. erewrite kbind_ret; [|by apply kfree_run; [lia|..]].
  pose proof (kabs_free kend (proj1 Hend) _ _ _ H1 Ha Hni) as H2.
  rewrite pages_from_S, <- app_assoc. apply IH; try done.
  - rewrite Z.add_mod by (uconst; lia). by rewrite Hp.
  - uconst; lia.
  - uconst; lia.
  - lia.
  - cbv zeta. eapply kabs_refs_ext; [exact H2| |].
    + unfold pool_free. simpl. by rewrite fn_lookup_insert.
    + intros b Hb. unfold pool_free. simpl. rewrite fn_lookup_insert. simpl.
      destruct (decide (b = p)) as [->|]; [by rewrite fn_lookup_insert|].
      by rewrite !fn_lookup_insert_ne.
  - intros x [-> | ?]%elem_of_cons; [uconst; lia|].
    specialize (Hfree x). uconst. intuition lia.
Qed.

Lemma kinit_run c k :
  LK_kmem ∉ held c → freelist k = 0 → (∀ i, krefcount k i = 0) →
  ∃ k', kinit kend c k = Ret tt c k' ∧
    kabs kend k' (mkpool (pages_from (PGROUNDUP kend)
      (Z.to_nat ((PHYSTOP - PGROUNDUP kend) / PGSIZE))) (λ _, 0)).
Proof.
  intros Hc Hf Hr. unfold kinit.
  pose proof (PGROUNDUP_spec kend) as [Hal Hge]; [uconst; lia..|].
  assert (Hle : PGROUNDUP kend <= PHYSTOP)
    by (uconst; Z.div_mod_to_equations; lia).
  edestruct kinit_loop_run
    with (n := Z.to_nat ((PHYSTOP - PGROUNDUP kend) / PGSIZE))
         (fuel := Z.to_nat KREF_COUNT) (p := PGROUNDUP kend) (k := k) (free := @nil Z)
    as (k' & E & H); eauto.
  - lia.
  - rewrite Z2Nat.id by (apply Z.div_pos; uconst; lia).
    uconst. Z.div_mod_to_equations. lia.
  - unfold KREF_COUNT. apply Z2Nat.inj_le;
      [apply Z.div_pos; uconst; lia|apply Z.div_pos; uconst; lia|].
    apply Z.div_le_mono; uconst; lia.
  - split; simpl; auto; try constructor; try (intros; set_solver); lia.
  - set_solver.
  - exists k'. by rewrite app_nil_r in H.
Qed.
End boot.

(** ** Clients: ownership of pages *)

Section clients.
Context (kend : Z) (Hend : KERNBASE <= kend).

(** What the clients own is exactly what [krefcount] counts, and only real pages are owned. *)
Definition owned_inv (st : kmem * (Z → Z)) : Prop :=
  ∃ p, kabs kend st.1 p ∧ (∀ a, page_ok kend a → st.2 a = prefs p a) ∧
       (∀ a, st.2 a ≠ 0 → page_ok kend a).

Lemma owned_not_free k p (own : Z → Z) a :
  kabs kend k p → page_ok kend a → own a = prefs p a → 0 < own a → a ∉ pfree p.
Proof. intros H Ha E Hpos Hin. rewrite (kabs_zero _ _ _ H a Hin) in E. lia. Qed.

(** The common part of the three steps that change the count of one page [a] to [v]. *)
Lemma owned_inv_update k' p' (own : Z → Z) a v refs :
  kabs kend k' p' → page_ok kend a →
  (∀ b, page_ok kend b → own b = refs b) → (∀ b, own b ≠ 0 → page_ok kend b) →
  prefs p' a = v → (∀ b, b ≠ a → prefs p' b = refs b) →
  owned_inv (k', <[a:=v]> own).
Proof.
  intros H Ha Ho Hp Hv Hne. exists p'. simpl. split_and!; [done| |].
  - intros b Hb. destruct (decide (b = a)) as [->|].
    + by rewrite fn_lookup_insert.
    + rewrite fn_lookup_insert_ne, Hne by done. auto.
  - intros b. destruct (decide (b = a)) as [->|]; [done|].
    rewrite fn_lookup_insert_ne by done. auto.
Qed.

Lemma kstep_owned c st st' :
  LK_kmem ∉ held c → kstep kend c st st' → owned_inv st → owned_inv st'.
Proof.
  intros Hc Hstep (p & H & Ho & Hp). simpl in *.
  destruct Hstep as [k k' own a E Ha0|k k' own E|k k' own a Hpos E|k k' own a Hpos E];
    simpl in *.
  - rewrite kalloc_run in E by done. simpl in E. injection E as <- <-.
    rewrite (chain_head_ok kend k p H) in *. destruct p as [[|a l] refs]; [done|].
    simpl in *. destruct (Z.eqb_spec a 0); [done|].
    pose proof (kabs_pages _ _ _ H) as Hpg. apply Forall_cons in Hpg as [Ha _].
    assert (Hz : refs a = 0) by (apply (kabs_zero _ _ _ H a); constructor).
    rewrite (Ho a Ha), Hz. simpl.
    eapply owned_inv_update; eauto using kabs_alloc; simpl.
    + apply fn_lookup_insert.
    + intros b Hb. by rewrite fn_lookup_insert_ne.
  - rewrite kalloc_run in E by done. simpl in E. injection E as E1 <-.
    rewrite E1. simpl. by exists p.
  - assert (Ha : page_ok kend a) by (apply Hp; lia).
    rewrite kfree_run in E by done. simpl in E. injection E as <-.
    assert (Hni : a ∉ pfree p) by (apply (owned_not_free k p own); auto).
    eapply owned_inv_update; eauto using kabs_free.
    + rewrite (Ho a Ha) in *. unfold pool_free.
      destruct (Z.ltb_spec 1 (prefs p a)); simpl; rewrite fn_lookup_insert; lia.
    + intros b Hb. unfold pool_free.
      destruct (1 <? prefs p a); simpl; by rewrite fn_lookup_insert_ne.
  - assert (Ha : page_ok kend a) by (apply Hp; lia).
    rewrite (krefpage_run kend) in E by done. injection E as <-.
    assert (Hni : a ∉ pfree p) by (apply (owned_not_free k p own); auto; lia).
    assert (Hlt : prefs p a < 2 ^ 31 - 1) by (rewrite <- Ho; auto; lia).
    eapply owned_inv_update; eauto using kabs_ref; simpl.
    + by rewrite fn_lookup_insert, Ho.
    + intros b Hb. by rewrite fn_lookup_insert_ne.
Qed.
End clients.

(** ** Theorems *)

(** [kalloc] implements allocation from the pool of free pages.  When the pool is empty it
    returns 0 and changes nothing; otherwise it returns the first free page, now with one
    reference, filled with zeros, and no byte outside that page changes.  The lock is released on
    both paths. *)
Theorem kalloc_refines kend c k p :
  KERNBASE <= kend → LK_kmem ∉ held c → kabs kend k p →
  ∃ k', kalloc c k = Ret (pool_alloc p).2 c k' ∧ kabs kend k' (pool_alloc p).1 ∧
    (if decide (pfree p = []) then k' = k
     else (∀ x, (pool_alloc p).2 <= x < (pool_alloc p).2 + PGSIZE → kmem_mem k' x = 0) ∧
          same_outside (pool_alloc p).2 (kmem_mem k) (kmem_mem k')).
Proof.
  intros Hend Hc H. rewrite kalloc_run by done. simpl.
  rewrite (chain_head_ok kend k p H). destruct p as [[|a l] refs]; simpl.
  - eexists. by split_and!.
  - pose proof (kabs_pages _ _ _ H) as Hpg. apply Forall_cons in Hpg as [Ha _].
    destruct (Z.eqb_spec a 0); [by apply page_ok_nonzero in Ha|].
    eexists. split_and!; [done|by apply kabs_alloc|..]; simpl.
    + intros x ?. by apply mfill_in.
    + apply same_outside_fill.
Qed.

(** [kfree] implements the release of one reference to an allocated page: a page with other
    references keeps its contents and is not put on the free list, the last reference puts it on
    the free list, and in both cases nothing outside the page changes.  Any other address panics. *)
Theorem kfree_refines kend c k p a :
  KERNBASE <= kend → LK_kmem ∉ held c → kabs kend k p → a ∉ pfree p →
  (¬ page_ok kend a ∧ kfree kend a c k = Panic "kfree") ∨
  (page_ok kend a ∧
   ∃ k', kfree kend a c k = Ret tt c k' ∧ kabs kend k' (pool_free a p) ∧
     same_outside a (kmem_mem k) (kmem_mem k') ∧
     (1 < prefs p a → kmem_mem k' = kmem_mem k)).
Proof.
  intros Hend Hc H Hni.
  destruct (negb (a mod PGSIZE =? 0) || (a <? kend) || (PHYSTOP <=? a)) eqn:E.
  - left. split.
    + intros Ha%page_ok_guard. congruence.
    + unfold kfree. by rewrite E.
  - right. apply page_ok_guard in E as Ha. split; [done|].
    eexists. split_and!; [by apply kfree_run|by apply kabs_free|..]; cbv zeta;
      rewrite (kabs_refs _ _ _ H a Ha).
    + destruct (1 <? prefs p a); [done|]. simpl.
      eapply same_outside_trans; [apply same_outside_fill|apply same_outside_store].
    + intros ?. by destruct (Z.ltb_spec 1 (prefs p a)); [|lia].
Qed.

(** [kinit] puts exactly the whole pages between [end] and PHYSTOP on the free list, each once,
    with no references; it terminates without exhausting its loop bound. *)
Theorem kinit_refines kend c k :
  KERNBASE <= kend <= PHYSTOP → LK_kmem ∉ held c →
  freelist k = 0 → (∀ i, krefcount k i = 0) →
  ∃ k' free, kinit kend c k = Ret tt c k' ∧ kabs kend k' (mkpool free (λ _, 0)) ∧
    (∀ a, a ∈ free ↔ page_ok kend a).
Proof.
  intros Hend Hc Hf Hr. destruct (kinit_run kend Hend c k Hc Hf Hr) as (k' & E & H).
  do 2 eexists. split_and!; [exact E|exact H|]. intros a. rewrite elem_of_pages_from.
  pose proof (PGROUNDUP_spec kend) as [Hal Hge]; [uconst; lia..|]. split.
  - intros (i & Hi & ->).
    assert (Z.of_nat i < (PHYSTOP - PGROUNDUP kend) / PGSIZE) by lia.
    split; [rewrite Z_mod_plus_full; done|]. uconst. Z.div_mod_to_equations. lia.
  - intros [Ha ?]. exists (Z.to_nat ((a - PGROUNDUP kend) / PGSIZE)).
    assert (PGROUNDUP kend <= a) by (uconst; Z.div_mod_to_equations; lia).
    assert (0 <= (a - PGROUNDUP kend) / PGSIZE) by (apply Z.div_pos; uconst; lia).
    split.
    + apply Z2Nat.inj_lt; [lia|apply Z.div_pos; uconst; lia|].
      uconst. Z.div_mod_to_equations. lia.
    + rewrite Z2Nat.id by lia. uconst. Z.div_mod_to_equations. lia.
Qed.

(** C31. after boot, whatever sequence of [kalloc], [kfree] and [krefpage] calls clients make that
    free and share only pages they hold, a page [kalloc] returns is held by nobody: no page is
    handed out twice, and [krefcount] equals the number of references the clients hold. *)
Theorem reach_owned kend c k0 k1 k own a k' :
  KERNBASE <= kend <= PHYSTOP → LK_kmem ∉ held c →
  freelist k0 = 0 → (∀ i, krefcount k0 i = 0) →
  kinit kend c k0 = Ret tt c k1 →
  rtc (kstep kend c) (k1, λ _, 0) (k, own) →
  kalloc c k = Ret a c k' →
  (a ≠ 0 → own a = 0 ∧ page_ok kend a) ∧
  (∀ b, page_ok kend b → krefcount k (KREF_INDEX b) = own b).
Proof.
  intros Hend Hc Hf Hr E1 Hsteps Ea.
  destruct (kinit_run kend Hend c k0 Hc Hf Hr) as (k2 & E2 & H1).
  rewrite E1 in E2. injection E2 as <-.
  assert (Hinv : owned_inv kend (k, own)).
  { assert (Hi : owned_inv kend (k1, λ _, 0)) by (eexists; split_and!; [exact H1|done|done]).
    clear -Hend Hc Hsteps Hi. remember (k1, λ _ : Z, 0) as st1. remember (k, own) as st2.
    clear Heqst1 Heqst2. induction Hsteps; [done|]. eauto using kstep_owned with lia. }
  destruct Hinv as (p & H & Ho & Hp). simpl in *. split.
  - rewrite kalloc_run in Ea by done. simpl in Ea. injection Ea as <- _.
    rewrite (chain_head_ok kend k p H). destruct p as [[|b l] refs]; [done|]. simpl in *.
    pose proof (kabs_pages _ _ _ H) as Hpg. apply Forall_cons in Hpg as [Hb _].
    intros _. split; [|done]. rewrite Ho by done.
    apply (kabs_zero _ _ _ H b). constructor.
  - intros b Hb. by rewrite (kabs_refs _ _ _ H b Hb), Ho.
Qed.

(** ** The hypotheses hold on concrete states *)

Definition demo_end : Z := KERNBASE + 0x100000.
Definition demo_ctx : kctx := mkctx [] [] 1.
Definition demo_page : Z := KERNBASE + 0x200000.
(** One free page, and one page shared by two page tables. *)
Definition demo_kmem : kmem :=
  mkkmem (λ _, 0) demo_page (<[KREF_INDEX (demo_page + PGSIZE):=2]> (λ _, 0)).
Definition demo_pool : pool :=
  mkpool [demo_page] (<[demo_page + PGSIZE:=2]> (λ _, 0)).

Lemma demo_end_ok : KERNBASE <= demo_end <= PHYSTOP.
Proof. by vm_compute. Qed.

Lemma demo_kabs : kabs demo_end demo_kmem demo_pool.
Proof.
  split; simpl.
  - by split.
  - apply NoDup_singleton.
  - apply Forall_singleton. by apply page_ok_guard.
  - intros a Ha. destruct (decide (a = demo_page + PGSIZE)) as [->|].
    + by rewrite !fn_lookup_insert.
    + rewrite !fn_lookup_insert_ne; auto. intros E.
      apply (KREF_INDEX_inj demo_end) in E; auto; [by vm_compute|by apply page_ok_guard].
  - by intros a ->%list_elem_of_singleton.
  - intros a Ha. destruct (decide (a = demo_page + PGSIZE)) as [->|].
    + rewrite fn_lookup_insert. lia.
    + rewrite fn_lookup_insert_ne by auto. lia.
Qed.

Lemma kalloc_refines_witness :
  ∃ k', kalloc demo_ctx demo_kmem = Ret demo_page demo_ctx k' ∧ kmem_mem k' demo_page = 0.
Proof.
  destruct (kalloc_refines demo_end demo_ctx demo_kmem demo_pool) as (k' & E & _ & Hm & _).
  - by vm_compute.
  - apply not_elem_of_nil.
  - apply demo_kabs.
  - exists k'. split; [exact E|]. apply Hm. simpl. uconst. lia.
Defined.

Lemma kfree_refines_witness :
  ∃ k', kfree demo_end (demo_page + PGSIZE) demo_ctx demo_kmem = Ret tt demo_ctx k' ∧
    kmem_mem k' = kmem_mem demo_kmem.
Proof.
  destruct (kfree_refines demo_end demo_ctx demo_kmem demo_pool (demo_page + PGSIZE))
    as [[Hn _] | (_ & k' & E & _ & _ & Hs)].
  - by vm_compute.
  - apply not_elem_of_nil.
  - apply demo_kabs.
  - by intros ?%list_elem_of_singleton.
  - destruct Hn. by apply page_ok_guard.
  - exists k'. split; [exact E|]. by apply Hs.
Defined.

Lemma kinit_refines_witness :
  ∃ k' free, kinit demo_end demo_ctx (mkkmem (λ _, 0) 0 (λ _, 0)) = Ret tt demo_ctx k' ∧
    kabs demo_end k' (mkpool free (λ _, 0)) ∧ demo_page ∈ free.
Proof.
  destruct (kinit_refines demo_end demo_ctx (mkkmem (λ _, 0) 0 (λ _, 0)))
    as (k' & free & E & H & Hin).
  - by vm_compute.
  - apply not_elem_of_nil.
  - reflexivity.
  - reflexivity.
  - exists k', free. split_and!; [exact E|exact H|]. apply Hin. by apply page_ok_guard.
Defined.

(** Boot, allocate one page, share it, allocate again. *)
Lemma reach_owned_witness :
  ∃ k1 k a b k', kinit demo_end demo_ctx (mkkmem (λ _, 0) 0 (λ _, 0)) = Ret tt demo_ctx k1 ∧
    kalloc demo_ctx k1 = Ret a demo_ctx k ∧ kalloc demo_ctx k = Ret b demo_ctx k' ∧
    (a ≠ 0 → b ≠ 0 → b ≠ a).
Proof.
  destruct (kinit_run demo_end demo_end_ok demo_ctx (mkkmem (λ _, 0) 0 (λ _, 0))
              (not_elem_of_nil _) eq_refl (λ _, eq_refl)) as (k1 & E1 & _).
  pose proof (kalloc_run demo_ctx k1 (not_elem_of_nil _)) as Ea. cbv zeta in Ea.
  set (a := freelist k1) in *.
  set (k := if a =? 0 then k1 else _) in *. clearbody a k.
  pose proof (kalloc_run demo_ctx k (not_elem_of_nil _)) as Eb. cbv zeta in Eb.
  set (b := freelist k) in *.
  set (k' := if b =? 0 then k else _) in *. clearbody b k'.
  exists k1, k, a, b, k'. split; [exact E1|]. split; [exact Ea|]. split; [exact Eb|].
  intros Ha0 Hb0 E.
  assert (Hs : rtc (kstep demo_end demo_ctx) (k1, λ _, 0) (k, <[a:=0 + 1]> (λ _, 0))).
  { apply rtc_once. exact (kstep_alloc demo_end demo_ctx k1 k (λ _, 0) a Ea Ha0). }
  destruct (reach_owned demo_end demo_ctx (mkkmem (λ _, 0) 0 (λ _, 0)) k1 k
              (<[a:=0 + 1]> (λ _, 0)) b k' demo_end_ok (not_elem_of_nil _)
              eq_refl (λ _, eq_refl) E1 Hs Eb) as [Hown _].
  destruct (Hown Hb0) as [H0 _]. rewrite E, fn_lookup_insert in H0. discriminate H0.
Defined.
