(* ===== verification/BlockCache.v ===== *)
(** * What the buffer cache promises to its clients

    The interface between kernel/bio.c and kernel/log.c.  [BlockCacheOps] is the part of bio.c that
    the log calls, with the accesses to [b->data] and [b->blockno] the log makes directly;
    [BlockCache] states what those calls do, in terms of an abstract view of the cache of one
    device.  The log is proved against this interface; the file Bio shows that the linked-list cache
    over the RAM disk implements it. *)

From stdpp Require Import base list functions numbers strings.
From Stdlib Require Import ZArith Lia.
From S2P Require Import Prelude Machine.

(** A block is a list of BSIZE bytes. *)
Definition block := list Z.
Definition bsize : nat := Z.to_nat BSIZE.

(** A block write the device has performed. *)
Definition bwrite_ev : Type := Z * block.

(** ** The abstract view of a device and its cache

    [v_disk] is what the device holds; [v_data] is what a reader of the cache sees; [v_ref],
    [v_lock] and [v_buf] are the reference count, the pid holding the sleep lock and the buffer of
    each block ([v_buf] is meaningful while the count is positive); [v_free] is the number of
    buffers with no reference; [v_log] lists the writes the device has performed, oldest first. *)
Record cview := mkview {
  v_size : Z;
  v_disk : Z → block;
  v_data : Z → block;
  v_ref : Z → Z;
  v_lock : Z → option Z;
  v_buf : Z → nat;
  v_free : Z;
  v_log : list bwrite_ev
}.

Definition is_zero (x : Z) : Z := if x =? 0 then 1 else 0.

(** [bread] by process [me]: the block gets a buffer [i], one more reference, and is locked. *)
Definition view_read (me : Z) (bn : Z) (i : nat) (v : cview) : cview :=
  mkview (v_size v) (v_disk v) (v_data v) (<[bn:=v_ref v bn + 1]> (v_ref v))
    (<[bn:=Some me]> (v_lock v)) (<[bn:=i]> (v_buf v)) (v_free v - is_zero (v_ref v bn)) (v_log v).

(** A store into [b->data]. *)
Definition view_store (bn : Z) (d : block) (v : cview) : cview :=
  mkview (v_size v) (v_disk v) (<[bn:=d]> (v_data v)) (v_ref v) (v_lock v) (v_buf v)
    (v_free v) (v_log v).

Definition view_write (bn : Z) (v : cview) : cview :=
  mkview (v_size v) (<[bn:=v_data v bn]> (v_disk v)) (v_data v) (v_ref v) (v_lock v) (v_buf v)
    (v_free v) (v_log v ++ [(bn, v_data v bn)]).

Definition view_release (bn : Z) (v : cview) : cview :=
  mkview (v_size v) (v_disk v) (v_data v) (<[bn:=v_ref v bn - 1]> (v_ref v))
    (<[bn:=None]> (v_lock v)) (v_buf v) (v_free v + is_zero (v_ref v bn - 1)) (v_log v).

Definition view_ref (bn : Z) (k : Z) (v : cview) : cview :=
  mkview (v_size v) (v_disk v) (v_data v) (<[bn:=v_ref v bn + k]> (v_ref v)) (v_lock v) (v_buf v)
    (v_free v) (v_log v).

(** The view after a boot from a device that holds [d]. *)
Definition view_boot (size : Z) (d : Z → block) (i : Z → nat) : cview :=
  mkview size d d (λ _, 0) (λ _, None) i (Z.of_nat NBUF) [].

(** Performing block writes on a device. *)
Fixpoint apply_writes (ws : list bwrite_ev) (d : Z → block) : Z → block :=
  match ws with
  | [] => d
  | (bn, b) :: ws' => apply_writes ws' (<[bn:=b]> d)
  end.

(** The caller holds none of the spin locks of bio.c. *)
Definition bio_clear (c : kctx) : Prop :=
  (LK_bcache ∉ held c) ∧ (∀ i, LK_bufsl i ∉ held c).

(** ** Operations *)

Class BlockCacheOps (S : Type) := {
  bread : Z → Z → M S nat;
  bwrite : nat → M S unit;
  brelse : nat → M S unit;
  bpin : nat → M S unit;
  bunpin : nat → M S unit;
  b_data_of : S → nat → block;              (* b->data *)
  b_blockno_of : S → nat → Z;               (* b->blockno *)
  b_store : nat → block → S → S;            (* memory written through b->data *)
  binit : M S unit;
  power_cycle : list bwrite_ev → S → S      (* reset after the device performed these writes *)
}.

(** ** Laws *)

Class BlockCache (S : Type) `{BlockCacheOps S} := {
  (** [s] shows the view [v] of device ROOTDEV. *)
  cabs : S → cview → Prop;

  cabs_data s v bn : cabs s v → 0 < v_ref v bn →
    b_data_of s (v_buf v bn) = v_data v bn ∧ b_blockno_of s (v_buf v bn) = bn;
  cabs_len s v bn : cabs s v → 0 <= bn < v_size v → length (v_data v bn) = bsize;

  (** A block that is cached, or for which an unused buffer exists, is returned locked. *)
  bread_ok c s v bn :
    cabs s v → bio_clear c → 0 <= bn < v_size v → v_lock v bn = None →
    v_ref v bn < 2 ^ 32 - 1 → 0 < v_ref v bn ∨ 0 < v_free v →
    ∃ i s', bread ROOTDEV bn c s = Ret i c s' ∧ cabs s' (view_read (curpid c) bn i v) ∧
      (0 < v_ref v bn → i = v_buf v bn);
  (** With every buffer in use, a block that is not cached cannot be read. *)
  bread_full c s v bn :
    cabs s v → bio_clear c → v_ref v bn = 0 → v_free v = 0 →
    bread ROOTDEV bn c s = Panic "bget: no buffers";
  b_store_ok s v bn d :
    cabs s v → 0 < v_ref v bn → length d = bsize →
    cabs (b_store (v_buf v bn) d s) (view_store bn d v);
  bwrite_ok c s v bn :
    cabs s v → bio_clear c → 0 < v_ref v bn → v_lock v bn = Some (curpid c) →
    ∃ s', bwrite (v_buf v bn) c s = Ret tt c s' ∧ cabs s' (view_write bn v);
  (** Dropping the last reference to a block requires its data to be on the device. *)
  brelse_ok c s v bn :
    cabs s v → bio_clear c → 0 < v_ref v bn → v_lock v bn = Some (curpid c) →
    (v_ref v bn = 1 → v_data v bn = v_disk v bn) →
    ∃ c' s', brelse (v_buf v bn) c s = Ret tt c' s' ∧ same_ctx c c' ∧ cabs s' (view_release bn v);
  bpin_ok c s v bn :
    cabs s v → bio_clear c → 0 < v_ref v bn < 2 ^ 32 - 1 →
    ∃ s', bpin (v_buf v bn) c s = Ret tt c s' ∧ cabs s' (view_ref bn 1 v);
  bunpin_ok c s v bn :
    cabs s v → bio_clear c → 1 < v_ref v bn →
    ∃ s', bunpin (v_buf v bn) c s = Ret tt c s' ∧ cabs s' (view_ref bn (-1) v);
  (** After a reset the cache shows what the device holds. *)
  power_cycle_ok c s v ws :
    cabs s v → Forall (λ w, 0 <= w.1 < v_size v ∧ length w.2 = bsize) ws →
    ∃ s' buf, binit c (power_cycle ws s) = Ret tt c s' ∧
      cabs s' (view_boot (v_size v) (apply_writes ws (v_disk v)) buf)
}.
