(* ===== verification/Bio.v ===== *)
(** * Buffer cache over the RAM disk (kernel/bio.c, kernel/ramdisk.c)

    The cache is the C array of buffers linked into a circular doubly-linked list through [prev] and
    [next]; index [HEAD] is [bcache.head].  The RAM disk is the byte image of the file system.

    [dll] says that the links form the list [l]; the lemmas about it show that unlinking a buffer and
    putting it at the front keep the list well formed, and that the two scans of [bget] walk it to
    its end.  [bcabs] relates the cache to the view of file BlockCache, and [bio_cache] shows that
    every operation satisfies the interface. *)

From stdpp Require Import base list functions sets numbers strings.
From Stdlib Require Import ZArith Lia.
From S2P Require Import Prelude Machine Sleeplock BlockCache.

(** ** Data *)

(** [struct buf]: [b_lock] is the sleep lock, [b_prev] and [b_next] are indices of buffers. *)
Record buf := mkbuf {
  b_valid : bool;
  b_dev : Z;
  b_blockno : Z;
  b_lock : sleeplock;
  b_refcnt : Z;
  b_prev : nat;
  b_next : nat;
  b_data : block
}.

#[global] Instance buf_inhabited : Inhabited buf :=
  populate (mkbuf false 0 0 initsleeplock 0 0 0 []).

Definition HEAD : nat := NBUF.

(** [bufs] is [bcache.buf] followed by [bcache.head]; [img] is the memory from fs_img_start, [isize]
    its size fs_img_end - fs_img_start; [wlog] records the block writes performed on it. *)
Record bdev := mkbdev {
  bufs : list buf;
  img : mem;
  isize : Z;
  wlog : list bwrite_ev
}.

Definition bget_of (s : bdev) (i : nat) : buf := bufs s !!! i.
Definition set_bufs (bs : list buf) (s : bdev) : bdev := mkbdev bs (img s) (isize s) (wlog s).
Definition upd_buf (i : nat) (f : buf → buf) (s : bdev) : bdev := set_bufs (alter f i (bufs s)) s.

Definition set_valid (v : bool) (b : buf) : buf :=
  mkbuf v (b_dev b) (b_blockno b) (b_lock b) (b_refcnt b) (b_prev b) (b_next b) (b_data b).
Definition set_block (dev bn : Z) (b : buf) : buf :=
  mkbuf (b_valid b) dev bn (b_lock b) (b_refcnt b) (b_prev b) (b_next b) (b_data b).
Definition set_sl (l : sleeplock) (b : buf) : buf :=
  mkbuf (b_valid b) (b_dev b) (b_blockno b) l (b_refcnt b) (b_prev b) (b_next b) (b_data b).
Definition set_refcnt (n : Z) (b : buf) : buf :=
  mkbuf (b_valid b) (b_dev b) (b_blockno b) (b_lock b) n (b_prev b) (b_next b) (b_data b).
Definition set_prev (p : nat) (b : buf) : buf :=
  mkbuf (b_valid b) (b_dev b) (b_blockno b) (b_lock b) (b_refcnt b) p (b_next b) (b_data b).
Definition set_next (n : nat) (b : buf) : buf :=
  mkbuf (b_valid b) (b_dev b) (b_blockno b) (b_lock b) (b_refcnt b) (b_prev b) n (b_data b).
Definition set_data (d : block) (b : buf) : buf :=
  mkbuf (b_valid b) (b_dev b) (b_blockno b) (b_lock b) (b_refcnt b) (b_prev b) (b_next b) d.

(** The sleep lock of buffer [i]. *)
Definition sl_lens (i : nat) : lens bdev sleeplock :=
  mklens (λ s, b_lock (bget_of s i)) (λ l s, upd_buf i (set_sl l) s).

Definition buf_acquiresleep (i : nat) : M bdev unit :=
  acquiresleep (sl_lens i) (LK_bufsl i) (CH_bufsl i).
Definition buf_releasesleep (i : nat) : M bdev unit :=
  releasesleep (sl_lens i) (LK_bufsl i) (CH_bufsl i).
Definition buf_holdingsleep (i : nat) : M bdev bool :=
  holdingsleep (sl_lens i) (LK_bufsl i).

(** ** ramdisk.c *)

(** [b->blockno * BSIZE] is computed on [uint] before it is widened. *)
Definition ramdisk_rw (i : nat) (write : bool) : M bdev unit :=
  do h <- buf_holdingsleep i;
  if negb h then panic "ramdisk_rw: buf not locked"
  else
    do s <- kget;
    let b := bget_of s i in
    let diskaddr := u32 (b_blockno b * BSIZE) in
    if isize s <? diskaddr + BSIZE then panic "ramdisk: read/write out of bounds"
    else if write then
      kmod (λ s, mkbdev (bufs s) (mwrite (img s) diskaddr (b_data b)) (isize s)
                   (wlog s ++ [(diskaddr / BSIZE, b_data b)]))
    else
      kmod (upd_buf i (set_data (mread (img s) diskaddr bsize))) ;;;
      kmod (upd_buf i (set_valid true)).

(** ** bio.c *)

(** Putting [b] right after [head]: the four stores shared by [binit] and [brelse]. *)
Definition link_front (i : nat) (bs : list buf) : list buf :=
  let first := b_next (bs !!! HEAD) in
  let bs := alter (set_next first) i bs in                       (* b->next = bcache.head.next *)
  let bs := alter (set_prev HEAD) i bs in                        (* b->prev = &bcache.head *)
  let bs := alter (set_prev i) (b_next (bs !!! HEAD)) bs in      (* bcache.head.next->prev = b *)
  alter (set_next i) HEAD bs.                                    (* bcache.head.next = b *)

(** [b->next->prev = b->prev; b->prev->next = b->next] *)
Definition unlink (i : nat) (bs : list buf) : list buf :=
  let bs := alter (set_prev (b_prev (bs !!! i))) (b_next (bs !!! i)) bs in
  alter (set_next (b_next (bs !!! i))) (b_prev (bs !!! i)) bs.

Fixpoint binit_loop (n : nat) (i : nat) : M bdev unit :=
  match n with
  | O => kret tt
  | S n' =>
      kmod (λ s, set_bufs (link_front i (alter (set_sl initsleeplock) i (bufs s))) s) ;;;
      binit_loop n' (S i)
  end.

Definition bio_binit : M bdev unit :=
  kmod (upd_buf HEAD (set_prev HEAD)) ;;;
  kmod (upd_buf HEAD (set_next HEAD)) ;;;
  binit_loop NBUF 0.

(** The two loops of [bget]: the first buffer satisfying [p], following [next] (or [prev]) from [b]
    until [head]; [None] when the fuel runs out first. *)
Fixpoint scan (go : buf → nat) (p : buf → bool) (bs : list buf) (fuel : nat) (b : nat)
  : option (option nat) :=
  if decide (b = HEAD) then Some None
  else
    match fuel with
    | O => None
    | S fuel' => if p (bs !!! b) then Some (Some b) else scan go p bs fuel' (go (bs !!! b))
    end.

Definition bget (dev blockno : Z) : M bdev nat :=
  acquire LK_bcache ;;;
  do bs <- kgets bufs;
  match scan b_next (λ b, (b_dev b =? dev) && (b_blockno b =? blockno)) bs NBUF
          (b_next (bs !!! HEAD)) with
  | None => nofuel
  | Some (Some i) =>
      kmod (upd_buf i (λ b, set_refcnt (u32 (b_refcnt b + 1)) b)) ;;;
      release LK_bcache ;;;
      buf_acquiresleep i ;;;
      kret i
  | Some None =>
      match scan b_prev (λ b, b_refcnt b =? 0) bs NBUF (b_prev (bs !!! HEAD)) with
      | None => nofuel
      | Some (Some i) =>
          kmod (upd_buf i (λ b, set_refcnt 1 (set_valid false (set_block dev blockno b)))) ;;;
          release LK_bcache ;;;
          buf_acquiresleep i ;;;
          kret i
      | Some None => panic "bget: no buffers"
      end
  end.

Definition bio_bread (dev blockno : Z) : M bdev nat :=
  do i <- bget dev blockno;
  do s <- kget;
  if b_valid (bget_of s i) then kret i
  else
    ramdisk_rw i false ;;;
    kmod (upd_buf i (set_valid true)) ;;;
    kret i.

Definition bio_bwrite (i : nat) : M bdev unit :=
  do h <- buf_holdingsleep i;
  if negb h then panic "bwrite" else ramdisk_rw i true.

Definition bio_brelse (i : nat) : M bdev unit :=
  do h <- buf_holdingsleep i;
  if negb h then panic "brelse"
  else
    buf_releasesleep i ;;;
    acquire LK_bcache ;;;
    kmod (upd_buf i (λ b, set_refcnt (u32 (b_refcnt b - 1)) b)) ;;;
    do s <- kget;
    (if b_refcnt (bget_of s i) =? 0
     then kmod (λ s, set_bufs (link_front i (unlink i (bufs s))) s)
     else kret tt) ;;;
    release LK_bcache.

Definition bio_bpin (i : nat) : M bdev unit :=
  acquire LK_bcache ;;;
  kmod (upd_buf i (λ b, set_refcnt (u32 (b_refcnt b + 1)) b)) ;;;
  release LK_bcache.

Definition bio_bunpin (i : nat) : M bdev unit :=
  acquire LK_bcache ;;;
  kmod (upd_buf i (λ b, set_refcnt (u32 (b_refcnt b - 1)) b)) ;;;
  release LK_bcache.

(** ** Power failure

    The device keeps its image, on which it has performed the writes [ws]; the cache restarts as
    zeroed memory. *)
Definition zero_buf : buf := mkbuf false 0 0 (mksleep false 0) 0 0 0 (replicate bsize 0).

Fixpoint replay (ws : list bwrite_ev) (m : mem) : mem :=
  match ws with
  | [] => m
  | (bn, d) :: ws' => replay ws' (mwrite m (bn * BSIZE) d)
  end.

Definition bio_power_cycle (ws : list bwrite_ev) (s : bdev) : bdev :=
  mkbdev (replicate (S NBUF) zero_buf) (replay ws (img s)) (isize s) [].

#[global] Instance bio_ops : BlockCacheOps bdev := {
  bread := bio_bread;
  bwrite := bio_bwrite;
  brelse := bio_brelse;
  bpin := bio_bpin;
  bunpin := bio_bunpin;
  b_data_of := λ s i, b_data (bget_of s i);
  b_blockno_of := λ s i, b_blockno (bget_of s i);
  b_store := λ i d s, upd_buf i (set_data d) s;
  binit := bio_binit;
  power_cycle := bio_power_cycle
}.

(** ** Doubly-linked lists *)

(** From node [x], following [nx] visits [l] and then reaches [y]; [pv] is the way back. *)
Fixpoint dll (nx pv : nat → nat) (x : nat) (l : list nat) (y : nat) : Prop :=
  match l with
  | [] => nx x = y ∧ pv y = x
  | a :: l' => nx x = a ∧ pv a = x ∧ dll nx pv a l' y
  end.

Section dll.
Implicit Types (nx pv : nat → nat) (x y a : nat) (l : list nat).

Lemma dll_app nx pv x l1 a l2 y :
  dll nx pv x (l1 ++ a :: l2) y ↔ dll nx pv x l1 a ∧ dll nx pv a l2 y.
Proof. revert x. induction l1 as [|b l1 IH]; intros x; simpl; [tauto|]. rewrite IH. tauto. Qed.

(** The list depends on [nx] at its start and members, and on [pv] at its members and end. *)
Lemma dll_ext nx pv nx' pv' x l y :
  dll nx pv x l y → (∀ j, j ∈ x :: l → nx' j = nx j) → (∀ j, j ∈ l ++ [y] → pv' j = pv j) →
  dll nx' pv' x l y.
Proof.
  revert x. induction l as [|a l IH]; intros x; simpl.
  - intros [E1 E2] En Ep. split; [rewrite En|rewrite Ep]; auto; constructor.
  - intros (E1 & E2 & Hl) En Ep. split_and!.
    + rewrite En; [done|constructor].
    + rewrite Ep; [done|constructor].
    + apply IH; auto; intros j Hj; [apply En|apply Ep]; by constructor.
Qed.

Lemma dll_last_in nx pv x l y : dll nx pv x l y → pv y ∈ x :: l.
Proof.
  revert x. induction l as [|a l IH]; intros x; simpl.
  - intros [_ ->]. constructor.
  - intros (_ & _ & Hl). constructor. by apply IH.
Qed.

(** Making the list end at [n] instead of [b]. *)
Lemma dll_retarget nx pv x l b n :
  dll nx pv x l b → NoDup (x :: l) → n ∉ l →
  dll (<[pv b:=n]> nx) (<[n:=pv b]> pv) x l n.
Proof.
  revert x. induction l as [|a l IH]; intros x; simpl.
  - intros [_ ->] _ _. by rewrite !fn_lookup_insert.
  - intros (Hx & Ha & Hl) [Hni Hnd]%NoDup_cons [Hna Hnl]%not_elem_of_cons.
    pose proof (dll_last_in _ _ _ _ _ Hl) as Hin. split_and!.
    + rewrite fn_lookup_insert_ne; [done|]. by intros <-.
    + by rewrite fn_lookup_insert_ne.
    + by apply IH.
Qed.

(** Removing a node. *)
Lemma dll_unlink nx pv h l1 b l2 :
  dll nx pv h (l1 ++ b :: l2) h → NoDup (h :: l1 ++ b :: l2) →
  dll (<[pv b:=nx b]> nx) (<[nx b:=pv b]> pv) h (l1 ++ l2) h.
Proof.
  rewrite dll_app. intros [H1 H2] Hnd.
  apply (NoDup_app (h :: l1)) in Hnd as (Hnd1 & Hdis & Hnd2).
  apply NoDup_cons in Hnd2 as [Hb2 Hnd2].
  pose proof (dll_last_in _ _ _ _ _ H1) as Hin.
  destruct l2 as [|c l2]; simpl in H2.
  - destruct H2 as [-> _]. rewrite app_nil_r. apply dll_retarget; [done..|].
    by apply NoDup_cons in Hnd1 as [? _].
  - destruct H2 as (-> & _ & H2). apply NoDup_cons in Hnd2 as [Hc Hnd2].
    rewrite dll_app. split.
    + apply dll_retarget; [done..|]. intros Hc'. apply (Hdis c); [by constructor|].
      by do 2 constructor.
    + apply (dll_ext nx pv); [done|..]; intros j Hj; apply fn_lookup_insert_ne.
      * intros <-. apply (Hdis (pv b)); [done|by constructor].
      * intros <-. apply elem_of_app in Hj as [Hj|Hj%list_elem_of_singleton]; [done|].
        subst. apply (Hdis h); [constructor|by do 2 constructor].
Qed.

(** Adding a node at the front. *)
Lemma dll_push nx pv h l b :
  dll nx pv h l h → NoDup (h :: l) → b ∉ h :: l →
  dll (<[h:=b]> (<[b:=nx h]> nx)) (<[nx h:=b]> (<[b:=h]> pv)) h (b :: l) h.
Proof.
  intros Hl Hnd [Hbh Hbl]%not_elem_of_cons. apply NoDup_cons in Hnd as [Hh Hnd]. simpl.
  assert (Hfirst : nx h ≠ b).
  { destruct l as [|a l]; simpl in Hl; [by destruct Hl as [-> _]|].
    destruct Hl as [-> _]. set_solver. }
  rewrite fn_lookup_insert. split_and!; [done| |].
  - rewrite fn_lookup_insert_ne by done. apply fn_lookup_insert.
  - destruct l as [|a l]; simpl in *.
    + destruct Hl as [E _]. rewrite fn_lookup_insert_ne, fn_lookup_insert by done.
      by rewrite E, fn_lookup_insert.
    + destruct Hl as (E & _ & Hl). rewrite E.
      rewrite fn_lookup_insert_ne, fn_lookup_insert by done. split_and!; [done| |].
      * by rewrite fn_lookup_insert.
      * apply NoDup_cons in Hnd as [Ha Hnd].
        apply (dll_ext nx pv); [done|..]; intros j Hj.
        -- rewrite !fn_lookup_insert_ne; [done|set_solver..].
        -- apply elem_of_app in Hj as [Hj|Hj%list_elem_of_singleton].
           ++ rewrite !fn_lookup_insert_ne; [done|set_solver..].
           ++ subst. rewrite !fn_lookup_insert_ne; [done|set_solver..].
Qed.

(** The list read backwards. *)
Lemma dll_rev nx pv x l y : dll nx pv x l y → dll pv nx y (reverse l) x.
Proof.
  revert x. induction l as [|a l IH]; intros x; simpl; [tauto|].
  intros (Hx & Ha & Hl). rewrite reverse_cons, dll_app. split; [by apply IH|]. by split.
Qed.
End dll.

(** ** The links stored in the buffers *)

Definition nxf (bs : list buf) (i : nat) : nat := b_next (bs !!! i).
Definition pvf (bs : list buf) (i : nat) : nat := b_prev (bs !!! i).

(** A buffer without its links. *)
Definition strip (b : buf) : buf := set_prev 0 (set_next 0 b).

(** The cache list: every buffer once, most recently used first. *)
Definition lru (bs : list buf) (l : list nat) : Prop :=
  l ≡ₚ seq 0 NBUF ∧ dll (nxf bs) (pvf bs) HEAD l HEAD.

Section links.
Implicit Types (bs : list buf) (i j : nat) (l : list nat).

Lemma lk_alter_eq f i bs : (i < length bs)%nat → alter f i bs !!! i = f (bs !!! i).
Proof. intros. by rewrite list_lookup_total_alter_eq. Qed.

Lemma lk_alter_ne f i j bs : j ≠ i → alter f i bs !!! j = bs !!! j.
Proof. intros. by rewrite list_lookup_total_alter_ne. Qed.

(** Any projection of the buffers after an update at [i]. *)
Lemma lk_alter {A} (g : buf → A) f i j bs :
  (i < length bs)%nat →
  g (alter f i bs !!! j) = if decide (j = i) then g (f (bs !!! i)) else g (bs !!! j).
Proof. intros. case_decide; [subst; by rewrite lk_alter_eq|by rewrite lk_alter_ne]. Qed.

Lemma scan_find go p bs nx pv l x fuel :
  dll nx pv x l HEAD → (∀ j, j ∈ l → go (bs !!! j) = nx j) → HEAD ∉ l →
  (length l ≤ fuel)%nat → scan go p bs fuel (nx x) = Some (List.find (λ i, p (bs !!! i)) l).
Proof.
  revert x fuel. induction l as [|a l IH]; intros x fuel; simpl.
  - intros [-> _] _ _ _. destruct fuel; cbn [scan]; by rewrite decide_True.
  - intros (-> & _ & Hl) Hgo [Hh Hh']%not_elem_of_cons Hf. destruct fuel as [|fuel]; [lia|].
    cbn [scan]. rewrite decide_False by done. destruct (p (bs !!! a)); [done|].
    rewrite Hgo by constructor. apply IH; auto; [|lia]. intros. apply Hgo. by constructor.
Qed.

Lemma length_link_front i bs : length (link_front i bs) = length bs.
Proof. unfold link_front. by rewrite !length_alter. Qed.

Lemma length_unlink i bs : length (unlink i bs) = length bs.
Proof. unfold unlink. by rewrite !length_alter. Qed.

(** An update that only changes links. *)
Lemma strip_alter f i j bs :
  (∀ b, strip (f b) = strip b) → strip (alter f i bs !!! j) = strip (bs !!! j).
Proof.
  intros Hf. destruct (decide (i < length bs)%nat) as [Hi|Hi].
  - rewrite (lk_alter strip) by done. case_decide; [subst; by rewrite Hf|done].
  - destruct (decide (j = i)) as [->|]; [|by rewrite lk_alter_ne].
    rewrite list_lookup_total_alter, decide_False by lia. done.
Qed.

Lemma strip_link_front i j bs : strip (link_front i bs !!! j) = strip (bs !!! j).
Proof. unfold link_front. by rewrite !strip_alter. Qed.

Lemma strip_unlink i j bs : strip (unlink i bs !!! j) = strip (bs !!! j).
Proof. unfold unlink. by rewrite !strip_alter. Qed.

Lemma nxf_set_next n i j bs :
  (i < length bs)%nat → nxf (alter (set_next n) i bs) j = <[i:=n]> (nxf bs) j.
Proof. intros. unfold nxf. rewrite (lk_alter b_next) by done. case_decide; by fsplit. Qed.

Lemma nxf_set_prev p i j bs : nxf (alter (set_prev p) i bs) j = nxf bs j.
Proof.
  unfold nxf. rewrite list_lookup_total_alter. case_decide as E; [|done].
  destruct E as [-> _]. done.
Qed.

Lemma pvf_set_prev p i j bs :
  (i < length bs)%nat → pvf (alter (set_prev p) i bs) j = <[i:=p]> (pvf bs) j.
Proof. intros. unfold pvf. rewrite (lk_alter b_prev) by done. case_decide; by fsplit. Qed.

Lemma pvf_set_next n i j bs : pvf (alter (set_next n) i bs) j = pvf bs j.
Proof.
  unfold pvf. rewrite list_lookup_total_alter. case_decide as E; [|done].
  destruct E as [-> _]. done.
Qed.

Ltac links_solve :=
  intros j;
  repeat first
    [ rewrite nxf_set_prev | rewrite pvf_set_next
    | rewrite nxf_set_next by (rewrite ?length_alter; lia)
    | rewrite pvf_set_prev by (rewrite ?length_alter; lia)
    | progress fsplit ]; congruence.

Lemma link_front_links i bs :
  length bs = S NBUF → (i < NBUF)%nat → (nxf bs HEAD < length bs)%nat →
  (∀ j, nxf (link_front i bs) j = <[HEAD:=i]> (<[i:=nxf bs HEAD]> (nxf bs)) j) ∧
  (∀ j, pvf (link_front i bs) j = <[nxf bs HEAD:=i]> (<[i:=HEAD]> (pvf bs)) j).
Proof.
  intros Hl Hi Hf.
  assert (HH : (HEAD < length bs)%nat) by (unfold HEAD; lia).
  assert (i ≠ HEAD) by (unfold HEAD; lia).
  unfold link_front. rewrite !(lk_alter_ne _ i HEAD) by done.
  change (b_next (bs !!! HEAD)) with (nxf bs HEAD). split; links_solve.
Qed.

Lemma unlink_links i bs :
  length bs = S NBUF → (i < NBUF)%nat → nxf bs i ≠ i → pvf bs i ≠ i →
  (nxf bs i < length bs)%nat → (pvf bs i < length bs)%nat →
  (∀ j, nxf (unlink i bs) j = <[pvf bs i:=nxf bs i]> (nxf bs) j) ∧
  (∀ j, pvf (unlink i bs) j = <[nxf bs i:=pvf bs i]> (pvf bs) j).
Proof.
  intros Hl Hi Hn Hp Hn' Hp'. unfold unlink.
  change (b_next (bs !!! i)) with (nxf bs i). change (b_prev (bs !!! i)) with (pvf bs i).
  rewrite !(lk_alter_ne _ (nxf bs i) i) by done.
  change (b_next (bs !!! i)) with (nxf bs i). change (b_prev (bs !!! i)) with (pvf bs i).
  split; links_solve.
Qed.

Lemma lru_NoDup bs l : lru bs l → NoDup (HEAD :: l).
Proof.
  intros [Hp _]. apply NoDup_cons. rewrite Hp. split; [|apply NoDup_seq].
  rewrite elem_of_seq. unfold HEAD. lia.
Qed.

Lemma lru_elem bs l i : lru bs l → i ∈ l ↔ (i < NBUF)%nat.
Proof. intros [Hp _]. rewrite Hp, elem_of_seq. lia. Qed.

Lemma lru_length bs l : lru bs l → length l = NBUF.
Proof. intros [Hp _]. by rewrite Hp, length_seq. Qed.

Lemma lru_ext bs bs' l :
  lru bs l → (∀ j, nxf bs' j = nxf bs j) → (∀ j, pvf bs' j = pvf bs j) → lru bs' l.
Proof. intros [Hp Hd] En Ep. split; [done|]. eapply dll_ext; eauto. Qed.

Lemma lru_alter f i bs l :
  (∀ b, b_next (f b) = b_next b ∧ b_prev (f b) = b_prev b) → (i < length bs)%nat →
  lru bs l → lru (alter f i bs) l.
Proof.
  intros Hf Hi Hl. eapply lru_ext; [exact Hl|..]; intros j.
  - unfold nxf. rewrite (lk_alter b_next) by done. case_decide; [subst; apply Hf|done].
  - unfold pvf. rewrite (lk_alter b_prev) by done. case_decide; [subst; apply Hf|done].
Qed.

(** Part of the buffers in a ring through [HEAD]. *)
Definition ring bs l : Prop :=
  NoDup (HEAD :: l) ∧ (∀ j, j ∈ l → (j < NBUF)%nat) ∧ dll (nxf bs) (pvf bs) HEAD l HEAD.

Lemma ring_bound bs l j :
  length bs = S NBUF → ring bs l → j ∈ HEAD :: l → (j < length bs)%nat.
Proof.
  intros Hlen (_ & Hb & _) [-> | Hj]%elem_of_cons; [unfold HEAD; lia|].
  apply Hb in Hj. lia.
Qed.

Lemma lru_ring bs l : lru bs l → ring bs l.
Proof.
  intros Hl. split_and!; [by eapply lru_NoDup| |by destruct Hl].
  intros j. by apply lru_elem with bs.
Qed.

(** The successor of a ring's node is in the ring. *)
Lemma dll_next_in nx pv x l y : dll nx pv x l y → nx x ∈ y :: l.
Proof.
  intros H%dll_rev%dll_last_in. rewrite elem_of_cons, elem_of_reverse in H.
  by rewrite elem_of_cons.
Qed.

Lemma ring_push i bs l :
  length bs = S NBUF → ring bs l → (i < NBUF)%nat → i ∉ l → ring (link_front i bs) (i :: l).
Proof.
  intros Hlen Hr Hi Hil. destruct (Hr) as (Hnd & Hb & Hd).
  assert (Hih : i ≠ HEAD) by (unfold HEAD; lia).
  destruct (link_front_links i bs) as [Ln Lp]; auto.
  { eapply ring_bound; eauto. by eapply dll_next_in. }
  assert (Hni : i ∉ HEAD :: l) by set_solver.
  split_and!.
  - apply NoDup_cons in Hnd as [??]. apply NoDup_cons. split; [set_solver|by apply NoDup_cons].
  - intros j [-> | Hj]%elem_of_cons; auto.
  - eapply dll_ext; [by apply dll_push|..]; intros j _; [apply Ln|apply Lp].
Qed.

Lemma ring_unlink i bs l1 l2 :
  length bs = S NBUF → ring bs (l1 ++ i :: l2) → ring (unlink i bs) (l1 ++ l2).
Proof.
  intros Hlen Hr. destruct (Hr) as (Hnd & Hb & Hd).
  assert (Hi : (i < NBUF)%nat) by (apply Hb; set_solver).
  pose proof (proj1 (dll_app _ _ _ _ _ _ _) Hd) as [Hd1 Hd2].
  pose proof (dll_last_in _ _ _ _ _ Hd1) as Hpv. pose proof (dll_next_in _ _ _ _ _ Hd2) as Hnx.
  pose proof Hnd as Hnd'. change (HEAD :: l1 ++ i :: l2) with ((HEAD :: l1) ++ i :: l2) in Hnd'.
  apply NoDup_app in Hnd' as (Hn1 & Hdis & [Hi2 Hn2]%NoDup_cons).
  assert (Hi1 : i ∉ HEAD :: l1) by (intros H; apply (Hdis i H); constructor).
  destruct (unlink_links i bs) as [Un Up]; auto.
  { intros E. rewrite E in Hnx. apply elem_of_cons in Hnx as [E' | ?]; [|done].
    unfold HEAD in E'. lia. }
  { intros E. by rewrite E in Hpv. }
  { eapply ring_bound; eauto. set_solver. }
  { eapply ring_bound; eauto. set_solver. }
  split_and!.
  - change (HEAD :: l1 ++ l2) with ((HEAD :: l1) ++ l2). apply NoDup_app.
    split_and!; [done| |done]. intros j Hj Hj2. apply (Hdis j Hj). by constructor.
  - intros j Hj. apply Hb. set_solver.
  - eapply dll_ext; [by apply dll_unlink|..]; intros j _; [apply Un|apply Up].
Qed.

(** Moving a buffer to the front keeps the list, with that buffer first. *)
Lemma lru_front i bs l :
  length bs = S NBUF → lru bs l → (i < NBUF)%nat →
  ∃ l1 l2, l = l1 ++ i :: l2 ∧ lru (link_front i (unlink i bs)) (i :: l1 ++ l2).
Proof.
  intros Hlen Hlru Hi. pose proof (lru_ring _ _ Hlru) as Hr.
  pose proof (proj2 (lru_elem _ _ i Hlru) Hi) as (l1 & l2 & ->)%list_elem_of_split.
  exists l1, l2. split; [done|].
  assert (Hni : i ∉ l1 ++ l2).
  { destruct Hr as ([_ Hnd]%NoDup_cons & _). apply NoDup_app in Hnd as (_ & Hd & [? _]%NoDup_cons).
    intros [?|?]%elem_of_app; [|done]. by apply (Hd i); [|constructor]. }
  apply ring_unlink in Hr; [|done]. apply (ring_push i) in Hr as (_ & _ & Hd); auto.
  - split; [|done]. destruct Hlru as [<- _]. by rewrite Permutation_middle.
  - by rewrite length_unlink.
Qed.
End links.

(** ** Counting the unused buffers *)

Definition zsum (f : nat → Z) (l : list nat) : Z := foldr (λ i n, f i + n) 0 l.

Lemma zsum_ext f g l : (∀ i, i ∈ l → f i = g i) → zsum f l = zsum g l.
Proof.
  induction l as [|a l IH]; intros E; simpl; [done|].
  rewrite (E a) by constructor. rewrite IH; [done|]. intros. apply E. by constructor.
Qed.

Lemma zsum_update f g l i :
  NoDup l → i ∈ l → (∀ j, j ≠ i → g j = f j) → zsum g l = zsum f l - f i + g i.
Proof.
  intros Hnd Hi E. induction Hnd as [|a l Ha Hnd IH]; [by apply elem_of_nil in Hi|]. simpl.
  apply elem_of_cons in Hi as [-> | Hi].
  - rewrite (zsum_ext g f l); [lia|]. intros j Hj. apply E. by intros ->.
  - rewrite IH by done. rewrite (E a) by (by intros ->). lia.
Qed.

Definition unused (bs : list buf) : Z := zsum (λ i, is_zero (b_refcnt (bs !!! i))) (seq 0 NBUF).

Lemma is_zero_range x : 0 <= is_zero x <= 1.
Proof. unfold is_zero. destruct (x =? 0); lia. Qed.

Lemma unused_alter f i bs :
  (i < NBUF)%nat → length bs = S NBUF →
  unused (alter f i bs) =
    unused bs - is_zero (b_refcnt (bs !!! i)) + is_zero (b_refcnt (f (bs !!! i))).
Proof.
  intros Hi Hl. unfold unused.
  rewrite (zsum_update (λ i, is_zero (b_refcnt (bs !!! i))) _ _ i).
  - by rewrite lk_alter_eq by lia.
  - apply NoDup_seq.
  - apply elem_of_seq. lia.
  - intros j Hj. by rewrite lk_alter_ne.
Qed.

Lemma zsum_pos f l : (∀ i, 0 <= f i <= 1) → 0 <= zsum f l ∧ (0 < zsum f l ↔ ∃ i, i ∈ l ∧ f i = 1).
Proof.
  intros Hf. induction l as [|a l [IH1 IH2]]; simpl.
  - split; [lia|]. split; [lia|]. by intros (i & ?%elem_of_nil & _).
  - pose proof (Hf a). split; [lia|]. split.
    + intros Hp. destruct (Z.eq_dec (f a) 1); [exists a; split; [constructor|done]|].
      destruct IH2 as [(i & ? & ?) _]; [lia|]. exists i. by split; [constructor|].
    + intros (i & [-> | Hi]%elem_of_cons & E); [lia|].
      assert (0 < zsum f l) by (apply IH2; eauto). lia.
Qed.

Lemma unused_pos bs : 0 < unused bs ↔ ∃ i, (i < NBUF)%nat ∧ b_refcnt (bs !!! i) = 0.
Proof.
  unfold unused. destruct (zsum_pos (λ i, is_zero (b_refcnt (bs !!! i))) (seq 0 NBUF)) as [_ ->].
  { intros. apply is_zero_range. }
  unfold is_zero. cbv beta. split.
  - intros (i & Hi%elem_of_seq & E). exists i. split; [lia|].
    by destruct (Z.eqb_spec (b_refcnt (bs !!! i)) 0).
  - intros (i & Hi & E). exists i. split; [apply elem_of_seq; lia|]. by rewrite E.
Qed.

(** ** The view a cache shows *)

Definition lockst (b : buf) : option Z :=
  if sl_locked (b_lock b) then Some (sl_pid (b_lock b)) else None.

(** Buffer [i] holds a block of the device and agrees with the view. *)
Record buf_ok (v : cview) (i : nat) (b : buf) : Prop := mkbufok {
  bo_range : 0 <= b_blockno b < v_size v;
  bo_valid : b_valid b = true;
  bo_ref : v_ref v (b_blockno b) = b_refcnt b;
  bo_lock : v_lock v (b_blockno b) = lockst b;
  bo_buf : 0 < b_refcnt b → v_buf v (b_blockno b) = i;
  bo_data : v_data v (b_blockno b) = b_data b;
  bo_clean : b_refcnt b = 0 → v_data v (b_blockno b) = v_disk v (b_blockno b);
  bo_held : sl_locked (b_lock b) = true → 0 < b_refcnt b;
  bo_cnt : 0 <= b_refcnt b < 2 ^ 32
}.

Record bcabs (s : bdev) (v : cview) : Prop := mkbcabs {
  bc_len : length (bufs s) = S NBUF;
  bc_lru : ∃ l, lru (bufs s) l;
  bc_size : isize s = v_size v * BSIZE ∧ 0 <= v_size v <= 2 ^ 22;
  bc_disk : ∀ bn, 0 <= bn < v_size v → v_disk v bn = mread (img s) (bn * BSIZE) bsize;
  bc_buf : ∀ i, (i < NBUF)%nat → b_dev (bget_of s i) = ROOTDEV → buf_ok v i (bget_of s i);
  bc_uniq : ∀ i j, (i < NBUF)%nat → (j < NBUF)%nat →
    b_dev (bget_of s i) = ROOTDEV → b_dev (bget_of s j) = ROOTDEV →
    b_blockno (bget_of s i) = b_blockno (bget_of s j) → i = j;
  bc_other : ∀ i, (i < NBUF)%nat → b_dev (bget_of s i) ≠ ROOTDEV →
    b_refcnt (bget_of s i) = 0 ∧ sl_locked (b_lock (bget_of s i)) = false;
  bc_none : ∀ bn, (∀ i, (i < NBUF)%nat → b_dev (bget_of s i) = ROOTDEV →
      b_blockno (bget_of s i) ≠ bn) →
    v_ref v bn = 0 ∧ v_lock v bn = None ∧ v_data v bn = v_disk v bn;
  bc_free : v_free v = unused (bufs s);
  bc_dlen : ∀ bn, 0 <= bn < v_size v → length (v_data v bn) = bsize;
  bc_log : wlog s = v_log v
}.

(** ** Changing the cache under the view *)

(** The views agree on every block but [bn]. *)
Definition view_off (bn : Z) (v v' : cview) : Prop :=
  v_size v' = v_size v ∧
  ∀ b, b ≠ bn → v_disk v' b = v_disk v b ∧ v_data v' b = v_data v b ∧ v_ref v' b = v_ref v b ∧
    v_lock v' b = v_lock v b ∧ v_buf v' b = v_buf v b.

Section bcabs.
Implicit Types (s : bdev) (v : cview) (b : buf) (i j : nat) (bn : Z).

Lemma buf_ok_off bn v v' i b :
  view_off bn v v' → b_blockno b ≠ bn → buf_ok v i b → buf_ok v' i b.
Proof.
  intros [Es Eo] Hb []. destruct (Eo _ Hb) as (E1 & E2 & E3 & E4 & E5).
  split; rewrite ?Es, ?E1, ?E2, ?E3, ?E4, ?E5; auto.
Qed.

Lemma buf_ok_strip v i b b' : strip b' = strip b → buf_ok v i b → buf_ok v i b'.
Proof. destruct b, b'. unfold strip, set_prev, set_next. simpl. intros [= -> -> -> -> -> ->] []. by split. Qed.

Lemma bcabs_idle s v i :
  bcabs s v → (i < NBUF)%nat → b_refcnt (bget_of s i) = 0 →
  sl_locked (b_lock (bget_of s i)) = false.
Proof.
  intros Hs Hi Hr. destruct (decide (b_dev (bget_of s i) = ROOTDEV)) as [E|E].
  - destruct (bc_buf _ _ Hs i Hi E). destruct (sl_locked _); [|done]. lia.
  - by apply (bc_other _ _ Hs i Hi).
Qed.

(** Buffer [i] is rewritten by [f] and holds block [bn] afterwards: it held [bn] before, or it was
    unused and [bn] was not cached. *)
Lemma bcabs_update s v v' i bn f img' wl' :
  bcabs s v → (i < NBUF)%nat →
  (∀ j, (j < NBUF)%nat → j ≠ i → b_dev (bget_of s j) = ROOTDEV → b_blockno (bget_of s j) ≠ bn) →
  (b_dev (bget_of s i) = ROOTDEV → b_blockno (bget_of s i) = bn ∨ b_refcnt (bget_of s i) = 0) →
  (∀ b, b_next (f b) = b_next b ∧ b_prev (f b) = b_prev b) →
  b_dev (f (bget_of s i)) = ROOTDEV → b_blockno (f (bget_of s i)) = bn →
  view_off bn v v' → buf_ok v' i (f (bget_of s i)) → length (v_data v' bn) = bsize →
  v_free v' = v_free v - is_zero (b_refcnt (bget_of s i)) + is_zero (b_refcnt (f (bget_of s i))) →
  (∀ b : Z, 0 <= b < v_size v → v_disk v' b = mread img' (b * BSIZE) bsize) → wl' = v_log v' →
  bcabs (mkbdev (alter f i (bufs s)) img' (isize s) wl') v'.
Proof.
  intros Hs Hi Hother Hold Hlinks Hdev Hbn Hoff Hok Hdl Hfree Hdisk Hlog.
  pose proof (bc_len _ _ Hs) as Hlen. destruct (Hoff) as [Es Eo].
  set (s' := mkbdev _ _ _ _).
  assert (Hi' : bget_of s' i = f (bget_of s i)) by (apply lk_alter_eq; lia).
  assert (Hj' : ∀ j, j ≠ i → bget_of s' j = bget_of s j) by (intros; by apply lk_alter_ne).
  split.
  - simpl. by rewrite length_alter.
  - destruct (bc_lru _ _ Hs) as [l Hl]. exists l. apply lru_alter; [done|lia|done].
  - rewrite Es. apply (bc_size _ _ Hs).
  - by rewrite Es.
  - intros j Hj. destruct (decide (j = i)) as [->|Hne]; [by rewrite Hi'|]. rewrite Hj' by done.
    intros Hd. eapply buf_ok_off; [done|by apply Hother|]. by apply (bc_buf _ _ Hs).
  - intros j k Hj Hk. destruct (decide (j = i)) as [->|Hne], (decide (k = i)) as [->|Hnk];
      rewrite ?Hi', ?Hj' by done; rewrite ?Hbn; [done|..].
    + intros _ Hd E. by destruct (Hother k Hk Hnk Hd).
    + intros Hd _ E. by destruct (Hother j Hj Hne Hd).
    + by apply (bc_uniq _ _ Hs).
  - intros j Hj. destruct (decide (j = i)) as [->|Hne]; [by rewrite Hi'|]. rewrite Hj' by done.
    by apply (bc_other _ _ Hs).
  - intros b Hb. assert (Hbbn : b ≠ bn).
    { intros ->. apply (Hb i Hi); rewrite Hi'; done. }
    destruct (Eo b Hbbn) as (-> & -> & -> & -> & _).
    destruct (decide (b_dev (bget_of s i) = ROOTDEV ∧ b_blockno (bget_of s i) = b)) as [[Hd E]|Hnb].
    + destruct (Hold Hd) as [?|Hr]; [congruence|]. pose proof (bcabs_idle _ _ _ Hs Hi Hr) as Hl.
      destruct (bc_buf _ _ Hs i Hi Hd) as [_ _ H1 H2 _ _ H3 _ _]. subst b.
      rewrite H1, H2, H3 by done. unfold lockst. by rewrite Hl.
    + apply (bc_none _ _ Hs). intros j Hj Hd. destruct (decide (j = i)) as [->|Hne]; [tauto|].
      specialize (Hb j Hj). rewrite Hj' in Hb by done. auto.
  - rewrite Hfree, (bc_free _ _ Hs). simpl. rewrite unused_alter by done. done.
  - intros b Hb. destruct (decide (b = bn)) as [->|Hne]; [done|].
    destruct (Eo b Hne) as (_ & -> & _). apply (bc_dlen _ _ Hs). by rewrite <- Es.
  - done.
Qed.

(** Links may change as long as they still form the list. *)
Lemma bcabs_relink s v bs l :
  bcabs s v → length bs = S NBUF → (∀ j, strip (bs !!! j) = strip (bufs s !!! j)) → lru bs l →
  bcabs (set_bufs bs s) v.
Proof.
  intros Hs Hlen Hst Hl.
  assert (E : ∀ {A} (g : buf → A) j, (∀ b, g (strip b) = g b) → g (bs !!! j) = g (bufs s !!! j)).
  { intros A g j Hg. by rewrite <- !(Hg (_ !!! _)), Hst. }
  assert (Ed : ∀ j, b_dev (bs !!! j) = b_dev (bget_of s j)) by (intros; by apply E).
  assert (Eb : ∀ j, b_blockno (bs !!! j) = b_blockno (bget_of s j)) by (intros; by apply E).
  assert (Er : ∀ j, b_refcnt (bs !!! j) = b_refcnt (bget_of s j)) by (intros; by apply E).
  assert (El : ∀ j, b_lock (bs !!! j) = b_lock (bget_of s j)) by (intros; by apply E).
  destruct Hs. split; try done.
  - by exists l.
  - intros i Hi. change (bget_of (set_bufs bs s) i) with (bs !!! i). rewrite Ed. intros Hd.
    eapply buf_ok_strip; [apply Hst|]. by apply bc_buf0.
  - intros i j. change (bget_of (set_bufs bs s) i) with (bs !!! i).
    change (bget_of (set_bufs bs s) j) with (bs !!! j). rewrite !Ed, !Eb. auto.
  - intros i. change (bget_of (set_bufs bs s) i) with (bs !!! i). rewrite Ed, Er, El. auto.
  - intros bn H. apply bc_none0. intros i Hi Hd. specialize (H i Hi).
    change (bget_of (set_bufs bs s) i) with (bs !!! i) in H. rewrite Ed, Eb in H. auto.
  - rewrite bc_free0. apply zsum_ext. intros i _. cbv beta. by rewrite Er.
Qed.

Definition caches s bn i : Prop :=
  (i < NBUF)%nat ∧ b_dev (bget_of s i) = ROOTDEV ∧ b_blockno (bget_of s i) = bn.

Lemma cached_dec s bn :
  (∃ i, caches s bn i) ∨
  (∀ i, (i < NBUF)%nat → b_dev (bget_of s i) = ROOTDEV → b_blockno (bget_of s i) ≠ bn).
Proof.
  destruct (decide (Exists (λ i, b_dev (bget_of s i) = ROOTDEV ∧ b_blockno (bget_of s i) = bn)
    (seq 0 NBUF))) as [(i & Hi%elem_of_seq & H)%Exists_exists|Hn].
  - left. exists i. split; [lia|done].
  - right. intros i Hi Hd Hb. apply Hn, Exists_exists. exists i. rewrite elem_of_seq.
    split; [lia|done].
Qed.

(** A referenced block is in the buffer the view says. *)
Lemma bcabs_find s v bn :
  bcabs s v → 0 < v_ref v bn → caches s bn (v_buf v bn) ∧ buf_ok v (v_buf v bn) (bget_of s (v_buf v bn)).
Proof.
  intros Hs Hr. destruct (cached_dec s bn) as [(i & Hi & Hd & Hb)|Hn].
  - pose proof (bc_buf _ _ Hs i Hi Hd) as Hok.
    assert (v_buf v bn = i) as ->; [|done].
    destruct Hok as [_ _ H1 _ H2 _ _ _ _]. rewrite Hb in *. rewrite H2; lia.
  - destruct (bc_none _ _ Hs bn Hn) as [E _]. lia.
Qed.

(** [bcabs_update] for a buffer that keeps its block. *)
Lemma bcabs_inplace s v v' bn i f img' wl' :
  bcabs s v → caches s bn i →
  (∀ b, b_next (f b) = b_next b ∧ b_prev (f b) = b_prev b ∧ b_dev (f b) = b_dev b ∧
        b_blockno (f b) = b_blockno b) →
  view_off bn v v' → buf_ok v' i (f (bget_of s i)) → length (v_data v' bn) = bsize →
  v_free v' = v_free v - is_zero (b_refcnt (bget_of s i)) + is_zero (b_refcnt (f (bget_of s i))) →
  (∀ b : Z, 0 <= b < v_size v → v_disk v' b = mread img' (b * BSIZE) bsize) → wl' = v_log v' →
  bcabs (mkbdev (alter f i (bufs s)) img' (isize s) wl') v'.
Proof.
  intros Hs (Hi & Hd & Hb) Hf. intros. eapply bcabs_update; eauto.
  - intros j Hj Hne Hdj E. apply Hne. eapply (bc_uniq _ _ Hs); congruence.
  - intros b. destruct (Hf b) as (-> & -> & _). done.
  - destruct (Hf (bget_of s i)) as (_ & _ & -> & _). done.
  - destruct (Hf (bget_of s i)) as (_ & _ & _ & ->). done.
Qed.

(** The view changes only at [bn], and the device not at all. *)
Lemma view_off_intro bn v v' :
  v_size v' = v_size v →
  (∀ b : Z, b ≠ bn → v_disk v' b = v_disk v b) → (∀ b : Z, b ≠ bn → v_data v' b = v_data v b) →
  (∀ b : Z, b ≠ bn → v_ref v' b = v_ref v b) → (∀ b : Z, b ≠ bn → v_lock v' b = v_lock v b) →
  (∀ b : Z, b ≠ bn → v_buf v' b = v_buf v b) → view_off bn v v'.
Proof. intros. split; [done|]. intros b Hb. split_and!; auto. Qed.
End bcabs.

Ltac view_off_solve :=
  apply view_off_intro; simpl; intros; try done; by rewrite fn_lookup_insert_ne.

(** ** The operations refine the view *)

Section refine.
Implicit Types (s : bdev) (v : cview) (c : kctx) (bn : Z) (i : nat).

Lemma alter_twice (f g : buf → buf) i (bs : list buf) : alter g i (alter f i bs) = alter (λ b, g (f b)) i bs.
Proof. by rewrite list_alter_alter_eq. Qed.

Lemma upd_twice (f g : buf → buf) i s : upd_buf i g (upd_buf i f s) = upd_buf i (λ b, g (f b)) s.
Proof. unfold upd_buf, set_bufs. simpl. by rewrite alter_twice. Qed.

Lemma bcabs_dlen1 s v bn :
  bcabs s v → 0 < v_ref v bn → length (v_data v bn) = bsize.
Proof.
  intros Hs Hr. destruct (bcabs_find _ _ _ Hs Hr) as [(_ & _ & E) [Hrg _ _ _ _ _ _ _ _]].
  rewrite E in Hrg. by apply (bc_dlen _ _ Hs).
Qed.

(** Updates that leave the device alone. *)
Lemma bcabs_memory s v v' bn i f :
  bcabs s v → caches s bn i →
  (∀ b, b_next (f b) = b_next b ∧ b_prev (f b) = b_prev b ∧ b_dev (f b) = b_dev b ∧
        b_blockno (f b) = b_blockno b) →
  view_off bn v v' → v_disk v' = v_disk v → v_log v' = v_log v →
  buf_ok v' i (f (bget_of s i)) → length (v_data v' bn) = bsize →
  v_free v' = v_free v - is_zero (b_refcnt (bget_of s i)) + is_zero (b_refcnt (f (bget_of s i))) →
  bcabs (upd_buf i f s) v'.
Proof.
  intros Hs Hc Hf Ho Ed El Hok Hl Hfree. eapply bcabs_inplace; eauto.
  - rewrite Ed. apply (bc_disk _ _ Hs).
  - rewrite El. apply (bc_log _ _ Hs).
Qed.

Lemma bio_store_ok s v bn d :
  bcabs s v → 0 < v_ref v bn → length d = bsize →
  bcabs (upd_buf (v_buf v bn) (set_data d) s) (view_store bn d v).
Proof.
  intros Hs Hr Hl. destruct (bcabs_find _ _ _ Hs Hr) as [Hc Hok].
  destruct (Hc) as (_ & _ & Eb). eapply bcabs_memory; eauto.
  - view_off_solve.
  - destruct Hok. rewrite Eb in *. split; simpl; rewrite ?Eb, ?fn_lookup_insert; auto.
    intros E. exfalso. lia.
  - simpl. by rewrite fn_lookup_insert.
  - simpl. lia.
Qed.

(** One more or one fewer reference, the block staying referenced. *)
Lemma bcabs_count s v bn k :
  bcabs s v → 0 < v_ref v bn → 0 < v_ref v bn + k < 2 ^ 32 →
  bcabs (upd_buf (v_buf v bn) (λ b, set_refcnt (u32 (b_refcnt b + k)) b) s) (view_ref bn k v).
Proof.
  intros Hs Hr Hk. pose proof (bcabs_dlen1 _ _ _ Hs Hr).
  destruct (bcabs_find _ _ _ Hs Hr) as [Hc Hok].
  destruct (Hc) as (_ & _ & Eb). pose proof (bo_ref _ _ _ Hok) as Er. rewrite Eb in Er.
  eapply bcabs_memory; eauto.
  - view_off_solve.
  - destruct Hok. rewrite Eb in *.
    split; simpl; rewrite ?Eb, ?fn_lookup_insert, ?u32_small by lia; auto; lia.
  - simpl. rewrite u32_small by lia. unfold is_zero.
    rewrite !(proj2 (Z.eqb_neq _ _)) by lia. lia.
Qed.

Lemma bio_bpin_ok c s v bn :
  bcabs s v → bio_clear c → 0 < v_ref v bn < 2 ^ 32 - 1 →
  ∃ s', bio_bpin (v_buf v bn) c s = Ret tt c s' ∧ bcabs s' (view_ref bn 1 v).
Proof.
  destruct c as [h w p]. intros Hs [Hb _] Hr. unfold bio_bpin. kexec.
  eexists. split; [done|]. apply bcabs_count; [done|lia..].
Qed.

Lemma bio_bunpin_ok c s v bn :
  bcabs s v → bio_clear c → 1 < v_ref v bn →
  ∃ s', bio_bunpin (v_buf v bn) c s = Ret tt c s' ∧ bcabs s' (view_ref bn (-1) v).
Proof.
  destruct c as [h w p]. intros Hs [Hb _] Hr. unfold bio_bunpin. kexec.
  eexists. split; [done|].
  destruct (bcabs_find s v bn) as [(_ & _ & Eb) [_ _ Er _ _ _ _ _ ?]]; [done|lia|].
  rewrite Eb in Er. apply (bcabs_count _ _ _ (-1)); [done|lia..].
Qed.

(** The caller holds the sleep lock of the block's buffer. *)
Lemma holding_run c s v bn :
  bcabs s v → bio_clear c → 0 < v_ref v bn → v_lock v bn = Some (curpid c) →
  buf_holdingsleep (v_buf v bn) c s = Ret true c s.
Proof.
  intros Hs [_ Hc] Hr Hl. destruct (bcabs_find _ _ _ Hs Hr) as [(_ & _ & Eb) Hok].
  pose proof (bo_lock _ _ _ Hok) as E. rewrite Eb, Hl in E. unfold lockst in E.
  unfold buf_holdingsleep. rewrite holdingsleep_run by done. simpl.
  destruct (sl_locked _); [|done]. injection E as <-. by rewrite Z.eqb_refl.
Qed.

(** A block of the device is inside the image. *)
Lemma diskaddr_ok s v bn :
  bcabs s v → 0 <= bn < v_size v →
  u32 (bn * BSIZE) = bn * BSIZE ∧ (isize s <? bn * BSIZE + BSIZE) = false.
Proof.
  intros Hs Hbn. destruct (bc_size _ _ Hs) as [Ei Hsz]. unfold BSIZE in *.
  split; [apply u32_small; lia|]. apply Z.ltb_ge. lia.
Qed.

Lemma mread_blocks_ne m d b bn :
  length d = bsize → b ≠ bn → mread (mwrite m (bn * BSIZE) d) (b * BSIZE) bsize = mread m (b * BSIZE) bsize.
Proof. intros Hl Hne. apply mread_mwrite_ne. rewrite Hl. unfold bsize, BSIZE. lia. Qed.

Lemma bio_bwrite_ok c s v bn :
  bcabs s v → bio_clear c → 0 < v_ref v bn → v_lock v bn = Some (curpid c) →
  ∃ s', bio_bwrite (v_buf v bn) c s = Ret tt c s' ∧ bcabs s' (view_write bn v).
Proof.
  intros Hs Hc Hr Hl. pose proof (holding_run _ _ _ _ Hs Hc Hr Hl) as Hh.
  pose proof (bcabs_dlen1 _ _ _ Hs Hr) as Hdl.
  destruct (bcabs_find _ _ _ Hs Hr) as [Hca Hok]. destruct (Hca) as (_ & _ & Eb).
  pose proof (bo_range _ _ _ Hok) as Hrg. pose proof (bo_data _ _ _ Hok) as Hd. rewrite Eb in Hrg, Hd.
  destruct (diskaddr_ok _ _ _ Hs Hrg) as [Ea Ei].
  unfold bio_bwrite. kstep Hh. unfold ramdisk_rw. simpl. kstep Hh. simpl. kexec.
  rewrite Eb, Ea, Ei. kexec. eexists. split; [done|].
  rewrite <- Hd, Z.div_mul by done.
  rewrite <- (list_alter_id (λ b : buf, b) (bufs s) (v_buf v bn)) by done.
  eapply bcabs_inplace; eauto; simpl.
  - view_off_solve.
  - destruct Hok. rewrite Eb in *. split; simpl; rewrite ?Eb, ?fn_lookup_insert; auto.
  - lia.
  - intros b Hbr. destruct (decide (b = bn)) as [->|Hne].
    + rewrite fn_lookup_insert, <- Hdl. by rewrite mread_mwrite_eq.
    + rewrite fn_lookup_insert_ne, mread_blocks_ne by done. by apply (bc_disk _ _ Hs).
  - by rewrite (bc_log _ _ Hs).
Qed.
(** The buffer once its sleep lock and a reference are given up. *)
Lemma bcabs_release s v bn :
  bcabs s v → 0 < v_ref v bn → (v_ref v bn = 1 → v_data v bn = v_disk v bn) →
  bcabs (upd_buf (v_buf v bn) (λ b, set_refcnt (u32 (b_refcnt b - 1)) b)
           (upd_buf (v_buf v bn) (set_sl (mksleep false 0)) s)) (view_release bn v).
Proof.
  intros Hs Hr Hclean. pose proof (bcabs_dlen1 _ _ _ Hs Hr).
  destruct (bcabs_find _ _ _ Hs Hr) as [Hc Hok].
  destruct (Hc) as (_ & _ & Eb). pose proof (bo_ref _ _ _ Hok) as Er. rewrite Eb in Er.
  rewrite upd_twice. eapply bcabs_memory; eauto.
  - view_off_solve.
  - destruct Hok. rewrite Eb in *.
    split; simpl; rewrite ?Eb, ?fn_lookup_insert, ?u32_small by lia; auto; try lia; try done.
    intros E. apply Hclean. lia.
  - simpl. rewrite u32_small, Er by (pose proof (bo_cnt _ _ _ Hok); lia).
    unfold is_zero at 2. rewrite (proj2 (Z.eqb_neq (b_refcnt _) 0)) by lia. lia.
Qed.

Lemma bio_brelse_ok c s v bn :
  bcabs s v → bio_clear c → 0 < v_ref v bn → v_lock v bn = Some (curpid c) →
  (v_ref v bn = 1 → v_data v bn = v_disk v bn) →
  ∃ c' s', bio_brelse (v_buf v bn) c s = Ret tt c' s' ∧ same_ctx c c' ∧ bcabs s' (view_release bn v).
Proof.
  intros Hs Hc Hr Hl Hclean. pose proof (holding_run _ _ _ _ Hs Hc Hr Hl) as Hh.
  pose proof (bcabs_release _ _ _ Hs Hr Hclean) as Hs'.
  destruct (bcabs_find _ _ _ Hs Hr) as [(Hi & _ & _) _]. destruct (Hc) as [Hb Hsl].
  unfold bio_brelse. kstep Hh. cbn [negb].
  pose proof (releasesleep_run (sl_lens (v_buf v bn)) (LK_bufsl (v_buf v bn)) (CH_bufsl (v_buf v bn)) c s (Hsl _)) as Hrs.
  fold (buf_releasesleep (v_buf v bn)) in Hrs. kstep Hrs. destruct c as [h w p]. simpl in Hb |- *. kexec.
  set (s1 := upd_buf _ _ _) in Hs' |- *.
  destruct (b_refcnt _ =? 0); kexec; (do 2 eexists; split; [done|]); split; [done| |done|done].
  destruct (bc_lru _ _ Hs') as [l Hlru]. pose proof (bc_len _ _ Hs') as Hlen.
  destruct (lru_front _ _ _ Hlen Hlru Hi) as (l1 & l2 & _ & Hlru').
  eapply bcabs_relink; eauto.
  - by rewrite length_link_front, length_unlink.
  - intros j. by rewrite strip_link_front, strip_unlink.
Qed.

(** *** bget and bread *)

(** The first scan finds the buffer of a cached block. *)
Lemma scan_cached s v bn i :
  bcabs s v → caches s bn i →
  scan b_next (λ b, (b_dev b =? ROOTDEV) && (b_blockno b =? bn)) (bufs s) NBUF
    (b_next (bufs s !!! HEAD)) = Some (Some i).
Proof.
  intros Hs Hc. destruct (bc_lru _ _ Hs) as [l Hl].
  rewrite (scan_find _ _ (bufs s) (nxf (bufs s)) (pvf (bufs s)) l HEAD); [|by destruct Hl|done| |].
  - f_equal. destruct (List.find _ l) as [j|] eqn:Ef.
    + apply find_some in Ef as [Hj [Ed Eb]%andb_prop]. f_equal.
      apply list_elem_of_In, (lru_elem _ _ _ Hl) in Hj. destruct Hc as (Hi & Hd & Hb).
      apply (bc_uniq _ _ Hs); auto; unfold bget_of in *; lia.
    + destruct Hc as (Hi & Hd & Hb).
      pose proof (find_none _ _ Ef i) as H. rewrite <- list_elem_of_In, (lru_elem _ _ _ Hl) in H.
      unfold bget_of in *. specialize (H Hi). rewrite Hd, Hb, !Z.eqb_refl in H. done.
  - pose proof (lru_NoDup _ _ Hl) as [? _]%NoDup_cons. done.
  - by rewrite (lru_length _ _ Hl).
Qed.

Lemma scan_uncached s v bn :
  bcabs s v → (∀ i, ¬ caches s bn i) →
  scan b_next (λ b, (b_dev b =? ROOTDEV) && (b_blockno b =? bn)) (bufs s) NBUF
    (b_next (bufs s !!! HEAD)) = Some None.
Proof.
  intros Hs Hn. destruct (bc_lru _ _ Hs) as [l Hl].
  rewrite (scan_find _ _ (bufs s) (nxf (bufs s)) (pvf (bufs s)) l HEAD); [|by destruct Hl|done| |].
  - f_equal. destruct (List.find _ l) as [j|] eqn:Ef; [|done].
    apply find_some in Ef as [Hj [Ed Eb]%andb_prop].
    apply list_elem_of_In, (lru_elem _ _ _ Hl) in Hj. destruct (Hn j). split_and!; [done|unfold bget_of; lia..].
  - pose proof (lru_NoDup _ _ Hl) as [? _]%NoDup_cons. done.
  - by rewrite (lru_length _ _ Hl).
Qed.

(** The second scan finds an unused buffer, if there is one. *)
Lemma scan_unused s v :
  bcabs s v →
  ∃ r, scan b_prev (λ b, b_refcnt b =? 0) (bufs s) NBUF (b_prev (bufs s !!! HEAD)) = Some r ∧
    match r with
    | Some i => (i < NBUF)%nat ∧ b_refcnt (bget_of s i) = 0
    | None => v_free v <= 0
    end.
Proof.
  intros Hs. destruct (bc_lru _ _ Hs) as [l Hl].
  rewrite (scan_find _ _ (bufs s) (pvf (bufs s)) (nxf (bufs s)) (reverse l) HEAD);
    [|destruct Hl; by apply dll_rev|done| |].
  - eexists. split; [done|]. destruct (List.find _ (reverse l)) as [j|] eqn:Ef.
    + apply find_some in Ef as [Hj Er]. apply list_elem_of_In in Hj.
      rewrite elem_of_reverse in Hj. apply (lru_elem _ _ _ Hl) in Hj.
      split; [done|]. unfold bget_of. lia.
    + rewrite (bc_free _ _ Hs). apply Z.nlt_ge. intros (i & Hi & Hr)%unused_pos.
      pose proof (find_none _ _ Ef i) as H.
      rewrite <- list_elem_of_In, elem_of_reverse, (lru_elem _ _ _ Hl) in H.
      rewrite Hr in H. by specialize (H Hi).
  - rewrite elem_of_reverse. pose proof (lru_NoDup _ _ Hl) as [? _]%NoDup_cons. done.
  - by rewrite length_reverse, (lru_length _ _ Hl).
Qed.
Lemma buf_acquiresleep_run c s i :
  bio_clear c → sl_locked (b_lock (bget_of s i)) = false →
  buf_acquiresleep i c s = Ret tt c (upd_buf i (set_sl (mksleep true (curpid c))) s).
Proof. intros [_ Hc] Hl. unfold buf_acquiresleep. by rewrite acquiresleep_run. Qed.

Lemma bget_of_upd i (f : buf → buf) s v :
  bcabs s v → (i < NBUF)%nat → bget_of (upd_buf i f s) i = f (bget_of s i).
Proof. intros Hs Hi. apply lk_alter_eq. rewrite (bc_len _ _ Hs). lia. Qed.

(** [bget] of a cached block takes a reference and the sleep lock. *)
Lemma bget_hit c s v bn i :
  bcabs s v → bio_clear c → caches s bn i → sl_locked (b_lock (bget_of s i)) = false →
  bget ROOTDEV bn c s =
    Ret i c (upd_buf i (λ b, set_sl (mksleep true (curpid c)) (set_refcnt (u32 (b_refcnt b + 1)) b)) s).
Proof.
  intros Hs Hc Hca Hl. destruct (Hc) as [Hb _]. destruct (Hca) as [Hi _].
  unfold bget. rewrite (kbind_ret _ _ _ _ _ _ _ (acquire_ret _ _ _ Hb)).
  erewrite (kbind_ret (kgets bufs)) by done.
  rewrite (scan_cached _ _ _ _ Hs Hca). erewrite (kbind_ret (kmod _)) by done.
  erewrite (kbind_ret (release _)) by (by apply release_head).
  erewrite kbind_ret; [|apply buf_acquiresleep_run; [by destruct c|]].
  - rewrite upd_twice. by destruct c.
  - by rewrite (bget_of_upd _ _ _ _ Hs Hi).
Qed.

(** [bget] of a block that is not cached recycles the unused buffer it finds. *)
Lemma bget_recycle c s v bn i :
  bcabs s v → bio_clear c → (∀ i, ¬ caches s bn i) →
  scan b_prev (λ b, b_refcnt b =? 0) (bufs s) NBUF (b_prev (bufs s !!! HEAD)) = Some (Some i) →
  (i < NBUF)%nat → b_refcnt (bget_of s i) = 0 →
  bget ROOTDEV bn c s =
    Ret i c (upd_buf i (λ b, set_sl (mksleep true (curpid c))
                               (set_refcnt 1 (set_valid false (set_block ROOTDEV bn b)))) s).
Proof.
  intros Hs Hc Hn Es Hi Hr. destruct (Hc) as [Hb _].
  unfold bget. rewrite (kbind_ret _ _ _ _ _ _ _ (acquire_ret _ _ _ Hb)).
  erewrite (kbind_ret (kgets bufs)) by done.
  rewrite (scan_uncached _ _ _ Hs Hn), Es. erewrite (kbind_ret (kmod _)) by done.
  erewrite (kbind_ret (release _)) by (by apply release_head).
  erewrite kbind_ret; [|apply buf_acquiresleep_run; [by destruct c|]].
  - rewrite upd_twice. by destruct c.
  - rewrite (bget_of_upd _ _ _ _ Hs Hi). simpl. by apply (bcabs_idle _ _ _ Hs).
Qed.

Lemma bget_miss c s v bn :
  bcabs s v → bio_clear c → (∀ i, ¬ caches s bn i) → 0 < v_free v →
  ∃ i, (i < NBUF)%nat ∧ b_refcnt (bget_of s i) = 0 ∧
  bget ROOTDEV bn c s =
    Ret i c (upd_buf i (λ b, set_sl (mksleep true (curpid c))
                               (set_refcnt 1 (set_valid false (set_block ROOTDEV bn b)))) s).
Proof.
  intros Hs Hc Hn Hf.
  destruct (scan_unused _ _ Hs) as ([i|] & Es & Hr); [|lia]. destruct Hr as [Hi Hr].
  exists i. split_and!; [done..|]. by eapply bget_recycle.
Qed.

(** Reading a locked buffer from the device. *)
Lemma ramdisk_read_run c s i :
  (i < length (bufs s))%nat → LK_bufsl i ∉ held c →
  b_lock (bget_of s i) = mksleep true (curpid c) →
  u32 (b_blockno (bget_of s i) * BSIZE) = b_blockno (bget_of s i) * BSIZE →
  (isize s <? b_blockno (bget_of s i) * BSIZE + BSIZE) = false →
  ramdisk_rw i false c s =
    Ret tt c (upd_buf i (λ b, set_valid true
      (set_data (mread (img s) (b_blockno (bget_of s i) * BSIZE) bsize) b)) s).
Proof.
  intros Hi Hc Hl Ea Ei. unfold ramdisk_rw, buf_holdingsleep.
  erewrite kbind_ret by (by apply holdingsleep_run). simpl. rewrite Hl. simpl.
  rewrite Z.eqb_refl. simpl. kexec. rewrite Ea, Ei. kexec. by rewrite upd_twice.
Qed.

Lemma bio_bread_hit c s v bn i :
  bcabs s v → bio_clear c → caches s bn i → v_lock v bn = None → v_ref v bn < 2 ^ 32 - 1 →
  ∃ s', bio_bread ROOTDEV bn c s = Ret i c s' ∧ bcabs s' (view_read (curpid c) bn i v).
Proof.
  intros Hs Hc Hca Hl Hr. destruct (Hca) as (Hi & Hd & Eb).
  pose proof (bc_buf _ _ Hs i Hi Hd) as Hok. pose proof (bo_lock _ _ _ Hok) as El.
  pose proof (bo_ref _ _ _ Hok) as Er. pose proof (bo_cnt _ _ _ Hok) as Hcnt.
  rewrite Eb in El, Er. unfold lockst in El.
  unfold bio_bread. erewrite kbind_ret by (eapply bget_hit; eauto; destruct (sl_locked _); congruence).
  kexec. rewrite (bget_of_upd _ _ _ _ Hs Hi). simpl. rewrite (bo_valid _ _ _ Hok).
  eexists. split; [done|]. eapply bcabs_memory; eauto.
  - view_off_solve.
  - destruct Hok. rewrite Eb in *.
    split; simpl; rewrite ?Eb, ?fn_lookup_insert, ?u32_small by lia; auto; lia.
  - apply (bc_dlen _ _ Hs). rewrite <- Eb. apply (bo_range _ _ _ Hok).
  - simpl. rewrite u32_small, Er by lia. unfold is_zero at 3.
    rewrite (proj2 (Z.eqb_neq (_ + 1) 0)) by lia. lia.
Qed.

Lemma bio_bread_miss c s v bn :
  bcabs s v → bio_clear c → (∀ i, ¬ caches s bn i) → 0 <= bn < v_size v → 0 < v_free v →
  ∃ i s', bio_bread ROOTDEV bn c s = Ret i c s' ∧ bcabs s' (view_read (curpid c) bn i v).
Proof.
  intros Hs Hc Hn Hbn Hf. destruct (bget_miss _ _ _ _ Hs Hc Hn Hf) as (i & Hi & Hr & Eg).
  destruct (bc_none _ _ Hs bn) as (Vr & Vl & Vd); [intros j ?? E; by destruct (Hn j)|].
  destruct (diskaddr_ok _ _ _ Hs Hbn) as [Ea Ei].
  exists i. unfold bio_bread. kstep Eg. kexec. rewrite (bget_of_upd _ _ _ _ Hs Hi). simpl.
  erewrite ramdisk_read_run; rewrite ?(bget_of_upd _ _ _ _ Hs Hi); simpl; try done.
  2:{ rewrite length_alter, (bc_len _ _ Hs). lia. }
  2:{ apply Hc. }
  kexec. rewrite !upd_twice. eexists. split; [done|].
  eapply bcabs_update; eauto; simpl.
  - intros j Hj _ Hd E. by destruct (Hn j).
  - view_off_solve.
  - split; simpl; rewrite ?fn_lookup_insert; auto; try lia.
    rewrite Vd. by apply (bc_disk _ _ Hs).
  - by apply (bc_dlen _ _ Hs).
  - rewrite Hr, Vr. unfold is_zero. simpl. lia.
  - apply (bc_disk _ _ Hs).
  - apply (bc_log _ _ Hs).
Qed.

Lemma bio_bread_ok c s v bn :
  bcabs s v → bio_clear c → 0 <= bn < v_size v → v_lock v bn = None →
  v_ref v bn < 2 ^ 32 - 1 → 0 < v_ref v bn ∨ 0 < v_free v →
  ∃ i s', bio_bread ROOTDEV bn c s = Ret i c s' ∧ bcabs s' (view_read (curpid c) bn i v) ∧
    (0 < v_ref v bn → i = v_buf v bn).
Proof.
  intros Hs Hc Hbn Hl Hr Hav. destruct (cached_dec s bn) as [(i & Hi)|Hn].
  - destruct (bio_bread_hit _ _ _ _ _ Hs Hc Hi Hl Hr) as (s' & E & Hs'). exists i, s'.
    split_and!; [done..|]. intros Hp. destruct (bcabs_find _ _ _ Hs Hp) as [(Hj & Hjd & Hjb) _].
    destruct Hi as (? & ? & ?). apply (bc_uniq _ _ Hs); congruence.
  - destruct (bc_none _ _ Hs bn Hn) as (Vr & _ & _).
    destruct (bio_bread_miss c s v bn) as (i & s' & E & Hs'); [done..| |done|lia|].
    { intros i (? & ? & ?). by eapply Hn. }
    exists i, s'. split_and!; [done..|]. lia.
Qed.

Lemma bio_bread_full c s v bn :
  bcabs s v → bio_clear c → v_ref v bn = 0 → v_free v = 0 →
  bio_bread ROOTDEV bn c s = Panic "bget: no buffers".
Proof.
  intros Hs [Hb _] Hr Hf. rewrite (bc_free _ _ Hs) in Hf.
  assert (Hall : ∀ i, (i < NBUF)%nat → b_refcnt (bget_of s i) ≠ 0).
  { intros i Hi E. assert (0 < unused (bufs s)) by (apply unused_pos; eauto). lia. }
  destruct (scan_unused _ _ Hs) as ([i|] & Es & Hu); [by destruct (Hall i); apply Hu|].
  unfold bio_bread. apply kbind_panic. unfold bget.
  rewrite (kbind_ret _ _ _ _ _ _ _ (acquire_ret _ _ _ Hb)).
  erewrite (kbind_ret (kgets bufs)) by done. rewrite (scan_uncached _ _ _ Hs), Es; [done|].
  intros i (Hi & Hd & Eb). apply (Hall i Hi).
  rewrite <- (bo_ref _ _ _ (bc_buf _ _ Hs i Hi Hd)). by rewrite Eb.
Qed.
(** *** Boot *)

Lemma nxf_set_sl l i j bs : nxf (alter (set_sl l) i bs) j = nxf bs j.
Proof.
  unfold nxf. rewrite list_lookup_total_alter. case_decide as E; [|done]. by destruct E as [-> _].
Qed.

Lemma pvf_set_sl l i j bs : pvf (alter (set_sl l) i bs) j = pvf bs j.
Proof.
  unfold pvf. rewrite list_lookup_total_alter. case_decide as E; [|done]. by destruct E as [-> _].
Qed.

Lemma ring_ext bs bs' l :
  ring bs l → (∀ j, nxf bs' j = nxf bs j) → (∀ j, pvf bs' j = pvf bs j) → ring bs' l.
Proof. intros (Hp & Hb & Hd) En Ep. split_and!; [done..|]. eapply dll_ext; eauto. Qed.

(** A buffer as the boot loader left it, whatever its links. *)
Definition blank (b : buf) : Prop := strip b = strip zero_buf.

Lemma blank_step i j bs :
  length bs = S NBUF → (∀ j, (j < S NBUF)%nat → blank (bs !!! j)) → (j < S NBUF)%nat →
  blank (link_front i (alter (set_sl initsleeplock) i bs) !!! j).
Proof.
  intros Hlen Hb Hj. unfold blank. rewrite strip_link_front.
  destruct (decide (j = i)) as [->|Hne]; [|rewrite lk_alter_ne by done; by apply Hb].
  rewrite lk_alter_eq by lia. specialize (Hb i Hj). destruct (bs !!! i).
  unfold blank, strip, set_prev, set_next in Hb. simpl in Hb. injection Hb as -> -> -> -> -> ->. done.
Qed.

(** The loop of [binit] puts buffers [i], [i+1], ... in front of those already linked. *)
Lemma binit_loop_run n i c s :
  length (bufs s) = S NBUF → (i + n = NBUF)%nat → ring (bufs s) (reverse (seq 0 i)) →
  (∀ j, (j < S NBUF)%nat → blank (bufs s !!! j)) →
  ∃ bs, binit_loop n i c s = Ret tt c (set_bufs bs s) ∧ length bs = S NBUF ∧
    ring bs (reverse (seq 0 NBUF)) ∧ ∀ j, (j < S NBUF)%nat → blank (bs !!! j).
Proof.
  revert i s. induction n as [|n IH]; intros i s Hlen Hin Hr Hb; cbn [binit_loop].
  - rewrite Nat.add_0_r in Hin. subst i. exists (bufs s). split_and!; auto. by destruct s.
  - kexec. set (bs := alter (set_sl initsleeplock) i (bufs s)).
    destruct (IH (S i) (set_bufs (link_front i bs) s)) as (bs' & E & H1 & H2 & H3).
    + simpl. rewrite length_link_front. unfold bs. by rewrite length_alter.
    + lia.
    + rewrite seq_S, reverse_app. simpl. apply ring_push.
      * unfold bs. by rewrite length_alter.
      * eapply ring_ext; [exact Hr|..]; intros; [apply nxf_set_sl|apply pvf_set_sl].
      * lia.
      * rewrite elem_of_reverse, elem_of_seq. lia.
    + intros j Hj. by apply blank_step.
    + exists bs'. split_and!; auto.
Qed.

(** [binit] on zeroed memory links every buffer once, the last one first. *)
Lemma binit_run c s :
  length (bufs s) = S NBUF → (∀ j, (j < S NBUF)%nat → blank (bufs s !!! j)) →
  ∃ bs, bio_binit c s = Ret tt c (set_bufs bs s) ∧ length bs = S NBUF ∧
    lru bs (reverse (seq 0 NBUF)) ∧ ∀ j, (j < S NBUF)%nat → blank (bs !!! j).
Proof.
  intros Hlen Hb. unfold bio_binit. kexec.
  set (s1 := upd_buf HEAD (set_next HEAD) (upd_buf HEAD (set_prev HEAD) s)).
  assert (HH : (HEAD < length (bufs s))%nat) by (unfold HEAD; lia).
  destruct (binit_loop_run NBUF 0 c s1) as (bs & E & H1 & H2 & H3).
  - simpl. by rewrite !length_alter.
  - done.
  - split_and!; [apply NoDup_singleton|by intros j ?%elem_of_nil|]. split.
    + unfold nxf. simpl bufs. rewrite lk_alter_eq; [done|]. by rewrite length_alter.
    + unfold pvf. simpl bufs. rewrite alter_twice. by rewrite lk_alter_eq.
  - intros j Hj. simpl. unfold blank. rewrite !strip_alter by done. by apply Hb.
  - exists bs. split_and!; auto. split; [apply reverse_Permutation|apply H2].
Qed.

Lemma replay_blocks ws m d size :
  Forall (λ w, 0 <= w.1 < size ∧ length w.2 = bsize) ws →
  (∀ b, 0 <= b < size → d b = mread m (b * BSIZE) bsize) →
  ∀ b, 0 <= b < size → apply_writes ws d b = mread (replay ws m) (b * BSIZE) bsize.
Proof.
  intros Hws. revert m d. induction Hws as [|[bn blk] ws [Hbn Hl] Hws IH]; intros m d Hd; simpl; [done|].
  simpl in Hbn, Hl. apply IH. intros b Hb. destruct (decide (b = bn)) as [->|Hne].
  - rewrite fn_lookup_insert, <- Hl. by rewrite mread_mwrite_eq.
  - rewrite fn_lookup_insert_ne, mread_blocks_ne by done. by apply Hd.
Qed.

Lemma unused_blank bs : (∀ j, (j < S NBUF)%nat → blank (bs !!! j)) → unused bs = Z.of_nat NBUF.
Proof.
  intros Hb. unfold unused. rewrite (zsum_ext _ (λ _, 1)); [done|].
  intros i Hi%elem_of_seq. specialize (Hb i ltac:(lia)). cbv beta.
  change (b_refcnt (bs !!! i)) with (b_refcnt (strip (bs !!! i))). by rewrite Hb.
Qed.

(** The view after a boot from zeroed memory. *)
Lemma binit_bcabs c s size d :
  length (bufs s) = S NBUF → (∀ j, (j < S NBUF)%nat → blank (bufs s !!! j)) → wlog s = [] →
  isize s = size * BSIZE → 0 <= size <= 2 ^ 22 →
  (∀ b, 0 <= b < size → d b = mread (img s) (b * BSIZE) bsize) →
  ∃ s', bio_binit c s = Ret tt c s' ∧ bcabs s' (view_boot size d (λ _, 0%nat)).
Proof.
  intros Hlen0 Hb0 Hw Hi Hsz Hd. destruct (binit_run c s Hlen0 Hb0) as (bs & E & Hlen & Hl & Hb).
  eexists. split; [exact E|]. clear E. set (s' := set_bufs bs s).
  assert (Hidle : ∀ i, (i < NBUF)%nat → b_dev (bget_of s' i) = 0 ∧
    b_refcnt (bget_of s' i) = 0 ∧ sl_locked (b_lock (bget_of s' i)) = false).
  { intros i Hi'. specialize (Hb i ltac:(lia)).
    change (b_dev (strip (bs !!! i)) = 0 ∧ b_refcnt (strip (bs !!! i)) = 0 ∧
            sl_locked (b_lock (strip (bs !!! i))) = false).
    rewrite Hb. split_and!; reflexivity. }
  assert (Hno : ∀ i, (i < NBUF)%nat → b_dev (bget_of s' i) ≠ ROOTDEV).
  { intros i Hi'. destruct (Hidle i Hi') as [-> _]. unfold ROOTDEV. lia. }
  split; cbn [view_boot v_size v_disk v_data v_ref v_lock v_free v_log].
  - exact Hlen.
  - eexists. exact Hl.
  - split; assumption.
  - exact Hd.
  - intros i Hi' H. by destruct (Hno i Hi').
  - intros i j Hi' _ H. by destruct (Hno i Hi').
  - intros i Hi' _. by apply Hidle.
  - intros. split_and!; reflexivity.
  - symmetry. by apply unused_blank.
  - intros bn Hbn. rewrite Hd by exact Hbn. apply length_mread.
  - exact Hw.
Qed.

Lemma bio_power_cycle_ok c s v ws :
  bcabs s v → Forall (λ w, 0 <= w.1 < v_size v ∧ length w.2 = bsize) ws →
  ∃ s' buf, bio_binit c (bio_power_cycle ws s) = Ret tt c s' ∧
    bcabs s' (view_boot (v_size v) (apply_writes ws (v_disk v)) buf).
Proof.
  intros Hs Hws. pose proof (replay_blocks _ _ _ _ Hws (bc_disk _ _ Hs)) as Hd.
  destruct (bc_size _ _ Hs) as [Hi Hsz].
  destruct (binit_bcabs c (bio_power_cycle ws s) (v_size v) (apply_writes ws (v_disk v))) as (s' & E & Hs');
    [..|by eauto]; cbn [bio_power_cycle bufs wlog isize].
  - apply length_replicate.
  - intros j Hj. unfold blank. by rewrite lookup_total_replicate_2.
  - done.
  - exact Hi.
  - exact Hsz.
  - exact Hd.
Qed.

Lemma bio_data s v bn :
  bcabs s v → 0 < v_ref v bn →
  b_data_of s (v_buf v bn) = v_data v bn ∧ b_blockno_of s (v_buf v bn) = bn.
Proof.
  intros Hs Hr. destruct (bcabs_find _ _ _ Hs Hr) as [(_ & _ & Eb) [_ _ _ _ _ Hd _ _ _]].
  by rewrite Eb in Hd.
Qed.
End refine.

(** bio.c implements the interface. *)
#[global] Instance bio_cache : BlockCache bdev := {
  cabs := bcabs;
  cabs_data := bio_data;
  cabs_len := λ s v bn H, bc_dlen s v H bn;
  bread_ok := bio_bread_ok;
  bread_full := bio_bread_full;
  b_store_ok := bio_store_ok;
  bwrite_ok := bio_bwrite_ok;
  brelse_ok := bio_brelse_ok;
  bpin_ok := bio_bpin_ok;
  bunpin_ok := bio_bunpin_ok;
  power_cycle_ok := bio_power_cycle_ok
}.

(** ** Properties *)

(** A process updates a block: [b = bread(dev, bn); memmove(b->data, d, BSIZE); bwrite(b); brelse(b)],
    the way write_head and write_log do. *)
Definition write_block (bn : Z) (d : block) : M bdev unit :=
  do i <- bio_bread ROOTDEV bn;
  kmod (upd_buf i (set_data d)) ;;;
  bio_bwrite i ;;;
  bio_brelse i.

Lemma write_block_run c s v bn d :
  bcabs s v → bio_clear c → 0 <= bn < v_size v → v_ref v bn = 0 → v_lock v bn = None →
  0 < v_free v → length d = bsize →
  ∃ c' s' v', write_block bn d c s = Ret tt c' s' ∧ same_ctx c c' ∧ bcabs s' v' ∧
    v_size v' = v_size v ∧ v_disk v' = <[bn:=d]> (v_disk v) ∧ v_data v' = <[bn:=d]> (v_data v) ∧
    v_ref v' bn = 0 ∧ v_lock v' bn = None ∧ v_free v' = v_free v ∧ v_log v' = v_log v ++ [(bn, d)].
Proof.
  intros Hs Hc Hbn Hr Hl Hf Hd. unfold write_block.
  destruct (bio_bread_ok c s v bn) as (i & s1 & E1 & Hs1 & _); [done..|lia|by right|]. kstep E1.
  set (v1 := view_read _ _ _ _) in Hs1.
  assert (Hi : v_buf v1 bn = i) by (simpl; by rewrite fn_lookup_insert).
  assert (Hr1 : v_ref v1 bn = 1) by (simpl; rewrite fn_lookup_insert; lia).
  erewrite (kbind_ret (kmod _)) by done.
  pose proof (bio_store_ok s1 v1 bn d Hs1 ltac:(lia) Hd) as Hs2. rewrite Hi in Hs2.
  set (v2 := view_store _ _ _) in Hs2.
  assert (Hl2 : v_lock v2 bn = Some (curpid c)) by (simpl; by rewrite fn_lookup_insert).
  destruct (bio_bwrite_ok c _ v2 bn Hs2 Hc) as (s3 & E3 & Hs3); [simpl in *; lia|done|].
  change (v_buf v2 bn) with (v_buf v1 bn) in E3. rewrite Hi in E3. kstep E3.
  set (v3 := view_write _ _) in Hs3.
  destruct (bio_brelse_ok c _ v3 bn Hs3 Hc) as (c' & s4 & E4 & Hc' & Hs4); [simpl in *; lia|done| |].
  { intros _. simpl. by rewrite !fn_lookup_insert. }
  change (v_buf v3 bn) with (v_buf v1 bn) in E4. rewrite Hi in E4.
  do 3 eexists. split; [exact E4|]. split; [done|]. split; [exact Hs4|]. simpl.
  rewrite !fn_lookup_insert, Hr. split_and!; try done. unfold is_zero. simpl. lia.
Qed.

(** Write, then read.  A process that updates a block through the cache succeeds whenever an
    unused buffer exists; the device then holds the new contents and no other block changed; and any
    process that reads the block afterwards gets a buffer, locked for itself, of that block with
    exactly those contents. *)
Theorem bio_write_read c c2 s v bn d :
  bcabs s v → bio_clear c → bio_clear c2 → 0 <= bn < v_size v →
  v_ref v bn = 0 → v_lock v bn = None → 0 < v_free v → length d = bsize →
  ∃ c' s' i s2, write_block bn d c s = Ret tt c' s' ∧
    mread (img s') (bn * BSIZE) bsize = d ∧
    (∀ b, 0 <= b < v_size v → b ≠ bn →
      mread (img s') (b * BSIZE) bsize = mread (img s) (b * BSIZE) bsize) ∧
    bio_bread ROOTDEV bn c2 s' = Ret i c2 s2 ∧
    b_data (bget_of s2 i) = d ∧ b_blockno (bget_of s2 i) = bn ∧
    b_lock (bget_of s2 i) = mksleep true (curpid c2) ∧ b_refcnt (bget_of s2 i) = 1.
Proof.
  intros Hs Hc Hc2 Hbn Hr Hl Hf Hd.
  destruct (write_block_run c s v bn d) as (c' & s' & v' & E & _ & Hs' & Ez & Ed & Ea & Er & El & Ef & _);
    [done..|].
  destruct (bio_bread_ok c2 s' v' bn) as (i & s2 & E2 & Hs2 & _); [done|done|lia|done|lia|lia|].
  set (v2 := view_read _ _ _ _) in Hs2.
  assert (Hi : v_buf v2 bn = i) by (simpl; by rewrite fn_lookup_insert).
  assert (Hr2 : v_ref v2 bn = 1) by (simpl; rewrite fn_lookup_insert; lia).
  destruct (bcabs_find s2 v2 bn Hs2) as [(Hi' & _ & Eb) [_ _ Xr Xl _ Xd _ _ _]]; [lia|].
  rewrite Hi, Eb in *. exists c', s', i, s2.
  split; [done|]. split; [rewrite <- (bc_disk _ _ Hs') by lia; by rewrite Ed, fn_lookup_insert|].
  split. { intros b Hb Hne. rewrite <- (bc_disk _ _ Hs'), <- (bc_disk _ _ Hs) by lia.
    by rewrite Ed, fn_lookup_insert_ne. }
  split; [done|]. split; [rewrite <- Xd; simpl; by rewrite Ea, fn_lookup_insert|].
  split; [done|]. split; [|lia].
  simpl in Xl. rewrite fn_lookup_insert in Xl. unfold lockst in Xl.
  destruct (b_lock _) as [[] ?]; simpl in Xl; congruence.
Qed.

(** A device of 8 zeroed blocks with zeroed cache memory, after [binit]. *)
Definition demo_dev : bdev := mkbdev (replicate (S NBUF) zero_buf) (λ _, 0) (8 * BSIZE) [].

Lemma demo_blank j : (j < S NBUF)%nat → blank (bufs demo_dev !!! j).
Proof.
  intros Hj. unfold blank, demo_dev. cbn [bufs]. by rewrite lookup_total_replicate_2.
Qed.

Lemma demo_boot : ∃ s, bio_binit (mkctx [] [] 1) demo_dev = Ret tt (mkctx [] [] 1) s ∧
  bcabs s (view_boot 8 (λ b, mread (λ _, 0) (b * BSIZE) bsize) (λ _, 0%nat)).
Proof.
  apply binit_bcabs; unfold demo_dev; cbn [bufs wlog isize img].
  - apply length_replicate.
  - apply demo_blank.
  - done.
  - done.
  - lia.
  - done.
Qed.

Lemma demo_boot_lru : ∃ s, bio_binit (mkctx [] [] 1) demo_dev = Ret tt (mkctx [] [] 1) s ∧
  lru (bufs s) (reverse (seq 0 NBUF)) ∧ ∀ j, (j < S NBUF)%nat → blank (bget_of s j).
Proof.
  destruct (binit_run (mkctx [] [] 1) demo_dev) as (bs & E & _ & Hl & Hb).
  - apply length_replicate.
  - apply demo_blank.
  - eauto.
Qed.

Lemma clear_nil w p : bio_clear (mkctx [] w p).
Proof. split; simpl; [|intros i]; apply not_elem_of_nil. Qed.

Lemma bio_write_read_witness :
  ∃ s c' s' i s2, bio_binit (mkctx [] [] 1) demo_dev = Ret tt (mkctx [] [] 1) s ∧
    write_block 3 (replicate bsize 7) (mkctx [] [] 1) s = Ret tt c' s' ∧
    bio_bread ROOTDEV 3 (mkctx [] [] 2) s' = Ret i (mkctx [] [] 2) s2 ∧
    b_data (bget_of s2 i) = replicate bsize 7.
Proof.
  destruct demo_boot as (s & E & Hs).
  destruct (bio_write_read (mkctx [] [] 1) (mkctx [] [] 2) s _ 3 (replicate bsize 7) Hs)
    as (c' & s' & i & s2 & E1 & _ & _ & E2 & Ed & _).
  - apply clear_nil.
  - apply clear_nil.
  - simpl. lia.
  - reflexivity.
  - reflexivity.
  - reflexivity.
  - apply length_replicate.
  - exists s, c', s', i, s2. split_and!; [exact E|exact E1|exact E2|exact Ed].
Defined.

Lemma find_skip {A} (p : A → bool) l x l' :
  Forall (λ y, p y = false) l → p x = true → List.find p (l ++ x :: l') = Some x.
Proof. intros Hl Hx. induction Hl as [|y l Hy Hl IH]; simpl; [by rewrite Hx|by rewrite Hy]. Qed.

(** Replacement policy, recycling.  When a block that is not cached is requested, [bget] takes
    the unreferenced buffer closest to the end of the recency list (the one released longest ago),
    makes it a locked, not yet valid buffer of the block with one reference, and leaves the list
    and every other buffer as they were. *)
Theorem bget_recycles_lru c s v bn l1 i l2 :
  bcabs s v → bio_clear c → lru (bufs s) (l1 ++ i :: l2) → (∀ j, ¬ caches s bn j) →
  b_refcnt (bget_of s i) = 0 → Forall (λ j, b_refcnt (bget_of s j) ≠ 0) l2 →
  ∃ s', bget ROOTDEV bn c s = Ret i c s' ∧ lru (bufs s') (l1 ++ i :: l2) ∧
    caches s' bn i ∧ b_valid (bget_of s' i) = false ∧ b_refcnt (bget_of s' i) = 1 ∧
    b_lock (bget_of s' i) = mksleep true (curpid c) ∧
    (∀ j, j ≠ i → bget_of s' j = bget_of s j).
Proof.
  intros Hs Hc Hl Hn Hr Hl2.
  pose proof (proj1 (lru_elem _ _ i Hl) ltac:(set_solver)) as Hi.
  eexists. split.
  { eapply bget_recycle; eauto.
    rewrite (scan_find _ _ (bufs s) (pvf (bufs s)) (nxf (bufs s)) (reverse (l1 ++ i :: l2)) HEAD).
    - f_equal. rewrite reverse_app, reverse_cons, <- app_assoc. apply find_skip.
      + apply Forall_reverse. eapply Forall_impl; [exact Hl2|]. intros j. apply Z.eqb_neq.
      + by apply Z.eqb_eq.
    - destruct Hl. by apply dll_rev.
    - done.
    - rewrite elem_of_reverse. by pose proof (lru_NoDup _ _ Hl) as [? _]%NoDup_cons.
    - by rewrite length_reverse, (lru_length _ _ Hl). }
  unfold caches. rewrite !(bget_of_upd _ _ _ _ Hs Hi). pose proof (bc_len _ _ Hs).
  split_and!; try done.
  - apply lru_alter; [done|lia|done].
  - intros j Hj. by apply lk_alter_ne.
Qed.

Lemma bget_recycles_lru_witness :
  ∃ s s', bio_binit (mkctx [] [] 1) demo_dev = Ret tt (mkctx [] [] 1) s ∧
    bget ROOTDEV 3 (mkctx [] [] 1) s = Ret 0%nat (mkctx [] [] 1) s' ∧ caches s' 3 0.
Proof.
  destruct demo_boot as (s & E & Hs). destruct demo_boot_lru as (s0 & E0 & Hl & Hb).
  assert (s0 = s) as -> by congruence. clear E0.
  assert (E0 : reverse (seq 0 NBUF) = reverse (seq 1 29) ++ 0%nat :: []) by reflexivity.
  rewrite E0 in Hl.
  destruct (bget_recycles_lru (mkctx [] [] 1) s _ 3 _ _ _ Hs (clear_nil _ _) Hl)
    as (s' & E1 & _ & Hc & _).
  - intros j (Hj & Hd & _). specialize (Hb j ltac:(lia)).
    change (b_dev (strip (bget_of s j)) = ROOTDEV) in Hd. by rewrite Hb in Hd.
  - specialize (Hb 0%nat ltac:(lia)).
    change (b_refcnt (strip (bget_of s 0)) = 0). by rewrite Hb.
  - constructor.
  - exists s, s'. split; [exact E|]. split; [exact E1|exact Hc].
Defined.

(** Replacement policy, release.  When the holder of a locked buffer calls [brelse] on the last
    reference, the buffer becomes the first of the recency list and the others keep their order. *)
Theorem brelse_most_recent c s v bn l :
  bcabs s v → bio_clear c → v_ref v bn = 1 → v_lock v bn = Some (curpid c) → lru (bufs s) l →
  ∃ c' s' l1 l2, bio_brelse (v_buf v bn) c s = Ret tt c' s' ∧
    l = l1 ++ v_buf v bn :: l2 ∧ lru (bufs s') (v_buf v bn :: l1 ++ l2) ∧
    b_refcnt (bget_of s' (v_buf v bn)) = 0 ∧ b_lock (bget_of s' (v_buf v bn)) = mksleep false 0.
Proof.
  intros Hs Hc Hr Hl Hlru. pose proof (holding_run c s v bn Hs Hc ltac:(lia) Hl) as Hh.
  destruct (bcabs_find s v bn) as [(Hi & _ & Eb) Hok]; [done|lia|]. destruct (Hc) as [Hb Hsl].
  pose proof (bo_ref _ _ _ Hok) as Er. rewrite Eb, Hr in Er. pose proof (bc_len _ _ Hs) as Hlen.
  set (i := v_buf v bn) in *.
  pose proof (releasesleep_run (sl_lens i) (LK_bufsl i) (CH_bufsl i) c s (Hsl _)) as Hrs.
  fold (buf_releasesleep i) in Hrs. unfold bio_brelse. kstep Hh. cbn [negb]. kstep Hrs.
  destruct c as [h w p]. simpl in Hb |- *. kexec.
  rewrite upd_twice, (bget_of_upd _ _ _ _ Hs Hi). simpl. rewrite <- Er. simpl. kexec.
  set (f := λ b, set_refcnt _ (set_sl _ b)).
  pose proof (lru_alter f i (bufs s) l ltac:(done) ltac:(lia) Hlru) as Hlru1.
  destruct (lru_front i (alter f i (bufs s)) l) as (l1 & l2 & -> & Hlru2); [by rewrite length_alter|done..|].
  do 4 eexists. split; [done|]. split; [done|]. split; [exact Hlru2|].
  assert (E : strip (link_front i (unlink i (alter f i (bufs s))) !!! i) = strip (f (bget_of s i))).
  { rewrite strip_link_front, strip_unlink, lk_alter_eq by lia. done. }
  unfold bget_of. simpl bufs. set (b := _ !!! i) in E |- *.
  change (b_refcnt (strip b) = 0 ∧ b_lock (strip b) = mksleep false 0).
  rewrite E. simpl. by rewrite <- Er.
Qed.

Lemma brelse_most_recent_witness :
  ∃ s i s1 c' s2 l, bio_binit (mkctx [] [] 1) demo_dev = Ret tt (mkctx [] [] 1) s ∧
    bio_bread ROOTDEV 3 (mkctx [] [] 1) s = Ret i (mkctx [] [] 1) s1 ∧
    bio_brelse i (mkctx [] [] 1) s1 = Ret tt c' s2 ∧ lru (bufs s2) (i :: l).
Proof.
  destruct demo_boot as (s & E & Hs).
  destruct (bio_bread_ok (mkctx [] [] 1) s _ 3 Hs (clear_nil _ _)) as (i & s1 & E1 & Hs1 & _).
  - simpl. lia.
  - reflexivity.
  - reflexivity.
  - right. reflexivity.
  - destruct (bc_lru _ _ Hs1) as [l Hl].
    destruct (brelse_most_recent (mkctx [] [] 1) s1 _ 3 l Hs1 (clear_nil _ _))
      as (c' & s2 & l1 & l2 & E2 & _ & Hl2 & _); [reflexivity|reflexivity|exact Hl|].
    exists s, i, s1, c', s2, (l1 ++ l2).
    split; [exact E|]. split; [exact E1|]. split; [exact E2|exact Hl2].
Defined.
