(* ===== verification/Sd.v ===== *)
(** * The SD card driver (k230_sd.c)

    The driver talks to an SDHCI host controller through memory-mapped registers.  [SdBus] is that
    controller as the CPU sees it: a state, and what a read or a write of [w] bytes at a register
    offset does to it.  The driver is translated for any [SdBus].

    The second part is what an SDHCI controller promises for the transfer of single sectors, as an
    automaton: a command is sent, its completion, the buffer-ready and the transfer-complete flags
    appear after some time, and the data port delivers or takes the words of a sector.  [SdHost] says
    that a device is such an automaton, either without faults and fast enough, or with any delays and
    with errors at any time; [SplitStores] is what the driver's one misaligned store needs of the platform.  Under both [sd_disk_rw] reads and writes the blocks of a disk, or panics
    when the device reported an error or was too slow; the first kind of device never makes it panic.

    The text printed by the driver is left out. *)

From stdpp Require Import base list functions sets relations numbers strings.
From Stdlib Require Import ZArith Lia.
From S2P Require Import Prelude Machine BlockCache.

(** ** Bounded loops

    [kloop p body x] runs [body] until it returns [inr], at most [p] times.  The bounds of this driver
    are counted in millions, so [p] is a binary number. *)
Fixpoint kloop {S X A} (p : positive) (body : X → M S (X + A)) (x : X) : M S (X + A) :=
  match p with
  | xH => body x
  | xO q =>
      do r <- kloop q body x;
      match r with inl y => kloop q body y | inr a => kret (inr a) end
  | xI q =>
      do r <- body x;
      match r with
      | inl y =>
          do r' <- kloop q body y;
          match r' with inl z => kloop q body z | inr a => kret (inr a) end
      | inr a => kret (inr a)
      end
  end.

(** ** Registers and constants (k230_sd.h) *)

Definition SD_BLOCKSIZE_R : Z := 0x04.
Definition SD_BLOCKCOUNT_R : Z := 0x06.
Definition SD_ARGUMENT_R : Z := 0x08.
Definition SD_XFER_MODE_R : Z := 0x0C.
Definition SD_BUF_DATA_R : Z := 0x20.
Definition SD_CMD_R : Z := 0x0E.
Definition SD_RESP01_R : Z := 0x10.
Definition SD_PSTATE_REG : Z := 0x24.
Definition SD_HOST_CTRL1_R : Z := 0x28.
Definition SD_CLK_CTRL_R : Z := 0x2C.
Definition SD_TOUT_CTRL_R : Z := 0x2E.
Definition SD_SW_RST_R : Z := 0x2F.
Definition SD_NORMAL_INT_STAT_R : Z := 0x30.
Definition SD_ERROR_INT_STAT_R : Z := 0x32.
Definition SD_NORMAL_INT_STAT_EN_R : Z := 0x34.
Definition SD_NORMAL_INT_SIG_EN_R : Z := 0x38.

Definition RESP_NONE : Z := 0x00.
Definition RESP_136 : Z := 0x01.
Definition RESP_48 : Z := 0x02.
Definition RESP_48_BUSY : Z := 0x03.
Definition RESP_R3 : Z := 0x04.

Definition CMD_CRC_CHECK : Z := 0x08.
Definition CMD_IDX_CHECK : Z := 0x10.
Definition CMD_DATA_PRESENT : Z := 0x20.

Definition CMD0 : Z := 0.
Definition CMD2 : Z := 2.
Definition CMD3 : Z := 3.
Definition CMD7 : Z := 7.
Definition CMD8 : Z := 8.
Definition CMD17 : Z := 17.
Definition CMD24 : Z := 24.
Definition CMD55 : Z := 55.
Definition ACMD41 : Z := 41.
Definition ACMD6 : Z := 6.

Definition INT_CMD_COMPLETE : Z := 0x01.
Definition INT_XFER_COMPLETE : Z := 0x02.
Definition INT_BUF_WRITE_RDY : Z := 0x10.
Definition INT_BUF_READ_RDY : Z := 0x20.
Definition INT_ERR : Z := 0x8000.

(** ** The bus and the state of the driver *)

Class SdBus (D : Type) := {
  bus_read : nat → Z → D → Z * D;
  bus_write : nat → Z → Z → D → D
}.

Record sdsys (D : Type) := mksd {
  sd_dev : D;
  fat32_offset_sector : Z;
  sd_rca : Z;
  mount_buf : list Z            (* the static array of sd_mount_partition *)
}.
Arguments mksd {_}. Arguments sd_dev {_}. Arguments fat32_offset_sector {_}. Arguments sd_rca {_}. Arguments mount_buf {_}.

Section driver.
Context {D : Type} `{SdBus D}.
Local Abbreviation K := (M (sdsys D)).

Definition set_dev (d : D) (s : sdsys D) : sdsys D :=
  mksd d (fat32_offset_sector s) (sd_rca s) (mount_buf s).
Definition set_offset (o : Z) (s : sdsys D) : sdsys D := mksd (sd_dev s) o (sd_rca s) (mount_buf s).
Definition set_rca (r : Z) (s : sdsys D) : sdsys D :=
  mksd (sd_dev s) (fat32_offset_sector s) r (mount_buf s).
Definition set_mount_buf (b : list Z) (s : sdsys D) : sdsys D :=
  mksd (sd_dev s) (fat32_offset_sector s) (sd_rca s) b.

(** Register accesses of [w] bytes. *)
Definition sd_read (w : nat) (off : Z) : K Z := λ c s,
  let '(x, d) := bus_read w off (sd_dev s) in Ret (x mod 2 ^ (8 * Z.of_nat w)) c (set_dev d s).
Definition sd_write (w : nat) (off x : Z) : K unit :=
  kmod (λ s, set_dev (bus_write w off (x mod 2 ^ (8 * Z.of_nat w)) (sd_dev s)) s).

Definition SD_READ_REG32 := sd_read 4.
Definition SD_READ_REG16 := sd_read 2.
Definition SD_READ_REG8 := sd_read 1.
Definition SD_WRITE_REG32 := sd_write 4.
Definition SD_WRITE_REG16 := sd_write 2.
Definition SD_WRITE_REG8 := sd_write 1.

(** [delay]: the loop counts [i] down to 0. *)
Definition delay (count : Z) : K unit :=
  do r <- kloop (Z.to_pos (count * 500 + 1)) (λ i : Z, kret (if 0 <? i then inl (i - 1) else inr tt)) (s32 (count * 500));
  match r with inl _ => nofuel | inr _ => kret tt end.

(** A loop [while (cond);] on a device register, for 2^32 reads. *)
Definition spin_while (cond : K bool) : K unit :=
  do r <- kloop (2 ^ 32) (λ _ : unit, do b <- cond; kret (if b : bool then inl tt else inr tt)) tt;
  match r with inl _ => nofuel | inr _ => kret tt end.

(** ** Commands *)

(** One iteration of the wait for an idle controller; [inr false] is [return -1]. *)
Definition idle_body (time_out : Z) : K (Z + bool) :=
  do p <- SD_READ_REG32 SD_PSTATE_REG;
  if negb (has p 0x1) then kret (inr true)
  else if time_out =? 0 then
    SD_WRITE_REG8 SD_SW_RST_R 0x2 ;;;
    delay 1000 ;;;
    do p <- SD_READ_REG32 SD_PSTATE_REG;
    if has p 0x1 then kret (inr false) else kret (inl (u32 (time_out - 1)))
  else kret (inl (u32 (time_out - 1))).

(** The command register. *)
Definition cmd_reg (cmd_idx resp_type : Z) : Z :=
  let r := Z.shiftl cmd_idx 8 in
  let r := if resp_type =? RESP_136 then Z.lor r 0x1
           else if resp_type =? RESP_48 then Z.lor r 0x2
           else if resp_type =? RESP_48_BUSY then Z.lor r 0x3
           else if resp_type =? RESP_R3 then Z.lor r 0x2 else r in
  let r := if negb (resp_type =? RESP_NONE) && negb (resp_type =? RESP_R3) then Z.lor r CMD_CRC_CHECK else r in
  let r := if negb (resp_type =? RESP_NONE) && negb (resp_type =? RESP_R3) && negb (resp_type =? RESP_136)
           then Z.lor r CMD_IDX_CHECK else r in
  if (cmd_idx =? CMD17) || (cmd_idx =? CMD24) then Z.lor r CMD_DATA_PRESENT else r.

(** One iteration of the wait for completion: the returned value and what is stored in [*resp_out]. *)
Definition complete_body (ignore_err want_resp : bool) (time_out : Z) : K (Z + (Z * option Z)) :=
  do status <- SD_READ_REG32 SD_NORMAL_INT_STAT_R;
  if has status INT_ERR then
    (if negb ignore_err then SD_READ_REG32 SD_ERROR_INT_STAT_R ;;; kret tt else kret tt) ;;;
    SD_WRITE_REG8 SD_SW_RST_R 0x2 ;;;
    kret (inr (-1, None))
  else if has status INT_CMD_COMPLETE then
    do resp <- (if want_resp then do x <- SD_READ_REG32 SD_RESP01_R; kret (Some x) else kret None);
    SD_WRITE_REG32 SD_NORMAL_INT_STAT_R INT_CMD_COMPLETE ;;;
    kret (inr (0, resp))
  else if time_out =? 0 then kret (inr (-1, None))
  else kret (inl (u32 (time_out - 1))).

(** [want_resp] says that [resp_out] is not null; the result is the returned value and [*resp_out]. *)
Definition sd_send_cmd (cmd_idx arg resp_type : Z) (ignore_err want_resp : bool) : K (Z * option Z) :=
  do idle <- kloop (2 ^ 32) idle_body 100000;
  match idle with
  | inl _ => nofuel
  | inr false => kret (-1, None)
  | inr true =>
      SD_WRITE_REG32 SD_NORMAL_INT_STAT_R 0xFFFFFFFF ;;;
      SD_WRITE_REG32 SD_ERROR_INT_STAT_R 0xFFFFFFFF ;;;
      (if negb (cmd_idx =? CMD17) && negb (cmd_idx =? CMD24) then SD_WRITE_REG16 SD_XFER_MODE_R 0x0 else kret tt) ;;;
      SD_WRITE_REG32 SD_ARGUMENT_R arg ;;;
      SD_WRITE_REG16 SD_CMD_R (cmd_reg cmd_idx resp_type) ;;;
      do r <- kloop 0x500001 (complete_body ignore_err want_resp) 0x500000;
      match r with inl _ => nofuel | inr a => kret a end
  end.

(** ** Sectors

    A [uint32 *] into a byte array is the array and an offset; an access outside it is undefined. *)

Definition load_word (d : list Z) (off : nat) : K Z :=
  if bool_decide (off + 4 ≤ length d)%nat then kret (ld32 d off) else undefined "read past the buffer".
Definition store_word (d : list Z) (off : nat) (x : Z) : K (list Z) :=
  if bool_decide (off + 4 ≤ length d)%nat then kret (st32 d off x) else undefined "write past the buffer".

Fixpoint read_words (n : nat) (off : nat) (d : list Z) : K (list Z) :=
  match n with
  | O => kret d
  | S n' =>
      do x <- SD_READ_REG32 SD_BUF_DATA_R;
      do d' <- store_word d off x;
      read_words n' (off + 4) d'
  end.

Fixpoint write_words (n : nat) (off : nat) (d : list Z) : K unit :=
  match n with
  | O => kret tt
  | S n' =>
      do x <- load_word d off;
      SD_WRITE_REG32 SD_BUF_DATA_R x ;;;
      write_words n' (off + 4) d
  end.

(** One iteration of the transfer loops, with the pointer [dst] or [src]. *)
Definition read_body (st : nat * list Z) : K ((nat * list Z) + (Z * list Z)) :=
  let '(off, d) := st in
  do status <- SD_READ_REG32 SD_NORMAL_INT_STAT_R;
  if has status INT_ERR then kret (inr (-1, d))
  else
    do st' <- (if has status INT_BUF_READ_RDY then
                 do d' <- read_words 128 off d;
                 SD_WRITE_REG32 SD_NORMAL_INT_STAT_R INT_BUF_READ_RDY ;;;
                 kret ((off + 512)%nat, d')
               else kret (off, d));
    if has status INT_XFER_COMPLETE then
      SD_WRITE_REG32 SD_NORMAL_INT_STAT_R INT_XFER_COMPLETE ;;;
      kret (inr (0, st'.2))
    else kret (inl st').

Definition sd_read_sector (sector : Z) (off : nat) (d : list Z) : K (Z * list Z) :=
  SD_WRITE_REG16 SD_BLOCKSIZE_R 512 ;;;
  SD_WRITE_REG16 SD_BLOCKCOUNT_R 1 ;;;
  SD_WRITE_REG16 SD_XFER_MODE_R 0x10 ;;;
  do r <- sd_send_cmd CMD17 sector RESP_48 false false;
  if r.1 <? 0 then kret (-1, d)
  else
    do x <- kloop 0xFFFFFFF read_body (off, d);
    match x with inl st => kret (-2, st.2) | inr a => kret a end.

Definition write_body (d : list Z) (off : nat) : K (nat + Z) :=
  do status <- SD_READ_REG32 SD_NORMAL_INT_STAT_R;
  if has status INT_ERR then kret (inr (-1))
  else
    do off' <- (if has status INT_BUF_WRITE_RDY then
                  write_words 128 off d ;;;
                  SD_WRITE_REG32 SD_NORMAL_INT_STAT_R INT_BUF_WRITE_RDY ;;;
                  kret (off + 512)%nat
                else kret off);
    if has status INT_XFER_COMPLETE then
      SD_WRITE_REG32 SD_NORMAL_INT_STAT_R INT_XFER_COMPLETE ;;;
      kret (inr 0)
    else kret (inl off').

Definition sd_write_sector (sector : Z) (off : nat) (d : list Z) : K Z :=
  SD_WRITE_REG16 SD_BLOCKSIZE_R 512 ;;;
  SD_WRITE_REG16 SD_BLOCKCOUNT_R 1 ;;;
  SD_WRITE_REG16 SD_XFER_MODE_R 0x00 ;;;
  do r <- sd_send_cmd CMD24 sector RESP_48 false false;
  if r.1 <? 0 then kret (-1)
  else
    do x <- kloop 0xFFFFFFF (write_body d) off;
    match x with inl _ => kret (-2) | inr a => kret a end.

(** ** Initialisation *)

Definition sd_reset_and_clock : K unit :=
  SD_WRITE_REG8 SD_SW_RST_R 0x6 ;;;
  delay 1000 ;;;
  spin_while (do x <- SD_READ_REG8 SD_SW_RST_R; kret (has x 0x6)) ;;;
  do clk <- SD_READ_REG16 SD_CLK_CTRL_R;
  SD_WRITE_REG16 SD_CLK_CTRL_R (Z.land clk (Z.lnot 0x4)) ;;;
  let clk := u16 (Z.land clk (Z.lnot 0xFF00)) in
  let clk := u16 (Z.lor clk (Z.shiftl 0x80 8)) in
  SD_WRITE_REG16 SD_CLK_CTRL_R (Z.lor (Z.lor clk 0x1) 0x4) ;;;
  SD_WRITE_REG8 SD_TOUT_CTRL_R 0xE ;;;
  SD_WRITE_REG32 SD_NORMAL_INT_STAT_EN_R 0xFFFFFFFF ;;;
  SD_WRITE_REG32 SD_NORMAL_INT_SIG_EN_R 0xFFFFFFFF ;;;
  delay 100000.

(** The result says whether the message reports a mounted file system. *)
Definition sd_mount_partition : K bool :=
  kmod (set_offset 0xf000) ;;;
  do s <- kget;
  let sb_sector := u32 (fat32_offset_sector s + 2) in
  do r <- sd_read_sector sb_sector 0 (mount_buf s);
  kmod (set_mount_buf r.2) ;;;
  if r.1 =? 0 then
    let magic := ld32 r.2 0 in
    kret ((magic =? 0x10205555) || (magic =? 0x10203040))
  else kret false.

(** The loop of ACMD41; the result is [retry] after it. *)
Definition acmd41_body (retry : Z) : K (Z + Z) :=
  let retry := retry - 1 in
  sd_send_cmd CMD55 0 RESP_48 false false ;;;
  do r <- sd_send_cmd ACMD41 0x40FF8000 RESP_R3 false true;
  if (r.1 =? 0) && negb (Z.shiftr (default 0 r.2) 31 =? 0) then kret (inr retry)
  else delay 2000 ;;; kret (inl retry).

Definition acmd41_loop : K Z :=
  do r <- kloop 5000 acmd41_body 5000;
  match r with inl retry => kret (retry - 1) | inr retry => kret retry end.

Definition sd_init : K unit :=
  sd_reset_and_clock ;;;
  sd_send_cmd CMD0 0 RESP_NONE true false ;;;
  delay 2000 ;;;
  do r <- sd_send_cmd CMD8 0x1AA RESP_48 false true;
  if negb (r.1 =? 0) then kret tt
  else
    do retry <- acmd41_loop;
    if retry <=? 0 then kret tt
    else
      sd_send_cmd CMD2 0 RESP_136 false false ;;;
      do r <- sd_send_cmd CMD3 0 RESP_48 false true;
      (if r.1 =? 0 then kmod (set_rca (Z.land (default 0 r.2) 0xFFFF0000)) else kret tt) ;;;
      do rca <- kgets sd_rca;
      sd_send_cmd CMD7 rca RESP_48_BUSY false false ;;;
      sd_send_cmd CMD55 rca RESP_48 false false ;;;
      sd_send_cmd ACMD6 0x2 RESP_48 false false ;;;
      do host_ctrl <- SD_READ_REG8 SD_HOST_CTRL1_R;
      SD_WRITE_REG8 SD_HOST_CTRL1_R (Z.lor host_ctrl 0x02) ;;;
      do clk <- SD_READ_REG16 SD_CLK_CTRL_R;
      SD_WRITE_REG16 SD_CLK_CTRL_R (Z.land clk (Z.lnot 0x4)) ;;;
      let clk := u16 (Z.land clk (Z.lnot 0xFF00)) in
      let clk := u16 (Z.lor clk (Z.shiftl 0x02 8)) in
      SD_WRITE_REG16 SD_CLK_CTRL_R (Z.lor clk 0x4) ;;;
      spin_while (do x <- SD_READ_REG16 SD_CLK_CTRL_R; kret (negb (has x 0x2))) ;;;
      sd_mount_partition ;;;
      kret tt.

(** ** The interface to the buffer cache

    The result is [b->data] afterwards. *)
Fixpoint sd_sectors (n : nat) (i start_sector : Z) (write : bool) (d : list Z) : K (list Z) :=
  match n with
  | O => kret d
  | S n' =>
      let current_sector := u32 (start_sector + i) in
      let ptr := Z.to_nat (i * 512) in
      do r <- (if write then do x <- sd_write_sector current_sector ptr d; kret (x, d)
               else sd_read_sector current_sector ptr d);
      if negb (r.1 =? 0) then release LK_sd ;;; panic "sd_disk_rw"
      else sd_sectors n' (i + 1) start_sector write r.2
  end.

Definition sd_disk_rw (blockno : Z) (data : list Z) (write : bool) : K (list Z) :=
  if negb (BSIZE mod 512 =? 0) then panic "sd_disk_rw: BSIZE must be multiple of 512"
  else
    let sector_per_block := BSIZE / 512 in
    do off <- kgets fat32_offset_sector;
    let start_sector := u32 (u32 (blockno * sector_per_block) + off) in
    acquire LK_sd ;;;
    do d <- sd_sectors (Z.to_nat sector_per_block) 0 start_sector write data;
    release LK_sd ;;;
    kret d.
End driver.

(** ** What the host controller promises

    The transfer of one sector, as the SDHCI standard describes it.  The flags are those of the normal
    interrupt status register; they stay set until a 1 is written to them.  A number [n] in a job is
    the time the device still needs, in steps of its own ([tick]); at least one step lies between two
    reads of the status register. *)

Inductive sdop := OpRead (sec : Z) | OpWrite (sec : Z).

Inductive job :=
  | Idle
  | Sending (n : Z) (op : sdop)                     (* a command on its way to the card *)
  | Fetching (n : Z) (sec : Z)                      (* the card sends a sector *)
  | Draining (k : nat) (sec : Z)                    (* [k] words of it were taken from the data port *)
  | Asking (n : Z) (sec : Z)                        (* the controller empties its buffer *)
  | Filling (ws : list Z) (sec : Z)                 (* these words were put into the data port *)
  | Finishing (n : Z) (store : option (Z * list Z)) (* the end of a transfer, with the sector to store *)
  | Failed.

Record sdflags := mkflags { f_cc : bool; f_tc : bool; f_wr : bool; f_rd : bool; f_err : bool }.

Record sdview := mksdv {
  sv_card : Z → list Z;        (* the sectors, 512 bytes each *)
  sv_sectors : Z;              (* how many *)
  sv_blksize : Z; sv_blkcnt : Z; sv_mode : Z; sv_arg : Z;
  sv_flags : sdflags;
  sv_job : job
}.

Definition set_job (j : job) (v : sdview) : sdview :=
  mksdv (sv_card v) (sv_sectors v) (sv_blksize v) (sv_blkcnt v) (sv_mode v) (sv_arg v) (sv_flags v) j.
Definition set_flags (f : sdflags) (v : sdview) : sdview :=
  mksdv (sv_card v) (sv_sectors v) (sv_blksize v) (sv_blkcnt v) (sv_mode v) (sv_arg v) f (sv_job v).
Definition set_card (m : Z → list Z) (v : sdview) : sdview :=
  mksdv m (sv_sectors v) (sv_blksize v) (sv_blkcnt v) (sv_mode v) (sv_arg v) (sv_flags v) (sv_job v).
Definition set_setup (bs bc mode arg : Z) (v : sdview) : sdview :=
  mksdv (sv_card v) (sv_sectors v) bs bc mode arg (sv_flags v) (sv_job v).

Definition raise_cc (f : sdflags) := mkflags true (f_tc f) (f_wr f) (f_rd f) (f_err f).
Definition raise_tc (f : sdflags) := mkflags (f_cc f) true (f_wr f) (f_rd f) (f_err f).
Definition raise_wr (f : sdflags) := mkflags (f_cc f) (f_tc f) true (f_rd f) (f_err f).
Definition raise_rd (f : sdflags) := mkflags (f_cc f) (f_tc f) (f_wr f) true (f_err f).
Definition raise_err (f : sdflags) := mkflags (f_cc f) (f_tc f) (f_wr f) (f_rd f) true.

(** Writing 1 to all bits of the error status register at 0x32, which clears the error flag. *)
Definition clear_error (f : sdflags) : sdflags := mkflags (f_cc f) (f_tc f) (f_wr f) (f_rd f) false.

(** Writing [x] to the two status registers at 0x30 and 0x32 at once, with none or all of the error
    bits. *)
Definition clear_flags (x : Z) (f : sdflags) : sdflags :=
  mkflags (f_cc f && negb (Z.testbit x 0)) (f_tc f && negb (Z.testbit x 1)) (f_wr f && negb (Z.testbit x 4))
    (f_rd f && negb (Z.testbit x 5)) (f_err f && negb (Z.shiftr x 16 =? 0xFFFF)).
Definition clears (x : Z) : bool := (Z.shiftr x 16 =? 0) || (Z.shiftr x 16 =? 0xFFFF).

(** [x] is a value of the status register with these flags. *)
Definition shows (f : sdflags) (x : Z) : Prop :=
  Z.testbit x 0 = f_cc f ∧ Z.testbit x 1 = f_tc f ∧ Z.testbit x 4 = f_wr f ∧ Z.testbit x 5 = f_rd f ∧ Z.testbit x 15 = f_err f.

(** The times a device without faults needs at most; the driver polls 0x500001 times for a command
    and 0xFFFFFFF times for a transfer, which waits twice. *)
Definition CMD_TIME : Z := 0x500000.
Definition DATA_TIME : Z := 0x7FFFFFE.

Definition start_job (op : sdop) (n : Z) : job :=
  match op with OpRead sec => Fetching n sec | OpWrite sec => Asking n sec end.
Definition serve_job (op : sdop) : job :=
  match op with OpRead sec => Draining 0 sec | OpWrite sec => Filling [] sec end.
Definition raise_ready (op : sdop) : sdflags → sdflags :=
  match op with OpRead _ => raise_rd | OpWrite _ => raise_wr end.

Definition store_sector (st : option (Z * list Z)) (m : Z → list Z) : Z → list Z :=
  match st with Some (sec, b) => <[sec:=b]> m | None => m end.

(** The bytes of the words that went through the data port. *)
Definition word_bytes (ws : list Z) : list Z := mjoin (le_split 4 <$> ws).

Section host.
Context (faulty : bool).

Definition in_time (bound n : Z) : Prop := 0 <= n ∧ (faulty = false → n <= bound).
Definition fails (v v' : sdview) : Prop := faulty = true ∧ v' = set_flags (raise_err (sv_flags v)) (set_job Failed v).

(** A wait of [n] steps in job [j n], which ends in the state [e]. *)
Definition waits (n : Z) (j : Z → job) (e : sdview → Prop) (v v' : sdview) : Prop :=
  (0 < n ∧ v' = set_job (j (n - 1)) v) ∨ (n <= 0 ∧ e v') ∨ fails v v'.

Definition tick (v v' : sdview) : Prop :=
  match sv_job v with
  | Sending n op => waits n (λ n, Sending n op)
      (λ v', ∃ m, in_time DATA_TIME m ∧ v' = set_flags (raise_cc (sv_flags v)) (set_job (start_job op m) v)) v v'
  | Fetching n sec => waits n (λ n, Fetching n sec)
      (λ v', v' = set_flags (raise_rd (sv_flags v)) (set_job (Draining 0 sec) v)) v v'
  | Asking n sec => waits n (λ n, Asking n sec)
      (λ v', v' = set_flags (raise_wr (sv_flags v)) (set_job (Filling [] sec) v)) v v'
  | Finishing n st => waits n (λ n, Finishing n st)
      (λ v', v' = set_flags (raise_tc (sv_flags v)) (set_job Idle (set_card (store_sector st (sv_card v)) v))) v v'
  | Idle | Draining _ _ | Filling _ _ | Failed => v' = v
  end.

(** What a value written to the command register asks for. *)
Definition commands (v : sdview) (x : Z) (op : sdop) : Prop :=
  Z.testbit x 5 = true ∧ sv_blksize v = 512 ∧ sv_blkcnt v = 1 ∧ 0 <= sv_arg v < sv_sectors v ∧
  ((Z.shiftr x 8 = 17 ∧ Z.testbit (sv_mode v) 4 = true ∧ op = OpRead (sv_arg v)) ∨
   (Z.shiftr x 8 = 24 ∧ Z.testbit (sv_mode v) 4 = false ∧ op = OpWrite (sv_arg v))).

Inductive read_step (v : sdview) : nat → Z → Z → sdview → Prop :=
  | read_pstate x : sv_job v = Idle → Z.testbit x 0 = false → read_step v 4 0x24 x v
  | read_status x v' : tc tick v v' → shows (sv_flags v') x → read_step v 4 0x30 x v'
  | read_data k sec : sv_job v = Draining k sec → (k < 127)%nat →
      read_step v 4 0x20 (ld32 (sv_card v sec) (4 * k)) (set_job (Draining (S k) sec) v)
  | read_last sec n : sv_job v = Draining 127 sec → in_time DATA_TIME n →
      read_step v 4 0x20 (ld32 (sv_card v sec) (4 * 127)) (set_job (Finishing n None) v).

Inductive write_step (v : sdview) : nat → Z → Z → sdview → Prop :=
  | write_blksize x : sv_job v = Idle → write_step v 2 0x04 x (set_setup x (sv_blkcnt v) (sv_mode v) (sv_arg v) v)
  | write_blkcnt x : sv_job v = Idle → write_step v 2 0x06 x (set_setup (sv_blksize v) x (sv_mode v) (sv_arg v) v)
  | write_mode x : sv_job v = Idle → write_step v 2 0x0C x (set_setup (sv_blksize v) (sv_blkcnt v) x (sv_arg v) v)
  | write_arg x : sv_job v = Idle → write_step v 4 0x08 x (set_setup (sv_blksize v) (sv_blkcnt v) (sv_mode v) x v)
  | write_cmd x op n : sv_job v = Idle → commands v x op → in_time CMD_TIME n → write_step v 2 0x0E x (set_job (Sending n op) v)
  | write_status x : clears x = true → write_step v 4 0x30 x (set_flags (clear_flags x (sv_flags v)) v)
  | write_error : write_step v 2 0x32 0xFFFF (set_flags (clear_error (sv_flags v)) v)
  (* the status enable register, all bits of which are set already *)
  | write_enable : write_step v 2 0x34 0xFFFF v
  | write_data x ws sec : sv_job v = Filling ws sec → (length ws < 127)%nat → write_step v 4 0x20 x (set_job (Filling (ws ++ [x]) sec) v)
  | write_last x ws sec n : sv_job v = Filling ws sec → length ws = 127%nat → in_time DATA_TIME n →
      write_step v 4 0x20 x (set_job (Finishing n (Some (sec, word_bytes (ws ++ [x])))) v).

(** A device that does one of the things the automaton allows, whenever it allows any. *)
Class SdHost (D : Type) `{SdBus D} := {
  host_rep : D → sdview → Prop;
  host_read d v w off :
    host_rep d v → (∃ x v', read_step v w off x v') →
    ∃ v', 0 <= (bus_read w off d).1 < 2 ^ (8 * Z.of_nat w) ∧
      read_step v w off (bus_read w off d).1 v' ∧ host_rep (bus_read w off d).2 v';
  host_write d v w off x :
    host_rep d v → (∃ v', write_step v w off x v') →
    ∃ v', write_step v w off x v' ∧ host_rep (bus_write w off x d) v'
}.

(** The driver clears the error status with a 32-bit store at 0x32 (k230_sd.c:50), which is not aligned and
    reaches into the enable register at 0x34.  Neither the SDHCI standard nor RISC-V says what it
    does: this is what the driver needs of the platform, that the store is carried out as the two halfword
    stores it covers. *)
Class SplitStores (D : Type) `{SdBus D} :=
  split_store d x : bus_write 4 0x32 x d = bus_write 2 0x34 (x / 2 ^ 16) (bus_write 2 0x32 (x mod 2 ^ 16) d).
End host.
Arguments host_rep {_ _ _ _}. Arguments host_read {_ _ _ _}. Arguments host_write {_ _ _ _}.

(** ** Lemmas: loops *)

(** A loop of at most [p] iterations: [I k x s] holds with [k] iterations left. *)
Lemma kloop_rule {S X A} p (body : X → M S (X + A)) c (I : Z → X → S → Prop) (Q : A → S → Prop) :
  (∀ k x s, 0 < k → I k x s →
     ∃ r s', body x c s = Ret r c s' ∧ match r with inl y => I (k - 1) y s' | inr a => Q a s' end) →
  ∀ m x s, 0 <= m → I (Z.pos p + m) x s →
  ∃ r s', kloop p body x c s = Ret r c s' ∧ match r with inl y => I m y s' | inr a => Q a s' end.
Proof.
  intros Hb. induction p as [q IH|q IH|]; intros m x s Hm Hi; cbn [kloop].
  - destruct (Hb (Z.pos q~1 + m) x s ltac:(lia) Hi) as ([y|a] & s1 & E1 & H1); kstep E1; [|by exists (inr a), s1].
    destruct (IH (Z.pos q + m) y s1) as ([z|a] & s2 & E2 & H2); [lia| |kstep E2..].
    + by replace (Z.pos q + (Z.pos q + m)) with (Z.pos q~1 + m - 1) by lia.
    + by apply IH.
    + by exists (inr a), s2.
  - destruct (IH (Z.pos q + m) x s) as ([z|a] & s2 & E2 & H2); [lia| |kstep E2..].
    + by replace (Z.pos q + (Z.pos q + m)) with (Z.pos q~0 + m) by lia.
    + by apply IH.
    + by exists (inr a), s2.
  - destruct (Hb (1 + m) x s ltac:(lia) Hi) as (r & s1 & E1 & H1). exists r, s1. split; [done|].
    destruct r; [by replace m with (1 + m - 1) by lia|done].
Qed.

Lemma kloop_rule0 {S X A} p (body : X → M S (X + A)) c (I : Z → X → S → Prop) (Q : A → S → Prop) x s :
  (∀ k x s, 0 < k → I k x s →
     ∃ r s', body x c s = Ret r c s' ∧ match r with inl y => I (k - 1) y s' | inr a => Q a s' end) →
  I (Z.pos p) x s →
  ∃ r s', kloop p body x c s = Ret r c s' ∧ match r with inl y => I 0 y s' | inr a => Q a s' end.
Proof. intros Hb Hi. apply (kloop_rule p body c I Q Hb 0 x s); [lia|]. by rewrite Z.add_0_r. Qed.

Lemma kloop_first {S X A} p (body : X → M S (X + A)) x c s a c' s' :
  body x c s = Ret (inr a) c' s' → kloop p body x c s = Ret (inr a) c' s'.
Proof. intros E. induction p as [q IH|q IH|]; cbn [kloop]; [by kstep E|by kstep IH|done]. Qed.

(** ** Lemmas: words and bytes *)

Lemma le_split_combine l : Forall byte l → le_split (length l) (le_combine l) = l.
Proof.
  induction 1 as [|b l Hb Hl IH]; [done|]. cbn [length le_combine le_split]. unfold byte in Hb.
  rewrite (Z.mul_comm 256), Z.mod_add, Z.mod_small, Z.div_add, Z.div_small, Z.add_0_l, IH by lia. done.
Qed.

Lemma le_combine_range l : Forall byte l → 0 <= le_combine l < 256 ^ Z.of_nat (length l).
Proof.
  induction 1 as [|b l Hb Hl IH]; [done|]. cbn [length le_combine]. unfold byte in Hb.
  rewrite Nat2Z.inj_succ, Z.pow_succ_r by lia. lia.
Qed.

Lemma Forall_slice {A} (P : A → Prop) d off n : Forall P d → Forall P (slice d off n).
Proof. intros. by apply Forall_take, Forall_drop. Qed.

(** A word of a byte array, as bytes. *)
Lemma ld32_split d off : Forall byte d → (off + 4 ≤ length d)%nat → le_split 4 (u32 (ld32 d off)) = slice d off 4.
Proof.
  intros Hd Hl. unfold ld32. pose proof (length_slice d off 4 Hl) as E. pose proof (Forall_slice _ d off 4 Hd) as Hs.
  pose proof (le_combine_range _ Hs) as Hr. rewrite E in Hr. change (256 ^ Z.of_nat 4) with (2 ^ 32) in Hr.
  rewrite u32_small by done. rewrite <- E at 1. by apply le_split_combine.
Qed.

Lemma ld32_range d off : Forall byte d → (off + 4 ≤ length d)%nat → 0 <= ld32 d off < 2 ^ 32.
Proof.
  intros Hd Hl. pose proof (le_combine_range _ (Forall_slice _ d off 4 Hd)) as Hr. by rewrite length_slice in Hr by done.
Qed.

Lemma slice_all {A} (d : list A) n : (length d ≤ n)%nat → slice d 0 n = d.
Proof. intros. unfold slice. by rewrite drop_0, take_ge. Qed.

Lemma slice_split {A} (d : list A) off a b : slice d off (a + b) = slice d off a ++ slice d (off + a) b.
Proof.
  unfold slice. rewrite <- (take_drop a (take (a + b) (drop off d))) at 1. rewrite take_take, Nat.min_l by lia.
  f_equal. rewrite <- drop_drop, <- (Nat.add_sub b a) at 1. rewrite Nat.add_comm at 1. rewrite skipn_firstn_comm. f_equal. lia.
Qed.

Lemma splice_splice {A} (d : list A) off l1 l2 :
  (off + length l1 + length l2 ≤ length d)%nat → splice (splice d off l1) (off + length l1) l2 = splice d off (l1 ++ l2).
Proof.
  intros Hl. unfold splice. set (k := length l1).
  assert (Ht : length (take off d) = off) by (rewrite length_take; lia).
  rewrite (app_assoc (take off d) l1), take_app_le, take_ge by (rewrite length_app, Ht; lia).
  rewrite <- !app_assoc, length_app. do 2 f_equal. f_equal.
  rewrite (app_assoc (take off d) l1), drop_app_ge by (rewrite length_app, Ht; lia).
  rewrite length_app, Ht, drop_drop. f_equal. lia.
Qed.

(** ** Lemmas: the automaton *)

Section automaton.
Context (faulty : bool).
Local Abbreviation tick := (tick faulty).
Local Abbreviation in_time := (in_time faulty).

Definition no_flags : sdflags := mkflags false false false false false.
Definition with_cc (cc : bool) : sdflags := mkflags cc false false false false.

Definition failed (v : sdview) : Prop := faulty = true ∧ f_err (sv_flags v) = true ∧ sv_job v = Failed.

(** The card and the number of its sectors. *)
Definition holds (m : Z → list Z) (n : Z) (v : sdview) : Prop := sv_card v = m ∧ sv_sectors v = n.

Definition in_cmd m nsec op b v : Prop :=
  holds m nsec v ∧ sv_flags v = no_flags ∧ ∃ n, sv_job v = Sending n op ∧ in_time b n.

(** Waiting for the buffer, or told that it is ready. *)
Definition in_wait m nsec op cc b v : Prop :=
  holds m nsec v ∧
  ((∃ n, sv_flags v = with_cc cc ∧ sv_job v = start_job op n ∧ in_time b n) ∨
   (sv_flags v = raise_ready op (with_cc cc) ∧ sv_job v = serve_job op)).

Definition in_fin m nsec st b v : Prop :=
  holds m nsec v ∧ sv_flags v = no_flags ∧ ∃ n, sv_job v = Finishing n st ∧ in_time b n.
Definition finished m nsec (v : sdview) : Prop :=
  holds m nsec v ∧ sv_flags v = raise_tc no_flags ∧ sv_job v = Idle.

Lemma in_time_weaken b b' n : b <= b' → in_time b n → in_time b' n.
Proof. intros ? [??]. split; [done|]. intros Hf. specialize (H1 Hf). lia. Qed.

Lemma in_time_next b n : 0 < n → in_time b n → in_time (b - 1) (n - 1).
Proof. intros ? [? Hb]. split; [lia|]. intros Hf. specialize (Hb Hf). lia. Qed.

Lemma in_wait_weaken m nsec op cc b b' v : b <= b' → in_wait m nsec op cc b v → in_wait m nsec op cc b' v.
Proof. intros Hb (Hh & [(n & Hf & Ej & Hn)|Hd]); (split; [done|]); [left|by right]. exists n. split; [done|]. split; [done|]. by apply (in_time_weaken b). Qed.

Lemma fails_failed v v' : fails faulty v v' → failed v'.
Proof. intros [? ->]. done. Qed.

Lemma tick_failed v v' : failed v → tick v v' → failed v'.
Proof. intros (? & ? & Ej) Ht. unfold Sd.tick in Ht. rewrite Ej in Ht. by subst v'. Qed.

Lemma tick_cmd m nsec op b v v' :
  in_cmd m nsec op b v → tick v v' → in_cmd m nsec op (b - 1) v' ∨ in_wait m nsec op true DATA_TIME v' ∨ failed v'.
Proof.
  intros ([Hc Hs] & Hf & n & Ej & Hn) Ht. unfold Sd.tick in Ht. rewrite Ej in Ht.
  destruct Ht as [[? ->]|[(? & k & Hk & ->)|Hx%fails_failed]]; [left|right; left|by right; right].
  - split_and!; try done. exists (n - 1). split; [done|by apply in_time_next].
  - split; [done|]. left. exists k. cbn. by rewrite Hf.
Qed.

Lemma tick_wait m nsec op cc b v v' :
  in_wait m nsec op cc b v → tick v v' → in_wait m nsec op cc (b - 1) v' ∨ failed v'.
Proof.
  intros ([Hc Hs] & [(n & Hf & Ej & Hn)|[Hf Ej]]) Ht; unfold Sd.tick in Ht; rewrite Ej in Ht.
  - destruct op; destruct Ht as [[? ->]|[[? ->]|Hx%fails_failed]]; try (by right); left; (split; [done|]);
      [left; exists (n - 1); split_and!; try done; by apply in_time_next|right; cbn; by rewrite Hf..|
       left; exists (n - 1); split_and!; try done; by apply in_time_next|right; cbn; by rewrite Hf].
  - left. assert (v' = v) as -> by (destruct op; done). split; [done|]. by right.
Qed.

Lemma tick_fin m nsec st b v v' :
  in_fin m nsec st b v → tick v v' → in_fin m nsec st (b - 1) v' ∨ finished (store_sector st m) nsec v' ∨ failed v'.
Proof.
  intros ([Hc Hs] & Hf & n & Ej & Hn) Ht. unfold Sd.tick in Ht. rewrite Ej in Ht.
  destruct Ht as [[? ->]|[[? ->]|Hx%fails_failed]]; [left|right; left|by right; right].
  - split_and!; try done. exists (n - 1). split; [done|by apply in_time_next].
  - unfold finished, holds. cbn. by rewrite Hf, Hc.
Qed.

Lemma tick_finished m nsec v v' : finished m nsec v → tick v v' → finished m nsec v'.
Proof. intros (? & ? & Ej) Ht. unfold Sd.tick in Ht. rewrite Ej in Ht. by subst v'. Qed.

(** A device always makes some step. *)
Lemma tick_total v : ∃ v', tick v v'.
Proof.
  assert (W : ∀ n j (e : sdview → Prop), (∃ v', e v') → ∃ v', waits faulty n j e v v').
  { intros n j e [v' He]. unfold waits. destruct (Z.lt_ge_cases 0 n); [eexists; left; done|exists v'; right; left; split; [lia|done]]. }
  unfold Sd.tick. destruct (sv_job v); eauto. apply W. eexists _, 0. split; [split; [lia|done]|reflexivity].
Qed.

(** *** Reading the status *)

(** Between two reads the device makes at least one step; [P b] shrinks by one at the first. *)
Lemma poll_shrinks (P : Z → sdview → Prop) (Q : sdview → Prop) b v v' :
  (∀ b v v', P b v → tick v v' → P (b - 1) v' ∨ Q v') → (∀ b b' v, b <= b' → P b v → P b' v) → (∀ v v', Q v → tick v v' → Q v') →
  P b v → tc tick v v' → P (b - 1) v' ∨ Q v'.
Proof.
  intros H1 H2 H3 Hp Ht. assert (Hq : ∀ x y, tc tick x y → Q x → Q y) by (induction 1; eauto). revert Hp. induction Ht as [x y Hxy|x y z Hxy Hyz IH]; intros Hp; [by eapply H1|].
  destruct (H1 _ _ _ Hp Hxy) as [Hp'|Hy]; [|right; by eapply Hq].
  exact (IH (H2 (b - 1) b y ltac:(lia) Hp')).
Qed.

Lemma poll_cmd m nsec op b v v' :
  in_cmd m nsec op b v → tc tick v v' → in_cmd m nsec op (b - 1) v' ∨ in_wait m nsec op true DATA_TIME v' ∨ failed v'.
Proof.
  apply (poll_shrinks (in_cmd m nsec op) (λ v, in_wait m nsec op true DATA_TIME v ∨ failed v)).
  - apply tick_cmd.
  - intros ??? ? (? & ? & n & ? & ?). split_and!; try done. exists n. split; [done|by eapply in_time_weaken].
  - intros x y [Hw|Hx] Ht; [|right; by eapply tick_failed]. destruct (tick_wait _ _ _ _ _ _ _ Hw Ht) as [Hd|?]; [left|by right].
    by apply (in_wait_weaken _ _ _ _ (DATA_TIME - 1)); [lia|].
Qed.

Lemma poll_wait m nsec op cc b v v' :
  in_wait m nsec op cc b v → tc tick v v' → in_wait m nsec op cc (b - 1) v' ∨ failed v'.
Proof.
  apply (poll_shrinks (in_wait m nsec op cc) failed).
  - apply tick_wait.
  - intros b1 b2 x. apply in_wait_weaken.
  - apply tick_failed.
Qed.

Lemma poll_fin m nsec st b v v' :
  in_fin m nsec st b v → tc tick v v' → in_fin m nsec st (b - 1) v' ∨ finished (store_sector st m) nsec v' ∨ failed v'.
Proof.
  apply (poll_shrinks (in_fin m nsec st) (λ v, finished (store_sector st m) nsec v ∨ failed v)).
  - apply tick_fin.
  - intros ??? ? (? & ? & n & ? & ?). split_and!; try done. exists n. split; [done|by eapply in_time_weaken].
  - intros x y [?|?] ?; [left; by eapply tick_finished|right; by eapply tick_failed].
Qed.
End automaton.

(** ** Lemmas: the driver *)

Lemma shows_exists f : ∃ x, shows f x.
Proof.
  destruct f as [a b c d e]. exists (Z.b2z a + 2 * Z.b2z b + 16 * Z.b2z c + 32 * Z.b2z d + 32768 * Z.b2z e).
  destruct a, b, c, d, e; by split_and!.
Qed.

Lemma has_flags f x : shows f x →
  has x INT_CMD_COMPLETE = f_cc f ∧ has x INT_XFER_COMPLETE = f_tc f ∧ has x INT_BUF_WRITE_RDY = f_wr f ∧
  has x INT_BUF_READ_RDY = f_rd f ∧ has x INT_ERR = f_err f.
Proof.
  intros (<- & <- & <- & <- & <-).
  split_and!; [apply (has_bit x 0)|apply (has_bit x 1)|apply (has_bit x 4)|apply (has_bit x 5)|apply (has_bit x 15)]; lia.
Qed.

Section transfers.
Context {faulty : bool} {D : Type} `{SdHost faulty D} `{!SplitStores D}.
Implicit Types (s : sdsys D) (d : D) (v : sdview) (c : kctx).

Lemma set_dev_twice d d' s : set_dev d' (set_dev d s) = set_dev d' s.
Proof. done. Qed.

Lemma sd_read_ok w off c s v :
  host_rep (sd_dev s) v → (∃ x v', read_step faulty v w off x v') →
  ∃ x d' v', sd_read w off c s = Ret x c (set_dev d' s) ∧ read_step faulty v w off x v' ∧ host_rep d' v'.
Proof.
  intros Hr Hx. destruct (host_read (sd_dev s) v w off Hr Hx) as (v' & Hb & Hst & Hr').
  unfold sd_read. destruct (bus_read w off (sd_dev s)) as [x d']. cbn in *. exists x, d', v'. by rewrite Z.mod_small.
Qed.

Lemma sd_write_ok w off x c s v :
  host_rep (sd_dev s) v → 0 <= x < 2 ^ (8 * Z.of_nat w) → (∃ v', write_step faulty v w off x v') →
  ∃ d' v', sd_write w off x c s = Ret tt c (set_dev d' s) ∧ write_step faulty v w off x v' ∧ host_rep d' v'.
Proof.
  intros Hr Hb Hx. destruct (host_write (sd_dev s) v w off x Hr Hx) as (v' & Hst & Hr').
  eexists _, v'. split; [|split; [exact Hst|exact Hr']]. unfold sd_write, kmod. by rewrite Z.mod_small.
Qed.

(** A register access that changes nothing the proof needs to know. *)
Lemma sd_read_any w off c s : ∃ x d', sd_read w off c s = Ret x c (set_dev d' s).
Proof. unfold sd_read. destruct (bus_read w off (sd_dev s)) as [x d']. eauto. Qed.

Lemma sd_write_any w off x c s : ∃ d', sd_write w off x c s = Ret tt c (set_dev d' s).
Proof. unfold sd_write, kmod. eauto. Qed.

(** Reading the status: some steps of the device, then its flags. *)
Lemma poll_ok c s v :
  host_rep (sd_dev s) v →
  ∃ x d' v', SD_READ_REG32 SD_NORMAL_INT_STAT_R c s = Ret x c (set_dev d' s) ∧ tc (tick faulty) v v' ∧
    shows (sv_flags v') x ∧ host_rep d' v'.
Proof.
  intros Hr. destruct (tick_total faulty v) as [v1 Ht]. destruct (shows_exists (sv_flags v1)) as [x1 Hx1].
  destruct (sd_read_ok 4 0x30 c s v Hr) as (x & d' & v' & E & Hst & Hr').
  { exists x1, v1. apply read_status; [by apply tc_once|done]. }
  exists x, d', v'. inversion Hst; subst. done.
Qed.

Lemma clear_ok x c s v :
  host_rep (sd_dev s) v → 0 <= x < 2 ^ 32 ∧ clears x = true →
  ∃ d', SD_WRITE_REG32 SD_NORMAL_INT_STAT_R x c s = Ret tt c (set_dev d' s) ∧ host_rep d' (set_flags (clear_flags x (sv_flags v)) v).
Proof.
  intros Hr [Hx Hc]. destruct (sd_write_ok 4 0x30 x c s v Hr Hx) as (d' & v' & E & Hst & Hr').
  { eexists. by apply write_status. }
  exists d'. inversion Hst; subst. done.
Qed.

(** The store at 0x32 clears the error flag. *)
Lemma clear_error_ok c s v :
  host_rep (sd_dev s) v →
  ∃ d', SD_WRITE_REG32 SD_ERROR_INT_STAT_R 0xFFFFFFFF c s = Ret tt c (set_dev d' s) ∧ host_rep d' (set_flags (clear_error (sv_flags v)) v).
Proof.
  intros Hr. destruct (host_write (sd_dev s) v 2 0x32 0xFFFF Hr) as (v1 & Hst1 & Hr1); [eexists; apply write_error|].
  inversion Hst1; subst. destruct (host_write _ _ 2 0x34 0xFFFF Hr1) as (v2 & Hst2 & Hr2); [eexists; apply write_enable|].
  inversion Hst2; subst. eexists. split; [|exact Hr2]. unfold SD_WRITE_REG32, sd_write, kmod. do 2 f_equal. apply split_store.
Qed.

(** The registers that describe the transfer, written while the controller is idle. *)
Lemma setup_ok w off x v' c s v :
  host_rep (sd_dev s) v → 0 <= x < 2 ^ (8 * Z.of_nat w) → sv_job v = Idle →
  (w, off, v') ∈ [(2%nat, SD_BLOCKSIZE_R, set_setup x (sv_blkcnt v) (sv_mode v) (sv_arg v) v);
                  (2%nat, SD_BLOCKCOUNT_R, set_setup (sv_blksize v) x (sv_mode v) (sv_arg v) v);
                  (2%nat, SD_XFER_MODE_R, set_setup (sv_blksize v) (sv_blkcnt v) x (sv_arg v) v);
                  (4%nat, SD_ARGUMENT_R, set_setup (sv_blksize v) (sv_blkcnt v) (sv_mode v) x v)] →
  ∃ d', sd_write w off x c s = Ret tt c (set_dev d' s) ∧ host_rep d' v'.
Proof.
  intros Hr Hx Ej Hin. destruct (sd_write_ok w off x c s v Hr Hx) as (d' & v1 & E & Hst & Hr').
  { exists v'. rewrite !elem_of_cons, elem_of_nil in Hin. destruct Hin as [Hi|[Hi|[Hi|[Hi|[]]]]]; inversion Hi; subst;
      [by apply write_blksize|by apply write_blkcnt|by apply write_mode|by apply write_arg]. }
  exists d'. split; [done|].
  rewrite !elem_of_cons, elem_of_nil in Hin. destruct Hin as [Hi|[Hi|[Hi|[Hi|[]]]]]; inversion Hi; subst; inversion Hst; subst; done.
Qed.

(** *** Commands *)

Lemma wait_idle_ok c s v :
  host_rep (sd_dev s) v → sv_job v = Idle →
  ∃ d', kloop (2 ^ 32) idle_body 100000 c s = Ret (inr true) c (set_dev d' s) ∧ host_rep d' v.
Proof.
  intros Hr Ej. destruct (sd_read_ok 4 0x24 c s v Hr) as (x & d' & v' & E & Hst & Hr').
  { exists 0, v. by apply read_pstate. }
  inversion Hst as [y _ Hb| | |]; subst. exists d'. split; [|done]. apply kloop_first. unfold idle_body.
  kstep E. assert (has x 0x1 = false) as -> by (rewrite <- Hb; by apply (has_bit x 0)). done.
Qed.

(** What is known of the state after a call: its variables are unchanged, and the device shows a view. *)
Definition at_view s0 (P : sdview → Prop) s : Prop := ∃ d v, s = set_dev d s0 ∧ host_rep d v ∧ P v.
(** The device was at fault. *)
Definition at_fault s0 s : Prop := faulty = true ∧ ∃ d, s = set_dev d s0.

Lemma in_wait_clear m nsec op b v :
  in_wait faulty m nsec op true b v → in_wait faulty m nsec op false b (set_flags (clear_flags INT_CMD_COMPLETE (sv_flags v)) v).
Proof. intros (Hh & Hd). split; [done|]. destruct Hd as [(n & Hf & Ej & Hn)|[Hf Ej]]; cbn; rewrite Hf; [left; by exists n|right]. by destruct op. Qed.

Lemma in_wait_flags m nsec op cc b v : in_wait faulty m nsec op cc b v →
  f_cc (sv_flags v) = cc ∧ f_err (sv_flags v) = false ∧ f_tc (sv_flags v) = false.
Proof. intros (_ & [(n & -> & _)|[-> _]]); [done|by destruct op]. Qed.

Lemma complete_ok m nsec op c s v :
  host_rep (sd_dev s) v → in_cmd faulty m nsec op CMD_TIME v →
  ∃ r s', kloop 0x500001 (complete_body false false) 0x500000 c s = Ret (inr r) c s' ∧
    ((r.1 = 0 ∧ at_view s (in_wait faulty m nsec op false DATA_TIME) s') ∨ (r.1 = -1 ∧ at_fault s s')).
Proof.
  intros Hr Hc.
  destruct (kloop_rule0 0x500001 (complete_body false false) c (λ k t s1, 0 <= t <= CMD_TIME ∧ k = t + 1 ∧ at_view s (in_cmd faulty m nsec op t) s1)
    (λ r s', (r.1 = 0 ∧ at_view s (in_wait faulty m nsec op false DATA_TIME) s') ∨ (r.1 = -1 ∧ at_fault s s')) 0x500000 s) as (r & s' & E & Hq).
  - clear v Hr Hc. intros k t s1 Hk (Ht & -> & d & v & -> & Hr & Hc). unfold complete_body.
    destruct (poll_ok c (set_dev d s) v Hr) as (x & d1 & v1 & E1 & Htc & (Fc & _ & _ & _ & Fe)%has_flags & Hr1). kstep E1.
    rewrite set_dev_twice, Fc, Fe. destruct (poll_cmd _ _ _ _ _ _ _ Hc Htc) as [Hc1|[Hw|Hx]].
    + pose proof Hc1 as (_ & Hf & n & _ & Hn). rewrite Hf. cbn. destruct (Z.eqb_spec t 0) as [->|].
      * eexists (inr _), _. split; [reflexivity|]. right. split; [done|]. split; [|by exists d1]. destruct Hn as [? Hn]. destruct faulty; [done|]. specialize (Hn eq_refl). lia.
      * eexists (inl _), _. split; [reflexivity|]. unfold CMD_TIME in *. rewrite u32_small by lia. split_and!; [lia..|]. by exists d1, v1.
    + pose proof (in_wait_flags _ _ _ _ _ _ Hw) as (-> & -> & _). kstep (eq_refl : kret (@None Z) c (set_dev d1 s) = Ret None c (set_dev d1 s)).
      destruct (clear_ok INT_CMD_COMPLETE c (set_dev d1 s) v1 Hr1) as (d2 & E2 & Hr2); [done|]. kstep E2.
      eexists (inr _), _. split; [reflexivity|]. left. split; [done|]. eexists d2, _. split_and!; [done|exact Hr2|by apply in_wait_clear].
    + pose proof Hx as (Hf & -> & _). destruct (sd_read_any 4 SD_ERROR_INT_STAT_R c (set_dev d1 s)) as (y & d2 & E2).
      destruct (sd_write_any 1 SD_SW_RST_R 0x2 c (set_dev d2 s)) as (d3 & E3).
      kstep (kbind_ret _ (λ _, kret tt) _ _ _ _ _ E2). rewrite set_dev_twice. kstep E3.
      eexists (inr _), _. split; [reflexivity|]. right. split; [done|]. split; [done|]. by exists d3.
  - unfold CMD_TIME at 1. split_and!; [lia..|]. exists (sd_dev s), v. by destruct s.
  - destruct r as [t|r]; [destruct Hq as (? & ? & _); lia|]. by exists r, s'.
Qed.
(** The controller is idle, without an error, and set up for one sector. *)
Definition set_for (mode : Z) m nsec v : Prop :=
  holds m nsec v ∧ sv_job v = Idle ∧ f_err (sv_flags v) = false ∧ sv_blksize v = 512 ∧ sv_blkcnt v = 1 ∧ sv_mode v = mode.

Definition op_cmd (op : sdop) : Z := match op with OpRead _ => CMD17 | OpWrite _ => CMD24 end.
Definition op_sector (op : sdop) : Z := match op with OpRead sec | OpWrite sec => sec end.
Definition op_mode (op : sdop) : Z := match op with OpRead _ => 0x10 | OpWrite _ => 0 end.

Lemma sd_send_cmd_ok m nsec op c s v :
  host_rep (sd_dev s) v → set_for (op_mode op) m nsec v → 0 <= op_sector op < nsec → nsec <= 2 ^ 32 →
  ∃ r s', sd_send_cmd (op_cmd op) (op_sector op) RESP_48 false false c s = Ret r c s' ∧
    ((r.1 = 0 ∧ at_view s (in_wait faulty m nsec op false DATA_TIME) s') ∨ (r.1 = -1 ∧ at_fault s s')).
Proof.
  intros Hr (Hh & Ej & Ee & Eb & Ec & Em) Hsec Hn. unfold sd_send_cmd.
  destruct (wait_idle_ok c s v Hr Ej) as (d1 & E1 & Hr1). kstep E1.
  destruct (clear_ok 0xFFFFFFFF c (set_dev d1 s) v Hr1) as (d2 & E2 & Hr2); [done|]. kstep E2. rewrite set_dev_twice. set (v2 := set_flags _ v) in Hr2.
  assert (F2 : sv_flags v2 = no_flags) by (unfold v2, no_flags, clear_flags; cbn; by rewrite !andb_false_r).
  destruct (clear_error_ok c (set_dev d2 s) v2 Hr2) as (d3 & E3 & Hr3). kstep E3. rewrite set_dev_twice.
  replace (set_flags (clear_error (sv_flags v2)) v2) with v2 in Hr3 by (rewrite F2; unfold v2 in *; cbn in F2; rewrite F2; by destruct v).
  assert (negb (op_cmd op =? CMD17) && negb (op_cmd op =? CMD24) = false) as -> by (by destruct op).
  kstep (eq_refl : kret tt c (set_dev d3 s) = Ret tt c (set_dev d3 s)).
  destruct (setup_ok 4 SD_ARGUMENT_R (op_sector op) (set_setup (sv_blksize v2) (sv_blkcnt v2) (sv_mode v2) (op_sector op) v2) c (set_dev d3 s) v2 Hr3 ltac:(change (8 * Z.of_nat 4) with 32; lia) Ej) as (d4 & E4 & Hr4);
    [rewrite !elem_of_cons; tauto|]. kstep E4. rewrite set_dev_twice. set (v4 := set_setup _ _ _ _ v2) in Hr4.
  assert (Hcmd : ∀ n, in_time faulty CMD_TIME n → write_step faulty v4 2 0x0E (cmd_reg (op_cmd op) RESP_48) (set_job (Sending n op) v4)).
  { intros n Hn'. destruct Hh as [_ Hs]. apply write_cmd; [done| |done]. destruct op; unfold commands; cbn; rewrite Eb, Ec, Em, Hs; cbn in Hsec; split_and!; try done; try lia;
      [left|right]; done. }
  destruct (sd_write_ok 2 0x0E (cmd_reg (op_cmd op) RESP_48) c (set_dev d4 s) v4 Hr4) as (d5 & v5 & E5 & Hst5 & Hr5);
    [by destruct op|eexists; apply (Hcmd 0); by split|]. kstep E5. rewrite set_dev_twice.
  assert (Hc : in_cmd faulty m nsec op CMD_TIME v5).
  { inversion Hst5 as [| | | |x op' n _ (_ & _ & _ & _ & Hop) Hn' Ex| | | | |]; subst. split; [done|]. split; [exact F2|]. exists n. split; [|done].
    cbn in Hop |- *. rewrite Em in Hop. by destruct op, Hop as [(? & ? & ->)|(? & ? & ->)]. }
  destruct (complete_ok m nsec op c (set_dev d5 s) v5 Hr5 Hc) as (r & s' & E6 & Hq). kstep E6. exists r, s'. by split.
Qed.
(** *** The data port *)

(** The whole sector went through the port. *)
Definition port_done m nsec f st v : Prop :=
  holds m nsec v ∧ sv_flags v = f ∧ ∃ n, sv_job v = Finishing n st ∧ in_time faulty DATA_TIME n.

Definition sector_ok (b : list Z) : Prop := length b = 512%nat ∧ Forall byte b.

Lemma store_word_ok dl off x c s : (off + 4 ≤ length dl)%nat → store_word dl off x c s = Ret (st32 dl off x) c s.
Proof. intros. unfold store_word. by rewrite bool_decide_true. Qed.

Lemma load_word_ok dl off c s : (off + 4 ≤ length dl)%nat → load_word dl off c s = Ret (ld32 dl off) c s.
Proof. intros. unfold load_word. by rewrite bool_decide_true. Qed.

Lemma read_port m nsec f k sec c s v :
  sector_ok (m sec) → host_rep (sd_dev s) v → holds m nsec v → sv_flags v = f → sv_job v = Draining k sec → (k < 128)%nat →
  ∃ d' v', SD_READ_REG32 SD_BUF_DATA_R c s = Ret (ld32 (m sec) (4 * k)) c (set_dev d' s) ∧ host_rep d' v' ∧
    ((k < 127)%nat ∧ holds m nsec v' ∧ sv_flags v' = f ∧ sv_job v' = Draining (S k) sec ∨ k = 127%nat ∧ port_done m nsec f None v').
Proof.
  intros Hm Hr Hh Hf Ej Hk. destruct (sd_read_ok 4 0x20 c s v Hr) as (x & d' & v' & E & Hst & Hr').
  { destruct (decide (k = 127%nat)) as [->|]; eexists _, _; [by apply (read_last faulty v sec 0)|apply (read_data faulty v k sec); [done|lia]]. }
  pose proof Hh as [Hc Hs]. inversion Hst as [| |k' sec' Ej' Hk'|sec' n Ej' Hn]; subst; rewrite Ej in Ej'; injection Ej' as Ek <-; subst.
  - eexists d', _. split_and!; [exact E|exact Hr'|]. by left.
  - eexists d', _. split_and!; [exact E|exact Hr'|]. right. split; [done|]. split_and!; try done. by exists n.
Qed.

Lemma read_words_ok m nsec f sec c n : ∀ k off dl s v,
  sector_ok (m sec) → host_rep (sd_dev s) v → holds m nsec v → sv_flags v = f → sv_job v = Draining k sec →
  (k + S n = 128)%nat → (off + 4 * S n ≤ length dl)%nat →
  ∃ d' v', read_words (S n) off dl c s = Ret (splice dl off (slice (m sec) (4 * k) (4 * S n))) c (set_dev d' s) ∧ host_rep d' v' ∧
    port_done m nsec f None v'.
Proof.
  induction n as [|n IH]; intros k off dl s v Hm Hr Hh Hf Ej Hk Hl; cbn [read_words];
    destruct (read_port m nsec f k sec c s v Hm Hr Hh Hf Ej ltac:(lia)) as (d1 & v1 & E1 & Hr1 & Hc); kstep E1;
    kstep (store_word_ok dl off (ld32 (m sec) (4 * k)) c (set_dev d1 s) ltac:(lia));
    (assert (Es : st32 dl off (ld32 (m sec) (4 * k)) = splice dl off (slice (m sec) (4 * k) 4)) by (unfold st32; rewrite ld32_split; [done|apply Hm|destruct Hm; lia]));
    rewrite Es; clear Es; destruct Hc as [(Hk' & Hh1 & Hf1 & Ej1)|[-> Hd]]; try lia.
  - exists d1, v1. by split_and!.
  - destruct Hm as [Hlen Hb]. assert (Hs : length (slice (m sec) (4 * k) 4) = 4%nat) by (apply length_slice; lia).
    destruct (IH (S k) (off + 4)%nat (splice dl off (slice (m sec) (4 * k) 4)) (set_dev d1 s) v1) as (d2 & v2 & E2 & Hr2 & Hd2); try done; try lia.
    { rewrite length_splice by (rewrite Hs; lia). lia. }
    exists d2, v2. split_and!; [|exact Hr2|exact Hd2]. cbn [read_words] in E2. rewrite E2, set_dev_twice. f_equal.
    replace (4 * S (S n))%nat with (4 + 4 * S n)%nat by lia. rewrite slice_split.
    pose proof (splice_splice dl off (slice (m sec) (4 * k) 4) (slice (m sec) (4 * k + 4) (4 * S n))) as Hsp.
    rewrite Hs, length_slice in Hsp by lia. rewrite <- Hsp by lia. do 2 f_equal. lia.
Qed.

Lemma write_port m nsec f ws x sec c s v :
  host_rep (sd_dev s) v → 0 <= x < 2 ^ 32 → holds m nsec v → sv_flags v = f → sv_job v = Filling ws sec → (length ws < 128)%nat →
  ∃ d' v', SD_WRITE_REG32 SD_BUF_DATA_R x c s = Ret tt c (set_dev d' s) ∧ host_rep d' v' ∧
    ((length ws < 127)%nat ∧ holds m nsec v' ∧ sv_flags v' = f ∧ sv_job v' = Filling (ws ++ [x]) sec ∨
     length ws = 127%nat ∧ port_done m nsec f (Some (sec, word_bytes (ws ++ [x]))) v').
Proof.
  intros Hr Hx Hh Hf Ej Hk. destruct (sd_write_ok 4 0x20 x c s v Hr Hx) as (d' & v' & E & Hst & Hr').
  { destruct (decide (length ws = 127%nat)); eexists; [by apply (write_last faulty v x ws sec 0)|apply (write_data faulty v x ws sec); [done|lia]]. }
  pose proof Hh as [Hc Hs]. exists d', v'. split; [exact E|]. split; [exact Hr'|].
  inversion Hst as [| | | | | | | |x' ws' sec' Ej' Hk'|x' ws' sec' n Ej' Hk' Hn]; subst; rewrite Ej in Ej'; injection Ej' as <- <-; [by left|right].
  split; [done|]. split_and!; try done. by exists n.
Qed.

Lemma word_bytes_snoc ws x : word_bytes (ws ++ [x]) = word_bytes ws ++ le_split 4 x.
Proof. unfold word_bytes. rewrite fmap_app, join_app. cbn [fmap list_fmap mjoin list_join]. by rewrite app_nil_r. Qed.

Lemma write_words_ok m nsec f sec c n : ∀ ws off dl s v,
  host_rep (sd_dev s) v → holds m nsec v → sv_flags v = f → sv_job v = Filling ws sec →
  (length ws + S n = 128)%nat → (off + 4 * S n ≤ length dl)%nat → Forall byte dl →
  ∃ d' v', write_words (S n) off dl c s = Ret tt c (set_dev d' s) ∧ host_rep d' v' ∧
    port_done m nsec f (Some (sec, word_bytes ws ++ slice dl off (4 * S n))) v'.
Proof.
  induction n as [|n IH]; intros ws off dl s v Hr Hh Hf Ej Hk Hl Hb; cbn [write_words];
    kstep (load_word_ok dl off c s ltac:(lia)); pose proof (ld32_range dl off Hb ltac:(lia)) as Hx;
    destruct (write_port m nsec f ws (ld32 dl off) sec c s v Hr Hx Hh Hf Ej ltac:(lia)) as (d1 & v1 & E1 & Hr1 & Hc); kstep E1;
    (assert (Es : word_bytes (ws ++ [ld32 dl off]) = word_bytes ws ++ slice dl off 4)
       by (rewrite word_bytes_snoc; f_equal; rewrite <- (u32_small (ld32 dl off)) by done; apply ld32_split; [done|lia]));
    rewrite Es in Hc; destruct Hc as [(Hk' & Hh1 & Hf1 & Ej1)|[? Hd]]; try lia.
  - exists d1, v1. by split_and!.
  - destruct (IH (ws ++ [ld32 dl off]) (off + 4)%nat dl (set_dev d1 s) v1) as (d2 & v2 & E2 & Hr2 & Hd2); try done; try lia.
    { rewrite length_app. cbn. lia. }
    exists d2, v2. split_and!; [exact E2|exact Hr2|]. rewrite Es, <- app_assoc, <- slice_split in Hd2.
    by replace (4 * S (S n))%nat with (4 + 4 * S n)%nat by lia.
Qed.
(** *** Sectors *)

Definition sd_ready m nsec v : Prop := holds m nsec v ∧ sv_job v = Idle ∧ f_err (sv_flags v) = false.

Lemma setup_sector mode m nsec c s v :
  host_rep (sd_dev s) v → sd_ready m nsec v → 0 <= mode < 2 ^ 16 →
  ∃ d' v', (∀ A (k : M (sdsys D) A),
      (SD_WRITE_REG16 SD_BLOCKSIZE_R 512 ;;; SD_WRITE_REG16 SD_BLOCKCOUNT_R 1 ;;; SD_WRITE_REG16 SD_XFER_MODE_R mode ;;; k) c s = k c (set_dev d' s)) ∧
    host_rep d' v' ∧ set_for mode m nsec v'.
Proof.
  intros Hr (Hh & Ej & Ee) Hm.
  destruct (setup_ok 2 SD_BLOCKSIZE_R 512 (set_setup 512 (sv_blkcnt v) (sv_mode v) (sv_arg v) v) c s v Hr) as (d1 & E1 & Hr1); [lia|done|rewrite !elem_of_cons; tauto|].
  set (v1 := set_setup _ _ _ _ v) in Hr1.
  destruct (setup_ok 2 SD_BLOCKCOUNT_R 1 (set_setup (sv_blksize v1) 1 (sv_mode v1) (sv_arg v1) v1) c (set_dev d1 s) v1 Hr1) as (d2 & E2 & Hr2);
    [lia|done|rewrite !elem_of_cons; tauto|].
  set (v2 := set_setup _ _ _ _ v1) in Hr2.
  destruct (setup_ok 2 SD_XFER_MODE_R mode (set_setup (sv_blksize v2) (sv_blkcnt v2) mode (sv_arg v2) v2) c (set_dev d2 s) v2 Hr2) as (d3 & E3 & Hr3);
    [change (8 * Z.of_nat 2) with 16; lia|done|rewrite !elem_of_cons; tauto|].
  eexists d3, _. split; [|split; [exact Hr3|by split_and!]]. intros A k. kstep E1. kstep E2. rewrite set_dev_twice. kstep E3. by rewrite set_dev_twice.
Qed.

(** A poll while the buffer is awaited, and one while the end of the transfer is awaited. *)

Definition still m nsec op b v : Prop :=
  holds m nsec v ∧ ∃ n, sv_flags v = no_flags ∧ sv_job v = start_job op n ∧ in_time faulty b n.
Definition served m nsec op v : Prop :=
  holds m nsec v ∧ sv_flags v = raise_ready op no_flags ∧ sv_job v = serve_job op.

Lemma wait_poll m nsec op b c s v :
  host_rep (sd_dev s) v → in_wait faulty m nsec op false b v →
  ∃ x d' v', SD_READ_REG32 SD_NORMAL_INT_STAT_R c s = Ret x c (set_dev d' s) ∧ host_rep d' v' ∧ shows (sv_flags v') x ∧
    (still m nsec op (b - 1) v' ∨ served m nsec op v' ∨ failed faulty v').
Proof.
  intros Hr Hw. destruct (poll_ok c s v Hr) as (x & d' & v' & E & Ht & Hx & Hr'). exists x, d', v'. split_and!; try done.
  destruct (poll_wait _ _ _ _ _ _ _ _ Hw Ht) as [(Hh & [Hn|Hs])|Hf]; [left|right; left|by right; right]; by split.
Qed.

Lemma finish_poll m nsec st b c s v :
  host_rep (sd_dev s) v → in_fin faulty m nsec st b v →
  ∃ x d' v', SD_READ_REG32 SD_NORMAL_INT_STAT_R c s = Ret x c (set_dev d' s) ∧ host_rep d' v' ∧ shows (sv_flags v') x ∧
    (in_fin faulty m nsec st (b - 1) v' ∨ finished (store_sector st m) nsec v' ∨ failed faulty v').
Proof.
  intros Hr Hw. destruct (poll_ok c s v Hr) as (x & d' & v' & E & Ht & Hx & Hr'). exists x, d', v'. split_and!; try done.
  by eapply poll_fin.
Qed.

(** [k] iterations suffice for both waits. *)
Definition loop_time (k : Z) : Prop := faulty = false → DATA_TIME + 2 <= k.

Lemma read_phase m nsec sec c s off dl (ds := splice dl off (m sec)) :
  sector_ok (m sec) → (off + 512 ≤ length dl)%nat →
  ∀ k st s1, 0 < k →
  ((st = (off, dl) ∧ loop_time k ∧ at_view s (in_wait faulty m nsec (OpRead sec) false (k - DATA_TIME - 2)) s1) ∨
   (st = ((off + 512)%nat, ds) ∧ at_view s (in_fin faulty m nsec None (k - 1)) s1)) →
  ∃ r s', read_body st c s1 = Ret r c s' ∧
  match r with
  | inl st' =>
    (st' = (off, dl) ∧ loop_time (k - 1) ∧ at_view s (in_wait faulty m nsec (OpRead sec) false (k - 1 - DATA_TIME - 2)) s') ∨
    (st' = ((off + 512)%nat, ds) ∧ at_view s (in_fin faulty m nsec None (k - 1 - 1)) s')
  | inr a => (a = (0, ds) ∧ at_view s (sd_ready m nsec) s') ∨ (a.1 = -1 ∧ at_fault s s')
  end.
Proof.
  intros Hm Hl k st s1 Hk [(-> & Hlt & d & v & -> & Hr & Hw)|(-> & d & v & -> & Hr & Hw)]; unfold read_body.
  - destruct (wait_poll _ _ _ _ c (set_dev d s) v Hr Hw) as (x & d1 & v1 & E1 & Hr1 & (_ & Ft & _ & Fr & Fe)%has_flags & Hc). kstep E1.
    rewrite set_dev_twice, Fe, Fr, Ft. destruct Hc as [(Hh & n & Hf & Ej & Hn)|[(Hh & Hf & Ej)|Hx]].
    + rewrite Hf. cbn. eexists (inl _), _. split; [reflexivity|]. left. split; [done|]. split.
      * intros Hfa. destruct Hn as [? Hn]. specialize (Hn Hfa). lia.
      * exists d1, v1. split; [done|]. split; [done|]. split; [done|]. left. exists n. split; [done|]. split; [done|]. by apply (in_time_weaken _ (k - DATA_TIME - 2 - 1)); [lia|].
    + rewrite Hf. cbn [raise_ready raise_rd no_flags f_err f_rd f_tc].
      destruct (read_words_ok m nsec _ sec c 127 0 off dl (set_dev d1 s) v1 Hm Hr1 Hh Hf Ej eq_refl Hl) as (d2 & v2 & E2 & Hr2 & Hh2 & Hf2 & n & Ej2 & Hn2).
      destruct (clear_ok INT_BUF_READ_RDY c (set_dev d2 s) v2 Hr2) as (d3 & E3 & Hr3); [done|].
      assert (Ein : (do d' <- read_words 128 off dl; SD_WRITE_REG32 SD_NORMAL_INT_STAT_R INT_BUF_READ_RDY ;;; kret ((off + 512)%nat, d')) c (set_dev d1 s) =
        Ret ((off + 512)%nat, ds) c (set_dev d3 s)).
      { kstep E2. rewrite set_dev_twice. kstep E3. unfold ds. rewrite (slice_all (m sec)) by (destruct Hm; lia). done. }
      kstep Ein. eexists (inl _), _. split; [reflexivity|]. right. split; [done|]. eexists d3, _. split; [done|]. split; [exact Hr3|].
      split; [exact Hh2|]. cbn. rewrite Hf2. split; [done|]. exists n. split; [done|]. split; [by destruct Hn2|].
      intros Hfa. destruct Hn2 as [_ Hn2]. specialize (Hn2 Hfa). specialize (Hlt Hfa). lia.
    + destruct Hx as (Hfa & -> & _). eexists (inr _), _. split; [reflexivity|]. right. split; [done|]. split; [done|]. by exists d1.
  - destruct (finish_poll _ _ _ _ c (set_dev d s) v Hr Hw) as (x & d1 & v1 & E1 & Hr1 & (_ & Ft & _ & Fr & Fe)%has_flags & Hc). kstep E1.
    rewrite set_dev_twice, Fe, Fr, Ft. destruct Hc as [Hi|[(Hh & Hf & Ej)|Hx]].
    + pose proof Hi as (_ & -> & _). eexists (inl _), _. split; [reflexivity|]. right. split; [done|]. by exists d1, v1.
    + rewrite Hf. cbn [raise_tc no_flags f_err f_rd f_tc]. kstep (eq_refl : kret ((off + 512)%nat, ds) c (set_dev d1 s) = Ret _ _ _).
      destruct (clear_ok INT_XFER_COMPLETE c (set_dev d1 s) v1 Hr1) as (d2 & E2 & Hr2); [done|]. kstep E2.
      eexists (inr _), _. split; [reflexivity|]. left. split; [done|]. eexists d2, _. split; [done|]. split; [exact Hr2|]. split; [exact Hh|]. split; [exact Ej|]. cbn. by rewrite Hf.
    + destruct Hx as (Hfa & -> & _). eexists (inr _), _. split; [reflexivity|]. right. split; [done|]. split; [done|]. by exists d1.
Qed.

Lemma write_phase m nsec sec c s off dl (st := Some (sec, slice dl off 512)) :
  (off + 512 ≤ length dl)%nat → Forall byte dl →
  ∀ k o s1, 0 < k →
  ((o = off ∧ loop_time k ∧ at_view s (in_wait faulty m nsec (OpWrite sec) false (k - DATA_TIME - 2)) s1) ∨
   (o = (off + 512)%nat ∧ at_view s (in_fin faulty m nsec st (k - 1)) s1)) →
  ∃ r s', write_body dl o c s1 = Ret r c s' ∧
  match r with
  | inl o' =>
    (o' = off ∧ loop_time (k - 1) ∧ at_view s (in_wait faulty m nsec (OpWrite sec) false (k - 1 - DATA_TIME - 2)) s') ∨
    (o' = (off + 512)%nat ∧ at_view s (in_fin faulty m nsec st (k - 1 - 1)) s')
  | inr a => (a = 0 ∧ at_view s (sd_ready (store_sector st m) nsec) s') ∨ (a = -1 ∧ at_fault s s')
  end.
Proof.
  intros Hl Hb k o s1 Hk [(-> & Hlt & d & v & -> & Hr & Hw)|(-> & d & v & -> & Hr & Hw)]; unfold write_body.
  - destruct (wait_poll _ _ _ _ c (set_dev d s) v Hr Hw) as (x & d1 & v1 & E1 & Hr1 & (_ & Ft & Fr & _ & Fe)%has_flags & Hc). kstep E1.
    rewrite set_dev_twice, Fe, Fr, Ft. destruct Hc as [(Hh & n & Hf & Ej & Hn)|[(Hh & Hf & Ej)|Hx]].
    + rewrite Hf. cbn. eexists (inl _), _. split; [reflexivity|]. left. split; [done|]. split.
      * intros Hfa. destruct Hn as [? Hn]. specialize (Hn Hfa). lia.
      * exists d1, v1. split; [done|]. split; [done|]. split; [done|]. left. exists n. split; [done|]. split; [done|]. by apply (in_time_weaken _ (k - DATA_TIME - 2 - 1)); [lia|].
    + rewrite Hf. cbn [raise_ready raise_wr no_flags f_err f_wr f_tc].
      destruct (write_words_ok m nsec _ sec c 127 [] off dl (set_dev d1 s) v1 Hr1 Hh Hf Ej eq_refl Hl Hb) as (d2 & v2 & E2 & Hr2 & Hh2 & Hf2 & n & Ej2 & Hn2).
      destruct (clear_ok INT_BUF_WRITE_RDY c (set_dev d2 s) v2 Hr2) as (d3 & E3 & Hr3); [done|].
      assert (Ein : (write_words 128 off dl ;;; SD_WRITE_REG32 SD_NORMAL_INT_STAT_R INT_BUF_WRITE_RDY ;;; kret (off + 512)%nat) c (set_dev d1 s) =
        Ret (off + 512)%nat c (set_dev d3 s)) by (kstep E2; rewrite set_dev_twice; by kstep E3).
      kstep Ein. eexists (inl _), _. split; [reflexivity|]. right. split; [done|]. eexists d3, _. split; [done|]. split; [exact Hr3|].
      split; [exact Hh2|]. cbn. rewrite Hf2. split; [done|]. exists n. split; [exact Ej2|]. split; [by destruct Hn2|].
      intros Hfa. destruct Hn2 as [_ Hn2]. specialize (Hn2 Hfa). specialize (Hlt Hfa). lia.
    + destruct Hx as (Hfa & -> & _). eexists (inr _), _. split; [reflexivity|]. right. split; [done|]. split; [done|]. by exists d1.
  - destruct (finish_poll _ _ _ _ c (set_dev d s) v Hr Hw) as (x & d1 & v1 & E1 & Hr1 & (_ & Ft & Fr & _ & Fe)%has_flags & Hc). kstep E1.
    rewrite set_dev_twice, Fe, Fr, Ft. destruct Hc as [Hi|[(Hh & Hf & Ej)|Hx]].
    + pose proof Hi as (_ & -> & _). eexists (inl _), _. split; [reflexivity|]. right. split; [done|]. by exists d1, v1.
    + rewrite Hf. cbn [raise_tc no_flags f_err f_wr f_tc]. kstep (eq_refl : kret (off + 512)%nat c (set_dev d1 s) = Ret _ _ _).
      destruct (clear_ok INT_XFER_COMPLETE c (set_dev d1 s) v1 Hr1) as (d2 & E2 & Hr2); [done|]. kstep E2.
      eexists (inr _), _. split; [reflexivity|]. left. split; [done|]. eexists d2, _. split; [done|]. split; [exact Hr2|]. split; [exact Hh|]. split; [exact Ej|]. cbn. by rewrite Hf.
    + destruct Hx as (Hfa & -> & _). eexists (inr _), _. split; [reflexivity|]. right. split; [done|]. split; [done|]. by exists d1.
Qed.

(** A loop that ran to its end waited for a faulty device. *)
Lemma loop_end m nsec st P s s1 :
  (loop_time 0 ∧ at_view s P s1) ∨ at_view s (in_fin faulty m nsec st (0 - 1)) s1 → at_fault s s1.
Proof.
  intros [(Hlt & d & v & -> & _)|(d & v & -> & _ & _ & _ & n & _ & [? Hn])]; (split; [|by exists d]); apply not_false_is_true; intros Hfa.
  - by specialize (Hlt Hfa).
  - specialize (Hn Hfa). lia.
Qed.

Lemma loop_start : loop_time 0xFFFFFFF ∧ DATA_TIME <= 0xFFFFFFF - DATA_TIME - 2.
Proof. done. Qed.

Lemma sd_read_sector_ok m nsec sec off dl c s v :
  host_rep (sd_dev s) v → sd_ready m nsec v → sector_ok (m sec) → 0 <= sec < nsec → nsec <= 2 ^ 32 → (off + 512 ≤ length dl)%nat →
  ∃ r s', sd_read_sector sec off dl c s = Ret r c s' ∧
    ((r = (0, splice dl off (m sec)) ∧ at_view s (sd_ready m nsec) s') ∨ (r.1 < 0 ∧ at_fault s s')).
Proof.
  intros Hr Hv Hm Hsec Hn Hl. unfold sd_read_sector.
  destruct (setup_sector 0x10 m nsec c s v Hr Hv ltac:(lia)) as (d1 & v1 & E1 & Hr1 & Hv1). rewrite E1. clear E1.
  destruct (sd_send_cmd_ok m nsec (OpRead sec) c (set_dev d1 s) v1 Hr1 Hv1 Hsec Hn) as (r & s2 & E2 & Hc). kstep E2.
  destruct Hc as [(-> & d2 & v2 & -> & Hr2 & Hw)|(-> & Hf & d2 & ->)]; cbn [Z.ltb Z.compare].
  - rewrite set_dev_twice. destruct loop_start as [L1 L2].
    destruct (kloop_rule0 0xFFFFFFF read_body c (λ k st s1,
       (st = (off, dl) ∧ loop_time k ∧ at_view s (in_wait faulty m nsec (OpRead sec) false (k - DATA_TIME - 2)) s1) ∨
       (st = ((off + 512)%nat, splice dl off (m sec)) ∧ at_view s (in_fin faulty m nsec None (k - 1)) s1))
       (λ a s', (a = (0, splice dl off (m sec)) ∧ at_view s (sd_ready m nsec) s') ∨ (a.1 = -1 ∧ at_fault s s')) (off, dl) (set_dev d2 s)) as (x & s3 & E3 & Hq).
    + by apply read_phase.
    + left. split; [done|]. split; [done|]. exists d2, v2. split; [done|]. split; [done|]. by apply (in_wait_weaken _ _ _ _ _ DATA_TIME).
    + kstep E3. destruct x as [st|a]; (eexists _, _; split; [reflexivity|]).
      * right. split; [done|]. eapply (loop_end m nsec None). destruct Hq as [(_ & ?)|[_ ?]]; [by left|by right].
      * destruct Hq as [?|[-> ?]]; [by left|right; split; [lia|done]].
  - eexists _, _. split; [reflexivity|]. right. split; [done|]. split; [done|]. by exists d2.
Qed.

Lemma sd_write_sector_ok m nsec sec off dl c s v :
  host_rep (sd_dev s) v → sd_ready m nsec v → 0 <= sec < nsec → nsec <= 2 ^ 32 → (off + 512 ≤ length dl)%nat → Forall byte dl →
  ∃ r s', sd_write_sector sec off dl c s = Ret r c s' ∧
    ((r = 0 ∧ at_view s (sd_ready (<[sec:=slice dl off 512]> m) nsec) s') ∨ (r < 0 ∧ at_fault s s')).
Proof.
  intros Hr Hv Hsec Hn Hl Hb. unfold sd_write_sector.
  destruct (setup_sector 0x00 m nsec c s v Hr Hv ltac:(lia)) as (d1 & v1 & E1 & Hr1 & Hv1). rewrite E1. clear E1.
  destruct (sd_send_cmd_ok m nsec (OpWrite sec) c (set_dev d1 s) v1 Hr1 Hv1 Hsec Hn) as (r & s2 & E2 & Hc). kstep E2.
  destruct Hc as [(-> & d2 & v2 & -> & Hr2 & Hw)|(-> & Hf & d2 & ->)]; cbn [Z.ltb Z.compare].
  - rewrite set_dev_twice. destruct loop_start as [L1 L2]. set (st := Some (sec, slice dl off 512)).
    destruct (kloop_rule0 0xFFFFFFF (write_body dl) c (λ k o s1,
       (o = off ∧ loop_time k ∧ at_view s (in_wait faulty m nsec (OpWrite sec) false (k - DATA_TIME - 2)) s1) ∨
       (o = (off + 512)%nat ∧ at_view s (in_fin faulty m nsec st (k - 1)) s1))
       (λ a s', (a = 0 ∧ at_view s (sd_ready (store_sector st m) nsec) s') ∨ (a = -1 ∧ at_fault s s')) off (set_dev d2 s)) as (x & s3 & E3 & Hq).
    + by apply write_phase.
    + left. split; [done|]. split; [done|]. exists d2, v2. split; [done|]. split; [done|]. by apply (in_wait_weaken _ _ _ _ _ DATA_TIME).
    + kstep E3. destruct x as [o|a]; (eexists _, _; split; [reflexivity|]).
      * right. split; [done|]. eapply (loop_end m nsec st). destruct Hq as [(_ & ?)|[_ ?]]; [by left|by right].
      * destruct Hq as [?|[-> ?]]; [by left|right; split; [lia|done]].
  - eexists _, _. split; [reflexivity|]. right. split; [done|]. split; [done|]. by exists d2.
Qed.

(** ** Blocks *)

(** The card shows the sectors [m]. *)
Definition card_at s m nsec : Prop := ∃ v, host_rep (sd_dev s) v ∧ sd_ready m nsec v.

Lemma sd_sectors_step m nsec n i start write dl c s :
  card_at s m nsec → (∀ sec, 0 <= sec < nsec → sector_ok (m sec)) → nsec <= 2 ^ 32 → 0 <= i → 0 <= start → start + i < nsec →
  (Z.to_nat (i * 512) + 512 ≤ length dl)%nat → Forall byte dl → LK_sd ∈ held c →
  (faulty = true ∧ sd_sectors (S n) i start write dl c s = Panic "sd_disk_rw") ∨
  ∃ d', sd_sectors (S n) i start write dl c s =
      sd_sectors n (i + 1) start write (if write : bool then dl else splice dl (Z.to_nat (i * 512)) (m (start + i))) c (set_dev d' s) ∧
    card_at (set_dev d' s) (if write then <[start + i := slice dl (Z.to_nat (i * 512)) 512]> m else m) nsec.
Proof.
  intros (v & Hr & Hv) Hm Hn Hi Hs Hlt Hl Hb Hk. cbn [sd_sectors]. rewrite u32_small by lia.
  assert (Hp : ∀ s1, (release LK_sd ;;; panic "sd_disk_rw" : M (sdsys D) (list Z)) c s1 = Panic "sd_disk_rw").
  { intros s1. unfold release, kbind. by rewrite decide_True by done. }
  destruct write.
  - destruct (sd_write_sector_ok m nsec (start + i) (Z.to_nat (i * 512)) dl c s v Hr Hv ltac:(lia) Hn Hl Hb) as (r & s1 & E & Hc).
    rewrite kbind_assoc. kstep E. destruct Hc as [(-> & d' & v' & -> & Hr' & Hv')|(Hneg & Hf & _)].
    + right. exists d'. split; [done|]. by exists v'.
    + left. split; [done|]. kstep (eq_refl : kret (r, dl) c s1 = Ret (r, dl) c s1). cbn [fst]. rewrite (proj2 (Z.eqb_neq r 0)) by lia. by apply Hp.
  - destruct (sd_read_sector_ok m nsec (start + i) (Z.to_nat (i * 512)) dl c s v Hr Hv ltac:(apply Hm; lia) ltac:(lia) Hn Hl) as (r & s1 & E & Hc).
    kstep E. destruct Hc as [(-> & d' & v' & -> & Hr' & Hv')|(Hneg & Hf & _)].
    + right. exists d'. split; [done|]. by exists v'.
    + left. split; [done|]. rewrite (proj2 (Z.eqb_neq r.1 0)) by lia. by apply Hp.
Qed.

(** The block of the buffer cache at [off], and the card after it is written. *)
Definition sd_block (off : Z) (m : Z → list Z) (bn : Z) : block := m (2 * bn + off) ++ m (2 * bn + off + 1).
Definition sd_put (off bn : Z) (b : block) (m : Z → list Z) : Z → list Z :=
  <[2 * bn + off + 1 := slice b 512 512]> (<[2 * bn + off := slice b 0 512]> m).

(** A block inside the card, sectors of 512 bytes, and the spin lock free. *)
Record disk_pre c s m nsec bn (b : block) : Prop := {
  dp_lock : LK_sd ∉ held c;
  dp_card : card_at s m nsec;
  dp_sectors : ∀ sec, 0 <= sec < nsec → sector_ok (m sec);
  dp_size : nsec <= 2 ^ 32;
  dp_offset : 0 <= fat32_offset_sector s;
  dp_block : 0 <= bn ∧ 2 * bn + fat32_offset_sector s + 1 < nsec;
  dp_len : length b = bsize;
  dp_bytes : Forall byte b
}.

Lemma sd_disk_rw_ok c s m nsec bn data write :
  disk_pre c s m nsec bn data →
  let off := fat32_offset_sector s in
  (faulty = true ∧ sd_disk_rw bn data write c s = Panic "sd_disk_rw") ∨
  ∃ d', sd_disk_rw bn data write c s = Ret (if write then data else sd_block off m bn) c (set_dev d' s) ∧
    card_at (set_dev d' s) (if write then sd_put off bn data m else m) nsec.
Proof.
  intros [Hk Hc Hm Hn Ho [Hb0 Hb1] Hl Hby] off. unfold sd_disk_rw. change (negb (BSIZE mod 512 =? 0)) with false. change (BSIZE / 512) with 2.
  cbn [negb]. kstep (eq_refl : kgets fat32_offset_sector c s = Ret off c s). rewrite (u32_small (bn * 2)), u32_small by (unfold off; lia).
  set (start := bn * 2 + off). assert (Est : start = 2 * bn + off) by (unfold start; lia). clearbody start. subst start. fold off in Hb1.
  kstep (acquire_ret LK_sd c s Hk). set (c1 := set_held (LK_sd :: held c) c). assert (Hk1 : LK_sd ∈ held c1) by (cbn; left).
  change (Z.to_nat 2) with 2%nat. change bsize with 1024%nat in Hl.
  destruct (sd_sectors_step m nsec 1 0 (2 * bn + off) write data c1 s Hc Hm Hn ltac:(lia) ltac:(unfold off; lia) ltac:(lia)
    ltac:(change (Z.to_nat (0 * 512)) with 0%nat; lia) Hby Hk1) as [(Hf & E)|(d1 & E & Hc1)].
  { left. split; [done|]. by rewrite (kbind_panic _ _ _ _ _ E). }
  rewrite Z.add_0_r in E, Hc1. change (Z.to_nat (0 * 512)) with 0%nat in E, Hc1. change (0 + 1) with 1 in E.
  set (data1 := if write then data else splice data 0 (m (2 * bn + off))).
  change (sd_sectors 2 0 (2 * bn + off) write data c1 s = sd_sectors 1 1 (2 * bn + off) write data1 c1 (set_dev d1 s)) in E.
  set (m1 := if write then <[2 * bn + off := slice data 0 512]> m else m) in Hc1.
  destruct (Hm (2 * bn + off)) as [El Eb]; [lia|].
  assert (Hd1 : length data1 = 1024%nat ∧ Forall byte data1).
  { unfold data1. destruct write; [done|]. split; [rewrite length_splice; lia|]. unfold splice.
    rewrite !Forall_app. split_and!; [by apply Forall_take|done|by apply Forall_drop]. }
  assert (Hm1 : ∀ sec, 0 <= sec < nsec → sector_ok (m1 sec)).
  { intros sec Hsec. unfold m1. destruct write; [|by apply Hm]. fsplit; [|by apply Hm]. split; [apply length_slice; lia|by apply Forall_slice]. }
  destruct (sd_sectors_step m1 nsec 0 1 (2 * bn + off) write data1 c1 (set_dev d1 s) Hc1 Hm1 Hn ltac:(lia) ltac:(unfold off; lia) ltac:(lia)
    ltac:(change (Z.to_nat (1 * 512)) with 512%nat; lia) (proj2 Hd1) Hk1) as [(Hf & E')|(d2 & E' & Hc2)]; rewrite E' in E; clear E'.
  { left. split; [done|]. by rewrite (kbind_panic _ _ _ _ _ E). }
  change (Z.to_nat (1 * 512)) with 512%nat in *. rewrite set_dev_twice in E, Hc2. right. exists d2. kstep E. kstep (release_head LK_sd (held c) c1 (set_dev d2 s) eq_refl).
  split; [|by destruct write]. assert (set_held (held c) c1 = c) as -> by (by destruct c). unfold kret. f_equal.
  unfold data1, m1. destruct write; [done|]. destruct (Hm (2 * bn + off + 1)) as [El1 _]; [lia|]. unfold sd_block.
  pose proof (splice_splice data 0 (m (2 * bn + off)) (m (2 * bn + off + 1))) as Hsp. rewrite El, El1, Nat.add_0_l in Hsp. rewrite Hsp by lia.
  unfold splice. rewrite take_0, drop_ge by (rewrite length_app; lia). by rewrite app_nil_r.
Qed.

Lemma sd_put_ok off bn b m nsec :
  (∀ sec, 0 <= sec < nsec → sector_ok (m sec)) → length b = bsize → Forall byte b →
  ∀ sec, 0 <= sec < nsec → sector_ok (sd_put off bn b m sec).
Proof.
  intros Hm Hl Hb sec Hsec. change bsize with 1024%nat in Hl. unfold sd_put.
  fsplit; [split; [apply length_slice; lia|by apply Forall_slice]..|by apply Hm].
Qed.

Lemma sd_block_put off bn bn' b m : length b = bsize →
  sd_block off (sd_put off bn b m) bn' = if decide (bn' = bn) then b else sd_block off m bn'.
Proof.
  intros Hl. change bsize with 1024%nat in Hl. unfold sd_block, sd_put. case_decide as E; [subst bn'|].
  - rewrite fn_lookup_insert, fn_lookup_insert_ne, fn_lookup_insert by lia.
    transitivity (slice b 0 (512 + 512)); [by rewrite slice_split|apply slice_all; lia].
  - by rewrite !fn_lookup_insert_ne by lia.
Qed.
End transfers.

(** ** Theorems *)


(** On a device without faults a block written through the driver is read back, and the other blocks keep their contents. *)
Theorem sd_write_then_read {D} `{SdHost false D} `{!SplitStores D} c (s : sdsys D) m nsec bn bn' data data' :
  disk_pre (faulty := false) c s m nsec bn data → disk_pre (faulty := false) c s m nsec bn' data' →
  ∃ s1 s2, sd_disk_rw bn data true c s = Ret data c s1 ∧
    sd_disk_rw bn' data' false c s1 = Ret (if decide (bn' = bn) then data else sd_block (fat32_offset_sector s) m bn') c s2.
Proof.
  intros Hp Hp'. destruct (sd_disk_rw_ok c s m nsec bn data true Hp) as [[? _]|(d1 & E1 & Hc1)]; [done|]. exists (set_dev d1 s).
  destruct Hp as [_ _ Hm _ _ _ Hl Hb].
  destruct (sd_disk_rw_ok c (set_dev d1 s) (sd_put (fat32_offset_sector s) bn data m) nsec bn' data' false) as [[? _]|(d2 & E2 & _)]; [|done|].
  { destruct Hp'. split; try done. by apply sd_put_ok. }
  exists (set_dev d2 s). split; [done|]. rewrite E2. f_equal. by apply sd_block_put.
Qed.

(** When the card becomes ready on the last of the 5000 attempts, the loop ends with [retry] 0, which [sd_init] takes for a failure. *)
Lemma acmd41_last_try {D} `{SdBus D} (R : Z → sdsys D → Prop) c s :
  (∀ k s, 1 < k → R k s → ∃ s', acmd41_body k c s = Ret (inl (k - 1)) c s' ∧ R (k - 1) s') →
  (∀ s, R 1 s → ∃ s', acmd41_body 1 c s = Ret (inr 0) c s') →
  R 5000 s → ∃ s', acmd41_loop c s = Ret 0 c s'.
Proof.
  intros H1 H2 Hr. unfold acmd41_loop.
  destruct (kloop_rule0 5000 acmd41_body c (λ k t s, 0 < k ∧ t = k ∧ R k s) (λ a _, a = 0) 5000 s) as (r & s' & E & Hq).
  - intros k t s1 Hk (_ & -> & Hr1). destruct (decide (k = 1)) as [->|].
    + destruct (H2 s1 Hr1) as (s2 & E2). exists (inr 0), s2. by split.
    + destruct (H1 k s1 ltac:(lia) Hr1) as (s2 & E2 & Hr2). exists (inl (k - 1)), s2. split_and!; try done. lia.
  - split_and!; [lia|done|done].
  - kstep E. destruct r as [t|a]; [lia|]. subst a. by exists s'.
Qed.

(** ** Witness: a controller with fixed delays *)

Definition flags_value (f : sdflags) : Z :=
  Z.b2z (f_cc f) + 2 * Z.b2z (f_tc f) + 16 * Z.b2z (f_wr f) + 32 * Z.b2z (f_rd f) + 32768 * Z.b2z (f_err f).

Definition demo_tick (v : sdview) : sdview :=
  match sv_job v with
  | Sending n op => if 0 <? n then set_job (Sending (n - 1) op) v else set_flags (raise_cc (sv_flags v)) (set_job (start_job op 1) v)
  | Fetching n sec => if 0 <? n then set_job (Fetching (n - 1) sec) v else set_flags (raise_rd (sv_flags v)) (set_job (Draining 0 sec) v)
  | Asking n sec => if 0 <? n then set_job (Asking (n - 1) sec) v else set_flags (raise_wr (sv_flags v)) (set_job (Filling [] sec) v)
  | Finishing n st => if 0 <? n then set_job (Finishing (n - 1) st) v
      else set_flags (raise_tc (sv_flags v)) (set_job Idle (set_card (store_sector st (sv_card v)) v))
  | _ => v
  end.

Definition demo_read (w : nat) (off : Z) (v : sdview) : Z * sdview :=
  if off =? 0x30 then (flags_value (sv_flags (demo_tick v)), demo_tick v)
  else if off =? 0x20 then
    match sv_job v with
    | Draining k sec => (ld32 (sv_card v sec) (4 * k), set_job (if bool_decide (k < 127)%nat then Draining (S k) sec else Finishing 1 None) v)
    | _ => (0, v)
    end
  else (match sv_job v with Idle => 0 | _ => 1 end, v).

Definition demo_write (w : nat) (off x : Z) (v : sdview) : sdview :=
  if off =? 0x04 then set_setup x (sv_blkcnt v) (sv_mode v) (sv_arg v) v
  else if off =? 0x06 then set_setup (sv_blksize v) x (sv_mode v) (sv_arg v) v
  else if off =? 0x0C then set_setup (sv_blksize v) (sv_blkcnt v) x (sv_arg v) v
  else if off =? 0x08 then set_setup (sv_blksize v) (sv_blkcnt v) (sv_mode v) x v
  else if off =? 0x0E then
    set_job (Sending 2 (if Z.shiftr x 8 =? 17 then OpRead (sv_arg v) else OpWrite (sv_arg v))) v
  else if off =? 0x30 then set_flags (clear_flags x (sv_flags v)) v
  else if off =? 0x32 then set_flags (clear_error (sv_flags v)) v
  else if off =? 0x20 then
    match sv_job v with
    | Filling ws sec =>
        set_job (if bool_decide (length ws < 127)%nat then Filling (ws ++ [x]) sec else Finishing 1 (Some (sec, word_bytes (ws ++ [x])))) v
    | _ => v
    end
  else v.

#[global] Instance demo_bus : SdBus sdview := { bus_read := demo_read; bus_write := demo_write }.

Definition demo_ok (v : sdview) : Prop :=
  (∀ sec, sector_ok (sv_card v sec)) ∧ match sv_job v with Finishing _ (Some (_, b)) => sector_ok b | _ => True end.

Lemma flags_value_ok f : shows f (flags_value f) ∧ 0 <= flags_value f < 2 ^ 32.
Proof. destruct f as [a b c d e]. destruct a, b, c, d, e; by split_and!. Qed.

Lemma demo_tick_ok v : demo_ok v → tick false v (demo_tick v) ∧ demo_ok (demo_tick v).
Proof.
  intros [Hc Hj]. unfold tick, demo_tick, waits, demo_ok. destruct (sv_job v) as [|n op|n sec|k sec|n sec|ws sec|n st|] eqn:Ej; rewrite ?Ej; try done;
    destruct (Z.ltb_spec 0 n) as [Hn|Hn]; cbn; split; eauto.
  - right. left. split; [done|]. exists 1. by split; [split|].
  - split; [done|]. by destruct op.
  - split; [|done]. intros x. destruct st as [[y b]|]; cbn; [fsplit; done|done].
Qed.

Lemma word_bytes_ok ws : length ws = 128%nat → sector_ok (word_bytes ws).
Proof.
  intros Hl. assert (Hg : ∀ ws, length (word_bytes ws) = (4 * length ws)%nat ∧ Forall byte (word_bytes ws)).
  { clear. induction ws as [|x ws [IH1 IH2]]; [by split; [|constructor]|]. change (word_bytes (x :: ws)) with (le_split 4 x ++ word_bytes ws).
    rewrite length_app, IH1, length_le_split, Forall_app. split; [cbn; lia|]. split; [apply le_split_bytes|done]. }
  destruct (Hg ws) as [E ?]. split; [lia|done].
Qed.

#[global] Program Instance demo_host : SdHost false sdview := { host_rep d v := d = v ∧ demo_ok v }.
Next Obligation.
  intros d v w off [-> Hok] (x & v' & Hst). exists (demo_read w off v).2. cbn [bus_read demo_bus].
  inversion Hst as [? Ej Hb|? ? Ht Hx|k sec Ej Hk|sec n Ej Hn]; subst; unfold demo_read; cbn [Z.eqb Pos.eqb].
  - rewrite Ej. split; [done|]. split; [by apply read_pstate|done].
  - destruct (demo_tick_ok v Hok) as [Ht' Hok']. destruct (flags_value_ok (sv_flags (demo_tick v))) as [Hs Hr].
    split; [exact Hr|]. split; [|done]. apply read_status; [by apply tc_once|done].
  - rewrite Ej, bool_decide_true by done. pose proof Hok as [Hc _]. destruct (Hc sec) as [Hl Hb]. split; [apply ld32_range; [done|lia]|].
    split; [by apply read_data|]. by split.
  - rewrite Ej. change (bool_decide (127 < 127)%nat) with false. pose proof Hok as [Hc _]. destruct (Hc sec) as [Hl Hb].
    split; [apply ld32_range; [done|lia]|]. split; [apply read_last; [done|by split]|]. by split.
Qed.
Next Obligation.
  intros d v w off x [-> Hok] (v' & Hst). exists (demo_write w off x v). cbn [bus_write demo_bus]. pose proof Hok as [Hc Hj].
  inversion Hst as [? Ej|? Ej|? Ej|? Ej|? op n Ej Hcm Hn|? Hcl| | |? ws sec Ej Hl|? ws sec n Ej Hl Hn]; subst; unfold demo_write; cbn [Z.eqb Pos.eqb].
  - split; [by apply write_blksize|]. done.
  - split; [by apply write_blkcnt|]. done.
  - split; [by apply write_mode|]. done.
  - split; [by apply write_arg|]. done.
  - split; [|done]. apply write_cmd; [done| |by split]. destruct Hcm as (H1 & H2 & H3 & H4 & [(Ex & Em & ->)|(Ex & Em & ->)]); rewrite Ex; split_and!; try done; tauto.
  - split; [by apply write_status|]. done.
  - split; [by apply write_error|]. done.
  - split; [by apply write_enable|]. done.
  - rewrite Ej, bool_decide_true by done. split; [by apply write_data|]. done.
  - rewrite Ej, bool_decide_false by lia. split; [by apply write_last; [| |split]|]. split; [done|]. split; [done|]. apply word_bytes_ok. rewrite length_app, Hl. done.
Qed.

#[global] Instance demo_split : SplitStores sdview.
Proof. done. Qed.

(** A card of 64 sectors with a partition at sector 4. *)
Definition demo_card (sec : Z) : list Z := replicate 512 (sec mod 256).
Definition demo_sd : sdsys sdview := mksd (mksdv demo_card 64 0 0 0 0 no_flags Idle) 4 0 (replicate 512 0).

Lemma demo_disk_pre bn b : 0 <= bn < 30 → length b = bsize → Forall byte b → disk_pre (faulty := false) (mkctx [] [] 0) demo_sd demo_card 64 bn b.
Proof.
  assert (Hs : ∀ sec, sector_ok (demo_card sec)).
  { intros sec. split; [apply length_replicate|]. apply Forall_replicate. unfold byte. by apply Z.mod_pos_bound. }
  intros Hb Hl Hby. split; try done; try lia.
  - set_solver.
  - eexists. split; [split; [reflexivity|by split]|]. by split_and!.
  - cbn. lia.
Qed.

Definition demo_block : block := Z.of_nat <$> seq 0 256 ++ seq 0 256 ++ seq 0 256 ++ seq 0 256.

Lemma demo_block_ok : length demo_block = bsize ∧ Forall byte demo_block.
Proof. split; [done|]. apply Forall_fmap. rewrite !Forall_app. assert (Forall (byte ∘ Z.of_nat) (seq 0 256)) by (apply Forall_seq; unfold byte; cbn; lia). done. Qed.


Lemma sd_write_then_read_witness :
  ∃ s1 s2, sd_disk_rw 3 demo_block true (mkctx [] [] 0) demo_sd = Ret demo_block (mkctx [] [] 0) s1 ∧
    sd_disk_rw 3 demo_block false (mkctx [] [] 0) s1 = Ret demo_block (mkctx [] [] 0) s2.
Proof.
  apply (sd_write_then_read (mkctx [] [] 0) demo_sd demo_card 64 3 3 demo_block demo_block); apply demo_disk_pre; (lia || apply demo_block_ok).
Defined.
