(* ===== verification/Log.v ===== *)
(** * The write-ahead log (kernel/log.c)

    The log is written and proved against the buffer-cache interface of file BlockCache, for any
    cache [S] that satisfies it; the last section runs it over the cache of file Bio.

    The first half is the code: [struct log] and one definition per function.  The second half shows
    that a commit installs what the cache holds (with the exact sequence of block writes it
    performs), that a power failure after any prefix of those writes recovers to the state before or
    after the whole transaction, that recovery can itself be interrupted, and that the admission test
    of [begin_op] keeps [log_write] from ever running out of log space. *)

From stdpp Require Import base list functions sets numbers strings relations.
From Stdlib Require Import ZArith Lia.
From S2P Require Import Prelude Machine BlockCache Sleeplock Bio.

(** ** Data *)

(** [struct log] without its lock; [lh_n] and [lh_block] are the fields of [log.lh]. *)
Record logst := mklog {
  l_start : Z;
  l_outstanding : Z;
  l_committing : Z;
  l_dev : Z;
  lh_n : Z;
  lh_block : list Z
}.

(** The cache and the log it carries. *)
Record lsys (S : Type) := mkls { l_cache : S; l_log : logst }.
Arguments mkls {S} l_cache l_log.
Arguments l_cache {S} l.
Arguments l_log {S} l.

Definition set_lh_n (n : Z) (l : logst) : logst :=
  mklog (l_start l) (l_outstanding l) (l_committing l) (l_dev l) n (lh_block l).
Definition set_lh_block (i : nat) (b : Z) (l : logst) : logst :=
  mklog (l_start l) (l_outstanding l) (l_committing l) (l_dev l) (lh_n l) (<[i:=b]> (lh_block l)).
Definition set_outstanding (n : Z) (l : logst) : logst :=
  mklog (l_start l) n (l_committing l) (l_dev l) (lh_n l) (lh_block l).
Definition set_committing (n : Z) (l : logst) : logst :=
  mklog (l_start l) (l_outstanding l) n (l_dev l) (lh_n l) (lh_block l).
Definition set_start_dev (start dev : Z) (l : logst) : logst :=
  mklog start (l_outstanding l) (l_committing l) dev (lh_n l) (lh_block l).

(** sizeof(struct logheader) *)
Definition sizeof_logheader : Z := 4 + 4 * LOGBLOCKS.

(** Offset of [lh->block[i]] in a header block. *)
Definition blk_off (i : nat) : nat := (4 + 4 * i)%nat.

(** The stores of [write_head] into the header buffer: [hb->n], then [hb->block[0..n)]. *)
Fixpoint put_blocks (bs : list Z) (i : nat) (d : block) : block :=
  match bs with
  | [] => d
  | b :: bs' => put_blocks bs' (S i) (st32 d (blk_off i) b)
  end.

Definition put_head (n : Z) (bs : list Z) (d : block) : block :=
  put_blocks (take (Z.to_nat n) bs) 0 (st32 d 0 n).

Section ops.
Context {S : Type} `{BlockCacheOps S}.

Definition cache_lens : lens (lsys S) S :=
  mklens l_cache (λ t s, mkls t (l_log s)).
Definition lmod (f : logst → logst) : M (lsys S) unit :=
  kmod (λ s, mkls (l_cache s) (f (l_log s))).

(** [bread(log.dev, bn)]: the [int] arguments are converted to [uint]. *)
Definition log_bread (bn : Z) : M (lsys S) nat :=
  do lg <- kgets l_log;
  zoom cache_lens (bread (u32 (l_dev lg)) (u32 bn)).

(** [log.lh.block[i]] *)
Definition lh_get (i : Z) : M (lsys S) Z :=
  do lg <- kgets l_log;
  match lh_block lg !! Z.to_nat i with
  | Some b => kret b
  | None => undefined "log.lh.block"
  end.

(** [memmove(to->data, from->data, BSIZE)] *)
Definition copy_data (to from : nat) : M (lsys S) unit :=
  kmod (λ s, mkls (b_store to (b_data_of (l_cache s) from) (l_cache s)) (l_log s)).

(** The body of the loop of [install_trans]. *)
Definition install_block (recovering : bool) (start tail : Z) : M (lsys S) unit :=
  do lbuf <- log_bread (start + tail + 1);
  do blk <- lh_get tail;
  do dbuf <- log_bread blk;
  copy_data dbuf lbuf ;;;
  zoom cache_lens (bwrite dbuf) ;;;
  (if recovering then kret tt else zoom cache_lens (bunpin dbuf)) ;;;
  zoom cache_lens (brelse lbuf) ;;;
  zoom cache_lens (brelse dbuf).

Definition install_trans (recovering : bool) : M (lsys S) unit :=
  do lg <- kgets l_log;
  kfor (Z.to_nat (lh_n lg)) 0 (install_block recovering (l_start lg)).

Definition read_head : M (lsys S) unit :=
  do lg <- kgets l_log;
  do buf <- log_bread (l_start lg);
  do s <- kget;
  let d := b_data_of (l_cache s) buf in
  let n := s32 (ld32 d 0) in
  lmod (set_lh_n n) ;;;
  kfor (Z.to_nat n) 0 (λ i,
    if i <? LOGBLOCKS
    then lmod (set_lh_block (Z.to_nat i) (s32 (ld32 d (blk_off (Z.to_nat i)))))
    else undefined "log.lh.block") ;;;
  zoom cache_lens (brelse buf).

Definition write_head : M (lsys S) unit :=
  do lg <- kgets l_log;
  do buf <- log_bread (l_start lg);
  kmod (λ s, mkls (b_store buf (put_head (lh_n lg) (lh_block lg) (b_data_of (l_cache s) buf))
                     (l_cache s)) (l_log s)) ;;;
  zoom cache_lens (bwrite buf) ;;;
  zoom cache_lens (brelse buf).

Definition recover_from_log : M (lsys S) unit :=
  read_head ;;;
  install_trans true ;;;
  lmod (set_lh_n 0) ;;;
  write_head.

Definition initlog (dev logstart : Z) : M (lsys S) unit :=
  if BSIZE <=? sizeof_logheader then panic "initlog: too big logheader"
  else
    lmod (set_start_dev (s32 logstart) dev) ;;;
    recover_from_log.

(** One pass of the loop of [begin_op]; a process that sleeps runs the same tests when woken. *)
Definition begin_op : M (lsys S) unit :=
  acquire LK_log ;;;
  do lg <- kgets l_log;
  if negb (l_committing lg =? 0) then sleep CH_log LK_log
  else if LOGBLOCKS <? lh_n lg + (l_outstanding lg + 1) * MAXOPBLOCKS then sleep CH_log LK_log
  else
    lmod (set_outstanding (l_outstanding lg + 1)) ;;;
    release LK_log.

(** The body of the loop of [write_log]. *)
Definition write_log_block (start tail : Z) : M (lsys S) unit :=
  do to <- log_bread (start + tail + 1);
  do blk <- lh_get tail;
  do from <- log_bread blk;
  copy_data to from ;;;
  zoom cache_lens (bwrite to) ;;;
  zoom cache_lens (brelse from) ;;;
  zoom cache_lens (brelse to).

Definition write_log : M (lsys S) unit :=
  do lg <- kgets l_log;
  kfor (Z.to_nat (lh_n lg)) 0 (write_log_block (l_start lg)).

Definition commit : M (lsys S) unit :=
  do lg <- kgets l_log;
  if 0 <? lh_n lg then
    write_log ;;;
    write_head ;;;
    install_trans false ;;;
    lmod (set_lh_n 0) ;;;
    write_head
  else kret tt.

(** [end_op] up to the release of log.lock; the result is [do_commit]. *)
Definition end_op_enter : M (lsys S) bool :=
  acquire LK_log ;;;
  do lg <- kgets l_log;
  lmod (set_outstanding (l_outstanding lg - 1)) ;;;
  if negb (l_committing lg =? 0) then panic "log.committing"
  else
    do do_commit <- (if l_outstanding lg - 1 =? 0
                     then lmod (set_committing 1) ;;; kret true
                     else wakeup CH_log ;;; kret false);
    release LK_log ;;;
    kret do_commit.

(** The end of [end_op], after [commit]. *)
Definition end_op_leave : M (lsys S) unit :=
  acquire LK_log ;;;
  lmod (set_committing 0) ;;;
  wakeup CH_log ;;;
  release LK_log.

Definition end_op : M (lsys S) unit :=
  do do_commit <- end_op_enter;
  if do_commit : bool then commit ;;; end_op_leave else kret tt.

(** The index at which [log_write] stops: the first entry equal to [bn], or [lh.n]. *)
Fixpoint absorb (bs : list Z) (bn : Z) : nat :=
  match bs with
  | [] => 0%nat
  | b :: bs' => if u32 b =? bn then 0%nat else Datatypes.S (absorb bs' bn)
  end.

Definition log_write (b : nat) : M (lsys S) unit :=
  acquire LK_log ;;;
  do s <- kget;
  let lg := l_log s in
  if LOGBLOCKS <=? lh_n lg then panic "too big a transaction"
  else if l_outstanding lg <? 1 then panic "log_write outside of trans"
  else
    let bn := b_blockno_of (l_cache s) b in
    let i := absorb (take (Z.to_nat (lh_n lg)) (lh_block lg)) bn in
    lmod (set_lh_block i (s32 bn)) ;;;
    (if Z.of_nat i =? lh_n lg
     then zoom cache_lens (bpin b) ;;; lmod (set_lh_n (lh_n lg + 1))
     else kret tt) ;;;
    release LK_log.
End ops.

(** ** Running cache operations under the log *)

Section cache.
Context {S : Type} `{BlockCache S}.
Implicit Types (s : lsys S) (v : cview) (c : kctx) (bn : Z).

(** No process is inside a block, and reference counts are far from overflow. *)
Definition quiet v : Prop := ∀ bn, v_lock v bn = None ∧ 0 <= v_ref v bn < 2 ^ 32 - 2.

Lemma log_bread_ok c s v bn :
  cabs (l_cache s) v → bio_clear c → l_dev (l_log s) = ROOTDEV →
  0 <= bn < v_size v → v_size v <= 2 ^ 22 → v_lock v bn = None → v_ref v bn < 2 ^ 32 - 1 →
  0 < v_ref v bn ∨ 0 < v_free v →
  ∃ i t, log_bread bn c s = Ret i c (mkls t (l_log s)) ∧
    cabs t (view_read (curpid c) bn i v) ∧ v_buf (view_read (curpid c) bn i v) bn = i.
Proof.
  intros Hs Hc Hd Hbn Hsz Hl Hr Hf.
  destruct (bread_ok c (l_cache s) v bn) as (i & t & E & Ht & _); [done..|].
  exists i, t. split_and!; [|done|simpl; by rewrite fn_lookup_insert].
  unfold log_bread. kexec. rewrite Hd. change (u32 ROOTDEV) with ROOTDEV.
  rewrite u32_small by lia. by apply (zoom_ret cache_lens).
Qed.

Lemma zoom_bwrite_ok c s v bn :
  cabs (l_cache s) v → bio_clear c → 0 < v_ref v bn → v_lock v bn = Some (curpid c) →
  ∃ t, zoom cache_lens (bwrite (v_buf v bn)) c s = Ret tt c (mkls t (l_log s)) ∧
    cabs t (view_write bn v).
Proof.
  intros Hs Hc Hr Hl. destruct (bwrite_ok c (l_cache s) v bn) as (t & E & Ht); [done..|].
  exists t. split; [by apply (zoom_ret cache_lens)|done].
Qed.

Lemma zoom_brelse_ok c s v bn :
  cabs (l_cache s) v → bio_clear c → 0 < v_ref v bn → v_lock v bn = Some (curpid c) →
  (v_ref v bn = 1 → v_data v bn = v_disk v bn) →
  ∃ c' t, zoom cache_lens (brelse (v_buf v bn)) c s = Ret tt c' (mkls t (l_log s)) ∧
    same_ctx c c' ∧ cabs t (view_release bn v).
Proof.
  intros Hs Hc Hr Hl Hcl. destruct (brelse_ok c (l_cache s) v bn) as (c' & t & E & Hc' & Ht); [done..|].
  exists c', t. split_and!; [by apply (zoom_ret cache_lens)|done..].
Qed.

Lemma zoom_bunpin_ok c s v bn :
  cabs (l_cache s) v → bio_clear c → 1 < v_ref v bn →
  ∃ t, zoom cache_lens (bunpin (v_buf v bn)) c s = Ret tt c (mkls t (l_log s)) ∧
    cabs t (view_ref bn (-1) v).
Proof.
  intros Hs Hc Hr. destruct (bunpin_ok c (l_cache s) v bn) as (t & E & Ht); [done..|].
  exists t. split; [by apply (zoom_ret cache_lens)|done].
Qed.

Lemma clear_same c c' : same_ctx c c' → bio_clear c → bio_clear c'.
Proof. intros [Eh _] [??]. split; by rewrite Eh. Qed.

(** ** A run of block writes

    [vstep v v' ws un]: the view went from [v] to [v'] by performing the writes [ws] on the cache and
    the device and dropping one reference to each block of [un]. *)
Fixpoint occurs (bn : Z) (l : list Z) : Z :=
  match l with
  | [] => 0
  | x :: l' => (if decide (x = bn) then 1 else 0) + occurs bn l'
  end.

Record vstep (v v' : cview) (ws : list bwrite_ev) (un : list Z) : Prop := mkvstep {
  vs_size : v_size v' = v_size v;
  vs_disk : ∀ b, v_disk v' b = apply_writes ws (v_disk v) b;
  vs_data : ∀ b, v_data v' b = apply_writes ws (v_data v) b;
  vs_ref : ∀ b, v_ref v' b = v_ref v b - occurs b un;
  vs_lock : ∀ b, v_lock v' b = v_lock v b;
  vs_free : v_free v <= v_free v';
  vs_free_eq : un = [] → v_free v' = v_free v;
  vs_log : v_log v' = v_log v ++ ws
}.

Lemma apply_writes_app ws1 ws2 d b :
  apply_writes (ws1 ++ ws2) d b = apply_writes ws2 (apply_writes ws1 d) b.
Proof. revert d. induction ws1 as [|[bn x] ws1 IH]; intros d; simpl; auto. Qed.

Lemma apply_writes_ext ws d d' b : (∀ x, d x = d' x) → apply_writes ws d b = apply_writes ws d' b.
Proof.
  revert d d'. induction ws as [|[bn x] ws IH]; intros d d' E; simpl; [done|].
  apply IH. intros y. by fsplit.
Qed.

Lemma apply_writes_out ws d b : b ∉ ws.*1 → apply_writes ws d b = d b.
Proof.
  revert d. induction ws as [|[bn x] ws IH]; intros d; simpl; [done|].
  intros [Hb Hws]%not_elem_of_cons. rewrite IH by done. by rewrite fn_lookup_insert_ne.
Qed.

Lemma occurs_app b l1 l2 : occurs b (l1 ++ l2) = occurs b l1 + occurs b l2.
Proof. induction l1 as [|x l1 IH]; simpl; lia. Qed.

Lemma occurs_out b l : b ∉ l → occurs b l = 0.
Proof.
  induction l as [|x l IH]; simpl; [done|]. intros [Hx Hl]%not_elem_of_cons.
  rewrite decide_False by done. rewrite IH by done. done.
Qed.

Lemma occurs_in b l : NoDup l → b ∈ l → occurs b l = 1.
Proof.
  induction 1 as [|x l Hx Hnd IH]; simpl; [by intros ?%elem_of_nil|].
  intros [-> | Hb]%elem_of_cons; case_decide; try done.
  - by rewrite occurs_out.
  - subst. done.
  - by rewrite IH.
Qed.

Lemma vstep_refl v : vstep v v [] [].
Proof. split; simpl; auto; try lia. by rewrite app_nil_r. Qed.

Lemma vstep_trans v1 v2 v3 ws1 ws2 un1 un2 :
  vstep v1 v2 ws1 un1 → vstep v2 v3 ws2 un2 → vstep v1 v3 (ws1 ++ ws2) (un1 ++ un2).
Proof.
  intros [E1 E2 E3 E4 E5 E6 E8 E7] [F1 F2 F3 F4 F5 F6 F8 F7]. split.
  - congruence.
  - intros b. rewrite F2, apply_writes_app. by apply apply_writes_ext.
  - intros b. rewrite F3, apply_writes_app. by apply apply_writes_ext.
  - intros b. rewrite F4, E4, occurs_app. lia.
  - intros b. by rewrite F5.
  - lia.
  - intros [? ?]%app_nil. rewrite F8, E8; done.
  - by rewrite F7, E7, app_assoc.
Qed.

Lemma vstep_lock v v' ws un : vstep v v' ws un → (∀ b, v_lock v b = None) → ∀ b, v_lock v' b = None.
Proof. intros Hv Hl b. by rewrite (vs_lock _ _ _ _ Hv). Qed.
End cache.

(** Reads of the view after a sequence of operations on it. *)
Ltac vlook :=
  cbn [view_read view_store view_write view_release view_ref
       v_size v_disk v_data v_ref v_lock v_buf v_free v_log] in *;
  repeat first
    [ rewrite fn_lookup_insert | rewrite fn_lookup_insert_ne by congruence ].

(** The view read at [b], by cases on [b] being one of the blocks [x] and [y]. *)
Ltac vcase b x y :=
  cbn [apply_writes occurs]; vlook;
  try (destruct (decide (b = x)) as [->|]; [|destruct (decide (b = y)) as [->|]]; vlook);
  unfold is_zero in *; repeat case Z.eqb_spec; intros.

Ltac vstep_solve x y :=
  split;
  match goal with
  | |- ∀ b : Z, _ => let b := fresh "b" in intros b; vcase b x y
  | |- _ => vcase x x y
  end; repeat case_decide; rewrite ?app_nil_r; done || congruence || lia.

Section blocks.
Context {S : Type} `{BlockCache S}.
Implicit Types (s : lsys S) (v : cview) (c : kctx) (bn : Z).

(** The assumptions on the log that every copy needs. *)
Record copy_pre s v c : Prop := mkcp {
  cp_abs : cabs (l_cache s) v;
  cp_clear : bio_clear c;
  cp_dev : l_dev (l_log s) = ROOTDEV;
  cp_size : v_size v <= 2 ^ 22;
  cp_quiet : quiet v
}.

(** Two blocks are locked and referenced, the second read after the first. *)
Lemma read_two c s v a b :
  copy_pre s v c → a ≠ b → 0 <= a < v_size v → 0 <= b < v_size v →
  0 < v_ref v a ∨ 0 < v_free v → 0 < v_ref v b ∨ 1 < v_free v →
  ∃ ia ib t1 t2, log_bread a c s = Ret ia c (mkls t1 (l_log s)) ∧
    log_bread b c (mkls t1 (l_log s)) = Ret ib c (mkls t2 (l_log s)) ∧
    let v2 := view_read (curpid c) b ib (view_read (curpid c) a ia v) in
    cabs t2 v2 ∧ v_buf v2 a = ia ∧ v_buf v2 b = ib.
Proof.
  intros [Hs Hc Hd Hsz Hq] Hne Ha Hb Hfa Hfb.
  destruct (Hq a) as [Hla Hra], (Hq b) as [Hlb Hrb].
  destruct (log_bread_ok c s v a) as (ia & t1 & E1 & Ht1 & Ei1); [done..|lia|done|].
  destruct (log_bread_ok c (mkls t1 (l_log s)) (view_read (curpid c) a ia v) b)
    as (ib & t2 & E2 & Ht2 & Ei2); [done..| | | |].
  - vlook. done.
  - vlook. lia.
  - vlook. unfold is_zero. destruct (_ =? 0); lia.
  - exists ia, ib, t1, t2. split_and!; try done. vlook. done.
Qed.

(** [copy_data] from block [b] to block [a], both referenced. *)
Lemma copy_data_ok c s v a b :
  cabs (l_cache s) v → 0 < v_ref v a → 0 < v_ref v b → 0 <= b < v_size v →
  ∃ t, copy_data (v_buf v a) (v_buf v b) c s = Ret tt c (mkls t (l_log s)) ∧
    cabs t (view_store a (v_data v b) v).
Proof.
  intros Hs Ha Hb Hr. eexists. split; [done|].
  destruct (cabs_data _ _ _ Hs Hb) as [-> _]. apply b_store_ok; [done..|]. by eapply cabs_len.
Qed.

Lemma lh_get_ok c s i b :
  lh_block (l_log s) !! Z.to_nat i = Some b → lh_get i c s = Ret b c s.
Proof. intros E. unfold lh_get. kexec. by rewrite E. Qed.

Lemma write_log_block_ok c s v tail to from :
  copy_pre s v c → to = l_start (l_log s) + tail + 1 → lh_block (l_log s) !! Z.to_nat tail = Some from →
  to ≠ from → 0 <= to < v_size v → 0 <= from < v_size v → 0 < v_free v → 0 < v_ref v from →
  ∃ c' t v', write_log_block (l_start (l_log s)) tail c s = Ret tt c' (mkls t (l_log s)) ∧
    same_ctx c c' ∧ cabs t v' ∧ vstep v v' [(to, v_data v from)] [].
Proof.
  intros Hp -> Hg Hne Hto Hfrom Hf Hpin. set (to := _ + tail + 1) in *.
  destruct (Hp) as [_ Hc _ _ Hq]. destruct (Hq to) as [Hlt Hrt], (Hq from) as [Hlf Hrf].
  destruct (read_two c s v to from) as (i & j & t1 & t2 & E1 & E2 & Ht2 & Ei & Ej); [done..|by right|by left|].
  set (v2 := view_read _ _ _ _) in *.
  unfold write_log_block. fold to. kstep E1.
  erewrite kbind_ret by (by apply lh_get_ok). kstep E2.
  destruct (copy_data_ok c (mkls t2 (l_log s)) v2 to from) as (t3 & E3 & Ht3);
    [done|unfold v2; vlook; lia..|done|]. rewrite Ei, Ej in E3. kstep E3.
  destruct (zoom_bwrite_ok c (mkls t3 (l_log s)) (view_store to (v_data v2 from) v2) to) as (t4 & E4 & Ht4);
    [done..|unfold v2; vlook; lia|unfold v2; by vlook|]. change (v_buf _ to) with (v_buf v2 to) in E4.
  rewrite Ei in E4. kstep E4. set (v4 := view_write _ _) in Ht4.
  destruct (zoom_brelse_ok c (mkls t4 (l_log s)) v4 from) as (c5 & t5 & E5 & Hc5 & Ht5);
    [done..|unfold v4, v2; vlook; lia|unfold v4, v2; by vlook|unfold v4, v2; vlook; lia|].
  change (v_buf v4 from) with (v_buf v2 from) in E5. rewrite Ej in E5. kstep E5.
  destruct (zoom_brelse_ok c5 (mkls t5 (l_log s)) (view_release from v4) to) as (c6 & t6 & E6 & Hc6 & Ht6);
    [done|by eapply clear_same|unfold v4, v2; vlook; lia|..].
  { destruct Hc5 as [_ ->]. unfold v4, v2. by vlook. }
  { intros _. unfold v4, v2. by vlook. }
  change (v_buf _ to) with (v_buf v2 to) in E6. rewrite Ei in E6.
  do 3 eexists. split; [exact E6|]. split; [by transitivity c5|]. split; [exact Ht6|].
  unfold v4, v2. vstep_solve to from.
Qed.
(** [bunpin], or nothing during recovery. *)
Lemma unpin_ok (recovering : bool) c s v bn :
  cabs (l_cache s) v → bio_clear c → (recovering = false → 1 < v_ref v bn) →
  ∃ t, (if recovering then kret tt else zoom cache_lens (bunpin (v_buf v bn))) c s =
      Ret tt c (mkls t (l_log s)) ∧
    cabs t (if recovering then v else view_ref bn (-1) v).
Proof.
  intros Hs Hc Hr. destruct recovering.
  - exists (l_cache s). by destruct s.
  - apply zoom_bunpin_ok; auto.
Qed.

Lemma install_block_ok (recovering : bool) c s v tail from to :
  copy_pre s v c → from = l_start (l_log s) + tail + 1 → lh_block (l_log s) !! Z.to_nat tail = Some to →
  from ≠ to → 0 <= from < v_size v → 0 <= to < v_size v → v_data v from = v_disk v from →
  0 < v_ref v from ∨ 0 < v_free v →
  (if recovering then 1 < v_free v else 0 < v_ref v to) →
  ∃ c' t v', install_block recovering (l_start (l_log s)) tail c s = Ret tt c' (mkls t (l_log s)) ∧
    same_ctx c c' ∧ cabs t v' ∧
    vstep v v' [(to, v_data v from)] (if recovering then [] else [to]).
Proof.
  intros Hp -> Hg Hne Hfrom Hto Hcl Hf Hpin. set (from := _ + tail + 1) in *.
  destruct (Hp) as [_ Hc _ _ Hq]. destruct (Hq to) as [Hlt Hrt], (Hq from) as [Hlf Hrf].
  destruct (read_two c s v from to) as (j & i & t1 & t2 & E1 & E2 & Ht2 & Ej & Ei);
    [done..|by destruct recovering; [right|left]|].
  set (v2 := view_read _ _ _ _) in *.
  unfold install_block. fold from. kstep E1.
  erewrite kbind_ret by (by apply lh_get_ok). kstep E2.
  destruct (copy_data_ok c (mkls t2 (l_log s)) v2 to from) as (t3 & E3 & Ht3);
    [done|unfold v2; vlook; lia..|done|]. rewrite Ei, Ej in E3. kstep E3.
  destruct (zoom_bwrite_ok c (mkls t3 (l_log s)) (view_store to (v_data v2 from) v2) to) as (t4 & E4 & Ht4);
    [done..|unfold v2; vlook; lia|unfold v2; by vlook|]. change (v_buf _ to) with (v_buf v2 to) in E4.
  rewrite Ei in E4. kstep E4. set (v4 := view_write _ _) in Ht4.
  destruct (unpin_ok recovering c (mkls t4 (l_log s)) v4 to) as (t5 & E5 & Ht5); [done..| |].
  { intros ->. unfold v4, v2. vlook. lia. }
  change (v_buf v4 to) with (v_buf v2 to) in E5. rewrite Ei in E5. kstep E5.
  set (v5 := if recovering then v4 else _) in Ht5.
  destruct (zoom_brelse_ok c (mkls t5 (l_log s)) v5 from) as (c6 & t6 & E6 & Hc6 & Ht6); [done..| | | |].
  1-3: unfold v5, v4, v2; destruct recovering; vlook; done || lia.
  replace (v_buf v5 from) with j in E6 by (unfold v5; by destruct recovering). kstep E6.
  destruct (zoom_brelse_ok c6 (mkls t6 (l_log s)) (view_release from v5) to) as (c7 & t7 & E7 & Hc7 & Ht7);
    [done|by eapply clear_same|..].
  1-3: destruct Hc6 as [_ Ecp]; rewrite ?Ecp; unfold v5, v4, v2; destruct recovering; vlook; done || lia.
  replace (v_buf (view_release from v5) to) with i in E7 by (unfold v5; by destruct recovering).
  do 3 eexists. split; [exact E7|]. split; [by transitivity c6|]. split; [exact Ht7|].
  unfold v5, v4, v2. destruct recovering; vstep_solve to from.
Qed.
End blocks.

(** ** The loops *)

(** The writes of [write_log] and of [install_trans]. *)
Fixpoint log_writes (start i : Z) (l : list Z) (f : Z → block) : list bwrite_ev :=
  match l with
  | [] => []
  | b :: l' => (start + i + 1, f b) :: log_writes start (i + 1) l' f
  end.
Definition home_writes (l : list Z) (f : Z → block) : list bwrite_ev := (λ b, (b, f b)) <$> l.

(** Block [b] is a block of the device outside the log. *)
Definition home (start size b : Z) : Prop :=
  0 <= b < size ∧ (b < start ∨ start + LOGBLOCKS < b).

Lemma occurs_nonneg b l : 0 <= occurs b l.
Proof. induction l as [|x l IH]; simpl; [lia|]. case_decide; lia. Qed.

Lemma apply_writes_one bn x d b : b ≠ bn → apply_writes [(bn, x)] d b = d b.
Proof. intros. apply apply_writes_out. set_solver. Qed.

Section loops.
Context {S : Type} `{BlockCache S}.
Implicit Types (s : lsys S) (v : cview) (c : kctx) (l : list Z).

Lemma copy_pre_step s v c c' t v' ws un :
  copy_pre s v c → same_ctx c c' → cabs t v' → vstep v v' ws un → (∀ b, occurs b un <= v_ref v b) →
  copy_pre (mkls t (l_log s)) v' c'.
Proof.
  intros [Hs Hc Hd Hsz Hq] Hc' Ht Hv Hu. split; [done|by eapply clear_same|done|..].
  - by rewrite (vs_size _ _ _ _ Hv).
  - intros b. rewrite (vs_lock _ _ _ _ Hv), (vs_ref _ _ _ _ Hv).
    pose proof (occurs_nonneg b un). specialize (Hu b). destruct (Hq b). split; [done|lia].
Qed.

(** What a loop over the entries [l] of the in-memory header from index [i] assumes. *)
Record loop_pre s v c l (i : Z) : Prop := mklp {
  lp_copy : copy_pre s v c;
  lp_idx : ∀ j b, l !! j = Some b → lh_block (l_log s) !! (Z.to_nat i + j)%nat = Some b;
  lp_i : 0 <= i ∧ i + Z.of_nat (length l) <= LOGBLOCKS;
  lp_start : 0 <= l_start (l_log s) ∧ l_start (l_log s) + LOGBLOCKS < v_size v;
  lp_home : ∀ b, b ∈ l → home (l_start (l_log s)) (v_size v) b
}.

Lemma loop_pre_next s v c b l i c' t v' ws un :
  loop_pre s v c (b :: l) i → same_ctx c c' → cabs t v' → vstep v v' ws un →
  (∀ x, occurs x un <= v_ref v x) → loop_pre (mkls t (l_log s)) v' c' l (i + 1).
Proof.
  intros [Hc Hidx Hi Hst Hh] Hc' Ht Hv Hu. simpl in Hi.
  split; cbn [l_log]; rewrite ?(vs_size _ _ _ _ Hv).
  - by eapply copy_pre_step.
  - intros j x Hj. replace (Z.to_nat (i + 1) + j)%nat with (Z.to_nat i + Datatypes.S j)%nat by lia.
    by apply Hidx.
  - lia.
  - done.
  - intros x Hx. apply Hh. by constructor.
Qed.

Lemma loop_pre_head s v c b l i :
  loop_pre s v c (b :: l) i →
  lh_block (l_log s) !! Z.to_nat i = Some b ∧
  0 <= l_start (l_log s) + i + 1 < v_size v ∧ 0 <= b < v_size v ∧ l_start (l_log s) + i + 1 ≠ b ∧
  copy_pre s v c ∧ ∀ x, x ∈ l → x ≠ l_start (l_log s) + i + 1.
Proof.
  intros [Hc Hidx Hi Hst Hh]. simpl in Hi. pose proof (Hidx 0%nat b eq_refl) as E. rewrite Nat.add_0_r in E.
  destruct (Hh b) as [? ?]; [constructor|]. split_and!; try done; try lia.
  intros x Hx. destruct (Hh x); [by constructor|]. lia.
Qed.

Lemma write_log_loop l i c s v f :
  loop_pre s v c l i → 0 < v_free v →
  (∀ b, b ∈ l → 0 < v_ref v b) → (∀ b, b ∈ l → v_data v b = f b) →
  ∃ c' t v', kfor (length l) i (write_log_block (l_start (l_log s))) c s = Ret tt c' (mkls t (l_log s)) ∧
    same_ctx c c' ∧ cabs t v' ∧ vstep v v' (log_writes (l_start (l_log s)) i l f) [].
Proof.
  revert i c s v. induction l as [|b l IH]; intros i c s v Hp Hf Hpin Hdata; cbn [length kfor log_writes].
  { exists c, (l_cache s), v. destruct s. destruct Hp as [[]]. split_and!; try done. apply vstep_refl. }
  destruct (loop_pre_head _ _ _ _ _ _ Hp) as (Hg & Hlr & Hbr & Hne & Hcp & Hout).
  destruct (write_log_block_ok c s v i _ b Hcp eq_refl Hg) as (c1 & t1 & v1 & E1 & Hc1 & Ht1 & Hv1);
    [done..|apply Hpin; constructor|]. kstep E1. rewrite Hdata in Hv1 by constructor.
  assert (Hp1 : loop_pre (mkls t1 (l_log s)) v1 c1 l (i + 1)).
  { eapply loop_pre_next; eauto. intros x. simpl. destruct (cp_quiet _ _ _ Hcp x). lia. }
  destruct (IH (i + 1) c1 (mkls t1 (l_log s)) v1 Hp1) as (c2 & t2 & v2 & E2 & Hc2 & Ht2 & Hv2).
  - pose proof (vs_free _ _ _ _ Hv1). lia.
  - intros x Hx. rewrite (vs_ref _ _ _ _ Hv1). simpl. specialize (Hpin x). rewrite elem_of_cons in Hpin.
    rewrite Z.sub_0_r. auto.
  - intros x Hx. rewrite (vs_data _ _ _ _ Hv1), apply_writes_one by auto. apply Hdata. by constructor.
  - exists c2, t2, v2. split_and!; [done|by transitivity c1|done|].
    apply (vstep_trans _ _ _ _ _ _ _ Hv1 Hv2).
Qed.

Lemma install_loop (recovering : bool) l i c s v f :
  loop_pre s v c l i → NoDup l → (if recovering then 1 < v_free v else 0 < v_free v) →
  (recovering = false → ∀ b, b ∈ l → 0 < v_ref v b) →
  (∀ j b, l !! j = Some b → let a := l_start (l_log s) + (i + Z.of_nat j) + 1 in
     v_data v a = f b ∧ v_disk v a = f b) →
  ∃ c' t v', kfor (length l) i (install_block recovering (l_start (l_log s))) c s =
      Ret tt c' (mkls t (l_log s)) ∧
    same_ctx c c' ∧ cabs t v' ∧ vstep v v' (home_writes l f) (if recovering then [] else l).
Proof.
  revert i c s v. induction l as [|b l IH]; intros i c s v Hp Hnd Hf Hpin Hdata; cbn [length kfor].
  { exists c, (l_cache s), v. destruct s. destruct Hp as [[]]. split_and!; try done.
    destruct recovering; apply vstep_refl. }
  apply NoDup_cons in Hnd as [Hbl Hnd].
  destruct (loop_pre_head _ _ _ _ _ _ Hp) as (Hg & Hlr & Hbr & Hne & Hcp & Hout).
  destruct (Hdata 0%nat b eq_refl) as [Hd0 Hd0']. rewrite Z.add_0_r in Hd0, Hd0'.
  destruct (install_block_ok recovering c s v i _ b Hcp eq_refl Hg) as (c1 & t1 & v1 & E1 & Hc1 & Ht1 & Hv1);
    [done..|congruence|right; destruct recovering; lia| |].
  { destruct recovering; [done|]. apply Hpin; [done|constructor]. }
  kstep E1. rewrite Hd0 in Hv1.
  assert (Hp1 : loop_pre (mkls t1 (l_log s)) v1 c1 l (i + 1)).
  { eapply loop_pre_next; eauto. intros x. destruct (cp_quiet _ _ _ Hcp x) as [_ ?].
    destruct recovering; simpl; [lia|]. case_decide; [subst|lia].
    specialize (Hpin eq_refl x ltac:(constructor)). lia. }
  destruct (IH (i + 1) c1 (mkls t1 (l_log s)) v1 Hp1) as (c2 & t2 & v2 & E2 & Hc2 & Ht2 & Hv2).
  - done.
  - pose proof (vs_free _ _ _ _ Hv1). destruct recovering; lia.
  - intros -> x Hx. rewrite (vs_ref _ _ _ _ Hv1), occurs_out by set_solver.
    specialize (Hpin eq_refl x). rewrite elem_of_cons in Hpin. rewrite Z.sub_0_r. auto.
  - intros j x Hj. cbn [l_log]. specialize (Hdata (Datatypes.S j) x Hj). cbv zeta in Hdata.
    replace (i + 1 + Z.of_nat j) with (i + Z.of_nat (Datatypes.S j)) by lia.
    assert (Hjl : (j < length l)%nat) by (by eapply lookup_lt_Some).
    pose proof (lp_i _ _ _ _ _ Hp) as Hi. simpl in Hi.
    destruct (lp_home _ _ _ _ _ Hp b ltac:(constructor)) as [_ Hbh].
    rewrite (vs_data _ _ _ _ Hv1), (vs_disk _ _ _ _ Hv1), !apply_writes_one by lia. done.
  - exists c2, t2, v2. split_and!; [done|by transitivity c1|done|].
    pose proof (vstep_trans _ _ _ _ _ _ _ Hv1 Hv2) as Hv. by destruct recovering.
Qed.
End loops.

(** ** The header block *)

Definition hdr_n (d : block) : Z := s32 (ld32 d 0).
Definition hdr_blocks (d : block) : list Z :=
  (λ i, s32 (ld32 d (blk_off i))) <$> seq 0 (Z.to_nat (hdr_n d)).

Lemma s32_u32 x : 0 <= x < 2 ^ 31 → s32 (u32 x) = x.
Proof. intros. rewrite u32_small, s32_small; lia. Qed.

Lemma length_put_blocks bs i d :
  (blk_off (i + length bs) ≤ length d)%nat → length (put_blocks bs i d) = length d.
Proof.
  revert i d. induction bs as [|b bs IH]; intros i d; simpl; [done|]. unfold blk_off in *. intros Hl.
  rewrite IH; rewrite length_st32; unfold blk_off; lia.
Qed.

Lemma ld32_put_blocks_low bs i d o :
  (blk_off (i + length bs) ≤ length d)%nat → (o + 4 ≤ blk_off i)%nat →
  ld32 (put_blocks bs i d) o = ld32 d o.
Proof.
  revert i d. induction bs as [|b bs IH]; intros i d; simpl; [done|]. unfold blk_off in *. intros Hl Ho.
  rewrite IH; rewrite ?length_st32; unfold blk_off; try lia.
  apply ld32_st32_ne; lia.
Qed.

Lemma ld32_put_blocks bs i d j b :
  (blk_off (i + length bs) ≤ length d)%nat → bs !! j = Some b →
  ld32 (put_blocks bs i d) (blk_off (i + j)) = u32 b.
Proof.
  revert i d j. induction bs as [|x bs IH]; intros i d j; [done|]. simpl length. unfold blk_off in *. intros Hl Hj.
  destruct j as [|j]; simpl in *.
  - injection Hj as ->. rewrite ld32_put_blocks_low; unfold blk_off; rewrite ?length_st32; try lia.
    rewrite Nat.add_0_r. apply ld32_st32. lia.
  - rewrite <- (IH (S i) (st32 d (4 + 4 * i) x) j) by (done || rewrite length_st32; lia). f_equal. lia.
Qed.

Section head.
Context (n : Z) (bs : list Z) (d : block).
Context (Hn : 0 <= n <= LOGBLOCKS) (Hd : length d = bsize).

Lemma put_head_fits : (blk_off (0 + length (take (Z.to_nat n) bs)) ≤ length (st32 d 0 n))%nat.
Proof.
  rewrite length_st32; rewrite Hd; [|unfold bsize, BSIZE; lia].
  rewrite length_take. unfold blk_off, bsize, BSIZE, LOGBLOCKS, MAXOPBLOCKS in *. lia.
Qed.

Lemma length_put_head : length (put_head n bs d) = bsize.
Proof.
  unfold put_head. rewrite length_put_blocks by apply put_head_fits.
  rewrite length_st32; [done|]. rewrite Hd. unfold bsize, BSIZE. lia.
Qed.

Lemma hdr_n_put : hdr_n (put_head n bs d) = n.
Proof.
  unfold hdr_n, put_head. rewrite ld32_put_blocks_low; [|apply put_head_fits|done].
  rewrite ld32_st32, s32_u32; [done|unfold LOGBLOCKS, MAXOPBLOCKS in *; lia|].
  rewrite Hd. unfold bsize, BSIZE. lia.
Qed.

Lemma hdr_blocks_put :
  n <= Z.of_nat (length bs) → Forall (λ b, 0 <= b < 2 ^ 31) (take (Z.to_nat n) bs) →
  hdr_blocks (put_head n bs d) = take (Z.to_nat n) bs.
Proof.
  intros Hl Hb. unfold hdr_blocks. rewrite hdr_n_put. apply list_eq. intros j.
  rewrite list_lookup_fmap. destruct (decide (j < Z.to_nat n)%nat) as [Hj|Hj].
  - rewrite lookup_seq_lt by done. simpl.
    destruct (lookup_lt_is_Some_2 (take (Z.to_nat n) bs) j) as [b Eb]; [rewrite length_take; lia|].
    rewrite Eb. f_equal. unfold put_head.
    change (blk_off j) with (blk_off (0 + j)). rewrite (ld32_put_blocks _ _ _ _ _ put_head_fits Eb).
    apply s32_u32. by apply (Forall_lookup_1 _ _ _ _ Hb Eb).
  - rewrite lookup_seq_ge by lia. simpl. symmetry. apply lookup_ge_None. rewrite length_take. lia.
Qed.
End head.

Section heads.
Context {S : Type} `{BlockCache S}.
Implicit Types (s : lsys S) (v : cview) (c : kctx).

Lemma write_head_ok c s v :
  copy_pre s v c → 0 <= l_start (l_log s) < v_size v → 0 < v_free v →
  0 <= lh_n (l_log s) <= LOGBLOCKS →
  ∃ c' t v', write_head c s = Ret tt c' (mkls t (l_log s)) ∧ same_ctx c c' ∧ cabs t v' ∧
    vstep v v' [(l_start (l_log s),
      put_head (lh_n (l_log s)) (lh_block (l_log s)) (v_data v (l_start (l_log s))))] [].
Proof.
  intros [Hs Hc Hd Hsz Hq] Hst Hf Hn. set (a := l_start _) in *. destruct (Hq a) as [Hl Hr].
  destruct (log_bread_ok c s v a) as (i & t1 & E1 & Ht1 & Ei); [done..|lia|by right|].
  set (v1 := view_read _ _ _ _) in *.
  unfold write_head. erewrite (kbind_ret (kgets l_log)) by done. fold a. kstep E1.
  set (d := put_head _ _ (v_data v a)).
  assert (Hr1 : v_ref v1 a = v_ref v a + 1) by (unfold v1; by vlook).
  erewrite (kbind_ret (kmod _)) by done. cbn [l_cache l_log].
  destruct (cabs_data _ _ _ Ht1 (ltac:(lia) : 0 < v_ref v1 a)) as [Hda _]. rewrite Ei in Hda. rewrite Hda.
  change (v_data v1 a) with (v_data v a). fold d.
  assert (Ht2 : cabs (b_store i d t1) (view_store a d v1)).
  { rewrite <- Ei. apply b_store_ok; [done|lia|]. apply length_put_head; [done|]. by eapply cabs_len. }
  set (s2 := mkls _ _).
  destruct (zoom_bwrite_ok c s2 (view_store a d v1) a) as (t3 & E3 & Ht3); [done..|unfold v1; vlook; lia|unfold v1; by vlook|].
  change (v_buf _ a) with (v_buf v1 a) in E3. rewrite Ei in E3. kstep E3.
  destruct (zoom_brelse_ok c (mkls t3 (l_log s)) (view_write a (view_store a d v1)) a) as (c4 & t4 & E4 & Hc4 & Ht4);
    [done..|unfold v1; vlook; lia|unfold v1; by vlook|intros _; unfold v1; by vlook|].
  change (v_buf _ a) with (v_buf v1 a) in E4. rewrite Ei in E4.
  do 3 eexists. split; [exact E4|]. split; [done|]. split; [exact Ht4|].
  unfold v1. vstep_solve a a.
Qed.
(** The loop of [read_head]. *)
Definition read_entry (d : block) (i : Z) : M (lsys S) unit :=
  if i <? LOGBLOCKS
  then lmod (set_lh_block (Z.to_nat i) (s32 (ld32 d (blk_off (Z.to_nat i)))))
  else undefined "log.lh.block".

Definition set_blocks (B : list Z) (l : logst) : logst :=
  mklog (l_start l) (l_outstanding l) (l_committing l) (l_dev l) (lh_n l) B.

Lemma read_loop d k i c s :
  0 <= i → i + Z.of_nat k <= LOGBLOCKS → length (lh_block (l_log s)) = Z.to_nat LOGBLOCKS →
  ∃ B, kfor k i (read_entry d) c s = Ret tt c (mkls (l_cache s) (set_blocks B (l_log s))) ∧
    length B = Z.to_nat LOGBLOCKS ∧
    (∀ j, (j < Z.to_nat i)%nat → B !! j = lh_block (l_log s) !! j) ∧
    (∀ j, (Z.to_nat i ≤ j < Z.to_nat i + k)%nat → B !! j = Some (s32 (ld32 d (blk_off j)))).
Proof.
  revert i s. induction k as [|k IH]; intros i s Hi Hk Hl; cbn [kfor].
  { exists (lh_block (l_log s)). split_and!; [by destruct s as [? []]|done|done|lia]. }
  unfold read_entry at 1. rewrite (proj2 (Z.ltb_lt i LOGBLOCKS)) by lia.
  erewrite kbind_ret by done. set (s1 := mkls _ _).
  destruct (IH (i + 1) s1) as (B & E & HB & Hlow & Hnew); [lia|lia|simpl; by rewrite length_insert|].
  exists B. split; [done|]. split; [done|]. split.
  - intros j Hj. rewrite Hlow by lia. simpl. rewrite list_lookup_insert_ne by lia. done.
  - intros j Hj. destruct (decide (j = Z.to_nat i)) as [->|Hne]; [|apply Hnew; lia].
    rewrite Hlow by lia. simpl. rewrite list_lookup_insert_eq; [done|lia].
Qed.

Lemma read_head_ok c s v :
  copy_pre s v c → 0 <= l_start (l_log s) < v_size v → 0 < v_free v →
  length (lh_block (l_log s)) = Z.to_nat LOGBLOCKS →
  let d := v_data v (l_start (l_log s)) in
  d = v_disk v (l_start (l_log s)) → 0 <= hdr_n d <= LOGBLOCKS →
  ∃ c' t v' B, read_head c s = Ret tt c' (mkls t (set_blocks B (set_lh_n (hdr_n d) (l_log s)))) ∧
    length B = Z.to_nat LOGBLOCKS ∧ take (Z.to_nat (hdr_n d)) B = hdr_blocks d ∧
    same_ctx c c' ∧ cabs t v' ∧ vstep v v' [] [].
Proof.
  intros [Hs Hc Hd Hsz Hq] Hst Hf HB d Hcl Hn. set (a := l_start _) in *. destruct (Hq a) as [Hl Hr].
  destruct (log_bread_ok c s v a) as (i & t1 & E1 & Ht1 & Ei); [done..|lia|by right|].
  set (v1 := view_read _ _ _ _) in *.
  assert (Hr1 : v_ref v1 a = v_ref v a + 1) by (unfold v1; by vlook).
  destruct (cabs_data _ _ _ Ht1 (ltac:(lia) : 0 < v_ref v1 a)) as [Hda _]. rewrite Ei in Hda.
  unfold read_head. erewrite (kbind_ret (kgets l_log)) by done. fold a. kstep E1.
  erewrite (kbind_ret kget) by done. cbn [l_cache]. rewrite Hda.
  change (v_data v1 a) with d. fold (hdr_n d). fold (read_entry d).
  erewrite (kbind_ret (lmod _)) by done. cbn [l_cache l_log].
  destruct (read_loop d (Z.to_nat (hdr_n d)) 0 c (mkls t1 (set_lh_n (hdr_n d) (l_log s))))
    as (B & E2 & HlB & _ & Hnew); [lia..|done|]. kstep E2. cbn [l_cache l_log].
  destruct (zoom_brelse_ok c (mkls t1 (set_blocks B (set_lh_n (hdr_n d) (l_log s)))) v1 a)
    as (c3 & t3 & E3 & Hc3 & Ht3); [done..|lia|unfold v1; by vlook|intros _; unfold v1; by vlook|].
  rewrite Ei in E3. exists c3, t3, (view_release a v1), B.
  split; [exact E3|]. split; [done|]. split; [|split; [done|split; [done|]]].
  - unfold hdr_blocks. apply list_eq. intros j. rewrite list_lookup_fmap.
    destruct (decide (j < Z.to_nat (hdr_n d))%nat) as [Hj|Hj].
    + rewrite lookup_take_lt, lookup_seq_lt by done. simpl. apply Hnew. lia.
    + rewrite lookup_take_ge, lookup_seq_ge by lia. done.
  - unfold v1. vstep_solve a a.
Qed.
End heads.

(** ** Recovery

    [recovered start d]: the contents of the home blocks that recovery produces from device [d]. *)
Fixpoint log_lookup (start : Z) (d : Z → block) (i : Z) (l : list Z) (b : Z) : option block :=
  match l with
  | [] => None
  | x :: l' => if decide (x = b) then Some (d (start + i + 1)) else log_lookup start d (i + 1) l' b
  end.

Definition recovered (start : Z) (d : Z → block) (b : Z) : block :=
  default (d b) (log_lookup start d 0 (hdr_blocks (d start)) b).

(** The header of device [d] is one that [write_head] can have written. *)
Record disk_ok (start size : Z) (d : Z → block) : Prop := mkdok {
  do_start : 0 <= start ∧ start + LOGBLOCKS < size ∧ size <= 2 ^ 22;
  do_n : 0 <= hdr_n (d start) <= LOGBLOCKS;
  do_nodup : NoDup (hdr_blocks (d start));
  do_home : ∀ b, b ∈ hdr_blocks (d start) → home start size b
}.

Section recovered.
Implicit Types (start size i b : Z) (d : Z → block) (l : list Z) (f : Z → block).

Lemma log_lookup_none start d i l b : b ∉ l → log_lookup start d i l b = None.
Proof.
  revert i. induction l as [|x l IH]; intros i; simpl; [done|].
  intros [Hx Hl]%not_elem_of_cons. rewrite decide_False by done. auto.
Qed.

Lemma log_lookup_some start d i l j b :
  NoDup l → l !! j = Some b → log_lookup start d i l b = Some (d (start + (i + Z.of_nat j) + 1)).
Proof.
  intros Hnd. revert i j. induction Hnd as [|x l Hx Hnd IH]; intros i j Hj; [done|].
  destruct j as [|j]; simpl in *.
  - injection Hj as ->. rewrite decide_True by done. by rewrite Z.add_0_r.
  - rewrite decide_False.
    + rewrite (IH (i + 1) j Hj). do 2 f_equal. lia.
    + intros ->. by apply Hx, list_elem_of_lookup_2 with j.
Qed.

Lemma log_lookup_ext start d d' i l b :
  (∀ j, 0 <= j < Z.of_nat (length l) → d' (start + (i + j) + 1) = d (start + (i + j) + 1)) →
  log_lookup start d' i l b = log_lookup start d i l b.
Proof.
  revert i. induction l as [|x l IH]; intros i E; simpl in *; [done|]. case_decide.
  - f_equal. specialize (E 0 ltac:(lia)). by rewrite Z.add_0_r in E.
  - apply IH. intros j Hj. specialize (E (j + 1) ltac:(lia)).
    replace (i + 1 + j) with (i + (j + 1)) by lia. done.
Qed.

Lemma length_hdr_blocks x : length (hdr_blocks x) = Z.to_nat (hdr_n x).
Proof. unfold hdr_blocks. by rewrite length_fmap, length_seq. Qed.

Lemma hdr_blocks_nil x : hdr_n x = 0 → hdr_blocks x = [].
Proof. intros E. unfold hdr_blocks. by rewrite E. Qed.

Lemma recovered_empty start d b : hdr_n (d start) = 0 → recovered start d b = d b.
Proof. intros E. unfold recovered. by rewrite hdr_blocks_nil. Qed.

Lemma recovered_in start size d j b :
  disk_ok start size d → hdr_blocks (d start) !! j = Some b →
  recovered start d b = d (start + Z.of_nat j + 1).
Proof. intros [] Hj. unfold recovered. by rewrite (log_lookup_some _ _ _ _ j). Qed.

Lemma recovered_out start d b : b ∉ hdr_blocks (d start) → recovered start d b = d b.
Proof. intros Hb. unfold recovered. by rewrite log_lookup_none. Qed.

Lemma home_writes_fst l f : (home_writes l f).*1 = l.
Proof. unfold home_writes. rewrite <- list_fmap_compose. apply list_fmap_id. Qed.

Lemma apply_home l f d b :
  apply_writes (home_writes l f) d b = if decide (b ∈ l) then f b else d b.
Proof.
  revert d. induction l as [|x l IH]; intros d; [done|].
  change (home_writes (x :: l) f) with ((x, f x) :: home_writes l f). simpl. rewrite IH.
  destruct (decide (b ∈ l)) as [Hb|Hb].
  - rewrite decide_True; [done|]. by constructor.
  - destruct (decide (b = x)) as [->|Hne].
    + rewrite fn_lookup_insert, decide_True by constructor. done.
    + rewrite fn_lookup_insert_ne, decide_False by set_solver. done.
Qed.
End recovered.

(** ** Crashes

    [same_home]: two devices agree on the home blocks. *)
Definition same_home (start size : Z) (d d' : Z → block) : Prop :=
  ∀ b, home start size b → d b = d' b.

Lemma take_app_cases {A} k (l1 l2 : list A) :
  (k ≤ length l1)%nat ∧ take k (l1 ++ l2) = take k l1 ∨
  ∃ k', k = (length l1 + S k')%nat ∧ take k (l1 ++ l2) = l1 ++ take (S k') l2.
Proof.
  destruct (decide (k ≤ length l1)%nat) as [Hk|Hk].
  - left. split; [done|]. by rewrite take_app_le.
  - right. exists (k - length l1 - 1)%nat. split; [lia|].
    rewrite take_app_ge by lia. do 2 f_equal. lia.
Qed.

Section crash.
Context (start size : Z).
Implicit Types (d f : Z → block) (l : list Z) (b : Z).

Lemma home_not_log b i : home start size b → 0 <= i < LOGBLOCKS → b ≠ start + i + 1.
Proof. intros [_ H] Hi. lia. Qed.

Lemma home_not_start b : home start size b → b ≠ start.
Proof. intros [_ H]. unfold LOGBLOCKS, MAXOPBLOCKS in *. lia. Qed.

(** Devices with the same header and log blocks. *)
Lemma disk_ok_ext d d' : d' start = d start → disk_ok start size d → disk_ok start size d'.
Proof. intros E []. split; rewrite ?E; done. Qed.

Lemma recovered_ext d d' b :
  disk_ok start size d → d' start = d start →
  (∀ i, 0 <= i < LOGBLOCKS → d' (start + i + 1) = d (start + i + 1)) →
  (b ∉ hdr_blocks (d start) → d' b = d b) → recovered start d' b = recovered start d b.
Proof.
  intros [Hst Hn Hnd Hh] E El Eb. destruct (decide (b ∈ hdr_blocks (d start))) as [Hb|Hb].
  - unfold recovered. rewrite E, (log_lookup_ext start d d').
    + apply list_elem_of_lookup in Hb as [j Hj]. by rewrite (log_lookup_some _ _ _ _ j b).
    + intros j Hj. rewrite Z.add_0_l. apply El. rewrite length_hdr_blocks in Hj. lia.
  - rewrite !recovered_out; [auto|done|by rewrite E].
Qed.

(** Device writes at home blocks of the header, with the logged contents, do not change what
    recovery will produce; neither does clearing the header after all of them. *)
Lemma install_prefix d f h k :
  disk_ok start size d → hdr_n h = 0 →
  (∀ j b, hdr_blocks (d start) !! j = Some b → f b = d (start + Z.of_nat j + 1)) →
  let d' := apply_writes (take k (home_writes (hdr_blocks (d start)) f ++ [(start, h)])) d in
  disk_ok start size d' ∧ same_home start size (recovered start d') (recovered start d).
Proof.
  intros Hd Hh Hf. set (l := hdr_blocks (d start)) in *. pose proof (do_home _ _ _ Hd) as Hhome. fold l in Hhome.
  assert (Hrec : ∀ b, b ∈ l → f b = recovered start d b).
  { intros b [j Hj]%list_elem_of_lookup. rewrite (Hf j b Hj). symmetry. by eapply recovered_in. }
  destruct (take_app_cases k (home_writes l f) [(start, h)]) as [[_ ->] | (k' & _ & ->)]; cbv zeta.
  - unfold home_writes. rewrite <- fmap_take. change (_ <$> take k l) with (home_writes (take k l) f).
    assert (Hsub : ∀ b, b ∈ take k l → b ∈ l) by (intros b; apply subseteq_take).
    assert (Hout : ∀ b, b ∉ take k l → apply_writes (home_writes (take k l) f) d b = d b).
    { intros b Hb. by rewrite apply_home, decide_False. }
    assert (Est : apply_writes (home_writes (take k l) f) d start = d start).
    { apply Hout. intros Hs%Hsub%Hhome. by apply home_not_start in Hs. }
    split; [by eapply disk_ok_ext|]. intros b Hb. apply recovered_ext; [done..| |].
    + intros i Hi. apply Hout. intros Hs%Hsub%Hhome. by apply (home_not_log _ i) in Hs.
    + intros Hbl. apply Hout. auto.
  - rewrite take_ge by (simpl; lia). set (d1 := apply_writes (home_writes l f) d).
    assert (Ed : ∀ b, apply_writes (home_writes l f ++ [(start, h)]) d b = <[start:=h]> d1 b).
    { intros b. by rewrite apply_writes_app. }
    assert (Es : apply_writes (home_writes l f ++ [(start, h)]) d start = h).
    { rewrite Ed. apply fn_lookup_insert. }
    split.
    + destruct Hd as [Hst _ _ _]. split; rewrite ?Es, ?(hdr_blocks_nil _ Hh).
      * done.
      * rewrite Hh. unfold LOGBLOCKS, MAXOPBLOCKS. lia.
      * constructor.
      * by intros b ?%elem_of_nil.
    + intros b Hb. rewrite recovered_empty by (by rewrite Es).
      rewrite Ed, fn_lookup_insert_ne by (by apply not_eq_sym, home_not_start). unfold d1.
      rewrite apply_home. case_decide as Hbl; [by apply Hrec|]. symmetry. by apply recovered_out.
Qed.

Lemma log_writes_fst i l f b : b ∈ (log_writes start i l f).*1 →
  ∃ j, 0 <= j < Z.of_nat (length l) ∧ b = start + (i + j) + 1.
Proof.
  revert i. induction l as [|x l IH]; intros i; simpl; [by intros ?%elem_of_nil|].
  intros [-> | (j & Hj & ->)%IH]%elem_of_cons.
  - exists 0. split; [lia|]. f_equal. lia.
  - exists (j + 1). split; [lia|]. f_equal. lia.
Qed.

Lemma length_log_writes i l f : length (log_writes start i l f) = length l.
Proof. revert i. induction l; intros; simpl; auto. Qed.

Lemma apply_log_writes i l f d j b :
  l !! j = Some b → apply_writes (log_writes start i l f) d (start + (i + Z.of_nat j) + 1) = f b.
Proof.
  revert i j d. induction l as [|x l IH]; intros i j d Hj; [done|]. simpl. destruct j as [|j]; simpl in Hj.
  - injection Hj as ->. rewrite Z.add_0_r. rewrite apply_writes_out; [apply fn_lookup_insert|].
    intros (k & Hk & E)%log_writes_fst. lia.
  - replace (i + Z.of_nat (S j)) with (i + 1 + Z.of_nat j) by lia. by apply IH.
Qed.

(** The writes a commit of the blocks [l] with contents [f] performs. *)
Definition commit_writes (l : list Z) (f : Z → block) (h h0 : block) : list bwrite_ev :=
  log_writes start 0 l f ++ [(start, h)] ++ home_writes l f ++ [(start, h0)].

(** Devices are compared block by block. *)
#[global] Instance recovered_proper : Proper (pointwise_relation Z eq ==> eq ==> eq) (recovered start).
Proof.
  intros d d' E b b' <-. unfold recovered. rewrite (E start), (log_lookup_ext start d' d) by (intros; apply E).
  by rewrite (E b).
Qed.

#[global] Instance disk_ok_proper : Proper (pointwise_relation Z eq ==> iff) (disk_ok start size).
Proof. intros d d' E. split; apply disk_ok_ext; by rewrite (E start). Qed.

(** Writes to the log blocks change neither the header nor a home block. *)
Lemma log_writes_out l f ws d b :
  ws ⊆ log_writes start 0 l f → Z.of_nat (length l) <= LOGBLOCKS → b = start ∨ home start size b →
  apply_writes ws d b = d b.
Proof.
  intros Hws Hlen Hb. apply apply_writes_out. intros (w & -> & Hw%Hws)%list_elem_of_fmap.
  destruct (log_writes_fst 0 l f w.1) as (j & Hj & E); [apply list_elem_of_fmap; eauto|].
  destruct Hb as [Hb|Hb]; [lia|]. apply (home_not_log _ (0 + j)) in Hb; lia.
Qed.

(** A transaction of the blocks [l] with the header [h]. *)
Record trans_ok (l : list Z) (h : block) : Prop := mktr {
  tr_blocks : hdr_blocks h = l;
  tr_n : hdr_n h = Z.of_nat (length l);
  tr_len : Z.of_nat (length l) <= LOGBLOCKS;
  tr_nodup : NoDup l;
  tr_home : ∀ b, b ∈ l → home start size b
}.

(** Once the log blocks and the header are written, recovery produces the new contents. *)
Lemma commit_point d f l h :
  disk_ok start size d → trans_ok l h →
  let d1 := <[start:=h]> (apply_writes (log_writes start 0 l f) d) in
  disk_ok start size d1 ∧ (∀ j b, l !! j = Some b → f b = d1 (start + Z.of_nat j + 1)) ∧
  same_home start size (recovered start d1) (λ b, if decide (b ∈ l) then f b else d b).
Proof.
  intros Hd [Hhl Hhn Hlen Hnd Hh] d1.
  assert (Es : d1 start = h) by apply fn_lookup_insert.
  assert (Hd1 : disk_ok start size d1).
  { destruct Hd as [Hst _ _ _]. split; rewrite ?Es, ?Hhl; try done. lia. }
  assert (Hf : ∀ j b, l !! j = Some b → f b = d1 (start + Z.of_nat j + 1)).
  { intros j b Hj. unfold d1. rewrite fn_lookup_insert_ne by lia.
    by rewrite <- (apply_log_writes 0 l f d j b Hj). }
  split_and!; [done..|]. intros b Hb. case_decide as Hbl.
  - apply list_elem_of_lookup in Hbl as [j Hj]. rewrite (Hf j b Hj).
    eapply recovered_in; [done|]. by rewrite Es, Hhl.
  - rewrite recovered_out by (by rewrite Es, Hhl). unfold d1.
    rewrite fn_lookup_insert_ne by (by apply not_eq_sym, home_not_start).
    apply log_writes_out with l f; auto.
Qed.

(** After any prefix of a commit's writes, recovery produces the old contents of every home block if
    the header write is not in the prefix, and the new contents of every home block if it is. *)
Lemma commit_prefix d f l h h0 k :
  disk_ok start size d → hdr_n (d start) = 0 → hdr_n h0 = 0 → trans_ok l h →
  let d' := apply_writes (take k (commit_writes l f h h0)) d in
  disk_ok start size d' ∧
  same_home start size (recovered start d')
    (if decide (k ≤ length l)%nat then d else λ b, if decide (b ∈ l) then f b else d b).
Proof.
  intros Hd Hn Hn0 Ht. destruct (commit_point d f l h Hd Ht) as (Hd1 & Hf & Hrec1).
  destruct Ht as [Hhl Hhn Hlen Hnd Hh]. cbv zeta. unfold commit_writes.
  destruct (take_app_cases k (log_writes start 0 l f) ([(start, h)] ++ home_writes l f ++ [(start, h0)]))
    as [[Hk ->] | (k' & -> & ->)]; rewrite length_log_writes in *.
  - rewrite decide_True by done. set (d' := apply_writes _ d).
    assert (E : d' start = d start).
    { apply log_writes_out with l f; [apply subseteq_take|done|by left]. }
    split; [by eapply disk_ok_ext|]. intros b Hb. rewrite recovered_empty by (by rewrite E).
    apply log_writes_out with l f; [apply subseteq_take|done|by right].
  - rewrite decide_False by lia. set (d1 := <[start:=h]> _) in *.
    assert (Es : d1 start = h) by apply fn_lookup_insert.
    pose proof (install_prefix d1 f h0 k' Hd1 Hn0) as Hpre. rewrite Es, Hhl in Hpre.
    destruct (Hpre Hf) as [H1 H2]. clear Hpre.
    assert (Ed : pointwise_relation Z eq
      (apply_writes (log_writes start 0 l f ++ take (S k') ([(start, h)] ++ home_writes l f ++ [(start, h0)])) d)
      (apply_writes (take k' (home_writes l f ++ [(start, h0)])) d1)).
    { intros b. by rewrite apply_writes_app. }
    split; [by apply (disk_ok_proper _ _ Ed)|]. intros b Hb.
    etrans; [apply (recovered_proper _ _ Ed b b eq_refl)|]. rewrite H2 by done. by apply Hrec1.
Qed.
End crash.

(** ** The log invariant and commit *)

Definition logged (lg : logst) : list Z := take (Z.to_nat (lh_n lg)) (lh_block lg).

Section commit.
Context {S : Type} `{BlockCache S}.
Implicit Types (s : lsys S) (v : cview) (c : kctx).

(** Outside of [commit]: the header on the device is empty, the logged blocks are distinct home
    blocks held in the cache, and every other block that nobody is changing is clean. *)
Record linv s v : Prop := mklinv {
  li_abs : cabs (l_cache s) v;
  li_dev : l_dev (l_log s) = ROOTDEV;
  li_geom : 0 <= l_start (l_log s) ∧ l_start (l_log s) + LOGBLOCKS < v_size v ∧ v_size v <= 2 ^ 22;
  li_len : length (lh_block (l_log s)) = Z.to_nat LOGBLOCKS;
  li_n : 0 <= lh_n (l_log s) <= LOGBLOCKS;
  li_nodup : NoDup (logged (l_log s));
  li_home : ∀ b, b ∈ logged (l_log s) → home (l_start (l_log s)) (v_size v) b;
  li_hdr : hdr_n (v_disk v (l_start (l_log s))) = 0;
  li_pin : ∀ b, b ∈ logged (l_log s) → 0 < v_ref v b;
  li_clean : ∀ b, b ∉ logged (l_log s) → v_lock v b = None → v_data v b = v_disk v b
}.

Lemma length_logged s v : linv s v → Z.of_nat (length (logged (l_log s))) = lh_n (l_log s).
Proof.
  intros Hi. destruct (li_n _ _ Hi). unfold logged. rewrite length_take, (li_len _ _ Hi). lia.
Qed.

Lemma linv_disk_ok s v : linv s v → disk_ok (l_start (l_log s)) (v_size v) (v_disk v).
Proof.
  intros Hi. pose proof (li_hdr _ _ Hi) as Hh. split; rewrite ?(hdr_blocks_nil _ Hh), ?Hh.
  - apply (li_geom _ _ Hi).
  - unfold LOGBLOCKS, MAXOPBLOCKS. lia.
  - constructor.
  - by intros b ?%elem_of_nil.
Qed.

Lemma linv_start_free s v : linv s v → l_start (l_log s) ∉ logged (l_log s).
Proof. intros Hi Hs%(li_home _ _ Hi). by apply home_not_start in Hs. Qed.

(** The header a commit writes. *)
Definition commit_head s v : block :=
  put_head (lh_n (l_log s)) (lh_block (l_log s)) (v_data v (l_start (l_log s))).

Lemma linv_trans_ok s v :
  linv s v → trans_ok (l_start (l_log s)) (v_size v) (logged (l_log s)) (commit_head s v).
Proof.
  intros Hi. pose proof (length_logged _ _ Hi) as Hl. pose proof (li_geom _ _ Hi) as Hg.
  assert (Hd : length (v_data v (l_start (l_log s))) = bsize).
  { eapply cabs_len; [apply Hi|]. unfold LOGBLOCKS, MAXOPBLOCKS in *. lia. }
  pose proof (li_n _ _ Hi) as Hn. split.
  - apply hdr_blocks_put; [done..| |].
    + rewrite (li_len _ _ Hi). lia.
    + apply Forall_forall. intros b Hb. apply (li_home _ _ Hi) in Hb as [Hb _]. lia.
  - rewrite Hl. by apply hdr_n_put.
  - lia.
  - apply (li_nodup _ _ Hi).
  - apply (li_home _ _ Hi).
Qed.

Lemma linv_copy_pre s v c : linv s v → quiet v → bio_clear c → copy_pre s v c.
Proof. intros [] Hq Hc. split; try done. tauto. Qed.

Lemma linv_loop s v c : linv s v → quiet v → bio_clear c → loop_pre s v c (logged (l_log s)) 0.
Proof.
  intros Hi Hq Hc. pose proof (length_logged _ _ Hi). pose proof (li_n _ _ Hi). split.
  - by apply linv_copy_pre.
  - intros j b Hj. by apply lookup_take_Some in Hj as [? _].
  - lia.
  - pose proof (li_geom _ _ Hi). tauto.
  - apply (li_home _ _ Hi).
Qed.

(** The loop precondition survives writes that drop no reference. *)
Lemma loop_pre_step s v c l i c' t v' ws :
  loop_pre s v c l i → same_ctx c c' → cabs t v' → vstep v v' ws [] →
  loop_pre (mkls t (l_log s)) v' c' l i.
Proof.
  intros [Hc Hidx Hi Hst Hh] Hc' Ht Hv. split; cbn [l_log]; rewrite ?(vs_size _ _ _ _ Hv); try done.
  eapply copy_pre_step; eauto. intros b. simpl. destruct (cp_quiet _ _ _ Hc b). lia.
Qed.

(** The first half of a commit: up to the header write. *)
Lemma commit_log_ok c s v :
  linv s v → quiet v → bio_clear c → 0 < v_free v →
  ∃ c' t v', (write_log ;;; write_head) c s = Ret tt c' (mkls t (l_log s)) ∧ same_ctx c c' ∧ cabs t v' ∧
    vstep v v' (log_writes (l_start (l_log s)) 0 (logged (l_log s)) (v_data v) ++
                [(l_start (l_log s), commit_head s v)]) [].
Proof.
  intros Hi Hq Hc Hf. pose proof (linv_loop _ _ _ Hi Hq Hc) as Hlp.
  pose proof (length_logged _ _ Hi) as Hlen. pose proof (li_geom _ _ Hi) as Hg.
  pose proof (li_n _ _ Hi) as Hn.
  destruct (write_log_loop _ _ _ _ _ (v_data v) Hlp Hf) as (c1 & t1 & v1 & E1 & Hc1 & Ht1 & Hv1);
    [apply (li_pin _ _ Hi)|done|].
  replace (length (logged (l_log s))) with (Z.to_nat (lh_n (l_log s))) in E1 by lia.
  pose proof (loop_pre_step _ _ _ _ _ _ _ _ _ Hlp Hc1 Ht1 Hv1) as Hlp1.
  destruct (write_head_ok c1 (mkls t1 (l_log s)) v1) as (c2 & t2 & v2 & E2 & Hc2 & Ht2 & Hv2).
  - apply Hlp1.
  - cbn [l_log]. rewrite (vs_size _ _ _ _ Hv1). unfold LOGBLOCKS, MAXOPBLOCKS in *. lia.
  - pose proof (vs_free _ _ _ _ Hv1). lia.
  - done.
  - exists c2, t2, v2. cbn [l_log] in Hv2, E2.
    rewrite (vs_data _ _ _ _ Hv1), (log_writes_out _ (v_size v) (logged (l_log s)) (v_data v)) in Hv2
      by (done || lia || by left).
    split_and!; [|by transitivity c1|done|apply (vstep_trans _ _ _ _ _ _ _ Hv1 Hv2)].
    erewrite (kbind_ret write_log); [exact E2|]. exact E1.
Qed.
(** The second half: installing the logged blocks and clearing the header. *)
Lemma commit_install_ok c s v d f :
  loop_pre s v c (logged (l_log s)) 0 → NoDup (logged (l_log s)) → 0 < v_free v →
  0 <= lh_n (l_log s) <= LOGBLOCKS → length (lh_block (l_log s)) = Z.to_nat LOGBLOCKS →
  (∀ b, b ∈ logged (l_log s) → 0 < v_ref v b) → v_data v (l_start (l_log s)) = d →
  (∀ j b, logged (l_log s) !! j = Some b → let a := l_start (l_log s) + (0 + Z.of_nat j) + 1 in
     v_data v a = f b ∧ v_disk v a = f b) →
  ∃ c' t v', (install_trans false ;;; lmod (set_lh_n 0) ;;; write_head) c s =
      Ret tt c' (mkls t (set_lh_n 0 (l_log s))) ∧ same_ctx c c' ∧ cabs t v' ∧
    vstep v v' (home_writes (logged (l_log s)) f ++
                [(l_start (l_log s), put_head 0 (lh_block (l_log s)) d)]) (logged (l_log s)).
Proof.
  intros Hlp Hnd Hf Hn Hlen Hpin Hd Hdata.
  destruct (install_loop false _ _ _ _ _ f Hlp Hnd Hf) as (c1 & t1 & v1 & E1 & Hc1 & Ht1 & Hv1); [done..|].
  assert (Hst : l_start (l_log s) ∉ logged (l_log s)).
  { intros Hs%(lp_home _ _ _ _ _ Hlp). by apply home_not_start in Hs. }
  assert (Hp1 : copy_pre (mkls t1 (l_log s)) v1 c1).
  { eapply copy_pre_step; eauto; [apply Hlp|]. intros b.
    destruct (cp_quiet _ _ _ (lp_copy _ _ _ _ _ Hlp) b) as [_ ?].
    destruct (decide (b ∈ logged (l_log s))) as [Hb|Hb].
    - rewrite occurs_in by done. specialize (Hpin b Hb). lia.
    - rewrite occurs_out by done. lia. }
  destruct (write_head_ok c1 (mkls t1 (set_lh_n 0 (l_log s))) v1) as (c2 & t2 & v2 & E2 & Hc2 & Ht2 & Hv2).
  - destruct Hp1. by split.
  - simpl. rewrite (vs_size _ _ _ _ Hv1). pose proof (lp_start _ _ _ _ _ Hlp).
    unfold LOGBLOCKS, MAXOPBLOCKS in *. lia.
  - pose proof (vs_free _ _ _ _ Hv1). lia.
  - simpl. unfold LOGBLOCKS, MAXOPBLOCKS. lia.
  - exists c2, t2, v2. cbn [l_log set_lh_n l_start lh_n lh_block] in Hv2, E2.
    rewrite (vs_data _ _ _ _ Hv1), apply_writes_out, Hd in Hv2 by (by rewrite home_writes_fst).
    pose proof (vstep_trans _ _ _ _ _ _ _ Hv1 Hv2) as Hv. rewrite app_nil_r in Hv.
    split_and!; [|by transitivity c1|done|done].
    erewrite (kbind_ret (install_trans false)); [|unfold install_trans; kexec].
    2:{ replace (Z.to_nat (lh_n (l_log s))) with (length (logged (l_log s))); [exact E1|].
        unfold logged. rewrite length_take. lia. }
    erewrite (kbind_ret (lmod _)) by done. exact E2.
Qed.

Lemma commit_run c s v :
  linv s v → quiet v → bio_clear c → 0 < v_free v → 0 < lh_n (l_log s) →
  let lg := l_log s in
  ∃ c' t v', commit c s = Ret tt c' (mkls t (set_lh_n 0 lg)) ∧ same_ctx c c' ∧ cabs t v' ∧
    vstep v v' (commit_writes (l_start lg) (logged lg) (v_data v) (commit_head s v)
                  (put_head 0 (lh_block lg) (commit_head s v))) (logged lg).
Proof.
  intros Hi Hq Hc Hf Hn lg. subst lg. pose proof (length_logged _ _ Hi) as Hlen.
  destruct (commit_log_ok _ _ _ Hi Hq Hc Hf) as (c1 & t1 & v1 & E1 & Hc1 & Ht1 & Hv1).
  pose proof (loop_pre_step _ _ _ _ _ _ _ _ _ (linv_loop _ _ _ Hi Hq Hc) Hc1 Ht1 Hv1) as Hlp1.
  destruct (commit_install_ok c1 (mkls t1 (l_log s)) v1 (commit_head s v) (v_data v))
    as (c2 & t2 & v2 & E2 & Hc2 & Ht2 & Hv2); cbn [l_log]; try done; try apply Hi.
  - pose proof (vs_free _ _ _ _ Hv1). lia.
  - intros b Hb. rewrite (vs_ref _ _ _ _ Hv1). simpl. rewrite Z.sub_0_r. by apply (li_pin _ _ Hi).
  - rewrite (vs_data _ _ _ _ Hv1), apply_writes_app. simpl. apply fn_lookup_insert.
  - intros j b Hj. cbv zeta. rewrite (vs_data _ _ _ _ Hv1), (vs_disk _ _ _ _ Hv1), !apply_writes_app.
    cbn [apply_writes]. rewrite !fn_lookup_insert_ne by lia. split; by apply apply_log_writes.
  - exists c2, t2, v2. split_and!; [|by transitivity c1|done|].
    + unfold commit. erewrite (kbind_ret (kgets l_log)) by done.
      rewrite (proj2 (Z.ltb_lt _ _)) by done. rewrite <- kbind_assoc. kstep E1. exact E2.
    + pose proof (vstep_trans _ _ _ _ _ _ _ Hv1 Hv2) as Hv. unfold commit_writes.
      by rewrite <- app_assoc in Hv.
Qed.
End commit.

(** ** Recovery, as run by [initlog] *)

Section recover.
Context {S : Type} `{BlockCache S}.
Implicit Types (s : lsys S) (v : cview) (c : kctx).

(** The writes of a recovery from device [d] with the in-memory block array [B]. *)
Definition recovery_writes (start : Z) (d : Z → block) (B : list Z) : list bwrite_ev :=
  home_writes (hdr_blocks (d start)) (recovered start d) ++ [(start, put_head 0 B (d start))].

Lemma install_recover_ok c s v :
  copy_pre s v c → disk_ok (l_start (l_log s)) (v_size v) (v_disk v) →
  length (lh_block (l_log s)) = Z.to_nat LOGBLOCKS →
  lh_n (l_log s) = hdr_n (v_disk v (l_start (l_log s))) →
  logged (l_log s) = hdr_blocks (v_disk v (l_start (l_log s))) →
  (∀ b, v_data v b = v_disk v b) → 1 < v_free v →
  ∃ c' t v', (install_trans true ;;; lmod (set_lh_n 0) ;;; write_head) c s =
      Ret tt c' (mkls t (set_lh_n 0 (l_log s))) ∧ same_ctx c c' ∧ cabs t v' ∧
    vstep v v' (recovery_writes (l_start (l_log s)) (v_disk v) (lh_block (l_log s))) [].
Proof.
  intros Hp Hd HB En El Hcl Hf. destruct (Hd) as [Hst Hn Hnd Hh].
  set (start := l_start (l_log s)) in *. set (l := hdr_blocks (v_disk v start)) in *.
  pose proof (length_hdr_blocks (v_disk v start)) as Hlen. fold l in Hlen.
  assert (Hlp : loop_pre s v c l 0).
  { split; [done| |lia|tauto|done]. intros j b Hj. rewrite <- El in Hj.
    by apply lookup_take_Some in Hj as [? _]. }
  destruct (install_loop true l 0 c s v (recovered start (v_disk v)) Hlp Hnd Hf)
    as (c1 & t1 & v1 & E1 & Hc1 & Ht1 & Hv1); [done| |].
  { intros j b Hj. cbv zeta. rewrite Hcl. split; symmetry; by eapply recovered_in. }
  assert (Hp1 : copy_pre (mkls t1 (l_log s)) v1 c1).
  { eapply copy_pre_step; eauto. intros b. simpl. destruct (cp_quiet _ _ _ Hp b). lia. }
  destruct (write_head_ok c1 (mkls t1 (set_lh_n 0 (l_log s))) v1) as (c2 & t2 & v2 & E2 & Hc2 & Ht2 & Hv2).
  - destruct Hp1. by split.
  - simpl. fold start. rewrite (vs_size _ _ _ _ Hv1). unfold LOGBLOCKS, MAXOPBLOCKS in *. lia.
  - pose proof (vs_free _ _ _ _ Hv1). lia.
  - simpl. unfold LOGBLOCKS, MAXOPBLOCKS. lia.
  - exists c2, t2, v2. cbn [l_log set_lh_n l_start lh_n lh_block] in Hv2, E2. fold start in Hv2.
    rewrite (vs_data _ _ _ _ Hv1), apply_writes_out, Hcl in Hv2.
    2:{ rewrite home_writes_fst. intros Hs%Hh. by apply home_not_start in Hs. }
    split_and!; [|by transitivity c1|done|apply (vstep_trans _ _ _ _ _ _ _ Hv1 Hv2)].
    erewrite (kbind_ret (install_trans true)); [|unfold install_trans; kexec].
    2:{ rewrite En, <- Hlen. exact E1. }
    erewrite (kbind_ret (lmod _)) by done. exact E2.
Qed.

Lemma initlog_run c s v start :
  cabs (l_cache s) v → bio_clear c → quiet v → (∀ b, v_data v b = v_disk v b) → 1 < v_free v →
  disk_ok start (v_size v) (v_disk v) → length (lh_block (l_log s)) = Z.to_nat LOGBLOCKS →
  ∃ c' t v' B, initlog ROOTDEV start c s =
      Ret tt c' (mkls t (mklog start (l_outstanding (l_log s)) (l_committing (l_log s)) ROOTDEV 0 B)) ∧
    same_ctx c c' ∧ cabs t v' ∧ length B = Z.to_nat LOGBLOCKS ∧
    vstep v v' (recovery_writes start (v_disk v) B) [].
Proof.
  intros Hs Hc Hq Hcl Hf Hd HB. destruct (Hd) as [(Hst0 & Hst & Hsz) Hn _ _].
  unfold initlog. change (BSIZE <=? sizeof_logheader) with false. cbv iota.
  erewrite (kbind_ret (lmod _)) by done. unfold recover_from_log.
  rewrite s32_small by (unfold LOGBLOCKS, MAXOPBLOCKS in *; lia).
  set (s0 := mkls _ _).
  assert (Hp0 : copy_pre s0 v c) by (by split).
  destruct (read_head_ok c s0 v Hp0) as (c1 & t1 & v1 & B & E1 & HlB & Etk & Hc1 & Ht1 & Hv1);
    simpl l_start; [unfold LOGBLOCKS, MAXOPBLOCKS in *; lia|lia|done|done|by rewrite Hcl|].
  simpl l_start in E1, Etk. rewrite Hcl in E1, Etk. kstep E1.
  set (s1 := mkls t1 _).
  assert (Edisk : ∀ b, v_disk v1 b = v_disk v b) by apply (vs_disk _ _ _ _ Hv1).
  destruct (install_recover_ok c1 s1 v1) as (c2 & t2 & v2 & E2 & Hc2 & Ht2 & Hv2);
    simpl l_start; simpl lh_block; simpl lh_n.
  - apply (copy_pre_step _ _ _ _ _ _ _ _ Hp0 Hc1 Ht1) in Hv1; [by destruct Hv1|].
    intros b. simpl. destruct (Hq b). lia.
  - rewrite (vs_size _ _ _ _ Hv1). by apply (disk_ok_proper _ _ _ _ Edisk).
  - done.
  - by rewrite Edisk.
  - unfold logged. simpl. by rewrite Edisk, Etk.
  - intros b. rewrite (vs_data _ _ _ _ Hv1), Edisk. apply Hcl.
  - pose proof (vs_free _ _ _ _ Hv1). lia.
  - exists c2, t2, v2, B. split_and!; [exact E2|by transitivity c1|done|done|].
    pose proof (vstep_trans _ _ _ _ _ _ _ Hv1 Hv2) as Hv. simpl in Hv.
    unfold recovery_writes in *. rewrite Edisk in Hv.
    replace (home_writes _ (recovered start (v_disk v)))
      with (home_writes (hdr_blocks (v_disk v start)) (recovered start (v_disk v1))); [done|].
    apply list_fmap_ext. intros i b _. f_equal. by apply recovered_proper.
Qed.
End recover.

(** ** Crash safety *)

(** [struct log] in zeroed memory. *)
Definition log0 : logst := mklog 0 0 0 0 0 (replicate (Z.to_nat LOGBLOCKS) 0).

Section crash_safety.
Context {S : Type} `{BlockCache S}.
Implicit Types (s : lsys S) (t : S) (v : cview) (c : kctx).

(** The machine starts: [binit], then [initlog] with zeroed log memory. *)
Definition reboot (start : Z) (t : S) : kctx → outcome (lsys S) unit :=
  λ c, (zoom cache_lens binit ;;; initlog ROOTDEV start) c (mkls t log0).

(** A cache right after [binit], over a device from which recovery is possible. *)
Record booted (start : Z) t v : Prop := mkbooted {
  bt_abs : cabs t v;
  bt_quiet : quiet v;
  bt_clean : ∀ b, v_data v b = v_disk v b;
  bt_free : 1 < v_free v;
  bt_disk : disk_ok start (v_size v) (v_disk v);
  bt_log : v_log v = []
}.

Lemma power_cycle_booted start c t v ws :
  cabs t v → Forall (λ w, 0 <= w.1 < v_size v ∧ length w.2 = bsize) ws →
  disk_ok start (v_size v) (apply_writes ws (v_disk v)) →
  ∃ t' v', binit c (power_cycle ws t) = Ret tt c t' ∧ booted start t' v' ∧
    v_size v' = v_size v ∧ v_disk v' = apply_writes ws (v_disk v).
Proof.
  intros Ht Hws Hd. destruct (power_cycle_ok c t v ws Ht Hws) as (t' & bu & E & Ht').
  exists t', (view_boot (v_size v) (apply_writes ws (v_disk v)) bu).
  split_and!; [done| |done|done]. split; try done.
Qed.

(** [initlog] leaves an empty log over the recovered contents. *)
Lemma initlog_linv c t v start :
  booted start t v → bio_clear c →
  ∃ c' s' v' B, initlog ROOTDEV start c (mkls t log0) = Ret tt c' s' ∧
    length B = Z.to_nat LOGBLOCKS ∧ vstep v v' (recovery_writes start (v_disk v) B) [] ∧
    linv s' v' ∧ quiet v' ∧ l_log s' = mklog start 0 0 ROOTDEV 0 B ∧
    same_home start (v_size v) (v_disk v') (recovered start (v_disk v)).
Proof.
  intros [Hs Hq Hcl Hf Hd _] Hc.
  destruct (initlog_run c (mkls t log0) v start) as (c' & t' & v' & B & E & Hc' & Ht' & HB & Hv);
    [done..|].
  pose proof (do_start _ _ _ Hd) as Hst.
  assert (Hdl : length (v_disk v start) = bsize).
  { rewrite <- Hcl. eapply cabs_len; [done|]. unfold LOGBLOCKS, MAXOPBLOCKS in *. lia. }
  assert (Hh0 : hdr_n (put_head 0 B (v_disk v start)) = 0).
  { apply hdr_n_put; [unfold LOGBLOCKS, MAXOPBLOCKS; lia|done]. }
  assert (Hdk : ∀ b, v_disk v' b = v_data v' b).
  { intros b. rewrite (vs_disk _ _ _ _ Hv), (vs_data _ _ _ _ Hv). by apply apply_writes_ext. }
  assert (Hs0 : hdr_n (v_disk v' start) = 0).
  { rewrite (vs_disk _ _ _ _ Hv). unfold recovery_writes. rewrite apply_writes_app. simpl.
    by rewrite fn_lookup_insert. }
  exists c'. do 3 eexists. split; [exact E|]. split; [done|]. split; [exact Hv|]. split_and!.
  - split; simpl; rewrite ?(vs_size _ _ _ _ Hv); try done.
    + constructor.
    + by intros b ?%elem_of_nil.
    + by intros b ?%elem_of_nil.
  - intros b. rewrite (vs_lock _ _ _ _ Hv), (vs_ref _ _ _ _ Hv). simpl. rewrite Z.sub_0_r. apply Hq.
  - done.
  - destruct (install_prefix start (v_size v) (v_disk v) (recovered start (v_disk v))
      (put_head 0 B (v_disk v start)) (length (recovery_writes start (v_disk v) B)) Hd Hh0) as [_ Hrec].
    { intros j b Hj. by eapply recovered_in. }
    intros b Hb. rewrite <- (Hrec b Hb). fold (recovery_writes start (v_disk v) B).
    rewrite firstn_all. rewrite recovered_empty; [apply (vs_disk _ _ _ _ Hv)|].
    by rewrite <- (vs_disk _ _ _ _ Hv).
Qed.

(** The blocks written by a commit or a recovery are blocks of the device. *)
Lemma home_writes_wf size l f :
  (∀ b, b ∈ l → 0 <= b < size ∧ length (f b) = bsize) →
  Forall (λ w, 0 <= w.1 < size ∧ length w.2 = bsize) (home_writes l f).
Proof. intros Hl. apply Forall_fmap, Forall_forall. intros b Hb. by apply Hl. Qed.

Lemma log_writes_wf start size i l f :
  0 <= i → 0 <= start → start + i + Z.of_nat (length l) < size → (∀ b, b ∈ l → length (f b) = bsize) →
  Forall (λ w, 0 <= w.1 < size ∧ length w.2 = bsize) (log_writes start i l f).
Proof.
  revert i. induction l as [|x l IH]; intros i Hi Hs Hsz Hl; simpl in *; constructor; simpl.
  - split; [lia|]. apply Hl. constructor.
  - apply IH; [lia..|]. intros b Hb. apply Hl. by constructor.
Qed.

Lemma recovered_len start size d b :
  disk_ok start size d → (∀ b, 0 <= b < size → length (d b) = bsize) → 0 <= b < size →
  length (recovered start d b) = bsize.
Proof.
  intros Hd Hl Hb. destruct (decide (b ∈ hdr_blocks (d start))) as [Hin|Hout].
  - pose proof Hin as [j Hj]%list_elem_of_lookup. rewrite (recovered_in _ size _ j) by done.
    apply lookup_lt_Some in Hj. rewrite length_hdr_blocks in Hj.
    destruct Hd as [Hst Hn _ _]. apply Hl. lia.
  - rewrite recovered_out by done. by apply Hl.
Qed.
End crash_safety.

(** ** Properties: commit, crashes and recovery *)

Section properties.
Context {S : Type} `{BlockCache S}.
Implicit Types (s : lsys S) (t : S) (v : cview) (c : kctx).

Lemma length_commit_head s v : linv s v → length (commit_head s v) = bsize.
Proof.
  intros Hi. pose proof (li_geom _ _ Hi). apply length_put_head; [apply Hi|].
  eapply cabs_len; [apply Hi|]. unfold LOGBLOCKS, MAXOPBLOCKS in *. lia.
Qed.

Lemma clear_head_n s v B : linv s v → hdr_n (put_head 0 B (commit_head s v)) = 0.
Proof.
  intros Hi. apply hdr_n_put; [unfold LOGBLOCKS, MAXOPBLOCKS; lia|]. by apply length_commit_head.
Qed.

(** The writes of a commit are blocks of the device. *)
Lemma commit_writes_wf s v B :
  linv s v →
  Forall (λ w, 0 <= w.1 < v_size v ∧ length w.2 = bsize)
    (commit_writes (l_start (l_log s)) (logged (l_log s)) (v_data v) (commit_head s v)
       (put_head 0 B (commit_head s v))).
Proof.
  intros Hi. pose proof (li_geom _ _ Hi) as Hg. pose proof (length_logged _ _ Hi) as Hlen.
  pose proof (li_n _ _ Hi) as Hn. pose proof (length_commit_head _ _ Hi) as Hh.
  assert (Hst : 0 <= l_start (l_log s) < v_size v) by (unfold LOGBLOCKS, MAXOPBLOCKS in *; lia).
  assert (Hdl : ∀ b, b ∈ logged (l_log s) → 0 <= b < v_size v ∧ length (v_data v b) = bsize).
  { intros b Hb. apply (li_home _ _ Hi) in Hb as [Hb _]. split; [done|]. by eapply cabs_len; [apply Hi|]. }
  unfold commit_writes. apply Forall_app. split; [|apply Forall_app; split; [|apply Forall_app; split]].
  - apply log_writes_wf; [lia..|]. intros b Hb. by apply Hdl.
  - constructor; [done|constructor].
  - by apply home_writes_wf.
  - constructor; [|constructor]. split; [done|]. apply length_put_head; [|done].
    unfold LOGBLOCKS, MAXOPBLOCKS. lia.
Qed.

(** A block not changed by a commit's writes. *)
Lemma apply_commit start size l f h h0 d b :
  trans_ok start size l h → home start size b → Z.of_nat (length l) <= LOGBLOCKS →
  apply_writes (commit_writes start l f h h0) d b = if decide (b ∈ l) then f b else d b.
Proof.
  intros [_ _ _ _ Hh] Hb Hlen. unfold commit_writes. rewrite !apply_writes_app. simpl.
  rewrite fn_lookup_insert_ne by (by apply not_eq_sym, (home_not_start _ size)).
  rewrite apply_home. case_decide; [done|].
  rewrite fn_lookup_insert_ne by (by apply not_eq_sym, (home_not_start _ size)).
  apply (log_writes_out start size l f); auto.
Qed.

Lemma apply_writes_agree ws d d' b :
  (b ∉ ws.*1 → d b = d' b) → apply_writes ws d b = apply_writes ws d' b.
Proof.
  revert d d'. induction ws as [|[bn x] ws IH]; intros d d' E; simpl; [apply E, not_elem_of_nil|].
  apply IH. intros Hb. simpl in E. destruct (decide (b = bn)) as [->|Hne].
  - by rewrite !fn_lookup_insert.
  - rewrite !fn_lookup_insert_ne by done. apply E. set_solver.
Qed.

Lemma commit_writes_covers start l f h h0 b : b ∈ l → b ∈ (commit_writes start l f h h0).*1.
Proof.
  intros Hb. unfold commit_writes. rewrite !fmap_app, home_writes_fst. set_solver.
Qed.

(** The state after the writes of a commit satisfies the log invariant. *)
Lemma linv_committed s v t v' f h h0 :
  linv s v → quiet v → cabs t v' → hdr_n h0 = 0 →
  vstep v v' (commit_writes (l_start (l_log s)) (logged (l_log s)) f h h0) (logged (l_log s)) →
  linv (mkls t (set_lh_n 0 (l_log s))) v'.
Proof.
  intros Hi Hq Ht Hh0 Hv. destruct (Hi). split; simpl; rewrite ?(vs_size _ _ _ _ Hv); try done.
  - constructor.
  - by intros b ?%elem_of_nil.
  - rewrite (vs_disk _ _ _ _ Hv). unfold commit_writes. rewrite !apply_writes_app. simpl.
    by rewrite fn_lookup_insert.
  - by intros b ?%elem_of_nil.
  - intros b _ Hl. rewrite (vs_data _ _ _ _ Hv), (vs_disk _ _ _ _ Hv). apply apply_writes_agree.
    intros Hb. apply li_clean0; [|apply Hq]. intros Hin. apply Hb. by apply commit_writes_covers.
Qed.

(** Commit.  With an unused buffer available and no block locked, [commit] returns; afterwards
    the device holds, for every home block, exactly what the cache held when the commit started, the
    cache still shows the same contents, the log is empty in memory and on the device, each logged
    block has lost exactly the reference [log_write] had given it, and the log invariant holds. *)
Lemma commit_ok c s v :
  linv s v → quiet v → bio_clear c → 0 < v_free v →
  ∃ c' s' v', commit c s = Ret tt c' s' ∧ same_ctx c c' ∧ linv s' v' ∧ quiet v' ∧
    l_log s' = set_lh_n 0 (l_log s) ∧ hdr_n (v_disk v' (l_start (l_log s))) = 0 ∧
    (∀ b, home (l_start (l_log s)) (v_size v) b →
       v_disk v' b = v_data v b ∧ v_data v' b = v_data v b) ∧
    (∀ b, v_ref v' b = v_ref v b - if decide (b ∈ logged (l_log s)) then 1 else 0).
Proof.
  intros Hi Hq Hc Hf. pose proof (length_logged _ _ Hi) as Hlen. pose proof (li_n _ _ Hi) as Hn.
  assert (Hcl : ∀ b, b ∉ logged (l_log s) → v_data v b = v_disk v b).
  { intros b Hb. apply (li_clean _ _ Hi); [done|]. apply Hq. }
  destruct (Z.eq_dec (lh_n (l_log s)) 0) as [E0|Hne].
  { assert (El : logged (l_log s) = []) by (unfold logged; by rewrite E0).
    exists c, s, v. split_and!; try done.
    - unfold commit. kexec. by rewrite E0.
    - unfold set_lh_n. rewrite <- E0. by destruct (l_log s).
    - apply (li_hdr _ _ Hi).
    - intros b _. rewrite Hcl; [done|]. rewrite El. apply not_elem_of_nil.
    - intros b. rewrite El, decide_False by apply not_elem_of_nil. lia. }
  destruct (commit_run _ _ _ Hi Hq Hc Hf) as (c' & t & v' & E & Hc' & Ht & Hv); [lia|].
  pose proof (linv_trans_ok _ _ Hi) as Htr. pose proof (li_geom _ _ Hi) as Hg.
  set (lg := l_log s) in *. set (h0 := put_head 0 _ _) in Hv.
  pose proof (clear_head_n _ _ (lh_block lg) Hi) as Hh0. fold h0 in Hh0.
  assert (Href : ∀ b, v_ref v' b = v_ref v b - if decide (b ∈ logged lg) then 1 else 0).
  { intros b. rewrite (vs_ref _ _ _ _ Hv). case_decide as Hb.
    - by rewrite occurs_in by (apply Hi || done).
    - by rewrite occurs_out. }
  pose proof (linv_committed _ _ _ _ _ _ _ Hi Hq Ht Hh0 Hv) as Hi'.
  do 3 eexists. split; [exact E|]. split; [done|]. split; [exact Hi'|]. split_and!; [|done| | |done].
  - intros b. rewrite (vs_lock _ _ _ _ Hv), Href. destruct (Hq b) as [-> ?]. split; [done|].
    case_decide as Hb; [apply (li_pin _ _ Hi) in Hb|]; lia.
  - apply (li_hdr _ _ Hi').
  - intros b Hb. rewrite (vs_disk _ _ _ _ Hv), (vs_data _ _ _ _ Hv), !(apply_commit _ (v_size v)) by (done || lia).
    case_decide; [done|]. by rewrite Hcl.
Qed.

(** C1. Atomicity.  A commit performs a fixed sequence of block writes; cut the power after any
    number [k] of them and restart: the boot code always succeeds, leaves an empty log, and every
    home block of the device holds its contents from before the transaction when [k] is at most the
    number of logged blocks, and its contents from after the transaction otherwise. *)
Theorem commit_crash_atomic c s v :
  linv s v → quiet v → bio_clear c → 0 < v_free v → 0 < lh_n (l_log s) →
  let start := l_start (l_log s) in
  ∃ ws c' s' v', commit c s = Ret tt c' s' ∧ cabs (l_cache s') v' ∧ v_log v' = v_log v ++ ws ∧
  ∀ k c2, bio_clear c2 → ∃ c3 s3 v3,
    reboot start (power_cycle (take k ws) (l_cache s)) c2 = Ret tt c3 s3 ∧
    linv s3 v3 ∧ lh_n (l_log s3) = 0 ∧
    ∀ b, home start (v_size v) b →
      v_disk v3 b = if decide (k ≤ length (logged (l_log s)))%nat then v_disk v b else v_data v b.
Proof.
  intros Hi Hq Hc Hf Hn start. subst start. pose proof (length_logged _ _ Hi) as Hlen.
  destruct (commit_run _ _ _ Hi Hq Hc Hf Hn) as (c' & t & v' & E & _ & Ht & Hv).
  pose proof (linv_trans_ok _ _ Hi) as Htr. pose proof (li_geom _ _ Hi) as Hg.
  set (lg := l_log s) in *. set (h := commit_head s v) in *. set (h0 := put_head 0 _ h) in Hv.
  pose proof (clear_head_n _ _ (lh_block lg) Hi) as Hh0. fold h h0 in Hh0.
  exists (commit_writes (l_start lg) (logged lg) (v_data v) h h0). do 3 eexists. split; [exact E|].
  split; [exact Ht|]. split; [apply (vs_log _ _ _ _ Hv)|]. intros k c2 Hc2.
  destruct (commit_prefix (l_start lg) (v_size v) (v_disk v) (v_data v) (logged lg) h h0 k) as [Hd Hrec];
    [by apply linv_disk_ok|apply Hi|done|done|].
  destruct (power_cycle_booted (l_start lg) c2 (l_cache s) v (take k (commit_writes (l_start lg) (logged lg) (v_data v) h h0)))
    as (t2 & v2 & E2 & Hb2 & Esz & Edk); [apply Hi| |done|].
  { by apply Forall_take, commit_writes_wf. }
  destruct (initlog_linv c2 t2 v2 (l_start lg) Hb2 Hc2) as (c3 & s3 & v3 & B & E3 & _ & _ & Hi3 & _ & El & Hsame).
  exists c3, s3, v3. split_and!.
  - unfold reboot. erewrite kbind_ret by (by apply (zoom_ret cache_lens)). exact E3.
  - done.
  - by rewrite El.
  - intros b Hb. rewrite Esz, Edk in Hsame. rewrite (Hsame b Hb), (Hrec b Hb).
    case_decide; [done|]. case_decide as Hbl; [done|]. symmetry. apply (li_clean _ _ Hi); [done|apply Hq].
Qed.

(** C2. Recovery can be interrupted.  From any bootable device, [initlog] succeeds and makes every
    home block hold its recovered contents; and if the power fails after any number [k] of the block
    writes it performs, the next boot finds a bootable device again, with the same recovered
    contents. *)
Theorem recovery_restartable c t v start :
  booted start t v → bio_clear c →
  ∃ ws c' s' v', initlog ROOTDEV start c (mkls t log0) = Ret tt c' s' ∧ linv s' v' ∧
    lh_n (l_log s') = 0 ∧ v_log v' = ws ∧
    same_home start (v_size v) (v_disk v') (recovered start (v_disk v)) ∧
    ∀ k c2, ∃ t2 v2, binit c2 (power_cycle (take k ws) t) = Ret tt c2 t2 ∧ booted start t2 v2 ∧
      v_size v2 = v_size v ∧
      same_home start (v_size v) (recovered start (v_disk v2)) (recovered start (v_disk v)).
Proof.
  intros Hb Hc.
  destruct (initlog_linv c t v start Hb Hc) as (c' & s' & v' & B & E & HB & Hv & Hi & _ & El & Hsame).
  exists (recovery_writes start (v_disk v) B), c', s', v'. split_and!; [done|done|by rewrite El| |done|].
  { by rewrite (vs_log _ _ _ _ Hv), (bt_log _ _ _ Hb). }
  intros k c2. destruct Hb as [Ht Hq Hcl Hf Hd _]. pose proof (do_start _ _ _ Hd) as Hg.
  assert (Hdl : ∀ b, 0 <= b < v_size v → length (v_disk v b) = bsize).
  { intros b Hb. rewrite <- Hcl. by eapply cabs_len. }
  assert (Hst : 0 <= start < v_size v) by (unfold LOGBLOCKS, MAXOPBLOCKS in *; lia).
  assert (Hn0 : 0 <= 0 <= LOGBLOCKS) by (unfold LOGBLOCKS, MAXOPBLOCKS; lia).
  destruct (install_prefix start (v_size v) (v_disk v) (recovered start (v_disk v))
    (put_head 0 B (v_disk v start)) k Hd) as [Hd2 Hrec].
  { apply hdr_n_put; auto. }
  { intros j b Hj. by eapply recovered_in. }
  fold (recovery_writes start (v_disk v) B) in Hd2, Hrec.
  destruct (power_cycle_booted start c2 t v (take k (recovery_writes start (v_disk v) B)))
    as (t2 & v2 & E2 & Hb2 & Esz & Edk); [done| |done|].
  { apply Forall_take, Forall_app. split.
    - apply home_writes_wf. intros b Hb. apply (do_home _ _ _ Hd) in Hb as [Hb _].
      split; [done|]. by eapply recovered_len.
    - constructor; [|constructor]. split; [done|]. apply length_put_head; auto. }
  exists t2, v2. split_and!; [done..|]. by rewrite Edk.
Qed.
End properties.

(** ** log_write *)

Section log_write.
Context {S : Type} `{BlockCache S}.
Implicit Types (s : lsys S) (v : cview) (c : kctx) (bn : Z).

Lemma absorb_spec l bn :
  Forall (λ b, 0 <= b < 2 ^ 32) l → 
  (absorb l bn < length l)%nat ∧ l !! absorb l bn = Some bn ∧ bn ∈ l ∨
  absorb l bn = length l ∧ (bn ∉ l).
Proof.
  induction 1 as [|x l Hx Hl IH]; simpl; [right; split; [done|apply not_elem_of_nil]|].
  rewrite u32_small by done. destruct (Z.eqb_spec x bn) as [->|Hne].
  - left. split; [lia|]. split; [done|constructor].
  - destruct IH as [(H1 & H2 & H3) | [H1 H2]].
    + left. split; [lia|]. split; [done|by constructor].
    + right. split; [lia|]. set_solver.
Qed.

Lemma li_logged_range s v : linv s v → Forall (λ b, 0 <= b < 2 ^ 32) (logged (l_log s)).
Proof.
  intros Hi. apply Forall_forall. intros b Hb. destruct (li_home _ _ Hi b Hb) as [? _].
  pose proof (li_geom _ _ Hi). lia.
Qed.

Lemma logged_push lg bn :
  0 <= lh_n lg → (Z.to_nat (lh_n lg) < length (lh_block lg))%nat →
  logged (set_lh_n (lh_n lg + 1) (set_lh_block (Z.to_nat (lh_n lg)) bn lg)) = logged lg ++ [bn].
Proof.
  intros Hn Hl. unfold logged. simpl. replace (Z.to_nat (lh_n lg + 1)) with (Datatypes.S (Z.to_nat (lh_n lg))) by lia.
  rewrite (take_S_r _ _ bn) by (by apply list_lookup_insert_eq).
  by rewrite take_insert_ge by lia.
Qed.

(** The view after [log_write] of block [bn]: one more reference when the block is new. *)
Definition log_write_view (lg : logst) (bn : Z) (v : cview) : cview :=
  if decide (bn ∈ logged lg) then v else view_ref bn 1 v.

Lemma log_write_ok c s v bn :
  linv s v → bio_clear c → LK_log ∉ held c → 0 < v_ref v bn < 2 ^ 32 - 1 →
  home (l_start (l_log s)) (v_size v) bn →
  lh_n (l_log s) < LOGBLOCKS → 1 <= l_outstanding (l_log s) →
  ∃ s', log_write (v_buf v bn) c s = Ret tt c s' ∧
    linv s' (log_write_view (l_log s) bn v) ∧
    (if decide (bn ∈ logged (l_log s)) then s' = s
     else logged (l_log s') = logged (l_log s) ++ [bn] ∧
       l_log s' = set_lh_n (lh_n (l_log s) + 1)
                    (set_lh_block (Z.to_nat (lh_n (l_log s))) bn (l_log s))).
Proof.
  intros Hi Hc Hlk Hr Hh Hn Ho. destruct c as [h w p]. simpl in Hlk.
  pose proof (length_logged _ _ Hi) as Hlen. pose proof (li_n _ _ Hi) as Hn0.
  destruct (cabs_data _ _ bn (li_abs _ _ Hi)) as [_ Hbn]; [lia|].
  assert (Hs32 : s32 bn = bn) by (apply s32_small; destruct Hh; pose proof (li_geom _ _ Hi); lia).
  unfold log_write. kexec. rewrite (proj2 (Z.leb_gt _ _)), (proj2 (Z.ltb_ge _ _)) by lia.
  rewrite Hbn, Hs32. fold (logged (l_log s)). kexec. unfold lmod. kexec. unfold log_write_view.
  destruct (absorb_spec _ bn (li_logged_range _ _ Hi)) as [(Ha & Hget & Hin) | [Ha Hout]].
  - assert (Eg : set_lh_block (absorb (logged (l_log s)) bn) bn (l_log s) = l_log s).
    { apply lookup_take_Some in Hget as [Hget _]. unfold set_lh_block.
      rewrite list_insert_id by done. by destruct (l_log s). }
    rewrite (proj2 (Z.eqb_neq _ _)) by lia. kexec. rewrite Eg.
    exists s. rewrite !decide_True by done. destruct s. by split_and!.
  - rewrite Ha, Hlen, Z.eqb_refl. rewrite !decide_False by done.
    replace (length (logged (l_log s))) with (Z.to_nat (lh_n (l_log s))) by lia.
    destruct (bpin_ok (mkctx (LK_log :: h) w p) (l_cache s) v bn) as (t & Et & Ht);
      [apply Hi| |done|].
    { destruct Hc as [Hc1 Hc2]. split; simpl; set_solver. }
    erewrite (zoom_ret cache_lens) by exact Et. kexec.
    eexists. split; [done|]. cbn [l_log].
    assert (Hpush := logged_push (l_log s) bn ltac:(lia) ltac:(rewrite (li_len _ _ Hi); lia)).
    cbn [lset cache_lens l_cache l_log]. rewrite Hpush. split; [|by rewrite decide_False].
    split; cbn [l_log l_cache]; rewrite ?Hpush; try apply Hi; try done.
    + simpl. rewrite length_insert. apply Hi.
    + simpl. lia.
    + apply NoDup_app. split_and!; [apply Hi| |apply NoDup_singleton].
      intros x Hx ->%list_elem_of_singleton. done.
    + intros b [Hb | ->%list_elem_of_singleton]%elem_of_app; [by apply Hi|done].
    + intros b Hb. vlook. destruct (decide (b = bn)) as [->|Hne]; vlook; [lia|].
      apply Hi. set_solver.
    + intros b Hb Hl. apply Hi; [set_solver|done].
Qed.

(** Logging a block.  Called inside an operation by the process that holds the block locked,
    [log_write] returns; the block is then in the log exactly once (an already logged block is
    absorbed: nothing changes), a newly logged block is pinned by one more reference, and the log
    invariant is kept. *)
Theorem log_write_absorbs c s v bn :
  linv s v → bio_clear c → LK_log ∉ held c → 0 < v_ref v bn < 2 ^ 32 - 1 →
  home (l_start (l_log s)) (v_size v) bn →
  lh_n (l_log s) < LOGBLOCKS → 1 <= l_outstanding (l_log s) →
  ∃ s', log_write (v_buf v bn) c s = Ret tt c s' ∧
    linv s' (log_write_view (l_log s) bn v) ∧ bn ∈ logged (l_log s') ∧
    (if decide (bn ∈ logged (l_log s)) then s' = s
     else logged (l_log s') = logged (l_log s) ++ [bn] ∧ lh_n (l_log s') = lh_n (l_log s) + 1).
Proof.
  intros Hi Hc Hlk Hr Hh Hn Ho.
  destruct (log_write_ok c s v bn) as (s' & E & Hi' & El); [done..|].
  exists s'. split; [done|]. split; [done|]. case_decide as Hin; [by subst s'|].
  destruct El as [-> ->]. split; [set_solver|done].
Qed.
End log_write.

(** ** A whole transaction *)

Section transaction.
Context {S : Type} `{BlockCache S}.
Implicit Types (s : lsys S) (v : cview) (c : kctx) (bn : Z) (d : block).

(** The typical use of the log in fs.c: [bp = bread(dev, bn); modify bp->data; log_write(bp);
    brelse(bp)]. *)
Definition update_block bn d : M (lsys S) unit :=
  do b <- zoom cache_lens (bread ROOTDEV bn);
  kmod (λ s, mkls (b_store b d (l_cache s)) (l_log s)) ;;;
  log_write b ;;;
  zoom cache_lens (brelse b).

Fixpoint update_blocks (us : list bwrite_ev) : M (lsys S) unit :=
  match us with
  | [] => kret tt
  | (bn, d) :: us' => update_block bn d ;;; update_blocks us'
  end.

(** A file-system call that performs the updates [us]. *)
Definition fs_op (us : list bwrite_ev) : M (lsys S) unit :=
  begin_op ;;; update_blocks us ;;; end_op.

(** The invariant while a process holds block [bn] locked. *)
Lemma linv_locked s v t me i bn d :
  linv s v → home (l_start (l_log s)) (v_size v) bn → 0 <= v_ref v bn →
  cabs t (view_store bn d (view_read me bn i v)) →
  linv (mkls t (l_log s)) (view_store bn d (view_read me bn i v)).
Proof.
  intros Hi Hh Hr Ht. destruct (Hi). split; try done.
  - intros b Hb. vlook. destruct (decide (b = bn)) as [->|]; vlook; [lia|auto].
  - intros b Hb Hl. vlook. destruct (decide (b = bn)) as [->|Hne]; vlook.
    + by rewrite fn_lookup_insert in Hl.
    + rewrite fn_lookup_insert_ne in Hl by done. auto.
Qed.

Lemma linv_unlocked s v t bn :
  linv s v → bn ∈ logged (l_log s) → 1 < v_ref v bn → cabs t (view_release bn v) →
  linv (mkls t (l_log s)) (view_release bn v).
Proof.
  intros Hi Hin Hr Ht. destruct (Hi). split; try done.
  - intros b Hb. vlook. destruct (decide (b = bn)) as [->|]; vlook; [lia|auto].
  - intros b Hb Hl. simpl in *. destruct (decide (b = bn)) as [->|Hne]; [done|].
    rewrite fn_lookup_insert_ne in Hl by done. auto.
Qed.

(** The view after an update; [pin] is 1 when the block was not in the log before. *)
Record updated (v v' : cview) bn d (pin : Z) : Prop := mkupd {
  up_size : v_size v' = v_size v;
  up_disk : v_disk v' = v_disk v;
  up_data : ∀ b, v_data v' b = <[bn:=d]> (v_data v) b;
  up_ref : ∀ b, v_ref v' b = v_ref v b + (if decide (b = bn) then pin else 0);
  up_free : v_free v' = v_free v - is_zero (v_ref v bn) + is_zero (v_ref v bn + pin)
}.

(** 1 when [bn] is not yet logged. *)
Definition fresh (lg : logst) bn : Z := if decide (bn ∈ logged lg) then 0 else 1.

(** What [log_write] does to the view of a locked block, and to the log. *)
Lemma log_write_cases c s v i bn d s3 :
  (if decide (bn ∈ logged (l_log s)) then s3 = s
   else logged (l_log s3) = logged (l_log s) ++ [bn] ∧
     l_log s3 = set_lh_n (lh_n (l_log s) + 1) (set_lh_block (Z.to_nat (lh_n (l_log s))) bn (l_log s))) →
  let v2 := view_store bn d (view_read (curpid c) bn i v) in
  let v3 := log_write_view (l_log s) bn v2 in
  quiet v → (bn ∈ logged (l_log s) → 0 < v_ref v bn) →
  v_lock v3 bn = Some (curpid c) ∧ v_buf v3 bn = i ∧ 1 < v_ref v3 bn ∧
  updated v (view_release bn v3) bn d (fresh (l_log s) bn) ∧ (∀ b, v_lock (view_release bn v3) b = None) ∧
  bn ∈ logged (l_log s3) ∧ l_start (l_log s3) = l_start (l_log s) ∧
  l_outstanding (l_log s3) = l_outstanding (l_log s) ∧ l_committing (l_log s3) = l_committing (l_log s) ∧
  lh_n (l_log s3) = lh_n (l_log s) + fresh (l_log s) bn ∧
  (bn ∉ logged (l_log s) → logged (l_log s3) = logged (l_log s) ++ [bn]).
Proof.
  intros Elog v2 v3 Hq Hpin. destruct (Hq bn) as [Hl Hr]. unfold v3, v2, log_write_view, fresh.
  destruct (decide (bn ∈ logged (l_log s))) as [Hin|Hout].
  - specialize (Hpin Hin). subst s3. vlook. split_and!; try done; try lia.
    + split; try done; [intros b; destruct (decide (b = bn)) as [->|]; vlook; lia|].
      vlook. unfold is_zero. repeat case Z.eqb_spec; intros; lia.
    + intros b. destruct (decide (b = bn)) as [->|]; vlook; [done|apply Hq].
  - destruct Elog as [El El']. rewrite El, El'. vlook. split_and!; try done; try lia.
    + split; try done; [intros b; destruct (decide (b = bn)) as [->|]; vlook; lia|].
      vlook. unfold is_zero. repeat case Z.eqb_spec; intros; lia.
    + intros b. destruct (decide (b = bn)) as [->|]; vlook; [done|apply Hq].
    + set_solver.
Qed.

Lemma update_block_ok c s v bn d :
  linv s v → quiet v → bio_clear c → LK_log ∉ held c →
  home (l_start (l_log s)) (v_size v) bn → length d = bsize →
  lh_n (l_log s) < LOGBLOCKS → 1 <= l_outstanding (l_log s) → 0 < v_free v →
  ∃ c' s' v', update_block bn d c s = Ret tt c' s' ∧ same_ctx c c' ∧ linv s' v' ∧
    updated v v' bn d (fresh (l_log s) bn) ∧
    (∀ b, v_lock v' b = None) ∧ bn ∈ logged (l_log s') ∧
    l_start (l_log s') = l_start (l_log s) ∧ l_outstanding (l_log s') = l_outstanding (l_log s) ∧
    l_committing (l_log s') = l_committing (l_log s) ∧
    lh_n (l_log s') = lh_n (l_log s) + fresh (l_log s) bn ∧
    (bn ∉ logged (l_log s) → logged (l_log s') = logged (l_log s) ++ [bn]).
Proof.
  intros Hi Hq Hc Hlk Hh Hd Hn Ho Hf. destruct (Hq bn) as [Hl Hr].
  destruct (bread_ok c (l_cache s) v bn) as (i & t1 & E1 & Ht1 & _); [apply Hi|done|apply Hh|done|lia|by right|].
  unfold update_block. erewrite kbind_ret by (by apply (zoom_ret cache_lens)).
  erewrite (kbind_ret (kmod _)) by done. cbn [lset cache_lens l_cache l_log].
  set (v1 := view_read (curpid c) bn i v) in *.
  assert (Hr1 : v_ref v1 bn = v_ref v bn + 1) by (unfold v1; by vlook).
  assert (Eb : v_buf v1 bn = i) by (unfold v1; by vlook).
  pose proof (b_store_ok t1 v1 bn d Ht1 ltac:(lia) Hd) as Ht2. rewrite Eb in Ht2.
  pose proof (linv_locked s v _ _ _ _ _ Hi Hh ltac:(lia) Ht2) as Hi2. fold v1 in Hi2.
  set (s2 := mkls _ _) in *.
  destruct (log_write_ok c s2 (view_store bn d v1) bn Hi2 Hc Hlk) as (s3 & E3 & Hi3 & Elog);
    [vlook; lia|done..|].
  change (v_buf (view_store bn d v1) bn) with (v_buf v1 bn) in E3. rewrite Eb in E3. kstep E3.
  destruct (log_write_cases c s2 v i bn d s3 Elog Hq (li_pin _ _ Hi bn))
    as (Hl3 & Eb3 & Hr3 & Hup & Hlk3 & Hin3 & Hrest); fold v1 in Hl3, Eb3, Hr3, Hup, Hlk3.
  destruct (zoom_brelse_ok c s3 _ bn (li_abs _ _ Hi3) Hc ltac:(lia) Hl3 ltac:(lia))
    as (c4 & t4 & E4 & Hc4 & Ht4); rewrite Eb3 in E4.
  pose proof (linv_unlocked _ _ _ _ Hi3 Hin3 Hr3 Ht4) as Hi4.
  do 3 eexists. split; [exact E4|]. split; [done|]. split; [exact Hi4|]. by split_and!; try apply Hrest.
Qed.

Definition updates_ok (start size : Z) (us : list bwrite_ev) : Prop :=
  Forall (λ u, home start size u.1 ∧ length u.2 = bsize) us.

Lemma update_blocks_ok us c s v :
  updates_ok (l_start (l_log s)) (v_size v) us →
  linv s v → (∀ b, v_lock v b = None) → (∀ b, 0 <= v_ref v b ∧ v_ref v b + Z.of_nat (length us) < 2 ^ 31) →
  bio_clear c → LK_log ∉ held c → lh_n (l_log s) + Z.of_nat (length us) <= LOGBLOCKS →
  1 <= l_outstanding (l_log s) → Z.of_nat (length us) <= v_free v →
  ∃ c' s' v', update_blocks us c s = Ret tt c' s' ∧ same_ctx c c' ∧ linv s' v' ∧
    (∀ b, v_lock v' b = None ∧ 0 <= v_ref v' b <= v_ref v b + Z.of_nat (length us)) ∧
    v_size v' = v_size v ∧ v_disk v' = v_disk v ∧ (∀ b, v_data v' b = apply_writes us (v_data v) b) ∧
    v_free v - Z.of_nat (length us) <= v_free v' ∧
    l_start (l_log s') = l_start (l_log s) ∧ l_outstanding (l_log s') = l_outstanding (l_log s) ∧
    l_committing (l_log s') = l_committing (l_log s).
Proof.
  revert c s v. induction us as [|[bn d] us IH]; intros c s v Hus Hi Hl Hr Hc Hlk Hn Ho Hf; simpl in *.
  { exists c, s, v. split_and!; try done; [|lia]. intros b. specialize (Hr b). split; [done|lia]. }
  apply Forall_cons in Hus as [[Hh Hd] Hus]. simpl in Hh, Hd.
  assert (Hq : quiet v) by (intros b; specialize (Hr b); split; [done|lia]).
  destruct (update_block_ok c s v bn d) as (c1 & s1 & v1 & E1 & Hc1 & Hi1 & [Us Ud Ut Ur Uf] & Hl1 & _ & Es & Eo & Ecm & Hn1 & _);
    try done; try lia.
  assert (Hfr : 0 <= fresh (l_log s) bn <= 1) by (unfold fresh; case_decide; lia).
  assert (Hur : ∀ b, v_ref v b <= v_ref v1 b <= v_ref v b + 1) by (intros b; rewrite Ur; case_decide; lia).
  assert (Huf : v_free v - 1 <= v_free v1) by (rewrite Uf; unfold is_zero; repeat case Z.eqb_spec; intros; lia).
  kstep E1. destruct (IH c1 s1 v1) as (c2 & s2 & v2 & E2 & Hc2 & Hi2 & Hq2 & Us2 & Ud2 & Ut2 & Uf2 & Es2 & Eo2 & Ecm2);
    rewrite ?Es, ?Us; try done; try lia.
  - intros b. specialize (Hr b). specialize (Hur b). lia.
  - by eapply clear_same.
  - by destruct Hc1 as [-> _].
  - exists c2, s2, v2. split_and!; try congruence; try lia; try done.
    + by transitivity c1.
    + intros b. destruct (Hq2 b) as [-> Hb]. specialize (Hur b). split; [done|lia].
    + intros b. rewrite Ut2. by apply apply_writes_ext.
Qed.

Lemma begin_op_ok c s :
  LK_log ∉ held c → l_committing (l_log s) = 0 →
  lh_n (l_log s) + (l_outstanding (l_log s) + 1) * MAXOPBLOCKS <= LOGBLOCKS →
  begin_op c s = Ret tt c (mkls (l_cache s) (set_outstanding (l_outstanding (l_log s) + 1) (l_log s))).
Proof.
  intros Hc Hcm Hn. destruct c as [h w p]. simpl in Hc. unfold begin_op, lmod. kexec. rewrite Hcm.
  rewrite (proj2 (Z.ltb_ge _ _)) by done. by kexec.
Qed.

(** Changes to the counters of the log leave the invariant alone. *)
Lemma linv_counters s v o cm :
  linv s v → linv (mkls (l_cache s) (set_committing cm (set_outstanding o (l_log s)))) v.
Proof. intros []. by split. Qed.

Lemma end_op_last_ok c s v :
  linv s v → quiet v → bio_clear c → LK_log ∉ held c → 0 < v_free v →
  l_outstanding (l_log s) = 1 → l_committing (l_log s) = 0 →
  ∃ c' s' v', end_op c s = Ret tt c' s' ∧ same_ctx c c' ∧ linv s' v' ∧ quiet v' ∧
    lh_n (l_log s') = 0 ∧ l_outstanding (l_log s') = 0 ∧ l_committing (l_log s') = 0 ∧
    (∀ b, home (l_start (l_log s)) (v_size v) b → v_disk v' b = v_data v b ∧ v_data v' b = v_data v b).
Proof.
  intros Hi Hq Hc Hlk Hf Ho Hcm. destruct c as [h w p]. simpl in Hlk.
  unfold end_op. 
  assert (E0 : end_op_enter (mkctx h w p) s =
    Ret true (mkctx h w p) (mkls (l_cache s) (set_committing 1 (set_outstanding 0 (l_log s))))).
  { unfold end_op_enter, lmod. kexec. rewrite Hcm, Ho. cbn. by kexec. }
  kstep E0. cbv iota.
  pose proof (linv_counters s v 0 1 Hi) as Hi1. set (s1 := mkls _ _) in *.
  destruct (commit_ok (mkctx h w p) s1 v Hi1 Hq Hc Hf) as (c2 & s2 & v2 & E2 & Hc2 & Hi2 & Hq2 & Elog & _ & Hd2 & _).
  kstep E2. destruct c2 as [h2 w2 p2]. destruct Hc2 as [Eh Ep]. simpl in Eh, Ep. subst h2 p2.
  unfold end_op_leave, lmod. kexec. do 3 eexists. split; [done|]. split; [done|].
  rewrite Elog. split_and!; [|exact Hq2|done..|].
  - rewrite <- Elog. pose proof (linv_counters s2 v2 (l_outstanding (l_log s2)) 0 Hi2) as H2.
    by rewrite Elog in *.
  - exact Hd2.
Qed.

(** C3. Transactions are applied.  On an idle log, a file-system call that updates at most
    MAXOPBLOCKS blocks (begin_op, then bread / modify / log_write / brelse per block, then end_op)
    returns; afterwards the device and the cache hold, for every home block, the contents with all
    updates applied in order, and the log is idle again.  No buffer is locked at the start and more are free than blocks
    are updated. *)
Theorem fs_op_applies us c s v :
  updates_ok (l_start (l_log s)) (v_size v) us → Z.of_nat (length us) <= MAXOPBLOCKS →
  linv s v → (∀ b, v_lock v b = None ∧ 0 <= v_ref v b < 2 ^ 30) → bio_clear c → LK_log ∉ held c →
  lh_n (l_log s) = 0 → l_outstanding (l_log s) = 0 → l_committing (l_log s) = 0 →
  Z.of_nat (length us) < v_free v →
  ∃ c' s' v', fs_op us c s = Ret tt c' s' ∧ same_ctx c c' ∧ linv s' v' ∧
    lh_n (l_log s') = 0 ∧ l_outstanding (l_log s') = 0 ∧ l_committing (l_log s') = 0 ∧
    ∀ b, home (l_start (l_log s)) (v_size v) b →
      v_disk v' b = apply_writes us (v_disk v) b ∧ v_data v' b = apply_writes us (v_disk v) b.
Proof.
  intros Hus Hlen Hi Hq Hc Hlk En Eo Ecm Hf. unfold MAXOPBLOCKS in *.
  unfold fs_op. erewrite (kbind_ret begin_op).
  2:{ apply begin_op_ok; [done..|]. rewrite En, Eo. unfold LOGBLOCKS, MAXOPBLOCKS. lia. }
  assert (Hi1 : linv (mkls (l_cache s) (set_outstanding (l_outstanding (l_log s) + 1) (l_log s))) v)
    by (destruct Hi; by split).
  set (s1 := mkls _ _) in *.
  destruct (update_blocks_ok us c s1 v) as (c2 & s2 & v2 & E2 & Hc2 & Hi2 & Hq2 & Us & Ud & Ut & Uf & Es & Eo2 & Ecm2);
    unfold s1; simpl; try done; try lia.
  { intros b. apply Hq. }
  { intros b. destruct (Hq b). lia. }
  { unfold LOGBLOCKS, MAXOPBLOCKS. lia. }
  kstep E2. destruct (end_op_last_ok c2 s2 v2) as (c3 & s3 & v3 & E3 & Hc3 & Hi3 & _ & En3 & Eo3 & Ecm3 & Hd3).
  - done.
  - intros b. destruct (Hq2 b), (Hq b). split; [done|lia].
  - by eapply clear_same.
  - by destruct Hc2 as [-> _].
  - lia.
  - rewrite Eo2. unfold s1. simpl. lia.
  - rewrite Ecm2. done.
  - exists c3, s3, v3. split_and!; try done; [by transitivity c2|].
    intros b Hb. rewrite Es, Us in Hd3. destruct (Hd3 b) as [-> ->]; [done|].
    rewrite Ut. assert (E : ∀ x, v_data v x = v_disk v x).
    { intros x. apply (li_clean _ _ Hi); [|apply Hq]. unfold logged. rewrite En. apply not_elem_of_nil. }
    split; by apply apply_writes_ext.
Qed.
(** *** A full log *)

(** Updates of distinct blocks that are neither logged nor referenced use up one buffer each. *)
Lemma update_blocks_fresh us c s v :
  updates_ok (l_start (l_log s)) (v_size v) us → NoDup us.*1 →
  linv s v → quiet v → (∀ b, b ∈ us.*1 → v_ref v b = 0) →
  bio_clear c → LK_log ∉ held c → lh_n (l_log s) + Z.of_nat (length us) <= LOGBLOCKS →
  1 <= l_outstanding (l_log s) → Z.of_nat (length us) <= v_free v →
  ∃ c' s' v', update_blocks us c s = Ret tt c' s' ∧ same_ctx c c' ∧ linv s' v' ∧ quiet v' ∧
    v_size v' = v_size v ∧ (∀ b, b ∉ us.*1 → v_ref v' b = v_ref v b) ∧
    v_free v' = v_free v - Z.of_nat (length us) ∧
    l_start (l_log s') = l_start (l_log s) ∧ l_outstanding (l_log s') = l_outstanding (l_log s) ∧
    l_committing (l_log s') = l_committing (l_log s) ∧
    lh_n (l_log s') = lh_n (l_log s) + Z.of_nat (length us).
Proof.
  revert c s v. induction us as [|[bn d] us IH]; intros c s v Hus Hnd Hi Hq Hr Hc Hlk Hn Ho Hf; simpl in *.
  { exists c, s, v. by split_and!; try lia. }
  apply Forall_cons in Hus as [[Hh Hd] Hus]. simpl in Hh, Hd. apply NoDup_cons in Hnd as [Hbn Hnd].
  assert (Hr0 : v_ref v bn = 0) by (apply Hr; constructor).
  assert (Hfr : fresh (l_log s) bn = 1).
  { unfold fresh. rewrite decide_False; [done|]. intros Hin%(li_pin _ _ Hi). lia. }
  destruct (update_block_ok c s v bn d) as (c1 & s1 & v1 & E1 & Hc1 & Hi1 & [Us Ud Ut Ur Uf] & Hl1 & _ & Es & Eo & Ecm & Hn1 & _);
    try done; try lia.
  rewrite Hfr in *. rewrite Hr0 in Uf. change (is_zero 0) with 1 in Uf. change (is_zero (0 + 1)) with 0 in Uf.
  kstep E1. destruct (IH c1 s1 v1) as (c2 & s2 & v2 & E2 & Hc2 & Hi2 & Hq2 & Us2 & Ur2 & Uf2 & Es2 & Eo2 & Ecm2 & Hn2);
    rewrite ?Es, ?Us; try done; try lia.
  - intros b. rewrite Ur. destruct (Hq b). split; [done|]. case_decide; subst; lia.
  - intros b Hb. rewrite Ur, decide_False by (by intros ->). rewrite Z.add_0_r. apply Hr. by constructor.
  - by eapply clear_same.
  - by destruct Hc1 as [-> _].
  - exists c2, s2, v2. split_and!; try congruence; try lia; try done; [by transitivity c1|].
    intros b [Hb Hb']%not_elem_of_cons. rewrite Ur2, Ur, decide_False by done. lia.
Qed.

(** With every buffer referenced and the first log block not cached, a commit cannot start. *)
Lemma commit_no_buffers c s v :
  linv s v → bio_clear c → 0 < lh_n (l_log s) → v_free v = 0 → v_ref v (l_start (l_log s) + 1) = 0 →
  commit c s = Panic "bget: no buffers".
Proof.
  intros Hi Hc Hn Hf Hr. pose proof (li_geom _ _ Hi) as Hg.
  unfold commit. erewrite (kbind_ret (kgets l_log)) by done. rewrite (proj2 (Z.ltb_lt _ _)) by done.
  apply kbind_panic. unfold write_log. erewrite (kbind_ret (kgets l_log)) by done.
  destruct (Z.to_nat (lh_n (l_log s))) eqn:En; [lia|]. cbn [kfor].
  apply kbind_panic. unfold write_log_block. apply kbind_panic.
  unfold log_bread. erewrite (kbind_ret (kgets l_log)) by done. apply (zoom_panic cache_lens).
  rewrite (li_dev _ _ Hi). change (u32 ROOTDEV) with ROOTDEV. rewrite Z.add_0_r, u32_small.
  - by eapply bread_full; [apply Hi|..].
  - unfold LOGBLOCKS, MAXOPBLOCKS in *. lia.
Qed.

(** [m] run by process [p]. *)
Definition as_proc {A} (p : Z) (m : M (lsys S) A) : M (lsys S) A :=
  λ c s, m (mkctx (held c) (woken c) p) s.

(** Three processes run one operation each, all three in progress together. *)
Definition three_ops (p1 p2 p3 : Z) (us1 us2 us3 : list bwrite_ev) : M (lsys S) unit :=
  as_proc p1 begin_op ;;; as_proc p2 begin_op ;;; as_proc p3 begin_op ;;;
  as_proc p1 (update_blocks us1) ;;; as_proc p2 (update_blocks us2) ;;; as_proc p3 (update_blocks us3) ;;;
  as_proc p1 end_op ;;; as_proc p2 end_op ;;; as_proc p3 end_op.

Lemma end_op_more c s :
  LK_log ∉ held c → l_committing (l_log s) = 0 → l_outstanding (l_log s) ≠ 1 →
  ∃ c', end_op c s =
    Ret tt c' (mkls (l_cache s) (set_outstanding (l_outstanding (l_log s) - 1) (l_log s))) ∧ same_ctx c c'.
Proof.
  intros Hc Hcm Ho. destruct c as [h w p]. simpl in Hc. eexists. unfold end_op, end_op_enter, lmod.
  kexec. rewrite Hcm. simpl. rewrite (proj2 (Z.eqb_neq _ 0)) by lia. kexec. by split.
Qed.
(** Running an operation's updates for process [p] inside a larger execution. *)
Lemma as_proc_fresh p us h w q s v :
  updates_ok (l_start (l_log s)) (v_size v) us → NoDup us.*1 →
  linv s v → quiet v → (∀ b, b ∈ us.*1 → v_ref v b = 0) →
  bio_clear (mkctx h [] 0) → LK_log ∉ h → lh_n (l_log s) + Z.of_nat (length us) <= LOGBLOCKS →
  1 <= l_outstanding (l_log s) → Z.of_nat (length us) <= v_free v →
  ∃ w' s' v', as_proc p (update_blocks us) (mkctx h w q) s = Ret tt (mkctx h w' p) s' ∧
    linv s' v' ∧ quiet v' ∧
    v_size v' = v_size v ∧ (∀ b, b ∉ us.*1 → v_ref v' b = v_ref v b) ∧
    v_free v' = v_free v - Z.of_nat (length us) ∧
    l_start (l_log s') = l_start (l_log s) ∧ l_outstanding (l_log s') = l_outstanding (l_log s) ∧
    l_committing (l_log s') = l_committing (l_log s) ∧
    lh_n (l_log s') = lh_n (l_log s) + Z.of_nat (length us).
Proof.
  intros Hus Hnd Hi Hq Hr Hc Hlk Hn Ho Hf.
  destruct (update_blocks_fresh us (mkctx h w p) s v) as ([h' w' p'] & s' & v' & E & [Eh Ep] & Hrest); try done.
  simpl in Eh, Ep. subst h' p'. exists w', s', v'. by split.
Qed.

Lemma begin_op_proc p h w q s :
  LK_log ∉ h → l_committing (l_log s) = 0 →
  lh_n (l_log s) + (l_outstanding (l_log s) + 1) * MAXOPBLOCKS <= LOGBLOCKS →
  as_proc p begin_op (mkctx h w q) s =
    Ret tt (mkctx h w p) (mkls (l_cache s) (set_outstanding (l_outstanding (l_log s) + 1) (l_log s))).
Proof. intros. by apply (begin_op_ok (mkctx h w p)). Qed.

Lemma end_op_proc p h w q s :
  LK_log ∉ h → l_committing (l_log s) = 0 → l_outstanding (l_log s) ≠ 1 →
  ∃ w', as_proc p end_op (mkctx h w q) s =
    Ret tt (mkctx h w' p) (mkls (l_cache s) (set_outstanding (l_outstanding (l_log s) - 1) (l_log s))).
Proof.
  intros Hlk Hcm Ho. destruct (end_op_more (mkctx h w p) s) as ([h' w' p'] & E & [Eh Ep]); try done.
  simpl in Eh, Ep. subst. by exists w'.
Qed.

Lemma end_op_panics c s v :
  linv s v → bio_clear c → LK_log ∉ held c → l_committing (l_log s) = 0 → l_outstanding (l_log s) = 1 →
  0 < lh_n (l_log s) → v_free v = 0 → v_ref v (l_start (l_log s) + 1) = 0 →
  end_op c s = Panic "bget: no buffers".
Proof.
  intros Hi Hc Hlk Ecm Eo Hn Hf Hr. destruct c as [h w q]. simpl in Hlk.
  unfold end_op. erewrite (kbind_ret end_op_enter).
  2:{ unfold end_op_enter, lmod. kexec. rewrite Ecm. simpl. rewrite Eo. simpl. by kexec. }
  cbv iota. apply kbind_panic. eapply commit_no_buffers; try done. destruct Hi. by split.
Qed.

(** The three calls of [end_op]. *)
Lemma three_ends_panic p1 p2 p3 h w q s v :
  linv s v → bio_clear (mkctx h [] 0) → LK_log ∉ h →
  l_committing (l_log s) = 0 → l_outstanding (l_log s) = 3 →
  0 < lh_n (l_log s) → v_free v = 0 → v_ref v (l_start (l_log s) + 1) = 0 →
  (as_proc p1 end_op ;;; as_proc p2 end_op ;;; as_proc p3 end_op) (mkctx h w q) s =
    Panic "bget: no buffers".
Proof.
  intros Hi Hc Hlk Ecm Eo Hn Hf Hr.
  destruct (end_op_proc p1 h w q s) as [w5 E5]; [done|done|lia|]. kstep E5.
  set (s5 := mkls _ _). destruct (end_op_proc p2 h w5 p1 s5) as [w6 E6]; [done..|simpl; lia|]. kstep E6.
  apply (end_op_panics (mkctx h w6 p3)) with v; simpl; try done; [|lia].
  destruct Hi. by split.
Qed.

(** C38. A full log cannot be committed.  Three operations that [begin_op] admits together and that
    log MAXOPBLOCKS distinct blocks each, as the limits allow, pin LOGBLOCKS blocks; on a cache of
    LOGBLOCKS buffers (NBUF has the same value) no buffer is left for the log blocks, and the last
    [end_op] panics with "bget: no buffers". *)
Theorem full_log_panics p1 p2 p3 (us1 us2 us3 : list bwrite_ev) h w p s v :
  let us := us1 ++ us2 ++ us3 in
  Z.of_nat (length us1) = MAXOPBLOCKS → Z.of_nat (length us2) = MAXOPBLOCKS →
  Z.of_nat (length us3) = MAXOPBLOCKS → NoDup us.*1 →
  updates_ok (l_start (l_log s)) (v_size v) us →
  linv s v → quiet v → (∀ b, v_ref v b = 0) → v_free v = LOGBLOCKS →
  bio_clear (mkctx h [] 0) → LK_log ∉ h →
  lh_n (l_log s) = 0 → l_outstanding (l_log s) = 0 → l_committing (l_log s) = 0 →
  three_ops p1 p2 p3 us1 us2 us3 (mkctx h w p) s = Panic "bget: no buffers".
Proof.
  intros us L1 L2 L3 Hnd Hus Hi Hq Hr Hf Hc Hlk En Eo Ecm. unfold us in *. clear us.
  apply Forall_app in Hus as [Hu1 [Hu2 Hu3]%Forall_app].
  rewrite !fmap_app in Hnd. apply NoDup_app in Hnd as (Hn1 & Hd1 & (Hn2 & Hd2 & Hn3)%NoDup_app).
  unfold LOGBLOCKS, MAXOPBLOCKS in *. unfold three_ops.
  do 3 (erewrite (kbind_ret (as_proc _ begin_op)) by
    (apply begin_op_proc; simpl; rewrite ?En, ?Eo; unfold LOGBLOCKS, MAXOPBLOCKS; done || lia)).
  set (s1 := mkls _ _).
  assert (Hi1 : linv s1 v) by (destruct Hi; by split).
  destruct (as_proc_fresh p1 us1 h w p3 s1 v) as (w2 & s2 & v2 & E2 & Hi2 & Hq2 & Us2 & Ur2 & Uf2 & Es2 & Eo2 & Ec2 & El2);
    unfold s1 in *; simpl in *; try done; try (unfold LOGBLOCKS, MAXOPBLOCKS; lia).
  kstep E2.
  destruct (as_proc_fresh p2 us2 h w2 p1 s2 v2) as (w3 & s3 & v3 & E3 & Hi3 & Hq3 & Us3 & Ur3 & Uf3 & Es3 & Eo3 & Ec3 & El3);
    rewrite ?Es2, ?Us2; try done; try (unfold LOGBLOCKS, MAXOPBLOCKS; lia).
  { intros b Hb. rewrite Ur2; [done|]. intros Hb1. apply (Hd1 b Hb1). set_solver. }
  kstep E3.
  destruct (as_proc_fresh p3 us3 h w3 p2 s3 v3) as (w4 & s4 & v4 & E4 & Hi4 & Hq4 & Us4 & Ur4 & Uf4 & Es4 & Eo4 & Ec4 & El4);
    rewrite ?Es3, ?Us3, ?Es2, ?Us2; try done; try (unfold LOGBLOCKS, MAXOPBLOCKS; lia).
  { intros b Hb. rewrite Ur3 by (intros Hb2; by apply (Hd2 b)). rewrite Ur2; [done|].
    intros Hb1. apply (Hd1 b Hb1). set_solver. }
  kstep E4.
  apply three_ends_panic with v4; try done; try congruence; try lia.
  assert (Hlog : ∀ us, updates_ok (l_start (l_log s)) (v_size v) us → l_start (l_log s) + 1 ∉ us.*1).
  { intros us Hus ([ub ud] & E & Hu)%list_elem_of_fmap.
    apply (proj1 (Forall_forall _ _) Hus) in Hu as [[_ Hu] _]. simpl in *.
    unfold LOGBLOCKS, MAXOPBLOCKS in *. lia. }
  rewrite Es4, Es3, Es2, Ur4, Ur3, Ur2 by auto. apply Hr.
Qed.
End transaction.

(** ** Log space: interleaved operations

    Every access to [log.lh.n], [log.outstanding] and [log.committing] is made under log.lock, so
    an execution of several processes is a sequence of the critical sections below, in any order,
    interleaved with arbitrary changes of the cache.  [ks] lists, for every operation between its
    [begin_op] and its [end_op], how many times it has called [log_write]. *)

Inductive phase := Idle | MustCommit | Committed.

Section space.
Context {S : Type} `{BlockCacheOps S}.
Implicit Types (s : lsys S) (c : kctx) (ks : list Z).

Record opsys := mkops { o_sys : lsys S; o_calls : list Z; o_phase : phase }.

Inductive lstep : opsys → opsys → Prop :=
  | ls_begin c c' s s' ks ph :
      begin_op c s = Ret tt c' s' → lstep (mkops s ks ph) (mkops s' (0 :: ks) ph)
  | ls_write c c' s s' ks1 k ks2 ph i :
      k < MAXOPBLOCKS → log_write i c s = Ret tt c' s' →
      lstep (mkops s (ks1 ++ k :: ks2) ph) (mkops s' (ks1 ++ (k + 1) :: ks2) ph)
  | ls_end c c' s s' ks1 k ks2 ph dc :
      end_op_enter c s = Ret dc c' s' →
      lstep (mkops s (ks1 ++ k :: ks2) ph) (mkops s' (ks1 ++ ks2) (if dc : bool then MustCommit else ph))
  | ls_commit c c' s s' ks :
      commit c s = Ret tt c' s' → lstep (mkops s ks MustCommit) (mkops s' ks Committed)
  | ls_leave c c' s s' ks :
      end_op_leave c s = Ret tt c' s' → lstep (mkops s ks Committed) (mkops s' ks Idle)
  | ls_cache t s ks ph :
      lstep (mkops s ks ph) (mkops (mkls t (l_log s)) ks ph).

(** Unused reservations of the operations in progress. *)
Fixpoint reserved ks : Z :=
  match ks with [] => 0 | k :: ks' => (MAXOPBLOCKS - k) + reserved ks' end.

Record space_inv (o : opsys) : Prop := mksp {
  sp_n : 0 <= lh_n (l_log (o_sys o));
  sp_out : l_outstanding (l_log (o_sys o)) = Z.of_nat (length (o_calls o));
  sp_calls : Forall (λ k, 0 <= k <= MAXOPBLOCKS) (o_calls o);
  sp_room : lh_n (l_log (o_sys o)) + reserved (o_calls o) <= LOGBLOCKS;
  sp_cm : l_committing (l_log (o_sys o)) = match o_phase o with Idle => 0 | _ => 1 end;
  sp_busy : o_phase o ≠ Idle → o_calls o = []
}.

Lemma reserved_app ks1 ks2 : reserved (ks1 ++ ks2) = reserved ks1 + reserved ks2.
Proof. induction ks1; simpl; lia. Qed.

Lemma reserved_bound ks :
  Forall (λ k, 0 <= k <= MAXOPBLOCKS) ks → 0 <= reserved ks <= Z.of_nat (length ks) * MAXOPBLOCKS.
Proof. induction 1 as [|k ks Hk Hks IH]; simpl; lia. Qed.

(** Computations that cannot change [struct log]. *)
Definition frames {A} (m : M (lsys S) A) : Prop :=
  ∀ c s a c' s', m c s = Ret a c' s' → l_log s' = l_log s.

Lemma frames_bind {A B} (m : M (lsys S) A) (f : A → M (lsys S) B) :
  frames m → (∀ a, frames (f a)) → frames (kbind m f).
Proof.
  intros Hm Hf c s b c' s'. unfold kbind. destruct (m c s) as [a c1 s1| | |] eqn:E; try done.
  intros E'. rewrite (Hf _ _ _ _ _ _ E'). by eapply Hm.
Qed.

Lemma frames_zoom {A} (m : M S A) : frames (zoom cache_lens m).
Proof. intros c s a c' s'. unfold zoom. destruct (m c _); try done. by intros [= <- <- <-]. Qed.

Lemma frames_ret {A} (a : A) : frames (kret a).
Proof. intros c s b c' s' [= <- <- <-]. done. Qed.

Lemma frames_gets {A} (f : lsys S → A) : frames (kgets f).
Proof. intros c s b c' s' [= <- <- <-]. done. Qed.

Lemma frames_for n i body : (∀ i, frames (body i)) → frames (kfor n i body).
Proof.
  intros Hb. revert i. induction n as [|n IH]; intros i; simpl; [apply frames_ret|].
  by apply frames_bind.
Qed.

Lemma frames_store (f : lsys S → S) : frames (kmod (λ s, mkls (f s) (l_log s))).
Proof. intros c s b c' s' [= <- <- <-]. done. Qed.

Lemma frames_lh_get i : frames (lh_get i).
Proof.
  apply frames_bind; [apply frames_gets|]. intros lg. destruct (lh_block lg !! _); [apply frames_ret|].
  by intros c s a c' s'.
Qed.
End space.

Create HintDb frames.
#[export] Hint Resolve frames_bind frames_zoom frames_ret frames_gets frames_for frames_store
  frames_lh_get : frames.

Section space_proofs.
Context {S : Type} `{BlockCacheOps S}.
Implicit Types (s : lsys S) (c : kctx) (ks : list Z).

Lemma frames_bread bn : frames (log_bread bn).
Proof. unfold log_bread. auto with frames. Qed.

#[local] Hint Resolve frames_bread : frames.

Lemma frames_write_log : frames write_log.
Proof. unfold write_log, write_log_block, copy_data. auto 20 with frames. Qed.

Lemma frames_write_head : frames write_head.
Proof. unfold write_head. auto 20 with frames. Qed.

Lemma frames_install r : frames (install_trans r).
Proof.
  unfold install_trans, install_block, copy_data.
  destruct r; auto 20 with frames.
Qed.

(** Whatever the cache does, a commit that returns has emptied the log. *)
Lemma commit_log c s c' s' :
  commit c s = Ret tt c' s' → 0 <= lh_n (l_log s) → l_log s' = set_lh_n 0 (l_log s).
Proof.
  intros E Hn. unfold commit in E. rewrite (kbind_ret (kgets l_log) _ c s (l_log s) c s) in E by done.
  destruct (Z.ltb_spec 0 (lh_n (l_log s))) as [Hp|Hp].
  - unfold kbind in E at 1. destruct (write_log c s) as [[] c1 s1| | |] eqn:E1; try done.
    unfold kbind in E at 1. destruct (write_head c1 s1) as [[] c2 s2| | |] eqn:E2; try done.
    unfold kbind in E at 1. destruct (install_trans false c2 s2) as [[] c3 s3| | |] eqn:E3; try done.
    rewrite (kbind_ret (lmod _) _ c3 s3 tt c3 (mkls (l_cache s3) (set_lh_n 0 (l_log s3)))) in E by done.
    rewrite (frames_write_head _ _ _ _ _ E). cbn [l_log].
    rewrite (frames_install _ _ _ _ _ _ E3), (frames_write_head _ _ _ _ _ E2).
    by rewrite (frames_write_log _ _ _ _ _ E1).
  - injection E as <- <-. unfold set_lh_n. replace 0 with (lh_n (l_log s)) by lia. by destruct (l_log s).
Qed.
Lemma begin_op_inv c s c' s' :
  begin_op c s = Ret tt c' s' →
  l_committing (l_log s) = 0 ∧
  lh_n (l_log s) + (l_outstanding (l_log s) + 1) * MAXOPBLOCKS <= LOGBLOCKS ∧
  l_log s' = set_outstanding (l_outstanding (l_log s) + 1) (l_log s).
Proof.
  intros (? & c1 & s1 & ->%acquire_inv & (lg & c2 & s2 & [= <- <- <-] & E)%kbind_inv)%kbind_inv.
  destruct (Z.eqb_spec (l_committing (l_log s)) 0) as [Ecm|]; simpl in E; [|by apply sleep_inv in E].
  destruct (Z.ltb_spec LOGBLOCKS (lh_n (l_log s) + (l_outstanding (l_log s) + 1) * MAXOPBLOCKS));
    [by apply sleep_inv in E|].
  apply kbind_inv in E as (? & c3 & s3 & [= <- <- <-] & ->%release_inv). done.
Qed.

Lemma end_op_enter_inv c s dc c' s' :
  end_op_enter c s = Ret dc c' s' →
  l_committing (l_log s) = 0 ∧ dc = (l_outstanding (l_log s) - 1 =? 0) ∧
  l_log s' = set_committing (if dc then 1 else l_committing (l_log s))
               (set_outstanding (l_outstanding (l_log s) - 1) (l_log s)).
Proof.
  intros (? & c1 & s1 & ->%acquire_inv & (lg & c2 & s2 & [= <- <- <-] & E)%kbind_inv)%kbind_inv.
  apply kbind_inv in E as (? & c3 & s3 & [= <- <- <-] & E).
  destruct (Z.eqb_spec (l_committing (l_log s)) 0) as [Ecm|]; simpl in E; [|done].
  destruct (l_outstanding (l_log s) - 1 =? 0);
    apply kbind_inv in E as (b & c4 & s4 & E4 & (? & c5 & s5 & ->%release_inv & [= <- <- <-])%kbind_inv);
    injection E4 as <- <- <-; simpl; split_and!; done.
Qed.

Lemma log_write_inv i c s c' s' :
  log_write i c s = Ret tt c' s' →
  lh_n (l_log s) < LOGBLOCKS ∧ l_outstanding (l_log s') = l_outstanding (l_log s) ∧
  l_committing (l_log s') = l_committing (l_log s) ∧
  (lh_n (l_log s') = lh_n (l_log s) ∨ lh_n (l_log s') = lh_n (l_log s) + 1).
Proof.
  intros (? & c1 & s1 & ->%acquire_inv & (s2 & c2 & s3 & [= <- <- <-] & E)%kbind_inv)%kbind_inv.
  cbn zeta in E. unfold panic in E.
  destruct (Z.leb_spec LOGBLOCKS (lh_n (l_log s))); [done|].
  destruct (Z.ltb_spec (l_outstanding (l_log s)) 1); [done|]. split; [done|].
  apply kbind_inv in E as (? & c3 & s3 & [= <- <- <-] & (? & c4 & s4 & E & ->%release_inv)%kbind_inv).
  destruct (Z.eqb_spec (Z.of_nat (absorb (take (Z.to_nat (lh_n (l_log s))) (lh_block (l_log s)))
    (b_blockno_of (l_cache s) i))) (lh_n (l_log s))).
  - apply kbind_inv in E as (? & c5 & s5 & E5 & [= <- <- <-]). apply frames_zoom in E5.
    simpl. rewrite E5. simpl. auto.
  - injection E as <- <- <-. simpl. auto.
Qed.
Lemma space_inv_step o o' : lstep o o' → space_inv o → space_inv o'.
Proof.
  intros Hst [Hn Ho Hk Hr Hcm Hb]. destruct Hst as
    [c c' s s' ks ph E|c c' s s' ks1 k ks2 ph i Hlt E|c c' s s' ks1 k ks2 ph dc E|
     c c' s s' ks E|c c' s s' ks E|t s ks ph]; simpl in *.
  - apply begin_op_inv in E as (Ecm & Hroom & El).
    pose proof (reserved_bound _ Hk). split; simpl; rewrite ?El; simpl; try done; try lia.
    + constructor; [unfold MAXOPBLOCKS; lia|done].
    + intros Hp. destruct ph; [done|lia..].
  - apply log_write_inv in E as (Hlt' & Eo & Ec & En).
    rewrite reserved_app in Hr. simpl in Hr. rewrite length_app in Ho. simpl in Ho.
    apply Forall_app in Hk as [Hk1 [Hk Hk2]%Forall_cons].
    split; simpl; rewrite ?Eo, ?Ec, ?reserved_app, ?length_app; simpl; try lia; try done.
    + apply Forall_app. split; [done|]. constructor; [lia|done].
    + intros Hp. specialize (Hb Hp). by destruct ks1.
  - apply end_op_enter_inv in E as (Ecm & Edc & El).
    rewrite reserved_app in Hr. simpl in Hr. rewrite length_app in Ho. simpl in Ho.
    apply Forall_app in Hk as [Hk1 [Hk Hk2]%Forall_cons].
    assert (Hph : ph = Idle) by (destruct ph; [done|lia..]). subst ph.
    split; simpl; rewrite ?El, ?reserved_app, ?length_app; simpl; try lia.
    + by apply Forall_app.
    + by destruct dc.
    + destruct dc; [|done]. intros _. symmetry in Edc. apply Z.eqb_eq in Edc.
      apply length_zero_iff_nil. rewrite length_app. lia.
  - apply commit_log in E; [|done]. pose proof (reserved_bound _ Hk).
    split; simpl; rewrite ?E; simpl; try done; try lia. intros _. by apply Hb.
  - apply kbind_inv in E as (? & c1 & s1 & ->%acquire_inv & E).
    apply kbind_inv in E as (? & c2 & s2 & [= <- <- <-] & E).
    apply kbind_inv in E as (? & c3 & s3 & [= <- <- <-] & ->%release_inv).
    by split; simpl.
  - by split.
Qed.

(** C4. Log space and transaction boundaries.  Start from an idle log and let any number of
    processes run begin_op, log_write, end_op and commit, interleaved in any order at the level of
    the log's critical sections, each operation calling [log_write] at most MAXOPBLOCKS times.  Then
    the log never holds more than LOGBLOCKS blocks; an operation that still has calls left can
    always make one ([log_write] returns whenever [bpin] does, so neither of its own panics can
    occur); ending an operation returns up to the point where [end_op] calls commit; and while a commit is pending
    or running no operation is in progress, so a commit never contains part of an operation.  Whether the commit finds
    buffers for its copies is another matter: [full_log_panics]. *)
Theorem log_space_reserved s o :
  lh_n (l_log s) = 0 → l_outstanding (l_log s) = 0 → l_committing (l_log s) = 0 →
  rtc lstep (mkops s [] Idle) o →
  lh_n (l_log (o_sys o)) <= LOGBLOCKS ∧
  (o_phase o ≠ Idle → o_calls o = []) ∧
  (∀ ks1 k ks2 c i, o_calls o = ks1 ++ k :: ks2 → k < MAXOPBLOCKS → LK_log ∉ held c →
     (∀ c', held c' = LK_log :: held c → ∃ t, bpin i c' (l_cache (o_sys o)) = Ret tt c' t) →
     ∃ s', log_write i c (o_sys o) = Ret tt c s') ∧
  (∀ c, o_calls o ≠ [] → LK_log ∉ held c → ∃ dc c' s', end_op_enter c (o_sys o) = Ret dc c' s').
Proof.
  intros En Eo Ecm Hreach.
  assert (Hinv : space_inv o).
  { assert (H0 : space_inv (mkops s [] Idle)).
    { split; simpl; try done; rewrite ?En; unfold LOGBLOCKS, MAXOPBLOCKS; lia. }
    clear En Eo Ecm. induction Hreach as [|o1 o2 o3 Hst _ IH]; [done|].
    by apply IH, (space_inv_step _ _ Hst). }
  destruct Hinv as [Hn Ho Hk Hr Hcm Hb]. pose proof (reserved_bound _ Hk) as Hrb.
  split; [lia|]. split; [done|]. split.
  - intros ks1 k ks2 [h w p] i Ek Hlt Hlk Hpin. simpl in Hlk, Hpin. rewrite Ek in *.
    rewrite reserved_app in Hr. simpl in Hr. rewrite length_app in Ho. simpl in Ho.
    apply Forall_app in Hk as [Hk1 [Hk Hk2]%Forall_cons].
    pose proof (reserved_bound _ Hk1). pose proof (reserved_bound _ Hk2).
    unfold log_write, lmod. kexec. rewrite (proj2 (Z.leb_gt _ _)), (proj2 (Z.ltb_ge _ _)) by lia. kexec.
    destruct (_ =? _); kexec; [|by eexists].
    destruct (Hpin (mkctx (LK_log :: h) w p) eq_refl) as [t Et].
    erewrite (zoom_ret cache_lens) by exact Et. kexec. by eexists.
  - intros [h w p] Hne Hlk. simpl in Hlk. destruct (o_phase o) eqn:Ep; [|by destruct Hne; apply Hb..].
    unfold end_op_enter, lmod. kexec. rewrite Hcm. simpl. kexec. cbn [l_log].
    destruct (_ =? 0); kexec; by do 3 eexists.
Qed.
End space_proofs.

(** ** Witnesses: the log over the cache of bio.c

    A zeroed device of 80 blocks whose log starts at block 2. *)
Definition demo_fs : bdev := mkbdev (replicate (S NBUF) zero_buf) (λ _, 0) (80 * BSIZE) [].
Definition demo_c : kctx := mkctx [] [] 1.

Lemma demo_clear : bio_clear demo_c.
Proof. apply clear_nil. Qed.

Lemma demo_lk : LK_log ∉ held demo_c.
Proof. apply not_elem_of_nil. Qed.

Lemma demo_head : hdr_n (mread (λ _, 0) (2 * BSIZE) bsize) = 0.
Proof. vm_compute. reflexivity. Qed.

Lemma demo_booted :
  ∃ t v, bio_binit demo_c demo_fs = Ret tt demo_c t ∧ booted 2 t v ∧ v_size v = 80 ∧
    (∀ b, v_ref v b = 0) ∧ v_free v = LOGBLOCKS ∧ v_disk v = λ b, mread (λ _, 0) (b * BSIZE) bsize.
Proof.
  destruct (binit_bcabs demo_c demo_fs 80 (λ b, mread (λ _, 0) (b * BSIZE) bsize)) as (t & E & Ht).
  - apply length_replicate.
  - intros j Hj. unfold blank, demo_fs. cbn [bufs]. by rewrite lookup_total_replicate_2.
  - reflexivity.
  - reflexivity.
  - lia.
  - done.
  - exists t, (view_boot 80 (λ b, mread (λ _, 0) (b * BSIZE) bsize) (λ _, 0%nat)).
    split; [exact E|]. clear E. pose proof demo_head as Hh. split_and!; [|reflexivity..].
    split; [exact Ht|..]; cbn [view_boot v_size v_disk v_data v_ref v_lock v_free v_log].
    + intros b. simpl. split; [done|lia].
    + reflexivity.
    + reflexivity.
    + split; rewrite ?(hdr_blocks_nil _ Hh), ?Hh; unfold LOGBLOCKS, MAXOPBLOCKS;
        [lia|lia|constructor|by intros b ?%elem_of_nil].
    + reflexivity.
Qed.

(** The state after boot: an idle log and an unused cache. *)
Lemma demo_idle :
  ∃ (s : lsys bdev) v, linv s v ∧ quiet v ∧ v_size v = 80 ∧ (∀ b, v_ref v b = 0) ∧ v_free v = LOGBLOCKS ∧
    lh_n (l_log s) = 0 ∧ l_outstanding (l_log s) = 0 ∧ l_committing (l_log s) = 0 ∧ l_start (l_log s) = 2.
Proof.
  destruct demo_booted as (t & v & _ & Hb & Hsz & Hr & Hf & _).
  destruct (initlog_linv demo_c t v 2 Hb demo_clear) as (c' & s & v' & B & _ & _ & Hv & Hi & Hq & El & _).
  exists s, v'. rewrite El. split_and!; try done.
  - by rewrite (vs_size _ _ _ _ Hv).
  - intros b. rewrite (vs_ref _ _ _ _ Hv), Hr. done.
  - by rewrite (vs_free_eq _ _ _ _ Hv).
Qed.

Definition demo_block : block := replicate bsize 7.

Lemma demo_update b : 33 <= b < 80 → home 2 80 b ∧ length demo_block = bsize.
Proof.
  intros Hb. split; [|apply length_replicate]. unfold home, LOGBLOCKS, MAXOPBLOCKS. lia.
Qed.

(** One operation in progress, with block 40 logged. *)
Lemma demo_logged :
  ∃ (s : lsys bdev) v, linv s v ∧ quiet v ∧ 0 < v_free v ∧ 0 < lh_n (l_log s) ∧
    40 ∈ logged (l_log s) ∧ v_data v 40 = demo_block.
Proof.
  destruct demo_idle as (s & v & Hi & Hq & Hsz & Hr & Hf & Hn & Ho & Hcm & Hst).
  pose proof (linv_counters s v 1 0 Hi) as Hi1. set (s1 := mkls _ _) in Hi1.
  destruct (update_block_ok demo_c s1 v 40 demo_block Hi1 Hq demo_clear demo_lk)
    as (c' & s' & v' & _ & _ & Hi' & [_ _ Ut Ur Uf] & Hl & Hin & _ & _ & _ & Hn' & _);
    unfold s1; simpl; rewrite ?Hst, ?Hsz, ?Hn, ?Hf.
  - by apply demo_update.
  - reflexivity.
  - done.
  - lia.
  - done.
  - exists s', v'. split_and!; try done.
    + intros b. rewrite Ur, Hr. split; [done|]. unfold fresh. repeat case_decide; lia.
    + rewrite Uf, Hf, Hr. unfold fresh, is_zero, LOGBLOCKS, MAXOPBLOCKS. case_decide; simpl; lia.
    + apply list_elem_of_lookup in Hin as [j Hj%lookup_lt_Some].
      pose proof (length_logged _ _ Hi'). lia.
Qed.

Lemma fs_op_applies_witness :
  ∃ (s : lsys bdev) c' s' v', fs_op [(40, demo_block)] demo_c s = Ret tt c' s' ∧
    linv s' v' ∧ v_disk v' 40 = demo_block.
Proof.
  destruct demo_idle as (s & v & Hi & Hq & Hsz & Hr & Hf & Hn & Ho & Hcm & Hst).
  destruct (fs_op_applies [(40, demo_block)] demo_c s v) as (c' & s' & v' & E & _ & Hi' & _ & _ & _ & Hd).
  - rewrite Hst, Hsz. constructor; [by apply demo_update|constructor].
  - simpl. unfold MAXOPBLOCKS. lia.
  - exact Hi.
  - intros b. rewrite Hr. split; [apply Hq|lia].
  - exact demo_clear.
  - exact demo_lk.
  - exact Hn.
  - exact Ho.
  - exact Hcm.
  - rewrite Hf. simpl. unfold LOGBLOCKS, MAXOPBLOCKS. lia.
  - exists s, c', s', v'. split; [exact E|]. split; [exact Hi'|].
    destruct (Hd 40) as [Hd1 _]; [rewrite Hst, Hsz; by apply demo_update|].
    rewrite Hd1. simpl. apply fn_lookup_insert.
Defined.

Lemma commit_crash_atomic_witness :
  ∃ (s : lsys bdev) ws c' s', commit demo_c s = Ret tt c' s' ∧ ∀ k, ∃ c3 s3,
    reboot (l_start (l_log s)) (power_cycle (take k ws) (l_cache s)) demo_c = Ret tt c3 s3.
Proof.
  destruct demo_logged as (s & v & Hi & Hq & Hf & Hn & _).
  destruct (commit_crash_atomic demo_c s v Hi Hq demo_clear Hf Hn) as (ws & c' & s' & v' & E & _ & _ & Hk).
  exists s, ws, c', s'. split; [exact E|]. intros k.
  destruct (Hk k demo_c demo_clear) as (c3 & s3 & _ & E3 & _). by exists c3, s3.
Defined.

Lemma recovery_restartable_witness :
  ∃ t c' s', bio_binit demo_c demo_fs = Ret tt demo_c t ∧
    initlog ROOTDEV 2 demo_c (mkls t log0) = Ret tt c' s' ∧ lh_n (l_log s') = 0.
Proof.
  destruct demo_booted as (t & v & E & Hb & _).
  destruct (recovery_restartable demo_c t v 2 Hb demo_clear) as (ws & c' & s' & v' & E' & _ & Hn & _).
  exists t, c', s'. split; [exact E|]. split; [exact E'|exact Hn].
Defined.

Lemma log_write_absorbs_witness :
  ∃ (s : lsys bdev) i s', log_write i demo_c s = Ret tt demo_c s' ∧ 40 ∈ logged (l_log s').
Proof.
  destruct demo_idle as (s & v & Hi & Hq & Hsz & Hr & Hf & Hn & Ho & Hcm & Hst).
  pose proof (linv_counters s v 1 0 Hi) as Hi1. set (s1 := mkls _ _) in Hi1.
  assert (Hh : home (l_start (l_log s1)) (v_size v) 40).
  { unfold s1. simpl. rewrite Hst, Hsz. by apply demo_update. }
  destruct (bread_ok demo_c (l_cache s1) v 40) as (i & t & _ & Ht & _);
    [apply Hi1|exact demo_clear|rewrite Hsz; lia|apply Hq|rewrite Hr; lia|right; by rewrite Hf|].
  pose proof (b_store_ok t _ 40 demo_block Ht) as Ht2.
  rewrite (eq_refl : v_buf (view_read (curpid demo_c) 40 i v) 40 = i) in Ht2.
  assert (Ht3 : cabs (b_store i demo_block t) (view_store 40 demo_block (view_read (curpid demo_c) 40 i v))).
  { apply Ht2; [|apply length_replicate]. simpl. rewrite fn_lookup_insert, Hr. lia. }
  pose proof (linv_locked s1 v _ _ _ _ _ Hi1 Hh ltac:(rewrite Hr; lia) Ht3) as Hi3.
  destruct (log_write_absorbs demo_c _ _ 40 Hi3) as (s' & E & _ & Hin & _).
  - exact demo_clear.
  - exact demo_lk.
  - simpl. rewrite fn_lookup_insert, Hr. lia.
  - exact Hh.
  - unfold s1. simpl. rewrite Hn. reflexivity.
  - unfold s1. simpl. lia.
  - eexists _, _, s'. split; [exact E|exact Hin].
Defined.

Lemma log_space_reserved_witness :
  ∃ (s s1 : lsys bdev), begin_op demo_c s = Ret tt demo_c s1 ∧ lh_n (l_log s1) <= LOGBLOCKS ∧
    ∃ dc c' s', end_op_enter demo_c s1 = Ret dc c' s'.
Proof.
  set (s := mkls demo_fs log0).
  assert (E : begin_op demo_c s = Ret tt demo_c (mkls demo_fs (set_outstanding 1 log0))).
  { apply (begin_op_ok demo_c s); [exact demo_lk|reflexivity|]. simpl. unfold LOGBLOCKS, MAXOPBLOCKS. lia. }
  destruct (log_space_reserved s (mkops (mkls demo_fs (set_outstanding 1 log0)) [0] Idle)) as (Hn & _ & _ & He).
  - reflexivity.
  - reflexivity.
  - reflexivity.
  - eapply rtc_once, ls_begin. exact E.
  - eexists s, _. split; [exact E|]. split; [exact Hn|]. by apply He; [|exact demo_lk].
Defined.

Definition demo_updates (b : Z) : list bwrite_ev := (λ i : nat, (b + Z.of_nat i, demo_block)) <$> seq 0 10.

Lemma full_log_panics_witness :
  ∃ (s : lsys bdev), three_ops 1 2 3 (demo_updates 40) (demo_updates 50) (demo_updates 60) demo_c s =
    Panic "bget: no buffers".
Proof.
  destruct demo_idle as (s & v & Hi & Hq & Hsz & Hr & Hf & Hn & Ho & Hcm & Hst). exists s.
  apply (full_log_panics 1 2 3 _ _ _ [] [] 1 s v); try done; try exact demo_clear.
  - apply (bool_decide_unpack _). vm_compute. reflexivity.
  - rewrite Hst, Hsz. repeat apply Forall_app_2; apply Forall_fmap, Forall_forall;
      intros i Hi'%elem_of_seq; apply (demo_update (_ + Z.of_nat i)); lia.
  - apply not_elem_of_nil.
Defined.
