(* ===== verification/TxStore.v ===== *)
(** * What the log promises to the file system

    The interface between kernel/log.c (with bio.c below it) and kernel/fs.c.  [TxOps] is what fs.c
    calls; [TxStore] states, inside a transaction, what those calls do to an abstract view of the
    disk.  The file system is written and proved against this interface; the last section shows that
    the log of file Log, over any cache that satisfies BlockCache, implements it. *)

From stdpp Require Import base list functions sets numbers strings.
From Stdlib Require Import ZArith Lia.
From S2P Require Import Prelude Machine BlockCache Sleeplock Bio Log.

Class TxOps (L : Type) := {
  tx_bread : Z → Z → M L nat;             (* bread(dev, blockno) *)
  tx_brelse : nat → M L unit;
  tx_log_write : nat → M L unit;
  tx_data : L → nat → block;              (* bp->data *)
  tx_store : nat → block → L → L;         (* memory written through bp->data *)
  tx_begin : M L unit;                    (* begin_op *)
  tx_end : M L unit;                      (* end_op *)
  tx_init : Z → Z → M L unit              (* initlog(dev, sb) with sb.logstart *)
}.

(** [bp->data] gets the contents [d]; [log_write(bp)] *)
Definition tx_write {L} `{TxOps L} (i : nat) (d : block) : M L unit :=
  kmod (tx_store i d) ;;; tx_log_write i.

(** ** The view of a process inside a transaction

    [t_data] is what every block holds; [t_held] lists the blocks the process has read and not yet
    released, with their buffers; [t_logged] lists the blocks of the current transaction. *)
Record tview := mktv {
  t_size : Z;
  t_start : Z;
  t_data : Z → block;
  t_held : list (Z * nat);
  t_logged : list Z
}.

Definition t_take (bn : Z) (i : nat) (t : tview) : tview :=
  mktv (t_size t) (t_start t) (t_data t) ((bn, i) :: t_held t) (t_logged t).
Definition t_write (bn : Z) (d : block) (t : tview) : tview :=
  mktv (t_size t) (t_start t) (<[bn:=d]> (t_data t)) (t_held t)
    (if decide (bn ∈ t_logged t) then t_logged t else t_logged t ++ [bn]).
Definition t_drop (bn : Z) (i : nat) (t : tview) : tview :=
  mktv (t_size t) (t_start t) (t_data t) (filter (λ x, x ≠ (bn, i)) (t_held t)) (t_logged t).

(** The caller holds none of the spin locks of bio.c and log.c. *)
Definition tx_clear (c : kctx) : Prop := bio_clear c ∧ LK_log ∉ held c.

(** The number of buffers that can still be taken. *)
Definition t_free (t : tview) : Z :=
  Z.of_nat NBUF - Z.of_nat (length (t_logged t)) - Z.of_nat (length (t_held t)).

Class TxStore (L : Type) `{TxOps L} := {
  (** [l], used by process [me], shows [t]. *)
  tabs : Z → L → tview → Prop;

  tabs_len me l t bn : tabs me l t → 0 <= bn < t_size t → length (t_data t bn) = bsize;
  tabs_data me l t bn i : tabs me l t → (bn, i) ∈ t_held t → tx_data l i = t_data t bn;
  tabs_held me l t bn i : tabs me l t → (bn, i) ∈ t_held t → 0 <= bn < t_size t;
  tx_bread_ok c l t bn :
    tabs (curpid c) l t → tx_clear c → 0 <= bn < t_size t → bn ∉ (t_held t).*1 → 0 < t_free t →
    ∃ i l', tx_bread ROOTDEV bn c l = Ret i c l' ∧ tabs (curpid c) l' (t_take bn i t);
  tx_write_ok c l t bn i d :
    tabs (curpid c) l t → tx_clear c → (bn, i) ∈ t_held t → home (t_start t) (t_size t) bn →
    length d = bsize → Z.of_nat (length (t_logged t)) < LOGBLOCKS →
    ∃ l', tx_write i d c l = Ret tt c l' ∧ tabs (curpid c) l' (t_write bn d t);
  tx_brelse_ok c l t bn i :
    tabs (curpid c) l t → tx_clear c → (bn, i) ∈ t_held t →
    ∃ c' l', tx_brelse i c l = Ret tt c' l' ∧ same_ctx c c' ∧ tabs (curpid c) l' (t_drop bn i t)
}.

(** ** The log implements it *)

Lemma filter_ext_in {A} (P Q : A → Prop) `{∀ x, Decision (P x), ∀ x, Decision (Q x)} (l : list A) :
  (∀ x, x ∈ l → P x ↔ Q x) → filter P l = filter Q l.
Proof.
  induction l as [|x l IH]; [done|]. intros Hpq. rewrite !filter_cons, IH by set_solver.
  pose proof (Hpq x ltac:(constructor)). repeat case_decide; tauto || done.
Qed.

Section instance.
Context {S : Type} `{BlockCache S}.
Implicit Types (l : lsys S) (v : cview) (t : tview) (c : kctx) (bn : Z).

#[global] Instance log_tx_ops : TxOps (lsys S) := {
  tx_bread dev bn := zoom cache_lens (bread dev bn);
  tx_brelse i := zoom cache_lens (brelse i);
  tx_log_write := log_write;
  tx_data l i := b_data_of (l_cache l) i;
  tx_store i d l := mkls (b_store i d (l_cache l)) (l_log l);
  tx_begin := begin_op;
  tx_end := end_op;
  tx_init := initlog
}.

Definition heldb (t : tview) bn : Z := if decide (bn ∈ (t_held t).*1) then 1 else 0.
Definition loggedb (t : tview) bn : Z := if decide (bn ∈ t_logged t) then 1 else 0.

(** Blocks held and not logged. *)
Definition held_only t : list (Z * nat) := filter (λ x, x.1 ∉ t_logged t) (t_held t).

Record txabs (me : Z) l t v : Prop := mktx {
  tx_linv : linv l v;
  tx_size : v_size v = t_size t;
  tx_start : l_start (l_log l) = t_start t;
  tx_view : ∀ b, v_data v b = t_data t b;
  tx_logged : logged (l_log l) = t_logged t;
  tx_lock : ∀ b, v_lock v b = if decide (b ∈ (t_held t).*1) then Some me else None;
  tx_buf : ∀ b i, (b, i) ∈ t_held t → v_buf v b = i;
  tx_nodup : NoDup (t_held t).*1;
  tx_range : ∀ b, b ∈ (t_held t).*1 → 0 <= b < t_size t;
  tx_ref : ∀ b, v_ref v b = heldb t b + loggedb t b;
  tx_clean : ∀ b, b ∉ t_logged t → v_data v b = v_disk v b;
  tx_bufs : Z.of_nat NBUF <= v_free v + Z.of_nat (length (t_logged t)) + Z.of_nat (length (held_only t));
  tx_open : 1 <= l_outstanding (l_log l)
}.

Lemma heldb_range t b : 0 <= heldb t b <= 1.
Proof. unfold heldb. case_decide; lia. Qed.
Lemma loggedb_range t b : 0 <= loggedb t b <= 1.
Proof. unfold loggedb. case_decide; lia. Qed.

Lemma held_in t bn i : (bn, i) ∈ t_held t → bn ∈ (t_held t).*1.
Proof. intros Hin. apply list_elem_of_fmap. by exists (bn, i). Qed.

Lemma length_held_only t : (length (held_only t) ≤ length (t_held t))%nat.
Proof. apply length_filter. Qed.

Lemma filter_drop_one t bn : NoDup (t_held t).*1 →
  (length (filter (λ x : Z * nat, x.1 ∉ t_logged t) (t_held t)) ≤
   length (filter (λ x : Z * nat, x.1 ∉ t_logged t ++ [bn]) (t_held t)) + 1)%nat.
Proof.
  generalize (t_held t) as hs. induction hs as [|[b i] hs IH]; [simpl; lia|]. rewrite fmap_cons. intros [Hb Hnd]%NoDup_cons.
  rewrite !filter_cons. cbn [fst] in *. destruct (decide (b = bn)) as [->|Hne].
  - rewrite (decide_False (P := bn ∉ _ ++ _)) by set_solver.
    assert (E : filter (λ x : Z * nat, x.1 ∉ t_logged t ++ [bn]) hs = filter (λ x : Z * nat, x.1 ∉ t_logged t) hs).
    { apply filter_ext_in. intros [b' i'] Hin. simpl. assert (b' ≠ bn); [|set_solver].
      intros ->. apply Hb, list_elem_of_fmap. by exists (bn, i'). }
    rewrite E. case_decide; simpl; lia.
  - specialize (IH Hnd). destruct (decide (b ∉ t_logged t)) as [H1|H1].
    + rewrite (decide_True (P := b ∉ _ ++ _)) by set_solver. simpl. lia.
    + rewrite (decide_False (P := b ∉ _ ++ _)) by set_solver. lia.
Qed.

(** *** Reading a block *)

Lemma linv_read l v s' me bn i :
  linv l v → 0 <= v_ref v bn → cabs s' (view_read me bn i v) →
  linv (mkls s' (l_log l)) (view_read me bn i v).
Proof.
  intros Hi Hr Hs. destruct (Hi). split; try done.
  - intros b Hb. vlook. destruct (decide (b = bn)) as [->|]; vlook; [lia|auto].
  - intros b Hb Hl. simpl in *. destruct (decide (b = bn)) as [->|Hne]; [by rewrite fn_lookup_insert in Hl|].
    rewrite fn_lookup_insert_ne in Hl by done. auto.
Qed.

Lemma txabs_read c l t v bn :
  txabs (curpid c) l t v → tx_clear c → 0 <= bn < t_size t → bn ∉ (t_held t).*1 → 0 < t_free t →
  ∃ i l' v', zoom cache_lens (bread ROOTDEV bn) c l = Ret i c l' ∧ txabs (curpid c) l' (t_take bn i t) v'.
Proof.
  intros Hx [Hc _] Hbn Hnh Hf. destruct (Hx) as [Hi Hsz Hst Hd Hlg Hlk Hbuf Hnd Hrg Href Hcl Hbs Hop].
  pose proof (Href bn) as Hr. unfold heldb in Hr. rewrite decide_False in Hr by done.
  pose proof (loggedb_range t bn) as Hlr. pose proof (length_held_only t) as Hho.
  destruct (bread_ok c (l_cache l) v bn) as (i & s' & E & Hs & _);
    [apply Hi|done|lia|by rewrite Hlk, decide_False|lia| |].
  { unfold t_free in Hf. destruct (decide (0 < v_ref v bn)); [by left|right; lia]. }
  exists i, (mkls s' (l_log l)), (view_read (curpid c) bn i v). split; [by apply (zoom_ret cache_lens)|].
  split; cbn [t_size t_start t_data t_held t_logged t_take l_log v_size v_data v_disk view_read v_lock v_buf v_ref v_free];
    try done.
  - apply linv_read; [done|lia|done].
  - intros b. rewrite fmap_cons. destruct (decide (b = bn)) as [->|Hne].
    + rewrite fn_lookup_insert. by rewrite decide_True by constructor.
    + rewrite fn_lookup_insert_ne, Hlk by done. repeat case_decide; try done; set_solver.
  - intros b j [[= -> ->]|Hin]%elem_of_cons; [by rewrite fn_lookup_insert|].
    rewrite fn_lookup_insert_ne; [by apply Hbuf|]. intros ->. by eapply Hnh, held_in.
  - rewrite fmap_cons. by constructor.
  - intros b. rewrite fmap_cons. intros [->|?]%elem_of_cons; auto.
  - intros b. unfold heldb, loggedb. cbn [t_held t_logged t_take]. rewrite fmap_cons.
    destruct (decide (b = bn)) as [->|Hne].
    + rewrite fn_lookup_insert. rewrite (decide_True (P := bn ∈ _ :: _)) by constructor. unfold loggedb in Hr. lia.
    + rewrite fn_lookup_insert_ne, Href by done. unfold heldb, loggedb. repeat case_decide; try lia; set_solver.
  - unfold held_only. cbn [t_held t_logged t_take]. rewrite filter_cons. fold (held_only t).
    unfold loggedb in Hr. unfold is_zero. cbn [fst]. case_decide; case_decide; try done; simpl; rewrite Hr; simpl; lia.
Qed.

(** *** Writing a block *)

Lemma linv_store l v s' bn d :
  linv l v → v_lock v bn ≠ None → cabs s' (view_store bn d v) → linv (mkls s' (l_log l)) (view_store bn d v).
Proof.
  intros Hi Hl Hs. destruct (Hi). split; try done. intros b Hb Hlb. simpl in *.
  rewrite fn_lookup_insert_ne; [auto|]. by intros <-.
Qed.

Lemma txabs_write c l t v bn i d :
  txabs (curpid c) l t v → tx_clear c → (bn, i) ∈ t_held t → home (t_start t) (t_size t) bn →
  length d = bsize → Z.of_nat (length (t_logged t)) < LOGBLOCKS →
  ∃ l' v', tx_write i d c l = Ret tt c l' ∧ txabs (curpid c) l' (t_write bn d t) v'.
Proof.
  intros Hx [Hc Hlkl] Hin Hh Hd Hroom. destruct (Hx) as [Hi Hsz Hst Hdt Hlg Hlk Hbuf Hnd Hrg Href Hcl Hbs Hop].
  pose proof (held_in _ _ _ Hin) as Hb. pose proof (loggedb_range t bn) as Hlr.
  assert (Hr : v_ref v bn = 1 + loggedb t bn) by (rewrite Href; unfold heldb; by rewrite decide_True).
  pose proof (Hbuf bn i Hin) as Eb.
  assert (Hs2 : cabs (b_store i d (l_cache l)) (view_store bn d v)).
  { rewrite <- Eb. apply b_store_ok; [apply Hi|lia|done]. }
  pose proof (linv_store l v _ bn d Hi ltac:(by rewrite Hlk, decide_True) Hs2) as Hi2. set (l2 := mkls _ _) in *.
  pose proof (length_logged _ _ Hi) as Hlen. rewrite Hlg in Hlen.
  destruct (log_write_ok c l2 (view_store bn d v) bn Hi2 Hc Hlkl) as (l3 & E & Hi3 & El);
    [cbn; lia|cbn; by rewrite Hst, Hsz|cbn; lia|done|].
  cbn [v_buf view_store] in E. rewrite Eb in E. exists l3, (log_write_view (l_log l2) bn (view_store bn d v)).
  split; [by unfold tx_write, kbind, kmod|]. cbn [l_log l2] in El |- *. rewrite Hlg in El.
  assert (Hkeep : (if decide (bn ∈ t_logged t) then v_ref v else <[bn:=v_ref v bn + 1]> (v_ref v)) =
    v_ref (log_write_view (l_log l) bn (view_store bn d v))).
  { unfold log_write_view. rewrite Hlg. by destruct (decide (bn ∈ t_logged t)). }
  assert (Hsame : ∀ {X} (f : cview → X), (∀ k w, f (view_ref bn k w) = f w) →
    f (log_write_view (l_log l) bn (view_store bn d v)) = f (view_store bn d v)).
  { intros X f Hf. unfold log_write_view. destruct (decide (bn ∈ logged (l_log l))); auto. }
  split; cbn [t_size t_start t_data t_held t_logged t_write]; try done.
  - by rewrite (Hsame _ v_size).
  - case_decide; [by subst l3|]. destruct El as [_ ->]. done.
  - intros b. rewrite (Hsame _ v_data) by done. cbn. destruct (decide (b = bn)) as [->|].
    + by rewrite !fn_lookup_insert.
    + by rewrite !fn_lookup_insert_ne.
  - case_decide; [by subst l3|]. by destruct El as [-> _].
  - intros b. rewrite (Hsame _ v_lock) by done. apply Hlk.
  - intros b j Hj. rewrite (Hsame _ v_buf) by done. by apply Hbuf.
  - intros b. rewrite <- Hkeep. unfold heldb, loggedb in *. cbn [t_held t_logged t_write].
    destruct (decide (bn ∈ t_logged t)) as [Hlgd|Hlgd]; [apply Href|].
    destruct (decide (b = bn)) as [->|Hne].
    + rewrite fn_lookup_insert, Hr. rewrite !decide_True by set_solver. lia.
    + rewrite fn_lookup_insert_ne, Href by done. repeat case_decide; try lia; set_solver.
  - intros b Hnl. rewrite (Hsame _ v_data), (Hsame _ v_disk) by done. cbn.
    assert (Hbn : b ≠ bn) by (intros ->; revert Hnl; case_decide; set_solver).
    rewrite fn_lookup_insert_ne by done. apply Hcl. revert Hnl. case_decide; set_solver.
  - rewrite (Hsame _ v_free) by done. cbn [v_free view_store]. unfold held_only in *. cbn [t_held t_logged t_write].
    destruct (decide (bn ∈ t_logged t)) as [Hlgd|Hlgd]; [done|]. rewrite length_app. cbn [length].
    pose proof (filter_drop_one t bn Hnd). lia.
  - case_decide; [by subst l3|]. destruct El as [_ ->]. done.
Qed.

(** *** Releasing a block *)

Lemma held_drop t bn i b :
  NoDup (t_held t).*1 → (bn, i) ∈ t_held t →
  b ∈ (filter (λ x, x ≠ (bn, i)) (t_held t)).*1 ↔ b ∈ (t_held t).*1 ∧ b ≠ bn.
Proof.
  generalize (t_held t) as hs. intros hs Hnd Hin. rewrite !list_elem_of_fmap. split.
  - intros ([b' j] & -> & [Hne Hj]%list_elem_of_filter). split; [by exists (b', j)|]. simpl. intros ->. apply Hne.
    f_equal. clear Hne. induction hs as [|[x k] hs IH]; [by apply elem_of_nil in Hin|].
    rewrite fmap_cons in Hnd. apply NoDup_cons in Hnd as [Hx Hnd]. simpl in Hx.
    apply elem_of_cons in Hin, Hj. destruct Hin as [Hin|Hin], Hj as [Hj|Hj]; simplify_eq/=; [done|..].
    + destruct Hx. apply list_elem_of_fmap. eexists. split; [|exact Hj]. done.
    + destruct Hx. apply list_elem_of_fmap. eexists. split; [|exact Hin]. done.
    + by apply IH.
  - intros [([b' j] & -> & Hj) Hne]. exists (b', j). split; [done|]. apply list_elem_of_filter. split; [|done].
    intros [= -> ->]. done.
Qed.

Lemma filter_drop_held t bn i : NoDup (t_held t).*1 → (bn, i) ∈ t_held t →
  length (held_only t) = (length (held_only (t_drop bn i t)) + (if decide (bn ∈ t_logged t) then 0 else 1))%nat.
Proof.
  unfold held_only. cbn [t_held t_logged t_drop]. generalize (t_held t) as hs.
  induction hs as [|[x k] hs IH]; [by intros _ ?%elem_of_nil|]. rewrite fmap_cons. intros [Hx Hnd]%NoDup_cons Hin.
  cbn [fst] in Hx. rewrite !filter_cons. cbn [fst]. destruct (decide ((x, k) = (bn, i))) as [[= -> ->]|Hne].
  - rewrite (decide_False (P := _ ≠ _)) by tauto.
    assert (E : filter (λ x, x ≠ (bn, i)) hs = hs).
    { clear -Hx. induction hs as [|y hs IH]; [done|]. rewrite filter_cons. rewrite fmap_cons in Hx.
      rewrite decide_True by (intros ->; apply Hx; constructor). f_equal. apply IH. set_solver. }
    rewrite E. destruct (decide (bn ∈ t_logged t)); [rewrite decide_False by tauto|rewrite decide_True by done]; simpl; lia.
  - rewrite (decide_True (P := _ ≠ _)) by done. rewrite filter_cons. cbn [fst].
    apply elem_of_cons in Hin as [?|Hin]; [done|]. specialize (IH Hnd Hin).
    destruct (decide (x ∉ t_logged t)); simpl; lia.
Qed.

Lemma linv_release l v s' bn :
  linv l v → (∀ b, b ∉ logged (l_log l) → v_data v b = v_disk v b) →
  (bn ∈ logged (l_log l) → 1 < v_ref v bn) → cabs s' (view_release bn v) →
  linv (mkls s' (l_log l)) (view_release bn v).
Proof.
  intros Hi Hcl Hr Hs. destruct (Hi). split; try done.
  - intros b Hb. vlook. destruct (decide (b = bn)) as [->|]; vlook; [specialize (Hr Hb); lia|auto].
  - intros b Hb _. simpl. by apply Hcl.
Qed.

Lemma txabs_release c l t v bn i :
  txabs (curpid c) l t v → tx_clear c → (bn, i) ∈ t_held t →
  ∃ c' l' v', zoom cache_lens (brelse i) c l = Ret tt c' l' ∧ same_ctx c c' ∧
    txabs (curpid c) l' (t_drop bn i t) v'.
Proof.
  intros Hx [Hc _] Hin. destruct (Hx) as [Hi Hsz Hst Hd Hlg Hlk Hbuf Hnd Hrg Href Hcl Hbs Hop].
  pose proof (held_in _ _ _ Hin) as Hb. pose proof (Hbuf bn i Hin) as Eb. pose proof (loggedb_range t bn) as Hlr.
  assert (Hr : v_ref v bn = 1 + loggedb t bn) by (rewrite Href; unfold heldb; by rewrite decide_True).
  destruct (zoom_brelse_ok c l v bn (li_abs _ _ Hi) Hc) as (c' & s' & E & Hc' & Hs);
    [lia|by rewrite Hlk, decide_True| |].
  { intros H1. apply Hcl. unfold loggedb in Hr. destruct (decide (bn ∈ t_logged t)); [lia|done]. }
  rewrite Eb in E. exists c', (mkls s' (l_log l)), (view_release bn v). split; [done|]. split; [done|].
  pose proof (held_drop t bn i) as Hdrop.
  split; cbn [t_size t_start t_data t_held t_logged t_drop l_log v_size v_data v_disk view_release v_lock v_buf v_ref v_free];
    try done.
  - apply linv_release; [done|by rewrite Hlg| |done]. rewrite Hlg. intros Hin'. unfold loggedb in Hr.
    rewrite decide_True in Hr by done. lia.
  - intros b. destruct (decide (b = bn)) as [->|Hne].
    + rewrite fn_lookup_insert. rewrite decide_False; [done|]. intros [_ ?]%Hdrop; done.
    + rewrite fn_lookup_insert_ne, Hlk by done. specialize (Hdrop b Hnd Hin).
      destruct (decide (b ∈ (t_held t).*1)); [rewrite decide_True by tauto|rewrite decide_False by tauto]; done.
  - intros b j [_ Hj]%list_elem_of_filter. by apply Hbuf.
  - clear -Hnd. induction (t_held t) as [|x hs IH]; [constructor|]. rewrite fmap_cons in Hnd.
    apply NoDup_cons in Hnd as [Hx Hnd]. rewrite filter_cons. case_decide; [|by apply IH]. rewrite fmap_cons.
    constructor; [|by apply IH]. intros (y & Ey & [_ Hy]%list_elem_of_filter)%list_elem_of_fmap. apply Hx.
    apply list_elem_of_fmap. by exists y.
  - intros b Hb'. destruct (Hdrop b Hnd Hin) as [H1 _]. by apply Hrg, H1.
  - intros b. unfold heldb, loggedb in *. cbn [t_held t_logged t_drop]. specialize (Hdrop b Hnd Hin).
    destruct (decide (b = bn)) as [->|Hne].
    + rewrite fn_lookup_insert, Hr. rewrite (decide_False (P := bn ∈ (filter _ _).*1)) by tauto. lia.
    + rewrite fn_lookup_insert_ne, Href by done.
      destruct (decide (b ∈ (t_held t).*1)); [rewrite (decide_True (P := b ∈ (filter _ _).*1)) by tauto|
        rewrite (decide_False (P := b ∈ (filter _ _).*1)) by tauto]; done.
  - pose proof (filter_drop_held t bn i Hnd Hin) as Hf. change (t_logged (t_drop bn i t)) with (t_logged t).
    unfold loggedb in Hr. rewrite Hr. unfold is_zero. destruct (decide (bn ∈ t_logged t)); simpl; lia.
Qed.

#[global] Program Instance log_tx_store : TxStore (lsys S) := {
  tabs me l t := ∃ v, txabs me l t v
}.
Next Obligation.
  intros me l t bn [v Hx] Hbn. rewrite <- (tx_view _ _ _ _ Hx). eapply cabs_len; [apply Hx|].
  by rewrite (tx_size _ _ _ _ Hx).
Qed.
Next Obligation.
  intros me l t bn i [v Hx] Hin. cbn. rewrite <- (tx_buf _ _ _ _ Hx bn i Hin), <- (tx_view _ _ _ _ Hx).
  apply (cabs_data _ _ bn (li_abs _ _ (tx_linv _ _ _ _ Hx))). rewrite (tx_ref _ _ _ _ Hx). unfold heldb.
  rewrite decide_True by (by eapply held_in). pose proof (loggedb_range t bn). lia.
Qed.
Next Obligation. intros me l t bn i [v Hx] Hin. eapply tx_range; [done|]. by eapply held_in. Qed.
Next Obligation.
  intros c l t bn [v Hx] Hc Hbn Hnh Hf. destruct (txabs_read c l t v bn Hx Hc Hbn Hnh Hf) as (i & l' & v' & E & Hx').
  exists i, l'. split; [done|by exists v'].
Qed.
Next Obligation.
  intros c l t bn i d [v Hx] Hc Hin Hh Hd Hr.
  destruct (txabs_write c l t v bn i d Hx Hc Hin Hh Hd Hr) as (l' & v' & E & Hx'). exists l'. split; [done|by exists v'].
Qed.
Next Obligation.
  intros c l t bn i [v Hx] Hc Hin. destruct (txabs_release c l t v bn i Hx Hc Hin) as (c' & l' & v' & E & Hc' & Hx').
  exists c', l'. split; [done|]. split; [done|by exists v'].
Qed.
End instance.

(** ** Booting from a RAM disk

    The machine starts with the disk image [m]: [binit], [initlog], and the first process calls
    [begin_op].  With an empty log header the process sees the image. *)
Definition boot_dev (m : mem) (size : Z) : bdev := mkbdev (replicate (S NBUF) zero_buf) m (size * BSIZE) [].

Lemma tx_boot m (size start : Z) :
  0 <= start → start + LOGBLOCKS < size <= 2 ^ 22 → hdr_n (mread m (start * BSIZE) bsize) = 0 →
  ∃ c (l : lsys bdev) data,
    (zoom cache_lens binit ;;; initlog ROOTDEV start ;;; begin_op) (mkctx [] [] 1) (mkls (boot_dev m size) log0)
      = Ret tt c l ∧ held c = [] ∧ curpid c = 1 ∧
    tabs 1 l (mktv size start data [] []) ∧ ∀ b, 0 <= b < size → b ≠ start → data b = mread m (b * BSIZE) bsize.
Proof.
  intros Hst Hsz Hh. set (c0 := mkctx [] [] 1). set (dk := λ b : Z, mread m (b * BSIZE) bsize).
  assert (Hc0 : bio_clear c0) by apply clear_nil.
  destruct (binit_bcabs c0 (boot_dev m size) size dk) as (t & E0 & Ht);
    [apply length_replicate| |done|done|unfold LOGBLOCKS, MAXOPBLOCKS in *; lia|done|].
  { intros j Hj. unfold blank, boot_dev. cbn [bufs]. by rewrite lookup_total_replicate_2. }
  set (v := view_boot size dk (λ _, 0%nat)) in *. change (hdr_n (dk start) = 0) in Hh.
  assert (Hb : booted start t v).
  { split; [exact Ht|..]; try done.
    split; rewrite ?(hdr_blocks_nil _ Hh), ?Hh; cbn [v v_size view_boot v_disk]; rewrite ?(hdr_blocks_nil _ Hh), ?Hh;
      [lia|unfold LOGBLOCKS, MAXOPBLOCKS; lia|constructor|by intros b ?%elem_of_nil]. }
  destruct (initlog_linv c0 t v start Hb Hc0) as (c1 & l & v' & B & E1 & HB & Hv & Hi & Hq & El & _).
  destruct (initlog_run c0 (mkls t log0) v start) as (c1' & t' & v'' & B' & E1' & Hc1 & _);
    [apply (bt_abs _ _ _ Hb)|done|apply (bt_quiet _ _ _ Hb)|done|done|apply (bt_disk _ _ _ Hb)|apply length_replicate|].
  rewrite E1 in E1'. injection E1' as <- _.
  assert (Hw : recovery_writes start (v_disk v) B = [(start, put_head 0 B (dk start))]).
  { unfold recovery_writes. cbn [v v_disk view_boot]. by rewrite (hdr_blocks_nil _ Hh). }
  rewrite Hw in Hv. destruct Hc1 as [Hh1 Hp1].
  assert (E2 : begin_op c1 l = Ret tt c1 (mkls (l_cache l) (set_outstanding 1 (l_log l)))).
  { rewrite begin_op_ok; rewrite ?El; rewrite ?Hh1; [done|apply not_elem_of_nil|done|done]. }
  assert (Hdd : ∀ b, v_data v' b = v_disk v' b).
  { intros b. by rewrite (vs_data _ _ _ _ Hv), (vs_disk _ _ _ _ Hv). }
  exists c1. eexists. exists (v_data v'). split; [|split; [done|split; [done|split]]].
  - rewrite (kbind_ret _ _ _ _ tt c0 (mkls t log0)) by (by apply (zoom_ret cache_lens)). cbn beta. kstep E1. exact E2.
  - exists v'. split; cbn [t_size t_start t_data t_held t_logged l_log]; rewrite ?El; try done.
    + pose proof (linv_counters l v' 1 0 Hi) as Hi1. by rewrite El in Hi1.
    + by rewrite (vs_size _ _ _ _ Hv).
    + intros b. apply Hq.
    + intros b j ?%elem_of_nil. done.
    + constructor.
    + by intros b ?%elem_of_nil.
    + intros b. rewrite (vs_ref _ _ _ _ Hv). done.
    + rewrite (vs_free_eq _ _ _ _ Hv) by done. done.
  - intros b _ Hne. rewrite (vs_data _ _ _ _ Hv). cbn [apply_writes]. by rewrite fn_lookup_insert_ne.
Qed.
