(* ===== verification/Fs.v ===== *)
(** * The file system (kernel/fs.c, fs.h)

    Block allocator, inodes, file contents, directories and path names, written against the
    transaction interface of file TxStore.  The state is the log and cache [L], the superblock in
    memory, the inode table, and [U], the memory of the running process, of which the file system
    uses the two copy functions of [UserOps].

    An inode pointer is an index into itable.inode; a null pointer is [None].  [readi] and [writei]
    take a user address, or no address when the other end of the copy is a kernel variable: [readi]
    then returns the bytes and [writei] is given them.  Messages printed to the console are left
    out. *)

From stdpp Require Import base list functions sets numbers strings.
From Stdlib Require Import ZArith Lia.
From S2P Require Import Prelude Machine Kstring BlockCache Sleeplock Bio Log TxStore.

(** ** On-disk format (fs.h) *)

Definition ROOTINO : Z := 1.
Definition FSMAGIC : Z := 0x10203040.
Definition NDIRECT : Z := 12.
Definition NINDIRECT : Z := BSIZE / 4.
Definition MAXFILE : Z := NDIRECT + NINDIRECT.
Definition sizeof_dinode : Z := 64.
Definition IPB : Z := BSIZE / sizeof_dinode.
Definition BPB : Z := BSIZE * 8.
Definition DIRSIZ : Z := 14.
Definition sizeof_dirent : Z := 16.

Definition T_DIR : Z := 1.
Definition T_FILE : Z := 2.
Definition T_DEVICE : Z := 3.

Record superblock := mksb {
  sb_magic : Z;
  sb_size : Z;
  sb_nblocks : Z;
  sb_ninodes : Z;
  sb_nlog : Z;
  sb_logstart : Z;
  sb_inodestart : Z;
  sb_bmapstart : Z
}.

Definition IBLOCK (i : Z) (sb : superblock) : Z := u32 (i / IPB + sb_inodestart sb).
Definition BBLOCK (b : Z) (sb : superblock) : Z := u32 (b / BPB + sb_bmapstart sb).

(** 16-bit fields. *)
Definition s16 (x : Z) : Z := let y := u16 x in if y <? 2 ^ 15 then y else y - 2 ^ 16.
Definition ld16 (d : list Z) (off : nat) : Z := le_combine (slice d off 2).
Definition st16 (d : list Z) (off : nat) (v : Z) : list Z := splice d off (le_split 2 (u16 v)).

(** [struct dinode] *)
Record dinode := mkdinode {
  d_type : Z;
  d_major : Z;
  d_minor : Z;
  d_nlink : Z;
  d_size : Z;
  d_addrs : list Z
}.

(** Reading and writing the dinode at byte [off] of a block. *)
Definition get_dinode (d : block) (off : nat) : dinode :=
  mkdinode (s16 (ld16 d off)) (s16 (ld16 d (off + 2))) (s16 (ld16 d (off + 4))) (s16 (ld16 d (off + 6)))
    (ld32 d (off + 8)) ((λ k, ld32 d (off + 12 + 4 * k)%nat) <$> seq 0 (Z.to_nat (NDIRECT + 1))).

Fixpoint put_addrs (d : block) (off : nat) (l : list Z) : block :=
  match l with
  | [] => d
  | a :: l' => put_addrs (st32 d off a) (off + 4) l'
  end.

Definition put_dinode (d : block) (off : nat) (i : dinode) : block :=
  let d := st16 d off (d_type i) in
  let d := st16 d (off + 2) (d_major i) in
  let d := st16 d (off + 4) (d_minor i) in
  let d := st16 d (off + 6) (d_nlink i) in
  let d := st32 d (off + 8) (d_size i) in
  put_addrs d (off + 12) (d_addrs i).

(** Offset of inode [inum] in its block. *)
Definition dinode_off (inum : Z) : nat := Z.to_nat (inum mod IPB * sizeof_dinode).

(** [struct dirent] as bytes: two bytes of inum, then the name padded with zeros. *)
Definition dirent_inum (de : list Z) : Z := ld16 de 0.
Definition dirent_name (de : list Z) : list Z := drop 2 de.

(** ** In memory (file.h, fs.c) *)

Record inode := mkinode {
  i_dev : Z;
  i_inum : Z;
  i_ref : Z;
  i_lock : sleeplock;
  i_valid : bool;
  i_type : Z;
  i_major : Z;
  i_minor : Z;
  i_nlink : Z;
  i_size : Z;
  i_addrs : list Z
}.

Definition set_iref (n : Z) (i : inode) : inode :=
  mkinode (i_dev i) (i_inum i) n (i_lock i) (i_valid i) (i_type i) (i_major i) (i_minor i) (i_nlink i)
    (i_size i) (i_addrs i).
Definition set_ilock (l : sleeplock) (i : inode) : inode :=
  mkinode (i_dev i) (i_inum i) (i_ref i) l (i_valid i) (i_type i) (i_major i) (i_minor i) (i_nlink i)
    (i_size i) (i_addrs i).
Definition set_ivalid (b : bool) (i : inode) : inode :=
  mkinode (i_dev i) (i_inum i) (i_ref i) (i_lock i) b (i_type i) (i_major i) (i_minor i) (i_nlink i)
    (i_size i) (i_addrs i).
Definition set_itype (t : Z) (i : inode) : inode :=
  mkinode (i_dev i) (i_inum i) (i_ref i) (i_lock i) (i_valid i) t (i_major i) (i_minor i) (i_nlink i)
    (i_size i) (i_addrs i).
Definition set_imm (major minor : Z) (i : inode) : inode :=
  mkinode (i_dev i) (i_inum i) (i_ref i) (i_lock i) (i_valid i) (i_type i) major minor (i_nlink i)
    (i_size i) (i_addrs i).
Definition set_inlink (n : Z) (i : inode) : inode :=
  mkinode (i_dev i) (i_inum i) (i_ref i) (i_lock i) (i_valid i) (i_type i) (i_major i) (i_minor i) n
    (i_size i) (i_addrs i).
Definition set_isize (n : Z) (i : inode) : inode :=
  mkinode (i_dev i) (i_inum i) (i_ref i) (i_lock i) (i_valid i) (i_type i) (i_major i) (i_minor i)
    (i_nlink i) n (i_addrs i).
Definition set_iaddr (k : nat) (a : Z) (i : inode) : inode :=
  mkinode (i_dev i) (i_inum i) (i_ref i) (i_lock i) (i_valid i) (i_type i) (i_major i) (i_minor i)
    (i_nlink i) (i_size i) (<[k:=a]> (i_addrs i)).

(** The fields [ilock] reads from disk and [iupdate] writes back. *)
Definition load_dinode (d : dinode) (i : inode) : inode :=
  mkinode (i_dev i) (i_inum i) (i_ref i) (i_lock i) (i_valid i) (d_type d) (d_major d) (d_minor d)
    (d_nlink d) (d_size d) (d_addrs d).
Definition inode_dinode (i : inode) : dinode :=
  mkdinode (i_type i) (i_major i) (i_minor i) (i_nlink i) (i_size i) (i_addrs i).

(** The copy functions of vm.c that the file system calls, for the running process. *)
Class UserOps (U : Type) := {
  u_copyout : Z → list Z → M U Z;            (* either_copyout(1, dst, bytes) *)
  u_copyin : Z → nat → M U (Z * list Z)      (* either_copyin(buf, 1, src, n): status and buf *)
}.

Record fsys (L U : Type) := mkfs {
  fs_log : L;
  fs_sb : superblock;
  fs_inode : list inode;
  fs_user : U
}.
Arguments mkfs {L U} fs_log fs_sb fs_inode fs_user.
Arguments fs_log {L U} f.
Arguments fs_sb {L U} f.
Arguments fs_inode {L U} f.
Arguments fs_user {L U} f.

(** The null inode, for reads of the table outside its bounds. *)
Definition inode0 : inode :=
  mkinode 0 0 0 (mksleep false 0) false 0 0 0 0 0 (replicate (Z.to_nat (NDIRECT + 1)) 0).

Section fs.
Context {L U : Type} `{TxOps L} `{UserOps U}.
Abbreviation FM := (M (fsys L U)).

Definition log_lens : lens (fsys L U) L :=
  mklens fs_log (λ l f, mkfs l (fs_sb f) (fs_inode f) (fs_user f)).
Definition user_lens : lens (fsys L U) U :=
  mklens fs_user (λ u f, mkfs (fs_log f) (fs_sb f) (fs_inode f) u).
Definition ilock_lens (i : nat) : lens (fsys L U) sleeplock :=
  mklens (λ f, match fs_inode f !! i with Some ip => i_lock ip | None => i_lock inode0 end)
    (λ l f, mkfs (fs_log f) (fs_sb f) (alter (set_ilock l) i (fs_inode f)) (fs_user f)).

Definition geti (i : nat) : FM inode :=
  do f <- kget;
  match fs_inode f !! i with Some ip => kret ip | None => undefined "itable.inode[i]" end.
Definition modi (i : nat) (g : inode → inode) : FM unit :=
  kmod (λ f, mkfs (fs_log f) (fs_sb f) (alter g i (fs_inode f)) (fs_user f)).

Definition fbread (dev bn : Z) : FM nat := zoom log_lens (tx_bread dev bn).
Definition fbrelse (b : nat) : FM unit := zoom log_lens (tx_brelse b).
Definition fbdata (b : nat) : FM block := kgets (λ f, tx_data (fs_log f) b).
(** [bp->data] modified, then [log_write(bp)] *)
Definition fbwrite (b : nat) (d : block) : FM unit := zoom log_lens (tx_write b d).
(** [bp->data] modified only *)
Definition fbstore (b : nat) (d : block) : FM unit :=
  kmod (λ f, mkfs (tx_store b d (fs_log f)) (fs_sb f) (fs_inode f) (fs_user f)).
Definition fbegin_op : FM unit := zoom log_lens tx_begin.
Definition fend_op : FM unit := zoom log_lens tx_end.

(** ** Superblock and block allocator *)

Definition get_sb (d : block) : superblock :=
  mksb (ld32 d 0) (ld32 d 4) (ld32 d 8) (ld32 d 12) (ld32 d 16) (ld32 d 20) (ld32 d 24) (ld32 d 28).

Definition readsb (dev : Z) : FM unit :=
  do bp <- fbread dev 1;
  do d <- fbdata bp;
  kmod (λ f, mkfs (fs_log f) (get_sb d) (fs_inode f) (fs_user f)) ;;;
  fbrelse bp.

Definition bzero (dev bno : Z) : FM unit :=
  do bp <- fbread dev bno;
  fbwrite bp (replicate bsize 0) ;;;
  fbrelse bp.

(** Bit [bi] of a bitmap block, and the block with the bit set or cleared. *)
Definition bit_get (d : block) (bi : Z) : bool :=
  Z.testbit (nth (Z.to_nat (bi / 8)) d 0) (bi mod 8).
Definition bit_set (d : block) (bi : Z) : block :=
  alter (λ x, u8 (Z.lor x (Z.shiftl 1 (bi mod 8)))) (Z.to_nat (bi / 8)) d.
Definition bit_clear (d : block) (bi : Z) : block :=
  alter (λ x, u8 (Z.land x (Z.lnot (Z.shiftl 1 (bi mod 8))))) (Z.to_nat (bi / 8)) d.

(** The inner loop of [balloc]: the first clear bit among [n] from [bi]. *)
Fixpoint find_clear (n : nat) (d : block) (bi : Z) : option Z :=
  match n with
  | O => None
  | S n' => if bit_get d bi then find_clear n' d (bi + 1) else Some bi
  end.

Fixpoint balloc_loop (fuel : nat) (dev b : Z) : FM Z :=
  do sb <- kgets fs_sb;
  if b <? sb_size sb then
    match fuel with
    | O => nofuel
    | S fuel' =>
        do bp <- fbread dev (BBLOCK b sb);
        do d <- fbdata bp;
        match find_clear (Z.to_nat (Z.min BPB (sb_size sb - b))) d 0 with
        | Some bi =>
            fbwrite bp (bit_set d bi) ;;;
            fbrelse bp ;;;
            bzero dev (b + bi) ;;;
            kret (b + bi)
        | None =>
            fbrelse bp ;;;
            balloc_loop fuel' dev (b + BPB)
        end
    end
  else kret 0.

(** The loop runs once per bitmap block. *)
Definition balloc (dev : Z) : FM Z :=
  do sb <- kgets fs_sb;
  balloc_loop (S (Z.to_nat (sb_size sb / BPB))) dev 0.

Definition bfree (dev b : Z) : FM unit :=
  do sb <- kgets fs_sb;
  do bp <- fbread dev (BBLOCK b sb);
  do d <- fbdata bp;
  let bi := b mod BPB in
  if bit_get d bi then
    fbwrite bp (bit_clear d bi) ;;;
    fbrelse bp
  else panic "freeing free block".

(** ** Inodes *)

Definition iinit : FM unit :=
  kfor NINODE 0 (λ i, modi (Z.to_nat i) (set_ilock initsleeplock)).

(** The loop of [iget]: the entry that already holds the inode, or the first empty slot. *)
Fixpoint iget_scan (l : list inode) (i : nat) (dev inum : Z) (empty : option nat) : nat + option nat :=
  match l with
  | [] => inr empty
  | ip :: l' =>
      if (0 <? i_ref ip) && (i_dev ip =? dev) && (i_inum ip =? inum) then inl i
      else iget_scan l' (S i) dev inum
             (match empty with
              | None => if i_ref ip =? 0 then Some i else None
              | Some _ => empty
              end)
  end.

Definition iget (dev inum : Z) : FM nat :=
  acquire LK_itable ;;;
  do f <- kget;
  match iget_scan (fs_inode f) 0 dev inum None with
  | inl i =>
      modi i (λ ip, set_iref (s32 (i_ref ip + 1)) ip) ;;;
      release LK_itable ;;;
      kret i
  | inr None => panic "iget: no inodes"
  | inr (Some i) =>
      modi i (λ ip, mkinode dev inum 1 (i_lock ip) false (i_type ip) (i_major ip) (i_minor ip)
                      (i_nlink ip) (i_size ip) (i_addrs ip)) ;;;
      release LK_itable ;;;
      kret i
  end.

Fixpoint ialloc_loop (n : nat) (dev type inum : Z) : FM (option nat) :=
  match n with
  | O => kret None
  | S n' =>
      do sb <- kgets fs_sb;
      do bp <- fbread dev (IBLOCK inum sb);
      do d <- fbdata bp;
      let off := dinode_off inum in
      if d_type (get_dinode d off) =? 0 then
        fbwrite bp (st16 (splice d off (replicate (Z.to_nat sizeof_dinode) 0)) off type) ;;;
        fbrelse bp ;;;
        do i <- iget dev inum;
        kret (Some i)
      else
        fbrelse bp ;;;
        ialloc_loop n' dev type (inum + 1)
  end.

(** for(inum = 1; inum < sb.ninodes; inum++) *)
Definition ialloc (dev type : Z) : FM (option nat) :=
  do sb <- kgets fs_sb;
  ialloc_loop (Z.to_nat (sb_ninodes sb - 1)) dev type 1.

Definition iupdate (i : nat) : FM unit :=
  do ip <- geti i;
  do sb <- kgets fs_sb;
  do bp <- fbread (i_dev ip) (IBLOCK (i_inum ip) sb);
  do d <- fbdata bp;
  fbwrite bp (put_dinode d (dinode_off (i_inum ip)) (inode_dinode ip)) ;;;
  fbrelse bp.

Definition idup (i : nat) : FM nat :=
  acquire LK_itable ;;;
  modi i (λ ip, set_iref (s32 (i_ref ip + 1)) ip) ;;;
  release LK_itable ;;;
  kret i.

Definition ilock (i : nat) : FM unit :=
  do ip <- geti i;
  if i_ref ip <? 1 then panic "ilock"
  else
    acquiresleep (ilock_lens i) (LK_inodesl i) (CH_inodesl i) ;;;
    do ip <- geti i;
    if i_valid ip then kret tt
    else
      do sb <- kgets fs_sb;
      do bp <- fbread (i_dev ip) (IBLOCK (i_inum ip) sb);
      do d <- fbdata bp;
      modi i (load_dinode (get_dinode d (dinode_off (i_inum ip)))) ;;;
      fbrelse bp ;;;
      modi i (set_ivalid true) ;;;
      do ip <- geti i;
      if i_type ip =? 0 then panic "ilock: no type" else kret tt.

Definition iunlock (i : nat) : FM unit :=
  do h <- holdingsleep (ilock_lens i) (LK_inodesl i);
  do ip <- geti i;
  if negb h || (i_ref ip <? 1) then panic "iunlock"
  else releasesleep (ilock_lens i) (LK_inodesl i) (CH_inodesl i).

(** *** Truncation and release *)

(** [a[j]] of an indirect block. *)
Definition ind_get (d : block) (j : Z) : Z := ld32 d (Z.to_nat (4 * j)).

Definition itrunc (i : nat) : FM unit :=
  kfor (Z.to_nat NDIRECT) 0 (λ k,
    do ip <- geti i;
    let a := nth (Z.to_nat k) (i_addrs ip) 0 in
    if a =? 0 then kret tt
    else bfree (i_dev ip) a ;;; modi i (set_iaddr (Z.to_nat k) 0)) ;;;
  do ip <- geti i;
  let ind := nth (Z.to_nat NDIRECT) (i_addrs ip) 0 in
  (if ind =? 0 then kret tt
   else
     do bp <- fbread (i_dev ip) ind;
     kfor (Z.to_nat NINDIRECT) 0 (λ j,
       do d <- fbdata bp;
       if ind_get d j =? 0 then kret tt else bfree (i_dev ip) (ind_get d j)) ;;;
     fbrelse bp ;;;
     bfree (i_dev ip) ind ;;;
     modi i (set_iaddr (Z.to_nat NDIRECT) 0)) ;;;
  modi i (set_isize 0) ;;;
  iupdate i.

Definition iput (i : nat) : FM unit :=
  acquire LK_itable ;;;
  do ip <- geti i;
  (if (i_ref ip =? 1) && i_valid ip && (i_nlink ip =? 0) then
     acquiresleep (ilock_lens i) (LK_inodesl i) (CH_inodesl i) ;;;
     release LK_itable ;;;
     itrunc i ;;;
     modi i (set_itype 0) ;;;
     iupdate i ;;;
     modi i (set_ivalid false) ;;;
     releasesleep (ilock_lens i) (LK_inodesl i) (CH_inodesl i) ;;;
     acquire LK_itable
   else kret tt) ;;;
  modi i (λ ip, set_iref (s32 (i_ref ip - 1)) ip) ;;;
  release LK_itable.

Definition iunlockput (i : nat) : FM unit := iunlock i ;;; iput i.

(** The body of the loop of [ireclaim]. *)
Definition ireclaim_one (dev inum : Z) : FM unit :=
  do sb <- kgets fs_sb;
  do bp <- fbread dev (IBLOCK inum sb);
  do d <- fbdata bp;
  let dip := get_dinode d (dinode_off inum) in
  do ip <- (if negb (d_type dip =? 0) && (d_nlink dip =? 0)
            then do i <- iget dev inum; kret (Some i) else kret None);
  fbrelse bp ;;;
  match ip with
  | Some i => fbegin_op ;;; ilock i ;;; iunlock i ;;; iput i ;;; fend_op
  | None => kret tt
  end.

Definition ireclaim (dev : Z) : FM unit :=
  do sb <- kgets fs_sb;
  kfor (Z.to_nat (sb_ninodes sb - 1)) 1 (ireclaim_one dev).

Definition fsinit (dev : Z) : FM unit :=
  readsb dev ;;;
  do sb <- kgets fs_sb;
  if negb (sb_magic sb =? FSMAGIC) then panic "invalid file system"
  else
    zoom log_lens (tx_init dev (sb_logstart sb)) ;;;
    ireclaim dev.

(** ** File contents *)

Definition bmap (i : nat) (bn : Z) : FM Z :=
  do ip <- geti i;
  if bn <? NDIRECT then
    let addr := nth (Z.to_nat bn) (i_addrs ip) 0 in
    if addr =? 0 then
      do addr <- balloc (i_dev ip);
      if addr =? 0 then kret 0
      else modi i (set_iaddr (Z.to_nat bn) addr) ;;; kret addr
    else kret addr
  else
    let bn := bn - NDIRECT in
    if bn <? NINDIRECT then
      let addr := nth (Z.to_nat NDIRECT) (i_addrs ip) 0 in
      do addr <-
        (if addr =? 0 then
           do addr <- balloc (i_dev ip);
           if addr =? 0 then kret 0
           else modi i (set_iaddr (Z.to_nat NDIRECT) addr) ;;; kret addr
         else kret addr);
      if addr =? 0 then kret 0
      else
        do bp <- fbread (i_dev ip) addr;
        do d <- fbdata bp;
        do addr <-
          (if ind_get d bn =? 0 then
             do addr <- balloc (i_dev ip);
             if addr =? 0 then kret addr
             else
               do d <- fbdata bp;
               fbwrite bp (st32 d (Z.to_nat (4 * bn)) addr) ;;; kret addr
           else kret (ind_get d bn));
        fbrelse bp ;;;
        kret addr
    else panic "bmap: out of range".

(** [struct stat]: dev, ino, type, nlink, size *)
Record stat := mkstat { st_dev : Z; st_ino : Z; st_type : Z; st_nlink : Z; st_size : Z }.

Definition stati (i : nat) : FM stat :=
  do ip <- geti i;
  kret (mkstat (i_dev ip) (i_inum ip) (i_type ip) (i_nlink ip) (i_size ip)).

(** The other end of a copy: an address of the running process, or a kernel variable. *)
Inductive endpoint := UserAddr (va : Z) | KernelVar.

(** [either_copyout(user_dst, dst, bytes)]: a kernel variable receives the bytes. *)
Definition copy_to (dst : endpoint) (tot : Z) (bs : list Z) : FM Z :=
  match dst with
  | UserAddr va => zoom user_lens (u_copyout (u64 (va + tot)) bs)
  | KernelVar => kret 0
  end.

(** [m = min(n - tot, BSIZE - off % BSIZE)] *)
Definition rw_chunk (n tot off : Z) : Z := Z.min (n - tot) (BSIZE - off mod BSIZE).

(** The loop of [readi]: the value of [tot] when it ends and the bytes copied. *)
Fixpoint readi_loop (fuel : nat) (i : nat) (dst : endpoint) (off n tot : Z) (acc : list Z) : FM (Z * list Z) :=
  if tot <? n then
    match fuel with
    | O => nofuel
    | S fuel' =>
        do addr <- bmap i (off / BSIZE);
        if addr =? 0 then kret (tot, acc)
        else
          do ip <- geti i;
          do bp <- fbread (i_dev ip) addr;
          do d <- fbdata bp;
          let m := rw_chunk n tot off in
          let bs := slice d (Z.to_nat (off mod BSIZE)) (Z.to_nat m) in
          do r <- copy_to dst tot bs;
          if r =? -1 then
            fbrelse bp ;;; kret (-1, acc)
          else
            fbrelse bp ;;;
            readi_loop fuel' i dst (off + m) n (tot + m) (acc ++ bs)
    end
  else kret (tot, acc).

(** Each iteration but the first and the last moves a whole block. *)
Definition rw_fuel (n : Z) : nat := Z.to_nat (n / BSIZE + 2).

Definition readi (i : nat) (dst : endpoint) (off n : Z) : FM (Z * list Z) :=
  do ip <- geti i;
  if (i_size ip <? off) || (u32 (off + n) <? off) then kret (0, [])
  else
    let n := if i_size ip <? u32 (off + n) then i_size ip - off else n in
    readi_loop (rw_fuel n) i dst off n 0 [].

(** [either_copyin(bp->data + off % BSIZE, user_src, src, m)]: the status and the bytes stored. *)
Definition copy_from (src : endpoint) (data : list Z) (tot m : Z) : FM (Z * list Z) :=
  match src with
  | UserAddr va => zoom user_lens (u_copyin (u64 (va + tot)) (Z.to_nat m))
  | KernelVar => kret (0, slice data (Z.to_nat tot) (Z.to_nat m))
  end.

(** The loop of [writei]; [data] is the kernel variable when [src] is one.  The result is [tot] and
    [off] at the end. *)
Fixpoint writei_loop (fuel : nat) (i : nat) (src : endpoint) (data : list Z) (off n tot : Z) : FM (Z * Z) :=
  if tot <? n then
    match fuel with
    | O => nofuel
    | S fuel' =>
        do addr <- bmap i (off / BSIZE);
        if addr =? 0 then kret (tot, off)
        else
          do ip <- geti i;
          do bp <- fbread (i_dev ip) addr;
          let m := rw_chunk n tot off in
          do rb <- copy_from src data tot m;
          do d <- fbdata bp;
          let d' := splice d (Z.to_nat (off mod BSIZE)) rb.2 in
          if rb.1 =? -1 then
            fbstore bp d' ;;; fbrelse bp ;;; kret (tot, off)
          else
            fbwrite bp d' ;;;
            fbrelse bp ;;;
            writei_loop fuel' i src data (off + m) n (tot + m)
    end
  else kret (tot, off).

Definition writei (i : nat) (src : endpoint) (data : list Z) (off n : Z) : FM Z :=
  do ip <- geti i;
  if (i_size ip <? off) || (u32 (off + n) <? off) then kret (-1)
  else if MAXFILE * BSIZE <? u32 (off + n) then kret (-1)
  else
    do r <- writei_loop (rw_fuel n) i src data off n 0;
    do ip <- geti i;
    (if i_size ip <? r.2 then modi i (set_isize r.2) else kret tt) ;;;
    iupdate i ;;;
    kret r.1.

(** ** Directories *)

(** Two names laid out in memory, for the string functions. *)
Definition name_mem (s t : list Z) : mem := mwrite (mwrite (λ _, 0) 0 s) 32 t.
Definition namecmp (s t : list Z) : Z := strncmp (name_mem s t) 0 32 DIRSIZ.
(** [strncpy(de.name, name, DIRSIZ)] *)
Definition dirent_pad (name : list Z) : list Z :=
  mread (strncpy (name_mem [] name) 0 32 DIRSIZ) 0 (Z.to_nat DIRSIZ).

(** One [readi(dp, 0, &de, off, sizeof(de))] that must succeed. *)
Definition read_dirent (dp : nat) (off : Z) (msg : string) : FM (list Z) :=
  do r <- readi dp KernelVar off sizeof_dirent;
  if negb (r.1 =? sizeof_dirent) then panic msg else kret r.2.

Fixpoint dirlookup_loop (fuel : nat) (dp : nat) (name : list Z) (off : Z) : FM (option (nat * Z)) :=
  do d <- geti dp;
  if off <? i_size d then
    match fuel with
    | O => nofuel
    | S fuel' =>
        do de <- read_dirent dp off "dirlookup read";
        if dirent_inum de =? 0 then dirlookup_loop fuel' dp name (u32 (off + sizeof_dirent))
        else if namecmp name (dirent_name de) =? 0 then
          do d <- geti dp;
          do ip <- iget (i_dev d) (dirent_inum de);
          kret (Some (ip, off))
        else dirlookup_loop fuel' dp name (u32 (off + sizeof_dirent))
    end
  else kret None.

(** One iteration per entry. *)
Definition dir_fuel (size : Z) : nat := Z.to_nat (size / sizeof_dirent + 1).

(** [dirlookup]: the inode and the offset stored in [*poff]. *)
Definition dirlookup (dp : nat) (name : list Z) : FM (option (nat * Z)) :=
  do d <- geti dp;
  if negb (i_type d =? T_DIR) then panic "dirlookup not DIR"
  else dirlookup_loop (dir_fuel (i_size d)) dp name 0.

(** The search of [dirlink] for an empty entry: the offset at which it stops. *)
Fixpoint dirlink_loop (fuel : nat) (dp : nat) (off : Z) : FM Z :=
  do d <- geti dp;
  if off <? i_size d then
    match fuel with
    | O => nofuel
    | S fuel' =>
        do de <- read_dirent dp off "dirlink read";
        if dirent_inum de =? 0 then kret off
        else dirlink_loop fuel' dp (off + sizeof_dirent)
    end
  else kret off.

Definition dirlink (dp : nat) (name : list Z) (inum : Z) : FM Z :=
  do r <- dirlookup dp name;
  match r with
  | Some (ip, _) => iput ip ;;; kret (-1)
  | None =>
      do d <- geti dp;
      do off <- dirlink_loop (dir_fuel (i_size d)) dp 0;
      do w <- writei dp KernelVar (le_split 2 (u16 inum) ++ dirent_pad name) off sizeof_dirent;
      kret (if w =? sizeof_dirent then 0 else -1)
  end.

(** ** Paths: NUL-terminated strings as lists of non-zero bytes *)

Definition SLASH : Z := 47.

(** while (path starts with a slash) path++ *)
Fixpoint skip_slashes (p : list Z) : list Z :=
  match p with
  | [] => []
  | x :: p' => if x =? SLASH then skip_slashes p' else p
  end.

(** The element up to the next slash, and what follows. *)
Fixpoint path_elem (p : list Z) : list Z * list Z :=
  match p with
  | [] => ([], [])
  | x :: p' => if x =? SLASH then ([], p) else let '(s, r) := path_elem p' in (x :: s, r)
  end.

(** [skipelem]: the name (at most DIRSIZ bytes) and the rest. *)
Definition skipelem (path : list Z) : option (list Z * list Z) :=
  let p := skip_slashes path in
  match p with
  | [] => None
  | _ =>
      let '(s, r) := path_elem p in
      Some (take (Z.to_nat DIRSIZ) s, skip_slashes r)
  end.

(** The loop of [namex]. *)
Fixpoint namex_loop (fuel : nat) (ip : nat) (path : list Z) (nameiparent : bool) (name : list Z) :
    FM (option (nat * list Z)) :=
  match skipelem path with
  | None =>
      if nameiparent then iput ip ;;; kret None else kret (Some (ip, name))
  | Some (name, path) =>
      match fuel with
      | O => nofuel
      | S fuel' =>
          ilock ip ;;;
          do d <- geti ip;
          if negb (i_type d =? T_DIR) then iunlockput ip ;;; kret None
          else if nameiparent && bool_decide (path = []) then
            iunlock ip ;;; kret (Some (ip, name))
          else
            do next <- dirlookup ip name;
            match next with
            | None => iunlockput ip ;;; kret None
            | Some (nip, _) => iunlockput ip ;;; namex_loop fuel' nip path nameiparent name
            end
      end
  end.

(** Every iteration shortens the path. *)
Definition namex (cwd : option nat) (path : list Z) (nameiparent : bool) : FM (option (nat * list Z)) :=
  do ip <-
    match path with
    | x :: _ => if x =? SLASH then iget ROOTDEV ROOTINO
                else match cwd with Some w => idup w | None => undefined "idup(0)" end
    | [] => match cwd with Some w => idup w | None => undefined "idup(0)" end
    end;
  namex_loop (length path) ip path nameiparent [].

Definition namei (cwd : option nat) (path : list Z) : FM (option nat) :=
  do r <- namex cwd path false;
  kret (fst <$> r).

(** [nameiparent]: the parent and the last element in [name]. *)
Definition nameiparent (cwd : option nat) (path : list Z) : FM (option (nat * list Z)) :=
  namex cwd path true.
End fs.

(** ** Running block operations in a transaction *)

Section runs.
Context {L U : Type} `{TxStore L} `{UserOps U}.
Abbreviation FS := (fsys L U).
Implicit Types (f : FS) (t : tview) (c : kctx) (bn : Z) (d : block).

Definition set_flog (l : L) f : FS := mkfs l (fs_sb f) (fs_inode f) (fs_user f).

(** The process running in context [c] sees the blocks of [t]. *)
Definition fabs c f t : Prop := tabs (curpid c) (fs_log f) t.

Lemma filter_fresh bn i (hs : list (Z * nat)) : bn ∉ hs.*1 → filter (λ x, x ≠ (bn, i)) hs = hs.
Proof.
  induction hs as [|[b j] hs IH]; [done|]. rewrite fmap_cons. intros [Hb Hhs]%not_elem_of_cons. simpl in Hb.
  rewrite filter_cons, decide_True by (intros [= -> ->]; done). f_equal. by apply IH.
Qed.

Lemma drop_take bn i t : bn ∉ (t_held t).*1 → t_drop bn i (t_take bn i t) = t.
Proof.
  intros Hb. destruct t as [sz st dt hs lg]. unfold t_drop, t_take. simpl in *.
  rewrite filter_cons, decide_False by tauto. by rewrite filter_fresh.
Qed.

Lemma drop_write_take bn i d t : bn ∉ (t_held t).*1 → t_drop bn i (t_write bn d (t_take bn i t)) = t_write bn d t.
Proof.
  intros Hb. destruct t as [sz st dt hs lg]. unfold t_drop, t_take, t_write. simpl in *.
  rewrite filter_cons, decide_False by tauto. by rewrite filter_fresh.
Qed.

Lemma fbread_ok c f t bn :
  fabs c f t → tx_clear c → 0 <= bn < t_size t → bn ∉ (t_held t).*1 → 0 < t_free t →
  ∃ i l, fbread ROOTDEV bn c f = Ret i c (set_flog l f) ∧ fabs c (set_flog l f) (t_take bn i t) ∧
    fbdata i c (set_flog l f) = Ret (t_data t bn) c (set_flog l f).
Proof.
  intros Ht Hc Hbn Hh Hf. destruct (tx_bread_ok c (fs_log f) t bn Ht Hc Hbn Hh Hf) as (i & l & E & Ht').
  exists i, l. split; [unfold fbread; by apply (zoom_ret log_lens)|]. split; [done|]. unfold fbdata. kexec. f_equal.
  eapply (tabs_data _ _ _ bn i Ht'). constructor.
Qed.

Lemma fbwrite_ok c f t bn i d :
  fabs c f t → tx_clear c → (bn, i) ∈ t_held t → home (t_start t) (t_size t) bn → length d = bsize →
  Z.of_nat (length (t_logged t)) < LOGBLOCKS →
  ∃ l, fbwrite i d c f = Ret tt c (set_flog l f) ∧ fabs c (set_flog l f) (t_write bn d t).
Proof.
  intros Ht Hc Hin Hh Hd Hr. destruct (tx_write_ok c (fs_log f) t bn i d Ht Hc Hin Hh Hd Hr) as (l & E & Ht').
  exists l. split; [|done]. unfold fbwrite. by apply (zoom_ret log_lens).
Qed.

Lemma fbrelse_ok c f t bn i :
  fabs c f t → tx_clear c → (bn, i) ∈ t_held t →
  ∃ c' l, fbrelse i c f = Ret tt c' (set_flog l f) ∧ same_ctx c c' ∧ fabs c' (set_flog l f) (t_drop bn i t).
Proof.
  intros Ht Hc Hin. destruct (tx_brelse_ok c (fs_log f) t bn i Ht Hc Hin) as (c' & l & E & Hc' & Ht').
  exists c', l. split; [unfold fbrelse; by apply (zoom_ret log_lens)|]. split; [done|]. unfold fabs.
  by destruct Hc' as [_ ->].
Qed.

Lemma tx_clear_same c c' : same_ctx c c' → tx_clear c → tx_clear c'.
Proof. intros Hs [Hb Hl]. split; [by eapply clear_same|]. by destruct Hs as [-> _]. Qed.

(** [bp = bread(dev, bn); ... bp->data read ...; brelse(bp)] *)
Lemma fread_ok c f t bn :
  fabs c f t → tx_clear c → 0 <= bn < t_size t → bn ∉ (t_held t).*1 → 0 < t_free t →
  ∃ i l1 c' l, fbread ROOTDEV bn c f = Ret i c (set_flog l1 f) ∧
    fbdata i c (set_flog l1 f) = Ret (t_data t bn) c (set_flog l1 f) ∧
    fbrelse i c (set_flog l1 f) = Ret tt c' (set_flog l f) ∧ same_ctx c c' ∧ fabs c' (set_flog l f) t.
Proof.
  intros Ht Hc Hbn Hh Hf. destruct (fbread_ok c f t bn Ht Hc Hbn Hh Hf) as (i & l1 & E1 & Ht1 & Ed).
  destruct (fbrelse_ok c (set_flog l1 f) _ bn i Ht1 Hc) as (c' & l & E2 & Hc' & Ht2); [constructor|].
  rewrite drop_take in Ht2 by done. exists i, l1, c', l. by split_and!.
Qed.

(** [bp = bread(dev, bn); modify bp->data; log_write(bp); brelse(bp)] *)
Lemma fupdate_ok c f t bn d :
  fabs c f t → tx_clear c → home (t_start t) (t_size t) bn → bn ∉ (t_held t).*1 → 0 < t_free t →
  length d = bsize → Z.of_nat (length (t_logged t)) < LOGBLOCKS →
  ∃ i l1 l2 c' l, fbread ROOTDEV bn c f = Ret i c (set_flog l1 f) ∧
    fbdata i c (set_flog l1 f) = Ret (t_data t bn) c (set_flog l1 f) ∧
    fbwrite i d c (set_flog l1 f) = Ret tt c (set_flog l2 f) ∧
    fbrelse i c (set_flog l2 f) = Ret tt c' (set_flog l f) ∧ same_ctx c c' ∧
    fabs c' (set_flog l f) (t_write bn d t).
Proof.
  intros Ht Hc Hh Hb Hf Hd Hr.
  destruct (fbread_ok c f t bn Ht Hc ltac:(destruct Hh; lia) Hb Hf) as (i & l1 & E1 & Ht1 & Ed).
  destruct (fbwrite_ok c (set_flog l1 f) _ bn i d Ht1 Hc) as (l2 & E2 & Ht2); [constructor|done..|].
  destruct (fbrelse_ok c (set_flog l2 f) _ bn i Ht2 Hc) as (c' & l & E3 & Hc' & Ht3); [constructor|].
  rewrite drop_write_take in Ht3 by done. exists i, l1, l2, c', l. by split_and!.
Qed.

Lemma set_flog_twice l l' f : set_flog l (set_flog l' f) = set_flog l f.
Proof. done. Qed.

(** ** The block allocator *)

(** Block [b] is in use according to the bitmap. *)
Definition bused (sb : superblock) (data : Z → block) (b : Z) : bool := bit_get (data (BBLOCK b sb)) (b mod BPB).

(** The superblock describes the device: the bitmap lies between the log and the end, every block
    that the bitmap shows free is a home block outside it, block 0 is in use, and the process has room to log two more blocks. *)
Record balloc_pre c f t : Prop := mkbpre {
  bp_abs : fabs c f t;
  bp_clear : tx_clear c;
  bp_size : sb_size (fs_sb f) = t_size t;
  bp_max : 0 < t_size t < 2 ^ 31;
  bp_boot : bused (fs_sb f) (t_data t) 0 = true;
  bp_bmap : ∀ b, 0 <= b < t_size t → home (t_start t) (t_size t) (BBLOCK b (fs_sb f));
  bp_data : ∀ b, 0 <= b < t_size t → bused (fs_sb f) (t_data t) b = false →
    home (t_start t) (t_size t) b ∧ (b ∉ (t_held t).*1) ∧ (∀ b', 0 <= b' < t_size t → BBLOCK b' (fs_sb f) ≠ b);
  bp_held : ∀ b, 0 <= b < t_size t → BBLOCK b (fs_sb f) ∉ (t_held t).*1;
  bp_bufs : 2 < t_free t;
  bp_room : Z.of_nat (length (t_logged t)) + 2 <= LOGBLOCKS
}.

Lemma find_clear_spec n d (bi : Z) :
  match find_clear n d bi with
  | Some k => bi <= k < bi + Z.of_nat n ∧ bit_get d k = false ∧ (∀ j : Z, bi <= j < k → bit_get d j = true)
  | None => ∀ j : Z, bi <= j < bi + Z.of_nat n → bit_get d j = true
  end.
Proof.
  revert bi. induction n as [|n IH]; intros bi; [cbn; intros; exfalso; lia|]. cbn [find_clear].
  destruct (bit_get d bi) eqn:Eb; [|split; [lia|]; split; [done|intros; exfalso; lia]].
  specialize (IH (bi + 1)). destruct (find_clear n d (bi + 1)) as [k|].
  - destruct IH as (Hk & Ek & Hj). split; [lia|]. split; [done|]. intros j Hj'. destruct (decide (j = bi)) as [->|]; [done|].
    apply Hj. lia.
  - intros j Hj. destruct (decide (j = bi)) as [->|]; [done|]. apply IH. lia.
Qed.

Lemma length_bit_set d (bi : Z) : length (bit_set d bi) = length d.
Proof. apply length_alter. Qed.

Lemma testbit_u8 x k : 0 <= k < 8 → Z.testbit (u8 x) k = Z.testbit x k.
Proof. intros. unfold u8. by rewrite Z.mod_pow2_bits_low by lia. Qed.

(** Setting a bit changes that bit only. *)
Lemma bit_get_set d (bi bj : Z) :
  0 <= bi → 0 <= bj → (Z.to_nat (bi / 8) < length d)%nat →
  bit_get (bit_set d bi) bj = (bj =? bi) || bit_get d bj.
Proof.
  intros Hi Hj Hl. unfold bit_get, bit_set, block in *.
  pose proof (Z.mod_pos_bound bi 8 ltac:(lia)). pose proof (Z.mod_pos_bound bj 8 ltac:(lia)).
  pose proof (Z.div_mod bi 8 ltac:(lia)). pose proof (Z.div_mod bj 8 ltac:(lia)).
  destruct (lookup_lt_is_Some_2 _ _ Hl) as [x Ex].
  destruct (decide (bj / 8 = bi / 8)) as [E|E].
  - rewrite E, (nth_lookup_Some (alter _ _ d) _ 0 (u8 (Z.lor x (Z.shiftl 1 (bi mod 8)))))
      by (by rewrite list_lookup_alter_eq, Ex).
    rewrite (nth_lookup_Some d _ 0 x Ex), testbit_u8, Z.lor_spec by lia.
    rewrite Z.shiftl_1_l, Z.pow2_bits_eqb by lia.
    destruct (Z.eqb_spec (bi mod 8) (bj mod 8)), (Z.eqb_spec bj bi); try (exfalso; lia); [by rewrite orb_true_r|].
    by rewrite orb_false_r.
  - rewrite (proj2 (Z.eqb_neq bj bi)) by (intros ->; done). simpl. rewrite !nth_lookup.
    rewrite list_lookup_alter_ne; [done|]. intros E'. apply E.
    pose proof (Z.div_pos bi 8). pose proof (Z.div_pos bj 8). lia.
Qed.

Lemma bzero_ok c f t (b : Z) :
  fabs c f t → tx_clear c → home (t_start t) (t_size t) b → b ∉ (t_held t).*1 → 0 < t_free t →
  Z.of_nat (length (t_logged t)) < LOGBLOCKS →
  ∃ c' l, bzero ROOTDEV b c f = Ret tt c' (set_flog l f) ∧ same_ctx c c' ∧
    fabs c' (set_flog l f) (t_write b (replicate bsize 0) t).
Proof.
  intros Ht Hc Hh Hb Hf Hr.
  destruct (fupdate_ok c f t b (replicate bsize 0) Ht Hc Hh Hb Hf ltac:(apply length_replicate) Hr)
    as (i & l1 & l2 & c' & l & E1 & _ & E2 & E3 & Hc' & Ht').
  exists c', l. split; [|done]. unfold bzero. kstep E1. kstep E2. exact E3.
Qed.

Lemma BBLOCK_in (sb : superblock) (b j : Z) : b mod BPB = 0 → 0 <= j < BPB → BBLOCK (b + j) sb = BBLOCK b sb ∧ (b + j) mod BPB = j.
Proof.
  intros Hb Hj. pose proof (Z.div_mod b BPB ltac:(done)) as Ed. rewrite Hb, Z.add_0_r in Ed.
  assert (E : b + j = j + b / BPB * BPB) by lia. unfold BBLOCK. rewrite E, Z.div_add, Z.mod_add by done.
  rewrite Z.div_small, Z.mod_small by done. done.
Qed.

Lemma BBLOCK_inj (sb : superblock) (x r : Z) :
  0 <= x < 2 ^ 31 → 0 <= r < 2 ^ 31 → BBLOCK x sb = BBLOCK r sb → (x mod BPB =? r mod BPB) = (x =? r).
Proof.
  intros Hx Hr E. destruct (Z.eqb_spec x r) as [->|Hne]; [by rewrite Z.eqb_refl|]. apply Z.eqb_neq. intros Em. apply Hne.
  unfold BBLOCK, u32 in E. unfold BPB, BSIZE in *.
  pose proof (Z.div_mod x 8192 ltac:(lia)). pose proof (Z.div_mod r 8192 ltac:(lia)).
  pose proof (Z.div_mod (x / 8192 + sb_bmapstart sb) (2 ^ 32) ltac:(lia)).
  pose proof (Z.div_mod (r / 8192 + sb_bmapstart sb) (2 ^ 32) ltac:(lia)).
  change (1024 * 8) with 8192 in *. lia.
Qed.

(** Outcome of the search from block [b]: the first free block, marked and zeroed, or none. *)
Definition allocated (sb : superblock) c f t (b : Z) (o : outcome FS Z) : Prop :=
  ∃ r c' l t', o = Ret r c' (set_flog l f) ∧ same_ctx c c' ∧ fabs c' (set_flog l f) t' ∧
    ((r = 0 ∧ t' = t ∧ ∀ x, b <= x < t_size t → bused sb (t_data t) x = true) ∨
     (b <= r < t_size t ∧ bused sb (t_data t) r = false ∧ (∀ x, b <= x < r → bused sb (t_data t) x = true) ∧
      t' = t_write r (replicate bsize 0)
             (t_write (BBLOCK r sb) (bit_set (t_data t (BBLOCK r sb)) (r mod BPB)) t))).

Lemma balloc_found c f t (b bi : Z) :
  balloc_pre c f t → 0 <= b → b mod BPB = 0 → 0 <= bi < BPB → b + bi < t_size t →
  bit_get (t_data t (BBLOCK b (fs_sb f))) bi = false →
  let bm := BBLOCK b (fs_sb f) in
  ∃ i l1 c' l, fbread ROOTDEV bm c f = Ret i c (set_flog l1 f) ∧
    fbdata i c (set_flog l1 f) = Ret (t_data t bm) c (set_flog l1 f) ∧
    (fbwrite i (bit_set (t_data t bm) bi) ;;; fbrelse i ;;; bzero ROOTDEV (b + bi) ;;; kret (b + bi)) c (set_flog l1 f) =
      Ret (b + bi) c' (set_flog l f) ∧ same_ctx c c' ∧
    fabs c' (set_flog l f) (t_write (b + bi) (replicate bsize 0) (t_write bm (bit_set (t_data t bm) bi) t)).
Proof.
  intros [Ha Hc Hsz Hmx Hbt Hbm Hdt Hhd Hbf Hrm] Hb0 Hb Hbi Hlt Eb bm.
  destruct (BBLOCK_in (fs_sb f) b bi Hb Hbi) as [Ebb Emod].
  assert (Hhome : home (t_start t) (t_size t) bm) by (unfold bm; rewrite <- Ebb; apply Hbm; lia).
  assert (Hnh : bm ∉ (t_held t).*1) by (unfold bm; rewrite <- Ebb; apply Hhd; lia).
  assert (Hfree : bused (fs_sb f) (t_data t) (b + bi) = false) by (unfold bused; by rewrite Emod, Ebb).
  destruct (Hdt (b + bi) ltac:(lia) Hfree) as (Hhb & Hnb & Hne).
  destruct (fupdate_ok c f t bm (bit_set (t_data t bm) bi)) as (i & l1 & l2 & c1 & l3 & E1 & E2 & E3 & E4 & Hc1 & Ht1);
    [done|done|done|done|lia| |lia|].
  { rewrite length_bit_set. eapply tabs_len; [done|]. destruct Hhome. lia. }
  set (t1 := t_write bm _ t) in *.
  assert (Hlen : Z.of_nat (length (t_logged t1)) <= Z.of_nat (length (t_logged t)) + 1).
  { unfold t1. cbn [t_logged t_write]. case_decide; [lia|]. rewrite length_app. simpl. lia. }
  destruct (bzero_ok c1 (set_flog l3 f) t1 (b + bi)) as (c2 & l4 & E5 & Hc2 & Ht2);
    [done|by eapply tx_clear_same|done|done|unfold t_free in *; cbn [t1 t_held t_write] in *; lia|lia|].
  exists i, l1, c2, l4. split; [done|]. split; [done|]. split; [|split; [by transitivity c1|done]].
  kstep E3. kstep E4. kstep E5. done.
Qed.

Lemma balloc_pre_same c c' f l t :
  same_ctx c c' → fabs c' (set_flog l f) t → balloc_pre c f t → balloc_pre c' (set_flog l f) t.
Proof. intros Hs Ha []. split; try done. by eapply tx_clear_same. Qed.

(** The loop visits bitmap blocks from [b]; [fuel] bitmap blocks are enough. *)
Lemma balloc_loop_ok fuel c f t (b : Z) :
  balloc_pre c f t → 0 <= b → b mod BPB = 0 → t_size t - b <= BPB * Z.of_nat fuel →
  allocated (fs_sb f) c f t b (balloc_loop fuel ROOTDEV b c f).
Proof.
  revert c f b. induction fuel as [|fuel IH]; intros c f b Hp Hb0 Hb Hfuel;
    cbn [balloc_loop]; rewrite (kbind_ret _ _ _ _ (fs_sb f) c f) by done; cbn beta;
    rewrite (bp_size _ _ _ Hp); destruct (Z.ltb_spec b (t_size t)) as [Hlt|Hge];
    try (exists 0, c, (fs_log f), t; split_and!; [by destruct f|done|destruct f; apply (bp_abs _ _ _ Hp)|left; split_and!; [done..|intros; lia]]).
  { exfalso. lia. }
  set (sb := fs_sb f) in *. set (bm := BBLOCK b sb).
  set (m := Z.min BPB (t_size t - b)). pose proof (find_clear_spec (Z.to_nat m) (t_data t bm) 0) as Hfind.
  assert (Hm : 0 < m <= BPB) by (unfold m, BPB, BSIZE; lia). rewrite Z2Nat.id in Hfind by lia.
  destruct (find_clear (Z.to_nat m) (t_data t bm) 0) as [bi|] eqn:Ef.
  - destruct Hfind as (Hbi & Eb & Hbelow).
    destruct (balloc_found c f t b bi Hp Hb0 Hb) as (i & l1 & c' & l & E1 & E2 & E3 & Hc' & Ht'); [lia|lia|done|].
    fold sb bm in E1, E2, E3, Ht'. destruct (BBLOCK_in sb b bi Hb ltac:(lia)) as [Ebb Emod].
    exists (b + bi), c', l. eexists. split; [kstep E1; kstep E2; rewrite Ef; exact E3|].
    split; [done|]. split; [exact Ht'|]. right. unfold bused. rewrite Ebb, Emod. fold bm. split_and!; [lia|lia|done| |done].
    intros x Hx. destruct (BBLOCK_in sb b (x - b) Hb ltac:(lia)) as [Ex Em]. replace (b + (x - b)) with x in Ex, Em by lia.
    rewrite Ex, Em. apply Hbelow. lia.
  - assert (Hhm : home (t_start t) (t_size t) bm) by (apply (bp_bmap _ _ _ Hp); lia).
    destruct (fread_ok c f t bm) as (i & l1 & c' & l & E1 & E2 & E3 & Hc' & Ht');
      [apply Hp|apply Hp|destruct Hhm; lia|apply (bp_held _ _ _ Hp); lia|pose proof (bp_bufs _ _ _ Hp); lia|].
    assert (Hused : ∀ x, b <= x < b + m → bused sb (t_data t) x = true).
    { intros x Hx. unfold bused. destruct (BBLOCK_in sb b (x - b) Hb ltac:(lia)) as [Ex Em].
      replace (b + (x - b)) with x in Ex, Em by lia. rewrite Ex, Em. apply Hfind. lia. }
    destruct (IH c' (set_flog l f) (b + BPB)) as (r & c2 & l2 & t2 & E4 & Hc2 & Ht2 & Hr).
    + by eapply balloc_pre_same.
    + unfold BPB, BSIZE. lia.
    + rewrite <- (Z.mul_1_l BPB) at 1. by rewrite Z.mod_add.
    + lia.
    + change (fs_sb (set_flog l f)) with sb in Hr.
      exists r, c2, l2, t2. split; [kstep E1; kstep E2; rewrite Ef; kstep E3; exact E4|]. split; [by transitivity c'|].
      split; [done|]. assert (Hgap : ∀ x, b <= x < t_size t → x < b + BPB → bused sb (t_data t) x = true).
      { intros x Hx Hx'. apply Hused. unfold m. lia. }
      destruct Hr as [(-> & -> & Hall)|(Hr & Hfr & Hall & ->)]; [left|right]; split_and!; try done; try lia.
      * intros x Hx. destruct (decide (x < b + BPB)); [by apply Hgap|apply Hall; lia].
      * intros x Hx. destruct (decide (x < b + BPB)); [apply Hgap; lia|apply Hall; lia].
Qed.

Lemma balloc_ok c f t :
  balloc_pre c f t →
  ∃ r c' l t', balloc ROOTDEV c f = Ret r c' (set_flog l f) ∧ same_ctx c c' ∧ fabs c' (set_flog l f) t' ∧
    t_size t' = t_size t ∧ t_start t' = t_start t ∧
    t_held t' = t_held t ∧ (length (t_logged t') ≤ length (t_logged t) + 2)%nat ∧
    ((r = 0 ∧ t' = t ∧ ∀ x, 0 <= x < t_size t → bused (fs_sb f) (t_data t) x = true) ∨
     (t' = t_write r (replicate bsize 0) (t_write (BBLOCK r (fs_sb f)) (bit_set (t_data t (BBLOCK r (fs_sb f))) (r mod BPB)) t) ∧
      0 < r < t_size t ∧ bused (fs_sb f) (t_data t) r = false ∧
      (∀ x, 0 <= x < r → bused (fs_sb f) (t_data t) x = true) ∧
      t_data t' r = replicate bsize 0 ∧
      (∀ x, 0 <= x < t_size t → bused (fs_sb f) (t_data t') x = (x =? r) || bused (fs_sb f) (t_data t) x) ∧
      (∀ b, b ≠ r → b ≠ BBLOCK r (fs_sb f) → t_data t' b = t_data t b))).
Proof.
  intros Hp. pose proof (bp_max _ _ _ Hp) as Hmx.
  destruct (balloc_loop_ok (S (Z.to_nat (sb_size (fs_sb f) / BPB))) c f t 0 Hp) as (r & c' & l & t' & E & Hc' & Ht' & Hr);
    [done|done| |].
  { rewrite (bp_size _ _ _ Hp), Nat2Z.inj_succ, Z2Nat.id by (apply Z.div_pos; unfold BPB, BSIZE; lia).
    pose proof (Z.mod_pos_bound (t_size t) BPB ltac:(done)). pose proof (Z.div_mod (t_size t) BPB ltac:(done)). lia. }
  exists r, c', l, t'. split; [exact E|]. split; [done|]. split; [done|].
  destruct Hr as [(-> & -> & Hall)|(Hr & Hfr & Hall & ->)]; [split_and!; [done|done|done|lia|by left]|].
  assert (Hr0 : r ≠ 0) by (intros ->; by rewrite (bp_boot _ _ _ Hp) in Hfr).
  split; [done|]. split; [done|]. split; [done|]. split; [|right].
  - cbn [t_logged t_write]. repeat case_decide; rewrite ?length_app; simpl; lia.
  - destruct (bp_data _ _ _ Hp r ltac:(lia) Hfr) as (Hh & _ & Hne). cbn [t_data t_write].
    split_and!; [done|lia|lia|done|done|by rewrite fn_lookup_insert| |].
    + intros x Hx. unfold bused. rewrite fn_lookup_insert_ne by (intros Hb; by apply (Hne x Hx)).
      pose proof (Z.mod_pos_bound x BPB ltac:(done)). pose proof (Z.mod_pos_bound r BPB ltac:(done)).
      destruct (decide (BBLOCK x (fs_sb f) = BBLOCK r (fs_sb f))) as [Eb|Eb].
      * rewrite Eb, fn_lookup_insert, bit_get_set; [|lia..|].
        -- f_equal. apply (BBLOCK_inj (fs_sb f)); [lia..|done].
        -- rewrite (tabs_len _ _ _ _ (bp_abs _ _ _ Hp)) by (destruct (bp_bmap _ _ _ Hp r ltac:(lia)); lia).
           unfold bsize, BPB, BSIZE in *. apply Z2Nat.inj_lt; [apply Z.div_pos; lia|lia|apply Z.div_lt_upper_bound; lia].
      * rewrite fn_lookup_insert_ne by done. by rewrite (proj2 (Z.eqb_neq x r)) by (intros ->; done).
    + intros b Hb1 Hb2. by rewrite !fn_lookup_insert_ne.
Qed.

(** C5. [balloc] returns the lowest-numbered free block, with its bit set in the bitmap and its
    contents zeroed, and changes nothing else; it returns 0 and changes nothing exactly when the
    bitmap shows every block in use.  It logs at most two blocks and keeps the buffers it was given. *)
Theorem balloc_allocates c f t :
  balloc_pre c f t →
  ∃ r c' f' t', balloc ROOTDEV c f = Ret r c' f' ∧ same_ctx c c' ∧ fabs c' f' t' ∧
    t_held t' = t_held t ∧ (length (t_logged t') ≤ length (t_logged t) + 2)%nat ∧
    ((r = 0 ∧ t' = t ∧ ∀ x, 0 <= x < t_size t → bused (fs_sb f) (t_data t) x = true) ∨
     (0 < r < t_size t ∧ bused (fs_sb f) (t_data t) r = false ∧
      (∀ x, 0 <= x < r → bused (fs_sb f) (t_data t) x = true) ∧
      t_data t' r = replicate bsize 0 ∧
      (∀ x, 0 <= x < t_size t → bused (fs_sb f) (t_data t') x = (x =? r) || bused (fs_sb f) (t_data t) x) ∧
      (∀ b, b ≠ r → b ≠ BBLOCK r (fs_sb f) → t_data t' b = t_data t b))).
Proof.
  intros Hp. destruct (balloc_ok c f t Hp) as (r & c' & l & t' & E & Hc & Ht & _ & _ & Hh & Hl & Hr).
  exists r, c', (set_flog l f), t'. do 5 (split; [done|]). destruct Hr as [Hr|[_ Hr]]; [by left|by right].
Qed.
End runs.

(** ** Path names

    A path is split at every slash; [path_names] lists its non-empty parts, cut to DIRSIZ bytes. *)
Fixpoint split_on (sep : Z) (p : list Z) : list (list Z) :=
  match p with
  | [] => [[]]
  | x :: p' =>
      if x =? sep then [] :: split_on sep p'
      else match split_on sep p' with
           | s :: r => (x :: s) :: r
           | [] => [[x]]
           end
  end.

Definition path_parts (p : list Z) : list (list Z) := filter (λ s, s ≠ []) (split_on SLASH p).
Definition path_names (p : list Z) : list (list Z) := take (Z.to_nat DIRSIZ) <$> path_parts p.

Lemma split_on_elem p :
  split_on SLASH p = (path_elem p).1 :: match (path_elem p).2 with [] => [] | _ :: r => split_on SLASH r end.
Proof.
  induction p as [|x p IH]; [done|]. cbn [split_on path_elem]. destruct (x =? SLASH); [done|].
  rewrite IH. by destruct (path_elem p).
Qed.

Lemma path_elem_slash p : match (path_elem p).2 with [] => True | x :: _ => x = SLASH end.
Proof.
  induction p as [|x p IH]; [done|]. cbn [path_elem]. destruct (Z.eqb_spec x SLASH); [done|]. by destruct (path_elem p).
Qed.

Lemma length_path_elem p : (length (path_elem p).1 + length (path_elem p).2)%nat = length p.
Proof.
  induction p as [|x p IH]; [done|]. cbn [path_elem]. destruct (x =? SLASH); [done|].
  destruct (path_elem p). simpl in *. lia.
Qed.

Lemma path_parts_skip p : path_parts (skip_slashes p) = path_parts p.
Proof.
  induction p as [|x p IH]; [done|]. cbn [skip_slashes]. destruct (x =? SLASH) eqn:E; [|done].
  rewrite IH. unfold path_parts. cbn [split_on]. by rewrite E.
Qed.

Lemma length_skip_slashes p : (length (skip_slashes p) ≤ length p)%nat.
Proof. induction p as [|x p IH]; [done|]. cbn [skip_slashes]. destruct (x =? SLASH); simpl; lia. Qed.

Lemma skip_slashes_head p : match skip_slashes p with [] => True | x :: _ => x ≠ SLASH end.
Proof. induction p as [|x p IH]; [done|]. cbn [skip_slashes]. by destruct (Z.eqb_spec x SLASH). Qed.

(** A path that does not start with a slash is its first element followed by the rest. *)
Lemma path_parts_cons x p : x ≠ SLASH →
  path_parts (x :: p) = (path_elem (x :: p)).1 :: path_parts (path_elem (x :: p)).2 ∧ (path_elem (x :: p)).1 ≠ [].
Proof.
  intros Hx. assert (Hs : (path_elem (x :: p)).1 ≠ []).
  { cbn [path_elem]. rewrite (proj2 (Z.eqb_neq _ _) Hx). by destruct (path_elem p). }
  split; [|done]. unfold path_parts at 1. rewrite split_on_elem, filter_cons, decide_True by done. f_equal.
  pose proof (path_elem_slash (x :: p)) as Hr. destruct (path_elem (x :: p)).2 as [|y r]; [done|]. by rewrite Hr.
Qed.

(** [skipelem] takes the first name; what is left is empty exactly when no name is left. *)
Lemma skipelem_spec p :
  match skipelem p with
  | None => path_names p = []
  | Some (n, p') => path_names p = n :: path_names p' ∧ (length p' < length p)%nat ∧ (p' = [] ↔ path_names p' = [])
  end.
Proof.
  unfold skipelem, path_names. rewrite <- path_parts_skip. pose proof (skip_slashes_head p) as Hh.
  pose proof (length_skip_slashes p) as Hl. destruct (skip_slashes p) as [|x q]; [done|].
  destruct (path_parts_cons x q Hh) as [E Hne]. pose proof (length_path_elem (x :: q)) as Hq.
  destruct (path_elem (x :: q)) as [s r]. simpl in E, Hne, Hq. rewrite E, path_parts_skip, fmap_cons.
  split; [done|]. pose proof (length_skip_slashes r). split; [destruct s; [done|]; simpl in *; lia|].
  split; [intros Hn; by rewrite <- path_parts_skip, Hn|].
  rewrite <- path_parts_skip. pose proof (skip_slashes_head r) as Hr. destruct (skip_slashes r) as [|y r']; [done|].
  by destruct (path_parts_cons y r' Hr) as [-> _].
Qed.

Section walk.
Context {L U : Type} `{TxOps L} `{UserOps U}.
Abbreviation FM := (M (fsys L U)).

(** The walk described by [namex]: one directory per name. *)
Fixpoint walk (ip : nat) (names : list (list Z)) (nameiparent : bool) (name : list Z) : FM (option (nat * list Z)) :=
  match names with
  | [] => if nameiparent then iput ip ;;; kret None else kret (Some (ip, name))
  | n :: names' =>
      ilock ip ;;;
      do d <- geti ip;
      if negb (i_type d =? T_DIR) then iunlockput ip ;;; kret None
      else if nameiparent && bool_decide (names' = []) then iunlock ip ;;; kret (Some (ip, n))
      else
        do next <- dirlookup ip n;
        match next with
        | None => iunlockput ip ;;; kret None
        | Some (nip, _) => iunlockput ip ;;; walk nip names' nameiparent n
        end
  end.

Lemma namex_loop_walk fuel ip p par name c (f : fsys L U) :
  (length p ≤ fuel)%nat → namex_loop fuel ip p par name c f = walk ip (path_names p) par name c f.
Proof.
  revert ip p name c f. induction fuel as [|fuel IH]; intros ip p name c f Hf;
    cbn [namex_loop]; pose proof (skipelem_spec p) as Hs; destruct (skipelem p) as [[n p']|]; try by rewrite Hs.
  { lia. }
  destruct Hs as (-> & Hl & Hnil). cbn [walk].
  assert (Hb : bool_decide (p' = []) = bool_decide (path_names p' = [])) by (by apply bool_decide_ext). rewrite Hb.
  apply kbind_ext. intros _ c1 f1. apply kbind_ext. intros d c2 f2. destruct (negb _); [done|]. destruct (_ && _); [done|].
  apply kbind_ext. intros [[nip off]|] c3 f3; [|done]. apply kbind_ext. intros _ c4 f4. apply IH. lia.
Qed.

(** C8. Resolving a path with [namex] is one directory lookup per name of the path: the loop over
    [skipelem] visits exactly the non-empty parts between slashes, each cut to DIRSIZ bytes, in order,
    and ends.  [nameiparent] stops before the last one. *)
Theorem namex_walks cwd path par c (f : fsys L U) :
  namex cwd path par c f =
    (do ip <- (if bool_decide (head path = Some SLASH) then iget ROOTDEV ROOTINO
               else match cwd with Some w => idup w | None => undefined "idup(0)" end);
     walk ip (path_names path) par []) c f.
Proof.
  unfold namex. rewrite (kbind_ext _ _ (λ ip, walk ip (path_names path) par []))
    by (intros; by apply namex_loop_walk).
  destruct path as [|x p]; [done|]. destruct (Z.eqb_spec x SLASH) as [->|Hne]; [done|].
  rewrite bool_decide_eq_false_2; [done|]. intros [= E]. by subst x.
Qed.
End walk.

(** ** Inodes on disk *)

Definition dinode_ok (d : dinode) : Prop :=
  (- 2 ^ 15 <= d_type d < 2 ^ 15) ∧ (- 2 ^ 15 <= d_major d < 2 ^ 15) ∧ (- 2 ^ 15 <= d_minor d < 2 ^ 15) ∧
  (- 2 ^ 15 <= d_nlink d < 2 ^ 15) ∧ (0 <= d_size d < 2 ^ 32) ∧
  length (d_addrs d) = Z.to_nat (NDIRECT + 1) ∧ Forall (λ a, 0 <= a < 2 ^ 32) (d_addrs d).

Lemma s16_u16 x : - 2 ^ 15 <= x < 2 ^ 15 → s16 (u16 x) = x.
Proof.
  intros Hx. unfold s16, u16. rewrite Z.mod_mod by lia. destruct (decide (0 <= x)).
  - rewrite Z.mod_small by lia. by rewrite (proj2 (Z.ltb_lt _ _)) by lia.
  - assert (E : x mod 2 ^ 16 = x + 2 ^ 16) by (rewrite <- (Z.mod_add x 1 (2 ^ 16)) by lia; apply Z.mod_small; lia).
    rewrite E, (proj2 (Z.ltb_ge _ _)) by lia. lia.
Qed.

Lemma length_st16 d off v : (off + 2 ≤ length d)%nat → length (st16 d off v) = length d.
Proof. intros. unfold st16. apply length_splice. rewrite length_le_split. lia. Qed.

Lemma ld16_st16 d off v : (off + 2 ≤ length d)%nat → ld16 (st16 d off v) off = u16 v.
Proof.
  intros. unfold ld16, st16. rewrite <- (length_le_split 2 (u16 v)) at 2.
  rewrite slice_splice_eq by (by rewrite length_le_split).
  rewrite le_combine_split. change (256 ^ Z.of_nat 2) with (2 ^ 16). apply Z.mod_small, Z.mod_pos_bound. lia.
Qed.

(** Bytes [o .. o + n) of a block lie outside [off .. off + k). *)
Definition apart (o n off k : nat) : Prop := (o + n ≤ off ∨ off + k ≤ o)%nat.

Lemma slice_st16 d off v o n : (off + 2 ≤ length d)%nat → apart o n off 2 → slice (st16 d off v) o n = slice d o n.
Proof. intros Hl Ha. unfold st16. by rewrite slice_splice_ne by (rewrite length_le_split; done || lia). Qed.

Lemma slice_st32 d off v o n : (off + 4 ≤ length d)%nat → apart o n off 4 → slice (st32 d off v) o n = slice d o n.
Proof. intros Hl Ha. unfold st32. by rewrite slice_splice_ne by (rewrite length_le_split; done || lia). Qed.

Lemma length_put_addrs l off d : (off + 4 * length l ≤ length d)%nat → length (put_addrs d off l) = length d.
Proof.
  revert off d. induction l as [|a l IH]; intros off d Hl; [done|]. simpl in *.
  rewrite IH; rewrite length_st32; lia.
Qed.

Lemma slice_put_addrs l off d o n :
  (off + 4 * length l ≤ length d)%nat → apart o n off (4 * length l) → slice (put_addrs d off l) o n = slice d o n.
Proof.
  revert off d. induction l as [|a l IH]; intros off d Hl Ha; [done|]. simpl in *. unfold apart in *.
  rewrite IH by (rewrite ?length_st32; lia). apply slice_st32; unfold apart; lia.
Qed.

Lemma ld32_put_addrs l off d k a :
  (off + 4 * length l ≤ length d)%nat → l !! k = Some a → ld32 (put_addrs d off l) (off + 4 * k) = u32 a.
Proof.
  revert off d k. induction l as [|b l IH]; intros off d k Hl Hk; [done|]. cbn [length put_addrs] in *. destruct k as [|k].
  - injection Hk as ->. replace (off + 4 * 0)%nat with off by lia. unfold ld32.
    rewrite slice_put_addrs by (rewrite ?length_st32; unfold apart; lia). apply ld32_st32. lia.
  - replace (off + 4 * S k)%nat with (off + 4 + 4 * k)%nat by lia. apply IH; [|done]. rewrite length_st32; lia.
Qed.

Lemma length_put_dinode d off i :
  (off + Z.to_nat sizeof_dinode ≤ length d)%nat → length (d_addrs i) = Z.to_nat (NDIRECT + 1) →
  length (put_dinode d off i) = length d.
Proof.
  intros Hl Ha. change (Z.to_nat sizeof_dinode) with 64%nat in Hl. change (Z.to_nat (NDIRECT + 1)) with 13%nat in Ha.
  unfold put_dinode. rewrite length_put_addrs; rewrite !length_st32; rewrite ?length_st16; rewrite ?length_st16;
    rewrite ?length_st16; rewrite ?length_st16; lia.
Qed.

(** A dinode written to a block is read back, and the bytes around it are untouched. *)
Lemma get_put_dinode d off i :
  (off + Z.to_nat sizeof_dinode ≤ length d)%nat → dinode_ok i → get_dinode (put_dinode d off i) off = i.
Proof.
  intros Hl (H1 & H2 & H3 & H4 & H5 & Ha & Hf). destruct i as [ty ma mi nl sz ad]. simpl in *.
  change (Z.to_nat sizeof_dinode) with 64%nat in Hl. change (Z.to_nat (NDIRECT + 1)) with 13%nat in Ha.
  unfold get_dinode, put_dinode. cbn [d_type d_major d_minor d_nlink d_size d_addrs].
  set (d1 := st16 d off ty). assert (L1 : length d1 = length d) by (apply length_st16; lia).
  set (d2 := st16 d1 (off + 2) ma). assert (L2 : length d2 = length d) by (rewrite <- L1; apply length_st16; lia).
  set (d3 := st16 d2 (off + 4) mi). assert (L3 : length d3 = length d) by (rewrite <- L2; apply length_st16; lia).
  set (d4 := st16 d3 (off + 6) nl). assert (L4 : length d4 = length d) by (rewrite <- L3; apply length_st16; lia).
  set (d5 := st32 d4 (off + 8) sz). assert (L5 : length d5 = length d) by (rewrite <- L4; apply length_st32; lia).
  assert (Hout : ∀ o n, (o + n ≤ off + 12)%nat → slice (put_addrs d5 (off + 12) ad) o n = slice d5 o n).
  { intros o n Ho. apply slice_put_addrs; [lia|]. left. lia. }
  assert (S5 : ∀ o n, apart o n (off + 8) 4 → slice d5 o n = slice d4 o n) by (intros; apply slice_st32; [lia|done]).
  assert (S4 : ∀ o n, apart o n (off + 6) 2 → slice d4 o n = slice d3 o n) by (intros; apply slice_st16; [lia|done]).
  assert (S3 : ∀ o n, apart o n (off + 4) 2 → slice d3 o n = slice d2 o n) by (intros; apply slice_st16; [lia|done]).
  assert (S2 : ∀ o n, apart o n (off + 2) 2 → slice d2 o n = slice d1 o n) by (intros; apply slice_st16; [lia|done]).
  assert (F1 : ld16 (put_addrs d5 (off + 12) ad) off = u16 ty).
  { unfold ld16. rewrite Hout by lia. rewrite S5, S4, S3, S2 by (unfold apart; lia).
    apply ld16_st16. lia. }
  assert (F2 : ld16 (put_addrs d5 (off + 12) ad) (off + 2) = u16 ma).
  { unfold ld16. rewrite Hout by lia. rewrite S5, S4, S3 by (unfold apart; lia).
    apply ld16_st16. lia. }
  assert (F3 : ld16 (put_addrs d5 (off + 12) ad) (off + 4) = u16 mi).
  { unfold ld16. rewrite Hout by lia. rewrite S5, S4 by (unfold apart; lia).
    apply ld16_st16. lia. }
  assert (F4 : ld16 (put_addrs d5 (off + 12) ad) (off + 6) = u16 nl).
  { unfold ld16. rewrite Hout by lia. rewrite S5 by (unfold apart; lia). apply ld16_st16. lia. }
  assert (F5 : ld32 (put_addrs d5 (off + 12) ad) (off + 8) = u32 sz).
  { unfold ld32. rewrite Hout by lia. apply ld32_st32. lia. }
  rewrite F1, F2, F3, F4, F5, !s16_u16, u32_small by done. f_equal.
  apply list_eq. intros k. rewrite list_lookup_fmap. destruct (ad !! k) as [a|] eqn:Ek.
  - rewrite lookup_seq_lt by (apply lookup_lt_Some in Ek; change (Z.to_nat (NDIRECT + 1)) with 13%nat; lia).
    cbn [fmap option_fmap option_map]. change (0 + k)%nat with k.
    rewrite (ld32_put_addrs ad (off + 12) d5 k a) by (lia || done).
    rewrite u32_small; [done|]. by eapply (Forall_lookup_1 _ _ _ _ Hf Ek).
  - apply lookup_ge_None in Ek. rewrite lookup_seq_ge; [done|]. change (Z.to_nat (NDIRECT + 1)) with 13%nat. lia.
Qed.

Lemma get_put_dinode_ne d off o i :
  (off + Z.to_nat sizeof_dinode ≤ length d)%nat → length (d_addrs i) = Z.to_nat (NDIRECT + 1) →
  apart o (Z.to_nat sizeof_dinode) off (Z.to_nat sizeof_dinode) →
  get_dinode (put_dinode d off i) o = get_dinode d o.
Proof.
  intros Hl Ha Hap. change (Z.to_nat sizeof_dinode) with 64%nat in *. change (Z.to_nat (NDIRECT + 1)) with 13%nat in Ha.
  assert (E : ∀ p n, (o ≤ p)%nat → (p + n ≤ o + 64)%nat → slice (put_dinode d off i) p n = slice d p n).
  { intros p n Hp Hn. unfold put_dinode, apart in *.
    rewrite slice_put_addrs, slice_st32, !slice_st16;
      rewrite ?length_st32; rewrite ?length_st16; rewrite ?length_st16; rewrite ?length_st16; rewrite ?length_st16;
      unfold apart; try done; lia. }
  unfold get_dinode, ld16, ld32. rewrite !E by lia. f_equal. apply list_fmap_ext. intros j k Hj.
  apply lookup_seq in Hj as [-> Hj]. change (Z.to_nat (NDIRECT + 1)) with 13%nat in Hj. by rewrite E by lia.
Qed.

Section inodes.
Context {L U : Type} `{TxStore L} `{UserOps U}.
Abbreviation FS := (fsys L U).
Implicit Types (f : FS) (t : tview) (c : kctx) (ip : inode) (i : nat).

Definition set_inodes (l : list inode) f : FS := mkfs (fs_log f) (fs_sb f) l (fs_user f).

(** The dinode of [inum] on the device. *)
Definition disk_inode (sb : superblock) (data : Z → block) (inum : Z) : dinode :=
  get_dinode (data (IBLOCK inum sb)) (dinode_off inum).

Lemma dinode_off_fits (inum : Z) (d : block) : length d = bsize → (dinode_off inum + Z.to_nat sizeof_dinode ≤ length d)%nat.
Proof.
  intros ->. unfold dinode_off, bsize, IPB, sizeof_dinode, BSIZE.
  pose proof (Z.mod_pos_bound inum (1024 / 64) ltac:(done)). change (1024 / 64) with 16 in *. lia.
Qed.

Lemma dinode_off_apart (a b : Z) (sb : superblock) :
  0 <= a < 2 ^ 31 → 0 <= b < 2 ^ 31 → IBLOCK a sb = IBLOCK b sb → a ≠ b →
  apart (dinode_off a) (Z.to_nat sizeof_dinode) (dinode_off b) (Z.to_nat sizeof_dinode).
Proof.
  intros Ha Hb E Hne. unfold IBLOCK, u32, apart, dinode_off, IPB, sizeof_dinode, BSIZE in *.
  change (1024 / 64) with 16 in *. pose proof (Z.mod_pos_bound a 16 ltac:(lia)). pose proof (Z.mod_pos_bound b 16 ltac:(lia)).
  pose proof (Z.div_mod a 16 ltac:(lia)). pose proof (Z.div_mod b 16 ltac:(lia)).
  pose proof (Z.div_mod (a / 16 + sb_inodestart sb) (2 ^ 32) ltac:(lia)).
  pose proof (Z.div_mod (b / 16 + sb_inodestart sb) (2 ^ 32) ltac:(lia)). lia.
Qed.

(** Entry [i] of the table is a used inode whose block on disk is a home block that can be logged. *)
Record inode_pre c f t i ip : Prop := mkipre {
  ip_abs : fabs c f t;
  ip_clear : tx_clear c;
  ip_entry : fs_inode f !! i = Some ip;
  ip_dev : i_dev ip = ROOTDEV;
  ip_inum : 0 <= i_inum ip < 2 ^ 31;
  ip_ok : dinode_ok (inode_dinode ip);
  ip_home : home (t_start t) (t_size t) (IBLOCK (i_inum ip) (fs_sb f));
  ip_nheld : IBLOCK (i_inum ip) (fs_sb f) ∉ (t_held t).*1;
  ip_bufs : 1 < t_free t;
  ip_room : Z.of_nat (length (t_logged t)) < LOGBLOCKS
}.

Lemma geti_ret c f i ip : fs_inode f !! i = Some ip → geti i c f = Ret ip c f.
Proof. intros E. unfold geti. kexec. by rewrite E. Qed.

Definition inode_view f t ip : tview :=
  let bn := IBLOCK (i_inum ip) (fs_sb f) in
  t_write bn (put_dinode (t_data t bn) (dinode_off (i_inum ip)) (inode_dinode ip)) t.

Lemma iupdate_ok c f t i ip :
  inode_pre c f t i ip →
  ∃ c' l, iupdate i c f = Ret tt c' (set_flog l f) ∧ same_ctx c c' ∧ fabs c' (set_flog l f) (inode_view f t ip).
Proof.
  intros [Ha Hc He Hdv Hin Hok Hh Hnh Hb Hr]. set (bn := IBLOCK (i_inum ip) (fs_sb f)) in *.
  assert (Hlen : length (t_data t bn) = bsize) by (eapply tabs_len; [done|destruct Hh; lia]).
  destruct (fupdate_ok c f t bn (put_dinode (t_data t bn) (dinode_off (i_inum ip)) (inode_dinode ip)))
    as (j & l1 & l2 & c' & l & E1 & E2 & E3 & E4 & Hc' & Ht'); [done|done|done|done|lia| |done|].
  { rewrite length_put_dinode; [done|by apply dinode_off_fits|apply Hok]. }
  exists c', l. split; [|done]. unfold iupdate. kstep (geti_ret c f i ip He).
  rewrite (kbind_ret _ _ _ _ (fs_sb f) c f) by done. cbn beta. rewrite Hdv. fold bn.
  kstep E1. kstep E2. kstep E3. exact E4.
Qed.

(** What [iupdate] makes of the dinodes: its own is the one in memory, the others are kept. *)
Lemma inode_view_disk c f t i ip (inum : Z) :
  inode_pre c f t i ip → 0 <= inum < 2 ^ 31 →
  disk_inode (fs_sb f) (t_data (inode_view f t ip)) inum =
    if decide (inum = i_inum ip) then inode_dinode ip else disk_inode (fs_sb f) (t_data t) inum.
Proof.
  intros [Ha Hc He Hdv Hin Hok Hh Hnh Hb Hr] Hi. unfold disk_inode, inode_view. cbn [t_data t_write].
  assert (Hlen : length (t_data t (IBLOCK (i_inum ip) (fs_sb f))) = bsize) by (eapply tabs_len; [done|destruct Hh; lia]).
  destruct (decide (inum = i_inum ip)) as [->|Hne].
  - rewrite fn_lookup_insert. apply get_put_dinode; [by apply dinode_off_fits|done].
  - destruct (decide (IBLOCK inum (fs_sb f) = IBLOCK (i_inum ip) (fs_sb f))) as [E|E].
    + rewrite E, fn_lookup_insert. apply get_put_dinode_ne; [by apply dinode_off_fits|apply Hok|].
      by apply (dinode_off_apart _ _ (fs_sb f)).
    + by rewrite fn_lookup_insert_ne.
Qed.

(** The memory of the entry is reused: the fields hold anything and are not valid. *)
Definition evict (d : dinode) ip : inode := set_ivalid false (load_dinode d ip).

Lemma modi_ret c f i g : modi i g c f = Ret tt c (set_inodes (alter g i (fs_inode f)) f).
Proof. done. Qed.

Lemma list_alter_id_at {A} (g : A → A) (l : list A) i : (∀ x, l !! i = Some x → g x = x) → alter g i l = l.
Proof.
  intros Hg. apply list_eq. intros j. destruct (decide (i = j)) as [<-|Hne]; [|by rewrite list_lookup_alter_ne].
  rewrite list_lookup_alter_eq. destruct (l !! i) eqn:E; [|done]. simpl. f_equal. by apply Hg.
Qed.

Lemma alter_entry f i ip g : fs_inode f !! i = Some ip → fs_inode (set_inodes (alter g i (fs_inode f)) f) !! i = Some (g ip).
Proof. intros E. simpl. by rewrite list_lookup_alter_eq, E. Qed.

(** [iunlock] of an inode the process has locked. *)
Lemma iunlock_ok c f i ip :
  fs_inode f !! i = Some ip → LK_inodesl i ∉ held c → i_lock ip = mksleep true (curpid c) → 1 <= i_ref ip →
  ∃ c', iunlock i c f = Ret tt c' (set_inodes (alter (set_ilock (mksleep false 0)) i (fs_inode f)) f) ∧ same_ctx c c'.
Proof.
  intros He Hc Hl Hr. unfold iunlock. rewrite (kbind_ret _ _ _ _ true c f).
  - cbn beta. kstep (geti_ret c f i ip He). rewrite (proj2 (Z.ltb_ge _ _)) by lia. cbn [negb orb].
    eexists. split; [by apply releasesleep_run|done].
  - rewrite holdingsleep_run by done. cbn [lget ilock_lens]. rewrite He, Hl. cbn. by rewrite Z.eqb_refl.
Qed.

(** [ilock] of an entry that is not valid reads the dinode. *)
Lemma ilock_load c f t i ip :
  fabs c f t → tx_clear c → LK_inodesl i ∉ held c → fs_inode f !! i = Some ip → 1 <= i_ref ip → i_dev ip = ROOTDEV →
  sl_locked (i_lock ip) = false → i_valid ip = false →
  0 <= IBLOCK (i_inum ip) (fs_sb f) < t_size t → IBLOCK (i_inum ip) (fs_sb f) ∉ (t_held t).*1 → 0 < t_free t →
  d_type (disk_inode (fs_sb f) (t_data t) (i_inum ip)) ≠ 0 →
  ∃ c' l, let g x := set_ivalid true (load_dinode (disk_inode (fs_sb f) (t_data t) (i_inum ip))
                                     (set_ilock (mksleep true (curpid c)) x)) in
    ilock i c f = Ret tt c' (set_inodes (alter g i (fs_inode f)) (set_flog l f)) ∧ same_ctx c c' ∧
    fabs c' (set_inodes (alter g i (fs_inode f)) (set_flog l f)) t.
Proof.
  intros Ha Hc Hlk He Hr Hdv Hfree Hval Hbn Hnh Hbf Hty. set (bn := IBLOCK (i_inum ip) (fs_sb f)) in *.
  set (ip1 := set_ilock (mksleep true (curpid c)) ip).
  set (f1 := set_inodes (alter (set_ilock (mksleep true (curpid c))) i (fs_inode f)) f).
  assert (He1 : fs_inode f1 !! i = Some ip1) by (by apply alter_entry).
  destruct (fbread_ok c f1 t bn) as (j & l1 & E1 & Ht1 & Ed); [done..|].
  set (d := get_dinode (t_data t bn) (dinode_off (i_inum ip))).
  set (f2 := set_inodes (alter (load_dinode d) i (fs_inode (set_flog l1 f1))) (set_flog l1 f1)).
  assert (Ht2 : fabs c f2 (t_take bn j t)) by exact Ht1.
  destruct (fbrelse_ok c f2 _ bn j Ht2 Hc) as (c' & l & E2 & Hc' & Ht3); [constructor|]. rewrite drop_take in Ht3 by done.
  set (f3 := set_inodes (alter (set_ivalid true) i (fs_inode (set_flog l f2))) (set_flog l f2)).
  assert (E3 : f3 = set_inodes (alter (λ ip, set_ivalid true (load_dinode d (set_ilock (mksleep true (curpid c)) ip))) i (fs_inode f)) (set_flog l f)).
  { unfold f3, f2, f1, set_inodes, set_flog. cbn [fs_log fs_sb fs_inode fs_user]. f_equal. by rewrite !list_alter_alter_eq. }
  assert (He3 : fs_inode f3 !! i = Some (set_ivalid true (load_dinode d ip1))).
  { apply (alter_entry (set_flog l f2)), (alter_entry (set_flog l1 f1)). exact He1. }
  exists c', l. cbv zeta. change (disk_inode (fs_sb f) (t_data t) (i_inum ip)) with d.
  split; [|split; [done|rewrite <- E3; exact Ht3]]. unfold ilock.
  kstep (geti_ret c f i ip He). rewrite (proj2 (Z.ltb_ge _ _)) by lia.
  rewrite (kbind_ret _ _ _ _ tt c f1) by (rewrite acquiresleep_run; [done|done|cbn [lget ilock_lens]; by rewrite He]).
  kstep (geti_ret c f1 i ip1 He1). change (i_valid ip1) with (i_valid ip). rewrite Hval.
  rewrite (kbind_ret _ _ _ _ (fs_sb f) c f1) by done. cbn beta. change (i_dev ip1) with (i_dev ip). rewrite Hdv.
  change (i_inum ip1) with (i_inum ip). fold bn. kstep E1. kstep Ed. fold d.
  rewrite (kbind_ret _ _ _ _ tt c f2) by done. cbn beta. kstep E2. rewrite (kbind_ret _ _ _ _ tt c' f3) by done. cbn beta.
  kstep (geti_ret c' f3 i _ He3). cbn [i_type set_ivalid load_dinode]. rewrite (proj2 (Z.eqb_neq _ _)) by exact Hty.
  rewrite E3. done.
Qed.

(** C7. An inode written by [iupdate] and unlocked is loaded back by [ilock] with all its fields
    after its entry of the table has been reused, and no other dinode of the device has changed. *)
Theorem inode_roundtrip c f t i ip d :
  inode_pre c f t i ip → LK_inodesl i ∉ held c → i_lock ip = mksleep true (curpid c) → 1 <= i_ref ip →
  i_valid ip = true → i_type ip ≠ 0 →
  ∃ c' f' t', (iupdate i ;;; iunlock i ;;; modi i (evict d) ;;; ilock i) c f = Ret tt c' f' ∧ same_ctx c c' ∧
    fs_inode f' = fs_inode f ∧ fabs c' f' t' ∧
    (∀ inum, 0 <= inum < 2 ^ 31 → inum ≠ i_inum ip →
      disk_inode (fs_sb f) (t_data t') inum = disk_inode (fs_sb f) (t_data t) inum).
Proof.
  intros Hp Hlk Hl Hr Hv Hty. pose proof (ip_entry _ _ _ _ _ Hp) as He.
  destruct (iupdate_ok c f t i ip Hp) as (c1 & l1 & E1 & Hc1 & Ht1). set (f1 := set_flog l1 f) in *.
  assert (Hh1 : held c1 = held c) by apply Hc1. assert (Hp1 : curpid c1 = curpid c) by apply Hc1.
  destruct (iunlock_ok c1 f1 i ip He) as (c2 & E2 & Hc2); [by rewrite Hh1|by rewrite Hp1|done|].
  set (f2 := set_inodes _ f1) in E2. set (ip2 := set_ilock (mksleep false 0) ip).
  assert (He2 : fs_inode f2 !! i = Some ip2) by (by apply alter_entry).
  set (f3 := set_inodes (alter (evict d) i (fs_inode f2)) f2).
  assert (He3 : fs_inode f3 !! i = Some (evict d ip2)) by (by apply alter_entry).
  assert (Hh2 : same_ctx c c2) by (by transitivity c1). pose proof (ip_home _ _ _ _ _ Hp) as Hh.
  assert (Ht3 : fabs c2 f3 (inode_view f t ip)) by (unfold fabs in *; destruct Hc2 as [_ ->]; exact Ht1).
  assert (Edisk : disk_inode (fs_sb f3) (t_data (inode_view f t ip)) (i_inum (evict d ip2)) = inode_dinode ip).
  { change (fs_sb f3) with (fs_sb f). change (i_inum (evict d ip2)) with (i_inum ip).
    rewrite (inode_view_disk c f t i ip) by (done || apply Hp). by rewrite decide_True. }
  destruct (ilock_load c2 f3 _ i (evict d ip2) Ht3) as (c4 & l4 & E4 & Hc4 & Ht4).
  - eapply tx_clear_same; [exact Hh2|apply Hp].
  - by destruct Hh2 as [-> _].
  - done.
  - done.
  - apply (ip_dev _ _ _ _ _ Hp).
  - done.
  - done.
  - destruct Hh. change (t_size (inode_view f t ip)) with (t_size t). change (IBLOCK _ _) with (IBLOCK (i_inum ip) (fs_sb f)). lia.
  - apply (ip_nheld _ _ _ _ _ Hp).
  - pose proof (ip_bufs _ _ _ _ _ Hp). unfold t_free, inode_view in *. cbn [t_held t_logged t_write].
    case_decide; [lia|]. rewrite length_app. simpl. lia.
  - by rewrite Edisk.
  - eexists c4, _, _. split; [kstep E1; kstep E2; rewrite (kbind_ret _ _ _ _ tt c2 f3) by done; exact E4|].
    split; [by transitivity c2|]. split; [|split; [exact Ht4|]].
    + rewrite Edisk. unfold f3, f2, f1. cbn [fs_inode set_inodes set_flog]. rewrite !list_alter_alter_eq.
      apply list_alter_id_at. intros x Hx. rewrite He in Hx. injection Hx as <-. destruct Hh2 as [_ Hc2'].
      destruct ip. cbn in *. subst. by rewrite Hc2'.
    + intros inum Hi Hne. rewrite (inode_view_disk c f t i ip) by done. by rewrite decide_False.
Qed.
End inodes.

(** ** The inode table *)

(** An inode is in at most one entry, and reference counts are not negative. *)
Definition itable_ok (l : list inode) : Prop :=
  (∀ i ip, l !! i = Some ip → 0 <= i_ref ip) ∧
  (∀ i j ip jp, l !! i = Some ip → l !! j = Some jp → 0 < i_ref ip → 0 < i_ref jp →
    i_dev ip = i_dev jp → i_inum ip = i_inum jp → i = j).

Definition named (dev inum : Z) (ip : inode) : Prop := 0 < i_ref ip ∧ i_dev ip = dev ∧ i_inum ip = inum.

Lemma iget_scan_spec l k dev inum e :
  match iget_scan l k dev inum e with
  | inl i => ∃ ip, (k ≤ i)%nat ∧ l !! (i - k)%nat = Some ip ∧ named dev inum ip
  | inr r =>
      (∀ j ip, l !! j = Some ip → ¬ named dev inum ip) ∧
      match e with
      | Some _ => r = e
      | None =>
          match r with
          | Some i => ∃ ip, (k ≤ i)%nat ∧ l !! (i - k)%nat = Some ip ∧ i_ref ip = 0
          | None => ∀ j ip, l !! j = Some ip → i_ref ip ≠ 0
          end
      end
  end.
Proof.
  revert k e. induction l as [|x l IH]; intros k e.
  { cbn. split; [done|]. by destruct e. }
  cbn [iget_scan]. destruct ((0 <? i_ref x) && (i_dev x =? dev) && (i_inum x =? inum)) eqn:Ex.
  - exists x. rewrite Nat.sub_diag. split_and!; [done|done|]. unfold named.
    rewrite !andb_true_iff, Z.ltb_lt, !Z.eqb_eq in Ex. tauto.
  - assert (Hx : ¬ named dev inum x).
    { intros (H1 & H2 & H3). rewrite H2, H3, !Z.eqb_refl, (proj2 (Z.ltb_lt _ _) H1) in Ex. done. }
    set (e' := match e with None => _ | Some _ => e end). specialize (IH (S k) e').
    assert (Hshift : ∀ i ip, (S k ≤ i)%nat → l !! (i - S k)%nat = Some ip → (k ≤ i)%nat ∧ (x :: l) !! (i - k)%nat = Some ip).
    { intros i ip Hi E. split; [lia|]. by replace (i - k)%nat with (S (i - S k))%nat by lia. }
    destruct (iget_scan l (S k) dev inum e') as [i|r].
    + destruct IH as (ip & Hi & E & Hn). exists ip. by destruct (Hshift i ip Hi E).
    + destruct IH as [Hall Hr]. split; [intros [|j] ip E; [by injection E as <-|by eapply Hall]|].
      unfold e' in Hr. destruct e; [done|]. destruct (Z.eqb_spec (i_ref x) 0) as [E0|E0].
      * subst r. exists x. by rewrite Nat.sub_diag.
      * destruct r as [i|].
        -- destruct Hr as (ip & Hi & E & Hz). exists ip. destruct (Hshift i ip Hi E). done.
        -- intros [|j] ip E; [by injection E as <-|by eapply Hr].
Qed.

Section itable.
Context {L U : Type} `{TxOps L} `{UserOps U}.
Abbreviation FS := (fsys L U).
Implicit Types (f : FS) (c : kctx) (ip : inode) (i : nat).

Lemma itable_ok_alter l i ip g :
  itable_ok l → l !! i = Some ip → 0 <= i_ref (g ip) →
  (0 < i_ref (g ip) → ∀ j jp, l !! j = Some jp → named (i_dev (g ip)) (i_inum (g ip)) jp → j = i) →
  itable_ok (alter g i l).
Proof.
  intros [Hr Hu] Hi Hg Hn. split.
  - intros j jp. rewrite list_lookup_alter. case_decide as E; [|by apply Hr]. subst. rewrite Hi. by intros [= <-].
  - intros a b ap bp Ha Hb H1 H2 H3 H4. rewrite list_lookup_alter in Ha, Hb.
    destruct (decide (i = a)) as [<-|Na], (decide (i = b)) as [<-|Nb]; [done|..|by eapply Hu].
    + rewrite Hi in Ha. injection Ha as <-. symmetry. eapply Hn; [done|exact Hb|]. split; [done|]. split; by symmetry.
    + rewrite Hi in Hb. injection Hb as <-. eapply Hn; [done|exact Ha|]. by split.
Qed.

(** C9. [iget] returns the one table entry for inode (dev, inum): an entry already in use gains one
    reference, and otherwise an unused entry becomes that inode with one reference and no valid
    fields; every other entry is unchanged and no inode gets a second entry.  It panics only when the
    inode is in no entry and every entry is in use. *)
Theorem iget_unique c f dev inum :
  itable_ok (fs_inode f) → LK_itable ∉ held c → (∀ i ip, fs_inode f !! i = Some ip → i_ref ip < 2 ^ 31 - 1) →
  (∃ i ip', let l' := alter (λ _, ip') i (fs_inode f) in
    iget dev inum c f = Ret i c (mkfs (fs_log f) (fs_sb f) l' (fs_user f)) ∧ itable_ok l' ∧
    ∃ ip, fs_inode f !! i = Some ip ∧ named dev inum ip' ∧
      ((named dev inum ip ∧ ip' = set_iref (i_ref ip + 1) ip) ∨
       (i_ref ip = 0 ∧ i_ref ip' = 1 ∧ i_valid ip' = false ∧ i_lock ip' = i_lock ip ∧
        ∀ j jp, fs_inode f !! j = Some jp → ¬ named dev inum jp))) ∨
  (iget dev inum c f = Panic "iget: no inodes" ∧
   ∀ j jp, fs_inode f !! j = Some jp → 0 < i_ref jp ∧ ¬ named dev inum jp).
Proof.
  intros Hok Hc Hmax. destruct c as [h w p]. simpl in Hc. unfold iget. kexec.
  pose proof (iget_scan_spec (fs_inode f) 0 dev inum None) as Hs.
  assert (Hconst : ∀ g i ip, fs_inode f !! i = Some ip → alter g i (fs_inode f) = alter (λ _, g ip) i (fs_inode f)).
  { intros g i ip Hi. apply list_alter_ext; [|done]. intros x Hx. rewrite Hi in Hx. by injection Hx as <-. }
  destruct (iget_scan (fs_inode f) 0 dev inum None) as [i|[i|]]; unfold modi; kexec.
  - left. destruct Hs as (ip & _ & Hi & Hn). rewrite Nat.sub_0_r in Hi. pose proof (Hmax i ip Hi) as Hm. destruct (Hn) as (H1 & H2 & H3).
    exists i, (set_iref (i_ref ip + 1) ip). cbv zeta. rewrite (Hconst _ i ip Hi), s32_small by lia.
    split; [done|]. split.
    + apply (itable_ok_alter _ i ip); [done|done|simpl; lia|]. intros _ j jp Hj (G1 & G2 & G3). simpl in G2, G3.
      eapply (proj2 Hok); [exact Hj|exact Hi|done..].
    + exists ip. split; [done|]. split; [split; [simpl; lia|done]|by left].
  - left. destruct Hs as (Hall & ip & _ & Hi & Hz). rewrite Nat.sub_0_r in Hi.
    eexists i, _. cbv zeta. rewrite (Hconst _ i ip Hi). split; [reflexivity|]. split.
    + apply (itable_ok_alter _ i ip); [done|done|simpl; lia|]. intros _ j jp Hj Hn. by destruct (Hall j jp Hj).
    + exists ip. split; [done|]. split; [by split|]. right. by split_and!.
  - right. destruct Hs as (Hall & Hnz). split; [done|]. intros j jp Hj. pose proof (proj1 Hok j jp Hj).
    pose proof (Hnz j jp Hj). split; [lia|by eapply Hall].
Qed.
End itable.

(** ** File contents *)

(** The device block that holds block [k] of a file, byte [x] of the file, and [n] bytes from [off]. *)
Definition fblock (data : Z → block) (ip : inode) (k : Z) : Z :=
  if k <? NDIRECT then nth (Z.to_nat k) (i_addrs ip) 0
  else ind_get (data (nth (Z.to_nat NDIRECT) (i_addrs ip) 0)) (k - NDIRECT).
Definition fbyte (data : Z → block) (ip : inode) (x : Z) : Z :=
  nth (Z.to_nat (x mod BSIZE)) (data (fblock data ip (x / BSIZE))) 0.
Definition fcontents (data : Z → block) (ip : inode) (off n : Z) : list Z :=
  (λ k, fbyte data ip (off + Z.of_nat k)) <$> seq 0 (Z.to_nat n).

Lemma fcontents_app data ip off a b : 0 <= a → 0 <= b →
  fcontents data ip off (a + b) = fcontents data ip off a ++ fcontents data ip (off + a) b.
Proof.
  intros Ha Hb. unfold fcontents. rewrite Z2Nat.inj_add, seq_app, fmap_app by done. f_equal.
  rewrite (Nat.add_comm 0), <- fmap_add_seq, <- list_fmap_compose. apply list_fmap_ext. intros i k _. simpl. f_equal. lia.
Qed.

(** Inside one block the contents are a slice of it. *)
Lemma fcontents_slice data ip off m :
  0 <= off → 0 <= m → off mod BSIZE + m <= BSIZE → length (data (fblock data ip (off / BSIZE))) = bsize →
  fcontents data ip off m = slice (data (fblock data ip (off / BSIZE))) (Z.to_nat (off mod BSIZE)) (Z.to_nat m).
Proof.
  intros Ho Hm Hfit Hlen. pose proof (Z.mod_pos_bound off BSIZE ltac:(done)) as Hmod. unfold bsize, BSIZE in *.
  apply list_eq. intros k. unfold fcontents, slice. rewrite list_lookup_fmap.
  destruct (decide (k < Z.to_nat m)%nat) as [Hk|Hk].
  - rewrite lookup_seq_lt, lookup_take_lt, lookup_drop by done. cbn [fmap option_fmap option_map].
    assert (E1 : (off + Z.of_nat k) / 1024 = off / 1024).
    { rewrite (Z.div_mod off 1024) at 1 by lia. rewrite Z.mul_comm, <- Z.add_assoc, Z.div_add_l by lia.
      rewrite (Z.div_small (off mod 1024 + _)) by lia. lia. }
    assert (E2 : (off + Z.of_nat k) mod 1024 = off mod 1024 + Z.of_nat k).
    { rewrite (Z.div_mod off 1024) at 1 by lia. rewrite Z.mul_comm, <- Z.add_assoc, Z.add_comm, Z.mod_add by lia.
      apply Z.mod_small. lia. }
    unfold fbyte, BSIZE. change (0 + k)%nat with k. rewrite E1, E2.
    replace (Z.to_nat (off mod 1024 + Z.of_nat k)) with (Z.to_nat (off mod 1024) + k)%nat by lia.
    destruct (lookup_lt_is_Some_2 (data (fblock data ip (off / 1024))) (Z.to_nat (off mod 1024) + k)%nat) as [y Hy]; [lia|].
    rewrite Hy. f_equal. by apply nth_lookup_Some.
  - rewrite lookup_seq_ge, lookup_take_ge by lia. done.
Qed.

Section contents.
Context {L U : Type} `{TxStore L} `{UserOps U}.
Abbreviation FS := (fsys L U).
Implicit Types (f : FS) (t : tview) (c : kctx) (ip : inode) (i : nat) (bn : Z).

Definition readable t bn : Prop := bn ≠ 0 ∧ (0 <= bn < t_size t) ∧ (bn ∉ (t_held t).*1).

(** Inode [i] is a file without holes whose blocks the process can read. *)
Record file_pre c f t i ip : Prop := mkfpre {
  fp_abs : fabs c f t;
  fp_clear : tx_clear c;
  fp_entry : fs_inode f !! i = Some ip;
  fp_dev : i_dev ip = ROOTDEV;
  fp_size : 0 <= i_size ip <= MAXFILE * BSIZE;
  fp_blocks : ∀ k, 0 <= k → k * BSIZE < i_size ip → readable t (fblock (t_data t) ip k);
  fp_ind : NDIRECT * BSIZE < i_size ip → readable t (nth (Z.to_nat NDIRECT) (i_addrs ip) 0);
  fp_bufs : 0 < t_free t
}.

Lemma file_pre_same c c' f l t i ip :
  same_ctx c c' → fabs c' (set_flog l f) t → file_pre c f t i ip → file_pre c' (set_flog l f) t i ip.
Proof. intros Hs Ha []. split; try done. by eapply tx_clear_same. Qed.

(** [bmap] of a block the file has allocates nothing. *)
Lemma bmap_ok c f t i ip (k : Z) :
  file_pre c f t i ip → 0 <= k → k * BSIZE < i_size ip →
  ∃ c' l, bmap i k c f = Ret (fblock (t_data t) ip k) c' (set_flog l f) ∧ same_ctx c c' ∧ fabs c' (set_flog l f) t.
Proof.
  intros Hp Hk0 Hk. pose proof Hp as [Ha Hc He Hdv Hsz Hblk Hind Hbf].
  destruct (Hblk k Hk0 Hk) as (Hnz & Hrg & Hnh). unfold bmap. kstep (geti_ret c f i ip He).
  unfold fblock in *. destruct (Z.ltb_spec k NDIRECT) as [Hlt|Hge].
  - rewrite (proj2 (Z.eqb_neq _ _)) by exact Hnz. exists c, (fs_log f). by destruct f.
  - unfold MAXFILE in Hsz. rewrite (proj2 (Z.ltb_lt (k - NDIRECT) NINDIRECT)) by (uconst; lia).
    destruct (Hind ltac:(unfold NDIRECT in *; uconst; lia)) as (Hiz & Hir & Hih).
    set (a := nth (Z.to_nat NDIRECT) (i_addrs ip) 0) in *. rewrite (proj2 (Z.eqb_neq a 0)) by done.
    rewrite (kbind_ret _ _ _ _ a c f) by done. cbn beta. rewrite (proj2 (Z.eqb_neq a 0)) by done. rewrite Hdv.
    destruct (fread_ok c f t a Ha Hc Hir Hih Hbf) as (j & l1 & c' & l & E1 & E2 & E3 & Hc' & Ht').
    exists c', l. split; [|done]. kstep E1. kstep E2. rewrite (proj2 (Z.eqb_neq (ind_get _ _) 0)) by exact Hnz.
    rewrite (kbind_ret _ _ _ _ (ind_get (t_data t a) (k - NDIRECT)) c (set_flog l1 f)) by done. cbn beta. by kstep E3.
Qed.

Lemma rw_chunk_range (n tot off : Z) : tot < n → 0 < rw_chunk n tot off <= n - tot ∧ off mod BSIZE + rw_chunk n tot off <= BSIZE.
Proof. intros. unfold rw_chunk. pose proof (Z.mod_pos_bound off BSIZE ltac:(done)). lia. Qed.

(** One step of a loop over blocks uses one unit of fuel. *)
Lemma rw_step (n tot off : Z) fuel :
  0 <= off → tot < n → n - tot + off mod BSIZE <= BSIZE * Z.of_nat (S fuel) →
  let m := rw_chunk n tot off in
  tot + m < n → n - (tot + m) + (off + m) mod BSIZE <= BSIZE * Z.of_nat fuel.
Proof.
  intros Ho Ht Hf m Hm. unfold m, rw_chunk in *. pose proof (Z.mod_pos_bound off BSIZE ltac:(done)).
  destruct (Z.min_spec (n - tot) (BSIZE - off mod BSIZE)) as [[_ E]|[_ E]]; rewrite E in *; [lia|].
  assert (E0 : (off + (BSIZE - off mod BSIZE)) mod BSIZE = 0).
  { replace (off + (BSIZE - off mod BSIZE)) with (0 + (off / BSIZE + 1) * BSIZE);
      [by rewrite Z.mod_add|]. pose proof (Z.div_mod off BSIZE ltac:(done)). lia. }
  rewrite E0. lia.
Qed.

Lemma readi_loop_ok fuel c f t i ip (off n tot : Z) acc :
  file_pre c f t i ip → 0 <= off → 0 <= tot <= n → off + (n - tot) <= i_size ip →
  (tot < n → n - tot + off mod BSIZE <= BSIZE * Z.of_nat fuel) →
  ∃ c' l, readi_loop fuel i KernelVar off n tot acc c f =
      Ret (n, acc ++ fcontents (t_data t) ip off (n - tot)) c' (set_flog l f) ∧
    same_ctx c c' ∧ fabs c' (set_flog l f) t.
Proof.
  revert c f off tot acc. induction fuel as [|fuel IH]; intros c f off tot acc Hp Ho Ht Hsz Hf;
    cbn [readi_loop]; destruct (Z.ltb_spec tot n) as [Hlt|Hge];
    try (assert (tot = n) as -> by lia; exists c, (fs_log f); rewrite Z.sub_diag;
         unfold fcontents; rewrite app_nil_r; split_and!; [by destruct f|done..|apply (fp_abs _ _ _ _ _ Hp)]).
  { pose proof (Z.mod_pos_bound off BSIZE ltac:(done)). specialize (Hf Hlt). lia. }
  specialize (Hf Hlt). set (m := rw_chunk n tot off). destruct (rw_chunk_range n tot off Hlt) as [Hm1 Hm2]. fold m in Hm1, Hm2.
  pose proof (Z.div_pos off BSIZE Ho ltac:(done)) as Hq. pose proof (Z.div_mod off BSIZE ltac:(done)) as Hdm.
  pose proof (Z.mod_pos_bound off BSIZE ltac:(done)) as Hmb.
  destruct (bmap_ok c f t i ip (off / BSIZE) Hp Hq) as (c1 & l1 & E1 & Hc1 & Ht1); [lia|].
  pose proof (file_pre_same _ _ _ _ _ _ _ Hc1 Ht1 Hp) as Hp1.
  destruct (fp_blocks _ _ _ _ _ Hp (off / BSIZE) Hq ltac:(lia)) as (Hnz & Hrg & Hnh).
  set (a := fblock (t_data t) ip (off / BSIZE)) in *.
  destruct (fread_ok c1 (set_flog l1 f) t a Ht1) as (j & l2 & c2 & l3 & E2 & E3 & E4 & Hc2 & Ht2);
    [apply Hp1|done|done|apply Hp|].
  rewrite !set_flog_twice in E2, E3. rewrite (set_flog_twice l2), (set_flog_twice l3) in E4.
  pose proof (file_pre_same c1 c2 (set_flog l1 f) l3 t i ip Hc2 Ht2 Hp1) as Hp2.
  destruct (IH c2 (set_flog l3 f) (off + m) (tot + m) (acc ++ slice (t_data t a) (Z.to_nat (off mod BSIZE)) (Z.to_nat m)))
    as (c3 & l4 & E5 & Hc3 & Ht3); [done|lia|lia|lia|intros; by apply rw_step|].
  exists c3, l4. split; [|split; [by transitivity c1; [|transitivity c2]|exact Ht3]].
  kstep E1. rewrite (proj2 (Z.eqb_neq a 0)) by done. kstep (geti_ret c1 (set_flog l1 f) i ip (fp_entry _ _ _ _ _ Hp1)).
  rewrite (fp_dev _ _ _ _ _ Hp). kstep E2. kstep E3. fold m. rewrite (kbind_ret _ _ _ _ 0 c1 (set_flog l2 f)) by done.
  cbn beta. cbn [Z.eqb]. kstep E4. rewrite set_flog_twice in E5.
  etransitivity; [exact E5|]. do 2 f_equal. rewrite <- app_assoc. f_equal.
  unfold a. rewrite <- (fcontents_slice (t_data t) ip off m) by (lia || (eapply tabs_len; [apply Ht1|done])).
  rewrite <- fcontents_app by lia. f_equal. lia.
Qed.

Lemma readi_ok c f t i ip (off n : Z) :
  file_pre c f t i ip → 0 <= off < 2 ^ 32 → 0 <= n < 2 ^ 32 →
  let r := if (i_size ip <? off) || (2 ^ 32 <=? off + n) then 0 else Z.min n (i_size ip - off) in
  ∃ c' l, readi i KernelVar off n c f = Ret (r, fcontents (t_data t) ip off r) c' (set_flog l f) ∧
    same_ctx c c' ∧ fabs c' (set_flog l f) t.
Proof.
  intros Hp Ho Hn r. pose proof (fp_size _ _ _ _ _ Hp) as Hsz. unfold readi. kstep (geti_ret c f i ip (fp_entry _ _ _ _ _ Hp)).
  assert (Ew : (u32 (off + n) <? off) = (2 ^ 32 <=? off + n)).
  { destruct (Z.leb_spec (2 ^ 32) (off + n)) as [Hw|Hw].
    - apply Z.ltb_lt. unfold u32. rewrite <- (Z.mod_add _ (-1)) by lia. rewrite Z.mod_small by lia. lia.
    - apply Z.ltb_ge. rewrite u32_small by lia. lia. }
  rewrite Ew. unfold r. clear r. destruct (_ || _) eqn:Eb.
  { exists c, (fs_log f). split_and!; [by destruct f|done..|apply Hp]. }
  apply orb_false_iff in Eb as [E1%Z.ltb_ge E2%Z.leb_gt]. rewrite u32_small by lia.
  set (r := Z.min n (i_size ip - off)). assert (Er : (if i_size ip <? off + n then i_size ip - off else n) = r).
  { unfold r. destruct (Z.ltb_spec (i_size ip) (off + n)); lia. }
  rewrite Er. destruct (readi_loop_ok (rw_fuel r) c f t i ip off r 0 [] Hp) as (c' & l & E & Hc' & Ht'); [lia|lia|lia| |].
  - intros _. unfold rw_fuel. pose proof (Z.mod_pos_bound off BSIZE ltac:(done)). pose proof (Z.mod_pos_bound r BSIZE ltac:(done)).
    pose proof (Z.div_mod r BSIZE ltac:(done)). pose proof (Z.div_pos r BSIZE ltac:(lia) ltac:(done)).
    rewrite Z2Nat.id by lia. lia.
  - exists c', l. by rewrite Z.sub_0_r in E.
Qed.

(** C6. [readi] into kernel memory, of a file whose blocks are all allocated, returns the bytes of the file from [off], as many as asked for
    or as the file has after [off], across block boundaries and through the indirect block, and leaves
    every block of the device as it was; beyond the end, or when [off + n] wraps, it returns 0. *)
Theorem readi_reads c f t i ip (off n : Z) :
  file_pre c f t i ip → 0 <= off < 2 ^ 32 → 0 <= n < 2 ^ 32 →
  let r := if (i_size ip <? off) || (2 ^ 32 <=? off + n) then 0 else Z.min n (i_size ip - off) in
  ∃ c' l, readi i KernelVar off n c f = Ret (r, fcontents (t_data t) ip off r) c' (set_flog l f) ∧
    same_ctx c c' ∧ fabs c' (set_flog l f) t.
Proof. apply readi_ok. Qed.
End contents.

(** ** Witnesses: the file system over the log and the cache of bio.c

    A device of 80 blocks: log from block 2, inodes from 33, bitmap in 44, a file in blocks 45 and 46. *)
#[local] Instance no_user : UserOps unit := {
  u_copyout _ _ := kret (-1);
  u_copyin _ _ := kret (-1, [])
}.

Definition demo_img : mem := λ x,
  if (44 * 1024 <=? x) && (x <? 44 * 1024 + 5) then 255
  else if x =? 44 * 1024 + 5 then 127
  else if (45 * 1024 <=? x) && (x <? 47 * 1024) then x mod 251
  else 0.
Definition demo_sb : superblock := mksb FSMAGIC 80 33 176 30 2 33 44.
Definition demo_inode : inode :=
  mkinode ROOTDEV 1 1 (mksleep true 1) true T_FILE 0 0 1 1500 ([45; 46] ++ replicate 11 0).
Definition demo_inodes : list inode := demo_inode :: replicate 49 inode0.

Lemma demo_mount :
  ∃ c (f : fsys (lsys bdev) unit) t, fabs c f t ∧ tx_clear c ∧ held c = [] ∧ curpid c = 1 ∧ fs_sb f = demo_sb ∧
    fs_inode f = demo_inodes ∧ t_size t = 80 ∧ t_start t = 2 ∧ t_held t = [] ∧ t_logged t = [] ∧
    ∀ b, 33 <= b < 80 → t_data t b = mread demo_img (b * BSIZE) bsize.
Proof.
  destruct (tx_boot demo_img 80 2) as (c & l & data & _ & Hh & Hp & Ht & Hd);
    [lia|by uconst|vm_compute; reflexivity|].
  exists c, (mkfs l demo_sb demo_inodes tt), (mktv 80 2 data [] []). unfold fabs. rewrite Hp.
  split; [exact Ht|]. split; [|split_and!; try done; intros; apply Hd; lia].
  unfold tx_clear, bio_clear. rewrite Hh. split_and!; [|intros i|]; apply not_elem_of_nil.
Qed.

Lemma demo_home b : 33 <= b < 80 → home 2 80 b.
Proof. intros. unfold home, LOGBLOCKS, MAXOPBLOCKS. lia. Qed.

Lemma demo_bblock b : 0 <= b < 80 → BBLOCK b demo_sb = 44.
Proof. intros. unfold BBLOCK, BPB, BSIZE. by rewrite Z.div_small by lia. Qed.

(** Blocks below 47 are in use in the image. *)
Lemma demo_bits (b : Z) : 0 <= b < 47 → bit_get (mread demo_img (44 * BSIZE) bsize) b = true.
Proof.
  intros Hb. assert (Hall : Forall (λ k, bit_get (mread demo_img (44 * BSIZE) bsize) (Z.of_nat k) = true) (seq 0 47)).
  { apply Forall_forall. intros k Hk. revert k Hk. apply Forall_forall. apply (bool_decide_unpack _).
    vm_compute. exact I. }
  rewrite Forall_forall in Hall. specialize (Hall (Z.to_nat b)). rewrite Z2Nat.id in Hall by lia. apply Hall.
  apply elem_of_seq. lia.
Qed.

Lemma balloc_allocates_witness :
  ∃ c (f : fsys (lsys bdev) unit) t r c' f' t', balloc_pre c f t ∧ balloc ROOTDEV c f = Ret r c' f' ∧ fabs c' f' t' ∧
    bused (fs_sb f) (t_data t) 47 = false ∧ r <= 47.
Proof.
  destruct demo_mount as (c & f & t & Ha & Hc & _ & _ & Esb & _ & Esz & Est & Eh & El & Hd).
  assert (Hu : ∀ b : Z, 0 <= b < 80 → bused (fs_sb f) (t_data t) b = bit_get (mread demo_img (44 * BSIZE) bsize) b).
  { intros b Hb. unfold bused. rewrite Esb, demo_bblock, Hd by lia. by rewrite Z.mod_small by (unfold BPB, BSIZE; lia). }
  assert (Hp : balloc_pre c f t).
  { split; rewrite ?Esb, ?Esz, ?Est, ?Eh, ?El; try done.
    - rewrite <- Esb, Hu by lia. by apply demo_bits.
    - intros b Hb. rewrite demo_bblock by done. by apply demo_home.
    - intros b Hb. rewrite <- Esb, Hu by done. intros Hf.
      assert (47 <= b) by (destruct (decide (b < 47)); [by rewrite demo_bits in Hf by lia|lia]).
      split_and!; [apply demo_home; lia..|apply not_elem_of_nil|]. intros b' Hb'. rewrite Esb, demo_bblock by done. lia.
    - intros. apply not_elem_of_nil.
    - unfold t_free. rewrite Eh, El. done. }
  assert (H47 : bused (fs_sb f) (t_data t) 47 = false) by (rewrite Hu by lia; vm_compute; reflexivity).
  destruct (balloc_allocates c f t Hp) as (r & c' & f' & t' & E & _ & Ht' & _ & _ & Hr).
  exists c, f, t, r, c', f', t'. split_and!; [exact Hp|exact E|exact Ht'|exact H47|].
  destruct Hr as [(-> & _ & Hall)|(Hr & _ & Hall & _)]; [lia|].
  destruct (decide (r <= 47)); [done|]. rewrite Hall in H47 by lia. done.
Defined.

Lemma inode_roundtrip_witness :
  ∃ c (f : fsys (lsys bdev) unit) c' f', fs_inode f !! 0%nat = Some demo_inode ∧
    (iupdate 0 ;;; iunlock 0 ;;; modi 0 (evict (mkdinode 7 7 7 7 7 [])) ;;; ilock 0) c f = Ret tt c' f' ∧
    fs_inode f' = fs_inode f.
Proof.
  destruct demo_mount as (c & f & t & Ha & Hc & Hh & Hcp & Esb & Ei & Esz & Est & Eh & El & Hd).
  destruct (inode_roundtrip c f t 0 demo_inode (mkdinode 7 7 7 7 7 [])) as (c' & f' & t' & E & _ & Ef & _).
  - split; rewrite ?Esb, ?Esz, ?Est, ?Eh, ?El; try done.
    + by rewrite Ei.
    + unfold dinode_ok. cbn [demo_inode inode_dinode d_type d_major d_minor d_nlink d_size d_addrs i_type i_major i_minor i_nlink i_size i_addrs].
      unfold T_FILE. split_and!; try lia; [done|]. repeat constructor; lia.
    + by apply demo_home.
    + apply not_elem_of_nil.
    + unfold t_free. rewrite Eh, El. done.
  - rewrite Hh. apply not_elem_of_nil.
  - by rewrite Hcp.
  - done.
  - done.
  - done.
  - exists c, f, c', f'. split_and!; [by rewrite Ei|exact E|exact Ef].
Defined.

Lemma iget_unique_witness :
  ∃ (f : fsys (lsys bdev) unit) i c' f', iget ROOTDEV 1 (mkctx [] [] 1) f = Ret i c' f' ∧ i = 0%nat.
Proof.
  destruct demo_mount as (c & f & t & _ & _ & _ & _ & _ & Ei & _).
  assert (Hl : ∀ i ip, demo_inodes !! i = Some ip → (i = 0%nat ∧ ip = demo_inode) ∨ ip = inode0).
  { intros [|i] ip Hi; [left; by injection Hi as <-|right]. by apply lookup_replicate in Hi as [-> _]. }
  destruct (iget_unique (mkctx [] [] 1) f ROOTDEV 1) as [(i & ip' & E & _ & ip & Hi & _ & Hc)|[_ Hp]].
  - rewrite Ei. split.
    + intros i ip [[-> ->]| ->]%Hl; done.
    + intros i j ip jp Hi Hj. apply Hl in Hi as [[-> ->]| ->], Hj as [[-> ->]| ->]; done.
  - apply not_elem_of_nil.
  - rewrite Ei. intros i ip [[-> ->]| ->]%Hl; done.
  - eexists f, i, _, _. split; [exact E|]. destruct Hc as [[(H1 & _) _]|(_ & _ & _ & _ & Hn)].
    + rewrite Ei in Hi. apply Hl in Hi as [[-> _]| ->]; done.
    + exfalso. apply (Hn 0%nat demo_inode); [by rewrite Ei|done].
  - exfalso. rewrite Ei in Hp. destruct (Hp 0%nat demo_inode eq_refl) as [_ Hn]. by apply Hn.
Defined.

Lemma readi_reads_witness :
  ∃ c (f : fsys (lsys bdev) unit) c' f', readi 0 KernelVar 1020 10 c f =
    Ret (10, (λ k : nat, (45 * 1024 + 1020 + Z.of_nat k) mod 251) <$> seq 0 10) c' f'.
Proof.
  destruct demo_mount as (c & f & t & Ha & Hc & Hh & Hcp & Esb & Ei & Esz & Est & Eh & El & Hd).
  destruct (readi_reads c f t 0 demo_inode 1020 10) as (c' & l & E & _).
  - split; rewrite ?Esb, ?Esz, ?Est, ?Eh, ?El; try done.
    + by rewrite Ei.
    + intros k Hk Hk2. change (i_size demo_inode) with 1500 in Hk2. unfold BSIZE in Hk2. unfold readable. rewrite Eh, Esz.
      assert (k = 0 ∨ k = 1) as [-> | ->] by lia; (split_and!; [done|done|done|apply not_elem_of_nil]).
    + unfold t_free. rewrite Eh, El. done.
  - lia.
  - lia.
  - exists c, f, c', (set_flog l f). rewrite E. change (fcontents (t_data t) demo_inode 1020 _) with (fcontents (t_data t) demo_inode 1020 10).
    assert (Ex : fcontents (t_data t) demo_inode 1020 10 = fcontents (λ b, mread demo_img (b * BSIZE) bsize) demo_inode 1020 10).
    { apply list_fmap_ext. intros i k Hk. apply lookup_seq in Hk as [-> Hk]. change (Z.to_nat 10) with 10%nat in Hk. unfold fbyte.
      assert (Eb : (1020 + Z.of_nat (0 + i)) / BSIZE = 0 ∨ (1020 + Z.of_nat (0 + i)) / BSIZE = 1).
      { unfold BSIZE. pose proof (Z.div_mod (1020 + Z.of_nat (0 + i)) 1024 ltac:(lia)).
        pose proof (Z.mod_pos_bound (1020 + Z.of_nat (0 + i)) 1024 ltac:(lia)). lia. }
      destruct Eb as [-> | ->].
      - change (fblock _ demo_inode 0) with 45. by rewrite Hd by lia.
      - change (fblock _ demo_inode 1) with 46. by rewrite Hd by lia. }
    rewrite Ex. do 2 f_equal.
Defined.
