(* ===== verification/Dir.v ===== *)
(** * Directories: what [dirlookup] finds (kernel/fs.c)

    A directory is the list of its 16-byte entries; a name is the bytes up to the first NUL, at most DIRSIZ of
    them.  [dirlookup] is shown to find the first used entry with the given name, reading it through
    [readi], bmap and the buffer cache. *)

From stdpp Require Import base list functions sets numbers strings.
From Stdlib Require Import ZArith Lia.
From S2P Require Import Prelude Machine Kstring BlockCache Sleeplock Bio Log TxStore Fs.

(** ** Names *)

(** The string in a field of [n] bytes. *)
Fixpoint cstr (n : nat) (l : list Z) : list Z :=
  match n, l with
  | S n', x :: l' => if x =? 0 then [] else x :: cstr n' l'
  | _, _ => []
  end.
Abbreviation entry_name := (cstr (Z.to_nat DIRSIZ)).

Lemma name_at_cstr n : ∀ m a l,
  (∀ k, (k < n)%nat → m (a + Z.of_nat k) = nth k l 0) → name_at m a n = cstr n l.
Proof.
  induction n as [|n IH]; intros m a l H; [done|]. cbn [name_at].
  pose proof (H 0%nat ltac:(lia)) as E. rewrite Z.add_0_r in E. rewrite E. destruct l as [|x l]; [done|]. cbn [nth cstr].
  destruct (x =? 0); [done|]. f_equal. apply IH. intros k Hk. specialize (H (S k) ltac:(lia)). cbn [nth] in H. rewrite <- H. f_equal. lia.
Qed.

Lemma name_mem_first s t (k : nat) : (k < 14)%nat → name_mem s t (0 + Z.of_nat k) = nth k s 0.
Proof.
  intros Hk. unfold name_mem. rewrite mwrite_out by lia. unfold mwrite. rewrite (proj2 (Z.leb_le _ _)) by lia.
  destruct (Z.ltb_spec (0 + Z.of_nat k) (0 + Z.of_nat (length s))); cbn [andb].
  - f_equal. lia.
  - symmetry. apply nth_overflow. lia.
Qed.

Lemma name_mem_second s t (k : nat) : (length s ≤ 32)%nat → name_mem s t (32 + Z.of_nat k) = nth k t 0.
Proof.
  intros Hs. unfold name_mem, mwrite. rewrite (proj2 (Z.leb_le 32 _)) by lia.
  destruct (Z.ltb_spec (32 + Z.of_nat k) (32 + Z.of_nat (length t))); cbn [andb].
  - f_equal. lia.
  - rewrite (proj2 (Z.ltb_ge (32 + Z.of_nat k) (0 + Z.of_nat (length s)))) by lia. rewrite andb_false_r. symmetry. apply nth_overflow. lia.
Qed.

Lemma namecmp_zero s t : (length s ≤ 32)%nat → namecmp s t = 0 ↔ entry_name s = entry_name t.
Proof.
  intros Hs. unfold namecmp, strncmp. rewrite strncmp_loop_zero. change (Z.to_nat DIRSIZ) with 14%nat.
  rewrite (name_at_cstr 14 _ 0 s) by (intros; by apply name_mem_first).
  rewrite (name_at_cstr 14 _ 32 t) by (intros; by apply name_mem_second). done.
Qed.

(** A name stored by [strncpy] in an entry is the name read from it. *)
Lemma entry_name_pad name : entry_name (dirent_pad name) = entry_name name.
Proof.
  unfold dirent_pad. change (Z.to_nat DIRSIZ) with 14%nat. set (m := strncpy _ 0 32 DIRSIZ).
  rewrite <- (name_at_cstr 14 m 0 (mread m 0 14)), <- (name_at_cstr 14 (name_mem [] name) 32 name).
  - destruct (strncpy_strncmp (name_mem [] name) 0 32 DIRSIZ) as (E & _); [done|unfold DIRSIZ; lia|]. exact E.
  - intros. apply name_mem_second. simpl. lia.
  - intros k Hk. symmetry. apply nth_lookup_Some. unfold mread. rewrite list_lookup_fmap, lookup_seq_lt by done. done.
Qed.

Lemma cstr_id n l : (length l ≤ n)%nat → 0 ∉ l → cstr n l = l.
Proof.
  revert n. induction l as [|x l IH]; intros [|n] Hl H0; simpl in *; try done; [lia|].
  rewrite (proj2 (Z.eqb_neq x 0)) by set_solver. by rewrite IH by (lia || set_solver).
Qed.

(** ** Lookup *)

Definition entry_at (data : Z → block) (ip : inode) (k : nat) : list Z :=
  fcontents data ip (sizeof_dirent * Z.of_nat k) sizeof_dirent.
(** The entries of a directory, in order. *)
Definition dir_entries (data : Z → block) (ip : inode) : list (list Z) :=
  entry_at data ip <$> seq 0 (Z.to_nat (i_size ip / sizeof_dirent)).

(** An entry in use whose name is [name]. *)
Definition entry_matches (name de : list Z) : Prop := dirent_inum de ≠ 0 ∧ entry_name name = entry_name (dirent_name de).
#[global] Instance entry_matches_dec name de : Decision (entry_matches name de).
Proof. unfold entry_matches. apply _. Defined.

Section lookup.
Context {L U : Type} `{TxStore L} `{UserOps U}.
Abbreviation FS := (fsys L U).
Implicit Types (f : FS) (t : tview) (c : kctx) (ip : inode) (i : nat).

Lemma read_dirent_ok c f t i ip (k : nat) msg :
  file_pre c f t i ip → sizeof_dirent * Z.of_nat k + sizeof_dirent <= i_size ip →
  ∃ c' l, read_dirent i (sizeof_dirent * Z.of_nat k) msg c f = Ret (entry_at (t_data t) ip k) c' (set_flog l f) ∧
    same_ctx c c' ∧ fabs c' (set_flog l f) t.
Proof.
  intros Hp Hk. pose proof (fp_size _ _ _ _ _ Hp) as Hsz. unfold sizeof_dirent, MAXFILE, NDIRECT, NINDIRECT, BSIZE in *.
  change (1024 / 4) with 256 in *.
  destruct (readi_ok c f t i ip (16 * Z.of_nat k) 16 Hp) as (c' & l & E & Hc & Ht); [lia|lia|].
  rewrite (proj2 (Z.ltb_ge _ _)), (proj2 (Z.leb_gt _ _)) in E by lia. cbn [orb] in E. rewrite Z.min_l in E by lia.
  exists c', l. split; [|done]. unfold read_dirent, sizeof_dirent. kstep E. done.
Qed.

(** The search from entry [k], with [n] entries left. *)
Lemma dirlookup_loop_ok n : ∀ fuel c f t i ip name (k : nat),
  file_pre c f t i ip → (length name ≤ 32)%nat → i_size ip = sizeof_dirent * Z.of_nat (k + n) → (n ≤ fuel)%nat →
  ∃ c' l, same_ctx c c' ∧ fabs c' (set_flog l f) t ∧
    dirlookup_loop fuel i name (sizeof_dirent * Z.of_nat k) c f =
      match list_find (entry_matches name) (entry_at (t_data t) ip <$> seq k n) with
      | Some (j, de) => (do x <- iget ROOTDEV (dirent_inum de); kret (Some (x, sizeof_dirent * Z.of_nat (k + j)))) c' (set_flog l f)
      | None => Ret None c' (set_flog l f)
      end.
Proof.
  induction n as [|n IH]; intros fuel c f t i ip name k Hp Hname Hsz Hfuel.
  - exists c, (fs_log f). split_and!; [done|destruct f; apply Hp|]. cbn [seq fmap list_fmap list_find].
    destruct fuel; cbn [dirlookup_loop]; kstep (geti_ret c f i ip (fp_entry _ _ _ _ _ Hp));
      rewrite (proj2 (Z.ltb_ge _ _)) by lia; by destruct f.
  - destruct fuel as [|fuel]; [lia|]. cbn [dirlookup_loop]. pose proof (fp_size _ _ _ _ _ Hp) as Hmax.
    unfold MAXFILE, NDIRECT, NINDIRECT, BSIZE in Hmax. change (1024 / 4) with 256 in Hmax.
    kstep (geti_ret c f i ip (fp_entry _ _ _ _ _ Hp)). rewrite (proj2 (Z.ltb_lt _ _)) by (unfold sizeof_dirent in *; lia).
    destruct (read_dirent_ok c f t i ip k "dirlookup read" Hp) as (c1 & l1 & E1 & Hc1 & Ht1); [unfold sizeof_dirent in *; lia|].
    kstep E1. set (de := entry_at (t_data t) ip k). cbn [seq fmap list_fmap list_find].
    pose proof (file_pre_same _ _ _ _ _ _ _ Hc1 Ht1 Hp) as Hp1.
    assert (Hu : u32 (sizeof_dirent * Z.of_nat k + sizeof_dirent) = sizeof_dirent * Z.of_nat (S k)) by (unfold sizeof_dirent in *; rewrite u32_small; lia).
    destruct (IH fuel c1 (set_flog l1 f) t i ip name (S k) Hp1 Hname) as (c2 & l2 & Hc2 & Ht2 & E2); [rewrite Hsz; f_equal; lia|lia|].
    rewrite (set_flog_twice l2 l1 f) in Ht2. fold (dirent_inum de).
    destruct (decide (entry_matches name de)) as [[Hi Hn]|Hno].
    + exists c1, l1. split_and!; [done|done|]. fold de. rewrite decide_True by done. rewrite (proj2 (Z.eqb_neq _ _)) by done.
      rewrite (proj2 (Z.eqb_eq _ 0)) by (by apply namecmp_zero).
      kstep (geti_ret c1 (set_flog l1 f) i ip (fp_entry _ _ _ _ _ Hp1)). rewrite (fp_dev _ _ _ _ _ Hp), Nat.add_0_r. done.
    + exists c2, l2. split_and!; [by transitivity c1|done|]. fold de. rewrite (decide_False (P := entry_matches name de)) by done. rewrite Hu.
      assert (E3 : dirlookup_loop fuel i name (sizeof_dirent * Z.of_nat (S k)) c1 (set_flog l1 f) =
        match prod_map S id <$> list_find (entry_matches name) (entry_at (t_data t) ip <$> seq (S k) n) with
        | Some (j, de) => (do x <- iget ROOTDEV (dirent_inum de); kret (Some (x, sizeof_dirent * Z.of_nat (k + j)))) c2 (set_flog l2 f)
        | None => Ret None c2 (set_flog l2 f)
        end).
      { rewrite E2. rewrite (set_flog_twice l2 l1 f). destruct (list_find _ _) as [[j x]|]; [|done].
        cbn [fmap option_fmap option_map prod_map fst snd id]. by replace (S k + j)%nat with (k + S j)%nat by lia. }
      destruct (Z.eqb_spec (dirent_inum de) 0) as [|Hi]; [exact E3|].
      rewrite (proj2 (Z.eqb_neq (namecmp _ _) 0)); [exact E3|]. intros E. apply Hno. split; [done|]. by apply namecmp_zero.
Qed.

Lemma dirlookup_ok c f t i ip name :
  file_pre c f t i ip → i_type ip = T_DIR → i_size ip mod sizeof_dirent = 0 → (length name ≤ 32)%nat →
  ∃ c' l, same_ctx c c' ∧ fabs c' (set_flog l f) t ∧
    dirlookup i name c f =
      match list_find (entry_matches name) (dir_entries (t_data t) ip) with
      | Some (k, de) => (do x <- iget ROOTDEV (dirent_inum de); kret (Some (x, sizeof_dirent * Z.of_nat k))) c' (set_flog l f)
      | None => Ret None c' (set_flog l f)
      end.
Proof.
  intros Hp Hty Hm Hn. pose proof (fp_size _ _ _ _ _ Hp) as Hmax. pose proof (Z.div_mod (i_size ip) sizeof_dirent ltac:(done)) as Hdm.
  pose proof (Z.div_pos (i_size ip) sizeof_dirent ltac:(lia) ltac:(done)) as Hq.
  destruct (dirlookup_loop_ok (Z.to_nat (i_size ip / sizeof_dirent)) (dir_fuel (i_size ip)) c f t i ip name 0 Hp Hn) as (c' & l & Hc & Ht & E);
    [rewrite Nat.add_0_l, Z2Nat.id by done; lia|unfold dir_fuel; lia|].
  exists c', l. split_and!; [done|done|]. unfold dirlookup. kstep (geti_ret c f i ip (fp_entry _ _ _ _ _ Hp)).
  rewrite Hty. exact E.
Qed.

(** [dirlookup] in a directory without holes returns the inode of the first entry in use that has the name, comparing the
    bytes up to a NUL or DIRSIZ of them, with the offset of that entry, and nothing when no entry has it; the disk is not
    changed. *)
Theorem dirlookup_finds c f t i ip name :
  file_pre c f t i ip → i_type ip = T_DIR → i_size ip mod sizeof_dirent = 0 → (length name ≤ 32)%nat →
  ∃ c' l, same_ctx c c' ∧ fabs c' (set_flog l f) t ∧
    dirlookup i name c f =
      match list_find (entry_matches name) (dir_entries (t_data t) ip) with
      | Some (k, de) => (do x <- iget ROOTDEV (dirent_inum de); kret (Some (x, sizeof_dirent * Z.of_nat k))) c' (set_flog l f)
      | None => Ret None c' (set_flog l f)
      end.
Proof. apply dirlookup_ok. Qed.
End lookup.

(** ** Witness *)

#[local] Instance no_user_dir : UserOps unit := {
  u_copyout _ _ := kret (-1);
  u_copyin _ _ := kret (-1, [])
}.

(** The file of the demonstration image of file Fs, as a directory. *)
Definition demo_dir : inode := set_isize 1504 (set_itype T_DIR demo_inode).

Lemma dirlookup_finds_witness :
  ∃ c (f : fsys (lsys bdev) unit) t c' l, fs_inode f !! 0%nat = Some demo_dir ∧ fabs c' (set_flog l f) t ∧
    dirlookup 0 [7; 8; 9] c f =
      match list_find (entry_matches [7; 8; 9]) (dir_entries (t_data t) demo_dir) with
      | Some (k, de) => (do x <- iget ROOTDEV (dirent_inum de); kret (Some (x, sizeof_dirent * Z.of_nat k))) c' (set_flog l f)
      | None => Ret None c' (set_flog l f)
      end.
Proof.
  destruct demo_mount as (c & f0 & t & Ha & Hc & _ & _ & Esb & Ei & Esz & Est & Eh & El & Hd).
  set (f := set_inodes [demo_dir] f0).
  assert (Hp : file_pre c f t 0 demo_dir).
  { split; try done.
    - intros k Hk0 Hk. cbn [demo_dir set_isize i_size] in Hk. uconst. unfold readable. rewrite Eh, Esz.
      assert (k = 0 ∨ k = 1) as [-> | ->] by lia; (split_and!; [done|done..|apply not_elem_of_nil]).
    - unfold t_free. rewrite Eh, El. done. }
  destruct (dirlookup_finds c f t 0 demo_dir [7; 8; 9] Hp) as (c' & l & _ & Ht & E); [reflexivity|reflexivity|simpl; lia|].
  exists c, f, t, c', l. split_and!; [reflexivity|exact Ht|exact E].
Defined.
