(* ===== verification/Vm.v ===== *)
(** * Virtual memory (kernel/vm.c)

    Page tables are pages of physical memory, so every function here runs on the state of file
    Kalloc: the memory, the free list and the reference counts.  The linker symbols [end], [etext]
    and [trampoline] are parameters, and so are the fields of the running process that [vmfault]
    reads.

    The operations come first.  Then [pt_ok] says that the memory holds a three-level page table made
    of the pages of an abstract tree, and [pte_at] is the flat map from virtual pages to entries it
    stands for; the lemmas show what each operation does to that map. *)

From stdpp Require Import base list functions sets relations numbers strings.
From Stdlib Require Import ZArith Lia.
From S2P Require Import Prelude Machine Kstring Kalloc.

(** ** Page-table entries (riscv.h) *)

Definition PTE_V : Z := Z.shiftl 1 0.
Definition PTE_R : Z := Z.shiftl 1 1.
Definition PTE_W : Z := Z.shiftl 1 2.
Definition PTE_X : Z := Z.shiftl 1 3.
Definition PTE_U : Z := Z.shiftl 1 4.
Definition PTE_A : Z := Z.shiftl 1 6.
Definition PTE_D : Z := Z.shiftl 1 7.
Definition PTE_COW : Z := Z.shiftl 1 8.
Definition PTE_THEAD_MAEE : Z := Z.lor (Z.lor (Z.shiftl 1 62) (Z.shiftl 1 61)) (Z.shiftl 1 60).
Definition PTE_THEAD_SO : Z := Z.shiftl 1 63.
Definition PTE_IO : Z := Z.lor (Z.lor PTE_R PTE_W) PTE_THEAD_SO.

(** [a | b | ...] *)
Definition flags (l : list Z) : Z := foldr Z.lor 0 l.

Definition PA2PTE (pa : Z) : Z := u64 (Z.shiftl (Z.shiftr pa 12) 10).
Definition PTE2PA (pte : Z) : Z := Z.land (u64 (Z.shiftl (Z.shiftr pte 10) 12)) 0x00FFFFFFFFFFFF00.
Definition PX (level va : Z) : Z := Z.land (Z.shiftr va (12 + 9 * level)) 0x1FF.

(** The mask that removes the physical page number from an entry. *)
Definition pte_attrs (pte : Z) : Z := Z.land pte (u64 (Z.lnot 0x003FFFFFFFFFFC00)).

(** Loads and stores through a pointer to an entry, and [memmove], which copies the bytes as they were
    ([mcopy_memmove]). *)
Definition rd (a : Z) : M kmem Z := kgets (λ k, load64 (kmem_mem k) a).
Definition wr (a v : Z) : M kmem unit := kmod (λ k, set_mem (store64 (kmem_mem k) a v) k).
Definition kmemmove (dst src n : Z) : M kmem unit :=
  kmod (λ k, set_mem (mcopy (kmem_mem k) dst src n) k).

(** ** Basic page-table operations *)

(** The loop of [walk] from level [l] down to level 1. *)
Fixpoint walk_loop (l : nat) (pagetable va : Z) (alloc : bool) : M kmem Z :=
  match l with
  | O => kret (pagetable + 8 * PX 0 va)
  | S l' =>
      let pte := pagetable + 8 * PX (Z.of_nat l) va in
      do v <- rd pte;
      if has v PTE_V then walk_loop l' (PTE2PA v) va alloc
      else if alloc then
        do pt' <- kalloc;
        if pt' =? 0 then kret 0
        else
          memset_page pt' 0 ;;;
          wr pte (Z.lor (PA2PTE pt') PTE_V) ;;;
          walk_loop l' pt' va alloc
      else kret 0
  end.

Definition walk (pagetable va : Z) (alloc : bool) : M kmem Z :=
  if MAXVA <=? va then panic "walk" else walk_loop 2 pagetable va alloc.

(** The loop of [mappages]. *)
Fixpoint map_loop (fuel : nat) (pagetable a last pa perm : Z) : M kmem Z :=
  match fuel with
  | O => nofuel
  | S fuel' =>
      do pte <- walk pagetable a true;
      if pte =? 0 then kret (-1)
      else
        do v <- rd pte;
        if has v PTE_V then panic "remap"
        else
          wr pte (Z.lor (Z.lor (PA2PTE pa) perm) PTE_V) ;;;
          if a =? last then kret 0
          else map_loop fuel' pagetable (u64 (a + PGSIZE)) last (u64 (pa + PGSIZE)) perm
  end.

(** Each iteration ends at [last] or goes one page up, and [walk] panics at MAXVA: [map_fuel] is
    enough. *)
Definition map_fuel (a last : Z) : nat :=
  S (Z.to_nat (((if last <? a then MAXVA else Z.min last MAXVA) - a) / PGSIZE)).

Definition mappages (pagetable va size pa perm : Z) : M kmem Z :=
  let a := PGROUNDDOWN va in
  let last := PGROUNDDOWN (u64 (va + size - 1)) in
  map_loop (map_fuel a last) pagetable a last pa perm.

Section vm.
Context (kend : Z).                     (* the linker symbol end *)

(** The body of the loop of [uvmunmap]. *)
Definition unmap_page (pagetable a : Z) (do_free : bool) : M kmem unit :=
  do pte <- walk pagetable a false;
  if pte =? 0 then kret tt
  else
    do v <- rd pte;
    if negb (has v PTE_V) then kret tt
    else
      (if do_free then
         let pa := PTE2PA v in
         if (KERNBASE <=? pa) && (pa <? PHYSTOP) then kfree kend pa else kret tt
       else kret tt) ;;;
      wr pte 0.

Fixpoint unmap_loop (fuel : nat) (pagetable a lim : Z) (do_free : bool) : M kmem unit :=
  if a <? lim then
    match fuel with
    | O => nofuel
    | S fuel' =>
        unmap_page pagetable a do_free ;;;
        unmap_loop fuel' pagetable (u64 (a + PGSIZE)) lim do_free
    end
  else kret tt.

Definition uvmunmap (pagetable va npages : Z) (do_free : bool) : M kmem unit :=
  if negb (va mod PGSIZE =? 0) then panic "uvmunmap: not aligned"
  else
    let lim := u64 (va + npages * PGSIZE) in
    unmap_loop (Z.to_nat ((lim - va) / PGSIZE)) pagetable va lim do_free.

(** [freewalk]: [depth] bounds the recursion (a page table has three levels). *)
Fixpoint freewalk (depth : nat) (pagetable : Z) : M kmem unit :=
  match depth with
  | O => nofuel
  | S depth' =>
      kfor 512 0 (λ i,
        do pte <- rd (pagetable + 8 * i);
        if has pte PTE_V && (Z.land pte (flags [PTE_R; PTE_W; PTE_X]) =? 0) then
          freewalk depth' (PTE2PA pte) ;;;
          wr (pagetable + 8 * i) 0
        else if has pte PTE_V then panic "freewalk: leaf"
        else kret tt) ;;;
      kfree kend pagetable
  end.

(** ** Kernel page table *)

Definition kvmmap (pagetable va pa sz perm : Z) : M kmem unit :=
  do r <- mappages pagetable va sz pa perm;
  if r =? 0 then kret tt else panic "kvmmap".

(** One iteration of [proc_mapstacks]; [p->kstack] is set to [KSTACK i]. *)
Definition mapstack (kpgtbl i : Z) : M kmem unit :=
  do pa <- kalloc;
  if pa =? 0 then panic "kalloc"
  else kvmmap kpgtbl (KSTACK i) pa PGSIZE (flags [PTE_R; PTE_W; PTE_THEAD_MAEE; PTE_A; PTE_D]).

Definition proc_mapstacks (kpgtbl : Z) : M kmem unit := kfor NPROC 0 (mapstack kpgtbl).

(** Device addresses (memlayout.h). *)
Definition WDT0_BASE : Z := 0x91106000.
Definition UART0 : Z := 0x91400000.
Definition PLIC : Z := 0x0F00000000.
Definition K230_SD1 : Z := 0x91581000.

Definition kvmmake (etext trampoline : Z) : M kmem Z :=
  do kpgtbl <- kalloc;
  if kpgtbl =? 0 then panic "kvmmake: no memory"
  else
    memset_page kpgtbl 0 ;;;
    kvmmap kpgtbl KERNBASE KERNBASE (etext - KERNBASE) (flags [PTE_R; PTE_X; PTE_A; PTE_THEAD_MAEE]) ;;;
    kvmmap kpgtbl etext etext (PHYSTOP - etext) (flags [PTE_R; PTE_W; PTE_A; PTE_D; PTE_THEAD_MAEE]) ;;;
    kvmmap kpgtbl WDT0_BASE WDT0_BASE PGSIZE (flags [PTE_R; PTE_W; PTE_A; PTE_D; PTE_IO]) ;;;
    kvmmap kpgtbl UART0 UART0 PGSIZE (flags [PTE_R; PTE_W; PTE_A; PTE_D; PTE_IO]) ;;;
    kvmmap kpgtbl PLIC PLIC 0x4000000 (flags [PTE_R; PTE_W; PTE_A; PTE_D; PTE_IO]) ;;;
    kvmmap kpgtbl K230_SD1 K230_SD1 PGSIZE (flags [PTE_R; PTE_W; PTE_A; PTE_D; PTE_IO]) ;;;
    kvmmap kpgtbl TRAMPOLINE trampoline PGSIZE (flags [PTE_R; PTE_X; PTE_A]) ;;;
    proc_mapstacks kpgtbl ;;;
    kret kpgtbl.

(** ** User memory *)

Definition uvmcreate : M kmem Z :=
  do pagetable <- kalloc;
  if pagetable =? 0 then kret 0
  else memset_page pagetable 0 ;;; kret pagetable.

Definition uvmdealloc (pagetable oldsz newsz : Z) : M kmem Z :=
  if oldsz <=? newsz then kret oldsz
  else
    (if PGROUNDUP newsz <? PGROUNDUP oldsz then
       let npages := s32 ((PGROUNDUP oldsz - PGROUNDUP newsz) / PGSIZE) in
       uvmunmap pagetable (PGROUNDUP newsz) (u64 npages) true
     else kret tt) ;;;
    kret newsz.

Definition uvmfree (pagetable sz : Z) : M kmem unit :=
  (if 0 <? sz then uvmunmap pagetable 0 (PGROUNDUP sz / PGSIZE) true else kret tt) ;;;
  freewalk 3 pagetable.

Definition proc_pagetable (trampoline trapframe : Z) : M kmem Z :=
  do pagetable <- uvmcreate;
  if pagetable =? 0 then kret 0
  else
    do r <- mappages pagetable TRAMPOLINE PGSIZE trampoline (flags [PTE_R; PTE_X; PTE_A]);
    if r <? 0 then uvmfree pagetable 0 ;;; kret 0
    else
      do r <- mappages pagetable TRAPFRAME PGSIZE trapframe
                (flags [PTE_R; PTE_W; PTE_A; PTE_D; PTE_THEAD_MAEE]);
      if r <? 0 then
        uvmunmap pagetable TRAMPOLINE 1 false ;;;
        uvmfree pagetable 0 ;;;
        kret 0
      else kret pagetable.

Definition proc_freepagetable (pagetable sz : Z) : M kmem unit :=
  uvmunmap pagetable TRAMPOLINE 1 false ;;;
  uvmunmap pagetable TRAPFRAME 1 false ;;;
  uvmfree pagetable sz.

(** The result of [kalloc] and of [mappages] is not tested. *)
Definition uvminit (pagetable src sz : Z) : M kmem unit :=
  if PGSIZE <=? sz then panic "uvminit: more than a page"
  else
    do mem <- kalloc;
    memset_page mem 0 ;;;
    do _r <- mappages pagetable 0 PGSIZE mem
               (flags [PTE_R; PTE_W; PTE_X; PTE_U; PTE_A; PTE_THEAD_MAEE]);
    kmemmove mem src sz.

(** The loop of [uvmalloc] from address [a]; [oldsz] is already rounded up. *)
Fixpoint uvmalloc_loop (fuel : nat) (pagetable a oldsz newsz xperm : Z) : M kmem Z :=
  if a <? newsz then
    match fuel with
    | O => nofuel
    | S fuel' =>
        do mem <- kalloc;
        if mem =? 0 then
          do _n <- uvmdealloc pagetable a oldsz;
          kret 0
        else
          memset_page mem 0 ;;;
          do r <- mappages pagetable a PGSIZE mem
                    (flags [PTE_R; PTE_U; xperm; PTE_A; PTE_D; PTE_THEAD_MAEE]);
          if negb (r =? 0) then
            kfree kend mem ;;;
            do _n <- uvmdealloc pagetable a oldsz;
            kret 0
          else uvmalloc_loop fuel' pagetable (u64 (a + PGSIZE)) oldsz newsz xperm
    end
  else kret newsz.

Definition uvmalloc (pagetable oldsz newsz xperm : Z) : M kmem Z :=
  if newsz <? oldsz then kret oldsz
  else
    let oldsz := PGROUNDUP oldsz in
    uvmalloc_loop (Z.to_nat ((newsz - oldsz) / PGSIZE + 1)) pagetable oldsz oldsz newsz xperm.

(** ** Copy-on-write fork *)

(** The entry with PTE_W cleared and PTE_COW set. *)
Definition pte_to_cow (pte : Z) : Z :=
  Z.lor (Z.land pte (u64 (Z.lnot (Z.lor PTE_W PTE_COW)))) PTE_COW.
(** [flags | PTE_COW], then PTE_W cleared. *)
Definition attrs_to_cow (fl : Z) : Z := Z.land (Z.lor fl PTE_COW) (u64 (Z.lnot PTE_W)).
(** [flags | PTE_W], then PTE_COW cleared. *)
Definition attrs_from_cow (fl : Z) : Z := Z.land (Z.lor fl PTE_W) (u64 (Z.lnot PTE_COW)).

(** The body of the loop of [uvmcopy]; false is [goto err]. *)
Definition uvmcopy_page (old new i : Z) : M kmem bool :=
  do pte <- walk old i false;
  if pte =? 0 then kret true
  else
    do v <- rd pte;
    if negb (has v PTE_V) then kret true
    else
      let pa := PTE2PA v in
      let fl := pte_attrs v in
      krefpage pa ;;;
      do fl' <- (if has fl PTE_W
                 then wr pte (pte_to_cow v) ;;; kret (attrs_to_cow fl)
                 else kret fl);
      do r <- mappages new i PGSIZE pa fl';
      kret (r =? 0).

Fixpoint uvmcopy_loop (fuel : nat) (old new i sz : Z) : M kmem Z :=
  if i <? sz then
    match fuel with
    | O => nofuel
    | S fuel' =>
        do ok <- uvmcopy_page old new i;
        if (ok : bool) then uvmcopy_loop fuel' old new (u64 (i + PGSIZE)) sz
        else
          uvmunmap new 0 (i / PGSIZE) true ;;;
          kret (-1)
    end
  else kret 0.

Definition uvmcopy (old new sz : Z) : M kmem Z :=
  uvmcopy_loop (Z.to_nat (sz / PGSIZE + 1)) old new 0 sz.

(** ** Lookup and page faults *)

Definition ismapped (pagetable va : Z) : M kmem bool :=
  do pte <- walk pagetable va false;
  if pte =? 0 then kret false
  else do v <- rd pte; kret (has v PTE_V).

Definition walkaddr (pagetable va : Z) : M kmem Z :=
  if MAXVA <=? va then kret 0
  else
    do pte <- walk pagetable va false;
    if pte =? 0 then kret 0
    else
      do v <- rd pte;
      if negb (has v PTE_V) then kret 0
      else if negb (has v PTE_U) then kret 0
      else kret (PTE2PA v).

Definition uvmclear (pagetable va : Z) : M kmem unit :=
  do pte <- walk pagetable va false;
  if pte =? 0 then panic "uvmclear"
  else do v <- rd pte; wr pte (Z.land v (u64 (Z.lnot PTE_U))).

(** [myproc()->sz] and [myproc()->pagetable]. *)
Record vmproc := mkvmproc { p_sz : Z; p_pagetable : Z }.

(** The copy-on-write branch of [vmfault], for the entry at address [pte]. *)
Definition cow_fault (pte : Z) : M kmem Z :=
  do v <- rd pte;
  let pa := PTE2PA v in
  let fl := pte_attrs v in
  do mem <- kalloc;
  if mem =? 0 then kret 0
  else
    kmemmove mem pa PGSIZE ;;;
    wr pte (Z.lor (Z.lor (PA2PTE mem) (attrs_from_cow fl)) PTE_V) ;;;
    kfree kend pa ;;;
    kret mem.

Definition vmfault (p : vmproc) (pagetable va : Z) : M kmem Z :=
  if p_sz p <=? va then kret 0
  else
    let va := PGROUNDDOWN va in
    do mapped <- ismapped pagetable va;
    if (mapped : bool) then
      do pte <- walk pagetable va false;
      if pte =? 0 then kret 0
      else
        do v <- rd pte;
        if has v PTE_COW then cow_fault pte else kret 0
    else
      do mem <- kalloc;
      if mem =? 0 then kret 0
      else
        memset_page mem 0 ;;;
        do r <- mappages (p_pagetable p) va PGSIZE mem
                  (flags [PTE_W; PTE_U; PTE_R; PTE_A; PTE_D; PTE_THEAD_MAEE]);
        if negb (r =? 0) then kfree kend mem ;;; kret 0
        else kret mem.

(** ** Copies between kernel and user memory *)

(** The physical address [copyout] writes to for the page [va0], or 0. *)
Definition copyout_pa (p : vmproc) (pagetable va0 : Z) : M kmem Z :=
  do pa0 <- walkaddr pagetable va0;
  if pa0 =? 0 then vmfault p pagetable va0
  else
    do pte <- walk pagetable va0 false;
    if pte =? 0 then kret pa0
    else
      do v <- rd pte;
      if has v PTE_COW then vmfault p pagetable va0 else kret pa0.

(** [n = PGSIZE - (va - va0); if(n > len) n = len;] *)
Definition chunk (va va0 len : Z) : Z :=
  let n := PGSIZE - (va - va0) in if len <? n then len else n.

Fixpoint copyout_loop (fuel : nat) (p : vmproc) (pagetable dstva src len : Z) : M kmem Z :=
  if len <=? 0 then kret 0
  else
    match fuel with
    | O => nofuel
    | S fuel' =>
        let va0 := PGROUNDDOWN dstva in
        if MAXVA <=? va0 then kret (-1)
        else
          do pa0 <- copyout_pa p pagetable va0;
          if pa0 =? 0 then kret (-1)
          else
            do pte <- walk pagetable va0 false;
            do v <- rd pte;
            if negb (has v PTE_W) then kret (-1)
            else
              let n := chunk dstva va0 len in
              kmemmove (pa0 + (dstva - va0)) src n ;;;
              copyout_loop fuel' p pagetable (u64 (va0 + PGSIZE)) (src + n) (len - n)
    end.

(** Every iteration but the first copies a whole page, or the rest. *)
Definition copy_fuel (len : Z) : nat := Z.to_nat (len / PGSIZE + 2).

Definition copyout (p : vmproc) (pagetable dstva src len : Z) : M kmem Z :=
  copyout_loop (copy_fuel len) p pagetable dstva src len.

Fixpoint copyin_loop (fuel : nat) (p : vmproc) (pagetable dst srcva len : Z) : M kmem Z :=
  if len <=? 0 then kret 0
  else
    match fuel with
    | O => nofuel
    | S fuel' =>
        let va0 := PGROUNDDOWN srcva in
        do pa <- walkaddr pagetable va0;
        do pa0 <- (if pa =? 0 then vmfault p pagetable va0 else kret pa);
        if pa0 =? 0 then kret (-1)
        else
          let n := chunk srcva va0 len in
          kmemmove dst (pa0 + (srcva - va0)) n ;;;
          copyin_loop fuel' p pagetable (dst + n) (u64 (va0 + PGSIZE)) (len - n)
    end.

Definition copyin (p : vmproc) (pagetable dst srcva len : Z) : M kmem Z :=
  copyin_loop (copy_fuel len) p pagetable dst srcva len.

(** The inner loop of [copyinstr]: [n] bytes from [p]; the result is [got_null]. *)
Fixpoint copyinstr_bytes (n : nat) (p dst : Z) : M kmem bool :=
  match n with
  | O => kret false
  | S n' =>
      do b <- kgets (λ k, kmem_mem k p);
      if b =? 0 then kmod (λ k, set_mem (mput (kmem_mem k) dst 0) k) ;;; kret true
      else
        kmod (λ k, set_mem (mput (kmem_mem k) dst b) k) ;;;
        copyinstr_bytes n' (p + 1) (dst + 1)
  end.

Fixpoint copyinstr_loop (fuel : nat) (pagetable dst srcva max : Z) : M kmem Z :=
  if max <=? 0 then kret (-1)
  else
    match fuel with
    | O => nofuel
    | S fuel' =>
        let va0 := PGROUNDDOWN srcva in
        if MAXVA <=? va0 then kret (-1)
        else
          do pte <- walk pagetable va0 false;
          if pte =? 0 then kret (-1)
          else
            do v <- rd pte;
            if negb (has v PTE_V) || negb (has v PTE_U) then kret (-1)
            else
              let n := chunk srcva va0 max in
              do got_null <- copyinstr_bytes (Z.to_nat n) (PTE2PA v + (srcva - va0)) dst;
              if (got_null : bool) then kret 0
              else copyinstr_loop fuel' pagetable (dst + n) (u64 (va0 + PGSIZE)) (max - n)
    end.

Definition copyinstr (pagetable dst srcva max : Z) : M kmem Z :=
  copyinstr_loop (copy_fuel max) pagetable dst srcva max.

Definition either_copyout (p : vmproc) (user_dst : bool) (dst src len : Z) : M kmem Z :=
  if user_dst then copyout p (p_pagetable p) dst src len
  else kmemmove dst src len ;;; kret 0.

Definition either_copyin (p : vmproc) (dst : Z) (user_src : bool) (src len : Z) : M kmem Z :=
  if user_src then copyin p (p_pagetable p) dst src len
  else kmemmove dst src len ;;; kret 0.
End vm.

(** ** Bits of page-table entries *)

Section bits.
Implicit Types (a v fl va n : Z).

Lemma testbit_u64 x n : 0 <= n → Z.testbit (u64 x) n = (n <? 64) && Z.testbit x n.
Proof.
  intros Hn. unfold u64. destruct (Z.ltb_spec n 64).
  - by rewrite Z.mod_pow2_bits_low.
  - rewrite Z.mod_pow2_bits_high by lia. done.
Qed.

(** A page address: aligned, and within the 54 bits an entry can hold. *)
Definition page_addr a : Prop := a mod PGSIZE = 0 ∧ 0 <= a < 2 ^ 54.

Lemma page_addr_low a n : page_addr a → 0 <= n < 12 → Z.testbit a n = false.
Proof.
  intros [Ha _] Hn. unfold PGSIZE in Ha. pose proof (Z.div_mod a 4096 ltac:(done)).
  replace a with (a / 4096 * 2 ^ 12) by (change (2 ^ 12) with 4096; lia).
  apply Z.mul_pow2_bits_low. lia.
Qed.

Lemma page_addr_high a n : page_addr a → 54 <= n → Z.testbit a n = false.
Proof.
  intros [_ Ha] Hn. destruct (Z.eq_dec a 0) as [->|]; [apply Z.bits_0|].
  apply Z.bits_above_log2; [lia|]. apply Z.log2_lt_pow2; [lia|].
  apply Z.lt_le_trans with (2 ^ 54); [lia|]. apply Z.pow_le_mono_r; lia.
Qed.

Lemma testbit_PA2PTE a n :
  page_addr a → 0 <= n → Z.testbit (PA2PTE a) n = (10 <=? n) && Z.testbit a (n + 2).
Proof.
  intros Ha Hn. unfold PA2PTE. rewrite testbit_u64 by done.
  destruct (Z.leb_spec 10 n).
  - rewrite Z.shiftl_spec, Z.shiftr_spec by lia. replace (n - 10 + 12) with (n + 2) by lia.
    destruct (Z.ltb_spec n 64); [done|]. simpl. symmetry. apply page_addr_high; [done|lia].
  - rewrite Z.shiftl_spec_low by lia. by rewrite andb_false_r.
Qed.

Lemma testbit_PTE2PA v n :
  0 <= n → Z.testbit (PTE2PA v) n = (12 <=? n) && (n <? 56) && Z.testbit v (n - 2).
Proof.
  intros Hn. unfold PTE2PA. change 0x00FFFFFFFFFFFF00 with (Z.shiftl (Z.ones 48) 8).
  rewrite Z.land_spec, testbit_u64 by done.
  destruct (Z.leb_spec 12 n), (Z.ltb_spec n 56); simpl; rewrite ?andb_false_r; try done.
  - rewrite Z.shiftl_spec, Z.shiftr_spec by lia. replace (n - 12 + 10) with (n - 2) by lia.
    rewrite (Z.shiftl_spec (Z.ones 48)) by lia. rewrite Z.ones_spec_low by lia.
    destruct (Z.ltb_spec n 64); [|lia]. by rewrite andb_true_r.
  - rewrite (Z.shiftl_spec (Z.ones 48)) by lia. rewrite Z.ones_spec_high by lia. apply andb_false_r.
  - rewrite (Z.shiftl_spec_low (Z.shiftr v 10)) by lia. by rewrite andb_false_r.
  - lia.
Qed.

(** Attribute bits of an entry: everything but the page number. *)
Definition attr fl : Prop := 0 <= fl < 2 ^ 64 ∧ ∀ n, 10 <= n < 54 → Z.testbit fl n = false.

(** The page of an entry made from a page and attributes. *)
Lemma PTE2PA_entry a fl : page_addr a → attr fl → PTE2PA (Z.lor (PA2PTE a) fl) = a.
Proof.
  intros Ha [_ Hfl]. apply Z.bits_inj'. intros n Hn. rewrite testbit_PTE2PA by done.
  destruct (Z.leb_spec 12 n), (Z.ltb_spec n 56); simpl.
  - rewrite Z.lor_spec, testbit_PA2PTE by (done || lia). rewrite Hfl by lia.
    destruct (Z.leb_spec 10 (n - 2)); [|lia]. rewrite orb_false_r. simpl. f_equal. lia.
  - symmetry. apply page_addr_high; [done|lia].
  - symmetry. apply page_addr_low; [done|lia].
  - lia.
Qed.

Lemma testbit_entry_low a fl n :
  page_addr a → 0 <= n < 10 → Z.testbit (Z.lor (PA2PTE a) fl) n = Z.testbit fl n.
Proof.
  intros Ha Hn. rewrite Z.lor_spec, testbit_PA2PTE by (done || lia).
  destruct (Z.leb_spec 10 n); [lia|done].
Qed.

Lemma u64_bits_range x : (∀ n, 64 <= n → Z.testbit x n = false) → 0 <= x → x < 2 ^ 64.
Proof.
  intros Hb Hx. destruct (Z.eq_dec x 0) as [->|]; [lia|]. apply Z.log2_lt_pow2; [lia|].
  apply Z.nle_gt. intros H. specialize (Hb _ H). rewrite Z.bit_log2 in Hb by lia. done.
Qed.

Lemma bits_above64 x n : 0 <= x < 2 ^ 64 → 64 <= n → Z.testbit x n = false.
Proof.
  intros Hx Hn. destruct (Z.eq_dec x 0) as [->|]; [apply Z.bits_0|].
  apply Z.bits_above_log2; [lia|]. pose proof (proj1 (Z.log2_lt_pow2 x 64 ltac:(lia)) ltac:(lia)). lia.
Qed.

Lemma lor_range x y : 0 <= x < 2 ^ 64 → 0 <= y < 2 ^ 64 → 0 <= Z.lor x y < 2 ^ 64.
Proof.
  intros Hx Hy. assert (H0 : 0 <= Z.lor x y) by (apply Z.lor_nonneg; lia). split; [done|].
  apply u64_bits_range; [|done]. intros n Hn. by rewrite Z.lor_spec, !bits_above64.
Qed.

Lemma entry_range a fl : page_addr a → attr fl → 0 <= Z.lor (PA2PTE a) fl < 2 ^ 64.
Proof.
  intros Ha [Hr _]. pose proof (u64_range (Z.shiftl (Z.shiftr a 12) 10)) as Hp. fold (PA2PTE a) in Hp.
  by apply lor_range.
Qed.

(** Table indices. *)
Lemma PX_eq l va : 0 <= l → 0 <= va → PX l va = va / 2 ^ (12 + 9 * l) mod 512.
Proof.
  intros Hl Hva. unfold PX. rewrite Z.shiftr_div_pow2 by lia.
  change 0x1FF with (Z.ones 9). by rewrite Z.land_ones.
Qed.

Lemma PX_range l va : 0 <= PX l va < 512.
Proof.
  unfold PX. change 0x1FF with (Z.ones 9). rewrite Z.land_ones by lia.
  apply Z.mod_pos_bound. lia.
Qed.

Lemma PX_inj va va' :
  0 <= va < 2 ^ 39 → 0 <= va' < 2 ^ 39 →
  PX 2 va = PX 2 va' → PX 1 va = PX 1 va' → PX 0 va = PX 0 va' → va / PGSIZE = va' / PGSIZE.
Proof.
  intros Hva Hva'. rewrite !PX_eq by lia. unfold PGSIZE.
  change (2 ^ (12 + 9 * 2)) with (4096 * 512 * 512). change (2 ^ (12 + 9 * 1)) with (4096 * 512).
  change (2 ^ (12 + 9 * 0)) with 4096. rewrite <- !Z.div_div by lia.
  set (q := va / 4096). set (q' := va' / 4096).
  assert (0 <= q < 2 ^ 27) by (unfold q; Z.div_mod_to_equations; lia).
  assert (0 <= q' < 2 ^ 27) by (unfold q'; Z.div_mod_to_equations; lia).
  intros. Z.div_mod_to_equations. lia.
Qed.

Lemma PX_page l va va' : 0 <= l → 0 <= va → 0 <= va' → va / PGSIZE = va' / PGSIZE → PX l va = PX l va'.
Proof.
  intros Hl Hva Hva' E. rewrite !PX_eq by done. unfold PGSIZE in E.
  replace (2 ^ (12 + 9 * l)) with (4096 * 2 ^ (9 * l)) by (rewrite Z.pow_add_r by lia; done).
  rewrite <- !Z.div_div by (try apply Z.pow_pos_nonneg; lia). by rewrite E.
Qed.
End bits.

(** ** Page tables in memory

    A tree gives, for each path of table indices from the root, the page that holds the table at the
    end of that path: [T []] is the root, [T [i]] and [T [i; j]] are tables of level 1 and 0. *)
Abbreviation tree := (list Z → option Z).

(** A root table without entries. *)
Definition root_tree (a : Z) : tree := λ n, match n with [] => Some a | _ => None end.

#[global] Instance path_eq_dec : EqDecision (list Z) := list_eq_dec.

(** The entry for [va] in the table [T] of memory [m]; 0 when there is no level-0 table for it. *)
Definition pte_at (m : mem) (T : tree) (va : Z) : Z :=
  match T [PX 2 va; PX 1 va] with
  | Some b => load64 m (b + 8 * PX 0 va)
  | None => 0
  end.

Section tables.
Context (kend : Z) (Hend : KERNBASE <= kend).
Implicit Types (m : mem) (r a b i va : Z) (T : tree) (n : list Z).

Record pt_ok m r T : Prop := mkpt {
  pt_root : T [] = Some r;
  pt_page : ∀ n a, T n = Some a → page_ok kend a;
  pt_inj : ∀ n n' a, T n = Some a → T n' = Some a → n = n';
  pt_idx : ∀ n i, T (n ++ [i]) ≠ None → (length n < 2)%nat ∧ 0 <= i < 512 ∧ T n ≠ None;
  pt_link : ∀ n a i, T n = Some a → (length n < 2)%nat → 0 <= i < 512 →
    match T (n ++ [i]) with
    | Some b => load64 m (a + 8 * i) = Z.lor (PA2PTE b) PTE_V
    | None => Z.testbit (load64 m (a + 8 * i)) 0 = false
    end
}.

Lemma page_ok_addr a : page_ok kend a → page_addr a.
Proof. intros [Ha ?]. split; [done|]. uconst. lia. Qed.

Lemma attr_V : attr PTE_V.
Proof.
  split; [done|]. intros n Hn. unfold PTE_V. rewrite Z.shiftl_1_l. apply Z.pow2_bits_false. lia.
Qed.

Lemma table_entry b : page_ok kend b →
  PTE2PA (Z.lor (PA2PTE b) PTE_V) = b ∧ has (Z.lor (PA2PTE b) PTE_V) PTE_V = true ∧
  0 <= Z.lor (PA2PTE b) PTE_V < 2 ^ 64.
Proof.
  intros Hb%page_ok_addr. split_and!; [by apply PTE2PA_entry, attr_V| | |];
    [|by apply (entry_range b PTE_V Hb attr_V)..].
  unfold PTE_V at 2. rewrite has_bit, testbit_entry_low by (done || lia). done.
Qed.

Lemma load64_page_ext m m' a i :
  (∀ x, a <= x < a + PGSIZE → m' x = m x) → 0 <= i < 512 → load64 m' (a + 8 * i) = load64 m (a + 8 * i).
Proof. intros E Hi. apply load64_ext. intros x Hx. apply E. uconst. lia. Qed.

Lemma load64_zero_page m a i :
  (∀ x, a <= x < a + PGSIZE → m x = 0) → 0 <= i < 512 → load64 m (a + 8 * i) = 0.
Proof.
  intros E Hi. rewrite (load64_page_ext (λ _, 0)); [reflexivity|done|done].
Qed.

(** Loads from page [q] after a store to slot [i] of page [a]. *)
Lemma load64_slot m a i v q j :
  page_ok kend a → page_ok kend q → 0 <= i < 512 → 0 <= j < 512 → 0 <= v < 2 ^ 64 →
  load64 (store64 m (a + 8 * i) v) (q + 8 * j) =
    if decide (q = a ∧ j = i) then v else load64 m (q + 8 * j).
Proof.
  intros Ha Hq Hi Hj Hv. case_decide as E.
  - destruct E as [-> ->]. by apply load64_store64.
  - apply load64_store64_ne. destruct (Z.eq_dec q a) as [->|Hne].
    + assert (j ≠ i) by tauto. lia.
    + destruct (page_disjoint kend q a Hq Ha Hne); uconst; lia.
Qed.

Lemma tree_insert_ne T n n' (b : option Z) : n' ≠ n → <[n:=b]> T n' = T n'.
Proof. intros. by rewrite fn_lookup_insert_ne. Qed.

Lemma snoc_ne n i : n ++ [i] ≠ n.
Proof. intros E%(f_equal length). rewrite length_app in E. simpl in E. lia. Qed.

(** Linking a zeroed page [b] as the table at path [n ++ [i]]. *)
Lemma pt_ok_add m m0 r T n a i b :
  pt_ok m r T → T n = Some a → (length n < 2)%nat → 0 <= i < 512 → T (n ++ [i]) = None →
  page_ok kend b → (∀ n', T n' ≠ Some b) →
  (∀ x, b <= x < b + PGSIZE → m0 x = 0) → same_outside b m m0 →
  let m' := store64 m0 (a + 8 * i) (Z.lor (PA2PTE b) PTE_V) in
  pt_ok m' r (<[n ++ [i]:=Some b]> T) ∧ ∀ va, pte_at m' (<[n ++ [i]:=Some b]> T) va = pte_at m T va.
Proof.
  intros [Hr Hpg Hinj Hidx Hlk] Hn Hlen Hi Hnone Hb Hfresh H0 Hout m'.
  destruct (table_entry b Hb) as (_ & _ & Hrange).
  assert (Hzero : ∀ j, 0 <= j < 512 → load64 m' (b + 8 * j) = 0).
  { intros j Hj. unfold m'. rewrite load64_slot by eauto.
    rewrite decide_False by (intros [-> _]; by eapply Hfresh). by apply load64_zero_page. }
  assert (Hold : ∀ n' q j, T n' = Some q → 0 <= j < 512 → (q, j) ≠ (a, i) →
    load64 m' (q + 8 * j) = load64 m (q + 8 * j)).
  { intros n' q j Hq Hj Hne. unfold m'. rewrite load64_slot by eauto.
    rewrite decide_False by (intros [-> ->]; done). apply load64_page_ext; [|done].
    intros x Hx. apply Hout. assert (q ≠ b) by (intros ->; by eapply Hfresh).
    destruct (page_disjoint kend q b); eauto; lia. }
  assert (Hslot : load64 m' (a + 8 * i) = Z.lor (PA2PTE b) PTE_V).
  { unfold m'. rewrite load64_slot by eauto. by rewrite decide_True. }
  split; [split|].
  - rewrite tree_insert_ne by (by destruct n). done.
  - intros n' q. destruct (decide (n' = n ++ [i])) as [->|Hne]; [|rewrite tree_insert_ne by done; apply Hpg].
    rewrite fn_lookup_insert. by intros [= <-].
  - intros n1 n2 q. destruct (decide (n1 = n ++ [i])) as [->|H1], (decide (n2 = n ++ [i])) as [->|H2];
      rewrite ?fn_lookup_insert, ?tree_insert_ne by done; try done; [..|by apply Hinj].
    + intros [= <-] E. by destruct (Hfresh n2).
    + intros E [= <-]. by destruct (Hfresh n1).
  - intros n' j. destruct (decide (n' ++ [j] = n ++ [i])) as [[-> [= ->]]%app_inj_2|Hne]; [|done|].
    + intros _. split_and!; [done|lia|lia|]. rewrite tree_insert_ne by apply not_eq_sym, snoc_ne. congruence.
    + rewrite tree_insert_ne by done. intros (? & ? & Hn')%Hidx. split_and!; [done|lia|lia|].
      destruct (decide (n' = n ++ [i])) as [->|]; [by rewrite fn_lookup_insert|by rewrite tree_insert_ne].
  - intros n' q j Hq Hlen' Hj. destruct (decide (n' = n ++ [i])) as [->|Hne].
    + rewrite fn_lookup_insert in Hq. injection Hq as <-.
      rewrite tree_insert_ne by apply snoc_ne.
      destruct (T ((n ++ [i]) ++ [j])) eqn:E; [|rewrite Hzero by done; apply Z.bits_0].
      destruct (Hidx (n ++ [i]) j) as (_ & _ & Hx); [congruence|done].
    + rewrite tree_insert_ne in Hq by done.
      destruct (decide (n' ++ [j] = n ++ [i])) as [[-> [= ->]]%app_inj_2|Hne']; [|done|].
      * rewrite fn_lookup_insert. assert (q = a) as -> by congruence. done.
      * rewrite tree_insert_ne by done.
        assert (Hqj : (q, j) ≠ (a, i)).
        { intros [= -> ->]. apply Hne'. by rewrite (Hinj _ _ _ Hq Hn). }
        specialize (Hlk n' q j Hq Hlen' Hj). by rewrite (Hold n').
  - intros va. unfold pte_at. set (p := [PX 2 va; PX 1 va]).
    destruct (decide (p = n ++ [i])) as [E|Hne].
    + rewrite E, fn_lookup_insert, Hnone. apply Hzero, PX_range.
    + rewrite tree_insert_ne by done. destruct (T p) as [q|] eqn:Eq; [|done].
      apply (Hold p); [done|apply PX_range|]. intros [= -> _].
      assert (p = n) by (by eapply Hinj). subst n. unfold p in Hlen. simpl in Hlen. lia.
Qed.

(** Storing an entry into a level-0 table changes that entry only. *)
Lemma pt_ok_leaf m r T va b v :
  pt_ok m r T → T [PX 2 va; PX 1 va] = Some b → 0 <= v < 2 ^ 64 →
  let m' := store64 m (b + 8 * PX 0 va) v in
  pt_ok m' r T ∧ pte_at m' T va = v ∧
  ∀ va', 0 <= va < 2 ^ 39 → 0 <= va' < 2 ^ 39 → va' / PGSIZE ≠ va / PGSIZE →
    pte_at m' T va' = pte_at m T va'.
Proof.
  intros [Hr Hpg Hinj Hidx Hlk] Hb Hv m'. pose proof (PX_range 0 va) as H0.
  split; [split; auto|split].
  - intros n a i Hn Hlen Hi. specialize (Hlk n a i Hn Hlen Hi). unfold m'.
    rewrite load64_slot by eauto. rewrite decide_False; [done|]. intros [-> _].
    assert (n = [PX 2 va; PX 1 va]) by (by eapply Hinj). subst n. simpl in Hlen. lia.
  - unfold pte_at. rewrite Hb. unfold m'. rewrite load64_slot by eauto. by rewrite decide_True.
  - intros va' Hr1 Hr2 Hne. unfold pte_at. destruct (T [PX 2 va'; PX 1 va']) as [q|] eqn:Eq; [|done].
    unfold m'. rewrite load64_slot by (eauto; apply PX_range).
    rewrite decide_False; [done|]. intros [-> E0]. apply Hne.
    assert ([PX 2 va'; PX 1 va'] = [PX 2 va; PX 1 va]) as [= E2 E1] by (by eapply Hinj).
    by apply PX_inj.
Qed.

(** Memory changes outside the tables do not matter. *)
Lemma pt_ok_frame m m' r T :
  pt_ok m r T → (∀ n a x, T n = Some a → a <= x < a + PGSIZE → m' x = m x) →
  pt_ok m' r T ∧ ∀ va, pte_at m' T va = pte_at m T va.
Proof.
  intros [Hr Hpg Hinj Hidx Hlk] E. split; [split; auto|].
  - intros n a i Hn Hlen Hi. specialize (Hlk n a i Hn Hlen Hi).
    by rewrite (load64_page_ext m m') by eauto.
  - intros va. unfold pte_at. destruct (T [PX 2 va; PX 1 va]) as [q|] eqn:Eq; [|done].
    apply load64_page_ext; [eauto|apply PX_range].
Qed.

Lemma has_V v : has v PTE_V = Z.testbit v 0.
Proof. by apply has_bit. Qed.

(** [walk] without allocation is a lookup in the tree. *)
Lemma walk_lookup m r T va c k :
  pt_ok m r T → kmem_mem k = m → 0 <= va < MAXVA →
  walk r va false c k =
    Ret (match T [PX 2 va; PX 1 va] with Some b => b + 8 * PX 0 va | None => 0 end) c k.
Proof.
  intros [Hr Hpg Hinj Hidx Hlk] Hm Hva. unfold walk. rewrite (proj2 (Z.leb_gt _ _)) by lia.
  cbn [walk_loop]. unfold rd. kexec. rewrite Hm.
  pose proof (Hlk [] r (PX 2 va) Hr ltac:(simpl; lia) (PX_range 2 va)) as L2. cbn [app] in L2.
  change (Z.of_nat 2) with 2. change (Z.of_nat 1) with 1. rewrite has_V.
  destruct (T [PX 2 va]) as [b|] eqn:E2.
  - destruct (table_entry b (Hpg _ _ E2)) as (Epa & HV & _).
    rewrite L2, <- has_V, HV, Epa. kexec. rewrite Hm, has_V.
    pose proof (Hlk [PX 2 va] b (PX 1 va) E2 ltac:(simpl; lia) (PX_range 1 va)) as L1. cbn [app] in L1.
    destruct (T [PX 2 va; PX 1 va]) as [d|] eqn:E1.
    + destruct (table_entry d (Hpg _ _ E1)) as (Epa1 & HV1 & _). by rewrite L1, <- has_V, HV1, Epa1.
    + by rewrite L1.
  - rewrite L2. kexec. destruct (T [PX 2 va; PX 1 va]) as [d|] eqn:E1; [|done].
    destruct (Hidx [PX 2 va] (PX 1 va)) as (_ & _ & Hx); simpl; congruence.
Qed.

(** *** Growing the tables *)

Implicit Types (k : kmem) (p : pool) (c : kctx).

(** A page table and the allocator: the table's pages are not free. *)
Record vms k p r T : Prop := mkvms {
  vm_pt : pt_ok (kmem_mem k) r T;
  vm_kabs : kabs kend k p;
  vm_used : ∀ n a, T n = Some a → a ∉ pfree p
}.

(** Address [x] is neither in a table of [T] nor in a free page. *)
Definition untouched T p (x : Z) : Prop :=
  (∀ n a, T n = Some a → ¬ (a <= x < a + PGSIZE)) ∧ (∀ a, a ∈ pfree p → ¬ (a <= x < a + PGSIZE)).

(** Two states show the same entries. *)
Definition same_view k T k' T' : Prop :=
  ∀ va, pte_at (kmem_mem k') T' va = pte_at (kmem_mem k) T va.

(** From [(k, p, T)] to [(k', p', T')] only tables were added, from the front of the free list, and
    only tables and free pages were written. *)
Record grows k p T k' p' T' : Prop := mkgrows {
  g_tree : ∀ n a, T n = Some a → T' n = Some a;
  g_pages : ∀ n a, T' n = Some a → T n = Some a ∨ a ∈ pfree p ∧ (a ∉ pfree p');
  g_free : ∃ l, pfree p = l ++ pfree p';
  g_refs : ∀ a, a ∉ pfree p → prefs p' a = prefs p a;
  g_one : ∀ a, a ∈ pfree p → a ∉ pfree p' → prefs p' a = 1;
  g_mem : ∀ x, untouched T p x → kmem_mem k' x = kmem_mem k x
}.

Lemma grows_refl k p T : grows k p T k p T.
Proof. split; auto; try done. by exists []. Qed.

Lemma grows_free k p T k' p' T' a : grows k p T k' p' T' → a ∈ pfree p' → a ∈ pfree p.
Proof. intros [_ _ [l ->] _ _ _] Ha. set_solver. Qed.

(** The tables that were added are at paths in [P], and every page taken from the free list became
    a table. *)
Record adds p T p' T' (P : list Z → Prop) : Prop := mkadds {
  ad_nodes : ∀ n q, T' n = Some q → T n = Some q ∨ P n;
  ad_all : ∀ a, a ∈ pfree p → a ∈ pfree p' ∨ ∃ n, T' n = Some a
}.

Lemma adds_refl p T P : adds p T p T P.
Proof. split; auto. Qed.

Lemma adds_trans p1 T1 p2 T2 p3 T3 P1 P2 (P : list Z → Prop) :
  adds p1 T1 p2 T2 P1 → adds p2 T2 p3 T3 P2 → (∀ n a, T2 n = Some a → T3 n = Some a) →
  (∀ n, P1 n → P n) → (∀ n, P2 n → P n) → adds p1 T1 p3 T3 P.
Proof.
  intros [N1 A1] [N2 A2] Ht H1 H2. split.
  - intros n q [[?|?]%N1|?]%N2; auto.
  - intros a [?%A2|[n ?%Ht]]%A1; [done|right; by exists n].
Qed.


Lemma grows_trans k1 p1 T1 k2 p2 T2 k3 p3 T3 :
  grows k1 p1 T1 k2 p2 T2 → grows k2 p2 T2 k3 p3 T3 → grows k1 p1 T1 k3 p3 T3.
Proof.
  intros H1 H2. split.
  - intros n a ?. by apply (g_tree _ _ _ _ _ _ H2), (g_tree _ _ _ _ _ _ H1).
  - intros n a [[?|[? ?]]%(g_pages _ _ _ _ _ _ H1) | [? ?]]%(g_pages _ _ _ _ _ _ H2); auto; right.
    + split; [done|]. intros ?%(grows_free _ _ _ _ _ _ _ H2). done.
    + split; [|done]. by eapply grows_free.
  - destruct (g_free _ _ _ _ _ _ H1) as [l1 ->], (g_free _ _ _ _ _ _ H2) as [l2 ->].
    exists (l1 ++ l2). by rewrite app_assoc.
  - intros a Ha. rewrite (g_refs _ _ _ _ _ _ H2), (g_refs _ _ _ _ _ _ H1); [done..|].
    intros ?%(grows_free _ _ _ _ _ _ _ H1). done.
  - intros a Ha Hn. destruct (decide (a ∈ pfree p2)) as [H|H].
    + by apply (g_one _ _ _ _ _ _ H2).
    + rewrite (g_refs _ _ _ _ _ _ H2) by done. by apply (g_one _ _ _ _ _ _ H1).
  - intros x Hx. rewrite (g_mem _ _ _ _ _ _ H2), (g_mem _ _ _ _ _ _ H1); [done..|].
    destruct Hx as [Hx1 Hx2]. split.
    + intros n a [?|[? _]]%(g_pages _ _ _ _ _ _ H1); eauto.
    + intros a ?%(grows_free _ _ _ _ _ _ _ H1). eauto.
Qed.

(** Memory outside the free pages and the page [a] may be written without harm to the free list. *)
Lemma kabs_store k p a m' :
  kabs kend k p → page_ok kend a → a ∉ pfree p → same_outside a (kmem_mem k) m' →
  kabs kend (set_mem m' k) p.
Proof.
  intros [Hc Hn Hp Hr Hz Hpos] Ha Hni Hs. split; simpl; auto. by eapply chain_same_outside.
Qed.

(** What [walk] does to add a table at slot [i] of the table at path [n]. *)
Lemma grow_step k p r T n a i b l refs :
  vms k p r T → T n = Some a → (length n < 2)%nat → 0 <= i < 512 → T (n ++ [i]) = None →
  p = mkpool (b :: l) refs →
  let m1 := mfill (mfill (kmem_mem k) b 0 PGSIZE) b 0 PGSIZE in
  let k' := mkkmem (store64 m1 (a + 8 * i) (Z.lor (PA2PTE b) PTE_V)) (load64 (kmem_mem k) b)
              (<[KREF_INDEX b:=1]> (krefcount k)) in
  let p' := mkpool l (<[b:=1]> refs) in
  let T' := <[n ++ [i]:=Some b]> T in
  vms k' p' r T' ∧ grows k p T k' p' T' ∧ same_view k T k' T'.
Proof.
  intros [Hpt Hk Hused] Hn Hlen Hi Hnone Hp m1 k' p' T'. subst p.
  pose proof (kabs_pages _ _ _ Hk) as Hpg. simpl in Hpg. apply Forall_cons in Hpg as [Hb _].
  pose proof (kabs_nodup _ _ _ Hk) as Hnd. simpl in Hnd. apply NoDup_cons in Hnd as [Hbl Hnd].
  pose proof (pt_page _ _ _ Hpt _ _ Hn) as Ha.
  assert (Hfresh : ∀ n', T n' ≠ Some b) by (intros n' E; apply (Hused n' b E); constructor).
  assert (Hal : a ∉ b :: l) by (by eapply Hused).
  assert (Hout : same_outside b (kmem_mem k) m1).
  { eapply same_outside_trans; apply same_outside_fill. }
  assert (Hz : ∀ x, b <= x < b + PGSIZE → m1 x = 0) by (intros x Hx; by apply mfill_in).
  destruct (pt_ok_add _ m1 _ _ _ _ _ _ Hpt Hn Hlen Hi Hnone Hb Hfresh Hz Hout) as [Hpt' Hview].
  assert (Hk' : kabs kend k' p').
  { set (k0 := mkkmem (mfill (kmem_mem k) b 0 PGSIZE) (load64 (kmem_mem k) b)
                 (<[KREF_INDEX b:=1]> (krefcount k))).
    assert (Hk0 : kabs kend k0 p') by (by apply kabs_alloc).
    change k' with (set_mem (kmem_mem k') (set_mem m1 k0)). apply kabs_store with a.
    - apply kabs_store with b; [done..|apply same_outside_fill].
    - done.
    - simpl. set_solver.
    - intros x Hx. apply mwrite_out. rewrite length_le_split. uconst. lia. }
  split; [split; [done|done|]|split; [split|exact Hview]].
  - intros n' q. destruct (decide (n' = n ++ [i])) as [->|Hne].
    + unfold T'. rewrite fn_lookup_insert. by intros [= <-].
    + unfold T'. rewrite tree_insert_ne by done. intros Hq%Hused. simpl in *. set_solver.
  - intros n' q Hq. unfold T'. rewrite tree_insert_ne; [done|]. intros ->. congruence.
  - intros n' q. unfold T'. destruct (decide (n' = n ++ [i])) as [->|Hne].
    + rewrite fn_lookup_insert. intros [= <-]. right. simpl. split; [constructor|done].
    + rewrite tree_insert_ne by done. by left.
  - by exists [b].
  - intros q Hq. simpl. rewrite fn_lookup_insert_ne; [done|]. simpl in Hq. set_solver.
  - intros q Hq Hq'. simpl in *. assert (q = b) as -> by set_solver. apply fn_lookup_insert.
  - intros x [Hx1 Hx2]. simpl. specialize (Hx1 _ _ Hn). specialize (Hx2 b ltac:(simpl; constructor)).
    unfold store64. rewrite mwrite_out by (rewrite length_le_split; uconst; lia). apply Hout. lia.
Qed.

(** One level of [walk] with allocation. *)
Lemma walk_level k p r T n a i c (K : Z → M kmem Z) :
  vms k p r T → T n = Some a → (length n < 2)%nat → 0 <= i < 512 → LK_kmem ∉ held c →
  ∃ o k' p' T',
    (do v <- rd (a + 8 * i);
     if has v PTE_V then K (PTE2PA v)
     else
       do pt' <- kalloc;
       if pt' =? 0 then kret 0
       else memset_page pt' 0 ;;; wr (a + 8 * i) (Z.lor (PA2PTE pt') PTE_V) ;;; K pt') c k =
      match o with Some b => K b c k' | None => Ret 0 c k' end ∧
    vms k' p' r T' ∧ grows k p T k' p' T' ∧ same_view k T k' T' ∧
    adds p T p' T' (λ n', n' = n ++ [i]) ∧
    match o with Some b => T' (n ++ [i]) = Some b | None => pfree p = [] end.
Proof.
  intros Hv Hn Hlen Hi Hc. pose proof (vm_pt _ _ _ _ Hv) as Hpt. pose proof (vm_kabs _ _ _ _ Hv) as Hk.
  pose proof (pt_link _ _ _ Hpt n a i Hn Hlen Hi) as Hlk. unfold rd. kexec. rewrite has_V.
  destruct (T (n ++ [i])) as [b|] eqn:Eb.
  - destruct (table_entry b (pt_page _ _ _ Hpt _ _ Eb)) as (Epa & HV & _).
    rewrite Hlk, <- has_V, HV, Epa. exists (Some b), k, p, T. split_and!; [done|done|apply grows_refl|done|apply adds_refl|done].
  - rewrite Hlk, kalloc_run by done. cbv zeta. rewrite (chain_head_ok _ _ _ Hk).
    destruct p as [[|b l] refs]; cbn [pfree].
    + exists None, k, (mkpool [] refs), T. split_and!; [done|done|apply grows_refl|done|apply adds_refl|done].
    + pose proof (kabs_pages _ _ _ Hk) as Hpg. simpl in Hpg. apply Forall_cons in Hpg as [Hb _].
      rewrite (proj2 (Z.eqb_neq b 0)) by (by apply (page_ok_nonzero kend)).
      unfold memset_page, wr. kexec.
      destruct (grow_step k _ r T n a i b l refs Hv Hn Hlen Hi Eb eq_refl) as (Hv' & Hg & Hs).
      eexists (Some b), _, _, _. split; [|split; [exact Hv'|split; [exact Hg|split; [exact Hs|split]]]]; [done| |apply fn_lookup_insert].
      split; simpl.
      * intros n' q. destruct (decide (n' = n ++ [i])); [by right|]. rewrite tree_insert_ne by done. by left.
      * intros q [-> |Hq]%elem_of_cons; [right|by left]. exists (n ++ [i]). apply fn_lookup_insert.
Qed.

(** The table at path [n] is one of those between the root and the entry of [va]. *)
Definition on_path (n : list Z) va : Prop := n = [PX 2 va] ∨ n = [PX 2 va; PX 1 va].

(** [walk] with allocation: the level-0 table of [va] exists afterwards, unless memory ran out. *)
Lemma walk_alloc k p r T va c :
  vms k p r T → 0 <= va < MAXVA → LK_kmem ∉ held c →
  ∃ s k' p' T', walk r va true c k = Ret s c k' ∧ vms k' p' r T' ∧ grows k p T k' p' T' ∧
    same_view k T k' T' ∧ adds p T p' T' (λ n, on_path n va) ∧
    (s = 0 ∧ pfree p' = [] ∨
     ∃ b, T' [PX 2 va; PX 1 va] = Some b ∧ s = b + 8 * PX 0 va ∧ s ≠ 0).
Proof.
  intros Hv Hva Hc. unfold walk. rewrite (proj2 (Z.leb_gt _ _)) by lia.
  pose proof (pt_root _ _ _ (vm_pt _ _ _ _ Hv)) as Hr.
  destruct (walk_level k p r T [] r (PX 2 va) c (λ pt, walk_loop 1 pt va true) Hv Hr)
    as (o1 & k1 & p1 & T1 & E1 & Hv1 & Hg1 & Hs1 & Hn1 & Ho1); [simpl; lia|apply PX_range|done|].
  cbn [walk_loop] in E1 |- *. change (Z.of_nat 2) with 2. change (Z.of_nat 1) with 1 in E1 |- *.
  rewrite E1. destruct o1 as [b1|].
  2:{ exists 0, k1, p1, T1. split; [done|]. split; [done|]. split; [done|]. split; [done|].
      split; [eapply adds_trans; [exact Hn1|apply (adds_refl _ _ (λ _, False))|done|by left|done]|]. left. split; [done|].
      destruct (g_free _ _ _ _ _ _ Hg1) as [l El]. rewrite Ho1 in El. symmetry in El. by apply app_nil in El as [_ ?]. }
  destruct (walk_level k1 p1 r T1 [PX 2 va] b1 (PX 1 va) c (λ pt, walk_loop 0 pt va true) Hv1 Ho1)
    as (o2 & k2 & p2 & T2 & E2 & Hv2 & Hg2 & Hs2 & Hn2 & Ho2); [simpl; lia|apply PX_range|done|].
  cbn [walk_loop] in E2. rewrite E2.
  pose proof (grows_trans _ _ _ _ _ _ _ _ _ Hg1 Hg2) as Hg.
  assert (Hs : same_view k T k2 T2) by (intros x; by rewrite (Hs2 x), (Hs1 x)).
  assert (Hn : adds p T p2 T2 (λ n, on_path n va)).
  { eapply adds_trans; [exact Hn1|exact Hn2|apply Hg2|by left|by right]. }
  destruct o2 as [b2|].
  - exists (b2 + 8 * PX 0 va), k2, p2, T2. split_and!; [done..|]. right. exists b2. cbn [app] in Ho2.
    split_and!; [done..|]. destruct (pt_page _ _ _ (vm_pt _ _ _ _ Hv2) _ _ Ho2).
    pose proof (PX_range 0 va). uconst. lia.
  - exists 0, k2, p2, T2. split_and!; [done..|]. left. split; [done|].
    destruct (g_free _ _ _ _ _ _ Hg2) as [l El]. rewrite Ho2 in El. symmetry in El. by apply app_nil in El as [_ ?].
Qed.

(** *** Storing an entry *)

Lemma MAXVA_eq : MAXVA = 2 ^ 38.
Proof. done. Qed.

(** The view [f] with the entry of page [va] replaced by [v]. *)
Definition view_set (f : Z → Z) (va v : Z) : Z → Z :=
  λ x, if decide (x / PGSIZE = va / PGSIZE) then v else f x.

Lemma leaf_store k p r T va b v :
  vms k p r T → T [PX 2 va; PX 1 va] = Some b → 0 <= v < 2 ^ 64 → 0 <= va < MAXVA →
  let k' := set_mem (store64 (kmem_mem k) (b + 8 * PX 0 va) v) k in
  vms k' p r T ∧
  ∀ x, 0 <= x < MAXVA → pte_at (kmem_mem k') T x = view_set (pte_at (kmem_mem k) T) va v x.
Proof.
  intros [Hpt Hk Hused] Hb Hv Hva k'. destruct (pt_ok_leaf _ _ _ va b v Hpt Hb Hv) as (Hpt' & Heq & Hne).
  split; [split|].
  - done.
  - apply kabs_store with b; [done|by eapply pt_page|by eapply Hused|].
    intros x Hx. apply mwrite_out. rewrite length_le_split. pose proof (PX_range 0 va). uconst. lia.
  - done.
  - rewrite MAXVA_eq in Hva. intros x Hx. rewrite MAXVA_eq in Hx. unfold view_set. case_decide as E.
    + rewrite <- Heq. unfold pte_at. by rewrite !(PX_page _ x va) by lia.
    + apply Hne; lia.
Qed.

Lemma grows_store k p T k' p' T' n b i v :
  grows k p T k' p' T' → T' n = Some b → 0 <= i < 512 →
  grows k p T (set_mem (store64 (kmem_mem k') (b + 8 * i) v) k') p' T'.
Proof.
  intros [H1 H2 H3 H4 H5 H6] Hb Hi. split; auto. intros x Hx. simpl.
  unfold store64. rewrite mwrite_out; [by apply H6|]. rewrite length_le_split.
  destruct Hx as [Hx1 Hx2]. destruct (H2 _ _ Hb) as [Ho|[Hf _]].
  - specialize (Hx1 _ _ Ho). uconst. lia.
  - specialize (Hx2 _ Hf). uconst. lia.
Qed.

(** The view after mapping [cnt] pages from [a] to the pages from [pa]. *)
Definition map_view (f : Z → Z) (a pa perm cnt : Z) : Z → Z := λ x,
  if decide (a / PGSIZE <= x / PGSIZE < a / PGSIZE + cnt)
  then Z.lor (Z.lor (PA2PTE (pa + (x / PGSIZE - a / PGSIZE) * PGSIZE)) perm) PTE_V
  else f x.

Lemma map_entry_range pa perm : page_addr pa → attr perm →
  0 <= Z.lor (Z.lor (PA2PTE pa) perm) PTE_V < 2 ^ 64.
Proof.
  intros Hpa [Hr Hb]. rewrite <- Z.lor_assoc. apply entry_range; [done|].
  split; [by apply lor_range|]. intros n Hn. rewrite Z.lor_spec, Hb by done. by apply attr_V.
Qed.

(** The pages from [a] to [last] are not mapped. *)
Definition unmapped k T a last : Prop :=
  ∀ x, 0 <= x < MAXVA → a / PGSIZE <= x / PGSIZE <= last / PGSIZE →
    Z.testbit (pte_at (kmem_mem k) T x) 0 = false.

(** What a run of [mappages] over the pages [a], ..., [last] leaves, having mapped [cnt] of them. *)
Record mapped k p T k' p' T' r a pa perm cnt : Prop := mkmapped {
  md_vms : vms k' p' r T';
  md_grows : grows k p T k' p' T';
  md_view : ∀ x, 0 <= x < MAXVA →
    pte_at (kmem_mem k') T' x = map_view (pte_at (kmem_mem k) T) a pa perm cnt x
}.

Lemma page_step a : a mod PGSIZE = 0 → (a + PGSIZE) mod PGSIZE = 0 ∧ (a + PGSIZE) / PGSIZE = a / PGSIZE + 1.
Proof. unfold PGSIZE. intros. Z.div_mod_to_equations. lia. Qed.

Lemma map_view_step f a pa perm cnt x :
  a mod PGSIZE = 0 → 0 <= cnt →
  map_view (view_set f a (Z.lor (Z.lor (PA2PTE pa) perm) PTE_V)) (a + PGSIZE) (pa + PGSIZE) perm cnt x =
  map_view f a pa perm (cnt + 1) x.
Proof.
  intros Ha Hc. destruct (page_step a Ha) as [_ E]. unfold map_view, view_set. rewrite E.
  destruct (decide (x / PGSIZE = a / PGSIZE)) as [Ex|Hne].
  - rewrite (decide_False (P := a / PGSIZE + 1 <= _ < _)), (decide_True (P := a / PGSIZE <= _ < _)) by lia.
    rewrite Ex, Z.sub_diag, Z.mul_0_l, Z.add_0_r. done.
  - destruct (decide (a / PGSIZE + 1 <= x / PGSIZE < a / PGSIZE + 1 + cnt)) as [H|H].
    + rewrite (decide_True (P := a / PGSIZE <= _ < _)) by lia. do 3 f_equal. lia.
    + rewrite (decide_False (P := a / PGSIZE <= _ < _)) by lia. done.
Qed.

Lemma map_view_0 f a pa perm x : map_view f a pa perm 0 x = f x.
Proof. unfold map_view. rewrite decide_False by lia. done. Qed.

(** One iteration of the loop of [mappages]. *)
Lemma map_page k p T a pa r perm c :
  vms k p r T → LK_kmem ∉ held c → a mod PGSIZE = 0 → 0 <= a < MAXVA → unmapped k T a a →
  page_addr pa → attr perm →
  (∃ k1 p1 T1, walk r a true c k = Ret 0 c k1 ∧ mapped k p T k1 p1 T1 r a pa perm 0 ∧ pfree p1 = [] ∧
    adds p T p1 T1 (λ n, on_path n a)) ∨
  (∃ s k1 p1 T1, walk r a true c k = Ret s c k1 ∧ s ≠ 0 ∧ has (load64 (kmem_mem k1) s) PTE_V = false ∧
    mapped k p T (set_mem (store64 (kmem_mem k1) s (Z.lor (Z.lor (PA2PTE pa) perm) PTE_V)) k1) p1 T1
      r a pa perm 1 ∧ adds p T p1 T1 (λ n, on_path n a)).
Proof.
  intros Hv Hc Ha Ha0 Hun Hpa Hperm.
  destruct (walk_alloc k p r T a c Hv) as (s & k1 & p1 & T1 & E1 & Hv1 & Hg1 & Hs1 & Hn1 & Hres); [lia|done|].
  destruct Hres as [[-> Hemp] | (b & Hb & -> & Hnz)].
  { left. exists k1, p1, T1. split; [done|]. split; [|done]. split; [done|done|].
    intros x Hx. rewrite map_view_0. apply Hs1. }
  right. exists (b + 8 * PX 0 a), k1, p1, T1. split; [done|]. split; [done|].
  assert (Hload : load64 (kmem_mem k1) (b + 8 * PX 0 a) = pte_at (kmem_mem k1) T1 a).
  { unfold pte_at. by rewrite Hb. }
  split; [by rewrite has_V, Hload, (Hs1 a), (Hun a)|].
  destruct (leaf_store k1 p1 r T1 a b (Z.lor (Z.lor (PA2PTE pa) perm) PTE_V) Hv1 Hb) as [Hv2 Hview2];
    [by apply map_entry_range|done|].
  split; [|done]. split; [done|by eapply grows_store; [..|apply PX_range]|].
  intros x Hx. rewrite Hview2 by done.
  replace 1 with (0 + 1) by lia. rewrite <- map_view_step, map_view_0 by (done || lia).
  unfold view_set. case_decide; [done|apply Hs1].
Qed.

Lemma mapped_step k p T k1 p1 T1 k2 p2 T2 r a pa perm cnt :
  a mod PGSIZE = 0 → 0 <= cnt →
  mapped k p T k1 p1 T1 r a pa perm 1 → mapped k1 p1 T1 k2 p2 T2 r (a + PGSIZE) (pa + PGSIZE) perm cnt →
  mapped k p T k2 p2 T2 r a pa perm (cnt + 1).
Proof.
  intros Ha Hcnt [Hv1 Hg1 Hw1] [Hv2 Hg2 Hw2]. split; [done|by eapply grows_trans|].
  intros x Hx. rewrite Hw2 by done. rewrite <- map_view_step by done.
  unfold map_view at 1 2. case_decide; [done|]. rewrite Hw1 by done.
  replace 1 with (0 + 1) by lia. rewrite <- map_view_step, map_view_0 by (done || lia). done.
Qed.

Lemma page_addr_step pa : page_addr pa → pa + PGSIZE < 2 ^ 54 → page_addr (pa + PGSIZE).
Proof. intros [H1 H2] Hlt. split; [by apply page_step|uconst; lia]. Qed.

(** Tables for the pages [a], ..., [last]. *)
Definition on_pages a last (n : list Z) : Prop :=
  ∃ x, on_path n x ∧ 0 <= x < MAXVA ∧ a / PGSIZE <= x / PGSIZE <= last / PGSIZE.

Lemma map_loop_ok N : ∀ fuel k p T a pa r perm c,
  vms k p r T → LK_kmem ∉ held c → a mod PGSIZE = 0 → 0 <= a →
  a + Z.of_nat N * PGSIZE < MAXVA → (N < fuel)%nat → unmapped k T a (a + Z.of_nat N * PGSIZE) →
  page_addr pa → pa + Z.of_nat N * PGSIZE < 2 ^ 54 → attr perm →
  ∃ res k' p' T' cnt,
    map_loop fuel r a (a + Z.of_nat N * PGSIZE) pa perm c k = Ret res c k' ∧
    mapped k p T k' p' T' r a pa perm cnt ∧ adds p T p' T' (on_pages a (a + Z.of_nat N * PGSIZE)) ∧
    (res = 0 ∧ cnt = Z.of_nat N + 1 ∨ res = -1 ∧ 0 <= cnt <= Z.of_nat N ∧ pfree p' = []).
Proof.
  induction N as [|N IH]; intros fuel k p T a pa r perm c Hv Hc Ha Ha0 Hlast Hfuel Hun Hpa Hpal Hperm;
    (destruct fuel as [|fuel]; [lia|]); cbn [map_loop].
  all: assert (Hun1 : unmapped k T a a)
    by (intros x Hx Hx'; apply Hun; [done|]; split; [lia|]; transitivity (a / PGSIZE); [lia|];
        apply Z.div_le_mono; uconst; lia).
  all: destruct (map_page k p T a pa r perm c Hv Hc Ha ltac:(uconst; lia) Hun1 Hpa Hperm)
    as [(k1 & p1 & T1 & E1 & Hm1 & Hemp & Had) | (s & k1 & p1 & T1 & E1 & Hs & HV & Hm1 & Had)]; kstep E1.
  all: assert (Hsub : ∀ N' : Z, 0 <= N' → ∀ n, on_path n a → on_pages a (a + N' * PGSIZE) n)
    by (intros N' HN n Hn; exists a; split_and!; [done|uconst; lia..|apply Z.div_le_mono; uconst; lia]).
  all: assert (Had1 : ∀ N' : Z, 0 <= N' → adds p T p1 T1 (on_pages a (a + N' * PGSIZE)))
    by (intros N' HN; eapply adds_trans; [exact Had|apply (adds_refl _ _ (λ _, False))|done|by apply Hsub|done]).
  1, 3: exists (-1), k1, p1, T1, 0; split; [done|]; split; [done|]; split; [apply Had1; lia|]; right; split_and!; [done|lia|lia|done].
  all: rewrite (proj2 (Z.eqb_neq _ 0)) by done; unfold rd, wr; kexec; rewrite HV; kexec;
    set (k2 := set_mem _ k1) in *.
  - rewrite (proj2 (Z.eqb_eq _ _)) by lia. exists 0, k2, p1, T1, 1. split; [done|].
    split; [done|]. split; [apply Had1; lia|]. left. split; [done|lia].
  - rewrite (proj2 (Z.eqb_neq _ _)) by (uconst; lia). destruct Hpa as [Hpa1 Hpa2].
    rewrite !u64_small by (uconst; lia).
    replace (a + Z.of_nat (S N) * PGSIZE) with ((a + PGSIZE) + Z.of_nat N * PGSIZE) in * by lia.
    destruct (page_step a Ha) as [Ha1 Ha2].
    destruct (IH fuel k2 p1 T1 (a + PGSIZE) (pa + PGSIZE) r perm c) as (res & k' & p' & T' & cnt & E & Hm & Had2 & Hres);
      [apply Hm1|done|done|uconst; lia|done|lia| |apply page_addr_step; [done|uconst; lia]|uconst; lia|done|].
    + intros x Hx Hx'. rewrite (md_view _ _ _ _ _ _ _ _ _ _ _ Hm1) by done.
      unfold map_view. rewrite decide_False by lia. apply Hun; [done|lia].
    + exists res, k', p', T', (cnt + 1). split; [exact E|].
      split; [eapply mapped_step; eauto; destruct Hres as [[_ ->]|]; lia|]. split.
      { rewrite Z.add_shuffle0 in Had2 |- *. replace (a + Z.of_nat N * PGSIZE + PGSIZE) with (a + Z.of_nat (S N) * PGSIZE) in * by lia.
        eapply adds_trans; [apply (Had1 (Z.of_nat (S N))); lia|exact Had2|apply Hm|done|].
        intros n (x & ? & ? & ?). exists x. split_and!; [done|lia..]. }
      destruct Hres as [[-> ->] | (-> & ? & ?)]; [left|right]; split_and!; try done; lia.
Qed.

(** [mappages] over [cnt] whole pages. *)
Lemma mappages_ok k p T r va npages pa perm c :
  vms k p r T → LK_kmem ∉ held c → va mod PGSIZE = 0 → 0 <= va → 0 < npages →
  va + npages * PGSIZE <= MAXVA → unmapped k T va (va + (npages - 1) * PGSIZE) →
  page_addr pa → pa + npages * PGSIZE <= 2 ^ 54 → attr perm →
  ∃ res k' p' T' cnt, mappages r va (npages * PGSIZE) pa perm c k = Ret res c k' ∧
    mapped k p T k' p' T' r va pa perm cnt ∧ adds p T p' T' (on_pages va (va + (npages - 1) * PGSIZE)) ∧
    (res = 0 ∧ cnt = npages ∨ res = -1 ∧ 0 <= cnt < npages ∧ pfree p' = []).
Proof.
  intros Hv Hc Hva Hva0 Hnp Hmax Hun Hpa Hpal Hperm.
  assert (Hlast : PGROUNDDOWN (u64 (va + npages * PGSIZE - 1)) = va + Z.of_nat (Z.to_nat (npages - 1)) * PGSIZE).
  { rewrite u64_small, PGROUNDDOWN_eq by (uconst; lia). rewrite Z2Nat.id by lia. uconst. Z.div_mod_to_equations. lia. }
  assert (Hfirst : PGROUNDDOWN va = va) by (rewrite PGROUNDDOWN_eq by (uconst; lia); lia).
  unfold mappages. rewrite Hfirst, Hlast.
  destruct (map_loop_ok (Z.to_nat (npages - 1)) (map_fuel va (va + Z.of_nat (Z.to_nat (npages - 1)) * PGSIZE))
    k p T va pa r perm c) as (res & k' & p' & T' & cnt & E & Hm & Had & Hres); try done; try (uconst; lia).
  - unfold map_fuel. rewrite Z2Nat.id by lia. rewrite (proj2 (Z.ltb_ge _ _)), Z.min_l by (uconst; lia).
    replace (va + (npages - 1) * PGSIZE - va) with ((npages - 1) * PGSIZE) by lia.
    rewrite Z.div_mul by done. lia.
  - by rewrite Z2Nat.id by lia.
  - exists res, k', p', T', cnt. split; [done|]. split; [done|]. rewrite Z2Nat.id in Had by lia. split; [done|].
    destruct Hres as [[-> ->] | (-> & ? & ?)]; [left|right]; split_and!; try done; lia.
Qed.

(** *** Copy-on-write faults *)

(** A page of user memory: allocated, and not one of the tables. *)
Record user_page p T a : Prop := mkup {
  up_ok : page_ok kend a;
  up_used : a ∉ pfree p;
  up_table : ∀ n, T n ≠ Some a;
  up_refs : 1 <= prefs p a
}.

Lemma testbit_attrs v (n : Z) : 0 <= v < 2 ^ 64 → 0 <= n →
  Z.testbit (pte_attrs v) n = Z.testbit v n && negb ((10 <=? n) && (n <? 54)).
Proof.
  intros Hv Hn. unfold pte_attrs. rewrite Z.land_spec, testbit_u64 by done.
  change 0x003FFFFFFFFFFC00 with (Z.shiftl (Z.ones 44) 10). rewrite Z.lnot_spec by done.
  destruct (Z.ltb_spec n 64).
  - simpl. f_equal. f_equal. rewrite Z.shiftl_spec by done.
    destruct (Z.leb_spec 10 n), (Z.ltb_spec n 54); simpl.
    + apply Z.ones_spec_low. lia.
    + apply Z.ones_spec_high. lia.
    + apply Z.testbit_neg_r. lia.
    + lia.
  - by rewrite (bits_above64 v) by lia.
Qed.

Lemma attr_intro fl : 0 <= fl → (∀ n : Z, 0 <= n → 10 <= n < 54 ∨ 64 <= n → Z.testbit fl n = false) → attr fl.
Proof.
  intros H0 Hb. split; [|intros n Hn; apply Hb; lia]. split; [done|].
  apply u64_bits_range; [|done]. intros n Hn. apply Hb; lia.
Qed.

(** The new entry of a page that was copied. *)
Definition cow_entry (mem v : Z) : Z := Z.lor (Z.lor (PA2PTE mem) (attrs_from_cow (pte_attrs v))) PTE_V.

Lemma testbit_from_cow v (n : Z) : 0 <= v < 2 ^ 64 → 0 <= n →
  Z.testbit (attrs_from_cow (pte_attrs v)) n =
    (n =? 2) || Z.testbit v n && negb ((10 <=? n) && (n <? 54)) && negb (n =? 8).
Proof.
  intros Hv Hn. unfold attrs_from_cow, PTE_W, PTE_COW. rewrite !Z.shiftl_1_l.
  rewrite Z.land_spec, Z.lor_spec, testbit_attrs, testbit_u64, Z.lnot_spec by done.
  rewrite !Z.pow2_bits_eqb by lia. rewrite (Z.eqb_sym 2), (Z.eqb_sym 8).
  destruct (Z.eqb_spec n 2) as [->|]; [by rewrite orb_true_r|].
  destruct (Z.eqb_spec n 8) as [->|]; simpl; rewrite ?andb_false_r, ?orb_false_r, ?andb_true_r; [done|].
  destruct (Z.ltb_spec n 64); [by rewrite !andb_true_r|]. rewrite (bits_above64 v) by lia. done.
Qed.

Lemma attr_from_cow v : 0 <= v < 2 ^ 64 → attr (attrs_from_cow (pte_attrs v)).
Proof.
  intros Hv. apply attr_intro.
  - unfold attrs_from_cow. apply Z.land_nonneg. right. apply u64_range.
  - intros n Hn0 Hn. rewrite testbit_from_cow by done.
    destruct (Z.eqb_spec n 2); [lia|]. simpl. destruct Hn as [Hn|Hn].
    + destruct (Z.leb_spec 10 n), (Z.ltb_spec n 54); try lia.
    + by rewrite (bits_above64 v) by lia.
Qed.

(** It names the new page, is valid and writable, no longer copy-on-write, and as accessible to
    user code as before. *)
Lemma cow_entry_ok mem v : page_ok kend mem → 0 <= v < 2 ^ 64 →
  PTE2PA (cow_entry mem v) = mem ∧ 0 <= cow_entry mem v < 2 ^ 64 ∧
  has (cow_entry mem v) PTE_V = true ∧ has (cow_entry mem v) PTE_W = true ∧
  has (cow_entry mem v) PTE_COW = false ∧ has (cow_entry mem v) PTE_U = has v PTE_U.
Proof.
  intros Hm%page_ok_addr Hv. pose proof (attr_from_cow v Hv) as Ha.
  assert (Ha' : attr (Z.lor (attrs_from_cow (pte_attrs v)) PTE_V)).
  { split; [apply lor_range; [apply Ha|done]|]. intros n Hn. rewrite Z.lor_spec.
    rewrite (proj2 Ha) by done. by apply attr_V. }
  assert (E : cow_entry mem v = Z.lor (PA2PTE mem) (Z.lor (attrs_from_cow (pte_attrs v)) PTE_V)).
  { unfold cow_entry. by rewrite Z.lor_assoc. }
  rewrite E. split; [by apply PTE2PA_entry|]. split; [by apply entry_range|].
  unfold PTE_V at 2, PTE_W, PTE_COW, PTE_U. rewrite !has_bit by lia.
  rewrite !testbit_entry_low by (done || lia). rewrite !Z.lor_spec, !testbit_from_cow by (done || lia).
  unfold PTE_V. rewrite Z.shiftl_1_l, !Z.pow2_bits_eqb by lia.
  generalize (Z.testbit v 0) (Z.testbit v 2) (Z.testbit v 4) (Z.testbit v 8).
  by intros [] [] [] [].
Qed.

(** [kfree] of a user page keeps the tables. *)
Lemma vms_kfree k p r T a c :
  vms k p r T → user_page p T a → LK_kmem ∉ held c →
  ∃ k', kfree kend a c k = Ret tt c k' ∧ vms k' (pool_free a p) r T ∧ same_view k T k' T ∧
    ∀ x, (prefs p a <= 1 → ¬ (a <= x < a + PGSIZE)) → kmem_mem k' x = kmem_mem k x.
Proof.
  intros [Hpt Hk Hused] [Ha Hni Htab Href] Hc. eexists. split; [by apply kfree_run|].
  pose proof (kabs_free kend Hend k p a Hk Ha Hni) as Hk'. rewrite (kabs_refs _ _ _ Hk a Ha) in *.
  set (k' := if 1 <? _ then _ else _) in *.
  assert (Hmem : ∀ x, (prefs p a <= 1 → ¬ (a <= x < a + PGSIZE)) → kmem_mem k' x = kmem_mem k x).
  { intros x Hx. unfold k'. destruct (Z.ltb_spec 1 (prefs p a)); [done|]. simpl.
    specialize (Hx ltac:(lia)). rewrite (same_outside_store _ a) by lia. apply mfill_out. lia. }
  destruct (pt_ok_frame _ (kmem_mem k') _ _ Hpt) as [Hpt' Hview].
  { intros n q x Hq Hx. apply Hmem. intros _ Hxa.
    assert (q ≠ a) by (intros ->; by eapply Htab).
    destruct (page_disjoint kend q a); [by eapply pt_page|done|done|lia|lia]. }
  split; [split; [done|done|]|split; [done|done]].
  intros n q Hq. unfold pool_free. destruct (1 <? prefs p a); simpl; [by eapply Hused|].
  apply not_elem_of_cons. split; [intros ->; by eapply Htab|by eapply Hused].
Qed.

(** Taking a page from the pool and filling it. *)
Lemma vms_alloc k r T a l refs m' :
  vms k (mkpool (a :: l) refs) r T → same_outside a (kmem_mem k) m' →
  let k' := mkkmem m' (load64 (kmem_mem k) a) (<[KREF_INDEX a:=1]> (krefcount k)) in
  vms k' (mkpool l (<[a:=1]> refs)) r T ∧ same_view k T k' T ∧
  user_page (mkpool l (<[a:=1]> refs)) T a.
Proof.
  intros [Hpt Hk Hused] Hout k'.
  pose proof (kabs_pages _ _ _ Hk) as Hpg. simpl in Hpg. apply Forall_cons in Hpg as [Ha _].
  pose proof (kabs_nodup _ _ _ Hk) as Hnd. simpl in Hnd. apply NoDup_cons in Hnd as [Hal _].
  assert (Hfresh : ∀ n, T n ≠ Some a) by (intros n E; apply (Hused n a E); constructor).
  assert (Hk' : kabs kend k' (mkpool l (<[a:=1]> refs))).
  { change k' with (set_mem m' (mkkmem (mfill (kmem_mem k) a 0 PGSIZE) (load64 (kmem_mem k) a)
      (<[KREF_INDEX a:=1]> (krefcount k)))). apply kabs_store with a; [by apply kabs_alloc|done|done|].
    intros x Hx. simpl. rewrite (mfill_out _ a 0 PGSIZE) by lia. by apply Hout. }
  destruct (pt_ok_frame _ m' _ _ Hpt) as [Hpt' Hview].
  { intros n q x Hq Hx. apply Hout. assert (q ≠ a) by (intros ->; by eapply Hfresh).
    destruct (page_disjoint kend q a); [by eapply pt_page|done|done|lia|lia]. }
  split_and!; [split; [done|done|]|done|split; simpl; [done|done|done|rewrite fn_lookup_insert; lia]].
  intros n q Hq%Hused. simpl in *. set_solver.
Qed.

Lemma cow_fault_ok k p r T va b v c :
  vms k p r T → T [PX 2 va; PX 1 va] = Some b → 0 <= va < MAXVA →
  pte_at (kmem_mem k) T va = v → 0 <= v < 2 ^ 64 → user_page p T (PTE2PA v) → LK_kmem ∉ held c →
  match pfree p with
  | [] => cow_fault kend (b + 8 * PX 0 va) c k = Ret 0 c k
  | mem :: l => ∃ k', cow_fault kend (b + 8 * PX 0 va) c k = Ret mem c k' ∧
      vms k' (pool_free (PTE2PA v) (mkpool l (<[mem:=1]> (prefs p)))) r T ∧
      (∀ x, 0 <= x < MAXVA → pte_at (kmem_mem k') T x =
         view_set (pte_at (kmem_mem k) T) va (cow_entry mem v) x) ∧
      (∀ j, 0 <= j < PGSIZE → kmem_mem k' (mem + j) = kmem_mem k (PTE2PA v + j)) ∧
      (∀ x, (∀ n q, T n = Some q → ¬ (q <= x < q + PGSIZE)) → ¬ (mem <= x < mem + PGSIZE) →
         (prefs p (PTE2PA v) <= 1 → ¬ (PTE2PA v <= x < PTE2PA v + PGSIZE)) →
         kmem_mem k' x = kmem_mem k x)
  end.
Proof.
  intros Hv Hb Hva Ev Hvr Hup Hc. pose proof (vm_kabs _ _ _ _ Hv) as Hk.
  set (a := PTE2PA v) in *. destruct (Hup) as [Ha Hni Htab Href].
  assert (Hload : load64 (kmem_mem k) (b + 8 * PX 0 va) = v) by (rewrite <- Ev; unfold pte_at; by rewrite Hb).
  unfold cow_fault, rd. kexec. rewrite kalloc_run by done. cbv zeta. rewrite (chain_head_ok _ _ _ Hk), Hload.
  fold a. destruct p as [[|mem l] refs]; cbn [pfree prefs] in *; [done|].
  pose proof (kabs_pages _ _ _ Hk) as Hpg. simpl in Hpg. apply Forall_cons in Hpg as [Hmem _].
  rewrite (proj2 (Z.eqb_neq mem 0)) by (by apply (page_ok_nonzero kend)). unfold kmemmove, wr. kexec.
  cbn [set_mem kmem_mem freelist krefcount].
  set (m2 := mcopy _ mem a PGSIZE).
  assert (Hna : a ≠ mem) by (intros ->; set_solver).
  assert (Hm2in : ∀ j, 0 <= j < PGSIZE → m2 (mem + j) = kmem_mem k (a + j)).
  { intros j Hj. unfold m2. rewrite mcopy_spec by done.
    rewrite (proj2 (Z.leb_le _ _)), (proj2 (Z.ltb_lt _ _)) by lia. simpl.
    rewrite mfill_out; [f_equal; lia|]. destruct (page_disjoint kend a mem); [done..|lia|lia]. }
  assert (Hm2out : same_outside mem (kmem_mem k) m2).
  { intros x Hx. unfold m2. rewrite mcopy_spec by done.
    destruct (Z.leb_spec mem x), (Z.ltb_spec x (mem + PGSIZE)); simpl; try lia; apply mfill_out; lia. }
  destruct (vms_alloc k r T mem l refs m2 Hv Hm2out) as (Hv2 & Hs2 & Hupm).
  set (k2 := mkkmem m2 _ _) in *. set (p2 := mkpool l _) in *.
  destruct (cow_entry_ok mem v Hmem Hvr) as (Epa & Her & _).
  destruct (leaf_store k2 p2 r T va b (cow_entry mem v) Hv2 Hb Her Hva) as [Hv3 Hview3].
  set (k3 := set_mem _ k2) in *.
  assert (Hup3 : user_page p2 T a).
  { split; [done| |done|]; simpl; [set_solver|]. by rewrite fn_lookup_insert_ne. }
  destruct (vms_kfree k3 p2 r T a c Hv3 Hup3 Hc) as (k4 & E4 & Hv4 & Hs4 & Hmem4).
  fold (cow_entry mem v). change (set_mem (store64 m2 _ _) _) with k3. rewrite E4. kexec.
  assert (Hp2a : prefs p2 a = refs a) by (simpl; by rewrite fn_lookup_insert_ne).
  exists k4. split; [done|]. split; [done|]. split_and!.
  - intros x Hx. rewrite (Hs4 x), Hview3 by done. unfold view_set. case_decide; [done|apply Hs2].
  - intros j Hj. rewrite Hmem4.
    + simpl. unfold store64. rewrite mwrite_out; [by apply Hm2in|]. rewrite length_le_split.
      pose proof (PX_range 0 va). assert (b ≠ mem) by (intros ->; by eapply (up_table _ _ _ Hupm)).
      destruct (page_disjoint kend b mem); [by eapply pt_page; [apply Hv|]|done|done|uconst; lia|uconst; lia].
    + intros _. destruct (page_disjoint kend a mem); [done..|lia|lia].
  - intros x Hx1 Hx2 Hx3. rewrite Hmem4 by (by rewrite Hp2a). simpl. unfold store64. rewrite mwrite_out.
    + apply Hm2out. lia.
    + rewrite length_le_split. specialize (Hx1 _ _ Hb). pose proof (PX_range 0 va). uconst. lia.
Qed.

(** *** User address spaces

    Below its size, a process sees memory that is mapped or reads as zero: [uread] is that view.
    [uspace] is what the code keeps of a process's table: pages below [sz] are distinct allocated
    pages, an entry that may be written without a fault is the only reference to its page, and nothing
    above [sz] is open to user code. *)

(** The page of [x] is below [sz]. *)
Definition below (sz x : Z) : Prop := 0 <= x ∧ x / PGSIZE * PGSIZE < sz.

Definition valid k T x : Prop := has (pte_at (kmem_mem k) T x) PTE_V = true.
Definition upage k T x : Z := PTE2PA (pte_at (kmem_mem k) T x).

Definition uread k T x : Z :=
  if has (pte_at (kmem_mem k) T x) PTE_V then kmem_mem k (upage k T x + x mod PGSIZE) else 0.

Record uspace k p T sz : Prop := mkus {
  us_sz : 0 <= sz <= TRAPFRAME;
  us_range : ∀ x, below sz x → valid k T x → 0 <= pte_at (kmem_mem k) T x < 2 ^ 64;
  us_page : ∀ x, below sz x → valid k T x → user_page p T (upage k T x);
  us_inj : ∀ x y, below sz x → below sz y → valid k T x → valid k T y →
    upage k T x = upage k T y → x / PGSIZE = y / PGSIZE;
  us_excl : ∀ x, below sz x → valid k T x → has (pte_at (kmem_mem k) T x) PTE_W = true →
    has (pte_at (kmem_mem k) T x) PTE_COW = false → prefs p (upage k T x) = 1;
  us_top : ∀ x, 0 <= x < MAXVA → ¬ below sz x → valid k T x → has (pte_at (kmem_mem k) T x) PTE_U = false
}.

(** Address [x] belongs to someone else: it is in no table of [T], in no free page, and in no page
    that only this process refers to. *)
Definition foreign k p T sz x : Prop :=
  untouched T p x ∧
  ∀ y, below sz y → valid k T y → upage k T y <= x < upage k T y + PGSIZE → 2 <= prefs p (upage k T y).

(** A step that changes the mapping but not what the process sees, nor anyone else's memory. *)
Record ustep r sz k p T k' p' T' : Prop := mkstep {
  st_vms : vms k' p' r T';
  st_us : uspace k' p' T' sz;
  st_read : ∀ x, below sz x → uread k' T' x = uread k T x;
  st_maps : ∀ x, below sz x → valid k' T' x →
    valid k T x ∧ upage k' T' x = upage k T x ∨ upage k' T' x ∈ pfree p;
  st_foreign : ∀ x, foreign k p T sz x → foreign k' p' T' sz x ∧ kmem_mem k' x = kmem_mem k x
}.

Lemma ustep_refl r sz k p T : vms k p r T → uspace k p T sz → ustep r sz k p T k p T.
Proof. intros. split; auto. Qed.

Lemma uspace_view k k' p T sz :
  (∀ x, pte_at (kmem_mem k') T x = pte_at (kmem_mem k) T x) → uspace k p T sz → uspace k' p T sz.
Proof.
  intros Hview [H1 H2 H3 H4 H5 H6]. unfold valid, upage in *. split; [done|..]; unfold valid, upage.
  - intros x. rewrite Hview. apply H2.
  - intros x. rewrite Hview. apply H3.
  - intros x y. rewrite !Hview. apply H4.
  - intros x. rewrite Hview. apply H5.
  - intros x. rewrite Hview. apply H6.
Qed.

Lemma below_maxva sz x : sz <= TRAPFRAME → below sz x → 0 <= x < MAXVA.
Proof. intros Hs [H1 H2]. uconst. Z.div_mod_to_equations. lia. Qed.

Lemma below_page sz x y : 0 <= y → x / PGSIZE = y / PGSIZE → below sz x → below sz y.
Proof. intros Hy E [H1 H2]. split; [done|]. by rewrite <- E. Qed.

Lemma pte_at_page m T x y : 0 <= x → 0 <= y → x / PGSIZE = y / PGSIZE → pte_at m T x = pte_at m T y.
Proof. intros. unfold pte_at. by rewrite !(PX_page _ x y) by lia. Qed.

Lemma user_page_untouched k p r T a x :
  vms k p r T → user_page p T a → a <= x < a + PGSIZE → untouched T p x.
Proof.
  intros Hv [H1 H2 H3 H4] Hx.
  pose proof (kabs_pages _ _ _ (vm_kabs _ _ _ _ Hv)) as Hpg. rewrite Forall_forall in Hpg.
  split; [intros n q Hq Hin|intros q Hq Hin].
  - assert (q ≠ a) by (intros ->; by eapply H3).
    destruct (page_disjoint kend q a); [by eapply pt_page; [apply Hv|]|done|done|lia|lia].
  - assert (q ≠ a) by (by intros ->). destruct (page_disjoint kend q a); [by apply Hpg|done|done|lia|lia].
Qed.

(** Only tables and zero pages were added. *)
Lemma ustep_grow r sz k p T k' p' T' :
  vms k p r T → uspace k p T sz → vms k' p' r T' → grows k p T k' p' T' →
  (∀ x, 0 <= x < MAXVA → pte_at (kmem_mem k') T' x = pte_at (kmem_mem k) T x) →
  ustep r sz k p T k' p' T'.
Proof.
  intros Hv Hu Hv' Hg Hview. pose proof (us_sz _ _ _ _ Hu) as Hsz.
  assert (Hview' : ∀ x, below sz x → pte_at (kmem_mem k') T' x = pte_at (kmem_mem k) T x).
  { intros x Hx. apply Hview. eapply below_maxva; [|done]. lia. }
  assert (Hval : ∀ x, below sz x → valid k' T' x → valid k T x) by (intros x Hx; unfold valid; by rewrite Hview').
  assert (Hup : ∀ x, below sz x → upage k' T' x = upage k T x) by (intros x Hx; unfold upage; by rewrite Hview').
  assert (Href : ∀ x, below sz x → valid k T x → prefs p' (upage k T x) = prefs p (upage k T x)).
  { intros x Hx Hvx. apply (g_refs _ _ _ _ _ _ Hg), (us_page _ _ _ _ Hu x Hx Hvx). }
  assert (Hunt : ∀ x, untouched T p x → untouched T' p' x).
  { intros x [H1 H2]. split.
    - intros n a [?|[? _]]%(g_pages _ _ _ _ _ _ Hg); eauto.
    - intros a ?%(grows_free _ _ _ _ _ _ _ Hg). eauto. }
  split; [done|split| | |].
  - done.
  - intros x Hx Hvx. rewrite Hview' by done. apply (us_range _ _ _ _ Hu); eauto.
  - intros x Hx Hvx. rewrite Hup by done. destruct (us_page _ _ _ _ Hu x Hx (Hval x Hx Hvx)) as [H1 H2 H3 H4].
    split; [done| | |by rewrite Href by eauto].
    + intros ?%(grows_free _ _ _ _ _ _ _ Hg). done.
    + intros n [?|[? _]]%(g_pages _ _ _ _ _ _ Hg); [by eapply H3|done].
  - intros x y Hx Hy Hvx Hvy. rewrite !Hup by done. apply (us_inj _ _ _ _ Hu); eauto.
  - intros x Hx Hvx. rewrite Hview', Hup, Href by eauto. apply (us_excl _ _ _ _ Hu); eauto.
  - intros x Hx Hnb. unfold valid. rewrite Hview by done. by apply (us_top _ _ _ _ Hu).
  - intros x Hx. unfold uread, upage. rewrite Hview' by done. destruct (has _ PTE_V) eqn:E; [|done].
    apply (g_mem _ _ _ _ _ _ Hg), (user_page_untouched k p r T (upage k T x)); [done|by apply Hu|].
    pose proof (Z.mod_pos_bound x PGSIZE eq_refl). unfold upage. lia.
  - intros x Hx Hvx. left. split; [by apply Hval|by apply Hup].
  - intros x [Hx1 Hx2]. split; [|by apply (g_mem _ _ _ _ _ _ Hg)]. split; [by apply Hunt|].
    intros y Hy Hvy. rewrite Hup, Href by eauto. eauto.
Qed.

(** The entry of page [va] became [e], which names [mem], a page that was free; the page it named
    before, if any, is no longer this process's. *)
Record replaces k p T k' p' T' va e mem : Prop := mkrep {
  rp_view : ∀ x, 0 <= x < MAXVA → pte_at (kmem_mem k') T' x = view_set (pte_at (kmem_mem k) T) va e x;
  rp_entry : 0 <= e < 2 ^ 64 ∧ has e PTE_V = true ∧ PTE2PA e = mem;
  rp_mem : mem ∈ pfree p ∧ (mem ∉ pfree p') ∧ prefs p' mem = 1 ∧ ∀ n, T' n ≠ Some mem;
  rp_moved : ∀ j, 0 <= j < PGSIZE → kmem_mem k' (mem + j) = uread k T (va / PGSIZE * PGSIZE + j);
  rp_tables : ∀ n a, T' n = Some a → T n = Some a ∨ a ∈ pfree p;
  rp_free : ∀ a, a ∈ pfree p' → a ∈ pfree p ∨ valid k T va ∧ a = upage k T va ∧ prefs p a <= 1;
  rp_refs : ∀ a, a ∉ pfree p → (valid k T va → a ≠ upage k T va) → prefs p' a = prefs p a;
  rp_frame : ∀ x, untouched T p x →
    (valid k T va → prefs p (upage k T va) <= 1 → ¬ (upage k T va <= x < upage k T va + PGSIZE)) →
    kmem_mem k' x = kmem_mem k x
}.

Section replace.
Context (r sz va e mem : Z) (k k' : kmem) (p p' : pool) (T T' : tree).
Context (Hv : vms k p r T) (Hu : uspace k p T sz) (Hv' : vms k' p' r T') (Hva : below sz va).
Context (Hr : replaces k p T k' p' T' va e mem).

Lemma replace_other x : below sz x → x / PGSIZE ≠ va / PGSIZE →
  pte_at (kmem_mem k') T' x = pte_at (kmem_mem k) T x.
Proof.
  intros Hx Hne. pose proof (us_sz _ _ _ _ Hu). rewrite (rp_view _ _ _ _ _ _ _ _ _ Hr) by (eapply below_maxva; [|done]; lia).
  unfold view_set. by rewrite decide_False.
Qed.

Lemma replace_new x : below sz x → x / PGSIZE = va / PGSIZE → pte_at (kmem_mem k') T' x = e.
Proof.
  intros Hx Heq. pose proof (us_sz _ _ _ _ Hu). rewrite (rp_view _ _ _ _ _ _ _ _ _ Hr) by (eapply below_maxva; [|done]; lia).
  unfold view_set. by rewrite decide_True.
Qed.

(** The other pages of the process stay its own. *)
Lemma replace_kept x : below sz x → x / PGSIZE ≠ va / PGSIZE → valid k T x →
  user_page p' T' (upage k T x) ∧ prefs p' (upage k T x) = prefs p (upage k T x) ∧
  upage k T x ≠ mem ∧ (valid k T va → upage k T x ≠ upage k T va).
Proof.
  intros Hx Hne Hvx. destruct (us_page _ _ _ _ Hu x Hx Hvx) as [H1 H2 H3 H4].
  destruct Hr as [_ _ (Hmem & _) _ HT Hfree Href _].
  assert (Hd : valid k T va → upage k T x ≠ upage k T va).
  { intros Hvv E. apply Hne. by apply (us_inj _ _ _ _ Hu). }
  assert (E : prefs p' (upage k T x) = prefs p (upage k T x)) by (by apply Href).
  split_and!; [split|done|congruence|done]; [done| | |by rewrite E].
  - intros [?|(? & ? & ?)]%Hfree; [done|]. by apply Hd.
  - intros n [?|?]%HT; [by eapply H3|done].
Qed.

Lemma replace_uspace : uspace k' p' T' sz.
Proof.
  destruct (Hr) as [Hview (He & HeV & Hpa) (Hmem & Hmem' & Hone & Htab) _ _ _ _ _].
  pose proof (kabs_pages _ _ _ (vm_kabs _ _ _ _ Hv)) as Hpg. rewrite Forall_forall in Hpg.
  split; [apply Hu|..].
  - intros x Hx Hvx. destruct (decide (x / PGSIZE = va / PGSIZE)); [by rewrite replace_new|].
    unfold valid in Hvx. rewrite replace_other in * by done. by apply (us_range _ _ _ _ Hu).
  - intros x Hx Hvx. unfold upage, valid in *. destruct (decide (x / PGSIZE = va / PGSIZE)).
    + rewrite replace_new, Hpa by done. split; [by apply Hpg|done|done|lia].
    + rewrite replace_other in * by done. by apply replace_kept.
  - intros x y Hx Hy. unfold upage, valid.
    destruct (decide (x / PGSIZE = va / PGSIZE)), (decide (y / PGSIZE = va / PGSIZE));
      rewrite ?(replace_new x), ?(replace_new y), ?(replace_other x), ?(replace_other y) by done;
      intros Hvx Hvy E; [congruence|..].
    + destruct (replace_kept y Hy ltac:(done) Hvy) as (_ & _ & Hn & _). unfold upage in Hn. congruence.
    + destruct (replace_kept x Hx ltac:(done) Hvx) as (_ & _ & Hn & _). unfold upage in Hn. congruence.
    + by apply (us_inj _ _ _ _ Hu).
  - intros x Hx. unfold upage, valid. destruct (decide (x / PGSIZE = va / PGSIZE)).
    + by rewrite replace_new, Hpa by done.
    + rewrite replace_other by done. intros Hvx. destruct (replace_kept x Hx ltac:(done) Hvx) as (_ & E & _).
      unfold upage in E. rewrite E. by apply (us_excl _ _ _ _ Hu).
  - intros x Hx Hnb. unfold valid. rewrite Hview by done. unfold view_set. rewrite decide_False; [by apply Hu|].
    intros Heq. apply Hnb. eapply below_page; [| |exact Hva]; [lia|done].
Qed.

Lemma replace_read x : below sz x → uread k' T' x = uread k T x.
Proof.
  destruct (Hr) as [_ (He & HeV & Hpa) _ Hcont _ _ _ Hm].
  intros Hx. pose proof (Z.mod_pos_bound x PGSIZE eq_refl) as Hb.
  destruct (decide (x / PGSIZE = va / PGSIZE)) as [Heq|Hne].
  - replace (uread k T x) with (uread k T (va / PGSIZE * PGSIZE + x mod PGSIZE)).
    2:{ rewrite <- Heq. f_equal. rewrite Z.mul_comm. symmetry. by apply Z.div_mod. }
    rewrite <- Hcont by done. unfold uread, upage. by rewrite replace_new, Hpa, HeV by done.
  - unfold uread, upage. rewrite replace_other by done.
    destruct (has (pte_at (kmem_mem k) T x) PTE_V) eqn:Evx; [|done].
    destruct (replace_kept x Hx Hne Evx) as (_ & _ & _ & Hd). fold (upage k T x).
    pose proof (us_page _ _ _ _ Hu x Hx Evx) as Hup. apply Hm.
    + eapply user_page_untouched; [done|done|lia].
    + intros Hvv _ Hin. pose proof (us_page _ _ _ _ Hu va Hva Hvv) as Hup'.
      destruct (page_disjoint kend (upage k T x) (upage k T va)); [apply Hup|apply Hup'|by apply Hd|lia|lia].
Qed.

Lemma replace_foreign x :
  foreign k p T sz x → foreign k' p' T' sz x ∧ kmem_mem k' x = kmem_mem k x.
Proof.
  destruct (Hr) as [_ (He & HeV & Hpa) (Hmem & Hmem' & Hone & Htab) _ HT Hfree _ Hm].
  intros [[Hx1 Hx2] Hx3].
  assert (Hlast : valid k T va → prefs p (upage k T va) <= 1 → ¬ (upage k T va <= x < upage k T va + PGSIZE)).
  { intros Hvv Hle Hin. specialize (Hx3 va Hva Hvv Hin). lia. }
  split; [split; [split|]|].
  - intros n a [?|?]%HT; eauto.
  - intros a [?|(? & -> & ?)]%Hfree; eauto.
  - intros y Hy. unfold valid, upage. destruct (decide (y / PGSIZE = va / PGSIZE)).
    + rewrite replace_new, Hpa by done. intros _ Hin. by destruct (Hx2 mem).
    + rewrite replace_other by done. intros Hvy. destruct (replace_kept y Hy ltac:(done) Hvy) as (_ & E & _).
      unfold upage in E. rewrite E. by apply Hx3.
  - by apply Hm.
Qed.

Lemma replace_maps x : below sz x → valid k' T' x →
  valid k T x ∧ upage k' T' x = upage k T x ∨ upage k' T' x ∈ pfree p.
Proof.
  intros Hx. unfold valid, upage. destruct (decide (x / PGSIZE = va / PGSIZE)).
  - rewrite replace_new by done. right. destruct Hr as [_ (_ & _ & ->) (? & _) _ _ _ _ _]. done.
  - rewrite replace_other by done. by left.
Qed.

Lemma ustep_replace : ustep r sz k p T k' p' T'.
Proof. split; [done|apply replace_uspace|apply replace_read|apply replace_maps|apply replace_foreign]. Qed.
End replace.

Lemma uread_off k T va j : 0 <= va → valid k T va → 0 <= j < PGSIZE →
  uread k T (va / PGSIZE * PGSIZE + j) = kmem_mem k (upage k T va + j).
Proof.
  intros Hva Hvv Hj. unfold uread, upage.
  assert (E : (va / PGSIZE * PGSIZE + j) / PGSIZE = va / PGSIZE).
  { rewrite Z.div_add_l by done. rewrite (Z.div_small j) by lia. lia. }
  rewrite (pte_at_page _ _ _ va); [|uconst; Z.div_mod_to_equations; lia|done|done].
  rewrite Hvv. do 2 f_equal. rewrite Z.add_comm, Z_mod_plus_full. by apply Z.mod_small.
Qed.

Lemma uread_unmapped k T va j : 0 <= va → ¬ valid k T va → 0 <= j < PGSIZE →
  uread k T (va / PGSIZE * PGSIZE + j) = 0.
Proof.
  intros Hva Hvv Hj. unfold uread.
  assert (E : (va / PGSIZE * PGSIZE + j) / PGSIZE = va / PGSIZE).
  { rewrite Z.div_add_l by done. rewrite (Z.div_small j) by lia. lia. }
  rewrite (pte_at_page _ _ _ va); [|uconst; Z.div_mod_to_equations; lia|done|done].
  unfold valid in Hvv. by destruct (has _ PTE_V).
Qed.

(** What [vmfault] leaves when it returns a page: the entry may now be written. *)
Definition writable k p T va res : Prop :=
  valid k T va ∧ upage k T va = res ∧ prefs p res = 1 ∧
  has (pte_at (kmem_mem k) T va) PTE_W = true ∧ has (pte_at (kmem_mem k) T va) PTE_COW = false.

Lemma cow_fault_step k p r T sz va b c :
  vms k p r T → uspace k p T sz → below sz va → valid k T va → T [PX 2 va; PX 1 va] = Some b →
  LK_kmem ∉ held c →
  ∃ res k' p' T', cow_fault kend (b + 8 * PX 0 va) c k = Ret res c k' ∧ ustep r sz k p T k' p' T' ∧
    (res = 0 ∧ pfree p' = [] ∨ res ≠ 0 ∧ writable k' p' T' va res).
Proof.
  intros Hv Hu Hva Hvv Hb Hc. pose proof (below_maxva sz va (proj2 (us_sz _ _ _ _ Hu)) Hva) as Hm.
  pose proof (us_page _ _ _ _ Hu va Hva Hvv) as Hup. pose proof (us_range _ _ _ _ Hu va Hva Hvv) as Hvr.
  pose proof (cow_fault_ok k p r T va b _ c Hv Hb Hm eq_refl Hvr Hup Hc) as H.
  destruct p as [[|mem l] refs]; cbn [pfree prefs] in H.
  { eexists 0, k, _, T. split; [exact H|]. split; [by apply ustep_refl|by left]. }
  destruct H as (k' & E & Hv' & Hview & Hcont & Hframe). fold (upage k T va) in *.
  pose proof (kabs_pages _ _ _ (vm_kabs _ _ _ _ Hv)) as Hpg. simpl in Hpg. apply Forall_cons in Hpg as [Hmem _].
  pose proof (kabs_nodup _ _ _ (vm_kabs _ _ _ _ Hv)) as Hnd. simpl in Hnd. apply NoDup_cons in Hnd as [Hml _].
  destruct (cow_entry_ok mem _ Hmem Hvr) as (Epa & Her & HeV & HeW & HeC & _).
  destruct (Hup) as [Ha Hni Htab Href]. simpl in Hni.
  assert (Hna : upage k T va ≠ mem) by set_solver.
  set (p2 := mkpool l (<[mem:=1]> refs)) in *. set (p' := pool_free _ p2) in *.
  assert (Hp2a : prefs p2 (upage k T va) = refs (upage k T va)) by (simpl; by rewrite fn_lookup_insert_ne).
  assert (Hp'o : ∀ a, a ≠ upage k T va → prefs p' a = prefs p2 a).
  { intros a Hne. unfold p', pool_free. destruct (1 <? _); simpl; by rewrite fn_lookup_insert_ne. }
  assert (Hp'f : ∀ a, a ∈ pfree p' → a ∈ l ∨ a = upage k T va ∧ refs a <= 1).
  { intros a. unfold p', pool_free. rewrite Hp2a. destruct (Z.ltb_spec 1 (refs (upage k T va))); simpl; [by left|].
    intros [->|?]%elem_of_cons; [by right|by left]. }
  assert (Hmem1 : prefs p' mem = 1) by (rewrite Hp'o by done; simpl; by rewrite fn_lookup_insert).
  exists mem, k', p', T. split; [exact E|]. split.
  - eapply ustep_replace with (e := cow_entry mem _) (mem := mem); [done..|]. split; [done|done| | | | | |].
    + split_and!; [constructor|intros [?|[? _]]%Hp'f; congruence|done|].
      intros n En. apply (vm_used _ _ _ _ Hv n mem En). constructor.
    + intros j Hj. rewrite Hcont by done. by rewrite uread_off by (done || lia).
    + by left.
    + intros a [?|[-> ?]]%Hp'f; simpl; [left; by constructor|by right].
    + intros a Hna' Hd. simpl in Hna'. rewrite Hp'o by auto. simpl. rewrite fn_lookup_insert_ne; [done|set_solver].
    + intros x [Hx1 Hx2] Hx3. apply Hframe; [done|apply Hx2; constructor|by apply Hx3].
  - right. split; [by apply (page_ok_nonzero kend)|].
    assert (Ee : pte_at (kmem_mem k') T va = cow_entry mem (pte_at (kmem_mem k) T va)).
    { rewrite Hview by done. unfold view_set. by rewrite decide_True. }
    unfold writable, valid, upage. rewrite Ee. done.
Qed.

Lemma attr_mask fl : 0 <= fl < 2 ^ 64 → Z.land fl 0x003FFFFFFFFFFC00 = 0 → attr fl.
Proof.
  intros Hfl H0. split; [done|]. intros n Hn.
  assert (E : Z.testbit (Z.land fl 0x003FFFFFFFFFFC00) n = false) by (by rewrite H0, Z.bits_0).
  rewrite Z.land_spec in E. change 0x003FFFFFFFFFFC00 with (Z.shiftl (Z.ones 44) 10) in E.
  rewrite Z.shiftl_spec, Z.ones_spec_low in E by lia. by rewrite andb_true_r in E.
Qed.

(** Attributes of the pages [vmfault] adds. *)
Definition lazy_perm : Z := flags [PTE_W; PTE_U; PTE_R; PTE_A; PTE_D; PTE_THEAD_MAEE].

Lemma lazy_entry_ok mem : page_ok kend mem →
  let e := Z.lor (Z.lor (PA2PTE mem) lazy_perm) PTE_V in
  PTE2PA e = mem ∧ 0 <= e < 2 ^ 64 ∧ has e PTE_V = true ∧ has e PTE_W = true ∧ has e PTE_COW = false.
Proof.
  intros Hm%page_ok_addr. cbv zeta. rewrite <- Z.lor_assoc.
  assert (Ha : attr (Z.lor lazy_perm PTE_V)) by (apply attr_mask; vm_compute; done).
  split; [by apply PTE2PA_entry|]. split; [by apply entry_range|].
  unfold PTE_V at 2, PTE_W, PTE_COW. rewrite !has_bit by lia. rewrite !testbit_entry_low by (done || lia). done.
Qed.

Lemma alloc_grows k r T a l refs m' :
  vms k (mkpool (a :: l) refs) r T → same_outside a (kmem_mem k) m' →
  grows k (mkpool (a :: l) refs) T
    (mkkmem m' (load64 (kmem_mem k) a) (<[KREF_INDEX a:=1]> (krefcount k))) (mkpool l (<[a:=1]> refs)) T.
Proof.
  intros Hv Hout. split; simpl; auto.
  - by exists [a].
  - intros q Hq. rewrite fn_lookup_insert_ne; [done|set_solver].
  - intros q [->|?]%elem_of_cons ?; [by rewrite fn_lookup_insert|done].
  - intros x [_ Hx]. apply Hout. specialize (Hx a). simpl in Hx. destruct (decide (a <= x < a + PGSIZE)); [|lia].
    exfalso. apply Hx; [constructor|lia].
Qed.

(** Giving back a page that was free at the start of the step. *)
Lemma ustep_kfree r sz k p T k' p' T' a c :
  ustep r sz k p T k' p' T' → a ∈ pfree p → user_page p' T' a → LK_kmem ∉ held c →
  (∀ x, below sz x → valid k' T' x → upage k' T' x ≠ a) →
  ∃ k'' p'', kfree kend a c k' = Ret tt c k'' ∧ ustep r sz k p T k'' p'' T'.
Proof.
  intros [Hv' Hu' Hrd Hmp Hfo] Ha Hup Hc Hd.
  destruct (vms_kfree k' p' r T' a c Hv' Hup Hc) as (k'' & E & Hv'' & Hs & Hmem).
  assert (Href : ∀ q, q ≠ a → prefs (pool_free a p') q = prefs p' q).
  { intros q Hq. unfold pool_free. destruct (1 <? _); simpl; by rewrite fn_lookup_insert_ne. }
  assert (Hfree : ∀ q, q ∈ pfree (pool_free a p') → q = a ∨ q ∈ pfree p').
  { intros q. unfold pool_free. destruct (1 <? _); simpl; [by right|]. by intros ?%elem_of_cons. }
  exists k'', (pool_free a p'). split; [exact E|].
  assert (Hupg : ∀ x, upage k'' T' x = upage k' T' x) by (intros x; unfold upage; by rewrite Hs).
  assert (Hval : ∀ x, valid k'' T' x ↔ valid k' T' x) by (intros x; unfold valid; by rewrite Hs).
  split; [done|split| | |].
  - apply Hu'.
  - intros x Hx Hvx%Hval. rewrite Hs. by apply Hu'.
  - intros x Hx Hvx%Hval. rewrite Hupg. destruct (us_page _ _ _ _ Hu' x Hx Hvx) as [H1 H2 H3 H4].
    split; [done| |done|by rewrite Href by eauto]. intros [?|?]%Hfree; [by eapply Hd|done].
  - intros x y Hx Hy Hvx%Hval Hvy%Hval. rewrite !Hupg. by apply Hu'.
  - intros x Hx Hvx%Hval. rewrite Hs, Hupg, Href by eauto. by apply Hu'.
  - intros x Hx Hnb Hvx%Hval. rewrite Hs. by apply (us_top _ _ _ _ Hu').
  - intros x Hx. rewrite <- Hrd by done. unfold uread. rewrite Hs, Hupg.
    destruct (has _ PTE_V) eqn:Ev; [|done]. apply Hmem. intros _ Hin.
    pose proof (Z.mod_pos_bound x PGSIZE eq_refl).
    destruct (page_disjoint kend (upage k' T' x) a); [by apply Hu'|apply Hup|by apply Hd|lia|lia].
  - intros x Hx Hvx%Hval. rewrite Hupg. by apply Hmp.
  - intros x Hx. destruct (Hfo x Hx) as [[[H1 H2] H3] H4].
    assert (Hxa : ¬ (a <= x < a + PGSIZE)) by (by apply Hx).
    rewrite <- H4, Hmem by done. split; [split; [split|]|done]; [done| |].
    + intros q [->|?]%Hfree; eauto.
    + intros y Hy Hvy%Hval. rewrite Hupg, Href by eauto. eauto.
Qed.

(** The branch of [vmfault] for a page that is not mapped yet. *)
Definition lazy_fault (r va : Z) : M kmem Z :=
  do mem <- kalloc;
  if mem =? 0 then kret 0
  else
    memset_page mem 0 ;;;
    do res <- mappages r va PGSIZE mem lazy_perm;
    if negb (res =? 0) then kfree kend mem ;;; kret 0
    else kret mem.

Lemma lazy_fault_step k p r T sz va c :
  vms k p r T → uspace k p T sz → below sz va → va mod PGSIZE = 0 → ¬ valid k T va → LK_kmem ∉ held c →
  ∃ res k' p' T', lazy_fault r va c k = Ret res c k' ∧ ustep r sz k p T k' p' T' ∧
    (res = 0 ∨ res ≠ 0 ∧ writable k' p' T' va res).
Proof.
  intros Hv Hu Hva Hal Hnv Hc. pose proof (below_maxva sz va (proj2 (us_sz _ _ _ _ Hu)) Hva) as Hm.
  pose proof (vm_kabs _ _ _ _ Hv) as Hk.
  unfold lazy_fault. kexec. rewrite kalloc_run by done. cbv zeta. rewrite (chain_head_ok _ _ _ Hk).
  destruct p as [[|mem l] refs]; cbn [pfree].
  { exists 0, k, (mkpool [] refs), T. split; [done|]. split; [by apply ustep_refl|by left]. }
  pose proof (kabs_pages _ _ _ Hk) as Hpg. simpl in Hpg. apply Forall_cons in Hpg as [Hmem _].
  rewrite (proj2 (Z.eqb_neq mem 0)) by (by apply (page_ok_nonzero kend)). unfold memset_page. kexec.
  cbn [set_mem kmem_mem freelist krefcount].
  set (m1 := mfill (mfill (kmem_mem k) mem 0 PGSIZE) mem 0 PGSIZE).
  assert (Hout : same_outside mem (kmem_mem k) m1).
  { eapply same_outside_trans; apply same_outside_fill. }
  destruct (vms_alloc k r T mem l refs m1 Hv Hout) as (Hv1 & Hs1 & Hupm).
  pose proof (alloc_grows k r T mem l refs m1 Hv Hout) as Hg1.
  change (set_mem m1 _) with (mkkmem m1 (load64 (kmem_mem k) mem) (<[KREF_INDEX mem:=1]> (krefcount k))).
  set (k1 := mkkmem m1 _ _) in *. set (p1 := mkpool l _) in *.
  destruct (mappages_ok k1 p1 T r va 1 mem lazy_perm c) as (res & k2 & p2 & T2 & cnt & E & [Hv2 Hg2 Hview2] & _ & Hres);
    [done|done|done|lia|lia|uconst; Z.div_mod_to_equations; lia| |by apply page_ok_addr|
     destruct Hmem; uconst; lia|apply attr_mask; vm_compute; done|].
  { intros x Hx Hx'. rewrite Hs1, (pte_at_page _ _ x va), <- has_V by (lia || (uconst; Z.div_mod_to_equations; lia)).
    unfold valid in Hnv. by destruct (has _ _). }
  rewrite Z.mul_1_l in E. rewrite E.
  assert (Hg : grows k (mkpool (mem :: l) refs) T k2 p2 T2) by (by eapply grows_trans).
  assert (Hnf : mem ∉ pfree p2) by (intros ?%(grows_free _ _ _ _ _ _ _ Hg2); by apply (up_used _ _ _ Hupm)).
  assert (Hnt : ∀ n, T2 n ≠ Some mem).
  { intros n [?|[? _]]%(g_pages _ _ _ _ _ _ Hg2); [by eapply (up_table _ _ _ Hupm)|by apply (up_used _ _ _ Hupm)]. }
  assert (Hr2 : prefs p2 mem = 1) by (apply (g_one _ _ _ _ _ _ Hg); [constructor|done]).
  destruct Hres as [[-> ->] | (-> & Hcnt & _)]; cbn [negb Z.eqb].
  - exists mem, k2, p2, T2. split; [done|]. destruct (lazy_entry_ok mem Hmem) as (Epa & Her & HeV & HeW & HeC).
    set (e := Z.lor _ PTE_V) in *.
    assert (Hview : ∀ x, 0 <= x < MAXVA → pte_at (kmem_mem k2) T2 x = view_set (pte_at (kmem_mem k) T) va e x).
    { intros x Hx. rewrite Hview2 by done. replace 1 with (0 + 1) by lia.
      rewrite <- map_view_step, map_view_0 by (done || lia). unfold view_set. case_decide; [done|apply Hs1]. }
    split; [|right; split; [by apply (page_ok_nonzero kend)|]].
    + eapply ustep_replace with (e := e) (mem := mem); [done..|]. split; [done|done| | | | | |].
      * split_and!; [constructor|done|done|done].
      * intros j Hj. rewrite uread_unmapped by (done || lia). rewrite (g_mem _ _ _ _ _ _ Hg2).
        -- simpl. unfold m1. apply mfill_in. lia.
        -- by apply (user_page_untouched k1 p1 r T mem); [..|lia].
      * intros n a [?|[? _]]%(g_pages _ _ _ _ _ _ Hg); [by left|by right].
      * intros a ?%(grows_free _ _ _ _ _ _ _ Hg). by left.
      * intros a Ha _. by apply (g_refs _ _ _ _ _ _ Hg).
      * intros x Hx _. by apply (g_mem _ _ _ _ _ _ Hg).
    + unfold writable, valid, upage. rewrite Hview by done. unfold view_set. rewrite decide_True by done. done.
  - assert (cnt = 0) as -> by lia.
    assert (Hst : ustep r sz k (mkpool (mem :: l) refs) T k2 p2 T2).
    { apply ustep_grow; [done..|]. intros x Hx. rewrite Hview2 by done. rewrite map_view_0. apply Hs1. }
    destruct (ustep_kfree r sz k _ T k2 p2 T2 mem c Hst) as (k3 & p3 & E3 & Hst3);
      [constructor|split; [done|done|done|lia]|done| |].
    + intros x Hx Hvx Heq. unfold upage, valid in *.
      rewrite Hview2, map_view_0, Hs1 in Hvx, Heq by (eapply below_maxva; [apply Hu|done]).
      destruct (us_page _ _ _ _ Hu x Hx Hvx) as [_ Hn _ _]. unfold upage in Hn. rewrite Heq in Hn.
      apply Hn. constructor.
    + rewrite E3. kexec. exists 0, k3, p3, T2. split; [done|]. split; [done|by left].
Qed.

Lemma walk_slot k p r T va c :
  vms k p r T → 0 <= va < MAXVA →
  walk r va false c k =
    Ret (match T [PX 2 va; PX 1 va] with Some b => b + 8 * PX 0 va | None => 0 end) c k ∧
  (T [PX 2 va; PX 1 va] = None ∧ pte_at (kmem_mem k) T va = 0 ∨
   ∃ b, T [PX 2 va; PX 1 va] = Some b ∧ b + 8 * PX 0 va ≠ 0 ∧
     load64 (kmem_mem k) (b + 8 * PX 0 va) = pte_at (kmem_mem k) T va).
Proof.
  intros Hv Hva. split; [by eapply walk_lookup; [apply Hv|..]|].
  unfold pte_at. destruct (T [PX 2 va; PX 1 va]) as [b|] eqn:Eb; [right|by left].
  exists b. split_and!; [done| |done]. destruct (pt_page _ _ _ (vm_pt _ _ _ _ Hv) _ _ Eb).
  pose proof (PX_range 0 va). uconst. lia.
Qed.

Lemma has_0 fl : has 0 fl = false.
Proof. done. Qed.

Lemma ismapped_run k p r T va c : vms k p r T → 0 <= va < MAXVA →
  ismapped r va c k = Ret (has (pte_at (kmem_mem k) T va) PTE_V) c k.
Proof.
  intros Hv Hva. destruct (walk_slot k p r T va c Hv Hva) as [E [[Eb ->] | (b & Eb & Hs & Hl)]];
    unfold ismapped; rewrite Eb in E; kstep E; [done|].
  rewrite (proj2 (Z.eqb_neq _ 0)) by done. unfold rd. kexec. by rewrite Hl.
Qed.

Lemma walkaddr_run k p r T va c : vms k p r T → 0 <= va →
  walkaddr r va c k =
    Ret (if (va <? MAXVA) && has (pte_at (kmem_mem k) T va) PTE_V && has (pte_at (kmem_mem k) T va) PTE_U
         then upage k T va else 0) c k.
Proof.
  intros Hv Hva. unfold walkaddr, upage. destruct (Z.leb_spec MAXVA va), (Z.ltb_spec va MAXVA); try lia; [done|].
  destruct (walk_slot k p r T va c Hv ltac:(lia)) as [E [[Eb ->] | (b & Eb & Hs & Hl)]];
    rewrite Eb in E; kstep E; [done|].
  rewrite (proj2 (Z.eqb_neq _ 0)) by done. unfold rd. kexec. rewrite Hl.
  destruct (has _ PTE_V), (has _ PTE_U); done.
Qed.

Lemma vmfault_step k p r T sz va c :
  vms k p r T → uspace k p T sz → 0 <= va < 2 ^ 64 → LK_kmem ∉ held c →
  ∃ res k' p' T', vmfault kend (mkvmproc sz r) r va c k = Ret res c k' ∧ ustep r sz k p T k' p' T' ∧
    (res = 0 ∨ res ≠ 0 ∧ va < sz ∧ writable k' p' T' (PGROUNDDOWN va) res).
Proof.
  intros Hv Hu Hva Hc. pose proof (us_sz _ _ _ _ Hu) as Hsz. unfold vmfault. cbn [p_sz p_pagetable].
  destruct (Z.leb_spec sz va) as [|Hlt].
  { exists 0, k, p, T. split; [done|]. split; [by apply ustep_refl|by left]. }
  set (va0 := PGROUNDDOWN va).
  assert (Hr : va0 mod PGSIZE = 0 ∧ 0 <= va0 <= va).
  { unfold va0. rewrite PGROUNDDOWN_eq by done. uconst. Z.div_mod_to_equations. lia. }
  assert (Hb : below sz va0) by (split; [lia|]; uconst; Z.div_mod_to_equations; lia).
  assert (Hm : 0 <= va0 < MAXVA) by (eapply below_maxva; [apply Hu|done]).
  kstep (ismapped_run k p r T va0 c Hv Hm).
  destruct (has _ PTE_V) eqn:EV.
  - destruct (walk_slot k p r T va0 c Hv Hm) as [E [[Eb E0] | (b & Eb & Hs & Hl)]]; [by rewrite E0 in EV|].
    rewrite Eb in E. kstep E. rewrite (proj2 (Z.eqb_neq _ 0)) by done. unfold rd. kexec. rewrite Hl.
    destruct (has _ PTE_COW) eqn:EC.
    + destruct (cow_fault_step k p r T sz va0 b c) as (res & k' & p' & T' & E' & Hst & Hres); [done..|].
      exists res, k', p', T'. split; [exact E'|]. split; [done|]. destruct Hres as [[? _]|[? ?]]; [by left|by right].
    + exists 0, k, p, T. split; [done|]. split; [by apply ustep_refl|by left].
  - destruct (lazy_fault_step k p r T sz va0 c) as (res & k' & p' & T' & E' & Hst & Hres); [done|done|done|apply Hr| |done|].
    { unfold valid. by rewrite EV. }
    exists res, k', p', T'. split; [exact E'|]. split; [done|]. destruct Hres as [?|[? ?]]; [by left|by right].
Qed.

(** *** Copies to and from user memory *)

Lemma copyout_pa_step k p r T sz va0 c :
  vms k p r T → uspace k p T sz → va0 mod PGSIZE = 0 → 0 <= va0 < MAXVA → LK_kmem ∉ held c →
  ∃ res k' p' T', copyout_pa kend (mkvmproc sz r) r va0 c k = Ret res c k' ∧ ustep r sz k p T k' p' T' ∧
    (res = 0 ∨ res ≠ 0 ∧ below sz va0 ∧ valid k' T' va0 ∧ upage k' T' va0 = res ∧
       has (pte_at (kmem_mem k') T' va0) PTE_COW = false).
Proof.
  intros Hv Hu Hal Hva Hc.
  assert (Hrd : PGROUNDDOWN va0 = va0) by (rewrite PGROUNDDOWN_eq by (uconst; lia); lia).
  assert (Hlift : ∃ res k' p' T', vmfault kend (mkvmproc sz r) r va0 c k = Ret res c k' ∧
      ustep r sz k p T k' p' T' ∧
      (res = 0 ∨ res ≠ 0 ∧ below sz va0 ∧ valid k' T' va0 ∧ upage k' T' va0 = res ∧
         has (pte_at (kmem_mem k') T' va0) PTE_COW = false)).
  { destruct (vmfault_step k p r T sz va0 c) as (res & k' & p' & T' & E & Hst & Hres); [done|done|uconst; lia|done|].
    exists res, k', p', T'. split; [done|]. split; [done|]. rewrite Hrd in Hres.
    destruct Hres as [?|(? & ? & ? & ? & ? & ? & ?)]; [by left|right]. split_and!; [done| |done..].
    split; [lia|]. uconst. Z.div_mod_to_equations. lia. }
  unfold copyout_pa. kstep (walkaddr_run k p r T va0 c Hv (proj1 Hva)).
  destruct (_ && _) eqn:Ec; [|done]. rewrite !andb_true_iff in Ec. destruct Ec as [[_ EV] EU].
  assert (Hb : below sz va0).
  { split; [lia|]. destruct (Z.lt_ge_cases (va0 / PGSIZE * PGSIZE) sz); [done|].
    pose proof (us_top _ _ _ _ Hu va0 Hva) as Ht. rewrite Ht in EU; [done| |done]. intros [_ ?]. lia. }
  destruct (us_page _ _ _ _ Hu va0 Hb EV) as [Hpg _ _ _].
  rewrite (proj2 (Z.eqb_neq _ 0)) by (by apply (page_ok_nonzero kend)).
  destruct (walk_slot k p r T va0 c Hv Hva) as [E [[Eb E0] | (b & Eb & Hs & Hl)]]; [by rewrite E0 in EV|].
  rewrite Eb in E. kstep E. rewrite (proj2 (Z.eqb_neq _ 0)) by done. unfold rd. kexec. rewrite Hl.
  destruct (has _ PTE_COW) eqn:EC; [done|].
  exists (upage k T va0), k, p, T. split; [done|]. split; [by apply ustep_refl|right].
  split_and!; [by apply (page_ok_nonzero kend)|done..].
Qed.

(** The process's memory after [n] bytes from [src] were written at [dst]. *)
Record copied r sz k p T k' p' T' dst src (n : Z) : Prop := mkcopied {
  cp_vms : vms k' p' r T';
  cp_us : uspace k' p' T' sz;
  cp_below : ∀ j, 0 <= j < n → below sz (dst + j);
  cp_read : ∀ x, below sz x → uread k' T' x =
    if decide (dst <= x < dst + n) then kmem_mem k (src + (x - dst)) else uread k T x;
  cp_foreign : ∀ x, foreign k p T sz x → foreign k' p' T' sz x ∧ kmem_mem k' x = kmem_mem k x
}.

Lemma copied_ustep r sz k p T k' p' T' dst src : ustep r sz k p T k' p' T' → copied r sz k p T k' p' T' dst src 0.
Proof.
  intros [H1 H2 H3 _ H4]. split; [done|done|lia| |done]. intros x Hx. rewrite decide_False by lia. by apply H3.
Qed.

Lemma below_off sz va0 j : va0 mod PGSIZE = 0 → below sz va0 → 0 <= j < PGSIZE → below sz (va0 + j).
Proof. intros Hal Hb Hj. apply (below_page sz va0); [destruct Hb; lia| |done]. uconst. Z.div_mod_to_equations. lia. Qed.

(** [memmove] into a page that only this process refers to. *)
Lemma uwrite_step r sz k p T va0 off src (n : Z) :
  vms k p r T → uspace k p T sz → va0 mod PGSIZE = 0 → below sz va0 → valid k T va0 →
  prefs p (upage k T va0) = 1 → 0 <= off → 0 <= n → off + n <= PGSIZE →
  copied r sz k p T (set_mem (mcopy (kmem_mem k) (upage k T va0 + off) src n) k) p T (va0 + off) src n.
Proof.
  intros Hv Hu Hal Hb Hvv Hone Hoff Hn Hfit. set (a := upage k T va0) in *.
  pose proof (us_page _ _ _ _ Hu va0 Hb Hvv) as Hup. fold a in Hup.
  set (k' := set_mem _ k).
  assert (Hout : ∀ x, ¬ (a + off <= x < a + off + n) → kmem_mem k' x = kmem_mem k x).
  { intros x Hx. simpl. rewrite mcopy_spec by done.
    destruct (Z.leb_spec (a + off) x), (Z.ltb_spec x (a + off + n)); simpl; done || lia. }
  assert (Hin : ∀ j, 0 <= j < n → kmem_mem k' (a + off + j) = kmem_mem k (src + j)).
  { intros j Hj. simpl. rewrite mcopy_spec by done.
    rewrite (proj2 (Z.leb_le _ _)), (proj2 (Z.ltb_lt _ _)) by lia. simpl. f_equal. lia. }
  destruct (pt_ok_frame _ (kmem_mem k') _ _ (vm_pt _ _ _ _ Hv)) as [Hpt' Hview].
  { intros n' q x Hq Hx. apply Hout. assert (q ≠ a) by (intros ->; by eapply (up_table _ _ _ Hup)).
    destruct (page_disjoint kend q a); [by eapply pt_page; [apply Hv|]|apply Hup|done|lia|lia]. }
  assert (Hk' : kabs kend k' p).
  { apply kabs_store with a; [apply Hv|apply Hup|apply Hup|]. intros x Hx. apply Hout. lia. }
  assert (Hfor : ∀ x, foreign k p T sz x → foreign k' p T sz x ∧ kmem_mem k' x = kmem_mem k x).
  { intros x [Hx1 Hx2]. split; [split; [done|]|].
    - intros y Hy. unfold valid, upage. rewrite Hview. by apply Hx2.
    - apply Hout. intros Hxa. specialize (Hx2 va0 Hb Hvv). fold a in Hx2. rewrite Hone in Hx2. lia. }
  split; [split; [done|done|by eapply vm_used]| | | |done].
  - by apply (uspace_view k).
  - intros j Hj. rewrite <- Z.add_assoc. apply below_off; [done|done|lia].
  - intros x Hx. pose proof (Z.mod_pos_bound x PGSIZE eq_refl) as Hmod.
    pose proof (Z.div_mod x PGSIZE ltac:(done)) as Hdm. pose proof (Z.div_mod va0 PGSIZE ltac:(done)) as Hdv.
    destruct (decide (x / PGSIZE = va0 / PGSIZE)) as [Heq|Hne].
    + assert (Ex : uread k' T x = kmem_mem k' (a + (x - va0))).
      { unfold uread, upage. rewrite Hview, (pte_at_page _ _ x va0) by (done || apply Hx || apply Hb).
        rewrite Hvv. fold (upage k T va0). do 2 f_equal. rewrite <- Heq in Hdv. lia. }
      assert (Ex' : uread k T x = kmem_mem k (a + (x - va0))).
      { unfold uread, upage. rewrite (pte_at_page _ _ x va0) by (done || apply Hx || apply Hb).
        rewrite Hvv. fold (upage k T va0). do 2 f_equal. rewrite <- Heq in Hdv. lia. }
      case_decide as Hd; [|rewrite Ex, Ex'; apply Hout; lia].
      rewrite Ex, <- (Hin (x - (va0 + off))) by lia. f_equal. lia.
    + rewrite decide_False.
      2:{ intros Hd. apply Hne. uconst. Z.div_mod_to_equations. lia. }
      unfold uread, upage. rewrite Hview. destruct (has _ PTE_V) eqn:Ev; [|done]. apply Hout. intros Hxa.
      assert (upage k T x ≠ a) by (intros E; apply Hne; by apply (us_inj _ _ _ _ Hu)).
      fold (upage k T x) in Hxa. destruct (page_disjoint kend (upage k T x) a); [by apply Hu|apply Hup|done|lia|lia].
Qed.

(** The bytes from [src] are not touched while this process's memory is written. *)
Definition kbuf k p T sz src (n : Z) : Prop := ∀ j, 0 <= j < n → foreign k p T sz (src + j).

Lemma kbuf_copied r sz k p T k' p' T' dst src (n m : Z) :
  copied r sz k p T k' p' T' dst src n → kbuf k p T sz src m → 0 <= n →
  kbuf k' p' T' sz (src + n) (m - n).
Proof.
  intros Hc Hk Hn j Hj. replace (src + n + j) with (src + (n + j)) by lia.
  apply (cp_foreign _ _ _ _ _ _ _ _ _ _ _ Hc), Hk. lia.
Qed.

Lemma copied_trans r sz k p T k1 p1 T1 k2 p2 T2 dst src (n1 n2 len : Z) :
  copied r sz k p T k1 p1 T1 dst src n1 → copied r sz k1 p1 T1 k2 p2 T2 (dst + n1) (src + n1) n2 →
  0 <= n1 → 0 <= n2 → n1 + n2 <= len → kbuf k p T sz src len →
  copied r sz k p T k2 p2 T2 dst src (n1 + n2).
Proof.
  intros [Hv1 Hu1 Hb1 Hr1 Hf1] [Hv2 Hu2 Hb2 Hr2 Hf2] Hn1 Hn2 Hlen Hbuf. split; [done|done| | |].
  - intros j Hj. destruct (Z.lt_ge_cases j n1); [apply Hb1; lia|].
    replace (dst + j) with (dst + n1 + (j - n1)) by lia. apply Hb2. lia.
  - intros x Hx. rewrite Hr2, Hr1 by done.
    repeat case_decide; try lia; try done.
    replace (src + n1 + (x - (dst + n1))) with (src + (x - dst)) by lia. apply Hf1, Hbuf. lia.
  - intros x Hx. destruct (Hf1 x Hx) as [Hx1 E1]. destruct (Hf2 x Hx1) as [Hx2 E2]. by rewrite E2.
Qed.

Lemma chunk_bounds va (va0 len : Z) : 0 <= va → va0 = va / PGSIZE * PGSIZE → 0 < len →
  0 < chunk va va0 len <= len ∧ (va - va0) + chunk va va0 len <= PGSIZE ∧
  (chunk va va0 len = len ∨ va + chunk va va0 len = va0 + PGSIZE).
Proof.
  intros H0 -> Hlen. unfold chunk. uconst. destruct (Z.ltb_spec len (4096 - (va - va / 4096 * 4096)));
    Z.div_mod_to_equations; lia.
Qed.

Lemma copy_fuel_enough (x len : Z) : 0 <= len → len + x mod PGSIZE <= Z.of_nat (copy_fuel len) * PGSIZE.
Proof.
  intros Hlen. unfold copy_fuel. pose proof (Z.mod_pos_bound x PGSIZE eq_refl).
  rewrite Z2Nat.id by (uconst; Z.div_mod_to_equations; lia). uconst. Z.div_mod_to_equations. lia.
Qed.

Lemma copyout_loop_ok r sz c : LK_kmem ∉ held c → ∀ fuel k p T dst src (len : Z),
  vms k p r T → uspace k p T sz → 0 <= dst < 2 ^ 64 → 0 <= len →
  len + dst mod PGSIZE <= Z.of_nat fuel * PGSIZE → kbuf k p T sz src len →
  ∃ res k' p' T' (n : Z), copyout_loop kend fuel (mkvmproc sz r) r dst src len c k = Ret res c k' ∧
    copied r sz k p T k' p' T' dst src n ∧ (res = 0 ∧ n = len ∨ res = -1 ∧ 0 <= n < len).
Proof.
  intros Hc fuel. induction fuel as [|fuel IH]; intros k p T dst src len Hv Hu Hdst Hlen Hfuel Hbuf;
    cbn [copyout_loop]; (destruct (Z.leb_spec len 0) as [Hz|Hpos];
    [exists 0, k, p, T, 0; split; [done|]; split; [by apply copied_ustep, ustep_refl|left; lia]|]).
  { pose proof (Z.mod_pos_bound dst PGSIZE eq_refl). lia. }
  set (va0 := PGROUNDDOWN dst).
  assert (Eva : va0 = dst / PGSIZE * PGSIZE).
  { unfold va0. rewrite PGROUNDDOWN_eq by done. uconst. Z.div_mod_to_equations. lia. }
  assert (Hal : va0 mod PGSIZE = 0) by (rewrite Eva; by apply Z_mod_mult).
  assert (Hfail : ∀ k1 p1 T1, ustep r sz k p T k1 p1 T1 →
    ∃ res k' p' T' (n : Z), @Ret kmem Z (-1) c k1 = Ret res c k' ∧ copied r sz k p T k' p' T' dst src n ∧
      (res = 0 ∧ n = len ∨ res = -1 ∧ 0 <= n < len)).
  { intros k1 p1 T1 Hst. exists (-1), k1, p1, T1, 0. split; [done|]. split; [by apply copied_ustep|right; lia]. }
  destruct (Z.leb_spec MAXVA va0) as [|Hmax]; [by apply (Hfail k p T), ustep_refl|].
  assert (H0 : 0 <= va0) by (rewrite Eva; uconst; Z.div_mod_to_equations; lia).
  destruct (copyout_pa_step k p r T sz va0 c Hv Hu Hal ltac:(lia) Hc) as (res & k1 & p1 & T1 & E1 & Hst1 & Hres).
  kstep E1. destruct Hres as [-> | (Hnz & Hb & Hvv & Hpa & HC)]; [by eapply Hfail|].
  rewrite (proj2 (Z.eqb_neq _ 0)) by done. pose proof (st_vms _ _ _ _ _ _ _ _ Hst1) as Hv1.
  destruct (walk_slot k1 p1 r T1 va0 c Hv1 ltac:(lia)) as [E [[Eb E0] | (b & Eb & Hs & Hl)]].
  { unfold valid in Hvv. by rewrite E0 in Hvv. }
  rewrite Eb in E. kstep E. unfold rd, kmemmove. kexec. rewrite Hl.
  destruct (has _ PTE_W) eqn:EW; [|by eapply Hfail]. cbn [negb].
  destruct (chunk_bounds dst va0 len ltac:(lia) Eva ltac:(lia)) as (Hch & Hfit & Hend'). set (n := chunk dst va0 len) in *.
  pose proof (st_us _ _ _ _ _ _ _ _ Hst1) as Hu1.
  assert (Hone : prefs p1 (upage k1 T1 va0) = 1) by (by apply (us_excl _ _ _ _ Hu1)).
  assert (Hge : va0 <= dst) by (rewrite Eva; uconst; Z.div_mod_to_equations; lia).
  pose proof (uwrite_step r sz k1 p1 T1 va0 (dst - va0) src n Hv1 Hu1 Hal Hb Hvv Hone ltac:(lia) ltac:(lia) Hfit) as Hw.
  rewrite Hpa in Hw. replace (va0 + (dst - va0)) with dst in Hw by lia. set (k2 := set_mem _ k1) in *.
  assert (Hw' : copied r sz k p T k2 p1 T1 dst src n).
  { replace n with (0 + n) by lia. eapply (copied_trans _ _ _ _ _ _ _ _ _ _ _ _ _ _ _ len); [by apply copied_ustep|by rewrite !Z.add_0_r|lia..|exact Hbuf]. }
  destruct (IH k2 p1 T1 (u64 (va0 + PGSIZE)) (src + n) (len - n)) as (res' & k' & p' & T' & n' & E' & Hcp & Hres');
    [apply Hw|apply Hw|apply u64_range|lia| |by eapply kbuf_copied; [..|lia]|].
  { rewrite u64_small by (uconst; lia). rewrite (proj1 (page_step va0 Hal)).
    pose proof (Z.mod_pos_bound dst PGSIZE eq_refl). pose proof (Z.div_mod dst PGSIZE ltac:(done)). destruct Hend'; uconst; lia. }
  exists res', k', p', T', (n + n'). split; [exact E'|]. rewrite u64_small in Hcp by (uconst; lia). split; [|lia].
  destruct (decide (n = len)) as [->|Hne].
  - assert (n' = 0) as -> by lia. rewrite Z.add_0_r.
    replace len with (len + 0) by lia. eapply copied_trans; [exact Hw'| |lia|lia|done|by rewrite Z.add_0_r].
    destruct Hcp as [H1 H2 _ H3 H4]. split; [done|done|lia| |done]. intros x Hx. rewrite H3 by done.
    by rewrite !decide_False by lia.
  - eapply copied_trans; [exact Hw'| |lia|lia| |exact Hbuf]; [|lia].
    replace (dst + n) with (va0 + PGSIZE) by lia. done.
Qed.

(** Address [x] is not reachable from this process's table at all. *)
Definition outside k p T sz x : Prop :=
  untouched T p x ∧ ∀ y, below sz y → valid k T y → ¬ (upage k T y <= x < upage k T y + PGSIZE).

Lemma outside_foreign k p T sz x : outside k p T sz x → foreign k p T sz x.
Proof. intros [H1 H2]. split; [done|]. intros y Hy Hvy Hin. by destruct (H2 y Hy Hvy). Qed.

Lemma outside_ustep r sz k p T k' p' T' x :
  ustep r sz k p T k' p' T' → outside k p T sz x → outside k' p' T' sz x.
Proof.
  intros [_ _ _ Hmp Hfo] Hx. destruct (Hfo x (outside_foreign _ _ _ _ _ Hx)) as [[H1 _] _].
  destruct Hx as [[_ Hfr] Hx]. split; [done|]. intros y Hy Hvy.
  destruct (Hmp y Hy Hvy) as [[Hvy' ->]|Hfree]; eauto.
Qed.

(** Kernel memory after [n] bytes at [src] of the process were copied to [dst]. *)
Record fetched r sz k p T k' p' T' dst src (n : Z) : Prop := mkfetched {
  ft_vms : vms k' p' r T';
  ft_us : uspace k' p' T' sz;
  ft_below : ∀ j, 0 <= j < n → below sz (src + j);
  ft_read : ∀ x, below sz x → uread k' T' x = uread k T x;
  ft_mem : ∀ x, foreign k p T sz x →
    kmem_mem k' x = if decide (dst <= x < dst + n) then uread k T (src + (x - dst)) else kmem_mem k x;
  ft_foreign : ∀ x, foreign k p T sz x → foreign k' p' T' sz x;
  ft_outside : ∀ x, outside k p T sz x → outside k' p' T' sz x
}.

Lemma fetched_ustep r sz k p T k' p' T' dst src : ustep r sz k p T k' p' T' → fetched r sz k p T k' p' T' dst src 0.
Proof.
  intros H. pose proof H as [H1 H2 H3 _ H4]. split; [done|done|lia|done|..].
  - intros x Hx. rewrite decide_False by lia. by apply H4.
  - intros x Hx. by apply H4.
  - intros x. by eapply outside_ustep.
Qed.

(** [memmove] from a page of the process to kernel memory. *)
Lemma ufetch_step r sz k p T va0 off dst (n : Z) :
  vms k p r T → uspace k p T sz → va0 mod PGSIZE = 0 → below sz va0 → valid k T va0 →
  0 <= off → 0 <= n → off + n <= PGSIZE → (∀ j, 0 <= j < n → outside k p T sz (dst + j)) →
  fetched r sz k p T (set_mem (mcopy (kmem_mem k) dst (upage k T va0 + off) n) k) p T dst (va0 + off) n.
Proof.
  intros Hv Hu Hal Hb Hvv Hoff Hn Hfit Hdst. set (a := upage k T va0) in *. set (k' := set_mem _ k).
  assert (Hmem : ∀ x, kmem_mem k' x =
    if decide (dst <= x < dst + n) then kmem_mem k (a + off + (x - dst)) else kmem_mem k x).
  { intros x. simpl. rewrite mcopy_spec by done.
    destruct (Z.leb_spec dst x), (Z.ltb_spec x (dst + n)); simpl; case_decide; done || lia. }
  assert (Hd : ∀ x, dst <= x < dst + n → outside k p T sz x).
  { intros x Hx. replace x with (dst + (x - dst)) by lia. apply Hdst. lia. }
  destruct (pt_ok_frame _ (kmem_mem k') _ _ (vm_pt _ _ _ _ Hv)) as [Hpt' Hview].
  { intros n' q x Hq Hx. rewrite Hmem, decide_False; [done|]. intros Hin%Hd. destruct Hin as [[Ht _] _]. by eapply Ht. }
  assert (Hk' : kabs kend k' p).
  { destruct (vm_kabs _ _ _ _ Hv) as [Hc ?????]. split; [|done..]. apply (chain_ext (kmem_mem k)); [done|].
    intros q x Hq Hx. rewrite Hmem, decide_False; [done|]. intros Hin%Hd. destruct Hin as [[_ Hf] _]. by eapply Hf. }
  split; [split; [done|done|by eapply vm_used]| | | | | |].
  - by apply (uspace_view k).
  - intros j Hj. rewrite <- Z.add_assoc. apply below_off; [done|done|lia].
  - intros x Hx. unfold uread, upage. rewrite Hview. destruct (has _ PTE_V) eqn:Ev; [|done].
    rewrite Hmem, decide_False; [done|]. intros Hin%Hd. destruct Hin as [_ Hf].
    apply (Hf x Hx Ev). pose proof (Z.mod_pos_bound x PGSIZE eq_refl). unfold upage. lia.
  - intros x Hx. rewrite Hmem. case_decide as Hin; [|done].
    assert (Hal' : va0 / PGSIZE * PGSIZE = va0) by (rewrite Z.mul_comm; symmetry; by apply Z_div_exact_full_2).
    replace (va0 + off + (x - dst)) with (va0 / PGSIZE * PGSIZE + (off + (x - dst))) by lia.
    rewrite uread_off by (done || apply Hb || lia). f_equal. fold a. lia.
  - intros x [Hx1 Hx2]. split; [done|]. intros y Hy. unfold valid, upage. rewrite Hview. by apply Hx2.
  - intros x [Hx1 Hx2]. split; [done|]. intros y Hy. unfold valid, upage. rewrite Hview. by apply Hx2.
Qed.

Lemma fetched_trans r sz k p T k1 p1 T1 k2 p2 T2 dst src (n1 n2 : Z) :
  fetched r sz k p T k1 p1 T1 dst src n1 → fetched r sz k1 p1 T1 k2 p2 T2 (dst + n1) (src + n1) n2 →
  0 <= n1 → 0 <= n2 → fetched r sz k p T k2 p2 T2 dst src (n1 + n2).
Proof.
  intros [Hv1 Hu1 Hb1 Hr1 Hm1 Hf1 Ho1] [Hv2 Hu2 Hb2 Hr2 Hm2 Hf2 Ho2] Hn1 Hn2. split; [done|done|..].
  - intros j Hj. destruct (Z.lt_ge_cases j n1); [apply Hb1; lia|].
    replace (src + j) with (src + n1 + (j - n1)) by lia. apply Hb2. lia.
  - intros x Hx. by rewrite Hr2, Hr1.
  - intros x Hx. rewrite Hm2, Hm1 by auto. repeat case_decide; try lia; try done.
    replace (src + n1 + (x - (dst + n1))) with (src + (x - dst)) by lia. apply Hr1.
    replace (src + (x - dst)) with (src + n1 + (x - (dst + n1))) by lia. apply Hb2. lia.
  - auto.
  - auto.
Qed.

(** The page [copyin] reads from. *)
Lemma copyin_pa_step k p r T sz va0 c :
  vms k p r T → uspace k p T sz → va0 mod PGSIZE = 0 → 0 <= va0 < 2 ^ 64 → LK_kmem ∉ held c →
  ∃ res k' p' T',
    (do pa <- walkaddr r va0; if pa =? 0 then vmfault kend (mkvmproc sz r) r va0 else kret pa) c k =
      Ret res c k' ∧ ustep r sz k p T k' p' T' ∧
    (res = 0 ∨ res ≠ 0 ∧ below sz va0 ∧ valid k' T' va0 ∧ upage k' T' va0 = res).
Proof.
  intros Hv Hu Hal Hva Hc. kstep (walkaddr_run k p r T va0 c Hv (proj1 Hva)).
  destruct (_ && _) eqn:Ec.
  - rewrite !andb_true_iff in Ec. destruct Ec as [[Em EV] EU]. apply Z.ltb_lt in Em.
    assert (Hb : below sz va0).
    { split; [lia|]. destruct (Z.lt_ge_cases (va0 / PGSIZE * PGSIZE) sz); [done|].
      pose proof (us_top _ _ _ _ Hu va0 ltac:(lia)) as Ht. rewrite Ht in EU; [done| |done]. intros [_ ?]. lia. }
    destruct (us_page _ _ _ _ Hu va0 Hb EV) as [Hpg _ _ _].
    rewrite (proj2 (Z.eqb_neq _ 0)) by (by apply (page_ok_nonzero kend)).
    exists (upage k T va0), k, p, T. split; [done|]. split; [by apply ustep_refl|right].
    split_and!; [by apply (page_ok_nonzero kend)|done..].
  - assert (Hrd : PGROUNDDOWN va0 = va0) by (rewrite PGROUNDDOWN_eq by (uconst; lia); rewrite Hal; lia).
    destruct (vmfault_step k p r T sz va0 c) as (res & k' & p' & T' & E & Hst & Hres); [done|done|uconst; lia|done|].
    exists res, k', p', T'. split; [done|]. split; [done|]. rewrite Hrd in Hres.
    destruct Hres as [?|(? & ? & ? & ? & ? & ? & ?)]; [by left|right]. split_and!; [done| |done..].
    split; [lia|]. uconst. Z.div_mod_to_equations. lia.
Qed.

Lemma copyin_loop_ok r sz c : LK_kmem ∉ held c → ∀ fuel k p T dst src (len : Z),
  vms k p r T → uspace k p T sz → 0 <= src < 2 ^ 64 → 0 <= len →
  len + src mod PGSIZE <= Z.of_nat fuel * PGSIZE → (∀ j, 0 <= j < len → outside k p T sz (dst + j)) →
  ∃ res k' p' T' (n : Z), copyin_loop kend fuel (mkvmproc sz r) r dst src len c k = Ret res c k' ∧
    fetched r sz k p T k' p' T' dst src n ∧ (res = 0 ∧ n = len ∨ res = -1 ∧ 0 <= n < len).
Proof.
  intros Hc fuel. induction fuel as [|fuel IH]; intros k p T dst src len Hv Hu Hsrc Hlen Hfuel Hbuf;
    cbn [copyin_loop]; (destruct (Z.leb_spec len 0) as [Hz|Hpos];
    [exists 0, k, p, T, 0; split; [done|]; split; [by apply fetched_ustep, ustep_refl|left; lia]|]).
  { pose proof (Z.mod_pos_bound src PGSIZE eq_refl). lia. }
  set (va0 := PGROUNDDOWN src).
  assert (Eva : va0 = src / PGSIZE * PGSIZE).
  { unfold va0. rewrite PGROUNDDOWN_eq by done. uconst. Z.div_mod_to_equations. lia. }
  assert (Hal : va0 mod PGSIZE = 0) by (rewrite Eva; by apply Z_mod_mult).
  assert (H0 : 0 <= va0 <= src) by (rewrite Eva; uconst; Z.div_mod_to_equations; lia).
  destruct (copyin_pa_step k p r T sz va0 c Hv Hu Hal ltac:(lia) Hc) as (res & k1 & p1 & T1 & E1 & Hst1 & Hres).
  destruct (kbind_inv _ _ _ _ _ _ _ E1) as (pa & c' & k0 & Ew & Ef).
  kstep Ew. kstep Ef. destruct Hres as [-> | (Hnz & Hb & Hvv & Hpa)].
  { exists (-1), k1, p1, T1, 0. split; [done|]. split; [by apply fetched_ustep|right; lia]. }
  rewrite (proj2 (Z.eqb_neq _ 0)) by done. unfold kmemmove. kexec.
  destruct (chunk_bounds src va0 len ltac:(lia) Eva ltac:(lia)) as (Hch & Hfit & Hend'). set (n := chunk src va0 len) in *.
  assert (Hmax : 0 <= va0 < MAXVA) by (eapply below_maxva; [apply Hu|done]).
  assert (Hout : ∀ j, 0 <= j < len → outside k1 p1 T1 sz (dst + j)).
  { intros j Hj. eapply outside_ustep; eauto. }
  pose proof (ufetch_step r sz k1 p1 T1 va0 (src - va0) dst n (st_vms _ _ _ _ _ _ _ _ Hst1) (st_us _ _ _ _ _ _ _ _ Hst1)
    Hal Hb Hvv ltac:(lia) ltac:(lia) Hfit (λ j Hj, Hout j ltac:(lia))) as Hw.
  rewrite Hpa in Hw. replace (va0 + (src - va0)) with src in Hw by lia. set (k2 := set_mem _ k1) in *.
  assert (Hw' : fetched r sz k p T k2 p1 T1 dst src n).
  { replace n with (0 + n) by lia. eapply fetched_trans; [by apply fetched_ustep|by rewrite !Z.add_0_r|lia..]. }
  destruct (IH k2 p1 T1 (dst + n) (u64 (va0 + PGSIZE)) (len - n)) as (res' & k' & p' & T' & n' & E' & Hcp & Hres');
    [apply Hw|apply Hw|apply u64_range|lia| | |].
  { rewrite u64_small by (uconst; lia). rewrite (proj1 (page_step va0 Hal)).
    pose proof (Z.mod_pos_bound src PGSIZE eq_refl). pose proof (Z.div_mod src PGSIZE ltac:(done)).
    destruct Hend'; uconst; lia. }
  { intros j Hj. apply (ft_outside _ _ _ _ _ _ _ _ _ _ _ Hw). rewrite <- Z.add_assoc. apply Hout. lia. }
  exists res', k', p', T', (n + n'). split; [exact E'|]. rewrite u64_small in Hcp by (uconst; lia). split; [|lia].
  eapply fetched_trans; [exact Hw'| |lia|lia]. destruct Hend' as [Hn|Hn].
  - assert (n' = 0) as -> by lia. destruct Hcp as [H1 H2 _ H3 H4 H5 H6]. split; [done|done|lia|done| |done|done].
    intros x Hx. rewrite H4 by done. by rewrite !decide_False by lia.
  - by rewrite Hn.
Qed.
End tables.

(** ** Properties *)

(** [mappages] over whole unmapped pages, for a table [T] that shares memory with the allocator:
    it returns 0 and the table's view is the old one with exactly those pages mapped to the physical
    pages from [pa] with the permissions [perm] and PTE_V; or memory ran out, it returns -1, and a
    prefix of the pages is mapped.  In both cases the tables it added come from the free list, no
    other memory changes, and the allocator's invariant is kept. *)
Theorem mappages_maps kend k p T r va npages pa perm c :
  KERNBASE <= kend → vms kend k p r T → LK_kmem ∉ held c →
  va mod PGSIZE = 0 → 0 <= va → 0 < npages → va + npages * PGSIZE <= MAXVA →
  unmapped k T va (va + (npages - 1) * PGSIZE) →
  page_addr pa → pa + npages * PGSIZE <= 2 ^ 54 → attr perm →
  ∃ res k' p' T' cnt, mappages r va (npages * PGSIZE) pa perm c k = Ret res c k' ∧
    vms kend k' p' r T' ∧
    (∀ x, 0 <= x < MAXVA →
      pte_at (kmem_mem k') T' x = map_view (pte_at (kmem_mem k) T) va pa perm cnt x) ∧
    (∀ x, untouched T p x → kmem_mem k' x = kmem_mem k x) ∧
    (∃ l, pfree p = l ++ pfree p') ∧
    (res = 0 ∧ cnt = npages ∨ res = -1 ∧ 0 <= cnt < npages ∧ pfree p' = []).
Proof.
  intros Hend Hv Hc Hal Hva Hn Hmax Hun Hpa Hpam Hperm.
  destruct (mappages_ok kend Hend k p T r va npages pa perm c Hv Hc Hal Hva Hn Hmax Hun Hpa Hpam Hperm)
    as (res & k' & p' & T' & cnt & E & [Hv' [_ _ Hf _ _ Hm] Hview] & _ & Hres).
  exists res, k', p', T', cnt. split_and!; done.
Qed.

(** C23. A page fault of a process at [va]: the call returns 0 or the page that now backs [va].  What
    the process reads at every address below its size is unchanged (demand-zero pages read as zero),
    memory that belongs to others is unchanged, the table stays well formed, and when a page is
    returned its entry is valid, writable, no longer copy-on-write, and the only reference to the
    page. *)
Theorem vmfault_transparent kend k p T r sz va c :
  KERNBASE <= kend → vms kend k p r T → uspace kend k p T sz → 0 <= va < 2 ^ 64 → LK_kmem ∉ held c →
  ∃ res k' p' T', vmfault kend (mkvmproc sz r) r va c k = Ret res c k' ∧
    vms kend k' p' r T' ∧ uspace kend k' p' T' sz ∧
    (∀ x, below sz x → uread k' T' x = uread k T x) ∧
    (∀ x, foreign k p T sz x → kmem_mem k' x = kmem_mem k x) ∧
    (res = 0 ∨ res ≠ 0 ∧ va < sz ∧ writable k' p' T' (PGROUNDDOWN va) res).
Proof.
  intros Hend Hv Hu Hva Hc.
  destruct (vmfault_step kend Hend k p r T sz va c Hv Hu Hva Hc) as (res & k' & p' & T' & E & [H1 H2 H3 _ H4] & Hres).
  exists res, k', p', T'. split_and!; try done. intros x Hx. by apply H4.
Qed.

(** C21. [copyout] terminates and returns 0 or -1.  It writes the bytes of the kernel buffer at [dst],
    all of them (0) or a proper prefix (-1), as the process reads its memory; every byte written is
    below the process's size; its other bytes, and the memory of everyone else (pages shared
    copy-on-write with another process among them), are unchanged. *)
Theorem copyout_writes kend k p T r sz dst src len c :
  KERNBASE <= kend → vms kend k p r T → uspace kend k p T sz → 0 <= dst < 2 ^ 64 → 0 <= len →
  kbuf k p T sz src len → LK_kmem ∉ held c →
  ∃ res k' p' T' n, copyout kend (mkvmproc sz r) r dst src len c k = Ret res c k' ∧
    vms kend k' p' r T' ∧ uspace kend k' p' T' sz ∧
    (∀ j, 0 <= j < n → below sz (dst + j)) ∧
    (∀ x, below sz x → uread k' T' x =
       if decide (dst <= x < dst + n) then kmem_mem k (src + (x - dst)) else uread k T x) ∧
    (∀ x, foreign k p T sz x → kmem_mem k' x = kmem_mem k x) ∧
    (res = 0 ∧ n = len ∨ res = -1 ∧ 0 <= n < len).
Proof.
  intros Hend Hv Hu Hdst Hlen Hbuf Hc.
  destruct (copyout_loop_ok kend Hend r sz c Hc (copy_fuel len) k p T dst src len)
    as (res & k' & p' & T' & n & E & [H1 H2 H3 H4 H5] & Hres); [done..|by apply copy_fuel_enough|done|].
  exists res, k', p', T', n. split_and!; try done. intros x Hx. by apply H5.
Qed.

(** C22. [copyin] terminates and returns 0 or -1.  It fills the kernel buffer at [dst] with the bytes
    the process reads at [src], all of them (0) or a proper prefix (-1); every byte read is below the
    process's size, the process's memory reads as before, and memory outside the buffer that is not
    the process's own is unchanged. *)
Theorem copyin_reads kend k p T r sz dst src len c :
  KERNBASE <= kend → vms kend k p r T → uspace kend k p T sz → 0 <= src < 2 ^ 64 → 0 <= len →
  (∀ j, 0 <= j < len → outside k p T sz (dst + j)) → LK_kmem ∉ held c →
  ∃ res k' p' T' n, copyin kend (mkvmproc sz r) r dst src len c k = Ret res c k' ∧
    vms kend k' p' r T' ∧ uspace kend k' p' T' sz ∧
    (∀ j, 0 <= j < n → below sz (src + j)) ∧
    (∀ x, below sz x → uread k' T' x = uread k T x) ∧
    (∀ x, foreign k p T sz x →
       kmem_mem k' x = if decide (dst <= x < dst + n) then uread k T (src + (x - dst)) else kmem_mem k x) ∧
    (res = 0 ∧ n = len ∨ res = -1 ∧ 0 <= n < len).
Proof.
  intros Hend Hv Hu Hsrc Hlen Hbuf Hc.
  destruct (copyin_loop_ok kend Hend r sz c Hc (copy_fuel len) k p T dst src len)
    as (res & k' & p' & T' & n & E & [H1 H2 H3 H4 H5 H6 _] & Hres); [done..|by apply copy_fuel_enough|done|].
  exists res, k', p', T', n. split_and!; done.
Qed.

(** *** A small concrete state: an empty table and three free pages *)

Definition vm_page (i : Z) : Z := KERNBASE + i * PGSIZE.
Definition vm_mem0 : mem :=
  store64 (store64 (λ _, 0) (vm_page 1) (vm_page 2)) (vm_page 2) (vm_page 3).
Definition vm_k : kmem := mkkmem vm_mem0 (vm_page 1) (λ _, 0).
Definition vm_pool : pool := mkpool [vm_page 1; vm_page 2; vm_page 3] (λ _, 0).
Definition vm_tree : tree := λ n, match n with [] => Some (vm_page 0) | _ => None end.

Lemma vm_state_ok : vms KERNBASE vm_k vm_pool (vm_page 0) vm_tree.
Proof.
  split.
  - split; simpl.
    + done.
    + intros [] a; [|done]. by intros [= <-].
    + by intros [] [] a.
    + intros n i. by destruct n.
    + intros [|i' n] a i; [|done]. intros [= <-] _ Hi. simpl.
      rewrite load64_zero_page; [done| |done].
      intros x Hx. unfold vm_mem0, store64, vm_page in *. uconst. rewrite !mwrite_out by (rewrite length_le_split; lia). done.
  - split; simpl; [by vm_compute|apply (bool_decide_unpack _); by vm_compute| |done|done|lia].
    repeat constructor; by vm_compute.
  - intros [] a; [|done]. intros [= <-]. apply (bool_decide_unpack _). by vm_compute.
Qed.

Lemma vm_pte x : pte_at (kmem_mem vm_k) vm_tree x = 0.
Proof. done. Qed.

Lemma vm_uspace : uspace KERNBASE vm_k vm_pool vm_tree 4096.
Proof.
  split; unfold valid; [by vm_compute|intros x; rewrite ?vm_pte; done..].
Qed.

Lemma vm_outside x : 0 <= x < KERNBASE → outside vm_k vm_pool vm_tree 4096 x.
Proof.
  intros Hx. split; [split|intros y _; unfold valid; by rewrite vm_pte].
  - intros [] a; [|done]. intros [= <-]. unfold vm_page in *. lia.
  - simpl. intros a Ha. rewrite !elem_of_cons, elem_of_nil in Ha. unfold vm_page in *. uconst. lia.
Qed.

Lemma mappages_maps_witness :
  ∃ res k' p' T' cnt, mappages (vm_page 0) 8192 (1 * PGSIZE) (vm_page 9) (flags [PTE_R; PTE_U]) demo_ctx vm_k =
      Ret res demo_ctx k' ∧
    vms KERNBASE k' p' (vm_page 0) T' ∧
    (∀ x, 0 <= x < MAXVA → pte_at (kmem_mem k') T' x =
       map_view (pte_at (kmem_mem vm_k) vm_tree) 8192 (vm_page 9) (flags [PTE_R; PTE_U]) cnt x) ∧
    (∀ x, untouched vm_tree vm_pool x → kmem_mem k' x = kmem_mem vm_k x) ∧
    (∃ l, pfree vm_pool = l ++ pfree p') ∧
    (res = 0 ∧ cnt = 1 ∨ res = -1 ∧ 0 <= cnt < 1 ∧ pfree p' = []).
Proof.
  apply (mappages_maps KERNBASE);
    [done|apply vm_state_ok|set_solver|done|done|done|done|intros x _ _; by rewrite vm_pte|by vm_compute|done|].
  apply attr_mask; by vm_compute.
Defined.

Lemma vmfault_transparent_witness :
  ∃ res k' p' T', vmfault KERNBASE (mkvmproc 4096 (vm_page 0)) (vm_page 0) 100 demo_ctx vm_k = Ret res demo_ctx k' ∧
    vms KERNBASE k' p' (vm_page 0) T' ∧ uspace KERNBASE k' p' T' 4096 ∧
    (∀ x, below 4096 x → uread k' T' x = uread vm_k vm_tree x) ∧
    (∀ x, foreign vm_k vm_pool vm_tree 4096 x → kmem_mem k' x = kmem_mem vm_k x) ∧
    (res = 0 ∨ res ≠ 0 ∧ 100 < 4096 ∧ writable k' p' T' (PGROUNDDOWN 100) res).
Proof. apply (vmfault_transparent KERNBASE); [done|apply vm_state_ok|apply vm_uspace|done|set_solver]. Defined.

Lemma copyout_writes_witness :
  ∃ res k' p' T' n, copyout KERNBASE (mkvmproc 4096 (vm_page 0)) (vm_page 0) 100 0x1000 20 demo_ctx vm_k =
      Ret res demo_ctx k' ∧
    vms KERNBASE k' p' (vm_page 0) T' ∧ uspace KERNBASE k' p' T' 4096 ∧
    (∀ j, 0 <= j < n → below 4096 (100 + j)) ∧
    (∀ x, below 4096 x → uread k' T' x =
       if decide (100 <= x < 100 + n) then kmem_mem vm_k (0x1000 + (x - 100)) else uread vm_k vm_tree x) ∧
    (∀ x, foreign vm_k vm_pool vm_tree 4096 x → kmem_mem k' x = kmem_mem vm_k x) ∧
    (res = 0 ∧ n = 20 ∨ res = -1 ∧ 0 <= n < 20).
Proof.
  apply (copyout_writes KERNBASE); [done|apply vm_state_ok|apply vm_uspace|done|done| |set_solver].
  intros j Hj. apply outside_foreign, vm_outside. uconst. lia.
Defined.

Lemma copyin_reads_witness :
  ∃ res k' p' T' n, copyin KERNBASE (mkvmproc 4096 (vm_page 0)) (vm_page 0) 0x1000 100 20 demo_ctx vm_k =
      Ret res demo_ctx k' ∧
    vms KERNBASE k' p' (vm_page 0) T' ∧ uspace KERNBASE k' p' T' 4096 ∧
    (∀ j, 0 <= j < n → below 4096 (100 + j)) ∧
    (∀ x, below 4096 x → uread k' T' x = uread vm_k vm_tree x) ∧
    (∀ x, foreign vm_k vm_pool vm_tree 4096 x → kmem_mem k' x =
       if decide (0x1000 <= x < 0x1000 + n) then uread vm_k vm_tree (100 + (x - 0x1000)) else kmem_mem vm_k x) ∧
    (res = 0 ∧ n = 20 ∨ res = -1 ∧ 0 <= n < 20).
Proof.
  apply (copyin_reads KERNBASE); [done|apply vm_state_ok|apply vm_uspace|done|done| |set_solver].
  intros j Hj. apply vm_outside. uconst. lia.
Defined.
