(* ===== verification/Kvm.v ===== *)
(** * The kernel page table (kvmmake, kvminit and proc_mapstacks of vm.c)

    The address space of the kernel is a list of regions.  [kvmmake] builds exactly that list: the
    proof carries the invariant [kvm] through its calls of [kvmmap], one region at a time.  That memory
    does not run out follows from a list of the table paths the layout can need. *)

From stdpp Require Import base list functions sets numbers strings.
From Stdlib Require Import ZArith Lia.
From S2P Require Import Prelude Machine Kstring Kalloc Vm.

(** ** Regions *)

(** [rg_pages] pages from [rg_va], mapped to the pages from [rg_pa]. *)
Record region := mkregion { rg_va : Z; rg_pages : Z; rg_pa : Z; rg_perm : Z }.

Definition in_region (g : region) (x : Z) : Prop := rg_va g / PGSIZE <= x / PGSIZE < rg_va g / PGSIZE + rg_pages g.
#[global] Instance in_region_dec g x : Decision (in_region g x) := _.

(** The entry of the page of [x]. *)
Definition region_entry (g : region) (x : Z) : Z :=
  Z.lor (Z.lor (PA2PTE (rg_pa g + (x / PGSIZE - rg_va g / PGSIZE) * PGSIZE)) (rg_perm g)) PTE_V.

(** The table shows the regions [l] and nothing else. *)
Record shows (l : list region) (k : kmem) (T : tree) : Prop := mkshows {
  sh_in : ∀ g x, g ∈ l → 0 <= x < MAXVA → in_region g x → pte_at (kmem_mem k) T x = region_entry g x;
  sh_out : ∀ x, 0 <= x < MAXVA → (∀ g, g ∈ l → ¬ in_region g x) → pte_at (kmem_mem k) T x = 0
}.

Record region_ok (g : region) : Prop := mkregion_ok {
  ro_va : rg_va g mod PGSIZE = 0 ∧ 0 <= rg_va g;
  ro_pages : 0 < rg_pages g ∧ rg_va g + rg_pages g * PGSIZE <= MAXVA;
  ro_pa : page_addr (rg_pa g) ∧ rg_pa g + rg_pages g * PGSIZE <= 2 ^ 54;
  ro_perm : attr (rg_perm g)
}.

Definition apart_regions (g g' : region) : Prop :=
  rg_va g / PGSIZE + rg_pages g <= rg_va g' / PGSIZE ∨ rg_va g' / PGSIZE + rg_pages g' <= rg_va g / PGSIZE.

(** ** The layout of the kernel's address space *)

Definition text_perm : Z := flags [PTE_R; PTE_X; PTE_A; PTE_THEAD_MAEE].
Definition data_perm : Z := flags [PTE_R; PTE_W; PTE_A; PTE_D; PTE_THEAD_MAEE].
Definition io_perm : Z := flags [PTE_R; PTE_W; PTE_A; PTE_D; PTE_IO].
Definition tramp_perm : Z := flags [PTE_R; PTE_X; PTE_A].
Definition stack_perm : Z := flags [PTE_R; PTE_W; PTE_THEAD_MAEE; PTE_A; PTE_D].

Definition stack_region (i pa : Z) : region := mkregion (KSTACK i) 1 pa stack_perm.
Definition stack_regions (stk : list Z) : list region := imap (λ i, stack_region (Z.of_nat i)) stk.

Definition fixed_regions (etext trampoline : Z) : list region := [
  mkregion KERNBASE ((etext - KERNBASE) / PGSIZE) KERNBASE text_perm;
  mkregion etext ((PHYSTOP - etext) / PGSIZE) etext data_perm;
  mkregion WDT0_BASE 1 WDT0_BASE io_perm;
  mkregion UART0 1 UART0 io_perm;
  mkregion PLIC 0x4000 PLIC io_perm;
  mkregion K230_SD1 1 K230_SD1 io_perm;
  mkregion TRAMPOLINE 1 trampoline tramp_perm ].

Definition kernel_layout (etext trampoline : Z) (stk : list Z) : list region :=
  fixed_regions etext trampoline ++ stack_regions stk.

(** ** The tables the layout can need *)

Definition paths (i j cnt : Z) : list (list Z) := [i] :: ((λ j, [i; j]) <$> seqZ j cnt).
Definition kvm_paths : list (list Z) := [] :: paths 0 1 511 ++ paths 2 0x88 3 ++ paths 60 0 32 ++ paths 255 511 1.

Lemma paths_in n i j cnt x : on_path n x → PX 2 x = i → j <= PX 1 x < j + cnt → n ∈ paths i j cnt.
Proof.
  intros Hn <- Hj. unfold paths. apply elem_of_cons. destruct Hn as [-> | ->]; [by left|right].
  apply list_elem_of_fmap. exists (PX 1 x). split; [done|]. apply elem_of_seqZ. lia.
Qed.

(** [x] is at an address whose tables are in [kvm_paths]. *)
Definition kvm_addr (x : Z) : Prop :=
  KERNBASE <= x < PHYSTOP ∨ 0x91106000 <= x < 0x91600000 ∨ PLIC <= x < PLIC + 0x4000000 ∨ MAXVA - 0x200000 <= x < MAXVA.

Lemma kvm_addr_path n x : on_path n x → kvm_addr x → n ∈ kvm_paths.
Proof.
  intros Hn Hx. unfold kvm_paths. apply elem_of_cons. right. rewrite !elem_of_app.
  assert (H0 : 0 <= x) by (unfold kvm_addr, PLIC in Hx; uconst; lia).
  assert (E2 : PX 2 x = x / 0x40000000 mod 512) by (by rewrite PX_eq by done).
  assert (E1 : PX 1 x = x / 0x200000 mod 512) by (by rewrite PX_eq by done).
  destruct Hx as [Hx|[Hx|[Hx|Hx]]]; [left|right; left|right; right; left|right; right; right];
    (eapply paths_in; [exact Hn|rewrite E2|rewrite E1]); unfold PLIC in *; uconst; Z.div_mod_to_equations; lia.
Qed.

Lemma omap_le {A B} (f : A → option B) l : (length (omap f l) <= length l)%nat.
Proof. induction l as [|x l IH]; csimpl; [lia|]. destruct (f x); simpl; lia. Qed.

(** A zeroed page from the allocator is a page table without entries. *)
Lemma new_table kend k b l refs : KERNBASE <= kend → kabs kend k (mkpool (b :: l) refs) →
  let k' := mkkmem (mfill (mfill (kmem_mem k) b 0 PGSIZE) b 0 PGSIZE) (load64 (kmem_mem k) b) (<[KREF_INDEX b:=1]> (krefcount k)) in
  vms kend k' (mkpool l (<[b:=1]> refs)) b (root_tree b) ∧ (∀ x, pte_at (kmem_mem k') (root_tree b) x = 0) ∧
  same_outside b (kmem_mem k) (kmem_mem k').
Proof.
  intros Hend Hk k'. pose proof (kabs_pages _ _ _ Hk) as Hpg. simpl in Hpg. apply Forall_cons in Hpg as [Hb _].
  pose proof (kabs_nodup _ _ _ Hk) as Hnd. simpl in Hnd. apply NoDup_cons in Hnd as [Hbl _].
  split; [|split; [done|eapply same_outside_trans; apply same_outside_fill]]. split; [split|..].
  - done.
  - intros [] a; [|done]. by intros [= <-].
  - by intros [] [] a.
  - intros n i. by destruct n.
  - intros [|] a i; [|done]. intros [= <-] _ Hi. simpl. rewrite load64_zero_page; [done| |done]. intros x Hx. by apply mfill_in.
  - change k' with (set_mem (kmem_mem k') (mkkmem (mfill (kmem_mem k) b 0 PGSIZE) (load64 (kmem_mem k) b) (<[KREF_INDEX b:=1]> (krefcount k)))).
    eapply (kabs_store kend) with b; [by apply kabs_alloc|done|done|apply same_outside_fill].
  - intros [] a; [|done]. intros [= <-]. done.
Qed.

Lemma root_path : [] ∈ kvm_paths.
Proof. constructor. Qed.

#[local] Opaque kvm_paths.

(** ** Stacks *)

Lemma shows_view l k T k' T' : shows l k T → same_view k T k' T' → shows l k' T'.
Proof. intros [H1 H2] E. split; intros; rewrite (E _); auto. Qed.

Lemma stack_regions_snoc stk a : stack_regions (stk ++ [a]) = stack_regions stk ++ [stack_region (Z.of_nat (length stk)) a].
Proof. unfold stack_regions. rewrite imap_app. cbn. by rewrite Nat.add_0_r. Qed.

Lemma stack_regions_elem g stk : g ∈ stack_regions stk ↔ ∃ i a, g = stack_region (Z.of_nat i) a ∧ stk !! i = Some a.
Proof. unfold stack_regions. rewrite elem_of_lookup_imap. naive_solver. Qed.

(** A region at the top of the address space below the trampoline. *)
Definition below_tramp (g : region) : Prop := rg_va g / PGSIZE + rg_pages g <= KSTACK (Z.of_nat NPROC) / PGSIZE ∨ TRAMPOLINE / PGSIZE <= rg_va g / PGSIZE.

Lemma stack_page i : 0 <= i < Z.of_nat NPROC → KSTACK i / PGSIZE = 0x3ffffff - 2 * (i + 1) ∧ KSTACK i mod PGSIZE = 0.
Proof. intros Hi. change (Z.of_nat NPROC) with 64 in Hi. unfold KSTACK. uconst. Z.div_mod_to_equations. lia. Qed.

Lemma attr_stack : attr stack_perm.
Proof. by apply attr_mask. Qed.

(** ** Building the table *)

Section build.
Context (kend : Z) (Hend : KERNBASE <= kend) (c : kctx) (Hc : LK_kmem ∉ held c).
Context (k0 : kmem) (p0 : pool) (Hp0 : NoDup (pfree p0)).
Context (P : list (list Z)) (room : nat) (Hroom : (length P + room < length (pfree p0))%nat).
Implicit Types (k : kmem) (p : pool) (T : tree) (l : list region) (g : region) (stk : list Z).

(** The tables of [T] and the stack pages [stk] came from the free pages of [p0]. *)
Record kvm r stk k p T : Prop := mkkvm {
  kv_vms : vms kend k p r T;
  kv_paths : ∀ n q, T n = Some q → n ∈ P;
  kv_all : ∀ a, a ∈ pfree p0 → a ∈ pfree p ∨ (∃ n, T n = Some a) ∨ a ∈ stk;
  kv_free : ∃ used : list Z, pfree p0 = used ++ pfree p;
  kv_tables : ∀ n q, T n = Some q → q ∈ pfree p0 ∧ prefs p q = 1 ∧ q ∉ stk;
  kv_stk : ∀ a, a ∈ stk → a ∈ pfree p0 ∧ (a ∉ pfree p) ∧ prefs p a = 1;
  kv_nodup : NoDup stk;
  kv_refs : ∀ a, a ∉ pfree p0 → prefs p a = prefs p0 a;
  kv_mem : ∀ x, (∀ a, a ∈ pfree p0 → ¬ (a <= x < a + PGSIZE)) → kmem_mem k x = kmem_mem k0 x
}.

Lemma kvm_free_in r stk k p T a : kvm r stk k p T → a ∈ pfree p → a ∈ pfree p0.
Proof. intros H Ha. destruct (kv_free _ _ _ _ _ H) as [l' ->]. set_solver. Qed.

(** Memory does not run out: the pages in use are tables at different paths, and stacks. *)
Lemma kvm_left r stk k p T : kvm r stk k p T → (length (pfree p0) <= length (pfree p) + length P + length stk)%nat.
Proof.
  intros H. assert (Hsub : pfree p0 ⊆ pfree p ++ omap T P ++ stk).
  { intros a Ha. rewrite !elem_of_app. destruct (kv_all _ _ _ _ _ H a Ha) as [Hi|[[n Hn]|?]]; [by left| |by right; right].
    right; left. apply list_elem_of_omap. exists n. split; [by eapply kv_paths|done]. }
  apply NoDup_submseteq, submseteq_length in Hsub; [|done].
  rewrite !length_app in Hsub. pose proof (omap_le T P). lia.
Qed.

Lemma kvm_room r stk k p T : kvm r stk k p T → (length stk <= room)%nat → pfree p ≠ [].
Proof. intros H%kvm_left Hs He. rewrite He in H. simpl in H. lia. Qed.

(** What [mappages] does keeps it. *)
Lemma kvm_mapped r stk k p T k' p' T' va pa perm cnt (Q : list Z → Prop) :
  kvm r stk k p T → mapped kend k p T k' p' T' r va pa perm cnt → adds p T p' T' Q → (∀ n, Q n → n ∈ P) →
  kvm r stk k' p' T'.
Proof.
  intros H [Hv' Hg _] [Hnew Hused] HP. pose proof H as [Hv Hpt Hall [used Hfree] Htab Hstk Hnd Hrefs Hmem].
  pose proof (λ a, kvm_free_in r stk k p T a H) as Hin.
  destruct Hg as [G1 G2 [l' G3] G4 G5 G6]. split; try done.
  - intros n q [?|?]%Hnew; [by eapply Hpt|by apply HP].
  - intros a [Ha|[[n Hn]|?]]%Hall; [destruct (Hused a Ha) as [?|?]; auto|right; left; exists n; auto|auto].
  - exists (used ++ l'). by rewrite Hfree, G3, app_assoc.
  - intros n q Hq. destruct (G2 n q Hq) as [Ho|[Hf Hnf]].
    + destruct (Htab n q Ho) as (? & ? & ?). split_and!; [done| |done]. rewrite G4; [done|]. by eapply vm_used.
    + split_and!; [auto|by apply G5|]. intros Hs%Hstk. by apply Hs.
  - intros a Ha. destruct (Hstk a Ha) as (H1 & H2 & H3). split_and!; [done| |by rewrite G4].
    intros Ha'. apply H2. rewrite G3. set_solver.
  - intros a Ha. rewrite G4; [auto|]. intros ?%Hin. done.
  - intros x Hx. rewrite G6; [auto|]. split; [intros n a Ha; by apply Hx, (Htab n)|intros a Ha; by apply Hx, Hin].
Qed.

(** The tables a region needs. *)
Definition region_in g : Prop := ∀ n x, 0 <= x < MAXVA → in_region g x → on_path n x → n ∈ P.

(** One region. *)
Lemma map_region_ok r l stk k p T g size :
  kvm r stk k p T → shows l k T → (length stk <= room)%nat → region_ok g → (∀ g', g' ∈ l → apart_regions g g') →
  region_in g → size = rg_pages g * PGSIZE →
  ∃ k' p' T', mappages r (rg_va g) size (rg_pa g) (rg_perm g) c k = Ret 0 c k' ∧ kvm r stk k' p' T' ∧ shows (l ++ [g]) k' T'.
Proof.
  intros H [Hin Hout] Hlen [[Hva Hva0] [Hn Hmax] [Hpa Hpam] Hperm] Hap Hadr ->.
  assert (Hlast : (rg_va g + (rg_pages g - 1) * PGSIZE) / PGSIZE = rg_va g / PGSIZE + rg_pages g - 1) by (uconst; Z.div_mod_to_equations; lia).
  destruct (mappages_ok kend Hend k p T r (rg_va g) (rg_pages g) (rg_pa g) (rg_perm g) c)
    as (res & k' & p' & T' & cnt & E & Hm & Had & Hres); try done; [apply H| |].
  { intros x Hx Hx'. rewrite Hout; [apply Z.bits_0|done|]. intros g' Hg' Hi. unfold in_region in Hi. rewrite Hlast in Hx'. destruct (Hap g' Hg'); lia. }
  assert (H' : kvm r stk k' p' T').
  { eapply kvm_mapped; [exact H|exact Hm|exact Had|]. intros n (x & Hp & Hx & Hr). rewrite Hlast in Hr.
    apply (Hadr n x); [done| |done]. unfold in_region. lia. }
  destruct Hres as [[-> ->]|(_ & _ & He)]; [|by destruct (kvm_room _ _ _ _ _ H' Hlen)].
  exists k', p', T'. split; [done|]. split; [done|]. destruct Hm as [_ _ Hview].
  split; intros x; rewrite ?list_elem_of_singleton.
  - intros x0 Hg' Hx Hi. rewrite Hview by done. unfold map_view.
    apply elem_of_app in Hg' as [Hg'|<- %list_elem_of_singleton].
    + rewrite decide_False; [by apply Hin|]. unfold in_region in Hi. destruct (Hap x Hg'); lia.
    + by rewrite decide_True.
  - intros Hx Hno. rewrite Hview by done. unfold map_view.
    rewrite decide_False; [|apply (Hno g); set_solver]. apply Hout; [done|]. intros g' Hg'. apply Hno. set_solver.
Qed.

Lemma kvmmap_ok r l stk k p T g size :
  kvm r stk k p T → shows l k T → (length stk <= room)%nat → region_ok g → (∀ g', g' ∈ l → apart_regions g g') →
  region_in g → size = rg_pages g * PGSIZE →
  ∃ k' p' T', kvmmap r (rg_va g) (rg_pa g) size (rg_perm g) c k = Ret tt c k' ∧ kvm r stk k' p' T' ∧ shows (l ++ [g]) k' T'.
Proof.
  intros. destruct (map_region_ok r l stk k p T g size) as (k' & p' & T' & E & ?); [done..|].
  exists k', p', T'. split; [unfold kvmmap; by kstep E|done].
Qed.

(** *** Stacks *)

Lemma kvm_alloc r stk k p T : kvm r stk k p T → (length stk < room)%nat →
  ∃ a k' p', kalloc c k = Ret a c k' ∧ a ≠ 0 ∧ page_ok kend a ∧ kvm r (stk ++ [a]) k' p' T ∧ same_view k T k' T.
Proof.
  intros H Hlen. pose proof (kvm_room _ _ _ _ _ H ltac:(lia)) as Hne. pose proof H as [Hv Hpt Hall [used Hfree] Htab Hstk Hnd Hrefs Hmem].
  pose proof (λ a, kvm_free_in r stk k p T a H) as Hin.
  rewrite kalloc_run by done. cbv zeta. rewrite (chain_head_ok kend _ _ (vm_kabs _ _ _ _ _ Hv)).
  destruct p as [[|a l] refs]; [done|]. cbn [pfree prefs] in *.
  pose proof (kabs_pages _ _ _ (vm_kabs _ _ _ _ _ Hv)) as Hpg. simpl in Hpg. apply Forall_cons in Hpg as [Ha _].
  pose proof (kabs_nodup _ _ _ (vm_kabs _ _ _ _ _ Hv)) as Hndp. simpl in Hndp. apply NoDup_cons in Hndp as [Hal _].
  rewrite (proj2 (Z.eqb_neq a 0)) by (by apply (page_ok_nonzero kend)).
  destruct (vms_alloc kend Hend k r T a l refs _ Hv (same_outside_fill (kmem_mem k) a 0)) as (Hv' & Hs & [_ _ Hfresh _]).
  assert (Hat : ∀ n q, T n = Some q → q ≠ a) by (intros n q Hq ->; by eapply Hfresh).
  assert (Has : a ∉ stk) by (intros Hs'%Hstk; destruct Hs' as (_ & Hs' & _); apply Hs'; constructor).
  eexists a, _, (mkpool l (<[a:=1]> refs)). split; [done|]. split; [by apply (page_ok_nonzero kend)|]. split; [done|]. split; [|exact Hs].
  split; [exact Hv'|done|..]; cbn [pfree prefs].
  - intros x [[-> |?]%elem_of_cons|[?|?]]%Hall; [right; right; set_solver|auto|auto|right; right; set_solver].
  - exists (used ++ [a]). by rewrite Hfree, <- app_assoc.
  - intros n q Hq. destruct (Htab n q Hq) as (? & ? & ?). rewrite fn_lookup_insert_ne by (by apply not_eq_sym, (Hat n)).
    split_and!; [done..|]. rewrite elem_of_app, list_elem_of_singleton. intros [?| ->]; [done|by apply (Hfresh n)].
  - intros x [Hx| ->%list_elem_of_singleton]%elem_of_app.
    + destruct (Hstk x Hx) as (? & ? & ?). rewrite fn_lookup_insert_ne by (intros ->; done). split_and!; [done|set_solver|done].
    + rewrite fn_lookup_insert. split_and!; [apply Hin; constructor|done|done].
  - apply NoDup_app. split_and!; [done| |apply NoDup_singleton]. intros x Hx ->%list_elem_of_singleton. done.
  - intros x Hx. rewrite fn_lookup_insert_ne; [by apply Hrefs|]. intros ->. apply Hx, Hin. constructor.
  - intros x Hx. cbn [kmem_mem]. rewrite <- Hmem by done. apply (same_outside_fill (kmem_mem k) a 0).
    assert (¬ (a <= x < a + PGSIZE)) by (apply Hx, Hin; constructor). lia.
Qed.

(** *** A table built from nothing *)

Lemma kvm_start (r : Z) (l : list Z) refs : p0 = mkpool (r :: l) refs → kabs kend k0 p0 → [] ∈ P →
  let k1 := mkkmem (mfill (mfill (kmem_mem k0) r 0 PGSIZE) r 0 PGSIZE) (load64 (kmem_mem k0) r) (<[KREF_INDEX r:=1]> (krefcount k0)) in
  kvm r [] k1 (mkpool l (<[r:=1]> refs)) (root_tree r) ∧ shows [] k1 (root_tree r).
Proof.
  intros Ep Hk HP k1. rewrite Ep in Hk. destruct (new_table kend k0 r l refs Hend Hk) as (Hv & Hz & Hout). fold k1 in Hv, Hz, Hout.
  split; [|split; [by intros ? ? ?%not_elem_of_nil|done]].
  split; rewrite ?Ep; cbn [pfree prefs]; try (by intros ? ?%not_elem_of_nil).
  - done.
  - intros [] q; [|done]. by intros _.
  - intros a [-> |?]%elem_of_cons; [right; left; by exists []|by left].
  - by exists [r].
  - intros [] q; [|done]. intros [= <-]. rewrite fn_lookup_insert. split_and!; [constructor|done|apply not_elem_of_nil].
  - constructor.
  - intros a Ha. rewrite fn_lookup_insert_ne; [done|]. intros ->. apply Ha. constructor.
  - intros x Hx. apply Hout. assert (¬ (r <= x < r + PGSIZE)) by (apply Hx; constructor). lia.
Qed.
End build.

(** ** The kernel's table *)

Lemma kvm_addr_in g : (∀ x, 0 <= x < MAXVA → in_region g x → kvm_addr x) → region_in kvm_paths g.
Proof. intros H n x Hx Hi Hn. by apply (kvm_addr_path n x), H. Qed.

Section kernel_table.
Context (kend : Z) (Hend : KERNBASE <= kend) (c : kctx) (Hc : LK_kmem ∉ held c).
Context (k0 : kmem) (p0 : pool) (Hp0 : NoDup (pfree p0)) (Hroom : (length kvm_paths + NPROC < length (pfree p0))%nat).
Implicit Types (k : kmem) (p : pool) (T : tree) (l : list region) (g : region) (stk : list Z).
Local Abbreviation kvm := (kvm kend k0 p0 kvm_paths).
Local Abbreviation kvmmap_ok := (kvmmap_ok kend Hend c Hc k0 p0 Hp0 kvm_paths NPROC Hroom).

Lemma mapstack_ok r l stk k p T :
  kvm r stk k p T → shows (l ++ stack_regions stk) k T → Forall below_tramp l → (length stk < NPROC)%nat →
  ∃ a k' p' T', mapstack r (Z.of_nat (length stk)) c k = Ret tt c k' ∧ kvm r (stk ++ [a]) k' p' T' ∧
    shows (l ++ stack_regions (stk ++ [a])) k' T'.
Proof.
  intros H Hs Hl Hlen. destruct (kvm_alloc kend Hend c Hc k0 p0 Hp0 kvm_paths NPROC Hroom r stk k p T H Hlen) as (a & k1 & p1 & E & Ha & Hok & H1 & Hv).
  set (i := Z.of_nat (length stk)). assert (Hi : 0 <= i < Z.of_nat NPROC) by lia. destruct (stack_page i Hi) as [Ei Ei']. change (Z.of_nat NPROC) with 64 in Hi.
  destruct (kvmmap_ok r (l ++ stack_regions stk) (stk ++ [a]) k1 p1 T (stack_region i a) PGSIZE) as (k' & p' & T' & E' & H' & Hs').
  - done.
  - by eapply shows_view.
  - rewrite length_app. simpl. lia.
  - destruct (page_ok_range kend Hend a Hok). split; cbn [stack_region rg_va rg_pages rg_pa rg_perm]; [split; [done|]|split; [lia|]|split|apply attr_stack];
      [unfold KSTACK; uconst; lia..|by apply (page_ok_addr kend)|uconst; lia].
  - intros g' [Hg'|Hg']%elem_of_app.
    + rewrite Forall_forall in Hl. specialize (Hl g' Hg'). unfold below_tramp in Hl. unfold apart_regions. cbn [stack_region rg_va rg_pages].
      rewrite Ei. change (KSTACK (Z.of_nat NPROC) / PGSIZE) with (0x3ffffff - 130) in Hl. change (TRAMPOLINE / PGSIZE) with 0x3ffffff in Hl. lia.
    + apply stack_regions_elem in Hg' as (j & b & -> & Hj). apply lookup_lt_Some in Hj. unfold apart_regions. cbn [stack_region rg_va rg_pages].
      destruct (stack_page (Z.of_nat j)) as [Ej _]; lia.
  - apply kvm_addr_in. intros x Hx Hin. unfold in_region in Hin. cbn [stack_region rg_va rg_pages] in Hin. rewrite Ei in Hin. right; right; right. uconst. Z.div_mod_to_equations. lia.
  - done.
  - exists a, k', p', T'. split; [|split; [done|]]; [|by rewrite stack_regions_snoc, app_assoc].
    unfold mapstack. kstep E. rewrite (proj2 (Z.eqb_neq a 0)) by done. exact E'.
Qed.

Lemma mapstacks_ok r l n : ∀ stk k p T, kvm r stk k p T → shows (l ++ stack_regions stk) k T → Forall below_tramp l → (length stk + n)%nat = NPROC →
  ∃ stk' k' p' T', kfor n (Z.of_nat (length stk)) (mapstack r) c k = Ret tt c k' ∧ kvm r stk' k' p' T' ∧ shows (l ++ stack_regions stk') k' T' ∧ length stk' = NPROC.
Proof.
  induction n as [|n IH]; intros stk k p T H Hs Hl Hn.
  - exists stk, k, p, T. split_and!; [done..|lia].
  - destruct (mapstack_ok r l stk k p T H Hs Hl ltac:(lia)) as (a & k1 & p1 & T1 & E & H1 & Hs1).
    destruct (IH (stk ++ [a]) k1 p1 T1 H1 Hs1 Hl) as (stk' & k' & p' & T' & E' & Hr); [rewrite length_app; simpl; lia|].
    exists stk', k', p', T'. split; [|exact Hr]. cbn [kfor]. kstep E. rewrite <- E'. f_equal. rewrite length_app. simpl. lia.
Qed.

(** *** The fixed regions *)

Definition map_region r g (K : M kmem Z) : M kmem Z := kvmmap r (rg_va g) (rg_pa g) (rg_pages g * PGSIZE) (rg_perm g) ;;; K.

Record region_kvm g : Prop := mkregion_kvm {
  rk_ok : region_ok g;
  rk_in : region_in kvm_paths g
}.

Lemma map_regions_ok r (K : M kmem Z) gs : ∀ l k p T, kvm r [] k p T → shows l k T →
  Forall region_kvm gs → ForallOrdPairs (λ g g', apart_regions g' g) (l ++ gs) →
  ∃ k' p' T', foldr (map_region r) K gs c k = K c k' ∧ kvm r [] k' p' T' ∧ shows (l ++ gs) k' T'.
Proof.
  induction gs as [|g gs IH]; intros l k p T H Hs Hk Hap; [exists k, p, T; by rewrite app_nil_r|].
  apply Forall_cons in Hk as [[Hok Hadr] Hk].
  assert (Hg : ∀ g', g' ∈ l → apart_regions g g').
  { clear -Hap. induction l as [|g0 l IH]; intros g'; [by intros ?%not_elem_of_nil|]. inversion_clear Hap as [|? ? Hf Ho].
    intros [-> |Hg']%elem_of_cons; [|by apply IH]. rewrite Forall_forall in Hf. apply Hf. set_solver. }
  destruct (kvmmap_ok r l [] k p T g (rg_pages g * PGSIZE) H Hs ltac:(simpl; lia) Hok Hg Hadr eq_refl) as (k1 & p1 & T1 & E & H1 & Hs1).
  rewrite cons_middle, app_assoc in Hap. destruct (IH (l ++ [g]) k1 p1 T1 H1 Hs1 Hk Hap) as (k' & p' & T' & E' & H' & Hs').
  exists k', p', T'. rewrite cons_middle, app_assoc. split; [|done]. cbn [foldr]. unfold map_region at 1. by kstep E.
Qed.
End kernel_table.

Section layout.
Context (etext trampoline : Z).
Hypothesis (Het : etext mod PGSIZE = 0) (Hetr : KERNBASE < etext < PHYSTOP).
Hypothesis (Htr : trampoline mod PGSIZE = 0) (Htrr : KERNBASE <= trampoline < etext).

Lemma fixed_regions_kvm : Forall region_kvm (fixed_regions etext trampoline).
Proof.
  assert (Hp : ∀ a, a mod PGSIZE = 0 → 0 <= a < 2 ^ 54 → page_addr a) by done.
  repeat (apply Forall_cons; split); [..|done]; (split; [split|apply kvm_addr_in]); cbn [rg_va rg_pages rg_pa rg_perm];
    try (by apply attr_mask); try (unfold page_addr, WDT0_BASE, UART0, K230_SD1, PLIC in *; uconst; Z.div_mod_to_equations; lia);
    unfold in_region, kvm_addr, WDT0_BASE, UART0, K230_SD1, PLIC in *; cbn [rg_va rg_pages]; uconst; intros x Hx Hin; Z.div_mod_to_equations; lia.
Qed.

Lemma fixed_regions_apart : ForallOrdPairs (λ g g', apart_regions g' g) (fixed_regions etext trampoline).
Proof.
  repeat (apply FOP_cons; [repeat (apply Forall_cons; split); [..|done]|]); [..|apply FOP_nil];
    unfold apart_regions, WDT0_BASE, UART0, K230_SD1, PLIC in *; cbn [rg_va rg_pages]; uconst; Z.div_mod_to_equations; lia.
Qed.

Lemma fixed_regions_below : Forall below_tramp (fixed_regions etext trampoline).
Proof.
  repeat (apply Forall_cons; split); [..|done]; unfold below_tramp; change (KSTACK (Z.of_nat NPROC) / PGSIZE) with (0x3ffffff - 130);
    unfold WDT0_BASE, UART0, K230_SD1, PLIC in *; cbn [rg_va rg_pages]; uconst; Z.div_mod_to_equations; lia.
Qed.

Lemma kvmmake_ok kend c k p :
  KERNBASE <= kend → LK_kmem ∉ held c → kabs kend k p → (length kvm_paths + NPROC < length (pfree p))%nat →
  ∃ r k' p' T' stk, kvmmake etext trampoline c k = Ret r c k' ∧ kvm kend k p kvm_paths r stk k' p' T' ∧
    shows (kernel_layout etext trampoline stk) k' T' ∧ length stk = NPROC.
Proof.
  intros Hend Hc Hk Hroom. pose proof (kabs_nodup _ _ _ Hk) as Hnd. unfold kvmmake, memset_page.
  rewrite (kbind_ret _ _ _ _ _ _ _ (kalloc_run c k Hc)). cbv zeta. rewrite (chain_head_ok kend _ _ Hk).
  destruct p as [[|r l] refs]; [simpl in Hroom; lia|]. cbn [pfree] in *.
  pose proof (kabs_pages _ _ _ Hk) as Hpg. simpl in Hpg. apply Forall_cons in Hpg as [Hr _].
  rewrite (proj2 (Z.eqb_neq r 0)) by (by apply (page_ok_nonzero kend)). 
  destruct (kvm_start kend Hend k (mkpool (r :: l) refs) kvm_paths NPROC Hroom r l refs eq_refl Hk root_path) as [H1 Hs1].
  set (k1 := mkkmem _ _ _) in H1, Hs1.
  destruct (map_regions_ok kend Hend c Hc k (mkpool (r :: l) refs) Hnd Hroom r (proc_mapstacks r ;;; kret r) (fixed_regions etext trampoline) [] k1 _ _ H1)
    as (k2 & p2 & T2 & E2 & H2 & Hs2); [done|apply fixed_regions_kvm|apply fixed_regions_apart|].
  destruct (mapstacks_ok kend Hend c Hc k (mkpool (r :: l) refs) Hnd Hroom r (fixed_regions etext trampoline) NPROC [] k2 p2 T2 H2)
    as (stk & k' & p' & T' & E & H' & Hs' & Hlen); [by rewrite app_nil_r|apply fixed_regions_below|done|].
  exists r, k', p', T', stk. split; [|done].
  assert (Et1 : etext - KERNBASE = (etext - KERNBASE) / PGSIZE * PGSIZE) by (uconst; Z.div_mod_to_equations; lia).
  assert (Et2 : PHYSTOP - etext = (PHYSTOP - etext) / PGSIZE * PGSIZE) by (uconst; Z.div_mod_to_equations; lia).
  trans (foldr (map_region r) (proc_mapstacks r ;;; kret r) (fixed_regions etext trampoline) c k1).
  - cbn [foldr fixed_regions]. unfold map_region. cbn [rg_va rg_pages rg_pa rg_perm]. rewrite <- Et1, <- Et2. reflexivity.
  - rewrite E2. unfold proc_mapstacks. by kstep E.
Qed.
End layout.

(** ** The first table of a process *)

Definition user_paths : list (list Z) := [[]; [255]; [255; 511]].

Definition user_layout (trampoline tf : Z) : list region :=
  [mkregion TRAMPOLINE 1 trampoline tramp_perm; mkregion TRAPFRAME 1 tf data_perm].

Lemma top_path n x : MAXVA - 0x200000 <= x < MAXVA → on_path n x → n ∈ user_paths.
Proof.
  intros Hx Hn. assert (E2 : PX 2 x = 255) by (rewrite PX_eq by (done || (uconst; lia)); uconst; Z.div_mod_to_equations; lia).
  assert (E1 : PX 1 x = 511) by (rewrite PX_eq by (done || (uconst; lia)); uconst; Z.div_mod_to_equations; lia).
  destruct Hn as [-> | ->]; rewrite ?E1, E2; unfold user_paths; set_solver.
Qed.

Lemma top_region_ok va pa perm : va mod PGSIZE = 0 → MAXVA - 0x200000 <= va <= TRAMPOLINE → page_addr pa → pa < 2 ^ 53 → attr perm →
  region_ok (mkregion va 1 pa perm) ∧ region_in user_paths (mkregion va 1 pa perm).
Proof.
  intros Hva Hr [Hp1 Hp2] Hp3 Ha. split; [split; cbn [rg_va rg_pages rg_pa rg_perm]|].
  - split; [done|]. uconst. lia.
  - split; [lia|]. uconst. lia.
  - split; [done|]. uconst. lia.
  - done.
  - intros n x Hx Hi Hn. unfold in_region in Hi. cbn [rg_va rg_pages] in Hi. apply (top_path n x); [|done]. uconst. Z.div_mod_to_equations. lia.
Qed.

Lemma uvmcreate_run kend c k r l refs : KERNBASE <= kend → LK_kmem ∉ held c → kabs kend k (mkpool (r :: l) refs) →
  uvmcreate c k = Ret r c (mkkmem (mfill (mfill (kmem_mem k) r 0 PGSIZE) r 0 PGSIZE) (load64 (kmem_mem k) r) (<[KREF_INDEX r:=1]> (krefcount k))) ∧ r ≠ 0.
Proof.
  intros Hend Hc Hk. pose proof (kabs_pages _ _ _ Hk) as Hpg. simpl in Hpg. apply Forall_cons in Hpg as [Hr _].
  assert (Hr0 : r ≠ 0) by (by apply (page_ok_nonzero kend)). split; [|done]. unfold uvmcreate, memset_page.
  rewrite (kbind_ret _ _ _ _ _ _ _ (kalloc_run c k Hc)). cbv zeta. rewrite (chain_head_ok kend _ _ Hk). cbn [pfree].
  by rewrite (proj2 (Z.eqb_neq r 0)) by done.
Qed.

Lemma proc_pagetable_ok kend c k p trampoline tf :
  KERNBASE <= kend → LK_kmem ∉ held c → kabs kend k p → (3 < length (pfree p))%nat → page_addr trampoline → trampoline < 2 ^ 53 → page_ok kend tf →
  ∃ r k' p' T', proc_pagetable kend trampoline tf c k = Ret r c k' ∧ r ≠ 0 ∧
    kvm kend k p user_paths r [] k' p' T' ∧ shows (user_layout trampoline tf) k' T'.
Proof.
  intros Hend Hc Hk Hroom Htr Htr2 Htf. pose proof (kabs_nodup _ _ _ Hk) as Hnd.
  destruct p as [[|r l] refs]; [simpl in Hroom; lia|]. cbn [pfree] in *.
  destruct (uvmcreate_run kend c k r l refs Hend Hc Hk) as [E1 Hr0]. unfold proc_pagetable. kstep E1. rewrite (proj2 (Z.eqb_neq r 0)) by done.
  assert (Hroom' : (length user_paths + 0 < length (pfree (mkpool (r :: l) refs)))%nat) by (simpl in *; lia).
  destruct (kvm_start kend Hend k (mkpool (r :: l) refs) user_paths 0 Hroom' r l refs eq_refl Hk) as [H1 Hs1]; [unfold user_paths; set_solver|].
  set (k1 := mkkmem _ _ _) in H1, Hs1 |- *.
  pose proof (map_region_ok kend Hend c Hc k (mkpool (r :: l) refs) Hnd user_paths 0 Hroom' r) as Hmap.
  destruct (top_region_ok TRAMPOLINE trampoline tramp_perm) as [G1 G2]; [done|by vm_compute|done|done|by apply attr_mask|].
  destruct (Hmap [] [] k1 _ _ (mkregion TRAMPOLINE 1 trampoline tramp_perm) PGSIZE H1 Hs1) as (k2 & p2 & T2 & E2 & H2 & Hs2);
    [simpl; lia|done|by intros ? ?%not_elem_of_nil|done|done|].
  cbn [rg_va rg_pa rg_perm] in E2. kstep E2. change (0 <? 0) with false. cbv iota.
  destruct (page_ok_range kend Hend tf Htf).
  destruct (top_region_ok TRAPFRAME tf data_perm) as [G3 G4]; [done|by vm_compute|by apply (page_ok_addr kend)|uconst; lia|by apply attr_mask|].
  destruct (Hmap _ [] k2 _ _ (mkregion TRAPFRAME 1 tf data_perm) PGSIZE H2 Hs2) as (k3 & p3 & T3 & E3 & H3 & Hs3);
    [simpl; lia|done| |done|done|].
  { intros g ->%list_elem_of_singleton. by left. }
  cbn [rg_va rg_pa rg_perm] in E3. kstep E3. change (0 <? 0) with false. cbv iota. by exists r, k3, p3, T3.
Qed.

(** Another table is not touched. *)
Lemma kvm_other kend k p P r stk k' p' T r0 T0 :
  KERNBASE <= kend → kvm kend k p P r stk k' p' T → vms kend k p r0 T0 → vms kend k' p' r0 T0 ∧ same_view k T0 k' T0.
Proof.
  intros Hend H Hv0. destruct (pt_ok_frame kend _ (kmem_mem k') _ _ (vm_pt _ _ _ _ _ Hv0)) as [Hpt Hview].
  { intros n a x Ha Hx. apply (kv_mem _ _ _ _ _ _ _ _ _ H). intros b Hb Hin. pose proof (vm_used _ _ _ _ _ Hv0 n a Ha) as Hn.
    assert (a ≠ b) by (intros ->; done). destruct (page_disjoint kend a b); [by eapply pt_page; [apply Hv0|]| |done|lia|lia].
    pose proof (kabs_pages _ _ _ (vm_kabs _ _ _ _ _ Hv0)) as Hp. rewrite Forall_forall in Hp. by apply Hp. }
  split; [split; [done|apply (kv_vms _ _ _ _ _ _ _ _ _ H)|]|done].
  intros n a Ha Hin. apply (vm_used _ _ _ _ _ Hv0 n a Ha). destruct (kv_free _ _ _ _ _ _ _ _ _ H) as [used ->]. set_solver.
Qed.

(** ** What the layout protects *)

(** The page a region maps [x] to. *)
Definition region_page (g : region) (x : Z) : Z := rg_pa g + (x / PGSIZE - rg_va g / PGSIZE) * PGSIZE.

Lemma region_entry_ok g x : region_ok g → in_region g x →
  PTE2PA (region_entry g x) = region_page g x ∧ ∀ b, 0 <= b < 10 → has (region_entry g x) (Z.shiftl 1 b) = Z.testbit (Z.lor (rg_perm g) PTE_V) b.
Proof.
  intros [[Hva _] [Hn _] [[Hpa Hpa0] Hpam] Hperm] Hin. unfold in_region in Hin.
  assert (Hpg : page_addr (region_page g x)).
  { unfold region_page. split; [|uconst; lia]. rewrite Z_mod_plus_full. done. }
  unfold region_entry. rewrite <- Z.lor_assoc. split.
  - apply PTE2PA_entry; [done|]. destruct Hperm as [H1 H2]. split; [by apply lor_range|].
    intros n Hnn. rewrite Z.lor_spec, H2 by done. by apply attr_V.
  - intros b Hb. rewrite has_bit by lia. by apply testbit_entry_low.
Qed.

Section protection.
Context (kend etext trampoline : Z) (stk : list Z).
Hypothesis (Het : etext mod PGSIZE = 0) (Hetr : KERNBASE < etext < PHYSTOP) (Hetk : etext <= kend).
Hypothesis (Htr : trampoline mod PGSIZE = 0) (Htrr : KERNBASE <= trampoline < etext).
Hypothesis (Hstk : ∀ a, a ∈ stk → page_ok kend a) (Hlen : length stk = NPROC).
Abbreviation layout := (kernel_layout etext trampoline stk).

(** What every region of the layout allows: not to the user, not writing and executing, and no writing
    of the kernel's code. *)
Record region_safe (g : region) : Prop := mksafe {
  rs_ok : region_ok g;
  rs_user : Z.testbit (rg_perm g) 4 = false;
  rs_wx : Z.testbit (rg_perm g) 2 && Z.testbit (rg_perm g) 3 = false;
  rs_text : Z.testbit (rg_perm g) 2 = true → etext <= rg_pa g
}.

Lemma stack_region_safe i a : (i < NPROC)%nat → stk !! i = Some a → region_safe (stack_region (Z.of_nat i) a).
Proof.
  intros Hi Ha. assert (Hok : page_ok kend a) by (apply Hstk; by eapply list_elem_of_lookup_2).
  destruct (stack_page (Z.of_nat i) ltac:(lia)) as [_ Ei]. destruct Hok as [Ha1 Ha2]. change NPROC with 64%nat in Hi.
  split; [split|..]; cbn [stack_region rg_va rg_pages rg_pa rg_perm]; [split; [done|]|split; [lia|]|split; [split; [done|]|]|apply attr_stack|done|done|lia];
    unfold KSTACK; uconst; lia.
Qed.

Lemma layout_safe g : g ∈ layout → region_safe g.
Proof.
  intros [Hg|(i & a & -> & Hi)%stack_regions_elem]%elem_of_app.
  - assert (Hf : region_ok g) by (pose proof (fixed_regions_kvm etext trampoline Het Hetr Htr Htrr) as Hk; rewrite Forall_forall in Hk; by apply rk_ok, Hk).
    unfold fixed_regions in Hg. rewrite !elem_of_cons, elem_of_nil in Hg.
    destruct Hg as [-> |[-> |[-> |[-> |[-> |[-> |[-> |[]]]]]]]]; split; try done; cbn [rg_pa rg_perm]; try (by intros ?); intros _; unfold WDT0_BASE, UART0, PLIC, K230_SD1 in *; uconst; lia.
  - apply stack_region_safe; [|done]. rewrite <- Hlen. by eapply lookup_lt_Some.
Qed.

(** The pages between the stacks belong to no region. *)
Lemma guard_unmapped g (i : nat) x : g ∈ layout → (i < NPROC)%nat → x / PGSIZE = KSTACK (Z.of_nat i) / PGSIZE - 1 → ¬ in_region g x.
Proof.
  intros Hg Hi Hx. destruct (stack_page (Z.of_nat i) ltac:(lia)) as [Ei _]. rewrite Ei in Hx. unfold in_region. change NPROC with 64%nat in Hi.
  apply elem_of_app in Hg as [Hg|(j & a & -> & Hj)%stack_regions_elem].
  - pose proof (fixed_regions_below etext trampoline Het Hetr) as Hb. rewrite Forall_forall in Hb. specialize (Hb g Hg). unfold below_tramp in Hb.
    change (KSTACK (Z.of_nat NPROC) / PGSIZE) with (0x3ffffff - 130) in Hb. change (TRAMPOLINE / PGSIZE) with 0x3ffffff in Hb. lia.
  - apply lookup_lt_Some in Hj. rewrite Hlen in Hj. destruct (stack_page (Z.of_nat j) ltac:(lia)) as [Ej _].
    cbn [stack_region rg_va rg_pages]. lia.
Qed.
End protection.

(** Entries of the kernel's table: none for the user, none writable and executable, none through which
    the kernel's code can be written, and no page below a stack. *)
Record protected (etext : Z) (k : kmem) (T : tree) : Prop := mkprotected {
  pr_user : ∀ x, 0 <= x < MAXVA → has (pte_at (kmem_mem k) T x) PTE_U = false;
  pr_wx : ∀ x, 0 <= x < MAXVA → has (pte_at (kmem_mem k) T x) PTE_W && has (pte_at (kmem_mem k) T x) PTE_X = false;
  pr_text : ∀ x, 0 <= x < MAXVA → KERNBASE <= PTE2PA (pte_at (kmem_mem k) T x) < etext → has (pte_at (kmem_mem k) T x) PTE_W = false;
  pr_guard : ∀ (i : nat) x, (i < NPROC)%nat → 0 <= x < MAXVA → x / PGSIZE = KSTACK (Z.of_nat i) / PGSIZE - 1 → pte_at (kmem_mem k) T x = 0
}.

Lemma layout_protected kend etext trampoline stk k T :
  etext mod PGSIZE = 0 → KERNBASE < etext < PHYSTOP → etext <= kend → trampoline mod PGSIZE = 0 → KERNBASE <= trampoline < etext →
  (∀ a, a ∈ stk → page_ok kend a) → length stk = NPROC → shows (kernel_layout etext trampoline stk) k T → protected etext k T.
Proof.
  intros Het Hetr Hetk Htr Htrr Hstk Hlen [Hin Hout]. set (lay := kernel_layout etext trampoline stk) in *.
  assert (Hcase : ∀ x, 0 <= x < MAXVA → pte_at (kmem_mem k) T x = 0 ∨ ∃ g, region_safe etext g ∧ in_region g x ∧ pte_at (kmem_mem k) T x = region_entry g x).
  { intros x Hx. destruct (decide (Exists (λ g, in_region g x) lay)) as [He|He].
    - right. apply Exists_exists in He as (g & Hg & Hi). exists g. split_and!; [by eapply layout_safe|done|auto].
    - left. apply Hout; [done|]. intros g Hg Hi. apply He, Exists_exists. eauto. }
  split.
  - intros x Hx. destruct (Hcase x Hx) as [-> |(g & [Hok Hu _ _] & Hi & ->)]; [done|].
    destruct (region_entry_ok g x Hok Hi) as [_ Hb]. unfold PTE_U. rewrite Hb by lia. by rewrite Z.lor_spec, Hu.
  - intros x Hx. destruct (Hcase x Hx) as [-> |(g & [Hok _ Hw _] & Hi & ->)]; [done|].
    destruct (region_entry_ok g x Hok Hi) as [_ Hb]. unfold PTE_W, PTE_X. rewrite !Hb by lia. rewrite !Z.lor_spec. change (Z.testbit PTE_V 2) with false. change (Z.testbit PTE_V 3) with false. by rewrite !orb_false_r.
  - intros x Hx. destruct (Hcase x Hx) as [-> |(g & [Hok _ _ Ht] & Hi & ->)]; [done|].
    destruct (region_entry_ok g x Hok Hi) as [-> Hb]. unfold PTE_W. rewrite Hb by lia. rewrite Z.lor_spec. change (Z.testbit PTE_V 2) with false. rewrite orb_false_r.
    destruct (Z.testbit (rg_perm g) 2); [|done]. specialize (Ht eq_refl). unfold region_page, in_region in *. uconst. lia.
  - intros i x Hi Hx Hg. apply Hout; [done|]. intros g Hgl. by eapply (guard_unmapped etext trampoline stk).
Qed.

(** C24. Bringing up memory: [kinit] followed by [kvmmake], on any machine with memory for at least 618 pages between the end of the kernel and PHYSTOP,
    returns a page table that maps exactly the regions of the layout (code, data, devices, trampoline and one stack per process slot).  The stacks are
    different pages, each with one reference, that are neither tables nor free.  No entry is open to the user, none is both writable and executable,
    the kernel's code cannot be written through any address, and the page below each stack is not mapped. *)
Theorem kvmmake_protects kend etext trampoline c k :
  etext mod PGSIZE = 0 → KERNBASE < etext <= kend → trampoline mod PGSIZE = 0 → KERNBASE <= trampoline < etext →
  kend + 618 * PGSIZE <= PHYSTOP → LK_kmem ∉ held c → freelist k = 0 → (∀ i, krefcount k i = 0) →
  ∃ r k' p T stk, (kinit kend ;;; kvmmake etext trampoline) c k = Ret r c k' ∧ vms kend k' p r T ∧
    shows (kernel_layout etext trampoline stk) k' T ∧
    length stk = NPROC ∧ NoDup stk ∧ (∀ a, a ∈ stk → page_ok kend a ∧ (a ∉ pfree p) ∧ prefs p a = 1 ∧ ∀ n, T n ≠ Some a) ∧
    protected etext k' T.
Proof.
  intros Het Hetr Htr Htrr Hroom Hc Hf Hr. pose proof (PGROUNDUP_spec kend) as [Hal Hge]; [uconst; lia..|].
  destruct (kinit_run kend ltac:(uconst; lia) c k Hc Hf Hr) as (k1 & E1 & H1). set (free := pages_from _ _) in H1.
  assert (Hlen : (616 < length free)%nat).
  { unfold free, pages_from. rewrite length_reverse, length_fmap, length_seq. apply Nat2Z.inj_lt. rewrite Z2Nat.id by (apply Z.div_pos; uconst; lia).
    apply Z.lt_le_trans with 617; [done|]. apply Z.div_le_lower_bound; uconst; lia. }
  destruct (kvmmake_ok etext trampoline Het ltac:(uconst; lia) Htr Htrr kend c k1 (mkpool free (λ _, 0)) ltac:(uconst; lia) Hc H1) as (r & k' & p & T & stk & E & H & Hs & Hn).
  { exact Hlen. }
  assert (Hstk : ∀ a, a ∈ stk → page_ok kend a).
  { intros a Ha. destruct (kv_stk _ _ _ _ _ _ _ _ _ H a Ha) as [Ha' _]. pose proof (kabs_pages _ _ _ H1) as Hp. rewrite Forall_forall in Hp. by apply Hp. }
  exists r, k', p, T, stk. split; [by kstep E1|]. split; [apply H|]. split; [done|]. split; [done|]. split; [apply H|]. split.
  - intros a Ha. destruct (kv_stk _ _ _ _ _ _ _ _ _ H a Ha) as (_ & ? & ?). split_and!; [auto..|].
    intros n Hn'. by apply (kv_tables _ _ _ _ _ _ _ _ _ H n a Hn').
  - apply (layout_protected kend etext trampoline stk); try done; [uconst; lia|lia].
Qed.

Lemma kvmmake_protects_witness :
  ∃ r k' p T stk, (kinit (KERNBASE + 0x80000) ;;; kvmmake (KERNBASE + 0x9000) (KERNBASE + 0x8000)) (mkctx [] [] 0) (mkkmem (λ _, 0) 0 (λ _, 0)) = Ret r (mkctx [] [] 0) k' ∧
    vms (KERNBASE + 0x80000) k' p r T ∧ shows (kernel_layout (KERNBASE + 0x9000) (KERNBASE + 0x8000) stk) k' T ∧
    length stk = NPROC ∧ NoDup stk ∧ (∀ a, a ∈ stk → page_ok (KERNBASE + 0x80000) a ∧ (a ∉ pfree p) ∧ prefs p a = 1 ∧ ∀ n, T n ≠ Some a) ∧
    protected (KERNBASE + 0x9000) k' T.
Proof. apply kvmmake_protects; [done..|apply not_elem_of_nil|done|done]. Defined.
