(* ===== verification/Fork.v ===== *)
(** * Copy-on-write fork (the address-space part of [kfork]: [uvmcopy] of vm.c)

    [uvmcopy] gives a child a table that refers to the pages of its parent, takes the write permission
    from both, and counts the references.  [sharing] is its loop invariant: two page tables in one
    memory, the parent's address space as before, and the child's table complete up to page [i].  At
    the end both tables are address spaces in the sense of file Vm with the same contents, and they
    are [apart]: whatever one of them writes through [copyout], the other reads what it read before.
    When memory runs out, [uvmunmap] takes the child's pages back and the parent is left as it was. *)

From stdpp Require Import base list functions sets relations numbers strings.
From Stdlib Require Import ZArith Lia.
From S2P Require Import Prelude Machine Kstring Kalloc Vm.

(** ** Bits of shared entries *)

(** The entry [uvmcopy] gives to the child for the parent's entry [v]. *)
Definition share_attrs (v : Z) : Z :=
  if has (pte_attrs v) PTE_W then attrs_to_cow (pte_attrs v) else pte_attrs v.
Definition share_entry (v : Z) : Z := Z.lor (Z.lor (PA2PTE (PTE2PA v)) (share_attrs v)) PTE_V.

(** The parent's own entry afterwards. *)
Definition keep_entry (v : Z) : Z := if has (pte_attrs v) PTE_W then pte_to_cow v else v.

Section bits.
Implicit Types (v n : Z).

Lemma testbit_to_cow v n : 0 <= v < 2 ^ 64 → 0 <= n →
  Z.testbit (pte_to_cow v) n = (n =? 8) || Z.testbit v n && negb (n =? 2).
Proof.
  intros Hv Hn. unfold pte_to_cow, PTE_W, PTE_COW. rewrite !Z.shiftl_1_l.
  rewrite Z.lor_spec, Z.land_spec, testbit_u64, Z.lnot_spec, Z.lor_spec by done.
  rewrite !Z.pow2_bits_eqb by lia. rewrite (Z.eqb_sym 2), (Z.eqb_sym 8).
  destruct (Z.eqb_spec n 8) as [->|]; [by rewrite orb_true_r|]. rewrite !orb_false_r.
  destruct (Z.ltb_spec n 64); [done|]. by rewrite (bits_above64 v) by lia.
Qed.

Lemma testbit_attrs_to_cow v n : 0 <= v < 2 ^ 64 → 0 <= n →
  Z.testbit (attrs_to_cow (pte_attrs v)) n =
    ((n =? 8) || Z.testbit v n && negb ((10 <=? n) && (n <? 54))) && negb (n =? 2).
Proof.
  intros Hv Hn. unfold attrs_to_cow, PTE_W, PTE_COW. rewrite !Z.shiftl_1_l.
  rewrite Z.land_spec, Z.lor_spec, testbit_attrs, testbit_u64, Z.lnot_spec by done.
  rewrite !Z.pow2_bits_eqb by lia. rewrite (Z.eqb_sym 2), (Z.eqb_sym 8), (orb_comm _ (n =? 8)).
  destruct (Z.ltb_spec n 64); [done|]. rewrite (bits_above64 v) by lia. destruct (Z.eqb_spec n 8); [lia|done].
Qed.

Lemma attrs_W v : 0 <= v < 2 ^ 64 → has (pte_attrs v) PTE_W = has v PTE_W.
Proof. intros Hv. unfold PTE_W. rewrite !has_bit, testbit_attrs by (done || lia). by rewrite andb_true_r. Qed.

(** The parent's entry: same page, no longer writable, otherwise as accessible as before. *)
Lemma keep_entry_ok v : 0 <= v < 2 ^ 64 →
  0 <= keep_entry v < 2 ^ 64 ∧ PTE2PA (keep_entry v) = PTE2PA v ∧ has (keep_entry v) PTE_V = has v PTE_V ∧
  has (keep_entry v) PTE_W = false ∧ has (keep_entry v) PTE_U = has v PTE_U.
Proof.
  intros Hv. unfold keep_entry. rewrite attrs_W by done. destruct (has v PTE_W) eqn:EW; [|done].
  assert (H0 : 0 <= pte_to_cow v).
  { unfold pte_to_cow. apply Z.lor_nonneg. split; [|done]. apply Z.land_nonneg. left. lia. }
  split; [split; [done|]|split].
  - apply u64_bits_range; [|done]. intros n Hn. rewrite testbit_to_cow by (done || lia).
    rewrite (bits_above64 v) by lia. destruct (Z.eqb_spec n 8); [lia|done].
  - apply Z.bits_inj'. intros n Hn. rewrite !testbit_PTE2PA by done.
    destruct (Z.leb_spec 12 n), (Z.ltb_spec n 56); simpl; try done. rewrite testbit_to_cow by (done || lia).
    destruct (Z.eqb_spec (n - 2) 8), (Z.eqb_spec (n - 2) 2); try lia. by rewrite andb_true_r.
  - unfold PTE_V, PTE_W, PTE_U in *. rewrite !has_bit, !testbit_to_cow by (done || lia). cbn. rewrite !andb_true_r. by rewrite andb_false_r.
Qed.

Lemma share_attrs_ok v : 0 <= v < 2 ^ 64 →
  attr (share_attrs v) ∧ Z.testbit (share_attrs v) 2 = false ∧ Z.testbit (share_attrs v) 4 = Z.testbit v 4.
Proof.
  intros Hv. unfold share_attrs. rewrite attrs_W by done. destruct (has v PTE_W) eqn:EW.
  - split_and!; [|by rewrite testbit_attrs_to_cow by (done || lia); rewrite andb_false_r|
      rewrite testbit_attrs_to_cow by (done || lia); by rewrite !andb_true_r].
    apply attr_intro; [unfold attrs_to_cow; apply Z.land_nonneg; right; apply u64_range|].
    intros n Hn0 Hn. rewrite testbit_attrs_to_cow by done. destruct (Z.eqb_spec n 8); [lia|]. cbn.
    destruct Hn as [Hn|Hn]; [destruct (Z.leb_spec 10 n), (Z.ltb_spec n 54); try lia; by rewrite andb_false_r|by rewrite (bits_above64 v) by lia].
  - split_and!; [|rewrite testbit_attrs by (done || lia)|rewrite testbit_attrs by (done || lia); by rewrite andb_true_r].
    + apply attr_intro; [unfold pte_attrs; apply Z.land_nonneg; left; lia|]. intros n Hn0 Hn. rewrite testbit_attrs by done.
      destruct Hn as [Hn|Hn]; [destruct (Z.leb_spec 10 n), (Z.ltb_spec n 54); try lia; by rewrite andb_false_r|by rewrite (bits_above64 v) by lia].
    + unfold PTE_W in EW. rewrite has_bit in EW by lia. by rewrite EW.
Qed.

Lemma share_entry_ok kend v : KERNBASE <= kend → page_ok kend (PTE2PA v) → 0 <= v < 2 ^ 64 →
  PTE2PA (share_entry v) = PTE2PA v ∧ 0 <= share_entry v < 2 ^ 64 ∧ has (share_entry v) PTE_V = true ∧
  has (share_entry v) PTE_W = false ∧ has (share_entry v) PTE_U = has v PTE_U.
Proof.
  intros Hend Hp%page_ok_addr Hv; [|done]. destruct (share_attrs_ok v Hv) as (Ha & H2 & H4).
  assert (Ha' : attr (Z.lor (share_attrs v) PTE_V)).
  { split; [apply lor_range; [apply Ha|done]|]. intros n Hn. rewrite Z.lor_spec, (proj2 Ha) by done. by apply attr_V. }
  unfold share_entry. rewrite <- Z.lor_assoc. split; [by apply PTE2PA_entry|]. split; [by apply entry_range|].
  unfold PTE_V at 2, PTE_W, PTE_U. rewrite !has_bit by lia. rewrite !testbit_entry_low by (done || lia).
  rewrite !Z.lor_spec, H2, H4. unfold PTE_V. rewrite Z.shiftl_1_l, !Z.pow2_bits_eqb by lia. cbn.
  split_and!; [by rewrite orb_true_r|done|by rewrite orb_false_r].
Qed.
End bits.

(** ** Two tables in one memory *)

Section fork.
Context (kend : Z) (Hend : KERNBASE <= kend) (ro rn sz : Z) (To : tree).
Implicit Types (k : kmem) (p : pool) (Tn : tree) (c : kctx) (x y a i va v : Z).

Local Abbreviation old k x := (pte_at (kmem_mem k) To x).
Local Abbreviation new k Tn x := (pte_at (kmem_mem k) Tn x).

Record two k p Tn : Prop := {
  tw_old : vms kend k p ro To;
  tw_new : vms kend k p rn Tn;
  tw_us : uspace kend k p To sz;
  tw_tables : ∀ n n' a, To n = Some a → Tn n' ≠ Some a;
  tw_pages : ∀ x, below sz x → valid k To x → ∀ n, Tn n ≠ Some (upage k To x);
  tw_top : ∀ x, 0 <= x < MAXVA → ¬ below sz x → valid k Tn x → has (new k Tn x) PTE_U = false
}.

(** The child refers to the page of [x] exactly when its parent does, and neither may write to it. *)
Record shared_at k p Tn x : Prop := {
  sh_valid : valid k Tn x ↔ valid k To x;
  sh_page : valid k To x → upage k Tn x = upage k To x ∧ 0 <= new k Tn x < 2 ^ 64 ∧ 2 <= prefs p (upage k To x);
  sh_perm : valid k To x →
    has (new k Tn x) PTE_W = false ∧ has (old k x) PTE_W = false ∧ has (new k Tn x) PTE_U = has (old k x) PTE_U
}.

(** The child refers to the pages before [i] of its parent, and to no later ones. *)
Definition upto k p Tn i : Prop :=
  (∀ x, below sz x → below i x → shared_at k p Tn x) ∧ (∀ x, below sz x → ¬ below i x → ¬ valid k Tn x).

(** The counters of the pages from [i] on can be incremented. *)
Definition room k p i : Prop :=
  ∀ x, below sz x → ¬ below i x → valid k To x → prefs p (upage k To x) < 2 ^ 31 - 1.

(** What the parent reads does not change. *)
Definition keeps k k' : Prop := ∀ x, below sz x → uread k' To x = uread k To x.

Lemma keeps_trans k1 k2 k3 : keeps k1 k2 → keeps k2 k3 → keeps k1 k3.
Proof. intros H1 H2 x Hx. by rewrite H2, H1. Qed.

Lemma two_range k p Tn x : two k p Tn → below sz x → 0 <= x < MAXVA.
Proof. intros H. apply below_maxva. apply (us_sz _ _ _ _ _ (tw_us _ _ _ H)). Qed.

(** Addresses in the parent's tables and pages are not touched by work on the child's table. *)
Lemma table_untouched k p Tn n a x : two k p Tn → To n = Some a → a <= x < a + PGSIZE → untouched Tn p x.
Proof.
  intros [Ho Hn _ Ht _ _] Ha Hx. pose proof (pt_page _ _ _ _ (vm_pt _ _ _ _ _ Ho) _ _ Ha) as Hpa.
  pose proof (kabs_pages _ _ _ (vm_kabs _ _ _ _ _ Ho)) as Hpg. rewrite Forall_forall in Hpg. split.
  - intros n' q Hq Hin. assert (q ≠ a) by (intros ->; by eapply Ht).
    destruct (page_disjoint kend q a); [by eapply pt_page; [apply Hn|]|done|done|lia|lia].
  - intros q Hq Hin. assert (q ≠ a) by (intros ->; by eapply (vm_used _ _ _ _ _ Ho)).
    destruct (page_disjoint kend q a); [by apply Hpg|done|done|lia|lia].
Qed.

Lemma page_untouched k p Tn x y : two k p Tn → below sz x → valid k To x → upage k To x <= y < upage k To x + PGSIZE → untouched Tn p y.
Proof.
  intros H Hx Hv Hy. destruct (us_page _ _ _ _ _ (tw_us _ _ _ H) x Hx Hv) as [H1 H2 _ H4].
  eapply (user_page_untouched kend k p rn Tn (upage k To x)); [apply H| |done]. split; [done|done|by apply H|done].
Qed.

(** *** Adding to the child's table *)

Lemma two_grow k p Tn k' p' Tn' va pa perm cnt :
  two k p Tn → mapped kend k p Tn k' p' Tn' rn va pa perm cnt → below sz va → 0 <= cnt <= 1 →
  two k' p' Tn' ∧ (∀ x, old k' x = old k x) ∧ keeps k k' ∧ (∀ x, below sz x → valid k To x → prefs p' (upage k To x) = prefs p (upage k To x)).
Proof.
  intros H [Hv' Hg Hview] Hva Hcnt. pose proof H as [Ho Hn Hu Ht Hp Htop].
  destruct (pt_ok_frame kend _ (kmem_mem k') _ _ (vm_pt _ _ _ _ _ Ho)) as [Hpt Hold].
  { intros n a x Ha Hx. apply (g_mem _ _ _ _ _ _ Hg). by eapply table_untouched. }
  assert (Hup : ∀ x, upage k' To x = upage k To x) by (intros x; unfold upage; by rewrite Hold).
  assert (Hval : ∀ x, valid k' To x ↔ valid k To x) by (intros x; unfold valid; by rewrite Hold).
  assert (Href : ∀ x, below sz x → valid k To x → prefs p' (upage k To x) = prefs p (upage k To x)).
  { intros x Hx Hvx. apply (g_refs _ _ _ _ _ _ Hg), (us_page _ _ _ _ _ Hu x Hx Hvx). }
  assert (Hfree : ∀ a, a ∉ pfree p → a ∉ pfree p') by (intros a Ha ?%(grows_free kend Hend _ _ _ _ _ _ _ Hg); done).
  split; [|split; [done|split; [|done]]].
  - split; [split; [done|apply Hv'|]|done| | | |].
    + intros n a Ha. apply Hfree. by eapply (vm_used _ _ _ _ _ Ho).
    + destruct Hu as [U1 U2 U3 U4 U5 U6]. split; [done| | | | |].
      * intros x Hx Hvx%Hval. rewrite Hold. by apply U2.
      * intros x Hx Hvx%Hval. rewrite Hup. destruct (U3 x Hx Hvx) as [P1 P2 P3 P4]. split; [done|by apply Hfree|done|by rewrite Href].
      * intros x y Hx Hy Hvx%Hval Hvy%Hval. rewrite !Hup. by apply U4.
      * intros x Hx Hvx%Hval. rewrite Hold, Hup, Href by done. by apply U5.
      * intros x Hx Hnb Hvx%Hval. rewrite Hold. by apply U6.
    + intros n n' a Ha [Hq|[Hq _]]%(g_pages _ _ _ _ _ _ Hg); [by eapply Ht|by eapply (vm_used _ _ _ _ _ Ho)].
    + intros x Hx Hvx%Hval n. rewrite Hup. intros [Hq|[Hq _]]%(g_pages _ _ _ _ _ _ Hg); [by eapply Hp|].
      by apply (up_used _ _ _ _ (us_page _ _ _ _ _ Hu x Hx Hvx)).
    + intros x Hx Hnb. unfold valid. rewrite Hview by done. unfold map_view. rewrite decide_False; [by apply Htop|].
      intros Hd. apply Hnb. apply (below_page sz va); [lia|lia|done].
  - intros x Hx. unfold uread. rewrite Hold, Hup. destruct (has (old k x) PTE_V) eqn:Ev; [|done].
    apply (g_mem _ _ _ _ _ _ Hg). eapply page_untouched; [done..|]. pose proof (Z.mod_pos_bound x PGSIZE eq_refl). lia.
Qed.

(** *** Taking the write permission from the parent *)

Lemma two_update k p Tn k2 va (v := old k va) (p2 := pool_ref (PTE2PA v) p) :
  two k p Tn → below sz va → valid k To va →
  vms kend k2 p2 ro To → vms kend k2 p2 rn Tn →
  (∀ x, 0 <= x < MAXVA → old k2 x = view_set (pte_at (kmem_mem k) To) va (keep_entry v) x) → (∀ x, new k2 Tn x = new k Tn x) →
  (∀ x, (∀ n a, To n = Some a → ¬ (a <= x < a + PGSIZE)) → kmem_mem k2 x = kmem_mem k x) →
  two k2 p2 Tn ∧ keeps k k2 ∧ ∀ x, below sz x → upage k2 To x = upage k To x ∧ (valid k2 To x ↔ valid k To x).
Proof.
  intros H Hva Hvv Ho2 Hn2 Hview Hnew Hmem. pose proof H as [Ho Hn Hu Ht Hp Htop]. pose proof Hu as [U1 U2 U3 U4 U5 U6].
  destruct (keep_entry_ok v (U2 va Hva Hvv)) as (Kr & Kp & Kv & Kw & Ku).
  assert (Hsame : ∀ x, below sz x → x / PGSIZE = va / PGSIZE → old k x = v ∧ old k2 x = keep_entry v).
  { intros x Hx Hp'. split; [apply pte_at_page; [apply Hx|apply Hva|done]|]. rewrite Hview by (by eapply two_range). unfold view_set. by rewrite decide_True. }
  assert (Hother : ∀ x, 0 <= x < MAXVA → x / PGSIZE ≠ va / PGSIZE → old k2 x = old k x).
  { intros x Hx Hp'. rewrite Hview by done. unfold view_set. by rewrite decide_False. }
  assert (Hx2 : ∀ x, below sz x → upage k2 To x = upage k To x ∧ (valid k2 To x ↔ valid k To x)).
  { intros x Hx. unfold upage, valid. destruct (decide (x / PGSIZE = va / PGSIZE)) as [Hp'|Hp'].
    - destruct (Hsame x Hx Hp') as [-> ->]. by rewrite Kp, Kv.
    - by rewrite Hother by (done || by eapply two_range). }
  assert (Hup : ∀ x, below sz x → upage k2 To x = upage k To x) by (intros; by apply Hx2).
  assert (Hval : ∀ x, below sz x → valid k2 To x → valid k To x) by (intros x Hx; by apply Hx2).
  assert (Href : ∀ x, prefs p x <= prefs p2 x).
  { intros x. unfold p2, pool_ref. simpl. destruct (decide (x = PTE2PA v)) as [->|]; [rewrite fn_lookup_insert; lia|by rewrite fn_lookup_insert_ne]. }
  split; [|split; [|done]].
  - split; [done|done| |done| |].
    + split; [done| | | | |].
      * intros x Hx Hvx. destruct (decide (x / PGSIZE = va / PGSIZE)) as [Hp'|Hp'].
        -- by destruct (Hsame x Hx Hp') as [_ ->].
        -- rewrite Hother by (done || by eapply two_range). apply U2; [done|by apply Hval].
      * intros x Hx Hvx. rewrite Hup by done. destruct (U3 x Hx (Hval x Hx Hvx)) as [P1 P2 P3 P4]. split; [done|done|done|]. specialize (Href (upage k To x)). lia.
      * intros x y Hx Hy Hvx Hvy. rewrite !Hup by done. apply U4; auto.
      * intros x Hx Hvx HW HC. destruct (decide (x / PGSIZE = va / PGSIZE)) as [Hp'|Hp'].
        -- destruct (Hsame x Hx Hp') as [_ E]. rewrite E in HW. congruence.
        -- rewrite Hother in HW, HC by (done || by eapply two_range). rewrite Hup by done. unfold p2, pool_ref. cbn [prefs].
           rewrite fn_lookup_insert_ne; [apply U5; auto|]. intros E. apply Hp'. apply U4; auto.
      * intros x Hx Hnb. unfold valid. rewrite Hother; [by apply U6|done|]. intros Hp'. apply Hnb. apply (below_page sz va); [lia|done|done].
    + intros x Hx Hvx. rewrite Hup by done. apply Hp; auto.
    + intros x Hx Hnb. unfold valid. rewrite Hnew. by apply Htop.
  - intros x Hx. unfold uread. destruct (Hx2 x Hx) as [-> Hv2]. unfold valid in Hv2.
    destruct (has (old k2 x) PTE_V) eqn:E2, (has (old k x) PTE_V) eqn:E1; try done; [|by discriminate (proj1 Hv2 eq_refl)|by discriminate (proj2 Hv2 eq_refl)].
    apply Hmem. intros n a Ha Hin. pose proof (U3 x Hx E1) as [P1 _ P3 _].
    pose proof (Z.mod_pos_bound x PGSIZE eq_refl). assert (a ≠ upage k To x) by (intros ->; by eapply P3).
    destruct (page_disjoint kend a (upage k To x)); [by eapply pt_page; [apply Ho|]|done|done|lia|lia].
Qed.

Lemma vms_ref k p r T a :
  vms kend k p r T → page_ok kend a → a ∉ pfree p → prefs p a < 2 ^ 31 - 1 →
  vms kend (set_ref (KREF_INDEX a) (s32 (krefcount k (KREF_INDEX a) + 1)) k) (pool_ref a p) r T.
Proof. intros [H1 H2 H3] Ha Hf Hr. split; [done|by apply kabs_ref|done]. Qed.

(** A store into one table leaves the other. *)
Lemma vms_other k k' p r T r' T' :
  vms kend k p r T → vms kend k p r' T' → (∀ n n' a, T n = Some a → T' n' ≠ Some a) →
  vms kend k' p r T → (∀ x, (∀ n a, T n = Some a → ¬ (a <= x < a + PGSIZE)) → kmem_mem k' x = kmem_mem k x) →
  vms kend k' p r' T' ∧ ∀ x, pte_at (kmem_mem k') T' x = pte_at (kmem_mem k) T' x.
Proof.
  intros Ho Hn Ht Ho' Hmem. destruct (pt_ok_frame kend _ (kmem_mem k') _ _ (vm_pt _ _ _ _ _ Hn)) as [Hpt Hv].
  { intros n a x Ha Hx. apply Hmem. intros n' q Hq Hin. assert (q ≠ a) by (intros ->; by eapply Ht).
    destruct (page_disjoint kend q a); [by eapply pt_page; [apply Ho|]|by eapply pt_page; [apply Hn|]|done|lia|lia]. }
  split; [split; [done|apply Ho'|by eapply vm_used]|done].
Qed.

(** *** One page *)

Lemma below_next i x : i mod PGSIZE = 0 → 0 <= x → (below (i + PGSIZE) x ↔ below i x ∨ x / PGSIZE = i / PGSIZE).
Proof. intros Hi Hx. unfold below. uconst. Z.div_mod_to_equations. lia. Qed.

Lemma below_not_at i x : i mod PGSIZE = 0 → x / PGSIZE = i / PGSIZE → ¬ below i x.
Proof. intros Hi Hx [_ Hb]. uconst. Z.div_mod_to_equations. lia. Qed.

(** Only the entries of page [i] changed. *)
Definition at_page k Tn k' Tn' i : Prop :=
  ∀ x, below sz x → x / PGSIZE ≠ i / PGSIZE → old k' x = old k x ∧ new k' Tn' x = new k Tn x.

Lemma upto_page k p Tn k' p' Tn' i j :
  upto k p Tn i → at_page k Tn k' Tn' i →
  (∀ x, below sz x → valid k To x → prefs p (upage k To x) <= prefs p' (upage k To x)) →
  (∀ x, 0 <= x → x / PGSIZE ≠ i / PGSIZE → (below j x ↔ below i x)) →
  (∀ x, below sz x → x / PGSIZE = i / PGSIZE → if decide (below j x) then shared_at k' p' Tn' x else ¬ valid k' Tn' x) →
  upto k' p' Tn' j.
Proof.
  intros [H1 H2] Hat Href Hj Hi. split; intros x Hx Hb; (destruct (decide (x / PGSIZE = i / PGSIZE)) as [E|E];
    [specialize (Hi x Hx E); by case_decide|]); apply Hj in Hb || rewrite Hj in Hb; try done; try apply Hx; destruct (Hat x Hx E) as [Eo En].
  - destruct (H1 x Hx Hb) as [S1 S2 S3]. unfold valid, upage in *. split; unfold valid, upage; rewrite ?Eo, ?En; [done| |done].
    intros Hv. destruct (S2 Hv) as (? & ? & ?). specialize (Href x Hx Hv). split_and!; try done; lia.
  - unfold valid. rewrite En. by apply H2.
Qed.

(** The parent's side of a page: one more reference, and no write permission. *)
Lemma share_parent k p Tn i b c (v := old k i) :
  two k p Tn → below sz i → valid k To i → prefs p (PTE2PA v) < 2 ^ 31 - 1 → LK_kmem ∉ held c →
  To [PX 2 i; PX 1 i] = Some b →
  ∃ k2, (∀ A (K : Z → M kmem A),
      (krefpage (PTE2PA v) ;;;
       do fl' <- (if has (pte_attrs v) PTE_W then wr (b + 8 * PX 0 i) (pte_to_cow v) ;;; kret (attrs_to_cow (pte_attrs v)) else kret (pte_attrs v));
       K fl') c k = K (share_attrs v) c k2) ∧
    vms kend k2 (pool_ref (PTE2PA v) p) ro To ∧ vms kend k2 (pool_ref (PTE2PA v) p) rn Tn ∧
    (∀ x, 0 <= x < MAXVA → old k2 x = view_set (pte_at (kmem_mem k) To) i (keep_entry v) x) ∧ (∀ x, new k2 Tn x = new k Tn x) ∧
    (∀ x, (∀ n a, To n = Some a → ¬ (a <= x < a + PGSIZE)) → kmem_mem k2 x = kmem_mem k x).
Proof.
  intros H Hi Hv Hr Hc Hb. pose proof (two_range _ _ _ _ H Hi) as Him. destruct (us_page _ _ _ _ _ (tw_us _ _ _ H) i Hi Hv) as [P1 P2 P3 P4].
  change (upage k To i) with (PTE2PA v) in *. pose proof (krefpage_run kend Hend c k (PTE2PA v) Hc P1) as E1.
  set (k1 := set_ref _ _ k) in E1. pose proof (vms_ref _ _ _ _ _ (tw_old _ _ _ H) P1 P2 Hr) as Ho1. pose proof (vms_ref _ _ _ _ _ (tw_new _ _ _ H) P1 P2 Hr) as Hn1.
  fold k1 in Ho1, Hn1. destruct (keep_entry_ok v (us_range _ _ _ _ _ (tw_us _ _ _ H) i Hi Hv)) as (Kr & _).
  unfold share_attrs, keep_entry in *. destruct (has (pte_attrs v) PTE_W).
  - destruct (leaf_store kend k1 _ ro To i b (pte_to_cow v) Ho1 Hb Kr Him) as [Ho2 Hview]. set (k2 := set_mem _ k1) in *.
    assert (Hmem : ∀ x, (∀ n a, To n = Some a → ¬ (a <= x < a + PGSIZE)) → kmem_mem k2 x = kmem_mem k x).
    { intros x Hx. apply mwrite_out. rewrite length_le_split. specialize (Hx _ _ Hb). pose proof (PX_range 0 i). uconst. lia. }
    destruct (vms_other k1 k2 _ ro To rn Tn Ho1 Hn1 (tw_tables _ _ _ H) Ho2 Hmem) as [Hn2 Hnew].
    exists k2. split_and!; try done. intros A K. kstep E1. done.
  - exists k1. split_and!; try done; [intros A K; by kstep E1|]. intros x Hx. unfold view_set. case_decide as E; [|done].
    apply pte_at_page; [lia|lia|done].
Qed.

(** A page that is not mapped. *)
Lemma copy_skip k p Tn i :
  two k p Tn → upto k p Tn i → room k p i → i mod PGSIZE = 0 → 0 <= i → ¬ valid k To i → upto k p Tn (i + PGSIZE) ∧ room k p (i + PGSIZE).
Proof.
  intros H Hup Hroom Hal Hi Hnv. split.
  - apply (upto_page k p Tn k p Tn i); [done|done|done| |].
    + intros x Hx Hne. rewrite below_next by done. tauto.
    + intros x Hx Hp'. rewrite decide_True by (rewrite below_next by (done || apply Hx); by right).
      assert (Hnx : ¬ valid k To x) by (unfold valid; rewrite (pte_at_page _ _ x i) by (done || apply Hx || lia); done).
      assert (Hnn : ¬ valid k Tn x) by (by apply Hup, below_not_at). by split.
  - intros x Hx Hnb. apply Hroom; [done|]. intros Hb. apply Hnb. apply below_next; [done|apply Hx|by left].
Qed.

(** The child's side of a page. *)
Lemma copy_map k p Tn i k2 c (v := old k i) (p2 := pool_ref (PTE2PA v) p) :
  two k p Tn → upto k p Tn i → room k p i → i mod PGSIZE = 0 → below sz i → valid k To i → LK_kmem ∉ held c →
  two k2 p2 Tn → (∀ x, 0 <= x < MAXVA → old k2 x = view_set (pte_at (kmem_mem k) To) i (keep_entry v) x) → (∀ x, new k2 Tn x = new k Tn x) →
  (∀ x, below sz x → upage k2 To x = upage k To x ∧ (valid k2 To x ↔ valid k To x)) →
  ∃ res k' p' Tn', mappages rn i PGSIZE (PTE2PA v) (share_attrs v) c k2 = Ret res c k' ∧ two k' p' Tn' ∧ keeps k2 k' ∧
    if res =? 0 then upto k' p' Tn' (i + PGSIZE) ∧ room k' p' (i + PGSIZE) else upto k' p' Tn' i ∧ pfree p' = [].
Proof.
  intros H Hup Hroom Hal Hbi Ev Hc H2 Hview Hnew Hx2. pose proof (two_range _ _ _ _ H Hbi) as Him.
  pose proof (us_range _ _ _ _ _ (tw_us _ _ _ H) i Hbi Ev) as Hvr. fold v in Hvr.
  destruct (us_page _ _ _ _ _ (tw_us _ _ _ H) i Hbi Ev) as [P1 P2 P3 P4]. change (upage k To i) with (PTE2PA v) in *.
  destruct (mappages_ok kend Hend k2 p2 Tn rn i 1 (PTE2PA v) (share_attrs v) c) as (res & k3 & p3 & Tn3 & cnt & E3 & Hm & _ & Hres);
    [apply H2|done|done|lia|lia|uconst; Z.div_mod_to_equations; lia| |by eapply page_ok_addr|destruct P1; uconst; lia|by apply share_attrs_ok|].
  { intros x Hx Hx'. replace (i + (1 - 1) * PGSIZE) with i in Hx' by lia. rewrite Hnew, <- has_V. assert (Hbx : below sz x) by (apply (below_page sz i); [lia|lia|done]).
    apply not_true_is_false. apply Hup; [done|]. apply below_not_at; [done|lia]. }
  rewrite Z.mul_1_l in E3.
  destruct (two_grow k2 p2 Tn k3 p3 Tn3 i (PTE2PA v) (share_attrs v) cnt H2 Hm Hbi) as (H3 & Hold3 & Hk3 & Href3);
    [destruct Hres as [[_ ->]|(_ & ? & _)]; lia|].
  destruct Hm as [_ Hg Hview3].
  assert (Hat : at_page k Tn k3 Tn3 i).
  { intros x Hx Hne. pose proof (two_range _ _ _ _ H Hx). rewrite Hold3, Hview, Hview3 by done. unfold view_set, map_view.
    rewrite decide_False by done. split; [done|]. rewrite decide_False; [by apply Hnew|]. destruct Hres as [[_ ->]|(_ & ? & _)]; lia. }
  assert (Hmono : ∀ x, below sz x → valid k To x → prefs p3 (upage k To x) = prefs p2 (upage k To x)).
  { intros x Hx Hv. destruct (Hx2 x Hx) as [<- Hv2]. apply Href3; [done|by apply Hv2]. }
  assert (Hp2 : ∀ x, below sz x → valid k To x → x / PGSIZE ≠ i / PGSIZE → prefs p2 (upage k To x) = prefs p (upage k To x)).
  { intros x Hx Hv Hne. unfold p2, pool_ref. cbn [prefs]. rewrite fn_lookup_insert_ne; [done|]. intros E. apply Hne. by apply (us_inj _ _ _ _ _ (tw_us _ _ _ H)). }
  assert (Hge : ∀ x, below sz x → valid k To x → prefs p (upage k To x) <= prefs p3 (upage k To x)).
  { intros x Hx Hv. rewrite Hmono by done. destruct (decide (x / PGSIZE = i / PGSIZE)) as [E|E]; [|by rewrite Hp2].
    unfold upage. rewrite (pte_at_page _ _ x i) by (done || apply Hx || lia). fold v. unfold p2, pool_ref. cbn [prefs]. rewrite fn_lookup_insert. lia. }
  exists res, k3, p3, Tn3. split; [done|]. split; [done|]. split; [done|].
  destruct Hres as [[-> ->]|(-> & Hcnt & Hemp)]; cbn [Z.eqb].
  - split.
    + apply (upto_page k p Tn k3 p3 Tn3 i); [done..| |].
      * intros x Hx Hne. rewrite below_next by done. tauto.
      * intros x Hx Hp'. rewrite decide_True by (rewrite below_next by (done || apply Hx); by right). pose proof (two_range _ _ _ _ H Hx) as Hxm.
        assert (Eo : old k3 x = keep_entry v) by (rewrite Hold3, Hview by done; unfold view_set; by rewrite decide_True).
        assert (En : new k3 Tn3 x = share_entry v).
        { rewrite Hview3 by done. unfold map_view. rewrite decide_True by lia. unfold share_entry. do 3 f_equal. rewrite Hp', Z.sub_diag. lia. }
        destruct (keep_entry_ok v Hvr) as (_ & Kp & Kv & Kw & Ku). destruct (share_entry_ok kend v Hend P1 Hvr) as (Sp & Sr & Sv & Sw & Su).
        unfold valid, upage. split; unfold valid, upage; rewrite Eo, En; [by rewrite Sv, Kv|intros _; split; [by rewrite Sp, Kp|]; split; [done|]|by rewrite Ku, Su].
        rewrite Kp. pose proof (Hmono i Hbi Ev) as Em. change (upage k To i) with (PTE2PA v) in Em. rewrite Em. unfold p2, pool_ref. cbn [prefs]. rewrite fn_lookup_insert. lia.
    + intros x Hx Hnb Hv. assert (Hne : x / PGSIZE ≠ i / PGSIZE) by (intros E; apply Hnb, below_next; [done|apply Hx|by right]).
      destruct (Hat x Hx Hne) as [Eo _].
      assert (Eu : upage k3 To x = upage k To x) by (unfold upage; by rewrite Eo). assert (Hv' : valid k To x) by (unfold valid; by rewrite <- Eo).
      rewrite Eu, Hmono, Hp2 by done.
      apply Hroom; [done| |done]. intros Hb. apply Hnb, below_next; [done|apply Hx|by left].
  - split; [|done]. apply (upto_page k p Tn k3 p3 Tn3 i); [done..|]. intros x Hx Hp'. rewrite decide_False by (by apply below_not_at).
    unfold valid. rewrite Hview3 by (by eapply two_range). unfold map_view. rewrite decide_False by lia. rewrite Hnew. apply Hup; [done|by apply below_not_at].
Qed.

Lemma copy_page k p Tn i c :
  two k p Tn → upto k p Tn i → room k p i → i mod PGSIZE = 0 → 0 <= i < sz → LK_kmem ∉ held c →
  ∃ ok k' p' Tn', uvmcopy_page ro rn i c k = Ret ok c k' ∧ two k' p' Tn' ∧ keeps k k' ∧
    if ok : bool then upto k' p' Tn' (i + PGSIZE) ∧ room k' p' (i + PGSIZE) else upto k' p' Tn' i ∧ pfree p' = [].
Proof.
  intros H Hup Hroom Hal Hi Hc. assert (Hbi : below sz i) by (split; [lia|uconst; Z.div_mod_to_equations; lia]).
  pose proof (two_range _ _ _ _ H Hbi) as Him. unfold uvmcopy_page.
  destruct (walk_slot kend Hend k p ro To i c (tw_old _ _ _ H) Him) as [Ew Hslot]. kstep Ew.
  pose proof (copy_skip k p Tn i H Hup Hroom Hal ltac:(lia)) as Hskip.
  destruct Hslot as [[Eb Ept]|(b & Eb & Hnz & Eload)]; rewrite Eb.
  { exists true, k, p, Tn. split; [done|]. split; [done|]. split; [done|]. apply Hskip. unfold valid. by rewrite Ept. }
  rewrite (proj2 (Z.eqb_neq _ 0)) by done. kstep (eq_refl : rd (b + 8 * PX 0 i) c k = Ret _ c k). rewrite Eload.
  destruct (has (old k i) PTE_V) eqn:Ev; cbn [negb]; [|exists true, k, p, Tn; split; [done|]; split; [done|]; split; [done|]; apply Hskip; unfold valid; by rewrite Ev].
  set (v := old k i) in *.
  assert (Hrm : prefs p (PTE2PA v) < 2 ^ 31 - 1) by (apply (Hroom i Hbi); [by apply below_not_at|done]).
  destruct (share_parent k p Tn i b c H Hbi Ev Hrm Hc Eb) as (k2 & Erun & Ho2 & Hn2 & Hview & Hnew & Hmem).
  destruct (two_update k p Tn k2 i H Hbi Ev Ho2 Hn2 Hview Hnew Hmem) as (H2 & Hk2 & Hx2).
  cbv zeta. fold v in Erun. rewrite Erun. clear Erun.
  destruct (copy_map k p Tn i k2 c H Hup Hroom Hal Hbi Ev Hc H2 Hview Hnew Hx2) as (res & k3 & p3 & Tn3 & E3 & H3 & Hk3 & Hres). fold v in E3. kstep E3.
  exists (res =? 0), k3, p3, Tn3. split; [done|]. split; [done|]. split; [by eapply keeps_trans|done].
Qed.

(** *** Taking the pages back *)

(** The child's entry of a shared page is dropped. *)
Lemma two_drop k p Tn k' va (pa := upage k To va) :
  two k p Tn → below sz va → valid k To va → shared_at k p Tn va →
  vms kend k' (pool_free pa p) ro To → vms kend k' (pool_free pa p) rn Tn →
  (∀ x, old k' x = old k x) → (∀ x, 0 <= x < MAXVA → new k' Tn x = view_set (pte_at (kmem_mem k) Tn) va 0 x) →
  (∀ x, (∀ n a, Tn n = Some a → ¬ (a <= x < a + PGSIZE)) → kmem_mem k' x = kmem_mem k x) →
  two k' (pool_free pa p) Tn ∧ keeps k k'.
Proof.
  intros H Hva Hvv Hsh Ho' Hn' Hold Hnew Hmem. pose proof H as [Ho Hn Hu Ht Hp Htop]. pose proof Hu as [U1 U2 U3 U4 U5 U6].
  destruct (sh_page _ _ _ _ Hsh Hvv) as (_ & _ & H2). destruct (sh_perm _ _ _ _ Hsh Hvv) as (_ & HW & _). fold pa in H2.
  assert (Ep : pool_free pa p = mkpool (pfree p) (<[pa:=prefs p pa - 1]> (prefs p))) by (unfold pool_free; by rewrite (proj2 (Z.ltb_lt 1 _)) by lia).
  rewrite Ep in *. set (p' := mkpool _ _) in *.
  assert (Href : ∀ x, x ≠ pa → prefs p' x = prefs p x) by (intros x Hx; unfold p'; cbn [prefs]; by rewrite fn_lookup_insert_ne).
  assert (Hup : ∀ x, upage k' To x = upage k To x) by (intros x; unfold upage; by rewrite Hold).
  assert (Hval : ∀ x, valid k' To x ↔ valid k To x) by (intros x; unfold valid; by rewrite Hold).
  split; [split; [done|done| |done| |]|].
  - split; [done| | | | |].
    + intros x Hx Hvx%Hval. rewrite Hold. by apply U2.
    + intros x Hx Hvx%Hval. rewrite Hup. destruct (U3 x Hx Hvx) as [P1 P2 P3 P4]. split; [done|done|done|].
      destruct (decide (upage k To x = pa)) as [->|]; [unfold p'; cbn [prefs]; rewrite fn_lookup_insert; lia|by rewrite Href].
    + intros x y Hx Hy Hvx%Hval Hvy%Hval. rewrite !Hup. by apply U4.
    + intros x Hx Hvx%Hval. rewrite Hold, Hup. intros HWx HCx. rewrite Href; [by apply U5|]. intros E.
      rewrite (pte_at_page _ _ x va) in HWx; [congruence|apply Hx|apply Hva|by apply U4].
    + intros x Hx Hnb Hvx%Hval. rewrite Hold. by apply U6.
  - intros x Hx Hvx%Hval. rewrite Hup. by apply Hp.
  - intros x Hx Hnb. unfold valid. rewrite Hnew by done. unfold view_set. case_decide as E; [by rewrite has_0|by apply Htop].
  - intros x Hx. unfold uread. rewrite Hold, Hup. destruct (has (old k x) PTE_V) eqn:Ev; [|done]. apply Hmem. intros n a Ha Hin.
    pose proof (U3 x Hx Ev) as [P1 _ _ _]. pose proof (Z.mod_pos_bound x PGSIZE eq_refl).
    assert (a ≠ upage k To x) by (intros ->; by eapply (Hp x Hx Ev)).
    destruct (page_disjoint kend a (upage k To x)); [by eapply pt_page; [apply Hn|]|done|done|lia|lia].
Qed.

(** The child refers to the pages from [a] to [j]. *)
Definition between k p Tn a j : Prop :=
  (∀ x, below sz x → ¬ below a x → below j x → shared_at k p Tn x) ∧ (∀ x, below sz x → below a x ∨ ¬ below j x → ¬ valid k Tn x).

Lemma between_next k p Tn k' p' a j :
  between k p Tn a j → a mod PGSIZE = 0 → at_page k Tn k' Tn a →
  (∀ x, below sz x → valid k To x → x / PGSIZE ≠ a / PGSIZE → prefs p' (upage k To x) = prefs p (upage k To x)) →
  (∀ x, below sz x → x / PGSIZE = a / PGSIZE → ¬ valid k' Tn x) → between k' p' Tn (a + PGSIZE) j.
Proof.
  intros [H1 H2] Hal Hat Href Hno. split; intros x Hx.
  - intros Hnb Hb. rewrite below_next in Hnb by (done || apply Hx). destruct (Hat x Hx ltac:(tauto)) as [Eo En].
    destruct (H1 x Hx ltac:(tauto) Hb) as [S1 S2 S3]. unfold valid, upage in *. split; unfold valid, upage; rewrite ?Eo, ?En; [done| |done].
    intros Hv. rewrite Href by tauto. by apply S2.
  - rewrite below_next by (done || apply Hx). intros Hd. destruct (decide (x / PGSIZE = a / PGSIZE)) as [E|E]; [by apply Hno|].
    destruct (Hat x Hx E) as [_ En]. unfold valid. rewrite En. apply H2; [done|tauto].
Qed.

(** [kfree] of a shared page only counts. *)
Lemma kfree_shared k p Tn va c (pa := upage k To va) :
  two k p Tn → below sz va → valid k To va → 2 <= prefs p pa → LK_kmem ∉ held c →
  ∃ k1, kfree kend pa c k = Ret tt c k1 ∧ vms kend k1 (pool_free pa p) ro To ∧ vms kend k1 (pool_free pa p) rn Tn ∧ (∀ x, kmem_mem k1 x = kmem_mem k x).
Proof.
  intros H Hva Hv H2 Hc. pose proof (us_page _ _ _ _ _ (tw_us _ _ _ H) va Hva Hv) as Hup. fold pa in Hup.
  assert (Hupn : user_page kend p Tn pa) by (destruct Hup; split; try done; by apply (tw_pages _ _ _ H)).
  destruct (vms_kfree kend Hend k p ro To pa c (tw_old _ _ _ H) Hup Hc) as (k1 & E1 & Ho1 & _ & Hm1).
  destruct (vms_kfree kend Hend k p rn Tn pa c (tw_new _ _ _ H) Hupn Hc) as (k2 & E2 & Hn2 & _).
  rewrite E1 in E2. injection E2 as <-. exists k1. split_and!; try done. intros x. apply Hm1. lia.
Qed.

Lemma unmap_one k p Tn a j c :
  two k p Tn → between k p Tn a j → a mod PGSIZE = 0 → 0 <= a < j → a < sz → LK_kmem ∉ held c →
  ∃ k' p', unmap_page kend rn a true c k = Ret tt c k' ∧ two k' p' Tn ∧ keeps k k' ∧ between k' p' Tn (a + PGSIZE) j.
Proof.
  intros H Hbt Hal Ha Hsz Hc. assert (Hba : below sz a) by (split; [lia|uconst; Z.div_mod_to_equations; lia]).
  assert (Hbj : below j a) by (split; [lia|uconst; Z.div_mod_to_equations; lia]).
  pose proof (two_range _ _ _ _ H Hba) as Ham. unfold unmap_page.
  destruct (walk_slot kend Hend k p rn Tn a c (tw_new _ _ _ H) Ham) as [Ew Hslot]. kstep Ew.
  assert (Hskip : ¬ valid k Tn a → between k p Tn (a + PGSIZE) j).
  { intros Hnv. apply (between_next k p Tn k p a j); [done..|]. intros x Hx E. unfold valid. by rewrite (pte_at_page _ _ x a) by (done || apply Hx || lia). }
  destruct Hslot as [[Eb Ept]|(b & Eb & Hnz & Eload)]; rewrite Eb.
  { exists k, p. split; [done|]. split; [done|]. split; [done|]. apply Hskip. unfold valid. by rewrite Ept. }
  rewrite (proj2 (Z.eqb_neq _ 0)) by done. kstep (eq_refl : rd (b + 8 * PX 0 a) c k = Ret _ c k). rewrite Eload.
  destruct (has (new k Tn a) PTE_V) eqn:Ev; cbn [negb]; [|exists k, p; split; [done|]; split; [done|]; split; [done|]; apply Hskip; unfold valid; by rewrite Ev].
  pose proof (proj1 Hbt a Hba (below_not_at a a Hal eq_refl) Hbj) as Hsh. pose proof (proj1 (sh_valid _ _ _ _ Hsh) Ev) as Hvo.
  destruct (sh_page _ _ _ _ Hsh Hvo) as (Epg & _ & H2). change (PTE2PA (new k Tn a)) with (upage k Tn a). rewrite Epg.
  pose proof (us_page _ _ _ _ _ (tw_us _ _ _ H) a Hba Hvo) as [[P1 P1'] _ _ _].
  rewrite (proj2 (Z.leb_le _ _)), (proj2 (Z.ltb_lt _ _)) by lia. cbn [andb].
  destruct (kfree_shared k p Tn a c H Hba Hvo H2 Hc) as (k1 & E1 & Ho1 & Hn1 & Hm1). kstep E1.
  destruct (leaf_store kend k1 _ rn Tn a b 0 Hn1 Eb ltac:(lia) Ham) as [Hn2 Hview]. set (k2 := set_mem _ k1) in *.
  assert (Hmem : ∀ x, (∀ n q, Tn n = Some q → ¬ (q <= x < q + PGSIZE)) → kmem_mem k2 x = kmem_mem k1 x).
  { intros x Hx. apply mwrite_out. rewrite length_le_split. specialize (Hx _ _ Eb). pose proof (PX_range 0 a). uconst. lia. }
  destruct (vms_other k1 k2 _ rn Tn ro To Hn1 Ho1) as [Ho2 Hold]; [intros n n' q Hq Hq'; by eapply (tw_tables _ _ _ H)|done|done|].
  assert (Hpte : ∀ T x, pte_at (kmem_mem k1) T x = pte_at (kmem_mem k) T x).
  { intros T x. unfold pte_at. destruct (T _); [|done]. apply load64_ext. intros; apply Hm1. }
  destruct (two_drop k p Tn k2 a H Hba Hvo Hsh Ho2 Hn2) as [H' Hk'].
  { intros x. by rewrite Hold, Hpte. }
  { intros x Hx. rewrite Hview by done. unfold view_set. case_decide; [done|apply Hpte]. }
  { intros x Hx. by rewrite Hmem, Hm1. }
  exists k2, (pool_free (upage k To a) p). split; [done|]. split; [done|]. split; [done|].
  apply (between_next k p Tn k2); [done|done| | |].
  - intros x Hx Hne. rewrite Hold, Hpte, Hview by (by eapply two_range). unfold view_set. by rewrite decide_False, Hpte.
  - intros x Hx Hv Hne. assert (upage k To x ≠ upage k To a) by (intros E; apply Hne; by apply (us_inj _ _ _ _ _ (tw_us _ _ _ H))).
    unfold pool_free. destruct (1 <? _); cbn [prefs]; by rewrite fn_lookup_insert_ne.
  - intros x Hx E. unfold valid. rewrite Hview by (by eapply two_range). unfold view_set. by rewrite decide_True, has_0.
Qed.

Lemma unmap_loop_ok c : LK_kmem ∉ held c → ∀ fuel k p Tn a j,
  two k p Tn → between k p Tn a j → a mod PGSIZE = 0 → j mod PGSIZE = 0 → 0 <= a → j < sz + PGSIZE → j - a <= Z.of_nat fuel * PGSIZE →
  ∃ k' p', unmap_loop kend fuel rn a j true c k = Ret tt c k' ∧ two k' p' Tn ∧ keeps k k' ∧ ∀ x, below sz x → ¬ valid k' Tn x.
Proof.
  intros Hc. induction fuel as [|fuel IH]; intros k p Tn a j H Hbt Hal Hjl Ha Hj Hf; cbn [unmap_loop]; destruct (Z.ltb_spec a j) as [Hlt|Hge].
  - lia.
  - exists k, p. split; [done|]. split; [done|]. split; [done|]. intros x Hx. apply Hbt; [done|]. unfold below. lia.
  - pose proof (us_sz _ _ _ _ _ (tw_us _ _ _ H)) as Hsz.
    destruct (unmap_one k p Tn a j c) as (k1 & p1 & E1 & H1 & Hk1 & Hb1); [done|done|done|lia|uconst; Z.div_mod_to_equations; lia|done|].
    kstep E1. rewrite u64_small by (uconst; lia).
    destruct (IH k1 p1 Tn (a + PGSIZE) j) as (k2 & p2 & E2 & H2 & Hk2 & Hn2); try done; [apply (page_step a Hal)|uconst; lia|uconst; lia|].
    exists k2, p2. split; [done|]. split; [done|]. split; [by eapply keeps_trans|done].
  - exists k, p. split; [done|]. split; [done|]. split; [done|]. intros x Hx. apply Hbt; [done|]. unfold below. lia.
Qed.

(** *** The whole address space *)

Lemma uvmunmap_ok k p Tn i c :
  two k p Tn → upto k p Tn i → i mod PGSIZE = 0 → 0 <= i < sz → LK_kmem ∉ held c →
  ∃ k' p', uvmunmap kend rn 0 (i / PGSIZE) true c k = Ret tt c k' ∧ two k' p' Tn ∧ keeps k k' ∧ ∀ x, below sz x → ¬ valid k' Tn x.
Proof.
  intros H [Hu1 Hu2] Hal Hi Hc. pose proof (us_sz _ _ _ _ _ (tw_us _ _ _ H)) as Hsz. unfold uvmunmap. change (negb (0 mod PGSIZE =? 0)) with false. cbv iota zeta.
  assert (E : u64 (0 + i / PGSIZE * PGSIZE) = i) by (rewrite u64_small; uconst; Z.div_mod_to_equations; lia). rewrite E.
  apply (unmap_loop_ok c Hc _ k p Tn 0 i); [done| |done|done|lia|uconst; lia|].
  - split; [by intros x Hx _; apply Hu1|]. intros x Hx [[? ?]|?]; [|by apply Hu2]. destruct Hx. uconst. Z.div_mod_to_equations. lia.
  - rewrite Z.sub_0_r, Z2Nat.id by (apply Z.div_pos; [lia|done]). uconst. Z.div_mod_to_equations. lia.
Qed.

Lemma uvmcopy_loop_ok c : LK_kmem ∉ held c → ∀ fuel k p Tn i,
  two k p Tn → upto k p Tn i → room k p i → i mod PGSIZE = 0 → 0 <= i → sz - i <= Z.of_nat fuel * PGSIZE →
  ∃ res k' p' Tn', uvmcopy_loop kend fuel ro rn i sz c k = Ret res c k' ∧ two k' p' Tn' ∧ keeps k k' ∧
    (res = 0 ∧ (∀ x, below sz x → shared_at k' p' Tn' x) ∨ res = -1 ∧ ∀ x, below sz x → ¬ valid k' Tn' x).
Proof.
  intros Hc. induction fuel as [|fuel IH]; intros k p Tn i H Hup Hroom Hal Hi Hf; cbn [uvmcopy_loop]; destruct (Z.ltb_spec i sz) as [Hlt|Hge]; try lia.
  2:{ pose proof (us_sz _ _ _ _ _ (tw_us _ _ _ H)) as Hsz. destruct (copy_page k p Tn i c) as (ok & k1 & p1 & Tn1 & E1 & H1 & Hk1 & Hok); try done. kstep E1. destruct ok.
    - destruct Hok as [Hu1 Hr1]. rewrite u64_small by (uconst; lia).
      destruct (IH k1 p1 Tn1 (i + PGSIZE)) as (res & k2 & p2 & Tn2 & E2 & H2 & Hk2 & Hres); try done; [apply (page_step i Hal)|uconst; lia|uconst; lia|].
      exists res, k2, p2, Tn2. split; [done|]. split; [done|]. split; [by eapply keeps_trans|done].
    - destruct (uvmunmap_ok k1 p1 Tn1 i c) as (k2 & p2 & E2 & H2 & Hk2 & Hn2); [done|apply Hok|done|lia|done|].
      kstep E2. exists (-1), k2, p2, Tn1. split; [done|]. split; [done|]. split; [by eapply keeps_trans|by right]. }
  all: exists 0, k, p, Tn; split; [done|]; split; [done|]; split; [done|]; left; split; [done|]; intros x Hx; apply Hup; [done|]; destruct Hx; split; lia.
Qed.

(** With every page shared, the child's table is an address space too. *)
Lemma shared_uspace k p Tn :
  two k p Tn → (∀ x, below sz x → shared_at k p Tn x) →
  uspace kend k p Tn sz ∧ ∀ x, below sz x → uread k Tn x = uread k To x.
Proof.
  intros H Hsh. pose proof (tw_us _ _ _ H) as [U1 U2 U3 U4 U5 U6].
  assert (Hval : ∀ x, below sz x → valid k Tn x → valid k To x) by (intros x Hx; by apply Hsh).
  assert (Hpg : ∀ x, below sz x → valid k Tn x → upage k Tn x = upage k To x).
  { intros x Hx Hv. apply (sh_page _ _ _ _ (Hsh x Hx)). by apply Hval. }
  split; [split; [done| | | | |]|].
  - intros x Hx Hv. apply (sh_page _ _ _ _ (Hsh x Hx)). by apply Hval.
  - intros x Hx Hv. rewrite Hpg by done. destruct (U3 x Hx (Hval x Hx Hv)) as [P1 P2 P3 P4]. split; try done. apply (tw_pages _ _ _ H); auto.
  - intros x y Hx Hy Hvx Hvy. rewrite !Hpg by done. apply U4; auto.
  - intros x Hx Hv HW. destruct (sh_perm _ _ _ _ (Hsh x Hx) (Hval x Hx Hv)) as (E & _). congruence.
  - apply H.
  - intros x Hx. destruct (Hsh x Hx) as [S1 S2 _]. unfold uread. unfold valid in S1.
    destruct (has (new k Tn x) PTE_V) eqn:E1, (has (old k x) PTE_V) eqn:E2; try done.
    + by rewrite (proj1 (S2 E2)).
    + by discriminate (proj1 S1 eq_refl).
    + by discriminate (proj2 S1 eq_refl).
Qed.
End fork.

(** ** Two address spaces that share pages *)

Section apart.
Context (kend : Z) (Hend : KERNBASE <= kend).
Implicit Types (k : kmem) (p : pool) (T : tree) (x y a : Z).

Record apart k p r T r' T' sz : Prop := {
  ap_vms : vms kend k p r T;
  ap_vms' : vms kend k p r' T';
  ap_us : uspace kend k p T sz;
  ap_us' : uspace kend k p T' sz;
  ap_tables : ∀ n n' a, T n = Some a → T' n' ≠ Some a;
  ap_pages : ∀ x, below sz x → valid k T x → ∀ n, T' n ≠ Some (upage k T x);
  ap_pages' : ∀ x, below sz x → valid k T' x → ∀ n, T n ≠ Some (upage k T' x);
  ap_refs : ∀ x y, below sz x → below sz y → valid k T x → valid k T' y → upage k T x = upage k T' y → 2 <= prefs p (upage k T x)
}.

Lemma apart_sym k p r T r' T' sz : apart k p r T r' T' sz → apart k p r' T' r T sz.
Proof. intros [H1 H2 H3 H4 H5 H6 H7 H8]. split; try done; [intros n n' a Ha Ha'; by eapply H5|]. intros x y Hx Hy Hvx Hvy E. rewrite E. by apply (H8 y x). Qed.

(** What a process writes does not reach the memory of the other. *)
Lemma apart_read k p r T r' T' sz k' :
  apart k p r T r' T' sz → (∀ x, foreign k p T sz x → kmem_mem k' x = kmem_mem k x) → ∀ x, below sz x → uread k' T' x = uread k T' x.
Proof.
  intros [Hv Hv' Hu Hu' Ht Hp Hp' Hr] Hmem.
  pose proof (kabs_pages _ _ _ (vm_kabs _ _ _ _ _ Hv)) as Hpg. rewrite Forall_forall in Hpg.
  destruct (pt_ok_frame kend _ (kmem_mem k') _ _ (vm_pt _ _ _ _ _ Hv')) as [_ Hview].
  { intros n a x Ha Hx. pose proof (pt_page _ _ _ _ (vm_pt _ _ _ _ _ Hv') _ _ Ha) as Hpa. apply Hmem. split; [split|].
    - intros n' q Hq Hin. assert (q ≠ a) by (intros ->; by eapply Ht).
      destruct (page_disjoint kend q a); [by eapply pt_page; [apply Hv|]|done|done|lia|lia].
    - intros q Hq Hin. assert (q ≠ a) by (intros ->; by eapply (vm_used _ _ _ _ _ Hv')).
      destruct (page_disjoint kend q a); [by apply Hpg|done|done|lia|lia].
    - intros y Hy Hvy Hin. assert (upage k T y ≠ a) by (intros E; by eapply (Hp y Hy Hvy n); rewrite E).
      destruct (page_disjoint kend (upage k T y) a); [by apply Hu|done|done|lia|lia]. }
  intros x Hx. unfold uread, upage. rewrite Hview. destruct (has (pte_at (kmem_mem k) T' x) PTE_V) eqn:Ev; [|done]. fold (upage k T' x).
  pose proof (us_page _ _ _ _ _ Hu' x Hx Ev) as [P1 P2 P3 P4]. pose proof (Z.mod_pos_bound x PGSIZE eq_refl). apply Hmem. split.
  - eapply (user_page_untouched kend k p r T (upage k T' x)); [done| |lia]. split; [done|done|by apply Hp'|done].
  - intros y Hy Hvy Hin. destruct (decide (upage k T y = upage k T' x)) as [E|E]; [by apply (Hr y x)|].
    destruct (page_disjoint kend (upage k T y) (upage k T' x)); [by apply Hu|done|done|lia|lia].
Qed.

Lemma copyout_apart k p r T r' T' sz dst src len c :
  apart k p r T r' T' sz → 0 <= dst < 2 ^ 64 → 0 <= len → kbuf k p T sz src len → LK_kmem ∉ held c →
  ∃ res k', copyout kend (mkvmproc sz r) r dst src len c k = Ret res c k' ∧ ∀ x, below sz x → uread k' T' x = uread k T' x.
Proof.
  intros Ha Hdst Hlen Hbuf Hc.
  destruct (copyout_loop_ok kend Hend r sz c Hc (copy_fuel len) k p T dst src len) as (res & k' & p' & T2 & n & E & [_ _ _ _ Hf] & _);
    [apply Ha|apply Ha|done|done|by apply copy_fuel_enough|done|].
  exists res, k'. split; [done|]. apply (apart_read k p r T r'); [done|]. intros x Hx. by apply Hf.
Qed.
End apart.

(** After [uvmcopy] parent and child are such a pair. *)
Lemma two_apart kend ro rn sz To k p Tn :
  two kend ro rn sz To k p Tn → (∀ x, below sz x → shared_at To k p Tn x) → apart kend k p ro To rn Tn sz.
Proof.
  intros H Hsh. destruct (shared_uspace kend ro rn sz To k p Tn H Hsh) as [Hu _]. destruct H as [H1 H2 H3 H4 H5 H6]. split; try done.
  - intros x Hx Hv n. destruct (Hsh x Hx) as [S1 S2 _]. destruct (S2 (proj1 S1 Hv)) as (-> & _). by apply (us_page _ _ _ _ _ H3 x Hx), S1.
  - intros x y Hx _ Hv _ _. by apply (sh_page _ _ _ _ _ (Hsh x Hx)).
Qed.

(** ** Theorems *)

(** A parent with table [To] and size [sz], and a child whose table maps nothing below [sz] yet. *)
Record fork_pre (kend : Z) c k p ro To rn Tn sz : Prop := {
  fk_end : KERNBASE <= kend;
  fk_two : two kend ro rn sz To k p Tn;
  fk_empty : ∀ x, below sz x → ¬ valid k Tn x;
  fk_room : ∀ x, below sz x → valid k To x → prefs p (upage k To x) < 2 ^ 31 - 1;
  fk_lock : LK_kmem ∉ held c
}.

Lemma uvmcopy_ok kend c k p ro To rn Tn sz :
  fork_pre kend c k p ro To rn Tn sz →
  ∃ res k' p' Tn', uvmcopy kend ro rn sz c k = Ret res c k' ∧ two kend ro rn sz To k' p' Tn' ∧ keeps sz To k k' ∧
    (res = 0 ∧ (∀ x, below sz x → shared_at To k' p' Tn' x) ∨ res = -1 ∧ ∀ x, below sz x → ¬ valid k' Tn' x).
Proof.
  intros [Hend H He Hr Hc]. pose proof (us_sz _ _ _ _ _ (tw_us _ _ _ _ _ _ _ _ H)) as Hsz.
  assert (Hn0 : ∀ x, below sz x → ¬ below 0 x) by (intros x [? _] [_ ?]; uconst; Z.div_mod_to_equations; lia).
  apply (uvmcopy_loop_ok kend Hend ro rn sz To c Hc _ k p Tn 0); [done| | |done|done|].
  - split; [intros x Hx Hb; by destruct (Hn0 x Hx)|]. intros x Hx _. by apply He.
  - intros x Hx _. by apply Hr.
  - rewrite Z2Nat.id by (uconst; Z.div_mod_to_equations; lia). uconst. Z.div_mod_to_equations. lia.
Qed.

(** C20. [uvmcopy] ends and returns 0 or -1.  On 0 the child has an address space of its own in which it reads, at every address below the size,
    what the parent read before the call; it maps exactly the pages the parent maps, with the same accessibility to user code, neither of the two
    may write to a page they share, and its counter is at least 2.  On -1 the child maps nothing.  In both cases the parent's address space is well
    formed and reads as before. *)
Theorem uvmcopy_shares kend c k p ro To rn Tn sz :
  fork_pre kend c k p ro To rn Tn sz →
  ∃ res k' p' Tn', uvmcopy kend ro rn sz c k = Ret res c k' ∧
    vms kend k' p' ro To ∧ vms kend k' p' rn Tn' ∧ uspace kend k' p' To sz ∧
    (∀ x, below sz x → uread k' To x = uread k To x) ∧
    (res = 0 ∧ uspace kend k' p' Tn' sz ∧ (∀ x, below sz x → uread k' Tn' x = uread k To x) ∧ (∀ x, below sz x → shared_at To k' p' Tn' x) ∨
     res = -1 ∧ ∀ x, below sz x → ¬ valid k' Tn' x).
Proof.
  intros Hp. destruct (uvmcopy_ok _ _ _ _ _ _ _ _ _ Hp) as (res & k' & p' & Tn' & E & H & Hk & Hres). exists res, k', p', Tn'.
  split_and!; [done|apply H..|done|]. destruct Hres as [[-> Hsh]|?]; [left|by right]. split; [done|].
  destruct (shared_uspace _ _ _ _ _ _ _ _ H Hsh) as [Hu Hrd]. split_and!; try done. intros x Hx. by rewrite Hrd, Hk.
Qed.

(** C19. Copy-on-write isolates: after a successful [uvmcopy], whatever is then written into the memory of the child with [copyout], the parent
    reads what it read before the fork; and whatever is written into the memory of the parent, the child reads what the parent had. *)
Theorem fork_isolated kend c k p ro To rn Tn sz :
  fork_pre kend c k p ro To rn Tn sz →
  ∃ res k' p' Tn', uvmcopy kend ro rn sz c k = Ret res c k' ∧
    (res ≠ 0 ∨ ∀ dst src len, 0 <= dst < 2 ^ 64 → 0 <= len →
      (kbuf k' p' Tn' sz src len → ∃ r k2, copyout kend (mkvmproc sz rn) rn dst src len c k' = Ret r c k2 ∧
         ∀ x, below sz x → uread k2 To x = uread k To x) ∧
      (kbuf k' p' To sz src len → ∃ r k2, copyout kend (mkvmproc sz ro) ro dst src len c k' = Ret r c k2 ∧
         ∀ x, below sz x → uread k2 Tn' x = uread k To x)).
Proof.
  intros Hp. destruct (uvmcopy_ok _ _ _ _ _ _ _ _ _ Hp) as (res & k' & p' & Tn' & E & H & Hk & Hres). destruct Hp as [Hend _ _ _ Hc].
  exists res, k', p', Tn'. split; [done|]. destruct Hres as [[-> Hsh]|[-> _]]; [right|by left]. intros dst src len Hdst Hlen.
  pose proof (two_apart _ _ _ _ _ _ _ _ H Hsh) as Ha. destruct (shared_uspace _ _ _ _ _ _ _ _ H Hsh) as [_ Hrd]. split; intros Hb.
  - destruct (copyout_apart kend Hend k' p' rn Tn' ro To sz dst src len c) as (r & k2 & E2 & Hr2); [by apply apart_sym|done..|].
    exists r, k2. split; [done|]. intros x Hx. by rewrite Hr2, Hk.
  - destruct (copyout_apart kend Hend k' p' ro To rn Tn' sz dst src len c) as (r & k2 & E2 & Hr2); [done..|].
    exists r, k2. split; [done|]. intros x Hx. by rewrite Hr2, Hrd, Hk.
Qed.

(** ** Witness: a parent with one page *)


Definition fk_mem : mem :=
  store64 (store64 (store64 (store64 (store64 (λ _, 0) (vm_page 1) (vm_page 2)) (vm_page 2) (vm_page 3)) (vm_page 3) (vm_page 5))
    (vm_page 5) (vm_page 6)) (vm_page 6) (vm_page 7).
Definition fk_k : kmem := set_ref (KREF_INDEX (vm_page 8)) 1 (mkkmem fk_mem (vm_page 1) (λ _, 0)).
Definition fk_pool : pool :=
  mkpool [vm_page 1; vm_page 2; vm_page 3; vm_page 5; vm_page 6; vm_page 7] (<[vm_page 8:=1]> (λ _, 0)).

Lemma fk_kabs : kabs KERNBASE fk_k fk_pool.
Proof.
  apply (kabs_set_ref KERNBASE ltac:(done) (mkkmem fk_mem (vm_page 1) (λ _, 0)) (mkpool (pfree fk_pool) (λ _, 0)) (vm_page 8) 1).
  - split; simpl; [by vm_compute|apply (bool_decide_unpack _); by vm_compute| |done|done|lia]. repeat constructor; by vm_compute.
  - by vm_compute.
  - apply (bool_decide_unpack _). by vm_compute.
  - lia.
Qed.

Lemma fk_vms a : a = vm_page 0 ∨ a = vm_page 4 → vms KERNBASE fk_k fk_pool a (root_tree a).
Proof.
  intros Ha. assert (Hp : page_ok KERNBASE a) by (destruct Ha as [-> | ->]; by vm_compute). split.
  - split; simpl.
    + done.
    + intros [] q; [|done]. by intros [= <-].
    + by intros [] [] q.
    + intros n i. by destruct n.
    + intros [|i' n] q i; [|done]. intros [= <-] _ Hi. simpl. rewrite load64_zero_page; [done| |done].
      intros x Hx. unfold fk_mem, store64, vm_page in *. uconst. rewrite !mwrite_out by (rewrite length_le_split; lia). done.
  - apply fk_kabs.
  - intros [] q; [|done]. intros [= <-]. destruct Ha as [-> | ->]; apply (bool_decide_unpack _); by vm_compute.
Qed.

Lemma fk_two0 : two KERNBASE (vm_page 4) (vm_page 0) 4096 (root_tree (vm_page 4)) fk_k fk_pool (root_tree (vm_page 0)).
Proof.
  split; [apply fk_vms; by right|apply fk_vms; by left| | | |].
  - split; unfold valid; [by vm_compute|done..].
  - intros [] [] q; try done. by intros [= <-].
  - done.
  - done.
Qed.

Lemma fk_map : ∃ k p T, mapped KERNBASE fk_k fk_pool (root_tree (vm_page 0)) k p T (vm_page 0) 0 (vm_page 8) lazy_perm 1.
Proof.
  destruct (mappages_ok KERNBASE ltac:(done) fk_k fk_pool (root_tree (vm_page 0)) (vm_page 0) 0 1 (vm_page 8) lazy_perm demo_ctx)
    as (res & k & p & T & cnt & E & Hm & _ & Hres);
    [apply fk_vms; by left|set_solver|done|done|done|done|by intros x _ _|by vm_compute|done|apply attr_mask; by vm_compute|].
  assert (Hr : match mappages (vm_page 0) 0 (1 * PGSIZE) (vm_page 8) lazy_perm demo_ctx fk_k with Ret r _ _ => r =? 0 | _ => false end = true) by (by vm_compute).
  rewrite E in Hr. apply Z.eqb_eq in Hr. destruct Hres as [[_ ->]|[-> _]]; [|done]. by exists k, p, T.
Qed.

Lemma fk_pre : ∃ k p T, fork_pre KERNBASE demo_ctx k p (vm_page 0) T (vm_page 4) (root_tree (vm_page 4)) 4096 ∧ upage k T 0 = vm_page 8 ∧ valid k T 0.
Proof.
  destruct fk_map as (k & p & T & Hm). exists k, p, T.
  destruct (two_grow KERNBASE ltac:(done) _ _ _ _ _ _ _ k p T 0 (vm_page 8) lazy_perm 1 fk_two0 Hm) as ([H1 H2 _ Ht _ _] & _); [by vm_compute|lia|].
  destruct Hm as [_ Hg Hview]. destruct (lazy_entry_ok KERNBASE ltac:(done) (vm_page 8) ltac:(by vm_compute)) as (Ep & Er & Ev & Ew & Ec).
  set (e := Z.lor _ PTE_V) in *.
  assert (Hin : ∀ x, below 4096 x → x / PGSIZE = 0 ∧ 0 <= x < MAXVA) by (intros x [? ?]; uconst; split; Z.div_mod_to_equations; lia).
  assert (He : ∀ x, below 4096 x → pte_at (kmem_mem k) T x = e).
  { intros x Hx. destruct (Hin x Hx) as [E0 Hxm]. rewrite Hview by done. unfold map_view. change (0 / PGSIZE) with 0. rewrite E0. rewrite decide_True by lia. done. }
  assert (Ho : ∀ x, 0 <= x < MAXVA → ¬ below 4096 x → pte_at (kmem_mem k) T x = 0).
  { intros x Hx Hnb. rewrite Hview by done. unfold map_view. change (0 / PGSIZE) with 0. rewrite decide_False; [done|]. intros [? ?]. apply Hnb. split; [lia|]. uconst. Z.div_mod_to_equations. lia. }
  assert (H8 : vm_page 8 ∉ pfree fk_pool) by (apply (bool_decide_unpack _); by vm_compute).
  assert (Hr8 : prefs p (vm_page 8) = 1) by (rewrite (g_refs _ _ _ _ _ _ Hg) by done; by vm_compute).
  assert (Hup : user_page KERNBASE p T (vm_page 8)).
  { split; [by vm_compute| | |lia].
    - intros ?%(grows_free KERNBASE ltac:(done) _ _ _ _ _ _ _ Hg). done.
    - intros n [Hq|[Hq _]]%(g_pages _ _ _ _ _ _ Hg); [by destruct n|done]. }
  split; [|unfold upage, valid; by rewrite He by (by vm_compute)]. split; [done| |done| |set_solver].
  - split; [done|done| |intros n n' a Ha Ha'; by eapply Ht| |done].
    + split; [by vm_compute| | | | |]; unfold upage, valid.
      * intros x Hx _. by rewrite He.
      * intros x Hx _. by rewrite He, Ep.
      * intros x y Hx Hy _ _ _. by rewrite (proj1 (Hin x Hx)), (proj1 (Hin y Hy)).
      * intros x Hx _ _ _. by rewrite He, Ep.
      * intros x Hx Hnb. by rewrite Ho.
    + intros x Hx _ n. unfold upage. rewrite He, Ep by done. by destruct n.
  - intros x Hx _. unfold upage. rewrite He, Ep, Hr8 by done. lia.
Qed.

Lemma uvmcopy_shares_witness :
  ∃ k T, upage k T 0 = vm_page 8 ∧ valid k T 0 ∧
  ∃ res k' p' Tn', uvmcopy KERNBASE (vm_page 0) (vm_page 4) 4096 demo_ctx k = Ret res demo_ctx k' ∧
    (res = 0 ∧ (∀ x, below 4096 x → uread k' Tn' x = uread k T x) ∧ (∀ x, below 4096 x → shared_at T k' p' Tn' x) ∨
     res = -1 ∧ ∀ x, below 4096 x → ¬ valid k' Tn' x).
Proof.
  destruct fk_pre as (k & p & T & Hp & Eu & Ev). exists k, T. split; [exact Eu|]. split; [exact Ev|].
  destruct (uvmcopy_shares KERNBASE demo_ctx k p (vm_page 0) T (vm_page 4) (root_tree (vm_page 4)) 4096 Hp) as (res & k' & p' & Tn' & E & _ & _ & _ & _ & Hres).
  exists res, k', p', Tn'. split; [exact E|]. destruct Hres as [(H1 & _ & H2 & H3)|Hr]; [left; exact (conj H1 (conj H2 H3))|right; exact Hr].
Defined.

Lemma fork_isolated_witness :
  ∃ k T, upage k T 0 = vm_page 8 ∧ valid k T 0 ∧
  ∃ res k' p' Tn', uvmcopy KERNBASE (vm_page 0) (vm_page 4) 4096 demo_ctx k = Ret res demo_ctx k' ∧
    (res ≠ 0 ∨ ∀ dst src len, 0 <= dst < 2 ^ 64 → 0 <= len →
      (kbuf k' p' Tn' 4096 src len → ∃ r k2, copyout KERNBASE (mkvmproc 4096 (vm_page 4)) (vm_page 4) dst src len demo_ctx k' = Ret r demo_ctx k2 ∧
         ∀ x, below 4096 x → uread k2 T x = uread k T x) ∧
      (kbuf k' p' T 4096 src len → ∃ r k2, copyout KERNBASE (mkvmproc 4096 (vm_page 0)) (vm_page 0) dst src len demo_ctx k' = Ret r demo_ctx k2 ∧
         ∀ x, below 4096 x → uread k2 Tn' x = uread k T x)).
Proof.
  destruct fk_pre as (k & p & T & Hp & Eu & Ev). exists k, T. split; [exact Eu|]. split; [exact Ev|].
  exact (fork_isolated KERNBASE demo_ctx k p (vm_page 0) T (vm_page 4) (root_tree (vm_page 4)) 4096 Hp).
Defined.
