(* ===== verification/Boot.v ===== *)
(** * Machine-mode start-up and the small device drivers (start.c, timer.c, plic.c, wdt.c)

    A hart is its control and status registers and the devices on its bus.  The accessors of riscv.h
    read and write one register each.  [start] runs in machine mode and ends with [mret], whose effect
    is that of the privileged architecture: the mode is taken from mstatus.MPP and execution continues
    at mepc. *)

From stdpp Require Import base list functions sets numbers strings.
From Stdlib Require Import ZArith Lia.
From S2P Require Import Prelude Machine Vm.

(** ** Registers (riscv.h) *)

Inductive csr :=
  | MSTATUS | MEDELEG | MIDELEG | MXSTATUS | MENVCFG | MCOUNTEREN | MEPC | MHARTID | PMPADDR0 | PMPADDR3 | PMPCFG0
  | SSTATUS | SEPC | SCAUSE | STVAL | STVEC | SIE | SIP | SATP | STIMECMP | TIME | TP.

#[global] Instance csr_eq_dec : EqDecision csr.
Proof. solve_decision. Defined.

Definition CLOCK_INTERVAL : Z := 270000.
Definition MXSTATUS_CLINTEE : Z := Z.shiftl 1 17.
Definition MXSTATUS_THEADISAEE : Z := Z.shiftl 1 22.
Definition MENVCFG_STCE : Z := Z.shiftl 1 63.
Definition MSTATUS_MPP_MASK : Z := Z.shiftl 3 11.
Definition MSTATUS_MPP_S : Z := Z.shiftl 1 11.
Definition SSTATUS_SIE : Z := Z.shiftl 1 1.
Definition SIE_SSIE : Z := Z.shiftl 1 1.
Definition SIE_STIE : Z := Z.shiftl 1 5.
Definition SIE_SEIE : Z := Z.shiftl 1 9.

(** ** Device addresses (memlayout.h) *)

Definition UART0_IRQ : Z := 16.
Definition PLIC : Z := 0x0f00000000.
Definition PLIC_PRIORITY : Z := PLIC + 0x0.
Definition PLIC_PENDING : Z := PLIC + 0x1000.
Definition PLIC_SENABLE (hart : Z) : Z := PLIC + 0x2080 + hart * 0x100.
Definition PLIC_SPRIORITY (hart : Z) : Z := PLIC + 0x201000 + hart * 0x2000.
Definition PLIC_SCLAIM (hart : Z) : Z := PLIC + 0x201004 + hart * 0x2000.
Definition WDT0_BASE : Z := 0x91106000.
Definition WDT_CR : Z := WDT0_BASE + 0x00.
Definition WDT_TORR : Z := WDT0_BASE + 0x04.
Definition WDT_CCVR : Z := WDT0_BASE + 0x08.
Definition WDT_CRR : Z := WDT0_BASE + 0x0c.
Definition WDT_CR_ENABLE : Z := Z.shiftl 1 0.
Definition WDT_CR_RMOD_RST : Z := Z.shiftl 0 1.
Definition WDT_CR_RPL_16 : Z := Z.shiftl 0x3 2.
Definition WDT_CRR_MAGIC : Z := 0x76.

(** Permission bits of start.c. *)
Definition PMP_R : Z := 0x01.
Definition PMP_W : Z := 0x02.
Definition PMP_X : Z := 0x04.
Definition PMP_A_NAPOT : Z := 0x18.

(** ** The hart *)

Class Bus (D : Type) := { bus_load : Z → D → Z * D; bus_store : Z → Z → D → D }.

Record hart (D : Type) := mkhart { h_csr : csr → Z; h_dev : D }.
Arguments mkhart {_}. Arguments h_csr {_}. Arguments h_dev {_}.

Section boot.
Context {D : Type} `{Bus D}.
Local Abbreviation HM := (M (hart D)).

Definition set_csr (r : csr) (x : Z) (h : hart D) : hart D := mkhart (<[r:=u64 x]> (h_csr h)) (h_dev h).
Definition csrr (r : csr) : HM Z := kgets (λ h, h_csr h r).
Definition csrw (r : csr) (x : Z) : HM unit := kmod (set_csr r x).

(** A 32-bit volatile access. *)
Definition mmio_read (a : Z) : HM Z := λ c h, let '(x, d) := bus_load a (h_dev h) in Ret (u32 x) c (mkhart (h_csr h) d).
Definition mmio_write (a x : Z) : HM unit := kmod (λ h, mkhart (h_csr h) (bus_store a (u32 x) (h_dev h))).

Definition r_mxstatus := csrr MXSTATUS.
Definition w_mxstatus := csrw MXSTATUS.
Definition r_menvcfg := csrr MENVCFG.
Definition w_menvcfg := csrw MENVCFG.
Definition w_stimecmp := csrw STIMECMP.
Definition r_stimecmp := csrr STIMECMP.
Definition r_mstatus := csrr MSTATUS.
Definition w_mstatus := csrw MSTATUS.
Definition r_mhartid := csrr MHARTID.
Definition w_mepc := csrw MEPC.
Definition w_medeleg := csrw MEDELEG.
Definition w_mideleg := csrw MIDELEG.
Definition w_mcounteren := csrw MCOUNTEREN.
Definition w_pmpaddr0 := csrw PMPADDR0.
Definition w_pmpcfg0 := csrw PMPCFG0.
Definition r_sstatus := csrr SSTATUS.
Definition w_sstatus := csrw SSTATUS.
Definition r_sepc := csrr SEPC.
Definition w_sepc := csrw SEPC.
Definition r_scause := csrr SCAUSE.
Definition r_stval := csrr STVAL.
Definition r_stvec := csrr STVEC.
Definition w_stvec := csrw STVEC.
Definition r_sie := csrr SIE.
Definition w_sie := csrw SIE.
Definition r_sip := csrr SIP.
Definition w_sip := csrw SIP.
Definition r_satp := csrr SATP.
Definition w_satp := csrw SATP.
Definition r_tp := csrr TP.
Definition w_tp := csrw TP.
Definition r_time := csrr TIME.

Definition intr_on : HM unit := do x <- r_sstatus; w_sstatus (Z.lor x SSTATUS_SIE).
Definition intr_off : HM unit := do x <- r_sstatus; w_sstatus (Z.land x (Z.lnot SSTATUS_SIE)).
Definition intr_get : HM bool := do x <- r_sstatus; kret (has x SSTATUS_SIE).

(** proc.c: the number of this hart, kept in tp. *)
Definition cpuid : HM Z := do x <- r_tp; kret (s32 x).

(** ** timer.c *)

Definition set_timer (stime_value : Z) : HM unit := w_stimecmp stime_value.

Definition timerinit : HM unit :=
  do sie <- r_sie;
  w_sie (Z.lor sie SIE_STIE) ;;;
  do t <- r_time;
  set_timer (t + CLOCK_INTERVAL).

(** ** plic.c *)

Definition plicinit : HM unit :=
  mmio_write (PLIC_PRIORITY + UART0_IRQ * 4) 1 ;;;
  do read_back <- mmio_read (PLIC_PRIORITY + UART0_IRQ * 4);
  if negb (read_back =? 1) then panic "PLIC mapping"
  else mmio_write (PLIC_PRIORITY + UART0_IRQ * 4) 1.

Definition plicinithart : HM unit :=
  do hart <- cpuid;
  mmio_write (PLIC_SENABLE hart) (Z.shiftl 1 UART0_IRQ) ;;;
  mmio_write (PLIC_SPRIORITY hart) 0.

Definition plic_claim : HM Z :=
  do hart <- cpuid;
  do irq <- mmio_read (PLIC_SCLAIM hart);
  kret (s32 irq).

Definition plic_complete (irq : Z) : HM unit :=
  do hart <- cpuid;
  mmio_write (PLIC_SCLAIM hart) irq.

Definition plic_check_pending : HM Z := do x <- mmio_read PLIC_PENDING; kret (s32 x).

(** ** wdt.c *)

(** The loop that watches the counter run. *)
Fixpoint wdt_watch (n : nat) (start_val : Z) : HM unit :=
  match n with
  | O => kret tt
  | S n' => do x <- mmio_read WDT_CCVR; if x <? start_val then kret tt else wdt_watch n' start_val
  end.

(** It does not return: the hart stays in [while(1)] until the watchdog resets it. *)
Definition k230_wdt_reboot : HM unit :=
  mmio_write WDT_TORR 0x0 ;;;
  mmio_write WDT_CR (Z.lor (Z.lor WDT_CR_ENABLE WDT_CR_RMOD_RST) WDT_CR_RPL_16) ;;;
  mmio_write WDT_CRR WDT_CRR_MAGIC ;;;
  do start_val <- mmio_read WDT_CCVR;
  wdt_watch 1000 start_val ;;;
  nofuel.

(** ** start.c *)

Definition start (main : Z) : HM unit :=
  do x <- r_mstatus;
  let x := Z.land x (Z.lnot MSTATUS_MPP_MASK) in
  let x := Z.lor x MSTATUS_MPP_S in
  w_mstatus x ;;;
  w_medeleg (Z.land 0xffff (Z.lnot (Z.shiftl 1 9))) ;;;
  w_mideleg 0xffff ;;;
  do sie <- r_sie;
  w_sie (Z.lor (Z.lor (Z.lor sie SIE_SEIE) SIE_STIE) SIE_SSIE) ;;;
  do mxs <- r_mxstatus;
  w_mxstatus (Z.lor (Z.lor mxs MXSTATUS_CLINTEE) MXSTATUS_THEADISAEE) ;;;
  do menv <- r_menvcfg;
  w_menvcfg (Z.lor menv MENVCFG_STCE) ;;;
  w_mcounteren 0xffffffff ;;;
  mmio_write (PLIC + 0x01FFFFC) 1 ;;;
  w_mepc main ;;;
  w_satp 0 ;;;
  csrw PMPADDR3 (-1) ;;;
  w_pmpcfg0 (Z.shiftl (Z.lor (Z.lor (Z.lor PMP_R PMP_W) PMP_X) PMP_A_NAPOT) 24) ;;;
  timerinit ;;;
  do id <- r_mhartid;
  w_tp (s32 id).
End boot.

(** ** What the hart does after [start] *)

(** [mret]: the privilege level and the address at which execution continues. *)
Definition mret {D} (h : hart D) : Z * Z := (Z.land (Z.shiftr (h_csr h MSTATUS) 11) 3, h_csr h MEPC).
Definition supervisor : Z := 1.

(** Entry [i] of the physical memory protection: its configuration byte. *)
Definition pmp_cfg {D} (h : hart D) (i : Z) : Z := Z.land (Z.shiftr (h_csr h PMPCFG0) (8 * i)) 0xff.

(** mstatus as [start] leaves it. *)
Definition start_mstatus (x : Z) : Z := u64 (Z.lor (Z.land x (Z.lnot MSTATUS_MPP_MASK)) MSTATUS_MPP_S).

Lemma testbit_start_mstatus x n : 0 <= x < 2 ^ 64 → 0 <= n →
  Z.testbit (start_mstatus x) n = (n =? 11) || negb (n =? 12) && Z.testbit x n.
Proof.
  intros Hx Hn. unfold start_mstatus, MSTATUS_MPP_S. change MSTATUS_MPP_MASK with (Z.lor (2 ^ 11) (2 ^ 12)). rewrite Z.shiftl_1_l.
  rewrite testbit_u64, Z.lor_spec, Z.land_spec, Z.lnot_spec, Z.lor_spec, !Z.pow2_bits_eqb by lia.
  rewrite (Z.eqb_sym 11), (Z.eqb_sym 12). destruct (Z.eqb_spec n 11) as [->|]; [by rewrite orb_true_r|].
  destruct (Z.eqb_spec n 12) as [->|]; [by rewrite !andb_false_r|]. rewrite andb_true_r, orb_false_r. cbn.
  destruct (Z.ltb_spec n 64); [done|]. by rewrite (bits_above64 x) by lia.
Qed.

Lemma start_mpp x : 0 <= x < 2 ^ 64 → Z.land (Z.shiftr (start_mstatus x) 11) 3 = supervisor.
Proof.
  intros Hx. change 3 with (Z.ones 2). apply Z.bits_inj'. intros n Hn. rewrite Z.land_spec, Z.shiftr_spec, testbit_start_mstatus by lia.
  destruct (Z.ltb_spec n 2).
  - rewrite Z.ones_spec_low by lia. assert (n = 0 ∨ n = 1) as [-> | ->] by lia; done.
  - rewrite Z.ones_spec_high by lia. rewrite andb_false_r. change supervisor with (2 ^ 0). by rewrite Z.pow2_bits_false by lia.
Qed.

Lemma csr_eq {D} r x (h : hart D) : h_csr (set_csr r x h) r = u64 x.
Proof. apply fn_lookup_insert. Qed.
Lemma csr_ne {D} r r' x (h : hart D) : r ≠ r' → h_csr (set_csr r x h) r' = h_csr h r'.
Proof. apply fn_lookup_insert_ne. Qed.

(** The hart after [start], one register at a time. *)
Definition started {D} `{Bus D} (main : Z) (h : hart D) : hart D :=
  let h1 := set_csr MIDELEG 0xffff (set_csr MEDELEG (Z.land 0xffff (Z.lnot (Z.shiftl 1 9)))
    (set_csr MSTATUS (Z.lor (Z.land (h_csr h MSTATUS) (Z.lnot MSTATUS_MPP_MASK)) MSTATUS_MPP_S) h)) in
  let h2 := set_csr SIE (Z.lor (Z.lor (Z.lor (h_csr h1 SIE) SIE_SEIE) SIE_STIE) SIE_SSIE) h1 in
  let h3 := set_csr MXSTATUS (Z.lor (Z.lor (h_csr h2 MXSTATUS) MXSTATUS_CLINTEE) MXSTATUS_THEADISAEE) h2 in
  let h4 := set_csr MCOUNTEREN 0xffffffff (set_csr MENVCFG (Z.lor (h_csr h3 MENVCFG) MENVCFG_STCE) h3) in
  let h5 := mkhart (h_csr h4) (bus_store (PLIC + 0x01FFFFC) (u32 1) (h_dev h4)) in
  let h6 := set_csr PMPCFG0 (Z.shiftl (Z.lor (Z.lor (Z.lor PMP_R PMP_W) PMP_X) PMP_A_NAPOT) 24)
    (set_csr PMPADDR3 (-1) (set_csr SATP 0 (set_csr MEPC main h5))) in
  let h7 := set_csr SIE (Z.lor (h_csr h6 SIE) SIE_STIE) h6 in
  let h8 := set_csr STIMECMP (h_csr h7 TIME + CLOCK_INTERVAL) h7 in
  set_csr TP (s32 (h_csr h8 MHARTID)) h8.

Lemma start_run {D} `{Bus D} c (h : hart D) main : start main c h = Ret tt c (started main h).
Proof. reflexivity. Qed.

Ltac csr_lookup := unfold started; cbv zeta; repeat first [rewrite csr_eq | rewrite csr_ne by done | progress cbn [h_csr h_dev]].

(** [start] returns on every hart and, whatever the registers held before, [mret] enters [main] in supervisor mode: address translation is off,
    the fourth protection entry opens all of memory, interrupts and all exceptions except calls to the firmware are delegated, external, timer and
    software interrupts are enabled, and the first timer interrupt is due one interval after the current time.  The other fields of mstatus are kept. *)
Theorem start_enters_main {D} `{Bus D} c (h : hart D) main :
  0 <= main < 2 ^ 64 → (∀ r, 0 <= h_csr h r < 2 ^ 64) → 0 <= h_csr h MHARTID < 2 ^ 31 →
  ∃ h', start main c h = Ret tt c h' ∧ mret h' = (supervisor, main) ∧
    (∀ n, 0 <= n → ¬ (11 <= n <= 12) → Z.testbit (h_csr h' MSTATUS) n = Z.testbit (h_csr h MSTATUS) n) ∧
    h_csr h' SATP = 0 ∧ pmp_cfg h' 3 = 0x1f ∧ h_csr h' PMPADDR3 = 2 ^ 64 - 1 ∧
    h_csr h' MIDELEG = 0xffff ∧ (∀ n, 0 <= n < 16 → Z.testbit (h_csr h' MEDELEG) n = negb (n =? 9)) ∧
    has (h_csr h' SIE) SIE_SEIE = true ∧ has (h_csr h' SIE) SIE_STIE = true ∧ has (h_csr h' SIE) SIE_SSIE = true ∧
    h_csr h' STIMECMP = u64 (h_csr h TIME + CLOCK_INTERVAL) ∧ h_csr h' TP = h_csr h MHARTID.
Proof.
  intros Hm Hr Hid. exists (started main h). split; [apply start_run|].
  assert (E1 : h_csr (started main h) MSTATUS = start_mstatus (h_csr h MSTATUS)) by (by csr_lookup).
  assert (E2 : h_csr (started main h) SIE = u64 (Z.lor (u64 (Z.lor (Z.lor (Z.lor (h_csr h SIE) SIE_SEIE) SIE_STIE) SIE_SSIE)) SIE_STIE)) by (by csr_lookup).
  assert (E3 : h_csr (started main h) TP = u64 (s32 (h_csr h MHARTID))) by (by csr_lookup).
  assert (E4 : h_csr (started main h) STIMECMP = u64 (h_csr h TIME + CLOCK_INTERVAL)) by (by csr_lookup).
  assert (E5 : h_csr (started main h) MEPC = u64 main) by (by csr_lookup).
  unfold mret. rewrite E1, E2, E3, E4, E5. clear E1 E2 E3 E4 E5.
  assert (Hsie : ∀ b, b ∈ [1; 5; 9] → has (u64 (Z.lor (u64 (Z.lor (Z.lor (Z.lor (h_csr h SIE) SIE_SEIE) SIE_STIE) SIE_SSIE)) SIE_STIE)) (Z.shiftl 1 b) = true).
  { intros b Hb. rewrite !elem_of_cons, elem_of_nil in Hb. unfold SIE_SEIE, SIE_STIE, SIE_SSIE.
    rewrite has_bit, testbit_u64, Z.lor_spec, testbit_u64, !Z.lor_spec, !Z.shiftl_1_l, !Z.pow2_bits_eqb by lia.
    destruct Hb as [-> |[-> |[-> |[]]]]; cbn; by rewrite ?orb_true_r. }
  split; [by rewrite start_mpp, u64_small|]. split.
  { intros n Hn Hne. rewrite testbit_start_mstatus by done. destruct (Z.eqb_spec n 11), (Z.eqb_spec n 12); try lia. done. }
  split; [reflexivity|]. split; [reflexivity|]. split; [reflexivity|]. split; [reflexivity|]. split.
  { intros n Hn. change (u64 (Z.land 0xffff (Z.lnot (Z.shiftl 1 9)))) with 0xfdff. rewrite <- (Z2Nat.id n) by lia.
    assert (Hk : (Z.to_nat n < 16)%nat) by lia. generalize dependent (Z.to_nat n). intros k Hk. do 16 (destruct k as [|k]; [reflexivity|]). lia. }
  split; [apply (Hsie 9); set_solver|]. split; [apply (Hsie 5); set_solver|]. split; [apply (Hsie 1); set_solver|]. split; [reflexivity|].
  rewrite s32_small, u64_small by (done || lia). reflexivity.
Qed.

(** [k230_wdt_reboot] never gives control back. *)
Lemma wdt_watch_ends {D} `{Bus D} c n : ∀ (h : hart D) v, ∃ h', wdt_watch n v c h = Ret tt c h'.
Proof.
  induction n as [|n IH]; intros h v; [by exists h|]. cbn [wdt_watch]. unfold mmio_read, kbind. destruct (bus_load WDT_CCVR (h_dev h)) as [x d].
  destruct (u32 x <? v); [by eexists|apply IH].
Qed.

Theorem wdt_reboot_stays {D} `{Bus D} c (h : hart D) : k230_wdt_reboot c h = NoFuel.
Proof.
  unfold k230_wdt_reboot, mmio_write, kmod, mmio_read, kbind. cbn [h_csr h_dev]. destruct (bus_load WDT_CCVR _) as [x d].
  by destruct (wdt_watch_ends c 1000 (mkhart (h_csr h) d) (u32 x)) as [h' ->].
Qed.

(** When the priority register of the PLIC reads back, [plicinit] returns with the UART interrupt at priority 1; otherwise it panics. *)
Theorem plicinit_checks {D} `{Bus D} c (h : hart D) (reg := PLIC_PRIORITY + UART0_IRQ * 4) (rb := bus_load reg (bus_store reg 1 (h_dev h))) :
  plicinit c h = if u32 rb.1 =? 1 then Ret tt c (mkhart (h_csr h) (bus_store reg 1 rb.2)) else Panic "PLIC mapping".
Proof.
  unfold plicinit, mmio_write, kmod, mmio_read, kbind. cbn [h_csr h_dev]. fold reg. change (u32 1) with 1. fold rb.
  destruct rb as [x d]. cbn [fst snd]. by destruct (u32 x =? 1).
Qed.
