(* ===== verification/Proc.v ===== *)
(** * Processes and the scheduler (kernel/proc.c)

    The process table, with one definition per function of proc.c that does not touch open files
    ([kfork], [kexit] and [userinit], which do, are in file Kernel).  The state holds the memory of
    file Kalloc, because page tables and trapframes are pages of it.

    The second half shows, for one CPU: the scheduler's pass over the table runs every
    process that is runnable; the end of [kexit] hands the children and the exit status over; [kwait]
    reaps exactly an exited child.  Several CPUs are in file Sched. *)

From stdpp Require Import base list functions sets relations numbers strings.
From Stdlib Require Import ZArith Lia.
From S2P Require Import Prelude Machine Kstring Kalloc Vm.

(** ** Data (proc.h) *)

Inductive procstate := UNUSED | USED | SLEEPING | RUNNABLE | RUNNING | ZOMBIE.

#[global] Instance procstate_eq_dec : EqDecision procstate.
Proof. solve_decision. Defined.

(** [struct context]: ra, sp and the twelve callee-saved registers. *)
Record context := mkcontext { ctx_ra : Z; ctx_sp : Z; ctx_s : list Z }.

(** [struct proc] without its lock; pointers to table entries are indices, [None] is 0. *)
Record proc := mkproc {
  p_state : procstate;
  p_chan : option chan;
  p_killed : Z;
  p_xstate : Z;
  p_pid : Z;
  p_parent : option nat;
  p_kstack : Z;
  p_size : Z;                     (* p->sz *)
  p_pgtbl : Z;                    (* p->pagetable *)
  p_trapframe : Z;
  p_context : context;
  p_ofile : list (option nat);
  p_cwd : option nat;
  p_name : list Z
}.

(** [ps_cur] is [mycpu()->proc]; [ps_first] is the static variable of [forkret]. *)
Record pstate := mkps {
  ps_mem : kmem;
  ps_proc : list proc;
  ps_nextpid : Z;
  ps_initproc : option nat;
  ps_cur : option nat;
  ps_ticks : Z;
  ps_first : bool
}.

Definition set_state (x : procstate) (p : proc) : proc :=
  mkproc x (p_chan p) (p_killed p) (p_xstate p) (p_pid p) (p_parent p) (p_kstack p) (p_size p)
    (p_pgtbl p) (p_trapframe p) (p_context p) (p_ofile p) (p_cwd p) (p_name p).
Definition set_chan (x : option chan) (p : proc) : proc :=
  mkproc (p_state p) x (p_killed p) (p_xstate p) (p_pid p) (p_parent p) (p_kstack p) (p_size p)
    (p_pgtbl p) (p_trapframe p) (p_context p) (p_ofile p) (p_cwd p) (p_name p).
Definition set_killed (x : Z) (p : proc) : proc :=
  mkproc (p_state p) (p_chan p) x (p_xstate p) (p_pid p) (p_parent p) (p_kstack p) (p_size p)
    (p_pgtbl p) (p_trapframe p) (p_context p) (p_ofile p) (p_cwd p) (p_name p).
Definition set_xstate (x : Z) (p : proc) : proc :=
  mkproc (p_state p) (p_chan p) (p_killed p) x (p_pid p) (p_parent p) (p_kstack p) (p_size p)
    (p_pgtbl p) (p_trapframe p) (p_context p) (p_ofile p) (p_cwd p) (p_name p).
Definition set_pid (x : Z) (p : proc) : proc :=
  mkproc (p_state p) (p_chan p) (p_killed p) (p_xstate p) x (p_parent p) (p_kstack p) (p_size p)
    (p_pgtbl p) (p_trapframe p) (p_context p) (p_ofile p) (p_cwd p) (p_name p).
Definition set_parent (x : option nat) (p : proc) : proc :=
  mkproc (p_state p) (p_chan p) (p_killed p) (p_xstate p) (p_pid p) x (p_kstack p) (p_size p)
    (p_pgtbl p) (p_trapframe p) (p_context p) (p_ofile p) (p_cwd p) (p_name p).
Definition set_size (x : Z) (p : proc) : proc :=
  mkproc (p_state p) (p_chan p) (p_killed p) (p_xstate p) (p_pid p) (p_parent p) (p_kstack p) x
    (p_pgtbl p) (p_trapframe p) (p_context p) (p_ofile p) (p_cwd p) (p_name p).
Definition set_pgtbl (x : Z) (p : proc) : proc :=
  mkproc (p_state p) (p_chan p) (p_killed p) (p_xstate p) (p_pid p) (p_parent p) (p_kstack p) (p_size p)
    x (p_trapframe p) (p_context p) (p_ofile p) (p_cwd p) (p_name p).
Definition set_trapframe (x : Z) (p : proc) : proc :=
  mkproc (p_state p) (p_chan p) (p_killed p) (p_xstate p) (p_pid p) (p_parent p) (p_kstack p) (p_size p)
    (p_pgtbl p) x (p_context p) (p_ofile p) (p_cwd p) (p_name p).
Definition set_context (x : context) (p : proc) : proc :=
  mkproc (p_state p) (p_chan p) (p_killed p) (p_xstate p) (p_pid p) (p_parent p) (p_kstack p) (p_size p)
    (p_pgtbl p) (p_trapframe p) x (p_ofile p) (p_cwd p) (p_name p).
Definition set_ofile (x : list (option nat)) (p : proc) : proc :=
  mkproc (p_state p) (p_chan p) (p_killed p) (p_xstate p) (p_pid p) (p_parent p) (p_kstack p) (p_size p)
    (p_pgtbl p) (p_trapframe p) (p_context p) x (p_cwd p) (p_name p).
Definition set_cwd (x : option nat) (p : proc) : proc :=
  mkproc (p_state p) (p_chan p) (p_killed p) (p_xstate p) (p_pid p) (p_parent p) (p_kstack p) (p_size p)
    (p_pgtbl p) (p_trapframe p) (p_context p) (p_ofile p) x (p_name p).
Definition set_name (x : list Z) (p : proc) : proc :=
  mkproc (p_state p) (p_chan p) (p_killed p) (p_xstate p) (p_pid p) (p_parent p) (p_kstack p) (p_size p)
    (p_pgtbl p) (p_trapframe p) (p_context p) (p_ofile p) (p_cwd p) x.

Definition set_procs (l : list proc) (s : pstate) : pstate :=
  mkps (ps_mem s) l (ps_nextpid s) (ps_initproc s) (ps_cur s) (ps_ticks s) (ps_first s).
Definition set_pmem (k : kmem) (s : pstate) : pstate :=
  mkps k (ps_proc s) (ps_nextpid s) (ps_initproc s) (ps_cur s) (ps_ticks s) (ps_first s).
Definition set_nextpid (n : Z) (s : pstate) : pstate :=
  mkps (ps_mem s) (ps_proc s) n (ps_initproc s) (ps_cur s) (ps_ticks s) (ps_first s).
Definition set_initproc (i : option nat) (s : pstate) : pstate :=
  mkps (ps_mem s) (ps_proc s) (ps_nextpid s) i (ps_cur s) (ps_ticks s) (ps_first s).
Definition set_cur (i : option nat) (s : pstate) : pstate :=
  mkps (ps_mem s) (ps_proc s) (ps_nextpid s) (ps_initproc s) i (ps_ticks s) (ps_first s).
Definition set_ticks (n : Z) (s : pstate) : pstate :=
  mkps (ps_mem s) (ps_proc s) (ps_nextpid s) (ps_initproc s) (ps_cur s) n (ps_first s).
Definition set_first (b : bool) (s : pstate) : pstate :=
  mkps (ps_mem s) (ps_proc s) (ps_nextpid s) (ps_initproc s) (ps_cur s) (ps_ticks s) b.

Definition mem_lens : lens pstate kmem := mklens ps_mem set_pmem.

(** Reading and writing [proc[i]]. *)
Definition getp (i : nat) : M pstate proc :=
  do s <- kget;
  match ps_proc s !! i with Some p => kret p | None => undefined "proc[i]" end.
Definition modp (i : nat) (f : proc → proc) : M pstate unit :=
  kmod (λ s, set_procs (alter f i (ps_proc s)) s).

(** [myproc()], where the caller dereferences it. *)
Definition myproc : M pstate nat :=
  do s <- kget;
  match ps_cur s with Some i => kret i | None => undefined "myproc() == 0" end.

(** ** Values of the kernel copied to and from user memory

    [copyout] and [copyin] of file Vm move bytes between addresses.  Kernel variables that the model
    keeps as values (locals, table entries, disk buffers) are placed at [STAGE], outside the managed
    pages, for the copy. *)
Definition STAGE : Z := 0x1000.

Definition word_bytes (n : nat) (v : Z) : list Z := le_split n v.

(** The NUL-terminated string in a list of bytes. *)
Fixpoint cstr (l : list Z) : list Z :=
  match l with
  | [] => []
  | b :: l' => if b =? 0 then [] else b :: cstr l'
  end.

Section proc.
Context (kend trampoline forkret : Z).

Definition vm_of (p : proc) : vmproc := mkvmproc (p_size p) (p_pgtbl p).

(** [copyout(pagetable, dstva, &x, sizeof x)] in process [i]. *)
Definition copyout_bytes (pagetable dstva : Z) (l : list Z) : M pstate Z :=
  do i <- myproc;
  do p <- getp i;
  zoom mem_lens
    (kmod (λ k, set_mem (mwrite (kmem_mem k) STAGE l) k) ;;;
     copyout kend (vm_of p) pagetable dstva STAGE (Z.of_nat (length l))).

(** [copyin(pagetable, &x, srcva, n)]: the status and the bytes of x afterwards. *)
Definition copyin_bytes (pagetable srcva : Z) (n : nat) : M pstate (Z * list Z) :=
  do i <- myproc;
  do p <- getp i;
  zoom mem_lens
    (do r <- copyin kend (vm_of p) pagetable STAGE srcva (Z.of_nat n);
     do k <- kget;
     kret (r, mread (kmem_mem k) STAGE n)).

(** [copyinstr(pagetable, buf, srcva, max)]: the status and the string in buf. *)
Definition copyinstr_str (pagetable srcva max : Z) : M pstate (Z * list Z) :=
  zoom mem_lens
    (do r <- copyinstr pagetable STAGE srcva max;
     do k <- kget;
     kret (r, cstr (mread (kmem_mem k) STAGE (Z.to_nat max)))).

(** ** Allocation of processes *)

Definition procinit : M pstate unit :=
  kfor NPROC 0 (λ i, modp (Z.to_nat i) (set_state UNUSED)).

Definition allocpid : M pstate Z :=
  acquire LK_pid ;;;
  do pid <- kgets ps_nextpid;
  kmod (set_nextpid (s32 (pid + 1))) ;;;
  release LK_pid ;;;
  kret pid.

Definition freeproc (i : nat) : M pstate unit :=
  do p <- getp i;
  (if p_trapframe p =? 0 then kret tt else zoom mem_lens (kfree kend (p_trapframe p))) ;;;
  modp i (set_trapframe 0) ;;;
  (if p_pgtbl p =? 0 then kret tt else zoom mem_lens (proc_freepagetable kend (p_pgtbl p) (p_size p))) ;;;
  modp i (set_pgtbl 0) ;;;
  modp i (set_size 0) ;;;
  modp i (set_pid 0) ;;;
  modp i (set_parent None) ;;;
  modp i (λ p, set_name (<[0%nat:=0]> (p_name p)) p) ;;;
  modp i (set_chan None) ;;;
  modp i (set_killed 0) ;;;
  modp i (set_xstate 0) ;;;
  modp i (set_state UNUSED).

(** The search of [allocproc] from slot [i]; the slot is returned with its lock held. *)
Fixpoint find_unused (n i : nat) : M pstate (option nat) :=
  match n with
  | O => kret None
  | S n' =>
      acquire (LK_proc i) ;;;
      do p <- getp i;
      if decide (p_state p = UNUSED) then kret (Some i)
      else release (LK_proc i) ;;; find_unused n' (S i)
  end.

Definition context0 : context := mkcontext 0 0 (replicate 12 0).

(** [allocproc] after the label [found]. *)
Definition allocproc_found (i : nat) : M pstate (option nat) :=
  do pid <- allocpid;
  modp i (set_pid pid) ;;;
  modp i (set_state USED) ;;;
  do tf <- zoom mem_lens kalloc;
  modp i (set_trapframe tf) ;;;
  if tf =? 0 then
    freeproc i ;;; release (LK_proc i) ;;; kret None
  else
    do pt <- zoom mem_lens (proc_pagetable kend trampoline tf);
    modp i (set_pgtbl pt) ;;;
    if pt =? 0 then
      freeproc i ;;; release (LK_proc i) ;;; kret None
    else
      modp i (λ p, set_context (mkcontext forkret (p_kstack p + PGSIZE) (replicate 12 0)) p) ;;;
      kret (Some i).

Definition allocproc : M pstate (option nat) :=
  do r <- find_unused NPROC 0;
  match r with
  | None => kret None
  | Some i => allocproc_found i
  end.

Definition growproc (n : Z) : M pstate Z :=
  do i <- myproc;
  do p <- getp i;
  let sz := p_size p in
  if 0 <? n then
    if TRAPFRAME <? u64 (sz + n) then kret (-1)
    else
      do sz' <- zoom mem_lens (uvmalloc kend (p_pgtbl p) sz (u64 (sz + n)) PTE_W);
      if sz' =? 0 then kret (-1)
      else modp i (set_size sz') ;;; kret 0
  else if n <? 0 then
    do sz' <- zoom mem_lens (uvmdealloc kend (p_pgtbl p) sz (u64 (sz + n)));
    modp i (set_size sz') ;;; kret 0
  else modp i (set_size sz) ;;; kret 0.

(** ** Sleeping, waking and switching *)

(** The tests [sched] makes before [swtch]; [mycpu()->noff] is the number of locks held. *)
Definition sched : M pstate unit := λ c s,
  match ps_cur s with
  | None => Panic "undefined behaviour: myproc() == 0"
  | Some i =>
      if decide (LK_proc i ∉ held c) then Panic "sched p->lock"
      else if negb (length (held c) =? 1)%nat then Panic "sched locks"
      else match ps_proc s !! i with
           | None => Panic "undefined behaviour: proc[i]"
           | Some p => if decide (p_state p = RUNNING) then Panic "sched RUNNING" else Ret tt c s
           end
  end.

(** [yield] up to the switch to the scheduler. *)
Definition yield_enter : M pstate unit :=
  do i <- myproc;
  acquire (LK_proc i) ;;;
  modp i (set_state RUNNABLE) ;;;
  sched.

(** [yield] after it: the scheduler acquired p->lock again before switching back. *)
Definition yield_leave : M pstate unit :=
  do i <- myproc;
  release (LK_proc i).

(** [sleep] up to the switch to the scheduler, and after it. *)
Definition sleep_enter (ch : chan) (lk : lock) : M pstate unit :=
  do i <- myproc;
  acquire (LK_proc i) ;;;
  release lk ;;;
  modp i (set_chan (Some ch)) ;;;
  modp i (set_state SLEEPING) ;;;
  sched.

Definition sleep_leave (lk : lock) : M pstate unit :=
  do i <- myproc;
  modp i (set_chan None) ;;;
  release (LK_proc i) ;;;
  acquire lk.

(** The body of the loop of [wakeup] for slot [i]. *)
Definition wakeup_one (ch : chan) (i : nat) : M pstate unit :=
  do s <- kget;
  if decide (ps_cur s = Some i) then kret tt
  else
    acquire (LK_proc i) ;;;
    do p <- getp i;
    (if decide (p_state p = SLEEPING ∧ p_chan p = Some ch)
     then modp i (set_state RUNNABLE) else kret tt) ;;;
    release (LK_proc i).

Definition pwakeup (ch : chan) : M pstate unit := kfor NPROC 0 (λ i, wakeup_one ch (Z.to_nat i)).

(** The part of one iteration of the scheduler's loop before [swtch]: true when [proc[i]] was
    chosen, with p->lock held. *)
Definition sched_pick (i : nat) : M pstate bool :=
  acquire (LK_proc i) ;;;
  do p <- getp i;
  if decide (p_state p = RUNNABLE) then
    modp i (set_state RUNNING) ;;;
    kmod (set_cur (Some i)) ;;;
    kret true
  else
    release (LK_proc i) ;;;
    kret false.

(** The part after [swtch] comes back. *)
Definition sched_back (i : nat) : M pstate unit :=
  kmod (set_cur None) ;;;
  release (LK_proc i).

(** One pass of the loop of [scheduler] over the table, where [run i] is what happens between the
    two switches while [proc[i]] runs.  The result is [found]. *)
Fixpoint scheduler_pass (run : nat → M pstate unit) (n i : nat) (found : bool) : M pstate bool :=
  match n with
  | O => kret found
  | S n' =>
      do picked <- sched_pick i;
      if (picked : bool) then run i ;;; sched_back i ;;; scheduler_pass run n' (S i) true
      else scheduler_pass run n' (S i) found
  end.

(** ** Exit, wait and kill *)

(** The body of the loop of [reparent]. *)
Definition reparent_one (p : nat) (pp : nat) : M pstate unit :=
  do q <- getp pp;
  if decide (p_parent q = Some p) then
    do ip <- kgets ps_initproc;
    modp pp (set_parent ip) ;;;
    match ip with Some ini => pwakeup (CH_proc ini) | None => undefined "wakeup(0)" end
  else kret tt.

Definition reparent (p : nat) : M pstate unit := kfor NPROC 0 (λ i, reparent_one p (Z.to_nat i)).

(** [kexit] from the acquisition of wait_lock on. *)
Definition exit_tail (status : Z) : M pstate unit :=
  do p <- myproc;
  acquire LK_wait ;;;
  reparent p ;;;
  do q <- getp p;
  match p_parent q with Some pa => pwakeup (CH_proc pa) | None => undefined "wakeup(0)" end ;;;
  acquire (LK_proc p) ;;;
  modp p (set_xstate status) ;;;
  modp p (set_state ZOMBIE) ;;;
  release LK_wait ;;;
  sched.

(** What the scan of [kwait] found. *)
Inductive wait_res :=
  | WReaped (pid : Z)              (* both locks released, return pid *)
  | WFault                         (* copyout failed, return -1 *)
  | WScan (havekids : bool).

(** The loop of [kwait] over the table, from slot [i]. *)
Fixpoint kwait_scan (p : nat) (addr : Z) (n i : nat) (havekids : bool) : M pstate wait_res :=
  match n with
  | O => kret (WScan havekids)
  | S n' =>
      do q <- getp i;
      if decide (p_parent q = Some p) then
        acquire (LK_proc i) ;;;
        do q <- getp i;
        if decide (p_state q = ZOMBIE) then
          let pid := p_pid q in
          do pr <- getp p;
          do r <- (if addr =? 0 then kret 0
                   else copyout_bytes (p_pgtbl pr) addr (word_bytes 4 (u32 (p_xstate q))));
          if r <? 0 then
            release (LK_proc i) ;;; release LK_wait ;;; kret WFault
          else
            freeproc i ;;; release (LK_proc i) ;;; release LK_wait ;;; kret (WReaped pid)
        else
          release (LK_proc i) ;;;
          kwait_scan p addr n' (S i) true
      else kwait_scan p addr n' (S i) havekids
  end.

(** One pass of the loop of [kwait]; a process that sleeps runs it again when woken. *)
Definition kwait (addr : Z) : M pstate Z :=
  do p <- myproc;
  acquire LK_wait ;;;
  do r <- kwait_scan p addr NPROC 0 false;
  match r with
  | WReaped pid => kret pid
  | WFault => kret (-1)
  | WScan havekids =>
      do q <- getp p;
      if negb havekids || negb (p_killed q =? 0) then release LK_wait ;;; kret (-1)
      else sleep (CH_proc p) LK_wait
  end.

Fixpoint kkill_loop (pid : Z) (n i : nat) : M pstate Z :=
  match n with
  | O => kret (-1)
  | S n' =>
      acquire (LK_proc i) ;;;
      do p <- getp i;
      if p_pid p =? pid then
        modp i (set_killed 1) ;;;
        (if decide (p_state p = SLEEPING) then modp i (set_state RUNNABLE) else kret tt) ;;;
        release (LK_proc i) ;;;
        kret 0
      else
        release (LK_proc i) ;;;
        kkill_loop pid n' (S i)
  end.

(** The last step of [kfork]: the new process becomes runnable. *)
Definition publish (np : nat) : M pstate unit :=
  acquire (LK_proc np) ;;; modp np (set_state RUNNABLE) ;;; release (LK_proc np).

Definition kkill (pid : Z) : M pstate Z := kkill_loop pid NPROC 0.

Definition setkilled (i : nat) : M pstate unit :=
  acquire (LK_proc i) ;;; modp i (set_killed 1) ;;; release (LK_proc i).

Definition killed (i : nat) : M pstate Z :=
  acquire (LK_proc i) ;;;
  do p <- getp i;
  release (LK_proc i) ;;;
  kret (p_killed p).

(** ** Trapframes

    Offsets in [struct trapframe]. *)
Definition TF_kernel_satp : Z := 0.
Definition TF_kernel_sp : Z := 8.
Definition TF_kernel_trap : Z := 16.
Definition TF_epc : Z := 24.
Definition TF_kernel_hartid : Z := 32.
Definition TF_sp : Z := 48.
Definition TF_a (n : Z) : Z := 112 + 8 * n.
Definition sizeof_trapframe : Z := 288.

(** [p->trapframe->f] of the running process. *)
Definition tf_get (off : Z) : M pstate Z :=
  do i <- myproc;
  do p <- getp i;
  kgets (λ s, load64 (kmem_mem (ps_mem s)) (p_trapframe p + off)).
Definition tf_set (off v : Z) : M pstate unit :=
  do i <- myproc;
  do p <- getp i;
  kmod (λ s, set_pmem (set_mem (store64 (kmem_mem (ps_mem s)) (p_trapframe p + off) v) (ps_mem s)) s).

(** [prepare_return]: the fields it writes; [satp], [usertrap] and [hartid] are the values of the
    registers and of the function's address.  The result is the value written to sepc. *)
Definition prepare_return (satp usertrap hartid : Z) : M pstate Z :=
  do i <- myproc;
  do p <- getp i;
  tf_set TF_kernel_satp satp ;;;
  tf_set TF_kernel_sp (p_kstack p + PGSIZE) ;;;
  tf_set TF_kernel_trap usertrap ;;;
  tf_set TF_kernel_hartid hartid ;;;
  tf_get TF_epc.
End proc.

(** ** Lemmas: the process table *)

Section table.
Implicit Types (s : pstate) (c : kctx) (i j : nat) (p : proc) (l : list proc).

Lemma set_procs_id s : set_procs (ps_proc s) s = s.
Proof. by destruct s. Qed.

Lemma set_procs_twice l l' s : set_procs l (set_procs l' s) = set_procs l s.
Proof. done. Qed.

Lemma getp_run i c s p : ps_proc s !! i = Some p → getp i c s = Ret p c s.
Proof. intros E. unfold getp. kexec. by rewrite E. Qed.

Lemma modp_run i f c s : modp i f c s = Ret tt c (set_procs (alter f i (ps_proc s)) s).
Proof. done. Qed.

Lemma myproc_run i c s : ps_cur s = Some i → myproc c s = Ret i c s.
Proof. intros E. unfold myproc. kexec. by rewrite E. Qed.

(** Applying [f j] to the slots [j] of a range. *)
Definition map_range (f : nat → proc → proc) (i n : nat) l : list proc :=
  imap (λ j p, if decide (i ≤ j < i + n)%nat then f j p else p) l.

Lemma lookup_map_range f i n l j :
  map_range f i n l !! j = (λ p, if decide (i ≤ j < i + n)%nat then f j p else p) <$> l !! j.
Proof. unfold map_range. by rewrite list_lookup_imap. Qed.

Lemma length_map_range f i n l : length (map_range f i n l) = length l.
Proof. apply length_imap. Qed.

(** A loop over the table whose body rewrites its own slot. *)
Lemma kfor_slots (body : Z → M pstate unit) (f : nat → proc → proc) c n : ∀ i s,
  (i + n ≤ length (ps_proc s))%nat →
  (∀ j s' p, (i ≤ j < i + n)%nat → ps_proc s' !! j = Some p → ps_cur s' = ps_cur s →
     ps_initproc s' = ps_initproc s →
     body (Z.of_nat j) c s' = Ret tt c (set_procs (alter (f j) j (ps_proc s')) s')) →
  kfor n (Z.of_nat i) body c s = Ret tt c (set_procs (map_range f i n (ps_proc s)) s).
Proof.
  induction n as [|n IH]; intros i s Hlen Hbody; cbn [kfor].
  - unfold kret. f_equal. rewrite <- (set_procs_id s) at 1. f_equal. apply list_eq. intros j.
    rewrite lookup_map_range. destruct (_ !! j); [|done]. simpl. by rewrite decide_False by lia.
  - destruct (lookup_lt_is_Some_2 (ps_proc s) i) as [p Hp]; [lia|].
    erewrite kbind_ret by (apply (Hbody i s p); [lia|done..]). cbn beta.
    replace (Z.of_nat i + 1) with (Z.of_nat (S i)) by lia. rewrite IH.
    + f_equal. rewrite set_procs_twice. f_equal. apply list_eq. intros j. cbn [ps_proc set_procs].
      rewrite !lookup_map_range. destruct (decide (i = j)) as [->|Hne].
      * rewrite list_lookup_alter_eq. destruct (ps_proc s !! j) as [q|]; [|done]. simpl.
        rewrite decide_False by lia. by rewrite decide_True by lia.
      * rewrite list_lookup_alter_ne by done. destruct (ps_proc s !! j) as [q|]; [|done]. simpl.
        repeat case_decide; try lia; done.
    + cbn [ps_proc set_procs]. rewrite length_alter. lia.
    + intros j s' p' Hj Hp' Hcur Hini. apply (Hbody j s' p'); [lia|done..].
Qed.
End table.

(** ** Scheduling states

    What an operation does to the [p_state] fields. *)

Section states.
Implicit Types (s : pstate) (c : kctx) (i j : nat) (p : proc) (x y : procstate).

Definition states s : list procstate := p_state <$> ps_proc s.

(** No scheduling state changed. *)
Definition same_states s s' : Prop := states s' = states s ∧ ps_cur s' = ps_cur s.

#[global] Instance same_states_equiv : Equivalence same_states.
Proof.
  split; [done|..].
  - intros s t [H1 H2]. split; congruence.
  - intros s t u [H1 H2] [H3 H4]. split; congruence.
Qed.

(** [m] changes no scheduling state, whether it returns or sleeps. *)
Definition quiet {A} (m : M pstate A) : Prop := ∀ c s,
  match m c s with Ret _ _ s' | Asleep _ _ s' => same_states s s' | _ => True end.

Lemma quiet_bind {A B} (m : M pstate A) (f : A → M pstate B) :
  quiet m → (∀ a, quiet (f a)) → quiet (kbind m f).
Proof.
  intros Hm Hf c s. unfold kbind. specialize (Hm c s). destruct (m c s) as [a c' s'| | |]; try done.
  specialize (Hf a c' s'). destruct (f a c' s'); try done; by etrans.
Qed.

Lemma quiet_if {A} (b : bool) (m m' : M pstate A) :
  quiet m → quiet m' → quiet (if b then m else m').
Proof. by destruct b. Qed.

Lemma quiet_decide {A} (P : Prop) `{Decision P} (m m' : M pstate A) :
  quiet m → quiet m' → quiet (if decide P then m else m').
Proof. by case_decide. Qed.

Lemma quiet_kfor n (i : Z) (body : Z → M pstate unit) : (∀ j : Z, quiet (body j)) → quiet (kfor n i body).
Proof.
  intros Hb. revert i. induction n as [|n IH]; intros i; cbn [kfor]; [done|].
  apply quiet_bind; [apply Hb|]. intros _. apply IH.
Qed.

Lemma quiet_ret {A} (a : A) : quiet (kret a).
Proof. done. Qed.
Lemma quiet_acquire l : quiet (acquire l).
Proof. intros c s. unfold acquire. by case_decide. Qed.
Lemma quiet_release l : quiet (release l).
Proof. intros c s. unfold release. by case_decide. Qed.
Lemma quiet_sleep {A} ch l : quiet (sleep ch l : M pstate A).
Proof. intros c s. unfold sleep. case_decide; [|done]. by destruct (drop_lock _ _). Qed.
Lemma quiet_getp i : quiet (getp i).
Proof. intros c s. unfold getp. kexec. by destruct (_ !! i). Qed.
Lemma quiet_myproc : quiet myproc.
Proof. intros c s. unfold myproc. kexec. by destruct (ps_cur s). Qed.
Lemma quiet_get : quiet kget.
Proof. done. Qed.
Lemma quiet_gets {A} (f : pstate → A) : quiet (kgets f).
Proof. done. Qed.
Lemma quiet_undefined {A} w : quiet (undefined w : M pstate A).
Proof. by intros c s. Qed.
Lemma quiet_zoom {A} (m : M kmem A) : quiet (zoom mem_lens m).
Proof. intros c s. unfold zoom. by destruct (m c _). Qed.
Lemma quiet_nextpid n : quiet (kmod (set_nextpid n)).
Proof. done. Qed.

Lemma quiet_modp i f : (∀ p, p_state (f p) = p_state p) → quiet (modp i f).
Proof.
  intros Hf c s. rewrite modp_run. split; [|done]. unfold states. cbn.
  apply list_eq. intros j. rewrite !list_lookup_fmap, list_lookup_alter. case_decide; [subst j|done].
  destruct (ps_proc s !! i) as [p|]; [|done]. simpl. by rewrite Hf.
Qed.

Lemma states_set_state i x c s :
  modp i (set_state x) c s = Ret tt c (set_procs (alter (set_state x) i (ps_proc s)) s) ∧
  states (set_procs (alter (set_state x) i (ps_proc s)) s) = <[i:=x]> (states s).
Proof.
  split; [done|]. unfold states. cbn. apply list_eq. intros j. rewrite list_lookup_fmap, list_lookup_alter.
  rewrite list_lookup_insert. rewrite list_lookup_fmap, length_fmap.
  repeat case_decide; try done; try (destruct_and?; done); try subst.
  - destruct (ps_proc s !! j) as [p|] eqn:E; [done|]. apply lookup_ge_None in E. lia.
  - destruct (ps_proc s !! j) as [p|] eqn:E; [|done]. apply lookup_lt_Some in E. tauto.
Qed.
End states.

Create HintDb quiet.
#[global] Hint Resolve quiet_ret quiet_acquire quiet_release quiet_sleep quiet_getp quiet_myproc
  quiet_get quiet_gets quiet_undefined quiet_zoom quiet_nextpid : quiet.

(** [quiets] splits an operation into its statements. *)
Ltac quiets :=
  repeat first
    [ solve [auto with quiet]
    | apply quiet_bind; [|intros ?]
    | apply quiet_if
    | apply quiet_decide
    | apply quiet_kfor; intros ?
    | solve [apply quiet_modp; solve [auto with quiet] || done] ].

Lemma copyout_bytes_states kend pt va l : quiet (copyout_bytes kend pt va l).
Proof. unfold copyout_bytes. quiets. Qed.

(** ** Exact runs *)

Section runs.
Context (kend : Z).
Implicit Types (s : pstate) (c : kctx) (i j k : nat) (p q : proc).

(** No process lock is held. *)
Definition no_plock c : Prop := ∀ i, LK_proc i ∉ held c.

(** [wakeup(ch)] as seen by one process. *)
Definition woken_by (ch : chan) p : proc :=
  if decide (p_state p = SLEEPING ∧ p_chan p = Some ch) then set_state RUNNABLE p else p.

Definition wake_slot (ch : chan) (cur : option nat) i p : proc :=
  if decide (cur = Some i) then p else woken_by ch p.

Lemma release_self l c s : release l (set_held (l :: held c) c) s = Ret tt c s.
Proof.
  unfold release. cbn [held set_held]. rewrite decide_True by constructor. rewrite drop_lock_head.
  by destruct c.
Qed.

Lemma alter_id_some {A} (f : A → A) i (l : list A) x : l !! i = Some x → f x = x → alter f i l = l.
Proof.
  intros Hx Hf. apply list_eq. intros j. rewrite list_lookup_alter. case_decide; [subst|done]. by rewrite Hx; simpl; rewrite Hf.
Qed.

Lemma wakeup_one_run ch i c s p :
  no_plock c → ps_proc s !! i = Some p →
  wakeup_one ch i c s = Ret tt c (set_procs (alter (wake_slot ch (ps_cur s) i) i (ps_proc s)) s).
Proof.
  intros Hc Hp. unfold wakeup_one. kexec. case_decide as Hcur.
  - f_equal. rewrite (alter_id_some _ i _ p), set_procs_id; [done|done|]. unfold wake_slot. by rewrite decide_True.
  - rewrite acquire_ret by done. rewrite (getp_run i _ s p Hp). cbv beta.
    unfold kret, kbind, modp, kmod. case_decide as Hd.
    + rewrite release_self. do 2 f_equal. apply list_eq. intros j. rewrite !list_lookup_alter.
      case_decide; [subst j|done]. rewrite Hp. simpl. unfold wake_slot, woken_by. by rewrite decide_False, decide_True.
    + rewrite release_self. f_equal. rewrite (alter_id_some _ i _ p), set_procs_id; [done|done|].
      unfold wake_slot, woken_by. by rewrite !decide_False.
Qed.

Lemma pwakeup_run ch c s :
  no_plock c → length (ps_proc s) = NPROC →
  pwakeup ch c s = Ret tt c (set_procs (imap (wake_slot ch (ps_cur s)) (ps_proc s)) s).
Proof.
  intros Hc Hlen. unfold pwakeup. change 0 with (Z.of_nat 0).
  rewrite (kfor_slots _ (wake_slot ch (ps_cur s))).
  - do 2 f_equal. apply list_eq. intros j. rewrite lookup_map_range, list_lookup_imap.
    destruct (ps_proc s !! j) as [q|] eqn:E; [|done]. simpl. rewrite decide_True; [done|].
    apply lookup_lt_Some in E. lia.
  - lia.
  - intros j s' p _ Hp Hcur _. rewrite Nat2Z.id, <- Hcur. by eapply wakeup_one_run.
Qed.

(** *** The scheduler's pass *)

Lemma sched_pick_run i c s p :
  LK_proc i ∉ held c → ps_proc s !! i = Some p →
  sched_pick i c s =
    if decide (p_state p = RUNNABLE)
    then Ret true (set_held (LK_proc i :: held c) c)
           (set_cur (Some i) (set_procs (alter (set_state RUNNING) i (ps_proc s)) s))
    else Ret false c s.
Proof.
  intros Hc Hp. unfold sched_pick. kexec. rewrite acquire_ret by done. rewrite (getp_run i _ s p Hp). cbv beta.
  case_decide; [done|]. unfold kbind, kret. by rewrite release_self.
Qed.

(** What the code between the two switches does.  It starts as [scheduler] starts it: p->lock is the
    only lock, the process is RUNNING and the CPU's own.  It comes back to the scheduler with p->lock as
    the only lock, and other processes that were runnable still are. *)
Definition comes_back (run : nat → M pstate unit) : Prop := ∀ i c s,
  held c = [LK_proc i] → length (ps_proc s) = NPROC → ps_cur s = Some i → states s !! i = Some RUNNING →
  ∃ c' s', run i c s = Ret tt c' s' ∧ held c' = [LK_proc i] ∧ length (ps_proc s') = NPROC ∧
    ∀ j, j ≠ i → states s !! j = Some RUNNABLE → states s' !! j = Some RUNNABLE.

(** What a process does between getting the CPU and giving it up, without the ends of [yield]: it
    returns without locks, is still the running process, and other runnable processes still are. *)
Definition works (work : nat → M pstate unit) : Prop := ∀ i c s,
  held c = [] → length (ps_proc s) = NPROC → ps_cur s = Some i → states s !! i = Some RUNNING →
  ∃ c' s', work i c s = Ret tt c' s' ∧ held c' = [] ∧ length (ps_proc s') = NPROC ∧ ps_cur s' = Some i ∧
    ∀ j, j ≠ i → states s !! j = Some RUNNABLE → states s' !! j = Some RUNNABLE.

Lemma states_lt s i x : states s !! i = Some x → (i < length (ps_proc s))%nat.
Proof. intros E%lookup_lt_Some. unfold states in E. by rewrite length_fmap in E. Qed.

(** The end of [yield], any work, and the beginning of the next [yield]. *)
Lemma yield_comes_back work : works work → comes_back (λ i, yield_leave ;;; work i ;;; yield_enter).
Proof.
  intros Hw i c s Hc Hlen Hcur Hi. pose proof (states_lt _ _ _ Hi) as Hlt. unfold yield_leave. rewrite kbind_assoc.
  rewrite (kbind_ret _ _ _ _ _ _ _ (myproc_run i c s Hcur)).
  assert (Er : release (LK_proc i) c s = Ret tt (set_held [] c) s)
    by (unfold release; by rewrite Hc, decide_True, drop_lock_head by constructor).
  rewrite (kbind_ret _ _ _ _ _ _ _ Er).
  destruct (Hw i (set_held [] c) s) as (c1 & s1 & E & Hc1 & Hlen1 & Hcur1 & Hk); [done..|].
  rewrite (kbind_ret _ _ _ _ _ _ _ E). unfold yield_enter. rewrite (kbind_ret _ _ _ _ _ _ _ (myproc_run i c1 s1 Hcur1)).
  erewrite kbind_ret by (apply acquire_ret; rewrite Hc1; set_solver). rewrite Hc1, (kbind_ret _ _ _ _ _ _ _ (modp_run _ _ _ _)).
  destruct (lookup_lt_is_Some_2 (ps_proc s1) i) as [p Hp]; [lia|].
  unfold sched. cbn [ps_cur set_procs ps_proc held set_held]. rewrite Hcur1, decide_False by set_solver. cbn [length Nat.eqb negb].
  rewrite list_lookup_alter_eq, Hp. cbn [fmap option_fmap option_map]. rewrite decide_False by done. do 2 eexists. split; [done|]. split; [done|]. cbn [ps_proc set_procs].
  split; [by rewrite length_alter|]. intros j Hj Hs. rewrite (proj2 (states_set_state i RUNNABLE c1 s1)), list_lookup_insert_ne by done. auto.
Qed.

(** One slot of the pass. *)
Lemma scheduler_slot run n i found c s p : comes_back run → held c = [] → length (ps_proc s) = NPROC → ps_proc s !! i = Some p →
  ∃ c' s', scheduler_pass run (S n) i found c s =
      scheduler_pass run n (S i) (if decide (p_state p = RUNNABLE) then true else found) c' s' ∧
    held c' = [] ∧ length (ps_proc s') = NPROC ∧
    ∀ j, j ≠ i → states s !! j = Some RUNNABLE → states s' !! j = Some RUNNABLE.
Proof.
  intros Hrun Hc Hlen Hp. assert (Hi : states s !! i = Some (p_state p)) by (unfold states; by rewrite list_lookup_fmap, Hp).
  cbn [scheduler_pass]. unfold kbind at 1. rewrite (sched_pick_run i c s p) by (done || rewrite Hc; set_solver).
  case_decide as Hst; [|by exists c, s]. destruct (states_set_state i RUNNING c s) as [_ Es]. set (sp := set_procs _ s) in *.
  destruct (Hrun i (set_held (LK_proc i :: held c) c) (set_cur (Some i) sp)) as (c' & s' & E & Hc' & Hlen' & Hkeep).
  { cbn. by rewrite Hc. }
  { cbn. by rewrite length_alter. }
  { done. }
  { change (states (set_cur (Some i) sp)) with (states sp). rewrite Es. apply list_lookup_insert_eq. by eapply lookup_lt_Some. }
  rewrite (kbind_ret _ _ _ _ _ _ _ E). unfold sched_back. unfold kbind at 1. unfold kbind at 1, kmod, release.
  rewrite Hc', decide_True, drop_lock_head by constructor. do 2 eexists. split; [done|]. split; [done|]. split; [done|].
  intros j Hj Hs. apply Hkeep; [done|]. change (states (set_cur (Some i) sp)) with (states sp). by rewrite Es, list_lookup_insert_ne.
Qed.

Lemma scheduler_pass_ends run : comes_back run → ∀ n i found c s,
  (i + n = NPROC)%nat → held c = [] → length (ps_proc s) = NPROC →
  ∃ found' c' s', scheduler_pass run n i found c s = Ret found' c' s' ∧ held c' = [] ∧ (found = true → found' = true).
Proof.
  intros Hrun n. induction n as [|n IH]; intros i found c s Hn Hc Hlen; [by exists found, c, s|].
  destruct (lookup_lt_is_Some_2 (ps_proc s) i) as [p Hp]; [lia|].
  destruct (scheduler_slot run n i found c s p Hrun Hc Hlen Hp) as (c1 & s1 & -> & Hc1 & Hlen1 & _).
  destruct (IH (S i) (if decide (p_state p = RUNNABLE) then true else found) c1 s1) as (f & c' & s' & E & Hc' & Hf); [lia|done..|].
  exists f, c', s'. split_and!; [done..|]. intros ->. apply Hf. by case_decide.
Qed.

Lemma scheduler_pass_reaches run : comes_back run → ∀ n i found c s j,
  (i + n = NPROC)%nat → held c = [] → length (ps_proc s) = NPROC → states s !! j = Some RUNNABLE → (i ≤ j)%nat →
  ∃ c1 s1, held c1 = [LK_proc j] ∧ ps_cur s1 = Some j ∧ states s1 !! j = Some RUNNING ∧ length (ps_proc s1) = NPROC ∧
    scheduler_pass run n i found c s = (run j ;;; sched_back j ;;; scheduler_pass run (NPROC - S j) (S j) true) c1 s1.
Proof.
  intros Hrun n. induction n as [|n IH]; intros i found c s j Hn Hc Hlen Hj Hij.
  { apply states_lt in Hj. lia. }
  pose proof (states_lt _ _ _ Hj) as Hlt. destruct (lookup_lt_is_Some_2 (ps_proc s) i) as [p Hp]; [lia|].
  destruct (decide (i = j)) as [->|Hne].
  - assert (p_state p = RUNNABLE) by (unfold states in Hj; rewrite list_lookup_fmap, Hp in Hj; by injection Hj).
    cbn [scheduler_pass]. unfold kbind at 1. rewrite (sched_pick_run j c s p) by (done || rewrite Hc; set_solver).
    rewrite decide_True by done. destruct (states_set_state j RUNNING c s) as [_ Es].
    exists (set_held (LK_proc j :: held c) c), (set_cur (Some j) (set_procs (alter (set_state RUNNING) j (ps_proc s)) s)).
    split; [cbn; by rewrite Hc|]. split; [done|]. split; [|split; [cbn; by rewrite length_alter|by replace (NPROC - S j)%nat with n by lia]].
    assert (E : <[j:=RUNNING]> (states s) !! j = Some RUNNING) by (apply list_lookup_insert_eq; by eapply lookup_lt_Some).
    rewrite <- Es in E. exact E.
  - destruct (scheduler_slot run n i found c s p Hrun Hc Hlen Hp) as (c1 & s1 & -> & Hc1 & Hlen1 & Hk).
    apply IH; [lia|done|done|by apply Hk|lia].
Qed.

(** *** Exit *)

Definition has_child (me : nat) (l : list proc) : bool :=
  existsb (λ q, bool_decide (p_parent q = Some me)) l.

(** Slot [j] when the children of [p] among the first [n] slots have been given to [ini]: [kids] tells whether
    there was one, for which [ini] was woken. *)
Definition reparented (p ini : nat) (cur : option nat) (n : nat) (kids : bool) (j : nat) q : proc :=
  let q1 := if decide (p_parent q = Some p ∧ (j < n)%nat) then set_parent (Some ini) q else q in
  if kids then wake_slot (CH_proc ini) cur j q1 else q1.

Lemma woken_by_parent ch x q : woken_by ch (set_parent x q) = set_parent x (woken_by ch q).
Proof. unfold woken_by. cbn. by case_decide. Qed.

Lemma wake_slot_twice ch cur j q : wake_slot ch cur j (wake_slot ch cur j q) = wake_slot ch cur j q.
Proof. unfold wake_slot, woken_by. repeat case_decide; done. Qed.

Lemma wake_slot_parent ch cur j x q : wake_slot ch cur j (set_parent x q) = set_parent x (wake_slot ch cur j q).
Proof. unfold wake_slot. case_decide; [done|]. apply woken_by_parent. Qed.

Lemma wake_slot_keeps ch cur j q : p_parent (wake_slot ch cur j q) = p_parent q.
Proof. unfold wake_slot, woken_by. by repeat case_decide. Qed.

Lemma reparented_skip (p : nat) ini cur n kids j q :
  (j ≠ n ∨ p_parent q ≠ Some p) → reparented p ini cur (S n) kids j q = reparented p ini cur n kids j q.
Proof.
  intros Hne. unfold reparented.
  replace (if decide (p_parent q = Some p ∧ (j < S n)%nat) then set_parent (Some ini) q else q)
    with (if decide (p_parent q = Some p ∧ (j < n)%nat) then set_parent (Some ini) q else q); [done|].
  destruct (decide (p_parent q = Some p ∧ (j < n)%nat)), (decide (p_parent q = Some p ∧ (j < S n)%nat)); try done; exfalso; naive_solver lia.
Qed.

Lemma reparented_wake (p : nat) ini cur n kids j q :
  wake_slot (CH_proc ini) cur j (reparented p ini cur n kids j q) = reparented p ini cur n true j q.
Proof. unfold reparented. destruct kids; [|done]. apply wake_slot_twice. Qed.

Lemma reparented_child (p : nat) ini cur n kids q :
  p_parent q = Some p →
  wake_slot (CH_proc ini) cur n (set_parent (Some ini) (reparented p ini cur n kids n q)) = reparented p ini cur (S n) true n q.
Proof.
  intros Hp. unfold reparented. rewrite decide_False by lia. rewrite decide_True by (split; [done|lia]).
  destruct kids; [|done]. by rewrite !wake_slot_parent, wake_slot_twice.
Qed.

Lemma has_child_take (p n : nat) l q : l !! n = Some q →
  has_child p (take (S n) l) = has_child p (take n l) || bool_decide (p_parent q = Some p).
Proof. intros E. unfold has_child. rewrite (take_S_r _ _ _ E), existsb_app. simpl. by rewrite orb_false_r. Qed.

Definition reparent_to (p ini : nat) (cur : option nat) (n : nat) (l : list proc) : list proc :=
  imap (reparented p ini cur n (has_child p (take n l))) l.

Lemma reparent_step (p : nat) ini c s n :
  no_plock c → length (ps_proc s) = NPROC → ps_initproc s = Some ini → (n < NPROC)%nat →
  reparent_one p n c (set_procs (reparent_to p ini (ps_cur s) n (ps_proc s)) s) =
    Ret tt c (set_procs (reparent_to p ini (ps_cur s) (S n) (ps_proc s)) s).
Proof.
  intros Hc Hlen Hini Hn. destruct (lookup_lt_is_Some_2 (ps_proc s) n) as [q Hq]; [lia|].
  set (kids := has_child p (take n (ps_proc s))).
  assert (Hs : ps_proc (set_procs (reparent_to p ini (ps_cur s) n (ps_proc s)) s) !! n = Some (reparented p ini (ps_cur s) n kids n q)).
  { cbn. unfold reparent_to. by rewrite list_lookup_imap, Hq. }
  assert (Hpar : p_parent (reparented p ini (ps_cur s) n kids n q) = p_parent q).
  { unfold reparented. rewrite decide_False by lia. destruct kids; [apply wake_slot_keeps|done]. }
  unfold reparent_one. rewrite (kbind_ret _ _ _ _ _ _ _ (getp_run _ _ _ _ Hs)), Hpar. unfold reparent_to.
  rewrite (has_child_take _ _ _ _ Hq). fold kids. case_decide as Hch.
  - rewrite bool_decide_true, orb_true_r by done. unfold kbind, kgets. cbn [ps_initproc set_procs]. rewrite Hini, modp_run.
    rewrite pwakeup_run; [|done|cbn; by rewrite length_alter, length_imap]. rewrite !set_procs_twice. f_equal. f_equal.
    change (ps_cur (set_procs _ s)) with (ps_cur s). cbn [ps_proc set_procs]. apply list_eq. intros j. rewrite !list_lookup_imap, list_lookup_alter, !list_lookup_imap.
    destruct (decide (n = j)) as [<-|Hne]; [rewrite Hq; cbn [fmap option_fmap option_map]; f_equal; by apply reparented_child|].
    destruct (ps_proc s !! j) as [q1|]; [|done]. cbn [fmap option_fmap option_map]. f_equal. by rewrite reparented_wake, reparented_skip by auto.
  - rewrite bool_decide_false, orb_false_r by done. unfold kret. do 2 f_equal. apply imap_ext. intros j q1 Hq1. symmetry.
    apply reparented_skip. destruct (decide (j = n)) as [->|]; [right; congruence|by left].
Qed.

Lemma reparent_run (p : nat) ini c s :
  no_plock c → length (ps_proc s) = NPROC → ps_initproc s = Some ini →
  reparent p c s = Ret tt c (set_procs (reparent_to p ini (ps_cur s) NPROC (ps_proc s)) s).
Proof.
  intros Hc Hlen Hini. unfold reparent.
  cut (∀ n i, (i + n = NPROC)%nat →
    kfor n (Z.of_nat i) (λ i : Z, reparent_one p (Z.to_nat i)) c (set_procs (reparent_to p ini (ps_cur s) i (ps_proc s)) s) =
      Ret tt c (set_procs (reparent_to p ini (ps_cur s) NPROC (ps_proc s)) s)).
  { intros H. rewrite <- (H NPROC 0%nat eq_refl). f_equal. rewrite <- (set_procs_id s) at 1. f_equal.
    apply list_eq. intros j. unfold reparent_to, reparented. rewrite list_lookup_imap. destruct (ps_proc s !! j); [|done].
    cbn. by rewrite decide_False by lia. }
  induction n as [|n IH]; intros i Hn; cbn [kfor]; [by replace NPROC with i by lia|].
  rewrite Nat2Z.id, (kbind_ret _ _ _ _ _ _ _ (reparent_step p ini c s i Hc Hlen Hini ltac:(lia))).
  replace (Z.of_nat i + 1) with (Z.of_nat (S i)) by lia. apply IH. lia.
Qed.

(** Slot [j] after [exit_tail] of process [i] with parent [pa]; [kids] tells whether [i] had children. *)
Definition after_exit (status : Z) (i ini pa : nat) (kids : bool) (j : nat) q : proc :=
  if decide (j = i) then set_state ZOMBIE (set_xstate status q)
  else
    let q1 := if decide (p_parent q = Some i) then set_parent (Some ini) q else q in
    if decide (p_state q = SLEEPING ∧ (p_chan q = Some (CH_proc pa) ∨ kids = true ∧ p_chan q = Some (CH_proc ini)))
    then set_state RUNNABLE q1 else q1.

Lemma after_exit_other status (i ini pa : nat) kids j q : j ≠ i → (j < NPROC)%nat →
  woken_by (CH_proc pa) (reparented i ini (Some i) NPROC kids j q) = after_exit status i ini pa kids j q.
Proof.
  intros Hj Hn. unfold after_exit, reparented, wake_slot. rewrite (decide_False (P := j = i)) by done.
  rewrite (decide_False (P := Some i = Some j)) by congruence.
  destruct (decide (p_parent q = Some i)) as [Hp|Hp];
    [rewrite decide_True by done|rewrite (decide_False (P := p_parent q = Some i ∧ _)) by tauto];
    unfold woken_by; destruct kids; cbn; repeat case_decide; cbn in *; try done; exfalso; naive_solver.
Qed.

Lemma exit_tail_run status (i ini pa : nat) c s p :
  held c = [] → length (ps_proc s) = NPROC → ps_cur s = Some i → ps_proc s !! i = Some p →
  p_parent p = Some pa → pa ≠ i → ps_initproc s = Some ini →
  exit_tail status c s =
    Ret tt (set_held [LK_proc i] c)
      (set_procs (imap (after_exit status i ini pa (has_child i (ps_proc s))) (ps_proc s)) s).
Proof.
  intros Hc Hlen Hcur Hp Hpa Hne Hini. set (kids := has_child i (ps_proc s)).
  assert (Hself : reparented i ini (Some i) NPROC kids i p = p).
  { unfold reparented, wake_slot. rewrite Hpa, (decide_True (P := Some i = Some i)) by done.
    rewrite decide_False by (intros [[= ->] _]; done). by destruct kids. }
  unfold exit_tail. rewrite (kbind_ret _ _ _ _ _ _ _ (myproc_run i c s Hcur)).
  erewrite kbind_ret by (apply acquire_ret; rewrite Hc; set_solver). rewrite Hc.
  set (c1 := set_held [LK_wait] c). assert (Hc1 : no_plock c1) by (intros k; cbn; set_solver).
  rewrite (kbind_ret _ _ _ _ _ _ _ (reparent_run i ini c1 s Hc1 Hlen Hini)), Hcur. unfold reparent_to. rewrite take_ge by lia. fold kids.
  set (s1 := set_procs _ s). assert (Hp1 : ps_proc s1 !! i = Some p) by (cbn; rewrite list_lookup_imap, Hp; cbn; by rewrite Hself).
  rewrite (kbind_ret _ _ _ _ _ _ _ (getp_run i c1 s1 p Hp1)), Hpa.
  erewrite kbind_ret by (apply pwakeup_run; [done|cbn; by rewrite length_imap]).
  change (ps_cur s1) with (ps_cur s). rewrite Hcur. set (s2 := set_procs _ s1).
  assert (Hp2 : ps_proc s2 !! i = Some p).
  { cbn. rewrite list_lookup_imap. change (imap _ _) with (ps_proc s1). rewrite Hp1. cbn. unfold wake_slot. by rewrite decide_True. }
  erewrite kbind_ret by (apply acquire_ret, Hc1). rewrite !(kbind_ret _ _ _ _ _ _ _ (modp_run _ _ _ _)).
  set (s3 := set_procs _ (set_procs _ s2)).
  assert (Hp3 : ps_proc s3 !! i = Some (set_state ZOMBIE (set_xstate status p))).
  { change (ps_proc s3) with (alter (set_state ZOMBIE) i (alter (set_xstate status) i (ps_proc s2))). by rewrite !list_lookup_alter_eq, Hp2. }
  unfold kbind, release. cbn [held set_held c1]. rewrite decide_True by set_solver.
  change (drop_lock LK_wait [LK_proc i; LK_wait]) with [LK_proc i].
  unfold sched. cbn [held set_held]. change (ps_cur s3) with (ps_cur s). rewrite Hcur.
  rewrite decide_False by set_solver. cbn [length Nat.eqb negb]. rewrite Hp3, decide_False by done. f_equal.
  change s3 with (set_procs (alter (set_state ZOMBIE) i (alter (set_xstate status) i (ps_proc s2))) s). f_equal.
  apply list_eq. intros j. rewrite list_lookup_imap. destruct (decide (j = i)) as [->|Hj].
  - rewrite !list_lookup_alter_eq, Hp2, Hp. cbn. unfold after_exit. by rewrite decide_True.
  - rewrite !list_lookup_alter_ne by done. cbn [ps_proc set_procs s2 s1]. rewrite !list_lookup_imap.
    destruct (ps_proc s !! j) as [q|] eqn:Hq; [|done]. cbn [fmap option_fmap option_map]. f_equal. unfold wake_slot at 1.
    rewrite decide_False by congruence. apply after_exit_other; [done|]. apply lookup_lt_Some in Hq. lia.
Qed.

(** *** Wait *)

(** [kwait] from the moment it has found the exited child [z], whose lock it holds; [K] is what it
    does with the result of the scan. *)
Definition reap (addr : Z) (me : proc) (z : nat) (K : wait_res → M pstate Z) : M pstate Z :=
  do q <- getp z;
  do r <- (if addr =? 0 then kret 0
           else copyout_bytes kend (p_pgtbl me) addr (word_bytes 4 (u32 (p_xstate q))));
  if r <? 0 then release (LK_proc z) ;;; release LK_wait ;;; K WFault
  else freeproc kend z ;;; release (LK_proc z) ;;; release LK_wait ;;; K (WReaped (p_pid q)).

(** The first exited child of [me] from slot [i] on. *)
Fixpoint first_zombie (me : nat) (l : list proc) (i : nat) : option nat :=
  match l with
  | [] => None
  | q :: l' =>
      if decide (p_parent q = Some me ∧ p_state q = ZOMBIE) then Some i else first_zombie me l' (S i)
  end.

Lemma kbind_if {A B} (b : bool) (m m' : M pstate A) (f : A → M pstate B) c s :
  kbind (if b then m else m') f c s = if b then kbind m f c s else kbind m' f c s.
Proof. by destruct b. Qed.

Lemma kwait_scan_run me addr c s pm (K : wait_res → M pstate Z) :
  no_plock c → ps_proc s !! me = Some pm → ∀ n i b, (i + n = length (ps_proc s))%nat →
  kbind (kwait_scan kend me addr n i b) K c s =
    match first_zombie me (drop i (ps_proc s)) i with
    | Some z => reap addr pm z K (set_held (LK_proc z :: held c) c) s
    | None => K (WScan (b || has_child me (drop i (ps_proc s)))) c s
    end.
Proof.
  intros Hc Hme n. induction n as [|n IH]; intros i b Hn; cbn [kwait_scan].
  { rewrite drop_ge by lia. simpl. by rewrite orb_false_r. }
  destruct (lookup_lt_is_Some_2 (ps_proc s) i) as [q Hq]; [lia|]. rewrite (drop_S _ _ _ Hq). cbn [first_zombie has_child existsb].
  rewrite kbind_assoc, (kbind_ret _ _ _ _ _ _ _ (getp_run i c s q Hq)). fold (has_child me (drop (S i) (ps_proc s))).
  destruct (decide (p_parent q = Some me)) as [Hch|Hch].
  2:{ rewrite decide_False by tauto. rewrite bool_decide_eq_false_2 by done. apply IH. lia. }
  rewrite bool_decide_eq_true_2 by done. rewrite kbind_assoc, (kbind_ret _ _ _ _ _ _ _ (acquire_ret _ _ _ (Hc i))).
  rewrite kbind_assoc, (kbind_ret _ _ _ _ _ _ _ (getp_run i _ s q Hq)).
  destruct (decide (p_state q = ZOMBIE)) as [Hz|Hz].
  - rewrite decide_True by done. unfold reap. rewrite (kbind_ret _ _ _ _ _ _ _ (getp_run i _ s q Hq)).
    rewrite kbind_assoc, (kbind_ret _ _ _ _ _ _ _ (getp_run me _ s pm Hme)). rewrite kbind_assoc.
    apply kbind_ext. intros r c' s'. rewrite kbind_if.
    destruct (r <? 0); repeat (rewrite kbind_assoc; apply kbind_ext; intros ? ? ?); done.
  - rewrite decide_False by tauto. rewrite kbind_assoc, (kbind_ret _ _ _ _ _ _ _ (release_self _ _ _)).
    rewrite IH by lia. simpl. by rewrite orb_true_r.
Qed.
End runs.

(** ** A small table *)

Definition demo_proc : proc :=
  mkproc UNUSED None 0 0 0 None 0 0 0 0 context0 (replicate NOFILE None) None [0].
(** Slot 0 is runnable with pid 1, the others are free. *)
Definition demo_table : list proc := set_pid 1 (set_state RUNNABLE demo_proc) :: replicate 63 demo_proc.
Definition demo_ps : pstate := mkps demo_kmem demo_table 2 (Some 0%nat) None 0 false.
(** Slot 0 sleeps in kwait and its child, slot 1, runs. *)
Definition demo_exit : pstate :=
  mkps demo_kmem (set_chan (Some (CH_proc 0)) (set_state SLEEPING demo_proc) ::
    set_pid 5 (set_parent (Some 0%nat) (set_state RUNNING demo_proc)) :: replicate 62 demo_proc)
    6 (Some 0%nat) (Some 1%nat) 0 false.
(** Memory with the free pages 1 to 5. *)
Definition vm_mem5 : mem :=
  store64 (store64 (store64 (store64 (λ _, 0) (vm_page 1) (vm_page 2)) (vm_page 2) (vm_page 3))
    (vm_page 3) (vm_page 4)) (vm_page 4) (vm_page 5).

Lemma demo_not_running i : states demo_ps !! i ≠ Some RUNNING.
Proof.
  unfold demo_ps, demo_table, states. cbn [ps_proc]. rewrite fmap_cons, fmap_replicate.
  destruct i as [|i]; [done|]. rewrite lookup_cons. intros [? _]%lookup_replicate. done.
Qed.

(** ** Properties *)

(** C27. A pass of the scheduler of one CPU over the table while no other CPU works on it.  A process that
    is given the CPU (RUNNING, with p->lock the only lock held) is assumed to come back to the scheduler
    with only that lock held and to leave other runnable processes runnable; the ends of yield around any such work do that.
    Then every process that is RUNNABLE when the pass starts is reached, set RUNNING, made the CPU's
    process and switched to with its lock as the only lock; and the pass ends, with found set and no lock held. *)
Theorem scheduler_serves run c s j :
  comes_back run → held c = [] → length (ps_proc s) = NPROC → states s !! j = Some RUNNABLE →
  ∃ c1 s1, held c1 = [LK_proc j] ∧ ps_cur s1 = Some j ∧ states s1 !! j = Some RUNNING ∧
    scheduler_pass run NPROC 0 false c s =
      (run j ;;; sched_back j ;;; scheduler_pass run (NPROC - S j) (S j) true) c1 s1 ∧
    ∃ c' s', scheduler_pass run NPROC 0 false c s = Ret true c' s' ∧ held c' = [].
Proof.
  intros Hrun Hc Hlen Hj. pose proof (states_lt _ _ _ Hj) as Hlt.
  destruct (scheduler_pass_reaches run Hrun NPROC 0 false c s j) as (c1 & s1 & H1 & H2 & H3 & Hl & E); [done..|lia|].
  exists c1, s1. split_and!; [done..|]. rewrite E.
  destruct (Hrun j c1 s1 H1 Hl H2 H3) as (c2 & s2 & E2 & Hc2 & Hl2 & _). rewrite (kbind_ret _ _ _ _ _ _ _ E2).
  unfold sched_back, kbind at 1, kbind at 1, kmod, release. rewrite Hc2, decide_True, drop_lock_head by constructor.
  destruct (scheduler_pass_ends run Hrun (NPROC - S j) (S j) true (set_held [] c2) (set_cur None s2)) as (f & c' & s' & E' & Hc' & Hf);
    [lia|done..|]. rewrite (Hf eq_refl) in E'. by exists c', s'.
Qed.

(** C28. The end of kexit, exactly: the process becomes a ZOMBIE with its exit status and keeps
    everything else; each of its children now has init as parent; of the other processes those that sleep on the
    parent's channel, and on init's if there was a child, become RUNNABLE; no other field of any slot and nothing else of the
    state changes; and only p->lock is held when it enters sched. *)
Theorem exit_hands_over status (i ini pa : nat) c s p :
  held c = [] → length (ps_proc s) = NPROC → ps_cur s = Some i → ps_proc s !! i = Some p →
  p_parent p = Some pa → pa ≠ i → ps_initproc s = Some ini →
  exit_tail status c s =
    Ret tt (set_held [LK_proc i] c)
      (set_procs (imap (λ j q,
         if decide (j = i) then set_state ZOMBIE (set_xstate status q)
         else
           let q1 := if decide (p_parent q = Some i) then set_parent (Some ini) q else q in
           if decide (p_state q = SLEEPING ∧
                (p_chan q = Some (CH_proc pa) ∨ has_child i (ps_proc s) = true ∧ p_chan q = Some (CH_proc ini)))
           then set_state RUNNABLE q1 else q1) (ps_proc s)) s).
Proof. apply exit_tail_run. Qed.


(** kkill takes pid 0 for the pid of the first unused slot: on a table whose slot 1 is free, it
    returns 0 and marks that slot killed, and the next process allocproc creates there is born with
    killed set. *)
Theorem kill_zero_marks_next :
  match (do r <- kkill 0;
         do np <- allocproc KERNBASE KERNBASE 0;
         kret (r, np)) demo_ctx
        (mkps (mkkmem vm_mem5 (vm_page 1) (λ _, 0)) demo_table 2 (Some 0%nat) (Some 0%nat) 0 false) with
  | Ret (r, Some np) _ s' => r = 0 ∧ np = 1%nat ∧ p_killed <$> (ps_proc s' !! np) = Some 1
  | _ => False
  end.
Proof. vm_compute. done. Qed.

(** *** Witnesses *)

(** Processes that yield again as soon as they run. *)
Definition spin (i : nat) : M pstate unit := yield_leave ;;; kret tt ;;; yield_enter.

Lemma scheduler_serves_witness :
  ∃ c1 s1, held c1 = [LK_proc 0] ∧ ps_cur s1 = Some 0%nat ∧ states s1 !! 0%nat = Some RUNNING ∧
    scheduler_pass spin NPROC 0 false demo_ctx demo_ps =
      (spin 0 ;;; sched_back 0 ;;; scheduler_pass spin (NPROC - 1) 1 true) c1 s1 ∧
    ∃ c' s', scheduler_pass spin NPROC 0 false demo_ctx demo_ps = Ret true c' s' ∧ held c' = [].
Proof.
  apply (scheduler_serves spin demo_ctx demo_ps 0); [|done..].
  apply (yield_comes_back (λ _, kret tt)). intros i c s Hc Hlen Hcur Hi. by exists c, s.
Defined.

(** Slot 1 exits with status 7: its parent, slot 0, is woken. *)
Lemma exit_hands_over_witness :
  exit_tail 7 demo_ctx demo_exit =
    Ret tt (set_held [LK_proc 1] demo_ctx)
      (set_procs (set_chan (Some (CH_proc 0)) (set_state RUNNABLE demo_proc) ::
         set_xstate 7 (set_pid 5 (set_parent (Some 0%nat) (set_state ZOMBIE demo_proc))) :: replicate 62 demo_proc) demo_exit).
Proof.
  rewrite (exit_hands_over 7 1 0 0 demo_ctx demo_exit (set_pid 5 (set_parent (Some 0%nat) (set_state RUNNING demo_proc)))); [reflexivity|done..].
Defined.

