(* ===== verification/Sched.v ===== *)
(** * The process table on several CPUs (kernel/proc.c)

    The functions of proc.c that change the scheduling state of a process, statement by statement, on any
    number of CPUs.  A function is a value of [code]: the statements on locks, p->state and c->proc
    one by one, each other statement (a field of the process, its memory) as one step.  [exec] runs a [code] on
    one CPU without interruption; the lemmas [*_code_ok] say that this is the definition of file
    Proc.  [mstep] interleaves the CPUs at every statement; [acquire] waits until no CPU holds the lock.

    A CPU that executes a function knows something ([view]): nothing; that it has created a
    process and not yet published it; or, while it holds p->lock, p->state and whether some CPU
    runs the process.  [safe] says that a [code] only does what its knowledge permits and releases a
    lock only when p->state is RUNNING exactly if the process runs on a CPU.  Every function of
    proc.c is safe ([calls_safe], [pick_safe], [back_safe], [resume_safe]), and safe statements keep the
    invariant ([act_inv]). *)

From stdpp Require Import base list functions sets relations numbers strings.
From Stdlib Require Import ZArith Lia.
From S2P Require Import Prelude Machine Kstring Kalloc Vm Proc.

(** ** Functions as sequences of statements *)

Inductive code (A : Type) : Type :=
  | CRet (a : A)
  | CAcq (l : lock) (k : code A)                          (* acquire(l) *)
  | CRel (l : lock) (k : code A)                          (* release(l) *)
  | CGet (i : nat) (k : proc → code A)                    (* reading proc[i] *)
  | CState (i : nat) (x : procstate) (k : code A)         (* proc[i].state = x *)
  | CMy (k : option nat → code A)                         (* reading mycpu()->proc *)
  | CCur (o : option nat) (k : code A)                    (* c->proc = o *)
  | CStep (B : Type) (m : M pstate B) (k : B → code A).   (* any other statement *)
Arguments CRet {A} a. Arguments CAcq {A} l k. Arguments CRel {A} l k. Arguments CGet {A} i k.
Arguments CState {A} i x k. Arguments CMy {A} k. Arguments CCur {A} o k. Arguments CStep {A B} m k.

Fixpoint cbind {A B} (c : code A) (f : A → code B) : code B :=
  match c with
  | CRet a => f a
  | CAcq l k => CAcq l (cbind k f)
  | CRel l k => CRel l (cbind k f)
  | CGet i k => CGet i (λ p, cbind (k p) f)
  | CState i x k => CState i x (cbind k f)
  | CMy k => CMy (λ o, cbind (k o) f)
  | CCur o k => CCur o (cbind k f)
  | CStep m k => CStep m (λ b, cbind (k b) f)
  end.

Declare Scope code_scope.
Delimit Scope code_scope with code.
Notation "'cdo' x <- c ; k" := (cbind c (λ x, k)) (at level 10, x name, c at level 100, k at level 200) : code_scope.
Notation "c ;;* k" := (cbind c (λ _, k)) (at level 199, right associativity) : code_scope.
Open Scope code_scope.

Definition cacq (l : lock) : code unit := CAcq l (CRet tt).
Definition crel (l : lock) : code unit := CRel l (CRet tt).
Definition cget (i : nat) : code proc := CGet i CRet.
Definition cstate (i : nat) (x : procstate) : code unit := CState i x (CRet tt).
Definition ccur (o : option nat) : code unit := CCur o (CRet tt).
Definition cstep {B} (m : M pstate B) : code B := CStep m CRet.
Definition cmod (i : nat) (f : proc → proc) : code unit := cstep (modp i f).
(** [myproc()], which the callers below dereference. *)
Definition cme : code nat := CMy (λ o, match o with Some i => CRet i | None => cstep (undefined "myproc() == 0") end).
Fixpoint cfor (n : nat) (i : Z) (body : Z → code unit) : code unit :=
  match n with O => CRet tt | S n' => body i ;;* cfor n' (i + 1) body end.

(** Without interruption. *)
Fixpoint exec {A} (c : code A) : M pstate A :=
  match c with
  | CRet a => kret a
  | CAcq l k => acquire l ;;; exec k
  | CRel l k => release l ;;; exec k
  | CGet i k => do p <- getp i; exec (k p)
  | CState i x k => modp i (set_state x) ;;; exec k
  | CMy k => do o <- kgets ps_cur; exec (k o)
  | CCur o k => kmod (set_cur o) ;;; exec k
  | CStep m k => do b <- m; exec (k b)
  end.

Section code.
Context (kend trampoline forkret : Z).

(** *** The functions of proc.c *)

Definition sched_pick_code (i : nat) : code bool :=
  cacq (LK_proc i) ;;*
  cdo p <- cget i;
  if decide (p_state p = RUNNABLE) then
    cstate i RUNNING ;;* ccur (Some i) ;;* CRet true
  else crel (LK_proc i) ;;* CRet false.

Definition sched_back_code (i : nat) : code unit := ccur None ;;* crel (LK_proc i).

Definition yield_enter_code : code unit :=
  cdo i <- cme; cacq (LK_proc i) ;;* cstate i RUNNABLE ;;* cstep sched.
Definition yield_leave_code : code unit := cdo i <- cme; crel (LK_proc i).

Definition sleep_enter_code (ch : chan) (lk : lock) : code unit :=
  cdo i <- cme;
  cacq (LK_proc i) ;;* crel lk ;;* cmod i (set_chan (Some ch)) ;;* cstate i SLEEPING ;;* cstep sched.
Definition sleep_leave_code (lk : lock) : code unit :=
  cdo i <- cme; cmod i (set_chan None) ;;* crel (LK_proc i) ;;* cacq lk.

Definition wakeup_one_code (ch : chan) (i : nat) : code unit :=
  CMy (λ o,
    if decide (o = Some i) then CRet tt
    else
      cacq (LK_proc i) ;;*
      cdo p <- cget i;
      (if decide (p_state p = SLEEPING ∧ p_chan p = Some ch) then cstate i RUNNABLE else CRet tt) ;;*
      crel (LK_proc i)).
Definition wakeup_code (ch : chan) : code unit := cfor NPROC 0 (λ i, wakeup_one_code ch (Z.to_nat i)).

Definition reparent_one_code (p pp : nat) : code unit :=
  cdo q <- cget pp;
  if decide (p_parent q = Some p) then
    cdo ip <- cstep (kgets ps_initproc);
    cmod pp (set_parent ip) ;;*
    match ip with Some ini => wakeup_code (CH_proc ini) | None => cstep (undefined "wakeup(0)") end
  else CRet tt.
Definition reparent_code (p : nat) : code unit := cfor NPROC 0 (λ i, reparent_one_code p (Z.to_nat i)).

Definition exit_tail_code (status : Z) : code unit :=
  cdo p <- cme;
  cacq LK_wait ;;*
  reparent_code p ;;*
  cdo q <- cget p;
  match p_parent q with Some pa => wakeup_code (CH_proc pa) | None => cstep (undefined "wakeup(0)") end ;;*
  cacq (LK_proc p) ;;*
  cmod p (set_xstate status) ;;*
  cstate p ZOMBIE ;;*
  crel LK_wait ;;*
  cstep sched.

Definition freeproc_code (i : nat) : code unit :=
  cdo p <- cget i;
  cstep (if p_trapframe p =? 0 then kret tt else zoom mem_lens (kfree kend (p_trapframe p))) ;;*
  cmod i (set_trapframe 0) ;;*
  cstep (if p_pgtbl p =? 0 then kret tt else zoom mem_lens (proc_freepagetable kend (p_pgtbl p) (p_size p))) ;;*
  cmod i (set_pgtbl 0) ;;*
  cmod i (set_size 0) ;;*
  cmod i (set_pid 0) ;;*
  cmod i (set_parent None) ;;*
  cmod i (λ p, set_name (<[0%nat:=0]> (p_name p)) p) ;;*
  cmod i (set_chan None) ;;*
  cmod i (set_killed 0) ;;*
  cmod i (set_xstate 0) ;;*
  cstate i UNUSED.

Fixpoint kwait_scan_code (p : nat) (addr : Z) (n i : nat) (havekids : bool) : code wait_res :=
  match n with
  | O => CRet (WScan havekids)
  | S n' =>
      cdo q <- cget i;
      if decide (p_parent q = Some p) then
        cacq (LK_proc i) ;;*
        cdo q <- cget i;
        if decide (p_state q = ZOMBIE) then
          let pid := p_pid q in
          cdo pr <- cget p;
          cdo r <- cstep (if addr =? 0 then kret 0
                          else copyout_bytes kend (p_pgtbl pr) addr (word_bytes 4 (u32 (p_xstate q))));
          if r <? 0 then crel (LK_proc i) ;;* crel LK_wait ;;* CRet WFault
          else freeproc_code i ;;* crel (LK_proc i) ;;* crel LK_wait ;;* CRet (WReaped pid)
        else crel (LK_proc i) ;;* kwait_scan_code p addr n' (S i) true
      else kwait_scan_code p addr n' (S i) havekids
  end.

(** The body of the loop of [kwait], with wait_lock held: how it returns a value and how it sleeps are
    arguments. *)
Definition kwait_body_code {A} (ret : Z → code A) (asleep : nat → code A) (p : nat) (addr : Z) : code A :=
  cdo r <- kwait_scan_code p addr NPROC 0 false;
  match r with
  | WReaped pid => ret pid
  | WFault => ret (-1)
  | WScan havekids =>
      cdo q <- cget p;
      if negb havekids || negb (p_killed q =? 0) then crel LK_wait ;;* ret (-1)
      else asleep p
  end.
Definition kwait_code {A} (ret : Z → code A) (asleep : nat → code A) (addr : Z) : code A :=
  cdo p <- cme; cacq LK_wait ;;* kwait_body_code ret asleep p addr.

Fixpoint kkill_loop_code (pid : Z) (n i : nat) : code Z :=
  match n with
  | O => CRet (-1)
  | S n' =>
      cacq (LK_proc i) ;;*
      cdo p <- cget i;
      if p_pid p =? pid then
        cmod i (set_killed 1) ;;*
        (if decide (p_state p = SLEEPING) then cstate i RUNNABLE else CRet tt) ;;*
        crel (LK_proc i) ;;*
        CRet 0
      else crel (LK_proc i) ;;* kkill_loop_code pid n' (S i)
  end.
Definition kkill_code (pid : Z) : code Z := kkill_loop_code pid NPROC 0.

Definition setkilled_code (i : nat) : code unit := cacq (LK_proc i) ;;* cmod i (set_killed 1) ;;* crel (LK_proc i).

Definition killed_code (i : nat) : code Z :=
  cacq (LK_proc i) ;;* cdo p <- cget i; crel (LK_proc i) ;;* CRet (p_killed p).

Fixpoint find_unused_code (n i : nat) : code (option nat) :=
  match n with
  | O => CRet None
  | S n' =>
      cacq (LK_proc i) ;;*
      cdo p <- cget i;
      if decide (p_state p = UNUSED) then CRet (Some i)
      else crel (LK_proc i) ;;* find_unused_code n' (S i)
  end.

Definition allocpid_code : code Z :=
  cacq LK_pid ;;*
  cdo pid <- cstep (kgets ps_nextpid);
  cstep (kmod (set_nextpid (s32 (pid + 1)))) ;;*
  crel LK_pid ;;*
  CRet pid.

Definition allocproc_found_code (i : nat) : code (option nat) :=
  cdo pid <- allocpid_code;
  cmod i (set_pid pid) ;;*
  cstate i USED ;;*
  cdo tf <- cstep (zoom mem_lens kalloc);
  cmod i (set_trapframe tf) ;;*
  if tf =? 0 then freeproc_code i ;;* crel (LK_proc i) ;;* CRet None
  else
    cdo pt <- cstep (zoom mem_lens (proc_pagetable kend trampoline tf));
    cmod i (set_pgtbl pt) ;;*
    if pt =? 0 then freeproc_code i ;;* crel (LK_proc i) ;;* CRet None
    else
      cmod i (λ p, set_context (mkcontext forkret (p_kstack p + PGSIZE) (replicate 12 0)) p) ;;*
      CRet (Some i).
Definition allocproc_code : code (option nat) :=
  cdo r <- find_unused_code NPROC 0;
  match r with None => CRet None | Some i => allocproc_found_code i end.

Definition publish_code (np : nat) : code unit := cacq (LK_proc np) ;;* cstate np RUNNABLE ;;* crel (LK_proc np).

(** [kfork] (file Kernel): between its process-table statements it copies the parent's memory, registers, files
    and name; [copy np] stands for that, true when [uvmcopy] succeeded. *)
Definition kfork_code (copy : nat → M pstate bool) (p : nat) : code unit :=
  cdo r <- allocproc_code;
  match r with
  | None => CRet tt
  | Some np =>
      cdo ok <- cstep (copy np);
      if (ok : bool) then
        crel (LK_proc np) ;;*
        cacq LK_wait ;;*
        cmod np (set_parent (Some p)) ;;*
        crel LK_wait ;;*
        publish_code np
      else freeproc_code np ;;* crel (LK_proc np)
  end.

(** *** Run without interruption, they are the functions of file Proc *)

Lemma exec_bind {A B} (c : code A) (f : A → code B) ct s : exec (cbind c f) ct s = (do a <- exec c; exec (f a)) ct s.
Proof.
  revert ct s. induction c; intros ct s; cbn [cbind exec]; [done|..]; try rewrite kbind_assoc; apply kbind_ext; auto.
Qed.

Lemma exec_me {A} (f : nat → code A) x s : exec (cbind cme f) x s = (do i <- myproc; exec (f i)) x s.
Proof. unfold cme, myproc. cbn [cbind exec]. unfold kbind, kgets, kget. by destruct (ps_cur s). Qed.

Lemma exec_for n i body body' x s : (∀ j x s, exec (body j) x s = body' j x s) → exec (cfor n i body) x s = kfor n i body' x s.
Proof.
  intros E. revert i x s. induction n as [|n IH]; intros i x s; cbn [cfor kfor]; [done|].
  rewrite exec_bind. unfold kbind. rewrite E. destruct (body' i x s); [apply IH|done..].
Qed.

Lemma kret_bind {A B} (a : A) (f : A → M pstate B) ct s : kbind (kret a) f ct s = f a ct s.
Proof. done. Qed.

Lemma bind_kret {A} (m : M pstate A) ct s : kbind m kret ct s = m ct s.
Proof. unfold kbind. by destruct (m ct s). Qed.
Lemma bind_kret_tt (m : M pstate unit) ct s : (m ;;; kret tt) ct s = m ct s.
Proof. unfold kbind. by destruct (m ct s) as [[]| | |]. Qed.

Lemma kget_bind {A} (f : pstate → M pstate A) ct s : kbind kget f ct s = f s ct s.
Proof. done. Qed.
Lemma kgets_bind {A B} (g : pstate → A) (f : A → M pstate B) ct s : kbind (kgets g) f ct s = f (g s) ct s.
Proof. done. Qed.

Lemma kbind_cong {A B} (m m' : M pstate A) (f g : A → M pstate B) ct s :
  (∀ ct s, m ct s = m' ct s) → (∀ a ct s, f a ct s = g a ct s) → kbind m f ct s = kbind m' g ct s.
Proof. intros E1 E2. unfold kbind. rewrite E1. by destruct (m' ct s). Qed.

Create HintDb execs.
(** [execs] compares the statements one by one. *)
Ltac execs := repeat first
  [ reflexivity
  | progress cbn [exec cbind cacq crel cget cstate ccur cstep cmod]
  | rewrite exec_bind
  | rewrite kret_bind
  | rewrite bind_kret_tt
  | rewrite bind_kret
  | rewrite exec_me
  | rewrite kbind_assoc
  | solve [auto with execs]
  | apply kbind_ext; intros
  | apply kbind_cong; [solve [auto with execs]|intros]
  | case_decide
  | match goal with |- context [if ?b then _ else _] => destruct b end
  | match goal with |- context [match ?o with Some _ => _ | None => _ end] => destruct o end ].

Lemma sched_pick_code_ok i c s : exec (sched_pick_code i) c s = sched_pick i c s.
Proof. unfold sched_pick_code, sched_pick. execs. Qed.
Lemma sched_back_code_ok i c s : exec (sched_back_code i) c s = sched_back i c s.
Proof. unfold sched_back_code, sched_back. execs. Qed.
Lemma yield_enter_code_ok c s : exec yield_enter_code c s = yield_enter c s.
Proof. unfold yield_enter_code, yield_enter. rewrite exec_me. execs. Qed.
Lemma yield_leave_code_ok c s : exec yield_leave_code c s = yield_leave c s.
Proof. unfold yield_leave_code, yield_leave. rewrite exec_me. execs. Qed.
Lemma sleep_enter_code_ok ch lk c s : exec (sleep_enter_code ch lk) c s = sleep_enter ch lk c s.
Proof. unfold sleep_enter_code, sleep_enter. rewrite exec_me. execs. Qed.
Lemma sleep_leave_code_ok lk c s : exec (sleep_leave_code lk) c s = sleep_leave lk c s.
Proof. unfold sleep_leave_code, sleep_leave. rewrite exec_me. execs. Qed.
Lemma wakeup_code_ok ch c s : exec (wakeup_code ch) c s = pwakeup ch c s.
Proof.
  apply exec_for. clear. intros i c s. unfold wakeup_one_code, wakeup_one. cbn [exec].
  rewrite kget_bind, kgets_bind. case_decide; execs.
Qed.
Hint Resolve wakeup_code_ok : execs.
Lemma reparent_code_ok p c s : exec (reparent_code p) c s = reparent p c s.
Proof. apply exec_for. clear. intros i c s. unfold reparent_one_code, reparent_one. execs. Qed.
Hint Resolve reparent_code_ok : execs.
Lemma exit_tail_code_ok status c s : exec (exit_tail_code status) c s = exit_tail status c s.
Proof.
  unfold exit_tail_code, exit_tail. rewrite exec_me. execs; (apply kbind_cong; [intros; destruct (p_parent _); execs|intros; execs]).
Qed.
Lemma freeproc_code_ok i c s : exec (freeproc_code i) c s = freeproc kend i c s.
Proof. unfold freeproc_code, freeproc. execs. Qed.
Hint Resolve freeproc_code_ok : execs.
Lemma kwait_scan_code_ok p addr n : ∀ i b c s, exec (kwait_scan_code p addr n i b) c s = kwait_scan kend p addr n i b c s.
Proof. induction n as [|n IH]; intros i b c s; cbn [kwait_scan_code kwait_scan]; execs. Qed.
Hint Resolve kwait_scan_code_ok : execs.
Lemma kwait_code_ok addr c s :
  exec (kwait_code CRet (λ p, cstep (Prelude.sleep (CH_proc p) LK_wait)) addr) c s = kwait kend addr c s.
Proof.
  unfold kwait_code, kwait, kwait_body_code. generalize NPROC. intros n. rewrite exec_me. execs. destruct a1; execs.
Qed.
Lemma kkill_code_ok pid c s : exec (kkill_code pid) c s = kkill pid c s.
Proof.
  unfold kkill_code, kkill. generalize NPROC 0%nat. intros n i. revert i c s.
  induction n as [|n IH]; intros i c s; cbn [kkill_loop_code kkill_loop]; execs.
Qed.
Lemma setkilled_code_ok i c s : exec (setkilled_code i) c s = setkilled i c s.
Proof. unfold setkilled_code, setkilled. execs. Qed.
Lemma killed_code_ok i c s : exec (killed_code i) c s = killed i c s.
Proof. unfold killed_code, killed. execs. Qed.
Lemma find_unused_code_ok n : ∀ i c s, exec (find_unused_code n i) c s = find_unused n i c s.
Proof. induction n as [|n IH]; intros i c s; cbn [find_unused_code find_unused]; execs. Qed.
Hint Resolve find_unused_code_ok : execs.
Lemma allocpid_code_ok c s : exec allocpid_code c s = allocpid c s.
Proof. unfold allocpid_code, allocpid. execs. Qed.
Hint Resolve allocpid_code_ok : execs.
Lemma allocproc_found_code_ok i c s : exec (allocproc_found_code i) c s = allocproc_found kend trampoline forkret i c s.
Proof. unfold allocproc_found_code, allocproc_found. execs. Qed.
Hint Resolve allocproc_found_code_ok : execs.
Lemma allocproc_code_ok c s : exec allocproc_code c s = allocproc kend trampoline forkret c s.
Proof. unfold allocproc_code, allocproc. generalize NPROC. intros n. execs. Qed.
Lemma publish_code_ok i c s : exec (publish_code i) c s = publish i c s.
Proof. unfold publish_code, publish. execs. Qed.
End code.

(** ** The machine

    A CPU is in the loop of [scheduler] ([TSched]), there inside an interrupt handler's wakeup ([TIntr])
    or inside an iteration before ([TPick]) or after ([TBack]) the switches; or it is on the kernel stack
    of process i: coming back from [swtch] ([TResume]), between calls of proc.c ([TProc]) or
    inside one ([TOp], whose result true means that it called [swtch]). *)
Inductive thread :=
  | TSched
  | TIntr (c : code unit)
  | TPick (i : nat) (c : code bool)
  | TResume (i : nat) (c : code unit)
  | TProc (i : nat)
  | TOp (i : nat) (c : code bool)
  | TBack (i : nat) (c : code unit).

(** The CPU executes on the kernel stack of process [i]. *)
Definition on_stack (t : thread) (i : nat) : Prop :=
  match t with TResume j _ | TProc j | TOp j _ => i = j | _ => False end.

(** The shared memory; and for each CPU its c->proc, the locks it holds and where it is. *)
Record mach := mkmach {
  m_ps : pstate;
  m_proc : nat → option nat;
  m_held : nat → list lock;
  m_thr : nat → thread
}.

Definition lock_free (H : nat → list lock) (l : lock) : Prop := ∀ k, l ∉ H k.
Definition plock (l : lock) : option nat := match l with LK_proc i => Some i | _ => None end.

(** One statement of a CPU with c->proc = [o] that holds the locks [h]. *)
Inductive act {A} (H : nat → list lock) (o : option nat) (h : list lock) (s : pstate) :
    code A → code A → option nat → list lock → pstate → Prop :=
  | a_acq l k :
      lock_free H l → (∀ i, plock l = Some i → (i < length (ps_proc s))%nat) →
      act H o h s (CAcq l k) k o (l :: h) s
  | a_rel l k : l ∈ h → act H o h s (CRel l k) k o (drop_lock l h) s
  | a_get i k p : ps_proc s !! i = Some p → act H o h s (CGet i k) (k p) o h s
  | a_state i x k : act H o h s (CState i x k) k o h (set_procs (alter (set_state x) i (ps_proc s)) s)
  | a_my k : act H o h s (CMy k) (k o) o h s
  | a_cur o' k : act H o h s (CCur o' k) k o' h s
  | a_step B (m : M pstate B) k b w pid c' s' :
      m (mkctx h w pid) (set_cur o s) = Ret b c' s' → held c' = h →
      act H o h s (CStep m k) (k b) o h s'.

(** What a process does when the scheduler switches to it: the ends of [yield] and [sleep], and the
    beginning of [forkret]. *)
Inductive resumes : code unit → Prop :=
  | res_yield : resumes yield_leave_code
  | res_sleep lk : plock lk = None → resumes (sleep_leave_code lk).

(** The functions of proc.c that process [i] calls. *)
Inductive calls (kend trampoline forkret : Z) (i : nat) : code bool → Prop :=
  | call_wakeup ch : calls kend trampoline forkret i (wakeup_code ch ;;* CRet false)
  | call_kill pid : calls kend trampoline forkret i (kkill_code pid ;;* CRet false)
  | call_setkilled j : calls kend trampoline forkret i (setkilled_code j ;;* CRet false)
  | call_killed j : calls kend trampoline forkret i (killed_code j ;;* CRet false)
  | call_fork copy :
      (∀ np, quiet (copy np)) →
      calls kend trampoline forkret i (kfork_code kend trampoline forkret copy i ;;* CRet false)
  | call_wait addr :
      calls kend trampoline forkret i
        (kwait_code kend (λ _, CRet false) (λ p, sleep_enter_code (CH_proc p) LK_wait ;;* CRet true) addr)
  | call_wait_again addr :
      calls kend trampoline forkret i
        (kwait_body_code kend (λ _, CRet false) (λ p, sleep_enter_code (CH_proc p) LK_wait ;;* CRet true) i addr)
  | call_yield : calls kend trampoline forkret i (yield_enter_code ;;* CRet true)
  | call_sleep ch lk : plock lk = None → calls kend trampoline forkret i (sleep_enter_code ch lk ;;* CRet true)
  | call_exit status : calls kend trampoline forkret i (exit_tail_code status ;;* CRet true).

(** Where a CPU that executes a function is. *)
Inductive inside : ∀ A, (code A → thread) → Prop :=
  | in_intr : inside unit TIntr
  | in_pick i : inside bool (TPick i)
  | in_resume i : inside unit (TResume i)
  | in_op i : inside bool (TOp i)
  | in_back i : inside unit (TBack i).

(** From one function to the next, without a statement of its own. *)
Inductive turn (kend trampoline forkret : Z) : thread → thread → Prop :=
  | tu_intr ch : turn kend trampoline forkret TSched (TIntr (wakeup_code ch))
  | tu_intr_ret : turn kend trampoline forkret (TIntr (CRet tt)) TSched
  | tu_pick i : turn kend trampoline forkret TSched (TPick i (sched_pick_code i))
  | tu_skip i : turn kend trampoline forkret (TPick i (CRet false)) TSched
  | tu_switch i c : resumes c → turn kend trampoline forkret (TPick i (CRet true)) (TResume i c)
  | tu_resumed i : turn kend trampoline forkret (TResume i (CRet tt)) (TProc i)
  | tu_call i c : calls kend trampoline forkret i c → turn kend trampoline forkret (TProc i) (TOp i c)
  | tu_return i : turn kend trampoline forkret (TOp i (CRet false)) (TProc i)
  | tu_switch_back i : turn kend trampoline forkret (TOp i (CRet true)) (TBack i (sched_back_code i))
  | tu_back i : turn kend trampoline forkret (TBack i (CRet tt)) TSched.

(** Statements of a process outside proc.c: any that leave the process locks and states alone. *)
Inductive other (i : nat) : code unit → Prop :=
  | ot_acq l : plock l = None → other i (cacq l)
  | ot_rel l : plock l = None → other i (crel l)
  | ot_step (m : M pstate unit) : quiet m → other i (cstep m).

Definition upd (m : mach) (k : nat) (s : pstate) (o : option nat) (h : list lock) (t : thread) : mach :=
  mkmach s (<[k:=o]> (m_proc m)) (<[k:=h]> (m_held m)) (<[k:=t]> (m_thr m)).

Inductive mstep (kend trampoline forkret : Z) (m : mach) : mach → Prop :=
  | ms_code k A (T : code A → thread) c c' o h s :
      inside A T → m_thr m k = T c →
      act (m_held m) (m_proc m k) (m_held m k) (m_ps m) c c' o h s →
      mstep kend trampoline forkret m (upd m k s o h (T c'))
  | ms_turn k t :
      turn kend trampoline forkret (m_thr m k) t →
      mstep kend trampoline forkret m (upd m k (m_ps m) (m_proc m k) (m_held m k) t)
  | ms_other k i c o h s :
      m_thr m k = TProc i → other i c →
      act (m_held m) (m_proc m k) (m_held m k) (m_ps m) c (CRet tt) o h s →
      mstep kend trampoline forkret m (upd m k s o h (TProc i)).

(** ** What a CPU knows

    About the one slot whose lock it holds: p->state, whether some CPU runs the process, and whether it
    has itself created the process and not yet published it ([tok]); or, without the lock, that
    it has created the process of a slot ([VTok]). *)
Inductive view := VNone | VTok (i : nat) | VHeld (i : nat) (x : procstate) (run tok : bool).

Definition token (v : view) (i : nat) : Prop :=
  match v with VTok j => i = j | VHeld j _ _ tok => i = j ∧ tok = true | VNone => False end.

(** [safe sw Q v o c]: started with knowledge [v] and c->proc = [o], every statement of [c] is one the knowledge
    permits, and at the end [Q] holds; only the scheduler's own code ([sw]) writes c->proc. *)
Fixpoint safe {A} (sw : bool) (Q : A → view → option nat → Prop) (v : view) (o : option nat) (c : code A) : Prop :=
  match c with
  | CRet a => Q a v o
  | CAcq l k =>
      match plock l with
      | None => safe sw Q v o k
      | Some i =>
          match v with
          | VNone => ∀ x, (o = Some i → x = RUNNING) → safe sw Q (VHeld i x (bool_decide (x = RUNNING)) false) o k
          | VTok j => i = j ∧ safe sw Q (VHeld i USED false true) o k
          | VHeld j _ _ _ => i = j
          end
      end
  | CRel l k =>
      match plock l with
      | None => safe sw Q v o k
      | Some i =>
          match v with
          | VHeld j x run tok =>
              i = j → run = bool_decide (x = RUNNING) ∧ safe sw Q (if tok then VTok i else VNone) o k
          | _ => True
          end
      end
  | CGet i k => ∀ p, match v with VHeld j x _ _ => i = j → p_state p = x | _ => True end → safe sw Q v o (k p)
  | CState i y k =>
      match v with
      | VHeld j x run tok =>
          i = j ∧ (x = USED → tok = true) ∧ safe sw Q (VHeld i y run (bool_decide (y = USED))) o k
      | _ => False
      end
  | CMy k => safe sw Q v o (k o)
  | CCur o' k =>
      sw = true ∧
      match o, o', v with
      | None, Some i, VHeld j x run tok => i = j ∧ run = false ∧ safe sw Q (VHeld i x true tok) (Some i) k
      | Some i, None, VHeld j x run tok => i = j ∧ run = true ∧ safe sw Q (VHeld i x false tok) None k
      | _, _, _ => False
      end
  | CStep m k => quiet m ∧ ∀ b, safe sw Q v o (k b)
  end.

Lemma safe_mono {A} sw (Q Q' : A → view → option nat → Prop) v o c :
  (∀ a v o, Q a v o → Q' a v o) → safe sw Q v o c → safe sw Q' v o c.
Proof.
  intros HQ. revert v o. induction c as [a|l k IH|l k IH|i k IH|i y k IH|k IH|o' k IH|B m k IH]; intros v o; cbn [safe];
    auto; repeat case_match; naive_solver.
Qed.

Lemma safe_bind {A B} sw (Q : B → view → option nat → Prop) (f : A → code B) v o (c : code A) :
  safe sw (λ a v o, safe sw Q v o (f a)) v o c → safe sw Q v o (cbind c f).
Proof.
  revert v o. induction c as [a|l k IH|l k IH|i k IH|i y k IH|k IH|o' k IH|B' m k IH]; intros v o; cbn [safe cbind];
    auto; repeat case_match; naive_solver.
Qed.

(** A loop whose body returns to the same knowledge. *)
Lemma safe_for sw v o n i body :
  (∀ j, safe sw (λ _ v' o', v' = v ∧ o' = o) v o (body j)) → safe sw (λ _ v' o', v' = v ∧ o' = o) v o (cfor n i body).
Proof.
  intros Hb. revert i. induction n as [|n IH]; intros i; cbn [cfor]; [done|].
  apply safe_bind. eapply safe_mono; [|apply Hb]. intros [] v' o' [-> ->]. apply IH.
Qed.

(** *** The functions are safe *)

Section safety.
Context (kend trampoline forkret : Z).
Implicit Types (i j np : nat) (ch : chan) (o : option nat).

(** At the end the CPU knows [v] and runs [o]. *)
Definition ends {A} (v : view) (o : option nat) : A → view → option nat → Prop := λ _ v' o', v' = v ∧ o' = o.
(** At the end the CPU has made process [i] leave, with its lock held. *)
Definition left_cpu (i : nat) (v : view) : Prop := ∃ x, v = VHeld i x true false ∧ x ≠ RUNNING.

Lemma sched_quiet : quiet sched.
Proof.
  intros c s. unfold sched. destruct (ps_cur s) as [i|]; [|done]. case_decide; [done|].
  destruct (negb _); [done|]. destruct (_ !! i); [|done]. by case_decide.
Qed.

Ltac quiet := solve [apply sched_quiet | quiets | apply copyout_bytes_states | apply quiet_if; [quiets|apply copyout_bytes_states]].
(** [safes] goes through the statements. *)
Ltac safes := repeat first
  [ progress cbn [safe cbind plock cacq crel cget cstate ccur cstep cmod cme ends]
  | match goal with H : ?i = ?i → _ |- _ => specialize (H eq_refl); try subst end
  | match goal with H : p_state _ = _ |- context [p_state _] => rewrite H end
  | match goal with |- safe _ _ _ _ (if decide ?P then _ else _) => destruct (decide P) end
  | match goal with |- safe _ _ _ _ (if ?b then _ else _) => destruct b end
  | progress intros
  | progress destruct_and?
  | done
  | match goal with |- _ ∧ _ => split; [first [done|quiet|congruence]|] end
  | match goal with |- safe _ _ _ _ (cbind _ _) => apply safe_bind end ].

Lemma pick_safe i :
  safe true (λ b v o, if (b : bool) then v = VHeld i RUNNING true false ∧ o = Some i else v = VNone ∧ o = None)
    VNone None (sched_pick_code i).
Proof. unfold sched_pick_code. safes. Qed.

Lemma back_safe i v : left_cpu i v → safe true (ends VNone None) v (Some i) (sched_back_code i).
Proof. intros (x & -> & Hx). unfold sched_back_code. safes. by rewrite bool_decide_false. Qed.

Lemma resume_safe i c : resumes c → safe false (ends VNone (Some i)) (VHeld i RUNNING true false) (Some i) c.
Proof. destruct 1 as [|lk Hlk]; [unfold yield_leave_code; safes|]. unfold sleep_leave_code. safes. by rewrite Hlk. Qed.

Lemma wakeup_safe sw ch o : safe sw (ends VNone o) VNone o (wakeup_code ch).
Proof. apply safe_for. intros j. unfold wakeup_one_code. safes. Qed.

Lemma reparent_safe sw p o : safe sw (ends VNone o) VNone o (reparent_code p).
Proof.
  apply safe_for. intros j. unfold reparent_one_code. safes.
  destruct b as [ini|]; [apply wakeup_safe|safes].
Qed.

Lemma left_cpu_intro i x : x ≠ RUNNING → x ≠ USED → left_cpu i (VHeld i x (bool_decide (RUNNING = RUNNING)) (bool_decide (x = USED))).
Proof. intros Hx Hu. exists x. split; [|done]. by rewrite bool_decide_true, bool_decide_false. Qed.

Lemma yield_safe i : safe false (λ _ v o, left_cpu i v ∧ o = Some i) VNone (Some i) yield_enter_code.
Proof. unfold yield_enter_code. safes. split; [by apply left_cpu_intro|done]. Qed.

Lemma sleep_safe i ch lk :
  plock lk = None → safe false (λ _ v o, left_cpu i v ∧ o = Some i) VNone (Some i) (sleep_enter_code ch lk).
Proof. intros Hlk. unfold sleep_enter_code. safes. rewrite Hlk. safes. split; [by apply left_cpu_intro|done]. Qed.

Lemma exit_safe i status : safe false (λ _ v o, left_cpu i v ∧ o = Some i) VNone (Some i) (exit_tail_code status).
Proof.
  unfold exit_tail_code. safes. eapply safe_mono; [|apply reparent_safe]. intros _ v o [-> ->]. safes.
  assert (Hw : safe false (ends VNone (Some i)) VNone (Some i)
    match p_parent p with Some pa => wakeup_code (CH_proc pa) | None => cstep (undefined "wakeup(0)") end).
  { destruct (p_parent p); [apply wakeup_safe|safes]. }
  eapply safe_mono; [|exact Hw]. intros _ v o [-> ->]. safes. split; [by apply left_cpu_intro|done].
Qed.

Lemma freeproc_safe sw i x tok o :
  (x = USED → tok = true) →
  safe sw (ends (VHeld i UNUSED (bool_decide (x = RUNNING)) false) o) (VHeld i x (bool_decide (x = RUNNING)) tok) o
    (freeproc_code kend i).
Proof. intros Hx. unfold freeproc_code. safes. Qed.

Lemma freeproc_new_safe sw i o : safe sw (ends (VHeld i UNUSED false false) o) (VHeld i USED false true) o (freeproc_code kend i).
Proof. by apply (freeproc_safe sw i USED true o). Qed.

Lemma kwait_scan_safe p addr o n : ∀ i b, safe false (ends VNone o) VNone o (kwait_scan_code kend p addr n i b).
Proof.
  induction n as [|n IH]; intros i b; cbn [kwait_scan_code]; safes; auto.
  eapply safe_mono; [|by apply freeproc_safe]. intros _ v o' [-> ->]. safes.
Qed.

Lemma kwait_body_safe i addr :
  safe false (λ (b : bool) v o, o = Some i ∧ if b then left_cpu i v else v = VNone) VNone (Some i)
    (kwait_body_code kend (λ _, CRet false) (λ p, sleep_enter_code (CH_proc p) LK_wait ;;* CRet true) i addr).
Proof.
  unfold kwait_body_code. safes. eapply safe_mono; [|apply kwait_scan_safe]. intros [pid| |b] v o [-> ->]; safes.
  eapply safe_mono; [|by apply sleep_safe]. intros _ v o [Hv ->]. by safes.
Qed.

Lemma kkill_safe sw pid o : safe sw (ends VNone o) VNone o (kkill_code pid).
Proof.
  unfold kkill_code. generalize NPROC 0%nat. intros n i. revert i.
  induction n as [|n IH]; intros i; cbn [kkill_loop_code]; safes; auto.
Qed.

Lemma find_unused_safe o n : ∀ i,
  safe false (λ r v o', o' = o ∧ v = match r with Some j => VHeld j UNUSED false false | None => VNone end) VNone o
    (find_unused_code n i).
Proof. induction n as [|n IH]; intros i; cbn [find_unused_code]; safes; auto. Qed.

Lemma allocproc_safe o :
  safe false (λ r v o', o' = o ∧ v = match r with Some j => VHeld j USED false true | None => VNone end) VNone o
    (allocproc_code kend trampoline forkret).
Proof.
  unfold allocproc_code. safes. eapply safe_mono; [|apply find_unused_safe].
  intros [j|] v o' [-> ->]; [|safes]. unfold allocproc_found_code, allocpid_code. safes.
  all: eapply safe_mono; [|apply freeproc_new_safe]; intros _ v o' [-> ->]; safes.
Qed.

Lemma kfork_safe i copy :
  (∀ np, quiet (copy np)) →
  safe false (ends VNone (Some i)) VNone (Some i) (kfork_code kend trampoline forkret copy i).
Proof.
  intros Hc. unfold kfork_code. safes. eapply safe_mono; [|apply allocproc_safe].
  intros [j|] v o' [-> ->]; [|safes]. split; [apply Hc|]. unfold publish_code. safes.
  eapply safe_mono; [|apply freeproc_new_safe]; intros _ v o' [-> ->]; safes.
Qed.

Lemma safe_then {A} sw v v' o o' (b : bool) (c : code A) (Q : bool → view → option nat → Prop) :
  safe sw (ends v' o') v o c → Q b v' o' → safe sw Q v o (c ;;* CRet b).
Proof. intros Hc HQ. apply safe_bind. eapply safe_mono; [|exact Hc]. by intros _ ? ? [-> ->]. Qed.

Lemma safe_leave {A} i (c : code A) :
  safe false (λ _ v o, left_cpu i v ∧ o = Some i) VNone (Some i) c →
  safe false (λ (b : bool) v o, o = Some i ∧ if b then left_cpu i v else v = VNone) VNone (Some i) (c ;;* CRet true).
Proof. intros Hc. apply safe_bind. eapply safe_mono; [|exact Hc]. by intros _ v o [? ->]. Qed.

Lemma safe_me {A} sw (Q : A → view → option nat → Prop) v i f : safe sw Q v (Some i) (f i) → safe sw Q v (Some i) (cbind cme f).
Proof. done. Qed.

Lemma safe_acq {A} sw (Q : A → view → option nat → Prop) v o l k :
  plock l = None → safe sw Q v o k → safe sw Q v o (cacq l ;;* k).
Proof. intros Hl Hk. cbn [safe cbind cacq]. by rewrite Hl. Qed.

Lemma setkilled_safe i j : safe false (ends VNone (Some i)) VNone (Some i) (setkilled_code j).
Proof. unfold setkilled_code. safes. Qed.

Lemma killed_safe i j : safe false (ends VNone (Some i)) VNone (Some i) (killed_code j).
Proof. unfold killed_code. safes. Qed.

Lemma calls_safe i c :
  calls kend trampoline forkret i c →
  safe false (λ (b : bool) v o, o = Some i ∧ if b then left_cpu i v else v = VNone) VNone (Some i) c.
Proof.
  destruct 1 as [ch|pid|j|j|copy Hc|addr|addr| |ch lk Hlk|status].
  - by eapply safe_then; [apply wakeup_safe|].
  - by eapply safe_then; [apply kkill_safe|].
  - by eapply safe_then; [apply setkilled_safe|].
  - by eapply safe_then; [apply killed_safe|].
  - by eapply safe_then; [apply kfork_safe|].
  - unfold kwait_code. apply safe_me, safe_acq; [done|]. apply kwait_body_safe.
  - apply kwait_body_safe.
  - apply safe_leave, yield_safe.
  - by apply safe_leave, sleep_safe.
  - apply safe_leave, exit_safe.
Qed.
End safety.

(** [cpus] splits on whether a CPU is the one that moves. *)
Ltac cpus := repeat match goal with
  | G : context [@insert _ _ _ (@fn_insert _ _ _) ?k ?v ?f ?j] |- _ =>
      first [ rewrite (fn_lookup_insert_ne f k j v) in G by congruence
            | unify k j; rewrite (fn_lookup_insert f k v) in G
            | destruct (decide (j = k)) as [-> |] ]
  | |- context [@insert _ _ _ (@fn_insert _ _ _) ?k ?v ?f ?j] =>
      first [ rewrite (fn_lookup_insert_ne f k j v) by congruence
            | unify k j; rewrite (fn_lookup_insert f k v)
            | destruct (decide (j = k)) as [-> |] ]
  end.

(** ** The invariant *)

Section invariant.
Implicit Types (s : pstate) (P : nat → option nat) (H : nat → list lock) (V : nat → view) (k i j : nat).

Definition runs P i : Prop := ∃ k, P k = Some i.

(** The knowledge of the CPUs is true, and it accounts for every process lock. *)
Record inv s P H V : Prop := mkinv {
  iv_held : ∀ k i, LK_proc i ∈ H k ↔ ∃ x r t, V k = VHeld i x r t;
  iv_know : ∀ k i x r t, V k = VHeld i x r t → states s !! i = Some x ∧ (r = true ↔ runs P i);
  iv_tok : ∀ k i, token (V k) i → states s !! i = Some USED;
  iv_tok1 : ∀ k k' i, token (V k) i → token (V k') i → k = k';
  iv_lock : ∀ k k' l, l ∈ H k → l ∈ H k' → k = k';
  iv_nodup : ∀ k, NoDup (H k);
  iv_free : ∀ i, lock_free H (LK_proc i) → (states s !! i = Some RUNNING ↔ runs P i);
  iv_one : ∀ k k' i, P k = Some i → P k' = Some i → k = k'
}.

Lemma inv_ext s P H V P' H' V' :
  (∀ k, P' k = P k) → (∀ k, H' k = H k) → (∀ k, V' k = V k) → inv s P H V → inv s P' H' V'.
Proof.
  intros EP EH EV [I1 I2 I3 I4 I5 I6 I7 I8]. assert (ER : ∀ i, runs P' i ↔ runs P i) by (intros i; unfold runs; by setoid_rewrite EP).
  split.
  - intros k i. by rewrite EH, EV.
  - intros k i x r t. rewrite EV, ER. apply I2.
  - intros k i. rewrite EV. apply I3.
  - intros k k' i. rewrite !EV. apply I4.
  - intros k k' l. rewrite !EH. apply I5.
  - intros k. rewrite EH. apply I6.
  - intros i Hf. rewrite ER. apply I7. intros k. rewrite <- EH. apply Hf.
  - intros k k' i. rewrite !EP. apply I8.
Qed.

Lemma inv_states s s' P H V : states s' = states s → inv s P H V → inv s' P H V.
Proof. intros E [I1 I2 I3 I4 I5 I6 I7 I8]. split; try done; rewrite E; done. Qed.

Definition excl H : Prop := ∀ k k' l, l ∈ H k → l ∈ H k' → k = k'.

Lemma excl_acq H k l : excl H → lock_free H l → excl (<[k:=l :: H k]> H).
Proof.
  intros E F k1 k2 l' H1 H2. cpus; [done| | |by eapply E]; [apply elem_of_cons in H2 as [-> |H2]|apply elem_of_cons in H1 as [-> |H1]];
    try (by eapply E); by destruct (F _ ltac:(eassumption)).
Qed.

Lemma excl_rel H k l : excl H → NoDup (H k) → excl (<[k:=drop_lock l (H k)]> H).
Proof.
  intros E Hn k1 k2 l' H1 H2. cpus; [done|apply elem_of_drop_lock in H2 as [H2 _]; [|done]|
    apply elem_of_drop_lock in H1 as [H1 _]; [|done]|]; by eapply E.
Qed.

Lemma inv_acq_other s P H V k l :
  inv s P H V → plock l = None → lock_free H l → inv s P (<[k:=l :: H k]> H) V.
Proof.
  intros [I1 I2 I3 I4 I5 I6 I7 I8] Hl Hf. split; try done.
  - intros k1 i. cpus; [|done]. rewrite elem_of_cons, I1. split; [|tauto]. by intros [<-|].
  - by apply excl_acq.
  - intros k1. cpus; [|done]. constructor; [apply Hf|apply I6].
  - intros i Hi. apply I7. intros k1 Hk. apply (Hi k1). cpus; [|done]. by right.
Qed.

Lemma inv_rel_other s P H V k l : inv s P H V → plock l = None → inv s P (<[k:=drop_lock l (H k)]> H) V.
Proof.
  intros [I1 I2 I3 I4 I5 I6 I7 I8] Hl. split; try done.
  - intros k1 i. cpus; [|done]. rewrite elem_of_drop_lock, I1 by done. split; [tauto|]. intros ?. split; [done|]. by intros <-.
  - by apply excl_rel.
  - intros k1. cpus; [|done]. by apply NoDup_drop_lock.
  - intros i Hi. apply I7. intros k1 Hk. apply (Hi k1). cpus; [|done]. apply elem_of_drop_lock; [done|]. split; [done|]. by intros <-.
Qed.

Lemma inv_acq s P H V k i x (tok : bool) :
  inv s P H V → lock_free H (LK_proc i) → V k = (if tok then VTok i else VNone) → states s !! i = Some x →
  inv s P (<[k:=LK_proc i :: H k]> H) (<[k:=VHeld i x (bool_decide (x = RUNNING)) tok]> V).
Proof.
  intros [I1 I2 I3 I4 I5 I6 I7 I8] Hf Hv Hx.
  assert (Ht : ∀ k1 j, token (<[k:=VHeld i x (bool_decide (x = RUNNING)) tok]> V k1) j → token (V k1) j).
  { intros k1 j. cpus; [|done]. intros [-> ->]. by rewrite Hv. }
  split; try done.
  - intros k1 j. cpus; [|done]. rewrite elem_of_cons, I1, Hv. split; [|naive_solver].
    intros [[= ->]|(? & ? & ? & E)]; [naive_solver|by destruct tok].
  - intros k1 j y r t E. cpus; [|by eapply I2]. simplify_eq. split; [done|].
    rewrite bool_decide_eq_true, <- (I7 j Hf), Hx. naive_solver.
  - intros k1 j Hj. eapply I3, Ht, Hj.
  - intros k1 k2 j H1 H2. eapply I4; by apply Ht.
  - by apply excl_acq.
  - intros k1. cpus; [|done]. constructor; [apply Hf|apply I6].
  - intros j Hj. apply I7. intros k1 Hk. apply (Hj k1). cpus; [|done]. by right.
Qed.

Lemma inv_rel s P H V k i x (tok : bool) :
  inv s P H V → V k = VHeld i x (bool_decide (x = RUNNING)) tok →
  inv s P (<[k:=drop_lock (LK_proc i) (H k)]> H) (<[k:=if tok then VTok i else VNone]> V).
Proof.
  intros [I1 I2 I3 I4 I5 I6 I7 I8] Hv.
  assert (Ht : ∀ k1 j, token (<[k:=if tok then VTok i else VNone]> V k1) j → token (V k1) j).
  { intros k1 j. cpus; [|done]. rewrite Hv. by destruct tok. }
  split; try done.
  - intros k1 j. cpus; [|done]. rewrite elem_of_drop_lock, I1, Hv by done.
    split; [naive_solver|]. intros (? & ? & ? & E). by destruct tok.
  - intros k1 j y r t E. cpus; [by destruct tok|by eapply I2].
  - intros k1 j Hj. eapply I3, Ht, Hj.
  - intros k1 k2 j H1 H2. eapply I4; by apply Ht.
  - by apply excl_rel.
  - intros k1. cpus; [|done]. by apply NoDup_drop_lock.
  - intros j Hj. destruct (decide (j = i)) as [->|Hne].
    + destruct (I2 k i x _ tok Hv) as [-> Hr]. rewrite <- Hr, bool_decide_eq_true. naive_solver.
    + apply I7. intros k1 Hk. apply (Hj k1). cpus; [|done]. apply elem_of_drop_lock; [done|]. split; [done|]. by intros [= ->].
Qed.

(** Only the holder of a slot's lock knows its state. *)
Lemma inv_holder s P H V k k' i x r t x' r' t' :
  inv s P H V → V k = VHeld i x r t → V k' = VHeld i x' r' t' → k' = k.
Proof. intros I E E'. eapply (iv_lock _ _ _ _ I _ _ (LK_proc i)); apply (iv_held _ _ _ _ I); eauto. Qed.

Lemma inv_state s s' P H V k i x r t y :
  inv s P H V → V k = VHeld i x r t → (x = USED → t = true) → states s' = <[i:=y]> (states s) →
  inv s' P H (<[k:=VHeld i y r (bool_decide (y = USED))]> V).
Proof.
  intros I Hv Hu Es. pose proof (λ k' x' r' t', inv_holder _ _ _ _ k k' i x r t x' r' t' I Hv) as Hown.
  destruct I as [I1 I2 I3 I4 I5 I6 I7 I8]. destruct (I2 k i x r t Hv) as [Hx Hr].
  assert (Hi : states s' !! i = Some y) by (rewrite Es; apply list_lookup_insert_eq; by eapply lookup_lt_Some).
  assert (Hne : ∀ j, j ≠ i → states s' !! j = states s !! j) by (intros j Hj; rewrite Es; by apply list_lookup_insert_ne).
  assert (Ht : ∀ k1, token (V k1) i → k1 = k).
  { intros k1 Hk. eapply I4; [exact Hk|]. pose proof (I3 _ _ Hk). rewrite Hv. split; [done|]. apply Hu. congruence. }
  split; try done.
  - intros k1 j. cpus; [|done]. rewrite I1, Hv. naive_solver.
  - intros k1 j z r' t' E. cpus; [by simplify_eq|]. rewrite Hne; [by eapply I2|]. intros ->. by destruct (Hown _ _ _ _ E).
  - intros k1 j Hj. cpus; [destruct Hj as [-> Hj]; apply bool_decide_eq_true in Hj as ->; done|].
    rewrite Hne; [by eapply I3|]. intros ->. by apply Ht in Hj.
  - intros k1 k2 j H1 H2. cpus; [done|destruct H2 as [-> _]; by apply Ht|destruct H1 as [-> _]; symmetry; by apply Ht|by eapply I4].
  - intros j Hj. rewrite Hne; [by apply I7|]. intros ->. apply (Hj k), I1. rewrite Hv. eauto.
Qed.

Lemma inv_cur s P H V k i x t (o : option nat) (r : bool) :
  inv s P H V → V k = VHeld i x (negb r) t → P k = (if r then None else Some i) → o = (if r then Some i else None) →
  inv s (<[k:=o]> P) H (<[k:=VHeld i x r t]> V).
Proof.
  intros I Hv Hp ->. pose proof (λ k' x' r' t', inv_holder _ _ _ _ k k' i x (negb r) t x' r' t' I Hv) as Hown.
  destruct I as [I1 I2 I3 I4 I5 I6 I7 I8]. destruct (I2 k i x _ t Hv) as [Hx Hr].
  assert (Hother : ∀ k1, k1 ≠ k → P k1 ≠ Some i).
  { intros k1 Hk1 E. destruct r; [|by assert (k1 = k) by (by eapply I8)].
    assert (negb true = true) by (apply Hr; by exists k1). done. }
  assert (Hri : r = true ↔ runs (<[k:=if r then Some i else None]> P) i).
  { split; [intros ->; exists k; by cpus|]. intros [k1 E]. cpus; [by destruct r|by destruct (Hother k1)]. }
  assert (Hrj : ∀ j, j ≠ i → runs (<[k:=if r then Some i else None]> P) j ↔ runs P j).
  { intros j Hj. split; intros [k1 E]; exists k1; cpus; try done; destruct r; congruence. }
  split; try done.
  - intros k1 j. cpus; [|done]. rewrite I1, Hv. naive_solver.
  - intros k1 j z r' t' E. cpus; [by simplify_eq|]. rewrite Hrj; [by eapply I2|]. intros ->. by destruct (Hown _ _ _ _ E).
  - intros k1 j Hj. cpus; [|by eapply I3]. apply (I3 k). by rewrite Hv.
  - intros k1 k2 j H1 H2. apply (I4 k1 k2 j); cpus; rewrite ?Hv; done.
  - intros j Hj. rewrite Hrj; [by apply I7|]. intros ->. apply (Hj k), I1. rewrite Hv. eauto.
  - intros k1 k2 j H1 H2. cpus; [done| | |by eapply I8]; destruct r; simplify_eq; by edestruct Hother.
Qed.

(** Statements that change only the states. *)
Lemma inv_quiet s s' P H V k :
  states s' = states s → inv s P H V → inv s' (<[k:=P k]> P) (<[k:=H k]> H) (<[k:=V k]> V).
Proof. intros E I. eapply inv_ext; [intros j; by cpus..|]. by eapply inv_states. Qed.

Lemma act_acq {A} sw (Q : A → view → option nat → Prop) s P H V k l (c : code A) :
  inv s P H V → safe sw Q (V k) (P k) (CAcq l c) → lock_free H l →
  (∀ i, plock l = Some i → (i < length (ps_proc s))%nat) →
  ∃ v', safe sw Q v' (P k) c ∧ inv s (<[k:=P k]> P) (<[k:=l :: H k]> H) (<[k:=v']> V).
Proof.
  intros I Hs Hf Hl. cbn [safe] in Hs. destruct (plock l) as [i|] eqn:El.
  2:{ exists (V k). split; [done|]. eapply inv_ext; [intros j; by cpus|intros j; reflexivity|intros j; by cpus|]. by apply inv_acq_other. }
  destruct l; simplify_eq/=. destruct (lookup_lt_is_Some_2 (states s) i) as [x Hx].
  { unfold states. rewrite length_fmap. by apply Hl. }
  destruct (V k) as [|j|j x' r t] eqn:Ev.
  - exists (VHeld i x (bool_decide (x = RUNNING)) false). split.
    { apply Hs. intros Hp. assert (states s !! i = Some RUNNING) by (apply (iv_free _ _ _ _ I); [done|by exists k]). congruence. }
    eapply inv_ext; [intros j; by cpus|intros j; reflexivity..|]. by apply inv_acq.
  - destruct Hs as [<- Hs]. exists (VHeld i USED false true). split; [done|].
    assert (states s !! i = Some USED) by (apply (iv_tok _ _ _ _ I k); by rewrite Ev).
    eapply inv_ext; [intros j; by cpus|intros j; reflexivity..|]. change false with (bool_decide (USED = RUNNING)). by apply inv_acq.
  - subst j. destruct (Hf k). apply (iv_held _ _ _ _ I). eauto.
Qed.

Lemma act_rel {A} sw (Q : A → view → option nat → Prop) s P H V k l (c : code A) :
  inv s P H V → safe sw Q (V k) (P k) (CRel l c) → l ∈ H k →
  ∃ v', safe sw Q v' (P k) c ∧ inv s (<[k:=P k]> P) (<[k:=drop_lock l (H k)]> H) (<[k:=v']> V).
Proof.
  intros I Hs Hl. cbn [safe] in Hs. destruct (plock l) as [i|] eqn:El.
  2:{ exists (V k). split; [done|]. eapply inv_ext; [intros j; by cpus|intros j; reflexivity|intros j; by cpus|]. by apply inv_rel_other. }
  destruct l; simplify_eq/=. apply (iv_held _ _ _ _ I) in Hl as (x & r & t & Ev). rewrite Ev in Hs.
  destruct (Hs eq_refl) as [-> Hs']. eexists. split; [exact Hs'|].
  eapply inv_ext; [intros j; by cpus|intros j; reflexivity..|]. by eapply inv_rel.
Qed.

Lemma act_cur {A} sw (Q : A → view → option nat → Prop) s P H V k o (c : code A) :
  inv s P H V → safe sw Q (V k) (P k) (CCur o c) →
  ∃ v', safe sw Q v' o c ∧ sw = true ∧ inv s (<[k:=o]> P) (<[k:=H k]> H) (<[k:=v']> V).
Proof.
  intros I [Hsw Hs]. fold (@safe A) in Hs. destruct (P k) as [i|] eqn:Ep, o as [i'|], (V k) as [|j|j x r t] eqn:Ev; try done;
    destruct Hs as (<- & -> & Hs); (eexists; split_and!; [exact Hs|done|]);
    (eapply inv_ext; [intros j; reflexivity|intros j; by cpus|intros j; reflexivity|]); by eapply inv_cur.
Qed.

(** A statement that [safe] permits keeps the invariant. *)
Lemma act_inv {A} sw (Q : A → view → option nat → Prop) s P H V k c c' o' h' s' :
  inv s P H V → safe sw Q (V k) (P k) c → act H (P k) (H k) s c c' o' h' s' →
  ∃ v', safe sw Q v' o' c' ∧ (sw = false → o' = P k) ∧ inv s' (<[k:=o']> P) (<[k:=h']> H) (<[k:=v']> V).
Proof.
  intros I Hs Ha. destruct Ha as [l c Hf Hl|l c Hl|i c p Hp|i x c|c|o c|B m c b w pid ct s' Em Hh].
  - destruct (act_acq _ _ _ _ _ _ _ _ _ I Hs Hf Hl) as (v' & ? & ?). eauto.
  - destruct (act_rel _ _ _ _ _ _ _ _ _ I Hs Hl) as (v' & ? & ?). eauto.
  - exists (V k). split_and!; [|done|by eapply inv_quiet]. apply Hs. destruct (V k) as [|j|j x r t] eqn:Ev; [done..|].
    intros <-. destruct (iv_know _ _ _ _ I k i x r t Ev) as [Hx _]. unfold states in Hx. rewrite list_lookup_fmap, Hp in Hx. by injection Hx.
  - cbn [safe] in Hs. destruct (V k) as [|j|j y r t] eqn:Ev; [done..|]. destruct Hs as (<- & Hu & Hs). eexists. split_and!; [exact Hs|done|].
    eapply inv_ext; [intros j; by cpus..|intros j; reflexivity|]. eapply inv_state; [exact I|exact Ev|done|].
    apply (proj2 (states_set_state i x (mkctx [] [] 0) s)).
  - exists (V k). split_and!; [exact Hs|done|by eapply inv_quiet].
  - destruct (act_cur _ _ _ _ _ _ _ _ _ I Hs) as (v' & ? & -> & ?). by exists v'.
  - destruct Hs as [He Hs]. exists (V k). split_and!; [apply Hs|done|]. apply (inv_quiet s); [|done].
    specialize (He (mkctx (H k) w pid) (set_cur (P k) s)). rewrite Em in He. apply He.
Qed.

(** *** Threads *)

(** Each CPU's function is safe from what the CPU knows, and ends as its caller expects. *)
Definition typed (v : view) (o : option nat) (t : thread) : Prop :=
  match t with
  | TSched => v = VNone ∧ o = None
  | TIntr c => safe true (ends VNone None) v o c
  | TPick i c =>
      safe true (λ (b : bool) v o, if b then v = VHeld i RUNNING true false ∧ o = Some i else v = VNone ∧ o = None) v o c
  | TResume i c => o = Some i ∧ safe false (ends VNone (Some i)) v o c
  | TProc i => v = VNone ∧ o = Some i
  | TOp i c => o = Some i ∧ safe false (λ (b : bool) v o, o = Some i ∧ if b then left_cpu i v else v = VNone) v o c
  | TBack i c => safe true (ends VNone None) v o c
  end.

Definition minv (m : mach) : Prop := ∃ V, inv (m_ps m) (m_proc m) (m_held m) V ∧ ∀ k, typed (V k) (m_proc m k) (m_thr m k).

Lemma typed_act A (T : code A → thread) s P H V k c c' o h s' :
  inside A T → inv s P H V → typed (V k) (P k) (T c) → act H (P k) (H k) s c c' o h s' →
  ∃ v, typed v o (T c') ∧ inv s' (<[k:=o]> P) (<[k:=h]> H) (<[k:=v]> V).
Proof.
  intros Hin I Ht Ha. destruct Hin as [|i|i|i|i]; try destruct Ht as [Ho Ht];
    destruct (act_inv _ _ _ _ _ _ _ _ _ _ _ _ I Ht Ha) as (v & Hs & Hp & I'); exists v; (split; [|done]); try done;
    rewrite Hp in * by done; by rewrite Ho in *.
Qed.

Lemma typed_turn kend trampoline forkret v o t t' :
  turn kend trampoline forkret t t' → typed v o t → typed v o t'.
Proof.
  destruct 1 as [ch| |i|i|i c Hc|i|i c Hc|i|i|i]; cbn [typed safe].
  - intros [-> ->]. apply wakeup_safe.
  - done.
  - intros [-> ->]. apply pick_safe.
  - done.
  - intros [-> ->]. split; [done|by apply resume_safe].
  - intros [-> [-> _]]. done.
  - intros [-> ->]. split; [done|by eapply calls_safe].
  - intros [_ [-> ->]]. done.
  - intros [_ [-> Hv]]. by apply back_safe.
  - done.
Qed.

Lemma typed_upd V P t k v o (T : nat → thread) :
  (∀ j, typed (V j) (P j) (T j)) → typed v o t → ∀ j, typed (<[k:=v]> V j) (<[k:=o]> P j) (<[k:=t]> T j).
Proof. intros HT Ht j. by cpus. Qed.

Lemma mstep_inv kend trampoline forkret m m' : minv m → mstep kend trampoline forkret m m' → minv m'.
Proof.
  intros (V & I & HT) Hs. destruct Hs as [k A T c c' o h s Hin Ek Ha|k t Ht|k i c o h s Ek Hc Ha].
  - pose proof (HT k) as Hk. rewrite Ek in Hk. destruct (typed_act _ _ _ _ _ _ _ _ _ _ _ _ Hin I Hk Ha) as (v & Hv & I').
    exists (<[k:=v]> V). split; [done|by apply typed_upd].
  - exists (<[k:=V k]> V). split; [by eapply inv_quiet|]. apply typed_upd; [done|]. by eapply typed_turn.
  - pose proof (HT k) as Hk. rewrite Ek in Hk. destruct Hk as [Hv Hp].
    assert (Hsafe : safe false (ends VNone (Some i)) (V k) (m_proc m k) c).
    { rewrite Hv, Hp. destruct Hc as [l Hl|l Hl|op He]; cbn; [by rewrite Hl..|]. by split. }
    destruct (act_inv _ _ _ _ _ _ _ _ _ _ _ _ I Hsafe Ha) as (v & Hs & Ho & I'). exists (<[k:=v]> V). split; [done|].
    apply typed_upd; [done|]. destruct Hs as [-> ->]. done.
Qed.
End invariant.

(** ** Properties *)

(** C25. Any number of CPUs, each starting in the loop of scheduler with no lock held, and no process
    RUNNING.  They execute the functions of proc.c (scheduler, yield, sleep, wakeup, kexit, kwait, kkill,
    kfork with allocproc and freeproc) in any interleaving of their statements, where acquire waits
    until no CPU holds the lock.  Then at every moment no process is c->proc of two CPUs, no two CPUs are on
    the kernel stack of one process, and, whenever no CPU holds p->lock, p->state is RUNNING exactly when
    a CPU runs the process. *)
Theorem run_exclusive kend trampoline forkret m0 m :
  (∀ k, m_proc m0 k = None ∧ m_held m0 k = [] ∧ m_thr m0 k = TSched) →
  (∀ i, states (m_ps m0) !! i ≠ Some RUNNING) →
  rtc (mstep kend trampoline forkret) m0 m →
  (∀ k k' i, m_proc m k = Some i → m_proc m k' = Some i → k = k') ∧
  (∀ k k' i, on_stack (m_thr m k) i → on_stack (m_thr m k') i → k = k') ∧
  (∀ i, (∀ k, LK_proc i ∉ m_held m k) → states (m_ps m) !! i = Some RUNNING ↔ ∃ k, m_proc m k = Some i).
Proof.
  intros Hcpu Hrun Hs. assert (H0 : minv m0).
  { exists (λ _, VNone). destruct m0 as [s P H T]. cbn in *. split; [split|intros k; by destruct (Hcpu k) as (-> & _ & ->)]; try done.
    - intros k i. destruct (Hcpu k) as (_ & -> & _). rewrite elem_of_nil. naive_solver.
    - intros k k' l. destruct (Hcpu k) as (_ & -> & _). by rewrite elem_of_nil.
    - intros k. destruct (Hcpu k) as (_ & -> & _). constructor.
    - intros i _. split; [intros E; by destruct (Hrun i)|]. intros [k E]. by destruct (Hcpu k) as (E' & _); rewrite E' in E.
    - intros k k' i E. by destruct (Hcpu k) as (E' & _); rewrite E' in E. }
  clear Hcpu Hrun. assert (Hm : minv m) by (induction Hs; [done|eauto using mstep_inv]). destruct Hm as (V & I & HT).
  split_and!; [apply (iv_one _ _ _ _ I)| |apply (iv_free _ _ _ _ I)].
  assert (Hst : ∀ k i, on_stack (m_thr m k) i → m_proc m k = Some i).
  { intros k i. specialize (HT k). destruct (m_thr m k); try done; cbn; intros <-; apply HT. }
  intros k k' i H1%Hst H2%Hst. by eapply (iv_one _ _ _ _ I).
Qed.

(** *** Witness

    CPUs 0 and 1 both reach the runnable process 0; CPU 0 gets the lock and runs the process, which
    releases the lock; CPU 1 then gets it, finds the process RUNNING and goes on. *)
Definition demo_mach : mach := mkmach demo_ps (λ _, None) (λ _, []) (λ _, TSched).

Ltac code_step k i T HT := eapply rtc_l; [eapply (ms_code _ _ _ _ k _ (T i)); [apply HT|cbn; by cpus|]|].
Ltac turn_step k t := eapply rtc_l; [apply (ms_turn _ _ _ _ k); cbn [m_thr upd]; cpus; apply t|].

Lemma pick_path kend trampoline forkret m k i p :
  m_thr m k = TPick i (sched_pick_code i) → lock_free (m_held m) (LK_proc i) →
  ps_proc (m_ps m) !! i = Some p → p_state p = RUNNABLE →
  ∃ m', rtc (mstep kend trampoline forkret) m m' ∧ m_thr m' k = TProc i ∧
    m_ps m' = set_procs (alter (set_state RUNNING) i (ps_proc (m_ps m))) (m_ps m) ∧
    (∀ j, m_held m' j = m_held m j) ∧ ∀ j, j ≠ k → m_thr m' j = m_thr m j.
Proof.
  intros Ht Hf Hp Hs. eexists. split.
  - eapply rtc_l; [eapply (ms_code _ _ _ _ k _ (TPick i)); [apply in_pick|exact Ht|]; apply a_acq; [done|]|].
    { intros j [= <-]. by eapply lookup_lt_Some. }
    code_step k i TPick in_pick; [by apply a_get|]. cbn beta. rewrite decide_True by done.
    code_step k i TPick in_pick; [apply a_state|].
    code_step k i TPick in_pick; [apply a_cur|].
    turn_step k (tu_switch kend trampoline forkret i _ res_yield).
    code_step k i TResume in_resume; [apply a_my|]. cbn [m_proc upd]. cpus.
    code_step k i TResume in_resume; [apply a_rel; cbn [m_held upd]; cpus; left|].
    turn_step k (tu_resumed kend trampoline forkret i). apply rtc_refl.
  - cbn [m_thr m_ps m_held upd]. split_and!; [by cpus|done|intros j|intros j Hj; by cpus].
    cpus; [apply drop_lock_head|done].
Qed.

Lemma skip_path kend trampoline forkret m k i p :
  m_thr m k = TPick i (sched_pick_code i) → lock_free (m_held m) (LK_proc i) →
  ps_proc (m_ps m) !! i = Some p → p_state p ≠ RUNNABLE →
  ∃ m', rtc (mstep kend trampoline forkret) m m' ∧ m_thr m' k = TSched ∧ ∀ j, j ≠ k → m_thr m' j = m_thr m j.
Proof.
  intros Ht Hf Hp Hs. eexists. split.
  - eapply rtc_l; [eapply (ms_code _ _ _ _ k _ (TPick i)); [apply in_pick|exact Ht|]; apply a_acq; [done|]|].
    { intros j [= <-]. by eapply lookup_lt_Some. }
    code_step k i TPick in_pick; [by apply a_get|]. cbn beta. rewrite decide_False by done.
    code_step k i TPick in_pick; [apply a_rel; cbn [m_held upd]; cpus; left|].
    turn_step k (tu_skip kend trampoline forkret i). apply rtc_refl.
  - cbn [m_thr upd]. split_and!; [by cpus|intros j Hj; by cpus].
Qed.

Lemma run_exclusive_witness :
  ∃ m, m_thr m 0%nat = TProc 0 ∧ m_thr m 1%nat = TSched ∧
    (∀ k k' i, m_proc m k = Some i → m_proc m k' = Some i → k = k') ∧
    (∀ k k' i, on_stack (m_thr m k) i → on_stack (m_thr m k') i → k = k') ∧
    (∀ i, (∀ k, LK_proc i ∉ m_held m k) → states (m_ps m) !! i = Some RUNNING ↔ ∃ k, m_proc m k = Some i).
Proof.
  set (ma := upd (upd demo_mach 0 demo_ps None [] (TPick 0 (sched_pick_code 0))) 1 demo_ps None [] (TPick 0 (sched_pick_code 0))).
  assert (Ha : rtc (mstep KERNBASE 0 0) demo_mach ma).
  { eapply rtc_l; [apply (ms_turn _ _ _ demo_mach 0), (tu_pick _ _ _ 0)|].
    eapply rtc_l; [|apply rtc_refl]. apply (ms_turn KERNBASE 0 0 (upd demo_mach 0 demo_ps None [] (TPick 0 (sched_pick_code 0))) 1), (tu_pick _ _ _ 0). }
  assert (Hfree : ∀ j, m_held ma j = []) by (intros j; cbn [m_held ma upd]; by cpus).
  destruct (pick_path KERNBASE 0 0 ma 0 0 (set_pid 1 (set_state RUNNABLE demo_proc))) as (mb & Hb & Hb0 & Eb & Hh & Hb1);
    [done|intros j; rewrite Hfree; apply not_elem_of_nil|done|done|].
  destruct (skip_path KERNBASE 0 0 mb 1 0 (set_state RUNNING (set_pid 1 (set_state RUNNABLE demo_proc)))) as (mc & Hc & Hc1 & Hc0);
    [by rewrite Hb1|intros j; rewrite Hh, Hfree; apply not_elem_of_nil|by rewrite Eb|done|].
  exists mc. split; [by rewrite Hc0|]. split; [done|]. apply (run_exclusive KERNBASE 0 0 demo_mach); [done|apply demo_not_running|].
  etrans; [exact Ha|]. etrans; [exact Hb|exact Hc].
Defined.
