(* ===== verification/File.v ===== *)
(** * Open files and pipes (kernel/file.c, kernel/pipe.c, file.h)

    The file table over the file system of file Fs, and the pipes.  A pipe lives in a page obtained
    from the page allocator; the model keeps its fields in a map from the page's address.  Of the
    running process the code uses, besides the copy functions, the page allocator and [killed]: class
    [ProcOps].  The device switch is a table of functions given as arguments. *)

From stdpp Require Import base list functions sets numbers strings.
From Stdlib Require Import ZArith Lia.
From S2P Require Import Prelude Machine Ring Kstring BlockCache Sleeplock Bio Log TxStore Fs.

Class ProcOps (U : Type) := {
  u_kalloc : M U Z;
  u_kfree : Z → M U unit;
  u_killed : M U Z                   (* killed(myproc()) *)
}.

(** [struct file] *)
Inductive ftype := FD_NONE | FD_PIPE | FD_INODE | FD_DEVICE.

#[global] Instance ftype_eq_dec : EqDecision ftype.
Proof. solve_decision. Defined.

Record file := mkfile {
  f_type : ftype;
  f_ref : Z;
  f_readable : bool;
  f_writable : bool;
  f_pipe : Z;
  f_ip : option nat;
  f_off : Z;
  f_major : Z
}.

(** [struct pipe] without its lock. *)
Definition PIPESIZE : Z := 512.
Record pipe := mkpipe {
  pi_data : list Z;
  pi_nread : Z;
  pi_nwrite : Z;
  pi_readopen : bool;
  pi_writeopen : bool
}.

Record fstate (L U : Type) := mkfst {
  fi_fs : fsys L U;
  fi_file : list file;
  fi_pipe : Z → pipe
}.
Arguments mkfst {L U} fi_fs fi_file fi_pipe.
Arguments fi_fs {L U} f.
Arguments fi_file {L U} f.
Arguments fi_pipe {L U} f.

Definition set_fref (n : Z) (f : file) : file :=
  mkfile (f_type f) n (f_readable f) (f_writable f) (f_pipe f) (f_ip f) (f_off f) (f_major f).
Definition set_ftype (t : ftype) (f : file) : file :=
  mkfile t (f_ref f) (f_readable f) (f_writable f) (f_pipe f) (f_ip f) (f_off f) (f_major f).
Definition set_foff (n : Z) (f : file) : file :=
  mkfile (f_type f) (f_ref f) (f_readable f) (f_writable f) (f_pipe f) (f_ip f) n (f_major f).
(** The fields [pipealloc] and [sys_open] set. *)
Definition set_fpipe (r w : bool) (pi : Z) (f : file) : file :=
  mkfile FD_PIPE (f_ref f) r w pi (f_ip f) (f_off f) (f_major f).
Definition set_fmode (r w : bool) (ip : option nat) (f : file) : file :=
  mkfile (f_type f) (f_ref f) r w (f_pipe f) ip (f_off f) (f_major f).
Definition set_fmajor (n : Z) (f : file) : file :=
  mkfile (f_type f) (f_ref f) (f_readable f) (f_writable f) (f_pipe f) (f_ip f) (f_off f) n.

Section file.
Context {L U : Type} `{TxOps L} `{UserOps U} `{ProcOps U}.
Abbreviation ST := (fstate L U).
(** devsw[major].read(1, addr, n) and .write, where they are not null; the bytes of [struct stat]
    between nlink and size, which the compiler leaves as they are on the stack. *)
Context (dev_read dev_write : Z → option (Z → Z → M ST Z)) (stat_pad : list Z).

Definition fs_lens : lens ST (fsys L U) := mklens fi_fs (λ x s, mkfst x (fi_file s) (fi_pipe s)).
Definition usr_lens : lens ST U :=
  mklens (λ s, fs_user (fi_fs s)) (λ u s, mkfst (lset user_lens u (fi_fs s)) (fi_file s) (fi_pipe s)).

Definition infs {A} (m : M (fsys L U) A) : M ST A := zoom fs_lens m.
Definition inusr {A} (m : M U A) : M ST A := zoom usr_lens m.

Definition getf (i : nat) : M ST file :=
  do s <- kget;
  match fi_file s !! i with Some f => kret f | None => undefined "ftable.file[i]" end.
Definition modf (i : nat) (g : file → file) : M ST unit :=
  kmod (λ s, mkfst (fi_fs s) (alter g i (fi_file s)) (fi_pipe s)).
Definition getpi (pi : Z) : M ST pipe := kgets (λ s, fi_pipe s pi).
Definition modpi (pi : Z) (g : pipe → pipe) : M ST unit :=
  kmod (λ s, mkfst (fi_fs s) (fi_file s) (<[pi:=g (fi_pipe s pi)]> (fi_pipe s))).

(** f->ip, where it is dereferenced. *)
Definition file_ip (f : file) : M ST nat :=
  match f_ip f with Some i => kret i | None => undefined "f->ip == 0" end.

(** ** Pipes *)

Definition set_nread (n : Z) (p : pipe) : pipe := mkpipe (pi_data p) n (pi_nwrite p) (pi_readopen p) (pi_writeopen p).
Definition set_readopen (b : bool) (p : pipe) : pipe := mkpipe (pi_data p) (pi_nread p) (pi_nwrite p) b (pi_writeopen p).
Definition set_writeopen (b : bool) (p : pipe) : pipe := mkpipe (pi_data p) (pi_nread p) (pi_nwrite p) (pi_readopen p) b.
(** [pi->data[pi->nwrite++ % PIPESIZE] = ch] *)
Definition pipe_put (ch : Z) (p : pipe) : pipe :=
  mkpipe (<[Z.to_nat (pi_nwrite p mod PIPESIZE):=ch]> (pi_data p)) (pi_nread p) (u32 (pi_nwrite p + 1))
    (pi_readopen p) (pi_writeopen p).

Definition pipeclose (pi : Z) (writable : bool) : M ST unit :=
  acquire (LK_pipe pi) ;;;
  (if writable then modpi pi (set_writeopen false) ;;; wakeup (CH_nread pi)
   else modpi pi (set_readopen false) ;;; wakeup (CH_nwrite pi)) ;;;
  do p <- getpi pi;
  if negb (pi_readopen p) && negb (pi_writeopen p) then
    release (LK_pipe pi) ;;; inusr (u_kfree pi)
  else release (LK_pipe pi).

(** How the loop of [pipewrite] stops: [i] bytes written and the loop left, an error, or the pipe
    full after [i] bytes, where the process sleeps and continues with this [i]. *)
Inductive pwres := PWdone (i : Z) | PWfail | PWfull (i : Z).

Fixpoint pipewrite_loop (fuel : nat) (pi addr n i : Z) : M ST pwres :=
  if i <? n then
    match fuel with
    | O => nofuel
    | S fuel' =>
        do p <- getpi pi;
        do k <- (if negb (pi_readopen p) then kret 1 else inusr u_killed);
        if negb (k =? 0) then kret PWfail
        else
          do p <- getpi pi;
          if pi_nwrite p =? u32 (pi_nread p + PIPESIZE) then kret (PWfull i)
          else
            do r <- inusr (u_copyin (u64 (addr + i)) 1);
            if r.1 =? -1 then kret (PWdone i)
            else
              modpi pi (pipe_put (nth 0 r.2 0)) ;;;
              pipewrite_loop fuel' pi addr n (i + 1)
    end
  else kret (PWdone i).

(** [pipewrite] with [i] bytes already written. *)
Definition pipewrite_from (pi addr n i : Z) : M ST Z :=
  acquire (LK_pipe pi) ;;;
  do r <- pipewrite_loop (Z.to_nat n) pi addr n i;
  match r with
  | PWdone i => wakeup (CH_nread pi) ;;; release (LK_pipe pi) ;;; kret i
  | PWfail => release (LK_pipe pi) ;;; kret (-1)
  | PWfull i => wakeup (CH_nread pi) ;;; sleep (CH_nwrite pi) (LK_pipe pi)
  end.
Definition pipewrite (pi addr n : Z) : M ST Z := pipewrite_from pi addr n 0.

(** The copying loop of [piperead]: the final value of [i]. *)
Fixpoint piperead_loop (fuel : nat) (pi addr n i : Z) : M ST Z :=
  if i <? n then
    match fuel with
    | O => nofuel
    | S fuel' =>
        do p <- getpi pi;
        if pi_nread p =? pi_nwrite p then kret i
        else
          let ch := nth (Z.to_nat (pi_nread p mod PIPESIZE)) (pi_data p) 0 in
          do r <- inusr (u_copyout (u64 (addr + i)) [ch]);
          if r =? -1 then kret (if i =? 0 then -1 else i)
          else
            modpi pi (λ p, set_nread (u32 (pi_nread p + 1)) p) ;;;
            piperead_loop fuel' pi addr n (i + 1)
    end
  else kret i.

Definition piperead (pi addr n : Z) : M ST Z :=
  acquire (LK_pipe pi) ;;;
  do p <- getpi pi;
  if (pi_nread p =? pi_nwrite p) && pi_writeopen p then
    do k <- inusr u_killed;
    if negb (k =? 0) then release (LK_pipe pi) ;;; kret (-1)
    else sleep (CH_nread pi) (LK_pipe pi)
  else
    do i <- piperead_loop (Z.to_nat n) pi addr n 0;
    wakeup (CH_nwrite pi) ;;;
    release (LK_pipe pi) ;;;
    kret i.

(** ** The file table *)

Fixpoint filealloc_loop (n i : nat) : M ST (option nat) :=
  match n with
  | O => release LK_ftable ;;; kret None
  | S n' =>
      do f <- getf i;
      if f_ref f =? 0 then
        modf i (set_fref 1) ;;; release LK_ftable ;;; kret (Some i)
      else filealloc_loop n' (S i)
  end.

Definition filealloc : M ST (option nat) :=
  acquire LK_ftable ;;; filealloc_loop NFILE 0.

Definition filedup (i : nat) : M ST nat :=
  acquire LK_ftable ;;;
  do f <- getf i;
  if f_ref f <? 1 then panic "filedup"
  else
    modf i (set_fref (s32 (f_ref f + 1))) ;;;
    release LK_ftable ;;;
    kret i.

Definition fileclose (i : nat) : M ST unit :=
  acquire LK_ftable ;;;
  do f <- getf i;
  if f_ref f <? 1 then panic "fileclose"
  else
    modf i (set_fref (f_ref f - 1)) ;;;
    if 0 <? f_ref f - 1 then release LK_ftable
    else
      do ff <- getf i;
      modf i (λ f, set_ftype FD_NONE (set_fref 0 f)) ;;;
      release LK_ftable ;;;
      match f_type ff with
      | FD_PIPE => pipeclose (f_pipe ff) (f_writable ff)
      | FD_INODE | FD_DEVICE =>
          infs fbegin_op ;;;
          do ip <- file_ip ff;
          infs (iput ip) ;;;
          infs fend_op
      | FD_NONE => kret tt
      end.

(** [pipealloc]; the label [bad] after the two calls of [filealloc]. *)
Definition pipealloc_bad (f0 f1 : option nat) : M ST (option (nat * nat)) :=
  match f0 with Some i => fileclose i | None => kret tt end ;;;
  match f1 with Some i => fileclose i | None => kret tt end ;;;
  kret None.

Definition pipealloc : M ST (option (nat * nat)) :=
  do f0 <- filealloc;
  match f0 with
  | None => pipealloc_bad None None
  | Some a =>
      do f1 <- filealloc;
      match f1 with
      | None => pipealloc_bad f0 None
      | Some b =>
          do pi <- inusr u_kalloc;
          if pi =? 0 then pipealloc_bad f0 f1
          else
            (* kalloc has cleared the page *)
            modpi pi (λ _, mkpipe (replicate (Z.to_nat PIPESIZE) 0) 0 0 true true) ;;;
            modf a (set_fpipe true false pi) ;;;
            modf b (set_fpipe false true pi) ;;;
            kret (Some (a, b))
      end
  end.

(** ** Operations on open files *)

(** [struct stat] as bytes: dev, ino, type, nlink, four bytes of padding, size. *)
Definition stat_bytes (st : stat) : list Z :=
  le_split 4 (u32 (st_dev st)) ++ le_split 4 (u32 (st_ino st)) ++ le_split 2 (u16 (st_type st)) ++
  le_split 2 (u16 (st_nlink st)) ++ stat_pad ++ le_split 8 (st_size st).

Definition filestat (i : nat) (addr : Z) : M ST Z :=
  do f <- getf i;
  match f_type f with
  | FD_INODE | FD_DEVICE =>
      do ip <- file_ip f;
      infs (ilock ip) ;;;
      do st <- infs (stati ip);
      infs (iunlock ip) ;;;
      do r <- inusr (u_copyout addr (stat_bytes st));
      kret (if r <? 0 then -1 else 0)
  | _ => kret (-1)
  end.

Definition fileread (i : nat) (addr n : Z) : M ST Z :=
  do f <- getf i;
  if negb (f_readable f) then kret (-1)
  else
    match f_type f with
    | FD_PIPE => piperead (f_pipe f) addr n
    | FD_DEVICE =>
        if (f_major f <? 0) || (NDEV <=? f_major f) then kret (-1)
        else match dev_read (f_major f) with Some rd => rd addr n | None => kret (-1) end
    | FD_INODE =>
        do ip <- file_ip f;
        infs (ilock ip) ;;;
        do f <- getf i;
        do r <- infs (readi ip (UserAddr addr) (f_off f) (u32 n));
        (if 0 <? r.1 then modf i (set_foff (u32 (f_off f + r.1))) else kret tt) ;;;
        infs (iunlock ip) ;;;
        kret r.1
    | FD_NONE => panic "fileread"
    end.

(** The bytes one transaction of [filewrite] writes at most. *)
Definition FILEMAX : Z := (MAXOPBLOCKS - 1 - 1 - 2) / 2 * BSIZE.

(** The loop of [filewrite] for an inode: the final value of [i]. *)
Fixpoint filewrite_loop (fuel : nat) (i : nat) (addr n k : Z) : M ST Z :=
  if k <? n then
    match fuel with
    | O => nofuel
    | S fuel' =>
        let n1 := Z.min (n - k) FILEMAX in
        do f <- getf i;
        infs fbegin_op ;;;
        do ip <- file_ip f;
        infs (ilock ip) ;;;
        do f <- getf i;
        do r <- infs (writei ip (UserAddr (u64 (addr + k))) [] (f_off f) n1);
        (if 0 <? r then modf i (set_foff (u32 (f_off f + r))) else kret tt) ;;;
        infs (iunlock ip) ;;;
        infs fend_op ;;;
        if negb (r =? n1) then kret k
        else filewrite_loop fuel' i addr n (k + r)
    end
  else kret k.

Definition filewrite (i : nat) (addr n : Z) : M ST Z :=
  do f <- getf i;
  if negb (f_writable f) then kret (-1)
  else
    match f_type f with
    | FD_PIPE => pipewrite (f_pipe f) addr n
    | FD_DEVICE =>
        if (f_major f <? 0) || (NDEV <=? f_major f) then kret (-1)
        else match dev_write (f_major f) with Some wr => wr addr n | None => kret (-1) end
    | FD_INODE =>
        do k <- filewrite_loop (Z.to_nat n) i addr n 0;
        kret (if k =? n then n else -1)
    | FD_NONE => panic "filewrite"
    end.
End file.

(** ** A pipe is a queue

    [pipeq]: the bytes between the two counters, oldest first.  The counters are 32-bit and wrap. *)
Definition pipe_len (p : pipe) : Z := udist (pi_nread p) (pi_nwrite p).
Definition pipeq (p : pipe) : list Z := rseg PIPESIZE (pi_data p) (pi_nread p) (pipe_len p).

Record pipe_ok (p : pipe) : Prop := mkpok {
  po_data : length (pi_data p) = Z.to_nat PIPESIZE;
  po_read : 0 <= pi_nread p < 2 ^ 32;
  po_write : 0 <= pi_nwrite p < 2 ^ 32;
  po_len : pipe_len p <= PIPESIZE
}.

Lemma pipe_pos : 0 < PIPESIZE.
Proof. done. Qed.
Lemma pipe_div : (PIPESIZE | 2 ^ 32).
Proof. by exists (2 ^ 23). Qed.

Lemma pipe_len_range p : 0 <= pipe_len p < 2 ^ 32.
Proof. apply udist_range. Qed.

Lemma length_pipeq p : Z.of_nat (length (pipeq p)) = pipe_len p.
Proof. unfold pipeq. rewrite length_rseg. apply Z2Nat.id, pipe_len_range. Qed.

Lemma pipe_empty p : pipe_ok p → (pi_nread p =? pi_nwrite p) = bool_decide (pipeq p = []).
Proof.
  intros [_ Hr Hw _]. pose proof (length_pipeq p) as Hl. pose proof (udist_zero _ _ Hr Hw) as Hz. fold (pipe_len p) in Hz.
  destruct (Z.eqb_spec (pi_nread p) (pi_nwrite p)) as [E|E]; symmetry.
  - apply bool_decide_eq_true_2, length_zero_iff_nil. lia.
  - apply bool_decide_eq_false_2. intros Eq. apply E, Hz. by rewrite Eq in Hl.
Qed.

Lemma pipe_full p : pipe_ok p → (pi_nwrite p =? u32 (pi_nread p + PIPESIZE)) = (pipe_len p =? PIPESIZE).
Proof.
  intros [_ Hr Hw _]. pose proof (udist_step _ _ Hr Hw) as Es. fold (pipe_len p) in Es.
  destruct (Z.eqb_spec (pipe_len p) PIPESIZE) as [E|E]; [rewrite E in Es; by apply Z.eqb_eq|].
  apply Z.eqb_neq. intros E2. apply E. unfold pipe_len. rewrite E2, udist_u32_r, udist_add; rewrite udist_refl; done.
Qed.

Lemma pipe_put_ok p ch : pipe_ok p → pipe_len p < PIPESIZE →
  pipe_ok (pipe_put ch p) ∧ pipeq (pipe_put ch p) = pipeq p ++ [ch].
Proof.
  intros [Hd Hr Hw _] Hl. pose proof (pipe_len_range p) as Hrg.
  assert (E : pipe_len (pipe_put ch p) = pipe_len p + 1).
  { unfold pipe_len in *. cbn [pipe_put pi_nread pi_nwrite]. rewrite udist_u32_r. apply udist_add. unfold PIPESIZE in Hl. lia. }
  split; [split; [|done|apply u32_range|lia]|].
  - unfold pipe_put. cbn [pi_data]. by rewrite length_insert.
  - unfold pipeq at 1. rewrite E. apply rseg_put; [apply pipe_pos|apply pipe_div|done|done|exact (proj1 Hr)].
Qed.

Lemma pipe_get_ok p b q : pipe_ok p → pipeq p = b :: q →
  nth (Z.to_nat (pi_nread p mod PIPESIZE)) (pi_data p) 0 = b ∧
  pipe_ok (set_nread (u32 (pi_nread p + 1)) p) ∧ pipeq (set_nread (u32 (pi_nread p + 1)) p) = q.
Proof.
  intros [Hd Hr Hw Hl] Hq. pose proof (length_pipeq p) as Hlen. rewrite Hq in Hlen. cbn [length] in Hlen.
  pose proof (pipe_len_range p) as Hrg.
  assert (E : pipe_len (set_nread (u32 (pi_nread p + 1)) p) = pipe_len p - 1).
  { unfold pipe_len in *. cbn [set_nread pi_nread pi_nwrite]. rewrite udist_u32_l. apply udist_sub. lia. }
  unfold pipeq in Hq. replace (pipe_len p) with (1 + (pipe_len p - 1)) in Hq by lia.
  rewrite rseg_app, rseg_one in Hq by lia. injection Hq as Hb Hq. split; [done|]. split.
  - split; [done|apply u32_range|done|lia].
  - unfold pipeq. rewrite E. cbn [set_nread pi_nread pi_data]. rewrite rseg_u32; [done|apply pipe_pos|apply pipe_div].
Qed.

Section pipes.
Context {L U : Type} `{TxOps L} `{UserOps U} `{ProcOps U}.
Abbreviation ST := (fstate L U).
Implicit Types (s : ST) (c : kctx) (p : pipe) (q src : list Z) (pi addr n i : Z).

Definition usr s : U := fs_user (fi_fs s).

(** [s'] differs from [s] in pipe [pi] and in the process only. *)
Record pipe_only pi s s' : Prop := mkpo {
  pp_fs : fi_fs s' = lset user_lens (usr s') (fi_fs s);
  pp_file : fi_file s' = fi_file s;
  pp_pipe : ∀ x, x ≠ pi → fi_pipe s' x = fi_pipe s x
}.

Lemma pipe_only_refl pi s : pipe_only pi s s.
Proof. split; try done. by destruct s as [[] ? ?]. Qed.

Lemma pipe_only_trans pi s1 s2 s3 : pipe_only pi s1 s2 → pipe_only pi s2 s3 → pipe_only pi s1 s3.
Proof.
  intros [E1 F1 P1] [E2 F2 P2]. split; [|by rewrite F2|intros x Hx; by rewrite P2, P1].
  rewrite E2, E1. done.
Qed.

Lemma inusr_ret {A} (m : M U A) c s a c' u pi : m c (usr s) = Ret a c' u →
  ∃ s', inusr m c s = Ret a c' s' ∧ usr s' = u ∧ pipe_only pi s s' ∧ fi_pipe s' pi = fi_pipe s pi.
Proof. intros E. eexists. split; [by apply (zoom_ret usr_lens)|done]. Qed.

Lemma modpi_ret c s pi g :
  ∃ s', modpi pi g c s = Ret tt c s' ∧ usr s' = usr s ∧ pipe_only pi s s' ∧ fi_pipe s' pi = g (fi_pipe s pi).
Proof.
  eexists. split; [reflexivity|]. split; [done|]. split; [|cbn [fi_pipe]; by rewrite fn_lookup_insert].
  split; [by destruct s as [[] ? ?]|done|]. intros x Hx. cbn [fi_pipe]. by rewrite fn_lookup_insert_ne.
Qed.

(** *** Writing *)

(** The process can read the bytes [src] at [addr], and has not been killed. *)
Record supplies c addr src (J : U → Prop) : Prop := mksup {
  su_in : ∀ u (i : nat) b, J u → src !! i = Some b →
    ∃ u', u_copyin (u64 (addr + Z.of_nat i)) 1 c u = Ret (0, [b]) c u' ∧ J u';
  su_alive : ∀ u, J u → ∃ u', u_killed c u = Ret 0 c u' ∧ J u'
}.

(** The loop from count [k] with [m] bytes to go: it stops when the ring is full or the bytes are in. *)
Lemma pipewrite_loop_ok src addr J c pi m (k : nat) s :
  supplies c addr src J → J (usr s) → pipe_ok (fi_pipe s pi) → pi_readopen (fi_pipe s pi) = true →
  (k + m)%nat = length src →
  let room := Z.to_nat (PIPESIZE - pipe_len (fi_pipe s pi)) in
  ∃ s', pipewrite_loop m pi addr (Z.of_nat (length src)) (Z.of_nat k) c s =
      Ret (if decide (m ≤ room)%nat then PWdone (Z.of_nat (length src)) else PWfull (Z.of_nat (k + room))) c s' ∧
    pipe_only pi s s' ∧ J (usr s') ∧ pipe_ok (fi_pipe s' pi) ∧
    pipeq (fi_pipe s' pi) = pipeq (fi_pipe s pi) ++ take room (drop k src).
Proof.
  intros [Hin Hal]. revert k s. induction m as [|m IH]; intros k s HJ Hok Hro Hlen room; cbn [pipewrite_loop];
    [rewrite (proj2 (Z.ltb_ge _ _)) by lia|rewrite (proj2 (Z.ltb_lt _ _)) by lia].
  { exists s. rewrite decide_True by lia. rewrite drop_ge, take_nil, app_nil_r by lia.
    split; [unfold kret; f_equal; f_equal; lia|]. split; [apply pipe_only_refl|done]. }
  rewrite (kbind_ret _ _ _ _ (fi_pipe s pi) c s) by done. cbn beta. rewrite Hro. cbn [negb].
  destruct (Hal _ HJ) as (u1 & E1 & HJ1). destruct (inusr_ret u_killed c s 0 c u1 pi E1) as (s1 & R1 & <- & P1 & Q1).
  kstep R1. cbn [negb Z.eqb]. rewrite (kbind_ret _ _ _ _ (fi_pipe s1 pi) c s1) by done. cbn beta. rewrite Q1, pipe_full by done.
  pose proof (po_len _ Hok) as Hle. pose proof (pipe_len_range (fi_pipe s pi)) as Hrg.
  destruct (Z.eqb_spec (pipe_len (fi_pipe s pi)) PIPESIZE) as [Ef|Ef].
  - exists s1. assert (Er : room = 0%nat) by (unfold room; lia). rewrite decide_False, Er, take_0, app_nil_r, Q1 by lia.
    rewrite Nat.add_0_r. done.
  - destruct (lookup_lt_is_Some_2 src k) as [b Hb]; [lia|]. destruct (Hin (usr s1) k b HJ1 Hb) as (u2 & E2 & HJ2).
    destruct (inusr_ret _ c s1 _ c u2 pi E2) as (s2 & R2 & <- & P2 & Q2). kstep R2. cbn [fst snd Z.eqb nth].
    destruct (modpi_ret c s2 pi (pipe_put b)) as (s3 & R3 & U3 & P3 & Q3). kstep R3. rewrite Q2, Q1 in Q3.
    destruct (pipe_put_ok (fi_pipe s pi) b Hok ltac:(lia)) as [Hok3 Hq3]. rewrite <- Q3 in Hok3, Hq3.
    destruct (IH (S k) s3) as (s4 & R4 & P4 & HJ4 & Hok4 & Hq4); [by rewrite U3|done|by rewrite Q3|lia|].
    assert (El : pipe_len (fi_pipe s3 pi) = pipe_len (fi_pipe s pi) + 1).
    { rewrite <- !length_pipeq, Hq3, length_app. simpl. lia. }
    assert (Er : room = S (Z.to_nat (PIPESIZE - pipe_len (fi_pipe s3 pi)))) by (unfold room; lia).
    exists s4. split; [|split_and!; try done].
    + replace (Z.of_nat k + 1) with (Z.of_nat (S k)) by lia. rewrite R4, Er. f_equal.
      destruct (decide (S m ≤ S _)%nat), (decide (m ≤ _)%nat); try lia; [done|]. f_equal. lia.
    + eapply pipe_only_trans; [exact P1|]. eapply pipe_only_trans; [exact P2|]. by eapply pipe_only_trans.
    + rewrite Hq4, Hq3, Er, (drop_S src b k Hb), <- app_assoc. done.
Qed.

(** C10. [pipewrite] puts the caller's bytes into the pipe in order, after those already there.  When
    they fit it returns their number; otherwise it fills the pipe to PIPESIZE bytes and sleeps until a
    reader makes room.  The 32-bit counters may wrap. *)
Theorem pipewrite_appends src addr J pi h w me s :
  let c := mkctx h w me in let c1 := mkctx (LK_pipe pi :: h) w me in
  LK_pipe pi ∉ h → supplies c1 addr src J → J (usr s) → pipe_ok (fi_pipe s pi) → pi_readopen (fi_pipe s pi) = true →
  let room := Z.to_nat (PIPESIZE - pipe_len (fi_pipe s pi)) in
  ∃ s', pipewrite pi addr (Z.of_nat (length src)) c s =
      (if decide (length src ≤ room)%nat then Ret (Z.of_nat (length src)) (mkctx h (w ++ [CH_nread pi]) me) s'
       else if decide (h = []) then Asleep (CH_nwrite pi) (mkctx [] (w ++ [CH_nread pi]) me) s' else Panic "sched locks") ∧
    pipe_only pi s s' ∧ J (usr s') ∧ pipe_ok (fi_pipe s' pi) ∧
    pipeq (fi_pipe s' pi) = pipeq (fi_pipe s pi) ++ take room src.
Proof.
  intros c c1 Hlk Hsup HJ Hok Hro room.
  destruct (pipewrite_loop_ok src addr J c1 pi (length src) 0 s Hsup HJ Hok Hro eq_refl) as (s' & R & Hpo & HJ' & Hok' & Hq').
  rewrite drop_0 in Hq'. fold room in R. exists s'. split; [|by split_and!].
  unfold pipewrite, pipewrite_from. rewrite (kbind_ret _ _ _ _ tt c1 s) by (by apply acquire_mk). cbn beta.
  rewrite Nat2Z.id. kstep R. destruct (decide (length src ≤ room)%nat).
  - unfold wakeup, c1. rewrite (kbind_ret _ _ _ _ tt (mkctx (LK_pipe pi :: h) (w ++ [CH_nread pi]) me) s') by done. cbn beta.
    rewrite (kbind_ret _ _ _ _ tt (mkctx h (w ++ [CH_nread pi]) me) s') by apply release_mk. done.
  - unfold c1. rewrite (kbind_ret _ _ _ _ tt (mkctx (LK_pipe pi :: h) (w ++ [CH_nread pi]) me) s') by done. cbn beta.
    unfold sleep. cbn [held]. rewrite decide_True by constructor. rewrite drop_lock_head. by destruct h.
Qed.

(** *** Reading *)

(** The process can store bytes at [addr]; [I l u] says that it has received [l] there. *)
Definition receives c addr (I : list Z → U → Prop) : Prop :=
  ∀ u l b, I l u → ∃ u', u_copyout (u64 (addr + Z.of_nat (length l))) [b] c u = Ret 0 c u' ∧ I (l ++ [b]) u'.

Lemma piperead_loop_ok addr I c pi m l s :
  receives c addr I → I l (usr s) → pipe_ok (fi_pipe s pi) →
  let q := pipeq (fi_pipe s pi) in let k := Nat.min m (length q) in
  ∃ s', piperead_loop m pi addr (Z.of_nat (length l + m)) (Z.of_nat (length l)) c s =
      Ret (Z.of_nat (length l + k)) c s' ∧
    pipe_only pi s s' ∧ I (l ++ take k q) (usr s') ∧ pipe_ok (fi_pipe s' pi) ∧ pipeq (fi_pipe s' pi) = drop k q.
Proof.
  intros Hout. revert l s. induction m as [|m IH]; intros l s HI Hok q k; cbn [piperead_loop];
    [rewrite (proj2 (Z.ltb_ge _ _)) by lia|rewrite (proj2 (Z.ltb_lt _ _)) by lia].
  { exists s. unfold k. rewrite Nat.min_0_l, Nat.add_0_r, take_0, app_nil_r, drop_0.
    split; [done|]. split; [apply pipe_only_refl|done]. }
  rewrite (kbind_ret _ _ _ _ (fi_pipe s pi) c s) by done. cbn beta. rewrite pipe_empty by done. fold q.
  destruct q as [|b q'] eqn:Eq.
  - rewrite bool_decide_eq_true_2 by done. exists s. unfold k. cbn [length]. rewrite Nat.min_0_r, Nat.add_0_r, app_nil_r.
    split; [done|]. split; [apply pipe_only_refl|done].
  - rewrite bool_decide_eq_false_2 by done. destruct (pipe_get_ok _ b q' Hok Eq) as (Eb & Hok1 & Hq1). rewrite Eb.
    destruct (Hout _ l b HI) as (u1 & E1 & HI1). destruct (inusr_ret _ c s _ c u1 pi E1) as (s1 & R1 & <- & P1 & Q1).
    kstep R1. cbn [Z.eqb].
    destruct (modpi_ret c s1 pi (λ p, set_nread (u32 (pi_nread p + 1)) p)) as (s2 & R2 & U2 & P2 & Q2). kstep R2.
    rewrite Q1 in Q2. rewrite <- Q2 in Hok1, Hq1.
    destruct (IH (l ++ [b]) s2) as (s3 & R3 & P3 & HI3 & Hok3 & Hq3); [by rewrite U2|done|].
    rewrite Hq1, length_app in R3. rewrite Hq1 in HI3, Hq3. cbn [length] in R3.
    exists s3. split; [|split_and!; try done].
    + replace (Z.of_nat (length l + S m)) with (Z.of_nat (length l + 1 + m)) by lia.
      replace (Z.of_nat (length l) + 1) with (Z.of_nat (length l + 1)) by lia. rewrite R3. f_equal. unfold k. cbn [length]. lia.
    + eapply pipe_only_trans; [exact P1|]. by eapply pipe_only_trans.
    + unfold k. cbn [length Nat.min take]. by rewrite <- app_assoc in HI3.
Qed.

(** C11. [piperead] delivers the oldest bytes of the pipe in order, as many as asked for or as there
    are, and removes exactly those; it returns their number and wakes the writers.  On an empty pipe
    it returns 0 when the write side is closed and sleeps when it is open. *)
Theorem piperead_removes addr I pi (n : nat) h w me s :
  let c := mkctx h w me in let c1 := mkctx (LK_pipe pi :: h) w me in
  LK_pipe pi ∉ h → receives c1 addr I → I [] (usr s) → pipe_ok (fi_pipe s pi) →
  let q := pipeq (fi_pipe s pi) in let k := Nat.min n (length q) in
  (q ≠ [] ∨ pi_writeopen (fi_pipe s pi) = false →
   ∃ s', piperead pi addr (Z.of_nat n) c s = Ret (Z.of_nat k) (mkctx h (w ++ [CH_nwrite pi]) me) s' ∧
     pipe_only pi s s' ∧ I (take k q) (usr s') ∧ pipe_ok (fi_pipe s' pi) ∧ pipeq (fi_pipe s' pi) = drop k q) ∧
  (q = [] → pi_writeopen (fi_pipe s pi) = true → h = [] → (∃ u', u_killed c1 (usr s) = Ret 0 c1 u') →
   ∃ s', piperead pi addr (Z.of_nat n) c s = Asleep (CH_nread pi) c s' ∧ fi_pipe s' = fi_pipe s).
Proof.
  intros c c1 Hlk Hout HI Hok q k. unfold piperead.
  rewrite (kbind_ret _ _ _ _ tt c1 s) by (by apply acquire_mk). cbn beta.
  rewrite (kbind_ret _ _ _ _ (fi_pipe s pi) c1 s) by done. cbn beta. rewrite pipe_empty by done. fold q. split.
  - intros Hq. assert (E : bool_decide (q = []) && pi_writeopen (fi_pipe s pi) = false).
    { destruct Hq as [Hq|Hq]; [by rewrite bool_decide_eq_false_2|by rewrite Hq, andb_false_r]. }
    rewrite E, Nat2Z.id. destruct (piperead_loop_ok addr I c1 pi n [] s Hout HI Hok) as (s' & R & Hrest).
    exists s'. split; [|exact Hrest]. kstep R. unfold c1.
    rewrite (kbind_ret _ _ _ _ tt (mkctx (LK_pipe pi :: h) (w ++ [CH_nwrite pi]) me) s') by done. cbn beta.
    by rewrite (kbind_ret _ _ _ _ tt (mkctx h (w ++ [CH_nwrite pi]) me) s') by apply release_mk.
  - intros Hq Hw -> (u' & Ek). rewrite Hw, bool_decide_eq_true_2 by done. cbn [andb].
    destruct (inusr_ret _ c1 s _ c1 u' pi Ek) as (s' & R & _). kstep R. cbn [negb Z.eqb]. exists s'. split.
    + unfold sleep, c1. cbn [held]. rewrite decide_True by constructor. by rewrite drop_lock_head.
    + unfold inusr, zoom in R. cbn [lget usr_lens] in R. change (fs_user (fi_fs s)) with (usr s) in R. rewrite Ek in R.
      injection R as <-. done.
Qed.
End pipes.

(** ** Witnesses: a pipe whose counters are about to wrap, and a process with flat memory *)
#[local] Instance flat_user : UserOps mem := {
  u_copyout a l := (kmod (λ m, mwrite m a l) ;;; kret 0);
  u_copyin a n := (do m <- kget; kret (0, mread m a n))
}.
#[local] Instance flat_proc : ProcOps mem := {
  u_kalloc := kret 0;
  u_kfree _ := kret tt;
  u_killed := kret 0
}.

Definition demo_pipe : pipe :=
  mkpipe (<[510%nat:=8]> (<[509%nat:=7]> (replicate (Z.to_nat PIPESIZE) 5))) (2 ^ 32 - 3) (2 ^ 32 - 1) true true.
Definition demo_mem : mem := mwrite (λ _, 0) 100 [1; 2; 3; 4].
Definition demo_fst : fstate (lsys bdev) mem :=
  mkfst (mkfs (mkls (boot_dev (λ _, 0) 80) log0) demo_sb [] demo_mem) [] (λ _, demo_pipe).

Lemma demo_pipe_ok : pipe_ok demo_pipe.
Proof. split; [reflexivity|simpl; lia|simpl; lia|vm_compute; discriminate]. Qed.

Lemma pipewrite_appends_witness :
  ∃ s', pipewrite 4096 100 4 (mkctx [] [] 1) demo_fst = Ret 4 (mkctx [] [CH_nread 4096] 1) s' ∧
    pipeq (fi_pipe s' 4096) = [7; 8; 1; 2; 3; 4].
Proof.
  destruct (pipewrite_appends [1; 2; 3; 4] 100 (λ u, u = demo_mem) 4096 [] [] 1 demo_fst) as (s' & E & _ & _ & _ & Q).
  - apply not_elem_of_nil.
  - split; [|intros u ->; by eexists]. intros u i b -> Hb. exists demo_mem. split; [|done].
    destruct i as [|[|[|[|i]]]]; [injection Hb as <-; reflexivity..|done].
  - done.
  - exact demo_pipe_ok.
  - done.
  - exists s'. split; [exact E|]. rewrite Q. vm_compute. reflexivity.
Defined.

Lemma piperead_removes_witness :
  ∃ s', piperead 4096 100 1 (mkctx [] [] 1) demo_fst = Ret 1 (mkctx [] [CH_nwrite 4096] 1) s' ∧
    mread (usr s') 100 1 = [7] ∧ pipeq (fi_pipe s' 4096) = [8].
Proof.
  destruct (piperead_removes 100 (λ l u, (length l ≤ 1000)%nat → mread u 100 (length l) = l) 4096 1 [] [] 1 demo_fst) as [Hr _].
  - apply not_elem_of_nil.
  - intros u l b HI. eexists. split; [reflexivity|]. rewrite length_app. cbn [length]. intros Hl.
    unfold mread. rewrite Nat.add_1_r, seq_S, fmap_app. rewrite u64_small by lia. f_equal.
    + transitivity (mread u 100 (length l)); [|apply HI; lia]. apply list_fmap_ext. intros i k Hk. apply lookup_seq in Hk as [-> Hk].
      apply mwrite_out. lia.
    + cbn [fmap list_fmap]. f_equal. unfold mwrite. rewrite (proj2 (Z.leb_le _ _)), (proj2 (Z.ltb_lt _ _)) by (simpl; lia).
      rewrite Nat.add_0_l, Z.sub_diag. done.
  - done.
  - exact demo_pipe_ok.
  - destruct Hr as (s' & E & _ & HI & _ & Q); [left; vm_compute; discriminate|].
    exists s'. split; [exact E|]. split; [|rewrite Q; vm_compute; reflexivity]. apply HI. simpl. lia.
Defined.
