(* ===== verification/Fswrite.v ===== *)
(** * Writing files: [bmap] with allocation and [writei] (kernel/fs.c)

    A file is seen as a function from offsets to bytes ([wbyte]): a byte of a block that has not been allocated is 0.
    Allocating a block with [bmap] does not change that function; [writei] changes exactly the bytes written.  [wstep]
    says what both leave alone: blocks in use by others, the addresses the file has, the log up to the blocks
    that had to be logged.  The bound on those blocks is what filewrite's choice of the size of a transaction rests on. *)

From stdpp Require Import base list functions sets numbers strings.
From Stdlib Require Import ZArith Lia.
From S2P Require Import Prelude Machine Kstring BlockCache Sleeplock Bio Log TxStore Fs File.

Ltac fsconst := unfold MAXFILE, NDIRECT, NINDIRECT, BPB, bsize, BSIZE, LOGBLOCKS, MAXOPBLOCKS in *;
  change (1024 / 4) with 256 in *; change (1024 * 8) with 8192 in *.
Ltac fslia := fsconst; Z.div_mod_to_equations; lia.

(** ** Files as functions *)

(** Slot [s] of a file: its data block [s], or the indirect block. *)
Definition IB : Z := -1.
Definition slot (s : Z) : Prop := s = IB ∨ 0 <= s < MAXFILE.

(** The block of a slot, 0 when it has none. *)
Definition waddr (data : Z → block) (ip : inode) (s : Z) : Z :=
  if s =? IB then nth (Z.to_nat NDIRECT) (i_addrs ip) 0
  else if s <? NDIRECT then nth (Z.to_nat s) (i_addrs ip) 0
  else let a := nth (Z.to_nat NDIRECT) (i_addrs ip) 0 in if a =? 0 then 0 else ind_get (data a) (s - NDIRECT).

Definition wbyte (data : Z → block) (ip : inode) (x : Z) : Z :=
  let a := waddr data ip (x / BSIZE) in if a =? 0 then 0 else nth (Z.to_nat (x mod BSIZE)) (data a) 0.

Lemma waddr_ib data ip : waddr data ip IB = nth (Z.to_nat NDIRECT) (i_addrs ip) 0.
Proof. done. Qed.

Lemma waddr_direct data ip s : 0 <= s < NDIRECT → waddr data ip s = nth (Z.to_nat s) (i_addrs ip) 0.
Proof. intros. unfold waddr, IB. by rewrite (proj2 (Z.eqb_neq _ _)), (proj2 (Z.ltb_lt _ _)) by lia. Qed.

Lemma waddr_indirect data ip s : NDIRECT <= s →
  waddr data ip s = if waddr data ip IB =? 0 then 0 else ind_get (data (waddr data ip IB)) (s - NDIRECT).
Proof.
  intros. rewrite waddr_ib. unfold waddr, IB. fsconst. by rewrite (proj2 (Z.eqb_neq s _)), (proj2 (Z.ltb_ge _ _)) by lia.
Qed.

(** The addresses depend on the data only through the indirect block. *)
Lemma waddr_ext data data' ip s :
  (waddr data ip IB ≠ 0 → data' (waddr data ip IB) = data (waddr data ip IB)) → slot s → waddr data' ip s = waddr data ip s.
Proof.
  intros H [->|Hs]; [done|]. destruct (decide (s < NDIRECT)); [by rewrite !waddr_direct by lia|].
  rewrite (waddr_indirect data' ip s), (waddr_indirect data ip s) by lia. change (waddr data' ip IB) with (waddr data ip IB).
  destruct (Z.eqb_spec (waddr data ip IB) 0); [done|]. by rewrite H.
Qed.

(** ** The invariant of a file in a transaction *)

Section inv.
Context (sb : superblock) (inum : Z).

(** The bitmap block and the block of the inode. *)
Abbreviation bm := (BBLOCK 0 sb).
Abbreviation ib := (IBLOCK inum sb).

(** A data block. *)
Definition dblock (t : tview) (b : Z) : Prop := 0 < b ∧ home (t_start t) (t_size t) b ∧ b ≠ bm ∧ b ≠ ib.

(** The device has one bitmap block, as FSSIZE asks for; free blocks are data blocks; the blocks of the file are data blocks in use, each
    for one purpose. *)
Record finv (t : tview) (ip : inode) : Prop := mkfinv {
  fi_size : sb_size sb = t_size t;
  fi_max : 0 < t_size t <= BPB;
  fi_bm : home (t_start t) (t_size t) bm;
  fi_ib : home (t_start t) (t_size t) ib;
  fi_ne : bm ≠ ib;
  fi_ibu : bused sb (t_data t) ib = true;
  fi_len : ∀ b, 0 <= b < t_size t → length (t_data t b) = bsize;
  fi_boot : bused sb (t_data t) 0 = true;
  fi_free : ∀ b, 0 <= b < t_size t → bused sb (t_data t) b = false → dblock t b;
  fi_addrs : length (i_addrs ip) = Z.to_nat (NDIRECT + 1);
  fi_slot : ∀ s, slot s → waddr (t_data t) ip s ≠ 0 → dblock t (waddr (t_data t) ip s) ∧ bused sb (t_data t) (waddr (t_data t) ip s) = true;
  fi_inj : ∀ s s', slot s → slot s' → waddr (t_data t) ip s ≠ 0 → waddr (t_data t) ip s = waddr (t_data t) ip s' → s = s'
}.

Lemma BBLOCK_one (b : Z) : 0 <= b < BPB → BBLOCK b sb = bm.
Proof. intros. unfold BBLOCK. by rewrite !Z.div_small by (fsconst; lia). Qed.

Lemma bused_ext data data' (b : Z) : 0 <= b < BPB → data' bm = data bm → bused sb data' b = bused sb data b.
Proof. intros Hb E. unfold bused. by rewrite BBLOCK_one, E. Qed.

Lemma dblock_range t b : dblock t b → 0 < b < t_size t.
Proof. intros (H1 & [H2 _] & _). lia. Qed.

(** *** Allocation of a block that the file does not have yet *)

(** [t'] is [t] with the free block [r] taken and zeroed. *)
Record took (t t' : tview) (r : Z) : Prop := mktook {
  tk_size : t_size t' = t_size t;
  tk_start : t_start t' = t_start t;
  tk_range : 0 < r < t_size t;
  tk_free : bused sb (t_data t) r = false;
  tk_zero : t_data t' r = replicate bsize 0;
  tk_used : ∀ x, 0 <= x < t_size t → bused sb (t_data t') x = (x =? r) || bused sb (t_data t) x;
  tk_data : ∀ b, b ≠ r → b ≠ bm → t_data t' b = t_data t b;
  tk_bm : length (t_data t' bm) = bsize
}.

Lemma took_slot t t' r ip s : finv t ip → took t t' r → slot s → waddr (t_data t) ip s ≠ r ∧ waddr (t_data t') ip s = waddr (t_data t) ip s.
Proof.
  intros I T Hs. assert (Hne : ∀ s, slot s → waddr (t_data t) ip s ≠ r).
  { intros s' Hs' E. destruct (fi_slot _ _ I s' Hs') as [_ Hu]; [pose proof (tk_range _ _ _ T); lia|].
    rewrite E, (tk_free _ _ _ T) in Hu. done. }
  split; [by apply Hne|]. apply waddr_ext; [|done]. intros Hnz. apply (tk_data _ _ _ T); [by apply Hne; left|].
  destruct (fi_slot _ _ I IB (or_introl eq_refl) Hnz) as [(_ & _ & Hb & _) _]. done.
Qed.

Lemma took_byte t t' r ip (x : Z) : finv t ip → took t t' r → 0 <= x < MAXFILE * BSIZE → wbyte (t_data t') ip x = wbyte (t_data t) ip x.
Proof.
  intros I T Hx. assert (Hs : slot (x / BSIZE)) by (right; fslia). destruct (took_slot t t' r ip _ I T Hs) as [Hne E]. unfold wbyte. rewrite E.
  destruct (Z.eqb_spec (waddr (t_data t) ip (x / BSIZE)) 0) as [|Hnz]; [done|].
  destruct (fi_slot _ _ I _ Hs Hnz) as [(_ & _ & Hb & _) _]. by rewrite (tk_data _ _ _ T).
Qed.

Lemma took_inv t t' r ip : finv t ip → took t t' r → finv t' ip.
Proof.
  intros I T. pose proof (λ s, took_slot t t' r ip s I T) as Hs. pose proof I as [H1 H2 H3 H4 H5 Hibu H6 H7 H8 H9 H10 H11].
  pose proof (tk_size _ _ _ T) as Ez. pose proof (tk_start _ _ _ T) as Et. pose proof (tk_range _ _ _ T) as Hr.
  split; rewrite ?Ez, ?Et; try done.
  - rewrite (tk_used _ _ _ T), Hibu by (destruct H4; lia). by rewrite orb_true_r.
  - intros b Hb. destruct (decide (b = r)) as [->|]; [by rewrite (tk_zero _ _ _ T), length_replicate|].
    destruct (decide (b = bm)) as [->|]; [apply T|]. rewrite (tk_data _ _ _ T) by done. by apply H6.
  - rewrite (tk_used _ _ _ T), H7 by lia. by rewrite orb_true_r.
  - intros b Hb Hf. rewrite (tk_used _ _ _ T) in Hf by done. apply orb_false_iff in Hf as [_ Hf]. unfold dblock. rewrite Ez, Et. by apply H8.
  - intros s Hs'. destruct (Hs s Hs') as [_ ->]. intros Hnz. unfold dblock. rewrite Ez, Et. destruct (H10 s Hs' Hnz) as [Hd Hu].
    split; [exact Hd|]. rewrite (tk_used _ _ _ T) by (pose proof (dblock_range _ _ Hd); lia). by rewrite Hu, orb_true_r.
  - intros s s' Hs1 Hs2. destruct (Hs s Hs1) as [_ ->]. destruct (Hs s' Hs2) as [_ ->]. by apply H11.
Qed.

(** The block has become part of the file at slot [s0]: every other address is as before and no byte has changed. *)
Record attached (t t' : tview) (ip ip' : inode) (s0 r : Z) : Prop := mkatt {
  at_inv : finv t' ip';
  at_addr : ∀ s, slot s → waddr (t_data t') ip' s = if s =? s0 then r else waddr (t_data t) ip s;
  at_byte : ∀ x, 0 <= x < MAXFILE * BSIZE → wbyte (t_data t') ip' x = wbyte (t_data t) ip x
}.

Lemma nth_zero_block (k : nat) : nth k (replicate bsize 0) 0 = 0.
Proof. generalize bsize. intros n. revert k. induction n as [|n IH]; intros [|k]; simpl; auto. Qed.

Lemma ind_get_zero_block (j : Z) : ind_get (replicate bsize 0) j = 0.
Proof.
  unfold ind_get, ld32, slice. rewrite drop_replicate, take_replicate. generalize (4 `min` (bsize - Z.to_nat (4 * j)))%nat.
  intros n. induction n as [|n IH]; simpl; [done|]. by rewrite IH.
Qed.

Lemma nth_iaddr ip (k j : nat) r : (k < length (i_addrs ip))%nat →
  nth j (i_addrs (set_iaddr k r ip)) 0 = if (j =? k)%nat then r else nth j (i_addrs ip) 0.
Proof.
  intros Hk. cbn [set_iaddr i_addrs]. rewrite !nth_lookup. destruct (Nat.eqb_spec j k) as [->|Hne].
  - by rewrite list_lookup_insert_eq.
  - by rewrite list_lookup_insert_ne.
Qed.

(** A block not yet in the file. *)
Record spare (t : tview) (ip : inode) (r : Z) : Prop := mkspare {
  sp_block : dblock t r;
  sp_used : bused sb (t_data t) r = true;
  sp_zero : t_data t r = replicate bsize 0;
  sp_new : ∀ s, slot s → waddr (t_data t) ip s ≠ r
}.

(** From the addresses to the invariant and the contents, when no block but the indirect one has changed. *)
Lemma attach t t' ip ip' s0 r :
  finv t ip → spare t ip r → slot s0 → waddr (t_data t) ip s0 = 0 → length (i_addrs ip') = Z.to_nat (NDIRECT + 1) →
  t_size t' = t_size t → t_start t' = t_start t → (∀ b, 0 <= b < t_size t → length (t_data t' b) = bsize) →
  (∀ b, (waddr (t_data t) ip IB ≠ 0 → b ≠ waddr (t_data t) ip IB) → t_data t' b = t_data t b) →
  (∀ s, slot s → waddr (t_data t') ip' s = if s =? s0 then r else waddr (t_data t) ip s) →
  attached t t' ip ip' s0 r.
Proof.
  intros I [Sd Su Sz Sn] Hs0 E0 Hl Ez Et Hlen Hdata Ha. pose proof I as [H1 H2 H3 H4 H5 Hibu H6 H7 H8 H9 H10 H11]. pose proof (dblock_range _ _ Sd) as Hr.
  assert (Hib : slot IB) by (by left).
  assert (Hbm : t_data t' bm = t_data t bm).
  { apply Hdata. intros E. destruct (H10 IB Hib E) as [(_ & _ & Hb & _) _]. done. }
  assert (Hu : ∀ b, 0 <= b < t_size t → bused sb (t_data t') b = bused sb (t_data t) b) by (intros; apply bused_ext; [lia|done]).
  assert (Hdb : ∀ b, dblock t b → dblock t' b) by (intros b Hb; unfold dblock; rewrite Ez, Et; exact Hb).
  assert (Hother : ∀ s, slot s → s ≠ IB → waddr (t_data t) ip s ≠ 0 → t_data t' (waddr (t_data t) ip s) = t_data t (waddr (t_data t) ip s)).
  { intros s Hs Hne Hnz. apply Hdata. intros _ E. by specialize (H11 s IB Hs Hib Hnz E). }
  split; [split|exact Ha|]; rewrite ?Ez, ?Et; try done.
  - rewrite Hu by (destruct H4; lia). done.
  - by rewrite Hu by lia.
  - intros b Hb Hf. rewrite Hu in Hf by done. apply Hdb. by apply H8.
  - intros s Hs. rewrite Ha by done. destruct (Z.eqb_spec s s0) as [->|Hne].
    + intros _. split; [by apply Hdb|]. by rewrite Hu by lia.
    + intros Hnz. destruct (H10 s Hs Hnz) as [Hd Hus]. split; [by apply Hdb|]. rewrite Hu; [done|]. pose proof (dblock_range _ _ Hd). lia.
  - intros s s' Hs Hs'. rewrite !Ha by done. destruct (Z.eqb_spec s s0) as [->|Hne], (Z.eqb_spec s' s0) as [->|Hne']; try done.
    + intros _ E. by destruct (Sn s' Hs').
    + intros _ E. by destruct (Sn s Hs).
    + by apply H11.
  - intros x Hx. assert (Hs : slot (x / BSIZE)) by (right; fslia). unfold wbyte. rewrite Ha by done. destruct (Z.eqb_spec (x / BSIZE) s0) as [E|Hne].
    + rewrite E, E0, Z.eqb_refl. rewrite (proj2 (Z.eqb_neq r 0)) by lia. rewrite Hdata, Sz; [apply nth_zero_block|]. intros _ Er. by apply (Sn IB Hib).
    + destruct (Z.eqb_spec (waddr (t_data t) ip (x / BSIZE)) 0) as [|Hnz]; [done|]. rewrite Hother; [done|done|unfold IB; fslia|done].
Qed.

(** In the inode itself: a direct block or the indirect block. *)
Lemma attach_inode t ip s0 r (k := if s0 =? IB then NDIRECT else s0) :
  finv t ip → spare t ip r → s0 = IB ∨ 0 <= s0 < NDIRECT → waddr (t_data t) ip s0 = 0 →
  attached t t ip (set_iaddr (Z.to_nat k) r ip) s0 r.
Proof.
  intros I Sp Hs0 E0. pose proof (fi_addrs _ _ I) as Hl. assert (Hk : 0 <= k <= NDIRECT) by (unfold k, IB in *; fsconst; destruct (Z.eqb_spec s0 (-1)); lia).
  assert (Hk2 : NDIRECT = k → s0 = IB) by (unfold k; destruct (Z.eqb_spec s0 IB); [done|lia]).
  assert (Hn : ∀ j, 0 <= j → nth (Z.to_nat j) (i_addrs (set_iaddr (Z.to_nat k) r ip)) 0 = if j =? k then r else nth (Z.to_nat j) (i_addrs ip) 0).
  { intros j Hj. rewrite nth_iaddr by (rewrite Hl; fsconst; lia). destruct (Nat.eqb_spec (Z.to_nat j) (Z.to_nat k)), (Z.eqb_spec j k); done || lia. }
  apply attach; try done.
  - destruct Hs0 as [->|]; [by left|right; fsconst; lia].
  - cbn [set_iaddr i_addrs]. by rewrite length_insert.
  - apply I.
  - intros s Hs. destruct (decide (s = IB)) as [->|Hi].
    { rewrite !waddr_ib, Hn by (fsconst; lia). unfold k. rewrite (Z.eqb_sym IB s0). destruct (Z.eqb_spec s0 IB); [by rewrite Z.eqb_refl|].
      rewrite (proj2 (Z.eqb_neq NDIRECT s0)) by (unfold IB in *; lia). done. }
    destruct Hs as [|Hs]; [done|]. destruct (decide (s < NDIRECT)) as [Hd|Hd].
    { rewrite !waddr_direct, Hn by lia. unfold k. destruct (Z.eqb_spec s0 IB) as [->|]; [|done].
      rewrite (proj2 (Z.eqb_neq s NDIRECT)), (proj2 (Z.eqb_neq s IB)) by lia. done. }
    rewrite (waddr_indirect _ (set_iaddr _ _ _)), (waddr_indirect _ ip) by lia. rewrite !waddr_ib, Hn by (fsconst; lia).
    destruct (Z.eqb_spec NDIRECT k) as [Ek|Ek].
    + assert (s0 = IB) as -> by (by apply Hk2).
      rewrite waddr_ib in E0. rewrite E0, Z.eqb_refl. rewrite (proj2 (Z.eqb_neq s IB)) by done. rewrite (sp_zero _ _ _ Sp), ind_get_zero_block.
      by destruct (r =? 0).
    + assert (Hs0' : s0 ≠ s) by (destruct Hs0 as [->|]; [done|lia]). by rewrite (proj2 (Z.eqb_neq s s0)) by done.
Qed.

Lemma ind_get_st32 d (i j v : Z) : length d = bsize → 0 <= i < NINDIRECT → 0 <= j < NINDIRECT → 0 <= v < 2 ^ 32 →
  ind_get (st32 d (Z.to_nat (4 * i)) v) j = if j =? i then v else ind_get d j.
Proof.
  intros Hl Hi Hj Hv. unfold ind_get. fsconst. destruct (Z.eqb_spec j i) as [->|Hne].
  - rewrite ld32_st32 by lia. by apply u32_small.
  - apply ld32_st32_ne; lia.
Qed.

(** In the indirect block. *)
Lemma attach_entry t ip s0 r (a := waddr (t_data t) ip IB) :
  finv t ip → spare t ip r → NDIRECT <= s0 < MAXFILE → waddr (t_data t) ip s0 = 0 → a ≠ 0 →
  attached t (t_write a (st32 (t_data t a) (Z.to_nat (4 * (s0 - NDIRECT))) r) t) ip ip s0 r.
Proof.
  intros I Sp Hs0 E0 Ha. destruct (fi_slot _ _ I IB (or_introl eq_refl) Ha) as [Hd _]. fold a in Hd. pose proof (dblock_range _ _ Hd) as Hr.
  pose proof (fi_len _ _ I a ltac:(lia)) as Hl. pose proof (dblock_range _ _ (sp_block _ _ _ Sp)) as Hrr. pose proof (fi_max _ _ I) as Hm.
  apply attach; try done.
  - right. fsconst. lia.
  - apply I.
  - intros b Hb. cbn [t_data t_write]. destruct (decide (b = a)) as [->|].
    + rewrite fn_lookup_insert, length_st32; [done|]. fsconst. lia.
    + rewrite fn_lookup_insert_ne by done. by apply I.
  - intros b Hb. cbn [t_data t_write]. rewrite fn_lookup_insert_ne; [done|]. intros E. by apply (Hb Ha).
  - intros s [->|Hs].
    { rewrite (proj2 (Z.eqb_neq IB s0)) by (unfold IB; fsconst; lia). done. }
    destruct (decide (s < NDIRECT)); [by rewrite !waddr_direct, (proj2 (Z.eqb_neq s s0)) by lia|].
    rewrite (waddr_indirect _ ip s), (waddr_indirect (t_data t) ip s) by lia. change (waddr (t_data (t_write _ _ t)) ip IB) with a. fold a.
    rewrite (proj2 (Z.eqb_neq a 0)) by done. cbn [t_data t_write]. rewrite fn_lookup_insert, ind_get_st32 by (fsconst; done || lia).
    destruct (Z.eqb_spec (s - NDIRECT) (s0 - NDIRECT)), (Z.eqb_spec s s0); done || lia.
Qed.

(** Writing a data block of the file. *)
Lemma write_slot t ip s0 d (a := waddr (t_data t) ip s0) :
  finv t ip → 0 <= s0 < MAXFILE → a ≠ 0 → length d = bsize →
  finv (t_write a d t) ip ∧ (∀ s, slot s → waddr (t_data (t_write a d t)) ip s = waddr (t_data t) ip s) ∧
  ∀ x, 0 <= x < MAXFILE * BSIZE → wbyte (t_data (t_write a d t)) ip x = if x / BSIZE =? s0 then nth (Z.to_nat (x mod BSIZE)) d 0 else wbyte (t_data t) ip x.
Proof.
  intros I Hs0 Ha Hd. pose proof I as [H1 H2 H3 H4 H5 Hibu H6 H7 H8 H9 H10 H11]. assert (Hslot0 : slot s0) by (by right).
  destruct (H10 s0 Hslot0 Ha) as [Hdb Hub]. fold a in Hdb, Hub. assert (Hib : slot IB) by (by left).
  assert (Hw : ∀ s, slot s → waddr (t_data (t_write a d t)) ip s = waddr (t_data t) ip s).
  { intros s Hs. apply waddr_ext; [|done]. intros Hnz. cbn [t_data t_write]. apply fn_lookup_insert_ne. intros E.
    assert (s0 = IB) by (by apply H11). unfold IB in *. lia. }
  assert (Hbm : t_data (t_write a d t) bm = t_data t bm) by (apply fn_lookup_insert_ne; by destruct Hdb as (_ & _ & ? & _)).
  assert (Hu : ∀ b, 0 <= b < t_size t → bused sb (t_data (t_write a d t)) b = bused sb (t_data t) b) by (intros; apply bused_ext; [lia|done]).
  split_and!; [split|exact Hw|]; try done.
  - rewrite Hu by (destruct H4; lia). done.
  - intros b Hb. cbn [t_data t_write]. destruct (decide (b = a)) as [->|]; [by rewrite fn_lookup_insert|]. rewrite fn_lookup_insert_ne by done. by apply H6.
  - rewrite Hu by lia. done.
  - intros b Hb. rewrite Hu by done. by apply H8.
  - intros s Hs. rewrite Hw by done. intros Hnz. destruct (H10 s Hs Hnz) as [Hd' Hu']. split; [done|]. rewrite Hu; [done|]. pose proof (dblock_range _ _ Hd'). lia.
  - intros s s' Hs Hs'. rewrite !Hw by done. by apply H11.
  - intros x Hx. assert (Hs : slot (x / BSIZE)) by (right; fslia). unfold wbyte. rewrite Hw by done. destruct (Z.eqb_spec (x / BSIZE) s0) as [E|Hne].
    + rewrite E. fold a. rewrite (proj2 (Z.eqb_neq a 0)) by done. cbn [t_data t_write]. by rewrite fn_lookup_insert.
    + destruct (Z.eqb_spec (waddr (t_data t) ip (x / BSIZE)) 0) as [|Hnz]; [done|]. cbn [t_data t_write]. rewrite fn_lookup_insert_ne; [done|].
      intros E. by apply Hne, H11.
Qed.

(** *** What an operation leaves alone *)

(** The transaction has got new blocks, all of them with [P]. *)
Definition logs (P : Z → Prop) (t t' : tview) : Prop :=
  ∃ ex, t_logged t' = t_logged t ++ ex ∧ NoDup ex ∧ ∀ b, b ∈ ex → (b ∉ t_logged t) ∧ P b.

Lemma logs_refl P t : logs P t t.
Proof. exists []. rewrite app_nil_r. split_and!; [done|constructor|]. by intros b ?%elem_of_nil. Qed.

Lemma logs_trans (P : Z → Prop) t1 t2 t3 : logs P t1 t2 → logs P t2 t3 → logs P t1 t3.
Proof.
  intros (e1 & E1 & N1 & H1) (e2 & E2 & N2 & H2). exists (e1 ++ e2). rewrite E2, E1, app_assoc. split_and!; [done| |].
  - apply NoDup_app. split_and!; [done| |done]. intros b Hb Hb2. destruct (H2 b Hb2) as [Hn _]. rewrite E1 in Hn. set_solver.
  - intros b [Hb|Hb]%elem_of_app; [by apply H1|]. destruct (H2 b Hb) as [Hn Hp]. split; [|done]. rewrite E1 in Hn. set_solver.
Qed.

Lemma logs_mono (P Q : Z → Prop) t t' : (∀ b, P b → Q b) → logs P t t' → logs Q t t'.
Proof. intros H (ex & E & N & Hx). exists ex. split_and!; [done|done|]. intros b Hb. destruct (Hx b Hb). auto. Qed.

Lemma logs_write (P : Z → Prop) t b d : P b → logs P t (t_write b d t).
Proof.
  intros Hp. unfold logs. cbn [t_logged t_write]. case_decide as Hin; [apply (logs_refl P t)|].
  exists [b]. split_and!; [done|apply NoDup_singleton|]. intros b' ->%list_elem_of_singleton. done.
Qed.

Lemma logs_length (P : Z → Prop) t t' (l : list Z) : logs P t t' → (∀ b, P b → b ∈ l) → (length (t_logged t') ≤ length (t_logged t) + length l)%nat.
Proof.
  intros (ex & E & N & Hx) Hl. rewrite E, length_app. apply Nat.add_le_mono_l. apply submseteq_length, NoDup_submseteq; [done|].
  intros b Hb. apply Hl. by apply Hx.
Qed.

(** The file before and after, when only the slots [lo .. hi) were written: blocks in use for other purposes are kept, slots keep their
    blocks, new ones were free, and the transaction got the bitmap block, the indirect block or written blocks at most. *)
Definition set_addrs (l : list Z) (ip : inode) : inode :=
  mkinode (i_dev ip) (i_inum ip) (i_ref ip) (i_lock ip) (i_valid ip) (i_type ip) (i_major ip) (i_minor ip) (i_nlink ip) (i_size ip) l.

Definition log_block (lo hi : Z) (t : tview) (ip : inode) (b : Z) : Prop :=
  b = bm ∨ ∃ s, (s = IB ∨ lo <= s < hi) ∧ slot s ∧ b = waddr (t_data t) ip s ∧ b ≠ 0.

Record wstep (lo hi : Z) (t : tview) (ip : inode) (t' : tview) (ip' : inode) : Prop := mkws {
  st_size : t_size t' = t_size t;
  st_start : t_start t' = t_start t;
  st_used : ∀ x, 0 <= x < t_size t → bused sb (t_data t) x = true → bused sb (t_data t') x = true;
  st_frame : ∀ b, 0 <= b < t_size t → b ≠ bm → bused sb (t_data t) b = true →
    (∀ s, slot s → waddr (t_data t) ip s ≠ 0 → waddr (t_data t) ip s ≠ b) → t_data t' b = t_data t b;
  st_keep : ∀ s, slot s → waddr (t_data t) ip s ≠ 0 → waddr (t_data t') ip' s = waddr (t_data t) ip s;
  st_fresh : ∀ s, slot s → waddr (t_data t) ip s = 0 → waddr (t_data t') ip' s ≠ 0 → bused sb (t_data t) (waddr (t_data t') ip' s) = false;
  st_log : logs (log_block lo hi t' ip') t t';
  st_ip : ip' = set_addrs (i_addrs ip') ip
}.

Lemma wstep_refl lo hi t ip : wstep lo hi t ip t ip.
Proof. split; try done; [apply logs_refl|by destruct ip]. Qed.

Lemma wstep_trans lo hi t1 ip1 t2 ip2 t3 ip3 : finv t3 ip3 →
  wstep lo hi t1 ip1 t2 ip2 → wstep lo hi t2 ip2 t3 ip3 → wstep lo hi t1 ip1 t3 ip3.
Proof.
  intros I3 [A1 A2 A3 A4 A5 A6 A7 A8] [B1 B2 B3 B4 B5 B6 B7 B8]. rewrite A1 in *. split.
  - congruence.
  - congruence.
  - auto.
  - intros b Hb Hn Hu Hs. rewrite B4, A4; auto. intros s Hs' Hnz E. destruct (decide (waddr (t_data t1) ip1 s = 0)) as [Ez|Ez].
    + pose proof (A6 s Hs' Ez Hnz) as Hf. rewrite E in Hf. congruence.
    + rewrite A5 in E by done. by apply (Hs s).
  - intros s Hs Hnz. rewrite B5, A5 by (done || by rewrite A5). done.
  - intros s Hs Ez Hnz. destruct (decide (waddr (t_data t2) ip2 s = 0)) as [E2|E2].
    + pose proof (B6 s Hs E2 Hnz) as Hf. destruct (bused sb (t_data t1) (waddr (t_data t3) ip3 s)) eqn:Eu; [|done].
      destruct (fi_slot _ _ I3 s Hs Hnz) as [Hd _]. apply dblock_range in Hd. by rewrite A3 in Hf by (done || lia).
    + rewrite B5 by done. by apply A6.
  - eapply logs_trans; [|exact B7]. eapply logs_mono; [|exact A7]. intros b [->|(s & Hlo & Hs & -> & Hnz)]; [by left|].
    right. exists s. split_and!; [done|done|by rewrite B5|done].
  - rewrite B8, A8. by destruct ip1.
Qed.

Lemma wstep_weaken lo hi lo' hi' t ip t' ip' : (∀ s, lo <= s < hi → lo' <= s < hi') → wstep lo hi t ip t' ip' → wstep lo' hi' t ip t' ip'.
Proof.
  intros H [A1 A2 A3 A4 A5 A6 A7 A8]. split; try done. eapply logs_mono; [|exact A7].
  intros b [->|(s & [Hs|Hs] & Hr)]; [by left|right; exists s; auto..].
Qed.

(** The number of blocks a step can add to the transaction. *)
Lemma wstep_logged lo hi t ip t' ip' : lo <= hi → wstep lo hi t ip t' ip' →
  Z.of_nat (length (t_logged t')) <= Z.of_nat (length (t_logged t)) + 2 + (hi - lo).
Proof.
  intros Hlh S. set (bs := bm :: (waddr (t_data t') ip' <$> IB :: seqZ lo (hi - lo))).
  assert (Hbs : length bs = Z.to_nat (2 + (hi - lo))) by (unfold bs; cbn [length]; rewrite length_fmap; cbn [length]; rewrite length_seqZ; lia).
  pose proof (logs_length _ _ _ bs (st_log _ _ _ _ _ _ S)) as Hl. rewrite Hbs in Hl. cut (length (t_logged t') ≤ length (t_logged t) + Z.to_nat (2 + (hi - lo)))%nat; [lia|].
  apply Hl. intros b [->|(s & Hs & _ & -> & _)]; [constructor|]. apply elem_of_cons. right. apply list_elem_of_fmap_2.
  destruct Hs as [->|Hs]; [constructor|]. apply elem_of_cons. right. apply elem_of_seqZ. lia.
Qed.

Lemma took_spare t t' r ip : finv t ip → took t t' r → spare t' ip r.
Proof.
  intros I T. pose proof (tk_range _ _ _ T) as Hr. split.
  - unfold dblock. rewrite (tk_size _ _ _ T), (tk_start _ _ _ T). apply (fi_free _ _ I); [lia|apply T].
  - rewrite (tk_used _ _ _ T) by lia. by rewrite Z.eqb_refl.
  - apply T.
  - intros s Hs. by destruct (took_slot t t' r ip s I T Hs) as [Hne ->].
Qed.

(** Taking a block and making it part of the file is a step. *)
Lemma file_grow_step lo hi t t1 t2 ip ip' s0 r :
  finv t ip → took t t1 r → attached t1 t2 ip ip' s0 r → waddr (t_data t) ip s0 = 0 → slot s0 →
  t_size t2 = t_size t1 → t_start t2 = t_start t1 → (∀ b, (waddr (t_data t) ip IB ≠ 0 → b ≠ waddr (t_data t) ip IB) → t_data t2 b = t_data t1 b) →
  logs (log_block lo hi t2 ip') t t2 → ip' = set_addrs (i_addrs ip') ip → wstep lo hi t ip t2 ip'.
Proof.
  intros I T A E0 Hs0 Ez Et Hd Hlog Hip. pose proof (λ s, took_slot t t1 r ip s I T) as Hts. pose proof (tk_range _ _ _ T) as Hr.
  pose proof (fi_max _ _ I) as Hmax. assert (Hib : slot IB) by (by left).
  assert (Hbm : t_data t2 bm = t_data t1 bm) by (apply Hd; intros E; by destruct (fi_slot _ _ I IB Hib E) as [(_ & _ & ? & _) _]).
  assert (Hu : ∀ x, 0 <= x < t_size t → bused sb (t_data t2) x = (x =? r) || bused sb (t_data t) x).
  { intros x Hx. rewrite (bused_ext (t_data t1)) by (done || lia). by apply (tk_used _ _ _ T). }
  split; try done.
  - rewrite Ez. apply T.
  - rewrite Et. apply T.
  - intros x Hx Hus. rewrite Hu, Hus by done. apply orb_true_r.
  - intros b Hb Hn Hus Hs. assert (b ≠ r) by (intros ->; by rewrite (tk_free _ _ _ T) in Hus).
    rewrite Hd; [by apply (tk_data _ _ _ T)|]. intros Hnz. intros ->. by apply (Hs IB Hib Hnz).
  - intros s Hs Hnz. rewrite (at_addr _ _ _ _ _ _ A s Hs). destruct (Hts s Hs) as [_ E]. rewrite E.
    destruct (Z.eqb_spec s s0) as [->|]; [done|done].
  - intros s Hs Ez' Hnz. rewrite (at_addr _ _ _ _ _ _ A s Hs) in Hnz |- *. destruct (Hts s Hs) as [_ E]. rewrite E in *.
    destruct (Z.eqb_spec s s0) as [->|]; [apply T|done].
Qed.

(** Writing a block of the file is a step. *)
Lemma write_step lo hi t ip s0 d (a := waddr (t_data t) ip s0) :
  finv t ip → 0 <= s0 < MAXFILE → lo <= s0 < hi → a ≠ 0 → length d = bsize → wstep lo hi t ip (t_write a d t) ip.
Proof.
  intros I Hs0 Hlo Ha Hd. destruct (write_slot t ip s0 d I Hs0 Ha Hd) as (I' & Hw & _). fold a in I', Hw. assert (Hs : slot s0) by (by right).
  destruct (fi_slot _ _ I s0 Hs Ha) as [Hdb _]. fold a in Hdb.
  split; try done.
  - intros x Hx Hu. rewrite (bused_ext (t_data t)); [done|pose proof (fi_max _ _ I); lia|]. apply fn_lookup_insert_ne. by destruct Hdb as (_ & _ & ? & _).
  - intros b Hb Hn Hu Hno. apply fn_lookup_insert_ne. by apply Hno.
  - intros s Hs' _. by apply Hw.
  - intros s Hs' E Hnz. by rewrite Hw in Hnz.
  - apply logs_write. right. exists s0. split_and!; [by right|done|by rewrite Hw|done].
  - by destruct ip.
Qed.
(** [t] after the allocation of a block, [d] being the new bitmap. *)
Lemma took_logs (P : Z → Prop) t r d : P r → P bm → logs P t (t_write r (replicate bsize 0) (t_write bm d t)).
Proof. intros. eapply logs_trans; by apply logs_write. Qed.

(** A new block entered in the indirect block. *)
Lemma entry_grow lo hi t ip k r d (a := waddr (t_data t) ip IB) (t1 := t_write r (replicate bsize 0) (t_write bm d t))
    (t2 := t_write a (st32 (t_data t a) (Z.to_nat (4 * (k - NDIRECT))) r) t1) :
  finv t ip → took t t1 r → NDIRECT <= k < MAXFILE → lo <= k < hi → waddr (t_data t) ip k = 0 → a ≠ 0 →
  t_data t1 a = t_data t a ∧ waddr (t_data t2) ip k = r ∧ finv t2 ip ∧ wstep lo hi t ip t2 ip ∧
  ∀ x, 0 <= x < MAXFILE * BSIZE → wbyte (t_data t2) ip x = wbyte (t_data t) ip x.
Proof.
  intros I T Hk Hlo E0 Ha. assert (Hib : slot IB) by (by left). assert (Hsk : slot k) by (right; fsconst; lia).
  destruct (fi_slot _ _ I IB Hib Ha) as [Hda Hua]. fold a in Hda, Hua.
  assert (Ea1 : t_data t1 a = t_data t a).
  { apply (tk_data _ _ _ T); [|by destruct Hda as (_ & _ & ? & _)]. intros Er. rewrite Er, (tk_free _ _ _ T) in Hua. done. }
  pose proof (took_slot t t1 r ip k I T Hsk) as [_ Ek1]. pose proof (took_slot t t1 r ip IB I T Hib) as [_ Ea1'].
  pose proof (attach_entry t1 ip k r (took_inv _ _ _ _ I T) (took_spare _ _ _ _ I T) Hk) as A.
  rewrite Ea1', Ek1 in A. fold a in A. specialize (A E0 Ha). rewrite Ea1 in A. fold t2 in A.
  pose proof (at_addr _ _ _ _ _ _ A k Hsk) as Er. rewrite Z.eqb_refl in Er.
  assert (Hr : r ≠ 0) by (pose proof (tk_range _ _ _ T); lia).
  split_and!; [done|done|apply A| |].
  - apply (file_grow_step lo hi t t1 t2 ip ip k r); try done; [| |by destruct ip].
    { intros b Hb. cbn [t2 t_data t_write]. apply fn_lookup_insert_ne. intros E. by apply (Hb Ha). }
    apply (logs_trans _ t t1); [apply took_logs; [|by left]|apply logs_write].
    + right. exists k. split_and!; [by right|done|by rewrite Er|done].
    + right. exists IB. split_and!; [by left|done| |done]. rewrite (at_addr _ _ _ _ _ _ A IB Hib).
      rewrite (proj2 (Z.eqb_neq IB k)) by (unfold IB; fsconst; lia). by rewrite Ea1'.
  - intros x Hx. rewrite (at_byte _ _ _ _ _ _ A x Hx). by apply (took_byte t t1 r).
Qed.
(** Writing the block of the inode changes nothing of the file. *)
Lemma inode_block t ip d : finv t ip → length d = bsize →
  finv (t_write ib d t) ip ∧ (∀ s, slot s → waddr (t_data (t_write ib d t)) ip s = waddr (t_data t) ip s) ∧
  (∀ x, 0 <= x < MAXFILE * BSIZE → wbyte (t_data (t_write ib d t)) ip x = wbyte (t_data t) ip x).
Proof.
  intros I Hd. pose proof I as [H1 H2 H3 H4 H5 Hibu H6 H7 H8 H9 H10 H11]. assert (Hib : slot IB) by (by left).
  assert (Ho : ∀ s, slot s → waddr (t_data t) ip s ≠ 0 → t_data (t_write ib d t) (waddr (t_data t) ip s) = t_data t (waddr (t_data t) ip s)).
  { intros s Hs Hnz. apply fn_lookup_insert_ne. intros E. destruct (H10 s Hs Hnz) as [(_ & _ & _ & Hn) _]. by apply Hn. }
  assert (Hw : ∀ s, slot s → waddr (t_data (t_write ib d t)) ip s = waddr (t_data t) ip s).
  { intros s Hs. apply waddr_ext; [|done]. intros Hnz. by apply Ho. }
  assert (Hu : ∀ b, 0 <= b < t_size t → bused sb (t_data (t_write ib d t)) b = bused sb (t_data t) b).
  { intros b Hb. apply bused_ext; [lia|]. apply fn_lookup_insert_ne. done. }
  split_and!; [split|exact Hw|]; try done.
  - rewrite Hu by (destruct H4; lia). done.
  - intros b Hb. cbn [t_data t_write]. destruct (decide (b = ib)) as [->|]; [by rewrite fn_lookup_insert|]. rewrite fn_lookup_insert_ne by done. by apply H6.
  - rewrite Hu by lia. done.
  - intros b Hb. rewrite Hu by done. by apply H8.
  - intros s Hs. rewrite Hw by done. intros Hnz. destruct (H10 s Hs Hnz) as [Hd' Hu']. split; [done|]. rewrite Hu; [done|]. pose proof (dblock_range _ _ Hd'). lia.
  - intros s s' Hs Hs'. rewrite !Hw by done. by apply H11.
  - intros x Hx. assert (Hs : slot (x / BSIZE)) by (right; fslia). unfold wbyte. rewrite Hw by done.
    destruct (Z.eqb_spec (waddr (t_data t) ip (x / BSIZE)) 0) as [|Hnz]; [done|]. by rewrite Ho.
Qed.

(** The invariant is about the addresses of the inode only. *)
Lemma finv_addrs t ip ip' : i_addrs ip' = i_addrs ip → finv t ip → finv t ip'.
Proof.
  intros E [H1 H2 H3 H4 H5 Hibu H6 H7 H8 H9 H10 H11]. assert (Hw : ∀ s, waddr (t_data t) ip' s = waddr (t_data t) ip s) by (intros; unfold waddr; by rewrite E).
  split; try done; [by rewrite E|..]; intros s; [rewrite Hw; by apply H10|]. intros s' Hs Hs'. rewrite !Hw. by apply H11.
Qed.

Lemma finv_range t ip : finv t ip → Forall (λ a, 0 <= a < 2 ^ 32) (i_addrs ip).
Proof.
  intros I. apply Forall_lookup. intros k a Ha. pose proof (lookup_lt_Some _ _ _ Ha) as Hk. rewrite (fi_addrs _ _ I) in Hk. apply (nth_lookup_Some _ _ 0) in Ha.
  set (s := if (k =? 12)%nat then IB else Z.of_nat k). assert (slot s ∧ waddr (t_data t) ip s = a) as [Hs E].
  { unfold s. destruct (Nat.eqb_spec k 12) as [->|Hne]; [split; [by left|done]|]. split; [right; fsconst; lia|].
    rewrite waddr_direct by (fsconst; lia). by rewrite Nat2Z.id. }
  destruct (decide (a = 0)) as [->|Hnz]; [lia|]. rewrite <- E in Hnz. destruct (fi_slot _ _ I s Hs Hnz) as [Hd _]. apply dblock_range in Hd.
  pose proof (fi_max _ _ I). rewrite E in Hd. fsconst. lia.
Qed.
End inv.

(** ** The operations *)

Section ops.
Context {L U : Type} `{TxStore L} `{UserOps U}.
Abbreviation FS := (fsys L U).
Implicit Types (f : FS) (t : tview) (c : kctx) (ip : inode).
Context (sb : superblock) (i : nat).

(** Every block of the device is in use. *)
Definition full t : Prop := ∀ x, 0 <= x < t_size t → bused sb (t_data t) x = true.

(** The process has inode [i] and holds no buffer; the state shows [t] and the file is well formed. *)
Record wst c f t ip : Prop := mkwst {
  ws_abs : fabs c f t;
  ws_clear : tx_clear c;
  ws_entry : fs_inode f !! i = Some ip;
  ws_dev : i_dev ip = ROOTDEV;
  ws_sb : fs_sb f = sb;
  ws_held : t_held t = [];
  ws_inv : finv sb (i_inum ip) t ip
}.

Lemma balloc_file c f t ip inum :
  fabs c f t → tx_clear c → fs_sb f = sb → finv sb inum t ip →
  (∀ b, b ∈ (t_held t).*1 → dblock sb inum t b ∧ bused sb (t_data t) b = true) →
  2 < t_free t → Z.of_nat (length (t_logged t)) + 2 <= LOGBLOCKS →
  ∃ r c' l t', balloc ROOTDEV c f = Ret r c' (set_flog l f) ∧ same_ctx c c' ∧ fabs c' (set_flog l f) t' ∧ t_held t' = t_held t ∧
    ((r = 0 ∧ t' = t ∧ full t) ∨
     (r ≠ 0 ∧ took sb t t' r ∧ ∃ d, t' = t_write r (replicate bsize 0) (t_write (BBLOCK 0 sb) d t))).
Proof.
  intros Ha Hc Hsb I Hh Hf Hr. pose proof I as [G1 G2 G3 G4 G5 Gi G6 G7 G8 G9 G10 G11].
  assert (Hone : ∀ b, 0 <= b < t_size t → BBLOCK b sb = BBLOCK 0 sb) by (intros; apply BBLOCK_one; lia).
  assert (Hp : balloc_pre c f t).
  { split; rewrite ?Hsb; try done.
    - fsconst. lia.
    - intros b Hb. by rewrite Hone.
    - intros b Hb Hu. destruct (G8 b Hb Hu) as (_ & Hhome & Hn & _). split_and!; [done| |intros b' Hb'; rewrite Hone by done; congruence].
      intros Hin. destruct (Hh b Hin) as [_ Hu']. congruence.
    - intros b Hb Hin. rewrite Hone in Hin by done. destruct (Hh _ Hin) as [(_ & _ & ? & _) _]. done. }
  destruct (balloc_ok c f t Hp) as (r & c' & l & t' & E & Hc' & Ht' & Ez & Et & Eh & _ & Hcase). rewrite Hsb in Hcase.
  exists r, c', l, t'. split_and!; [done..|]. destruct Hcase as [(-> & -> & Hall)|(E' & Hrr & Hfr & _ & Hz & Hu & Hd)]; [left; by split_and!|].
  right. rewrite (Hone r) in E', Hd by lia. split_and!; [lia| |by eexists].
  split; try done. rewrite E'. cbn [t_data t_write]. rewrite fn_lookup_insert_ne, fn_lookup_insert, length_bit_set.
  - apply G6. destruct G3. lia.
  - destruct (G8 r ltac:(lia) Hfr) as (_ & _ & ? & _). done.
Qed.

Definition put_entry (ip : inode) f : FS := set_inodes (<[i:=ip]> (fs_inode f)) f.

Lemma modi_put c f ip g : fs_inode f !! i = Some ip → modi i g c f = Ret tt c (put_entry (g ip) f).
Proof.
  intros E. rewrite modi_ret. unfold put_entry. do 2 f_equal. apply list_eq. intros j. destruct (decide (i = j)) as [->|Hne].
  - rewrite list_lookup_alter_eq, E, list_lookup_insert_eq by (by eapply lookup_lt_Some). done.
  - by rewrite list_lookup_alter_ne, list_lookup_insert_ne.
Qed.

Lemma put_entry_id f ip : fs_inode f !! i = Some ip → put_entry ip f = f.
Proof. intros E. unfold put_entry. rewrite list_insert_id by done. by destruct f. Qed.

(** What [bmap] promises for block [k]. *)
Definition bmap_spec (lo hi k : Z) c f t ip (o : outcome FS Z) : Prop :=
  ∃ c' l t' ip', o = Ret (waddr (t_data t') ip' k) c' (put_entry ip' (set_flog l f)) ∧ same_ctx c c' ∧
    wst c' (put_entry ip' (set_flog l f)) t' ip' ∧ wstep sb lo hi t ip t' ip' ∧
    (∀ x, 0 <= x < MAXFILE * BSIZE → wbyte (t_data t') ip' x = wbyte (t_data t) ip x) ∧
    (waddr (t_data t') ip' k = 0 → full t').

Lemma wst_put c f t ip c' l t' ip' :
  wst c f t ip → same_ctx c c' → fabs c' (set_flog l f) t' → t_held t' = [] → finv sb (i_inum ip) t' ip' →
  ip' = set_addrs (i_addrs ip') ip → wst c' (put_entry ip' (set_flog l f)) t' ip'.
Proof.
  intros W Hc Ha Hh I Hip. pose proof W as [W1 W2 W3 W4 W5 W6 W7].
  assert (E1 : i_inum ip' = i_inum ip) by (by rewrite Hip). assert (E2 : i_dev ip' = i_dev ip) by (by rewrite Hip).
  split; try done.
  - by eapply tx_clear_same.
  - cbn. apply list_lookup_insert_eq. by eapply lookup_lt_Some.
  - by rewrite E2.
  - by rewrite E1.
Qed.

(** Room for one more block with everything its allocation logs. *)
Definition room t : Prop := Z.of_nat (length (t_logged t)) + 4 <= LOGBLOCKS.

Lemma room_free c f t ip : wst c f t ip → room t → 3 < t_free t.
Proof. intros W Hr. unfold t_free, room, NBUF in *. rewrite (ws_held _ _ _ _ W). fsconst. simpl in *. lia. Qed.

(** An address in the inode: there already, or allocated by [balloc]. *)
Lemma bmap_inode lo hi s0 c f t ip (k := Z.to_nat (if s0 =? IB then NDIRECT else s0)) :
  wst c f t ip → room t → s0 = IB ∨ 0 <= s0 < NDIRECT → s0 = IB ∨ lo <= s0 < hi →
  bmap_spec lo hi s0 c f t ip
    ((if nth k (i_addrs ip) 0 =? 0 then
        do addr <- balloc (i_dev ip);
        if addr =? 0 then kret 0 else modi i (set_iaddr k addr) ;;; kret addr
      else kret (nth k (i_addrs ip) 0)) c f).
Proof.
  intros W Hroom Hs0 Hlo. pose proof (room_free _ _ _ _ W Hroom) as Hfree. pose proof W as [Wa Wc We Wd Ws Wh Wi].
  assert (Hsl : slot s0) by (destruct Hs0 as [->|]; [by left|right; fsconst; lia]).
  assert (Ea : nth k (i_addrs ip) 0 = waddr (t_data t) ip s0).
  { unfold k. destruct Hs0 as [->|Hs0]; [done|]. rewrite (proj2 (Z.eqb_neq s0 IB)) by (unfold IB; lia). by rewrite waddr_direct. }
  rewrite Ea. destruct (Z.eqb_spec (waddr (t_data t) ip s0) 0) as [E0|E0].
  - destruct (balloc_file c f t ip (i_inum ip) Wa Wc Ws Wi) as (r & c' & l & t' & E & Hc & Ht & Hh & Hcase);
      [rewrite Wh; by intros b ?%elem_of_nil|lia|unfold room in Hroom; lia|].
    rewrite Wd. kstep E. destruct Hcase as [(-> & -> & Hfull)|(Hr & T & d & Et')].
    + rewrite Z.eqb_refl. exists c', l, t, ip. rewrite E0, put_entry_id by done. split_and!; try done.
      * rewrite <- (put_entry_id (set_flog l f) ip We). by apply (wst_put c f t ip c' l t ip); try done; destruct ip.
      * apply wstep_refl.
    + rewrite (proj2 (Z.eqb_neq r 0)) by done. rewrite (kbind_ret _ _ _ _ tt c' (put_entry (set_iaddr k r ip) (set_flog l f))) by (by apply modi_put).
      pose proof (attach_inode sb (i_inum ip) t' ip s0 r (took_inv _ _ _ _ _ _ Wi T) (took_spare _ _ _ _ _ _ Wi T) Hs0) as A.
      destruct (took_slot sb (i_inum ip) t t' r ip s0 Wi T Hsl) as [_ Es]. rewrite Es in A. specialize (A E0). fold k in A.
      pose proof (at_addr _ _ _ _ _ _ _ _ A s0 Hsl) as Er. rewrite Z.eqb_refl in Er.
      exists c', l, t', (set_iaddr k r ip). rewrite Er. split_and!; try done.
      * apply (wst_put c f t ip); try done; [by rewrite Hh|apply A].
      * apply (file_grow_step sb (i_inum ip) lo hi t t' t' ip _ s0 r); try done. rewrite Et'.
        apply took_logs; [|by left]. right. exists s0. split_and!; [done|done|by rewrite <- Et', Er|done].
      * intros x Hx. rewrite (at_byte _ _ _ _ _ _ _ _ A x Hx). by apply (took_byte sb (i_inum ip) t t' r).
  - exists c, (fs_log f), t, ip. assert (Ef : set_flog (fs_log f) f = f) by (by destruct f). rewrite Ef, put_entry_id by done.
    split_and!; try done. apply wstep_refl.
Qed.

Lemma finv_take inum bn j t ip : finv sb inum t ip → finv sb inum (t_take bn j t) ip.
Proof. intros []. by split. Qed.

Lemma took_untake bn j t t1 r : took sb (t_take bn j t) (t_take bn j t1) r → took sb t t1 r.
Proof. intros []. by split. Qed.

(** Storing into a block that is held, and releasing it. *)
Lemma store_held c f t bn j d0 d :
  fabs c f (t_take bn j t) → tx_clear c → t_held t = [] → home (t_start t) (t_size t) bn → length d = bsize →
  Z.of_nat (length (t_logged t)) < LOGBLOCKS → t_data t bn = d0 →
  ∃ l1 c' l, fbdata j c f = Ret d0 c f ∧ fbwrite j d c f = Ret tt c (set_flog l1 f) ∧
    fbrelse j c (set_flog l1 f) = Ret tt c' (set_flog l f) ∧ same_ctx c c' ∧ fabs c' (set_flog l f) (t_write bn d t).
Proof.
  intros Ha Hc Hh Hhome Hl Hr <-. destruct (fbwrite_ok c f (t_take bn j t) bn j d Ha Hc) as (l1 & E1 & Ht1); [constructor|done..|].
  change (t_write bn d (t_take bn j t)) with (t_take bn j (t_write bn d t)) in Ht1.
  destruct (fbrelse_ok c (set_flog l1 f) _ bn j Ht1 Hc) as (c' & l & E2 & Hc' & Ht2); [constructor|].
  rewrite drop_take in Ht2 by (cbn; rewrite Hh; apply not_elem_of_nil). exists l1, c', l. split_and!; try done.
  unfold fbdata. kexec. f_equal. eapply (tabs_data _ _ _ bn j Ha). constructor.
Qed.

Lemma release_held c f t bn j :
  fabs c f (t_take bn j t) → tx_clear c → t_held t = [] →
  ∃ c' l, fbrelse j c f = Ret tt c' (set_flog l f) ∧ same_ctx c c' ∧ fabs c' (set_flog l f) t.
Proof.
  intros Ha Hc Hh. destruct (fbrelse_ok c f _ bn j Ha Hc) as (c' & l & E2 & Hc' & Ht2); [constructor|].
  rewrite drop_take in Ht2 by (rewrite Hh; apply not_elem_of_nil). by exists c', l.
Qed.

(** The blocks and the inode are as they were. *)
Lemma bmap_same lo hi k c f t ip c' l :
  wst c f t ip → same_ctx c c' → fabs c' (set_flog l f) t → (waddr (t_data t) ip k = 0 → full t) →
  bmap_spec lo hi k c f t ip (Ret (waddr (t_data t) ip k) c' (set_flog l f)).
Proof.
  intros W Hc Ha Hf. pose proof (ws_entry _ _ _ _ W) as We. exists c', l, t, ip. split_and!; try done.
  - by rewrite put_entry_id.
  - apply (wst_put c f t ip); try done; [apply W|apply W|by destruct ip].
  - apply wstep_refl.
Qed.

(** The second half of [bmap]: an entry of the indirect block, there already or allocated. *)
Lemma bmap_entry lo hi k c f t ip (a := waddr (t_data t) ip IB) :
  wst c f t ip → room t → NDIRECT <= k < MAXFILE → lo <= k < hi → a ≠ 0 →
  bmap_spec lo hi k c f t ip
    ((do bp <- fbread ROOTDEV a;
      do d <- fbdata bp;
      do addr <-
        (if ind_get d (k - NDIRECT) =? 0 then
           do addr <- balloc ROOTDEV;
           if addr =? 0 then kret addr
           else
             do d <- fbdata bp;
             fbwrite bp (st32 d (Z.to_nat (4 * (k - NDIRECT))) addr) ;;; kret addr
         else kret (ind_get d (k - NDIRECT)));
      fbrelse bp ;;;
      kret addr) c f).
Proof.
  intros W Hroom Hk Hlo Ha. pose proof (room_free _ _ _ _ W Hroom) as Hfree. pose proof W as [Wa Wc We Wd Ws Wh Wi].
  set (inum := i_inum ip) in *. destruct (fi_slot _ _ _ _ Wi IB (or_introl eq_refl) Ha) as [Hda Hua]. fold a in Hda, Hua.
  pose proof (dblock_range _ _ _ _ Hda) as Hra. unfold room in Hroom.
  destruct (fbread_ok c f t a Wa Wc ltac:(lia) ltac:(rewrite Wh; apply not_elem_of_nil) ltac:(lia)) as (j & l1 & E1 & Ht1 & Ed). kstep E1. kstep Ed.
  assert (Ek : waddr (t_data t) ip k = ind_get (t_data t a) (k - NDIRECT)).
  { rewrite waddr_indirect by lia. fold a. by rewrite (proj2 (Z.eqb_neq a 0)). }
  rewrite <- Ek. destruct (Z.eqb_spec (waddr (t_data t) ip k) 0) as [E0|E0].
  2: { rewrite (kbind_ret _ _ _ _ (waddr (t_data t) ip k) c (set_flog l1 f)) by done. cbn beta.
       destruct (release_held c _ t a j Ht1 Wc Wh) as (c3 & l3 & E3 & Hc3 & Ht3). kstep E3.
       unfold kret. rewrite (set_flog_twice l3 l1 f) in Ht3 |- *. by apply bmap_same. }
  rewrite kbind_assoc.
  destruct (balloc_file c (set_flog l1 f) (t_take a j t) ip inum Ht1 Wc Ws (finv_take _ _ _ _ _ Wi)) as (r & c2 & l2 & t2 & E2 & Hc2 & Ht2 & _ & Hcase).
  { intros b Hb. cbn in Hb. rewrite Wh in Hb. apply list_elem_of_singleton in Hb as ->. done. }
  { unfold t_free in *. cbn [t_take t_logged t_held] in *. rewrite length_cons. lia. }
  { cbn. lia. }
  kstep E2. rewrite (set_flog_twice l2 l1 f) in Ht2 |- *. pose proof (tx_clear_same _ _ Hc2 Wc) as Wc2.
  destruct Hcase as [(-> & -> & Hfull)|(Hr & T & d & ->)].
  { rewrite Z.eqb_refl, (kbind_ret _ _ _ _ 0 c2 (set_flog l2 f)) by done. cbn beta.
    destruct (release_held c2 _ t a j Ht2 Wc2 Wh) as (c3 & l3 & E3 & Hc3 & Ht3). kstep E3. unfold kret. rewrite <- E0. rewrite (set_flog_twice l3 l2 f) in Ht3 |- *.
    apply bmap_same; try done. by transitivity c2. }
  set (t1 := t_write r (replicate bsize 0) (t_write (BBLOCK 0 sb) d t)). change (t_write r _ _) with (t_take a j t1) in T, Ht2.
  apply took_untake in T. rewrite (proj2 (Z.eqb_neq r 0)) by done.
  destruct (entry_grow sb inum lo hi t ip k r d Wi T Hk Hlo E0 Ha) as (Ea1 & Er & I2 & S2 & B2). fold a t1 in Ea1, Er, I2, S2, B2.
  set (d2 := st32 (t_data t a) (Z.to_nat (4 * (k - NDIRECT))) r) in *.
  destruct (store_held c2 (set_flog l2 f) t1 a j (t_data t a) d2 Ht2 Wc2) as (l3 & c4 & l4 & E3 & E4 & E5 & Hc4 & Ht4); try done.
  { by destruct Hda as (_ & ? & _). }
  { unfold d2. rewrite length_st32; [apply Wi; lia|]. rewrite (fi_len _ _ _ _ Wi) by lia. fsconst. lia. }
  { pose proof (logs_length (λ b, b = r ∨ b = BBLOCK 0 sb) t t1 [r; BBLOCK 0 sb] ltac:(apply took_logs; auto)
      ltac:(intros b [-> | ->]; [constructor|apply elem_of_cons; right; constructor])) as Hll.
    change (length [r; BBLOCK 0 sb]) with 2%nat in Hll. lia. }
  rewrite kbind_assoc. kstep E3. rewrite kbind_assoc. kstep E4. rewrite (kbind_ret _ _ _ _ r c2 (set_flog l3 f)) by done. cbn beta. kstep E5.
  rewrite (set_flog_twice l4 l2 f) in Ht4 |- *. assert (Hs4 : same_ctx c c4) by (by transitivity c2).
  exists c4, l4, (t_write a d2 t1), ip. rewrite Er. split_and!; try done; [by rewrite put_entry_id|].
  apply (wst_put c f t ip); try done. by destruct ip.
Qed.

Lemma put_entry_twice ip1 ip2 l1 l2 f : put_entry ip2 (set_flog l2 (put_entry ip1 (set_flog l1 f))) = put_entry ip2 (set_flog l2 f).
Proof. unfold put_entry, set_inodes, set_flog. cbn [fs_inode fs_log fs_sb fs_user]. by rewrite list_insert_insert_eq. Qed.

(** [bmap] finds or allocates block [k] and changes no byte of the file; when it returns 0 the disk is full.  The transaction has room:
    since [t0] only slots in [lo .. h) were written. *)
Lemma bmap_allocates lo h hi k c f t ip t0 ip0 :
  wst c f t ip → wstep sb lo h t0 ip0 t ip → lo <= h → Z.of_nat (length (t_logged t0)) + (h - lo) + 6 <= LOGBLOCKS →
  0 <= k < MAXFILE → lo <= k < hi → bmap_spec lo hi k c f t ip (bmap i k c f).
Proof.
  intros W S0 Hlh Hroom Hk Hlo. pose proof (wstep_logged sb lo h _ _ _ _ Hlh S0) as Hl0. assert (Hr : room t) by (unfold room; lia).
  pose proof (ws_entry _ _ _ _ W) as We. unfold bmap. kstep (geti_ret c f i ip We).
  destruct (Z.ltb_spec k NDIRECT) as [Hd|Hd].
  { pose proof (bmap_inode lo hi k c f t ip W Hr) as B. rewrite (proj2 (Z.eqb_neq k IB)) in B by (unfold IB; lia). apply B; lia. }
  rewrite (proj2 (Z.ltb_lt (k - NDIRECT) NINDIRECT)) by (fsconst; lia).
  pose proof (bmap_inode 0 0 IB c f t ip W Hr (or_introl eq_refl) (or_introl eq_refl)) as (c1 & l1 & t1 & ip1 & E1 & Hc1 & W1 & S1 & B1 & F1).
  change (Z.to_nat (if IB =? IB then NDIRECT else IB)) with (Z.to_nat NDIRECT) in E1. rewrite (kbind_ret _ _ _ _ _ _ _ E1). cbn beta.
  assert (S01 : wstep sb lo h t0 ip0 t1 ip1).
  { eapply wstep_trans; [apply (ws_inv _ _ _ _ W1)|exact S0|]. apply (wstep_weaken sb 0 0); [lia|done]. }
  pose proof (wstep_logged sb lo h _ _ _ _ Hlh S01) as Hl1. apply (wstep_weaken sb 0 0 lo hi) in S1; [|lia].
  destruct (Z.eqb_spec (waddr (t_data t1) ip1 IB) 0) as [Ea|Ea].
  - assert (Ek : waddr (t_data t1) ip1 k = 0) by (rewrite waddr_indirect, Ea by lia; done).
    exists c1, l1, t1, ip1. rewrite Ek. split_and!; try done. intros _. by apply F1.
  - rewrite (ws_dev _ _ _ _ W).
    destruct (bmap_entry lo hi k c1 _ t1 ip1 W1) as (c2 & l2 & t2 & ip2 & E2 & Hc2 & W2 & S2 & B2 & F2); [unfold room; lia|lia|lia|done|].
    rewrite E2. rewrite put_entry_twice in W2 |- *. exists c2, l2, t2, ip2. split_and!; try done.
    + by transitivity c1.
    + eapply wstep_trans; [apply (ws_inv _ _ _ _ W2)|exact S1|exact S2].
    + intros x Hx. by rewrite B2, B1.
Qed.

(** *** The data to be written *)

Definition set_fuser (u : U) f : FS := mkfs (fs_log f) (fs_sb f) (fs_inode f) u.

(** [either_copyin] delivers the bytes of [data] ([arg] is the kernel variable when the source is one), whatever has happened to the process's memory in between as long as [Q] holds. *)
Definition supplies (Q : U → Prop) c0 (src : endpoint) (arg data : list Z) (n : Z) : Prop :=
  ∀ c f tot m, same_ctx c0 c → Q (fs_user f) → 0 <= tot → 0 < m → tot + m <= n →
  ∃ c' u', copy_from src arg tot m c f = Ret (0, slice data (Z.to_nat tot) (Z.to_nat m)) c' (set_fuser u' f) ∧ Q u' ∧ same_ctx c c'.

Lemma supplies_kernel c0 data n : supplies (λ _, True) c0 KernelVar data data n.
Proof. intros c f tot m _ _ _ _ _. exists c, (fs_user f). split_and!; [by destruct f|done|done]. Qed.

Lemma wst_user c c' f t ip u : wst c f t ip → same_ctx c c' → wst c' (set_fuser u f) t ip.
Proof.
  intros [] Hc. split; try done; [|by eapply tx_clear_same]. unfold fabs in *. destruct Hc as [_ ->]. done.
Qed.

(** One block of [writei]: read, overwritten from [off mod BSIZE] on, logged and released. *)
Lemma write_block_ok lo hi c f t ip (off : Z) bs (k := off / BSIZE) (a := waddr (t_data t) ip k) :
  wst c f t ip → 0 <= k < MAXFILE → lo <= k < hi → 0 <= off → a ≠ 0 → off mod BSIZE + Z.of_nat (length bs) <= BSIZE →
  Z.of_nat (length (t_logged t)) < LOGBLOCKS →
  let d := splice (t_data t a) (Z.to_nat (off mod BSIZE)) bs in
  let t' := t_write a d t in
  home (t_start t) (t_size t) a ∧ length d = bsize ∧ finv sb (i_inum ip) t' ip ∧ wstep sb lo hi t ip t' ip ∧
  ∀ x, 0 <= x < MAXFILE * BSIZE → wbyte (t_data t') ip x =
    if (off <=? x) && (x <? off + Z.of_nat (length bs)) then nth (Z.to_nat (x - off)) bs 0 else wbyte (t_data t) ip x.
Proof.
  intros W Hk Hlo Ho Ha Hfit Hr d t'. pose proof (ws_inv _ _ _ _ W) as I. destruct (fi_slot _ _ _ _ I k (or_intror Hk) Ha) as [Hd _]. fold a in Hd.
  pose proof (dblock_range _ _ _ _ Hd) as Hra. pose proof (fi_len _ _ _ _ I a ltac:(lia)) as Hl.
  assert (Hfit' : (Z.to_nat (off mod BSIZE) + length bs ≤ length (t_data t a))%nat) by (rewrite Hl; fslia).
  assert (Hdl : length d = bsize) by (unfold d; rewrite length_splice; done).
  destruct (write_slot sb (i_inum ip) t ip k d I Hk Ha Hdl) as (I' & _ & Hb). fold a t' in I', Hb.
  split_and!; [by destruct Hd as (_ & ? & _)|done|done|by apply (write_step sb (i_inum ip) lo hi t ip k d)|].
  intros x Hx. rewrite Hb by done. unfold k. destruct (Z.eqb_spec (x / BSIZE) (off / BSIZE)) as [E|E].
  - unfold d. rewrite nth_lookup. destruct (decide (off <= x < off + Z.of_nat (length bs))) as [Hin|Hout].
    + rewrite (proj2 (Z.leb_le _ _)), (proj2 (Z.ltb_lt _ _)) by lia. cbn [andb]. rewrite nth_lookup. f_equal. unfold splice.
      rewrite lookup_app_r by (rewrite length_take; fslia). rewrite length_take, lookup_app_l by fslia. f_equal. fslia.
    + rewrite lookup_splice_ne by (done || fslia).
      assert (Eb : (off <=? x) && (x <? off + Z.of_nat (length bs)) = false) by (destruct (Z.leb_spec off x), (Z.ltb_spec x (off + Z.of_nat (length bs))); done || lia).
      rewrite Eb. unfold wbyte. rewrite E. fold k a. rewrite (proj2 (Z.eqb_neq a 0)) by done. by rewrite nth_lookup.
  - assert (Eb : (off <=? x) && (x <? off + Z.of_nat (length bs)) = false); [|by rewrite Eb].
    apply andb_false_iff. destruct (Z.leb_spec off x); [right|by left]. apply Z.ltb_ge. fslia.
Qed.

(** What the loop has done when it has written [data] from [tot] to [r] at [off]. *)
Record written (data : list Z) (tot r off : Z) t ip t' ip' : Prop := mkwr {
  wr_bytes : ∀ x, 0 <= x < MAXFILE * BSIZE → wbyte (t_data t') ip' x =
    if (off <=? x) && (x <? off + (r - tot)) then nth (Z.to_nat (tot + (x - off))) data 0 else wbyte (t_data t) ip x;
  wr_blocks : ∀ x, off <= x < off + (r - tot) → waddr (t_data t') ip' (x / BSIZE) ≠ 0
}.

Lemma written_none data tot off t ip t' ip' :
  (∀ x, 0 <= x < MAXFILE * BSIZE → wbyte (t_data t') ip' x = wbyte (t_data t) ip x) → written data tot tot off t ip t' ip'.
Proof.
  intros H'. split; [|intros x Hx; lia]. intros x Hx. rewrite H' by done. destruct (Z.leb_spec off x), (Z.ltb_spec x (off + (tot - tot))); done || lia.
Qed.

(** The rest of the loop after a block of [m] bytes. *)
Lemma written_more data tot r off m lo hi t ip t1 ip1 t2 ip2 :
  0 <= off → 0 <= m → tot + m <= r → off mod BSIZE + m <= BSIZE → off + (r - tot) <= MAXFILE * BSIZE →
  waddr (t_data t1) ip1 (off / BSIZE) ≠ 0 → wstep sb lo hi t1 ip1 t2 ip2 →
  (∀ x, 0 <= x < MAXFILE * BSIZE → wbyte (t_data t1) ip1 x =
    if (off <=? x) && (x <? off + m) then nth (Z.to_nat (tot + (x - off))) data 0 else wbyte (t_data t) ip x) →
  written data (tot + m) r (off + m) t1 ip1 t2 ip2 → written data tot r off t ip t2 ip2.
Proof.
  intros Ho Hm Hr Hfit Hmax Hnz S1 Hb [W1 W2]. split.
  - intros x Hx. rewrite W1, Hb by done. replace (tot + m + (x - (off + m))) with (tot + (x - off)) by lia.
    destruct (Z.leb_spec (off + m) x), (Z.ltb_spec x (off + m + (r - (tot + m)))), (Z.leb_spec off x), (Z.ltb_spec x (off + m)), (Z.ltb_spec x (off + (r - tot)));
      cbn [andb]; done || lia.
  - intros x Hx. destruct (decide (off + m <= x)); [apply W2; lia|]. assert (E : x / BSIZE = off / BSIZE) by fslia. rewrite E.
    rewrite (st_keep _ _ _ _ _ _ _ S1); [done|right; fslia|done].
Qed.

(** One iteration: [bmap], then the block is read, overwritten, logged and released. *)
Lemma writei_block Q c0 src arg data n lo hi t0 ip0 c f t ip off tot h (k := off / BSIZE) (m := rw_chunk n tot off) (rest : Z → Z → M FS (Z * Z)) :
  supplies Q c0 src arg data n → (Z.to_nat n ≤ length data)%nat → Z.of_nat (length (t_logged t0)) + (hi - lo) + 5 <= LOGBLOCKS →
  wst c f t ip → same_ctx c0 c → Q (fs_user f) → wstep sb lo h t0 ip0 t ip → lo <= h → h <= k → 0 <= k < MAXFILE → lo <= k < hi →
  0 <= off → 0 <= tot < n →
  let body := (do addr <- bmap i k;
        if addr =? 0 then kret (tot, off)
        else
          do ip <- geti i;
          do bp <- fbread (i_dev ip) addr;
          do rb <- copy_from src arg tot m;
          do d <- fbdata bp;
          let d' := splice d (Z.to_nat (off mod BSIZE)) rb.2 in
          if rb.1 =? -1 then fbstore bp d' ;;; fbrelse bp ;;; kret (tot, off)
          else fbwrite bp d' ;;; fbrelse bp ;;; rest (off + m) (tot + m)) in
  ∃ c' f' t' ip', same_ctx c c' ∧ fs_inode f' = <[i:=ip']> (fs_inode f) ∧ Q (fs_user f') ∧ wst c' f' t' ip' ∧
    wstep sb lo (k + 1) t ip t' ip' ∧
    ((body c f = Ret (tot, off) c' f' ∧ full t' ∧ written data tot tot off t ip t' ip') ∨
     (body c f = rest (off + m) (tot + m) c' f' ∧ waddr (t_data t') ip' k ≠ 0 ∧
      ∀ x, 0 <= x < MAXFILE * BSIZE → wbyte (t_data t') ip' x =
        if (off <=? x) && (x <? off + m) then nth (Z.to_nat (tot + (x - off))) data 0 else wbyte (t_data t) ip x)).
Proof.
  intros Hsup Hdl Hlog W Hc0 HQ S0 Hlh Hhk Hk' Hk Ho Htot body. unfold body. clear body.
  destruct (bmap_allocates lo h (k + 1) k c f t ip t0 ip0 W S0) as (c1 & l1 & t1 & ip1 & E1 & Hc1 & W1 & S1 & B1 & F1); [lia|lia|done|lia|].
  set (f1 := put_entry ip1 (set_flog l1 f)) in *. set (a := waddr (t_data t1) ip1 k) in *. destruct (Z.eqb_spec a 0) as [Ea|Ea].
  { exists c1, f1, t1, ip1. split_and!; try done. left. split_and!; [kstep E1; by rewrite Ea|by apply F1|by apply written_none]. }
  destruct (rw_chunk_range n tot off ltac:(lia)) as [Hm1 Hm2]. fold m in Hm1, Hm2.
  assert (S01 : wstep sb lo (k + 1) t0 ip0 t1 ip1) by (eapply wstep_trans; [apply (ws_inv _ _ _ _ W1)|eapply wstep_weaken; [|exact S0]; lia|exact S1]).
  pose proof (wstep_logged sb lo (k + 1) _ _ _ _ ltac:(lia) S01) as Hl1. pose proof W1 as [Wa Wc We Wd Ws Wh Wi].
  set (bs := slice data (Z.to_nat tot) (Z.to_nat m)). assert (Hbs : Z.of_nat (length bs) = m) by (unfold bs; rewrite length_slice; lia).
  destruct (write_block_ok lo (k + 1) c1 f1 t1 ip1 off bs W1) as (Hhome & Hdl2 & I3 & S3 & B3); fold k; try done; try lia.
  fold k a in Hhome, Hdl2, I3, S3, B3. set (d := splice (t_data t1 a) (Z.to_nat (off mod BSIZE)) bs) in *.
  destruct (fbread_ok c1 f1 t1 a Wa Wc) as (j & l2 & E2 & Ht2 & _);
    [by destruct Hhome|rewrite Wh; apply not_elem_of_nil|unfold t_free; rewrite Wh; unfold NBUF; fsconst; simpl in *; lia|].
  destruct (Hsup c1 (set_flog l2 f1) tot m) as (c3 & u3 & E3 & HQ3 & Hc3); [by transitivity c|done|lia|lia|lia|].
  set (f3 := set_fuser u3 (set_flog l2 f1)) in *.
  assert (Ht3 : fabs c3 f3 (t_take a j t1)) by (unfold fabs in *; destruct Hc3 as [_ ->]; exact Ht2).
  destruct (store_held c3 f3 t1 a j (t_data t1 a) d Ht3) as (l4 & c5 & l5 & E4 & E5 & E6 & Hc5 & Ht5); try done; [by eapply tx_clear_same|lia|].
  assert (Hs5 : same_ctx c c5) by (transitivity c1; [done|by transitivity c3]).
  exists c5, (set_flog l5 f3), (t_write a d t1), ip1. split_and!; try done.
  - split; try done. eapply tx_clear_same; [|apply W]. done.
  - eapply wstep_trans; [exact I3|exact S1|exact S3].
  - right. split_and!.
    + kstep E1. rewrite (proj2 (Z.eqb_neq a 0)) by done. kstep (geti_ret c1 f1 i ip1 We). rewrite Wd. kstep E2. fold bs in E3. kstep E3. kstep E4. cbn [fst snd].
      change (0 =? -1) with false. cbn iota. fold d. kstep E5. kstep E6. done.
    + rewrite (st_keep _ _ _ _ _ _ _ S3); [done|by right|done].
    + intros x Hx. rewrite B3, Hbs by done. rewrite B1 by done. destruct (Z.leb_spec off x), (Z.ltb_spec x (off + m)); cbn [andb]; try done.
      unfold bs. rewrite !nth_lookup. unfold slice. rewrite lookup_take_lt, lookup_drop by lia. do 2 f_equal. lia.
Qed.

Lemma writei_loop_ok Q c0 src arg data n lo hi t0 ip0 fuel : ∀ c f t ip off tot h,
  supplies Q c0 src arg data n → (Z.to_nat n ≤ length data)%nat → Z.of_nat (length (t_logged t0)) + (hi - lo) + 5 <= LOGBLOCKS → hi <= MAXFILE →
  wst c f t ip → same_ctx c0 c → Q (fs_user f) → wstep sb lo h t0 ip0 t ip → lo <= h <= hi → (tot < n → h <= off / BSIZE) → lo <= off / BSIZE →
  0 <= off → 0 <= tot <= n → off + (n - tot) <= hi * BSIZE → (tot < n → n - tot + off mod BSIZE <= BSIZE * Z.of_nat fuel) →
  ∃ c' f' t' ip' r, writei_loop fuel i src arg off n tot c f = Ret (r, off + (r - tot)) c' f' ∧ same_ctx c c' ∧
    fs_inode f' = <[i:=ip']> (fs_inode f) ∧ Q (fs_user f') ∧ wst c' f' t' ip' ∧ wstep sb lo hi t0 ip0 t' ip' ∧ wstep sb lo hi t ip t' ip' ∧
    tot <= r <= n ∧ (r < n → full t') ∧ written data tot r off t ip t' ip'.
Proof.
  induction fuel as [|fuel IH]; intros c f t ip off tot h Hsup Hdl Hlog Hhi W Hc0 HQ S0 Hh Hnext Hlo Ho Htot Hend Hfuel;
    cbn [writei_loop]; destruct (Z.ltb_spec tot n) as [Hlt|Hge];
    try (assert (tot = n) as -> by lia; exists c, f, t, ip, n; rewrite list_insert_id by apply W; split_and!; try done; try lia;
         [unfold kret; do 2 f_equal; lia|eapply wstep_weaken; [|exact S0]; lia|apply wstep_refl|by apply written_none]).
  { specialize (Hfuel Hlt). fslia. }
  specialize (Hnext Hlt). specialize (Hfuel Hlt). set (k := off / BSIZE) in *. assert (Hk : lo <= k < hi) by (unfold k; fslia).
  assert (Hk' : 0 <= k < MAXFILE) by (unfold k in *; fslia).
  destruct (writei_block Q c0 src arg data n lo hi t0 ip0 c f t ip off tot h (λ off tot, writei_loop fuel i src arg off n tot) Hsup Hdl Hlog W Hc0 HQ S0)
    as (c1 & f1 & t1 & ip1 & Hc1 & Ei1 & HQ1 & W1 & S1 & [(E & Hfull & Hwr)|(E & Hnz & Hb)]); try done; try lia.
  all: assert (S01 : wstep sb lo (k + 1) t0 ip0 t1 ip1) by (eapply wstep_trans; [apply (ws_inv _ _ _ _ W1)|eapply wstep_weaken; [|exact S0]; lia|exact S1]).
  { exists c1, f1, t1, ip1, tot. rewrite Z.sub_diag, Z.add_0_r. split_and!; try done; try lia; (eapply wstep_weaken; [|done]; lia). }
  fold k in E, Hnz. set (m := rw_chunk n tot off) in *. destruct (rw_chunk_range n tot off Hlt) as [Hm1 Hm2]. fold m in Hm1, Hm2.
  destruct (IH c1 f1 t1 ip1 (off + m) (tot + m) (k + 1)) as (c2 & f2 & t2 & ip2 & r & E2 & Hc2 & Ei2 & HQ2 & W2 & S02 & S2 & Hr & Hf2 & Hw2); try done; try lia.
  - by transitivity c.
  - intros Hmore. unfold m, rw_chunk in *. unfold k. fslia.
  - unfold k in *. fslia.
  - intros Hmore. by apply rw_step.
  - assert (S1' : wstep sb lo hi t ip t1 ip1) by (eapply wstep_weaken; [|exact S1]; lia).
    exists c2, f2, t2, ip2, r. split_and!; try done; try lia.
    + etransitivity; [exact E|]. rewrite E2. do 2 f_equal. lia.
    + by transitivity c1.
    + by rewrite Ei2, Ei1, list_insert_insert_eq.
    + eapply wstep_trans; [apply (ws_inv _ _ _ _ W2)|exact S1'|exact S2].
    + eapply (written_more data tot r off m lo hi t ip t1 ip1 t2 ip2); try done; try lia. fslia.
Qed.

(** Blocks of a file that a write of [n] bytes at [off] touches. *)
Definition touched (off n : Z) : Z := (off + n + (BSIZE - 1)) / BSIZE - off / BSIZE.

(** What [writei] has done: [r] bytes of [data] are in the file at [off], the size covers them, the inode is on the disk, nothing else has changed. *)
Record wrote (data : list Z) (r off : Z) t ip t' ip' : Prop := mkwrote {
  wo_file : written data 0 r off t ip t' ip';
  wo_size : i_size ip' = Z.max (i_size ip) (off + r);
  wo_keep : ∀ s, slot s → waddr (t_data t) ip s ≠ 0 → waddr (t_data t') ip' s = waddr (t_data t) ip s;
  wo_same : ip' = set_isize (i_size ip') (set_addrs (i_addrs ip') ip);
  wo_inodes : ∀ j, 0 <= j < 2 ^ 31 → IBLOCK j sb = IBLOCK (i_inum ip) sb → disk_inode sb (t_data t') j = if decide (j = i_inum ip) then inode_dinode ip' else disk_inode sb (t_data t) j;
  wo_frame : ∀ b, 0 <= b < t_size t → b ≠ BBLOCK 0 sb → b ≠ IBLOCK (i_inum ip) sb → bused sb (t_data t) b = true →
    (∀ s, slot s → waddr (t_data t) ip s ≠ 0 → waddr (t_data t) ip s ≠ b) → t_data t' b = t_data t b
}.

(** The last steps of [writei]: the size and the inode. *)
Lemma writei_finish data c f t ip c1 f1 t1 ip1 off r lo hi :
  wst c f t ip → dinode_ok (inode_dinode ip) → 0 <= i_inum ip < 2 ^ 31 → wst c1 f1 t1 ip1 → wstep sb lo hi t ip t1 ip1 → lo <= hi →
  Z.of_nat (length (t_logged t)) + (hi - lo) + 5 <= LOGBLOCKS → written data 0 r off t ip t1 ip1 → 0 <= off → 0 <= r → off + r <= MAXFILE * BSIZE →
  ∃ c' l t', let ip' := set_isize (Z.max (i_size ip) (off + r)) ip1 in
    ((do ip <- geti i; (if i_size ip <? off + r then modi i (set_isize (off + r)) else kret tt) ;;; iupdate i ;;; kret r) c1 f1 =
      Ret r c' (put_entry ip' (set_flog l f1))) ∧ same_ctx c1 c' ∧ wst c' (put_entry ip' (set_flog l f1)) t' ip' ∧
    wrote data r off t ip t' ip' ∧ t_size t' = t_size t ∧ (full t1 → full t') ∧
    Z.of_nat (length (t_logged t')) <= Z.of_nat (length (t_logged t)) + 3 + (hi - lo).
Proof.
  intros W Hok Hin W1 S1 Hlh Hlog Hwr Hoff Hr Hmax. pose proof W1 as [Wa Wc We Wd Ws Wh Wi]. pose proof (wstep_logged sb lo hi _ _ _ _ Hlh S1) as Hl1.
  pose proof (st_ip _ _ _ _ _ _ _ S1) as Eip. assert (Esz : i_size ip1 = i_size ip) by (by rewrite Eip). assert (Eno : i_inum ip1 = i_inum ip) by (by rewrite Eip).
  set (ip' := set_isize (Z.max (i_size ip) (off + r)) ip1). set (inum := i_inum ip) in *. rewrite Eno in Wi.
  assert (Wi' : finv sb inum t1 ip') by (by apply (finv_addrs sb inum t1 ip1)).
  assert (Hok' : dinode_ok (inode_dinode ip')).
  { destruct Hok as (O1 & O2 & O3 & O4 & O5 & _). unfold dinode_ok, inode_dinode in *. cbn [d_type d_major d_minor d_nlink d_size d_addrs] in *.
    cbn [ip' set_isize i_type i_major i_minor i_nlink i_size i_addrs]. rewrite Eip. cbn [set_addrs i_type i_major i_minor i_nlink]. fsconst.
    split_and!; try lia; [apply (fi_addrs _ _ _ _ Wi)|apply (finv_range sb inum t1 ip1 Wi)]. }
  set (f2 := put_entry ip' f1).
  assert (He2 : fs_inode f2 !! i = Some ip') by (cbn; apply list_lookup_insert_eq; by eapply lookup_lt_Some).
  assert (Hip : inode_pre c1 f2 t1 i ip').
  { split; try done; change (i_inum ip') with (i_inum ip1); change (fs_sb f2) with (fs_sb f1); rewrite ?Eno, ?Ws.
    - done.
    - apply (fi_ib _ _ _ _ Wi).
    - rewrite Wh. apply not_elem_of_nil.
    - unfold t_free. rewrite Wh. unfold NBUF. fsconst. simpl in *. lia.
    - lia. }
  destruct (iupdate_ok c1 f2 t1 i ip' Hip) as (c' & l & E & Hc & Ht).
  set (d := put_dinode (t_data t1 (IBLOCK inum sb)) (dinode_off inum) (inode_dinode ip')).
  assert (Ev : inode_view f2 t1 ip' = t_write (IBLOCK inum sb) d t1) by (unfold inode_view, d; change (i_inum ip') with (i_inum ip1); change (fs_sb f2) with (fs_sb f1); by rewrite Eno, Ws).
  rewrite Ev in Ht. assert (Hd : length d = bsize).
  { unfold d. pose proof (fi_len _ _ _ _ Wi (IBLOCK inum sb) ltac:(destruct (fi_ib _ _ _ _ Wi); lia)) as Hl. rewrite length_put_dinode; [done|by apply dinode_off_fits|apply Hok']. }
  destruct (inode_block sb inum t1 ip' d Wi' Hd) as (I2 & Hw2 & Hb2). set (t2 := t_write (IBLOCK inum sb) d t1) in *.
  assert (Ew : ∀ s, waddr (t_data t1) ip' s = waddr (t_data t1) ip1 s) by done. assert (Eb : ∀ x, wbyte (t_data t1) ip' x = wbyte (t_data t1) ip1 x) by done.
  exists c', l, t2. cbv zeta. fold ip'. split_and!.
  - kstep (geti_ret c1 f1 i ip1 We). rewrite Esz.
    rewrite (kbind_ret _ _ _ _ tt c1 f2); [kstep E; done|]. destruct (Z.ltb_spec (i_size ip) (off + r)) as [Hlt|Hge].
    + rewrite (modi_put c1 f1 ip1) by done. unfold f2, ip'. by rewrite Z.max_r by lia.
    + unfold f2, ip'. rewrite Z.max_l, <- Esz by lia. rewrite put_entry_id; [done|]. rewrite We. f_equal. by destruct ip1.
  - done.
  - split; try done; [by eapply tx_clear_same|]. change (i_inum ip') with (i_inum ip1). by rewrite Eno.
  - split.
    + destruct Hwr as [R1 R2]. split; [intros x Hx; rewrite Hb2, Eb by done; by apply R1|]. intros x Hx. rewrite Hw2, Ew; [by apply R2|]. right.
      fslia.
    + done.
    + intros s Hs Hnz. rewrite Hw2, Ew by done. by apply S1.
    + change (set_isize (i_size ip') ip1 = set_isize (i_size ip') (set_addrs (i_addrs ip1) ip)). by rewrite <- Eip.
    + intros j Hj Ej. pose proof (inode_view_disk c1 f2 t1 i ip' j Hip Hj) as Ev'. rewrite Ev in Ev'. change (fs_sb f2) with (fs_sb f1) in Ev'.
      change (i_inum ip') with (i_inum ip1) in Ev'. rewrite Ws, Eno in Ev'. rewrite Ev'. fold inum. destruct (decide (j = inum)); [done|].
      unfold disk_inode. rewrite Ej. fold inum. pose proof (ws_inv _ _ _ _ W) as Wi0. fold inum in Wi0.
      rewrite (st_frame _ _ _ _ _ _ _ S1); [done|by destruct (fi_ib _ _ _ _ Wi0)|intros E'; by apply (fi_ne _ _ _ _ Wi0)|apply (fi_ibu _ _ _ _ Wi0)|].
      intros s Hs Hnz. by destruct (fi_slot _ _ _ _ Wi0 s Hs Hnz) as [(_ & _ & _ & ?) _].
    + intros b Hb Hn1 Hn2 Hu Hs. rewrite <- (st_frame _ _ _ _ _ _ _ S1 b Hb Hn1 Hu Hs). by apply fn_lookup_insert_ne.
  - apply S1.
  - intros Hf x Hx. rewrite (bused_ext sb (t_data t1)); [by apply Hf|pose proof (fi_max _ _ _ _ Wi); cbn in Hx; lia|]. apply fn_lookup_insert_ne.
    intros E'. by apply (fi_ne _ _ _ _ Wi).
  - pose proof (logs_length (λ b, b = IBLOCK inum sb) t1 t2 [IBLOCK inum sb] ltac:(by apply logs_write) ltac:(intros b ->; constructor)) as Hl2.
    change (length [IBLOCK inum sb]) with 1%nat in Hl2. lia.
Qed.

(** The conditions of a write: a well-formed file and bytes that can be had; and room in the transaction. *)
Record write_pre (Q : U → Prop) c f t ip (src : endpoint) (arg data : list Z) (off n : Z) : Prop := mkwp {
  wp_st : wst c f t ip;
  wp_ok : dinode_ok (inode_dinode ip);
  wp_inum : 0 <= i_inum ip < 2 ^ 31;
  wp_src : supplies Q c src arg data n;
  wp_user : Q (fs_user f);
  wp_data : (Z.to_nat n ≤ length data)%nat;
  wp_off : 0 <= off <= i_size ip;
  wp_n : 0 <= n;
  wp_max : off + n <= MAXFILE * BSIZE
}.
Definition log_room t (off n : Z) : Prop := Z.of_nat (length (t_logged t)) + touched off n + 5 <= LOGBLOCKS.

Lemma writei_ok Q c f t ip src arg data off n :
  write_pre Q c f t ip src arg data off n → log_room t off n →
  ∃ r c' f' t' ip', writei i src arg off n c f = Ret r c' f' ∧ same_ctx c c' ∧ wst c' f' t' ip' ∧
    fs_inode f' = <[i:=ip']> (fs_inode f) ∧ Q (fs_user f') ∧ 0 <= r <= n ∧ (r < n → full t') ∧ wrote data r off t ip t' ip' ∧
    Z.of_nat (length (t_logged t')) <= Z.of_nat (length (t_logged t)) + 3 + touched off n.
Proof.
  intros [W Hok Hin Hsup HQ Hdl Hoff Hn Hmax] Hroom. unfold log_room, touched in *. set (lo := off / BSIZE) in *. set (hi := (off + n + (BSIZE - 1)) / BSIZE) in *.
  assert (Hlh : lo <= hi) by (unfold lo, hi; fslia). assert (Hhi : hi <= MAXFILE) by (unfold hi; fslia).
  unfold writei. kstep (geti_ret c f i ip (ws_entry _ _ _ _ W)). rewrite u32_small by (fsconst; lia).
  rewrite (proj2 (Z.ltb_ge (i_size ip) off)), (proj2 (Z.ltb_ge (off + n) off)), (proj2 (Z.ltb_ge (MAXFILE * BSIZE) (off + n))) by lia. cbn [orb].
  destruct (writei_loop_ok Q c src arg data n lo hi t ip (rw_fuel n) c f t ip off 0 lo Hsup Hdl) as
    (c1 & f1 & t1 & ip1 & r & E1 & Hc1 & Ei1 & HQ1 & W1 & S1 & _ & Hr & Hf1 & Hw1); try done; try lia.
  - apply wstep_refl.
  - unfold hi. fslia.
  - intros _. unfold rw_fuel. rewrite Z2Nat.id; fslia.
  - rewrite Z.sub_0_r in E1. kstep E1. cbn [fst snd].
    destruct (writei_finish data c f t ip c1 f1 t1 ip1 off r lo hi) as (c2 & l2 & t2 & E2 & Hc2 & W2 & Hwo & Ez & Hf2 & Hl2); try done; try lia.
    set (ip' := set_isize _ ip1) in *. exists r, c2, (put_entry ip' (set_flog l2 f1)), t2, ip'. split_and!; try done; try lia.
    + by transitivity c1.
    + cbn. by rewrite Ei1, list_insert_insert_eq.
    + intros Hlt. by apply Hf2, Hf1.
Qed.

(** C12. [writei] of [n] bytes at an offset inside or at the end of a file, with at most MAXFILE blocks: it returns the number [r] of bytes
    written, which is [n] unless the disk is full; exactly the bytes [off .. off + r) of the file have changed, to those of the source; the size
    is the larger of the old one and [off + r]; the inode is on the disk, the other inodes of its block and every block in use for another purpose
    are kept; and the transaction has got at most three blocks more than the write touches: bitmap, indirect block and inode. *)
Theorem writei_writes Q c f t ip src arg data off n :
  write_pre Q c f t ip src arg data off n → log_room t off n →
  ∃ r c' f' t' ip', writei i src arg off n c f = Ret r c' f' ∧ same_ctx c c' ∧ wst c' f' t' ip' ∧
    fs_inode f' = <[i:=ip']> (fs_inode f) ∧ Q (fs_user f') ∧ 0 <= r <= n ∧ (r < n → full t') ∧ wrote data r off t ip t' ip' ∧
    Z.of_nat (length (t_logged t')) <= Z.of_nat (length (t_logged t)) + 3 + touched off n.
Proof. apply writei_ok. Qed.

(** C13. A transaction of [filewrite] writes at most FILEMAX bytes: started with the room that begin_op keeps for an operation, the call of [writei]
    returns and has added at most MAXOPBLOCKS blocks to the log, wherever the range lies relative to the blocks and whether or not
    it allocates data blocks and the indirect block. *)
Theorem filewrite_chunk_fits Q c f t ip src arg data off n :
  write_pre Q c f t ip src arg data off n → n <= FILEMAX → Z.of_nat (length (t_logged t)) + MAXOPBLOCKS <= LOGBLOCKS →
  ∃ r c' f' t' ip', writei i src arg off n c f = Ret r c' f' ∧ wst c' f' t' ip' ∧
    Z.of_nat (length (t_logged t')) <= Z.of_nat (length (t_logged t)) + MAXOPBLOCKS.
Proof.
  intros Hp Hn Hlog. assert (Ht : touched off n <= 4) by (pose proof (wp_off _ _ _ _ _ _ _ _ _ _ Hp); unfold touched, FILEMAX in *; change ((MAXOPBLOCKS - 1 - 1 - 2) / 2) with 3 in *; fslia).
  destruct (writei_ok Q c f t ip src arg data off n Hp) as (r & c' & f' & t' & ip' & E & _ & W & _ & _ & _ & _ & _ & Hl);
    [unfold log_room; fsconst; lia|]. exists r, c', f', t', ip'. split_and!; [done|done|]. fsconst. lia.
Qed.

(** *** Reading back *)

(** A file without holes. *)
Definition no_holes t ip : Prop := ∀ x, 0 <= x < i_size ip → waddr (t_data t) ip (x / BSIZE) ≠ 0.

Lemma fblock_waddr t ip (s : Z) : 0 <= s → waddr (t_data t) ip s ≠ 0 → fblock (t_data t) ip s = waddr (t_data t) ip s.
Proof.
  intros Hs Hnz. unfold fblock. destruct (Z.ltb_spec s NDIRECT); [by rewrite waddr_direct by lia|].
  rewrite waddr_indirect in Hnz |- * by lia. rewrite waddr_ib in *. destruct (Z.eqb_spec (nth (Z.to_nat NDIRECT) (i_addrs ip) 0) 0); done.
Qed.

Lemma fbyte_wbyte t ip (x : Z) : 0 <= x → waddr (t_data t) ip (x / BSIZE) ≠ 0 → fbyte (t_data t) ip x = wbyte (t_data t) ip x.
Proof. intros Hx Hnz. unfold fbyte, wbyte. rewrite fblock_waddr by (done || fslia). by rewrite (proj2 (Z.eqb_neq _ 0)). Qed.

Lemma wst_file_pre c f t ip : wst c f t ip → no_holes t ip → 0 <= i_size ip <= MAXFILE * BSIZE → 0 < t_free t → file_pre c f t i ip.
Proof.
  intros [Wa Wc We Wd Ws Wh Wi] Hno Hsz Hf. assert (Hread : ∀ s, slot s → waddr (t_data t) ip s ≠ 0 → readable t (waddr (t_data t) ip s)).
  { intros s Hs Hnz. destruct (fi_slot _ _ _ _ Wi s Hs Hnz) as [Hd _]. apply dblock_range in Hd. unfold readable. rewrite Wh.
    split_and!; [done|lia|lia|apply not_elem_of_nil]. }
  split; try done.
  - intros s Hs0 Hs. assert (Hnz : waddr (t_data t) ip s ≠ 0) by (rewrite <- (Z.div_mul s BSIZE) by done; apply Hno; fslia).
    rewrite fblock_waddr by done. apply Hread; [right; fslia|done].
  - intros Hs. specialize (Hno (NDIRECT * BSIZE) ltac:(fslia)). rewrite Z.div_mul in Hno by done.
    apply (Hread IB); [by left|]. intros E. apply Hno. rewrite waddr_indirect, E by done. done.
Qed.

(** What [writei] has written, [readi] reads: after a write that was not cut short by a full disk, reading the same range of the file gives the
    bytes of the source, for a file without holes and any position of the range relative to the blocks. *)
Theorem writei_then_readi Q c f t ip src arg data off n :
  write_pre Q c f t ip src arg data off n → log_room t off n → no_holes t ip → i_size ip <= MAXFILE * BSIZE → length data = Z.to_nat n →
  ∃ r c' f', writei i src arg off n c f = Ret r c' f' ∧
    (r = n → ∃ c'' f'', readi i KernelVar off n c' f' = Ret (n, data) c'' f'').
Proof.
  intros Hp Hroom Hno Hsz Hdl. destruct (writei_ok Q c f t ip src arg data off n Hp Hroom) as (r & c' & f' & t' & ip' & E & Hc & W & _ & _ & Hr & _ & Hwo & Hlog).
  exists r, c', f'. split; [done|]. intros ->. pose proof Hp as [_ _ _ _ _ _ Hoff Hn Hmax]. unfold log_room in Hroom. destruct Hwo as [[Wb Wk] Wz Wkeep _ _ _]. rewrite Z.sub_0_r in Wb, Wk.
  assert (Hno' : no_holes t' ip').
  { intros x Hx. destruct (decide (off <= x < off + n)); [by apply Wk|]. rewrite Wkeep; [apply Hno; lia|right; fslia|apply Hno; lia]. }
  assert (Hf' : 0 < t_free t') by (unfold t_free; rewrite (ws_held _ _ _ _ W); unfold NBUF; fsconst; simpl in *; lia).
  destruct (readi_ok c' f' t' i ip' off n (wst_file_pre _ _ _ _ W Hno' ltac:(lia) Hf')) as (c2 & l2 & E2 & _ & _); [fsconst; lia|fsconst; lia|].
  rewrite (proj2 (Z.ltb_ge (i_size ip') off)), (proj2 (Z.leb_gt (2 ^ 32) (off + n))), Z.min_l in E2 by (fsconst; lia). cbn [orb] in E2.
  exists c2, (set_flog l2 f'). rewrite E2. f_equal. f_equal. apply list_eq. intros k. unfold fcontents. rewrite list_lookup_fmap.
  destruct (decide (k < Z.to_nat n)%nat) as [Hk|Hk].
  - rewrite lookup_seq_lt by done. cbn [fmap option_fmap option_map]. rewrite Nat.add_0_l.
    rewrite fbyte_wbyte by (lia || (apply Hno'; lia)). rewrite Wb by (fsconst; lia). rewrite (proj2 (Z.leb_le _ _)), (proj2 (Z.ltb_lt _ _)) by lia. cbn [andb].
    destruct (lookup_lt_is_Some_2 data k) as [y Hy]; [lia|]. rewrite Hy. f_equal. apply nth_lookup_Some. rewrite <- Hy. f_equal. lia.
  - rewrite lookup_seq_ge by lia. symmetry. apply lookup_ge_None. lia.
Qed.
End ops.

(** ** Witnesses: a write that extends the file of the demonstration image of file Fs *)

#[local] Instance no_user_write : UserOps unit := {
  u_copyout _ _ := kret (-1);
  u_copyin _ _ := kret (-1, [])
}.

Definition demo_data : list Z := replicate 700 5.

Lemma demo_slots data s : slot s → waddr data demo_inode s = if s =? 0 then 45 else if s =? 1 then 46 else 0.
Proof.
  intros [->|Hs]; [done|]. destruct (decide (s < NDIRECT)) as [Hd|Hd].
  - rewrite waddr_direct by lia. unfold NDIRECT in Hd.
    assert (∃ k, (k < 12)%nat ∧ s = Z.of_nat k) as (k & Hk & ->) by (exists (Z.to_nat s); lia). rewrite Nat2Z.id. do 12 (destruct k as [|k]; [done|]). lia.
  - rewrite waddr_indirect by lia. change (waddr data demo_inode IB) with 0. unfold NDIRECT in Hd. by rewrite (proj2 (Z.eqb_neq s 0)), (proj2 (Z.eqb_neq s 1)) by lia.
Qed.

Lemma demo_write_pre :
  ∃ c (f : fsys (lsys bdev) unit) t, write_pre demo_sb 0 (λ _, True) c f t demo_inode KernelVar demo_data demo_data 1500 700 ∧ log_room t 1500 700 ∧ no_holes t demo_inode ∧ t_logged t = [].
Proof.
  destruct demo_mount as (c & f & t & Ha & Hc & _ & _ & Esb & Ei & Esz & Est & Eh & El & Hd).
  assert (Ebm : t_data t 44 = mread demo_img (44 * BSIZE) bsize) by (apply Hd; lia).
  assert (Hu : ∀ b : Z, 0 <= b < 80 → bused demo_sb (t_data t) b = bit_get (mread demo_img (44 * BSIZE) bsize) b).
  { intros b Hb. unfold bused. rewrite demo_bblock, Ebm by lia. by rewrite Z.mod_small by (unfold BPB, BSIZE; lia). }
  assert (Hdb : ∀ b, 45 <= b < 80 → dblock demo_sb 1 t b).
  { intros b Hb. unfold dblock. rewrite Est, Esz. split_and!; [lia|apply demo_home; lia..|change (BBLOCK 0 demo_sb) with 44; lia|change (IBLOCK 1 demo_sb) with 33; lia]. }
  assert (I : finv demo_sb 1 t demo_inode).
  { split; rewrite ?Esz, ?Est; change (BBLOCK 0 demo_sb) with 44; change (IBLOCK 1 demo_sb) with 33; try done.
    - apply demo_home. lia.
    - apply demo_home. lia.
    - rewrite Hu by lia. apply demo_bits. lia.
    - intros b Hb. eapply tabs_len; [exact Ha|]. rewrite Esz. done.
    - rewrite Hu by lia. apply demo_bits. lia.
    - intros b Hb Hf. rewrite Hu in Hf by done. apply Hdb. destruct (decide (b < 47)); [by rewrite demo_bits in Hf by lia|lia].
    - intros s Hs. rewrite demo_slots by done. destruct (s =? 0), (s =? 1); try done; intros _; (split; [apply Hdb; lia|rewrite Hu by lia; apply demo_bits; lia]).
    - intros s s' Hs Hs'. rewrite !demo_slots by done. destruct (Z.eqb_spec s 0), (Z.eqb_spec s 1), (Z.eqb_spec s' 0), (Z.eqb_spec s' 1); try lia; done. }
  exists c, f, t. split_and!; [split|..]; try done.
  - split; try done; [by rewrite Ei].
  - unfold dinode_ok. cbn [demo_inode inode_dinode d_type d_major d_minor d_nlink d_size d_addrs i_type i_major i_minor i_nlink i_size i_addrs].
    unfold T_FILE. split_and!; try lia; [done|]. repeat constructor; lia.
  - apply supplies_kernel.
  - unfold log_room. rewrite El. done.
  - intros x Hx. cbn [demo_inode i_size] in Hx. rewrite demo_slots by (right; fslia). assert (x / BSIZE = 0 ∨ x / BSIZE = 1) as [-> | ->] by fslia; done.
Qed.

Lemma writei_writes_witness :
  ∃ c (f : fsys (lsys bdev) unit) t r c' f' t' ip', writei 0 KernelVar demo_data 1500 700 c f = Ret r c' f' ∧
    wrote demo_sb demo_data r 1500 t demo_inode t' ip' ∧ (r < 700 → full demo_sb t') ∧ Z.of_nat (length (t_logged t')) <= 5.
Proof.
  destruct demo_write_pre as (c & f & t & Hp & Hr & _ & El).
  destruct (writei_writes demo_sb 0 (λ _, True) c f t demo_inode KernelVar demo_data demo_data 1500 700 Hp Hr)
    as (r & c' & f' & t' & ip' & E & _ & _ & _ & _ & _ & Hf & Hw & Hl).
  exists c, f, t, r, c', f', t', ip'. split_and!; [exact E|exact Hw|exact Hf|]. rewrite El in Hl. exact Hl.
Defined.

Lemma writei_then_readi_witness :
  ∃ c (f : fsys (lsys bdev) unit) r c' f', writei 0 KernelVar demo_data 1500 700 c f = Ret r c' f' ∧
    (r = 700 → ∃ c'' f'', readi 0 KernelVar 1500 700 c' f' = Ret (700, demo_data) c'' f'').
Proof.
  destruct demo_write_pre as (c & f & t & Hp & Hrm & Hno & _).
  destruct (writei_then_readi demo_sb 0 (λ _, True) c f t demo_inode KernelVar demo_data demo_data 1500 700 Hp Hrm Hno) as (r & c' & f' & E & Hr); [by fsconst|done|].
  exists c, f, r, c', f'. split; [exact E|exact Hr].
Defined.

Lemma filewrite_chunk_fits_witness :
  ∃ c (f : fsys (lsys bdev) unit) r c' f' t' ip', writei 0 KernelVar demo_data 1500 700 c f = Ret r c' f' ∧
    wst demo_sb 0 c' f' t' ip' ∧ Z.of_nat (length (t_logged t')) <= 10.
Proof.
  destruct demo_write_pre as (c & f & t & Hp & _ & _ & El).
  destruct (filewrite_chunk_fits demo_sb 0 (λ _, True) c f t demo_inode KernelVar demo_data demo_data 1500 700 Hp) as (r & c' & f' & t' & ip' & E & W & Hl);
    [done|by rewrite El|]. exists c, f, r, c', f', t', ip'. split_and!; [exact E|exact W|]. rewrite El in Hl. exact Hl.
Defined.
