(* ===== verification/Dirlink.v ===== *)
(** * Directories: what [dirlink] adds (kernel/fs.c)

    [dirlink] is a lookup, a search for a free entry and a write of one entry; with the specifications of [dirlookup] (file Dir) and of
    [writei] (file Fswrite) it is shown to put the new entry into the list of entries of the directory. *)

From stdpp Require Import base list functions sets numbers strings.
From Stdlib Require Import ZArith Lia.
From S2P Require Import Prelude Machine Kstring BlockCache Sleeplock Bio Log TxStore Fs Dir File Fswrite.

Definition new_entry (name : list Z) (inum : Z) : list Z := le_split 2 (u16 inum) ++ dirent_pad name.

(** The place of the first free entry, or of one after the last. *)
Fixpoint free_entry (des : list (list Z)) : nat :=
  match des with
  | [] => 0
  | de :: des' => if dirent_inum de =? 0 then 0 else S (free_entry des')
  end.

(** The entries with [de] at place [k]. *)
Definition put_dirent (k : nat) (de : list Z) (des : list (list Z)) : list (list Z) :=
  if (k <? length des)%nat then <[k:=de]> des else des ++ [de].

Lemma free_entry_le des : (free_entry des ≤ length des)%nat.
Proof. induction des as [|de des IH]; simpl; [lia|]. destruct (dirent_inum de =? 0); lia. Qed.

Lemma length_new_entry name inum : length (new_entry name inum) = Z.to_nat sizeof_dirent.
Proof. unfold new_entry, dirent_pad. by rewrite length_app, length_le_split, length_mread. Qed.

Section dirlink.
Context {L U : Type} `{TxStore L} `{UserOps U}.
Abbreviation FS := (fsys L U).
Implicit Types (f : FS) (t : tview) (c : kctx) (ip : inode).

(** The search of [dirlink]. *)
Lemma dirlink_loop_ok n : ∀ fuel c f t i ip (k : nat),
  file_pre c f t i ip → i_size ip = sizeof_dirent * Z.of_nat (k + n) → (n ≤ fuel)%nat →
  ∃ c' l, same_ctx c c' ∧ fabs c' (set_flog l f) t ∧
    dirlink_loop fuel i (sizeof_dirent * Z.of_nat k) c f =
      Ret (sizeof_dirent * Z.of_nat (k + free_entry (entry_at (t_data t) ip <$> seq k n))) c' (set_flog l f).
Proof.
  induction n as [|n IH]; intros fuel c f t i ip k Hp Hsz Hfuel.
  - exists c, (fs_log f). assert (Ef : set_flog (fs_log f) f = f) by (by destruct f). rewrite Ef. split_and!; [done|apply Hp|]. cbn [seq fmap list_fmap free_entry].
    rewrite Nat.add_0_r in *. destruct fuel; cbn [dirlink_loop]; kstep (geti_ret c f i ip (fp_entry _ _ _ _ _ Hp)); by rewrite (proj2 (Z.ltb_ge _ _)) by lia.
  - destruct fuel as [|fuel]; [lia|]. cbn [dirlink_loop]. kstep (geti_ret c f i ip (fp_entry _ _ _ _ _ Hp)).
    rewrite (proj2 (Z.ltb_lt _ _)) by (unfold sizeof_dirent in *; lia).
    destruct (read_dirent_ok c f t i ip k "dirlink read" Hp) as (c1 & l1 & E1 & Hc1 & Ht1); [unfold sizeof_dirent in *; lia|].
    kstep E1. cbn [seq fmap list_fmap free_entry]. destruct (Z.eqb_spec (dirent_inum (entry_at (t_data t) ip k)) 0) as [E|E].
    + exists c1, l1. by rewrite Nat.add_0_r.
    + pose proof (file_pre_same _ _ _ _ _ _ _ Hc1 Ht1 Hp) as Hp1.
      destruct (IH fuel c1 (set_flog l1 f) t i ip (S k) Hp1) as (c2 & l2 & Hc2 & Ht2 & E2); [rewrite Hsz; f_equal; lia|lia|].
      rewrite (set_flog_twice l2 l1 f) in Ht2, E2. exists c2, l2. split_and!; [by transitivity c1|done|].
      replace (sizeof_dirent * Z.of_nat k + sizeof_dirent) with (sizeof_dirent * Z.of_nat (S k)) by lia. rewrite E2. f_equal. lia.
Qed.

(** Entries of a directory without holes, byte by byte. *)
Lemma entry_at_bytes t ip (k : nat) : no_holes t ip → sizeof_dirent * Z.of_nat k + sizeof_dirent <= i_size ip →
  entry_at (t_data t) ip k = (λ j, wbyte (t_data t) ip (sizeof_dirent * Z.of_nat k + Z.of_nat j)) <$> seq 0 (Z.to_nat sizeof_dirent).
Proof.
  intros Hno Hk. unfold entry_at, fcontents. apply list_fmap_ext. intros x j Hj. apply lookup_seq in Hj as [-> Hj]. rewrite Nat.add_0_l.
  change (Z.to_nat sizeof_dirent) with 16%nat in Hj. unfold sizeof_dirent in *. apply fbyte_wbyte; [lia|]. apply Hno. lia.
Qed.

(** An entry written at place [k] shows up there and leaves the other entries alone. *)
Lemma entries_written sb de (k : nat) t ip t' ip' (n := Z.to_nat (i_size ip / sizeof_dirent)) :
  wrote sb de sizeof_dirent (sizeof_dirent * Z.of_nat k) t ip t' ip' → length de = Z.to_nat sizeof_dirent → (k ≤ n)%nat →
  no_holes t ip → 0 <= i_size ip → i_size ip mod sizeof_dirent = 0 → i_size ip' <= MAXFILE * BSIZE →
  no_holes t' ip' ∧ dir_entries (t_data t') ip' = put_dirent k de (dir_entries (t_data t) ip).
Proof.
  intros [[Wb Wk] Wz Wkeep _ _ _] Hde Hk Hno Hsz Hm Hmax. rewrite Z.sub_0_r in Wb, Wk. change (Z.to_nat sizeof_dirent) with 16%nat in *.
  unfold sizeof_dirent in *.
  assert (Hn : i_size ip = 16 * Z.of_nat n) by (unfold n; fslia).
  assert (Hno' : no_holes t' ip').
  { intros x Hx. destruct (decide (16 * Z.of_nat k <= x < 16 * Z.of_nat k + 16)); [by apply Wk|].
    rewrite Wkeep; [apply Hno; lia|right; fslia|apply Hno; lia]. }
  split; [done|]. assert (Hn' : Z.to_nat (i_size ip' / 16) = Nat.max n (S k)) by (rewrite Wz; fslia).
  assert (Hnew : ∀ j, (j < Nat.max n (S k))%nat → entry_at (t_data t') ip' j = if (j =? k)%nat then de else entry_at (t_data t) ip j).
  { intros j Hj. rewrite entry_at_bytes by (done || (unfold sizeof_dirent; lia)). unfold sizeof_dirent. destruct (Nat.eqb_spec j k) as [->|Hne].
    - apply list_eq. intros x. rewrite list_lookup_fmap. destruct (decide (x < 16)%nat) as [Hx|Hx].
      + rewrite lookup_seq_lt by done. cbn [fmap option_fmap option_map]. rewrite Nat.add_0_l, Wb by (fsconst; lia).
        rewrite (proj2 (Z.leb_le _ _)), (proj2 (Z.ltb_lt _ _)) by lia. cbn [andb]. destruct (lookup_lt_is_Some_2 de x) as [y Hy]; [lia|].
        rewrite Hy. f_equal. apply nth_lookup_Some. rewrite <- Hy. f_equal. lia.
      + rewrite lookup_seq_ge by lia. symmetry. apply lookup_ge_None. lia.
    - rewrite entry_at_bytes by (done || (unfold sizeof_dirent; lia)). unfold sizeof_dirent. apply list_fmap_ext. intros x y Hy. apply lookup_seq in Hy as [-> Hy].
      change (Z.to_nat 16) with 16%nat in Hy. rewrite Wb by (fsconst; lia).
      destruct (Z.leb_spec (16 * Z.of_nat k) (16 * Z.of_nat j + Z.of_nat (0 + x))), (Z.ltb_spec (16 * Z.of_nat j + Z.of_nat (0 + x)) (16 * Z.of_nat k + 16)); cbn [andb]; done || lia. }
  unfold dir_entries, put_dirent, sizeof_dirent. fold n. rewrite Hn', length_fmap, length_seq. apply list_eq. intros j.
  rewrite list_lookup_fmap. destruct (decide (j < Nat.max n (S k))%nat) as [Hj|Hj].
  - rewrite lookup_seq_lt by done. cbn [fmap option_fmap option_map]. rewrite Nat.add_0_l, Hnew by done. destruct (Nat.ltb_spec k n) as [Hlt|Hge].
    + destruct (Nat.eqb_spec j k) as [->|Hne].
      * by rewrite list_lookup_insert_eq by (rewrite length_fmap, length_seq; lia).
      * rewrite list_lookup_insert_ne, list_lookup_fmap, lookup_seq_lt by lia. done.
    + destruct (Nat.eqb_spec j k) as [->|Hne].
      * rewrite lookup_app_r; rewrite length_fmap, length_seq; [|lia]. by replace (k - n)%nat with 0%nat by lia.
      * rewrite lookup_app_l by (rewrite length_fmap, length_seq; lia). by rewrite list_lookup_fmap, lookup_seq_lt by lia.
  - rewrite lookup_seq_ge by lia. symmetry. destruct (Nat.ltb_spec k n); apply lookup_ge_None;
      rewrite ?length_insert, ?length_app, ?length_fmap, ?length_seq; simpl; lia.
Qed.

Lemma wst_flog sb i c f t ip c' l : wst sb i c f t ip → same_ctx c c' → fabs c' (set_flog l f) t → wst sb i c' (set_flog l f) t ip.
Proof. intros [] Hc Ha. split; try done. by eapply tx_clear_same. Qed.

Lemma new_entry_matches name inum : 0 < inum < 2 ^ 16 → entry_matches name (new_entry name inum).
Proof.
  intros Hi. unfold entry_matches, new_entry, dirent_inum, dirent_name, ld16. rewrite drop_app_length' by (by rewrite length_le_split).
  rewrite entry_name_pad. split; [|done]. unfold slice. rewrite drop_0, take_app_length' by (by rewrite length_le_split).
  rewrite le_combine_split. unfold u16. change (256 ^ Z.of_nat 2) with (2 ^ 16). rewrite !Z.mod_small by (rewrite ?Z.mod_small; lia). lia.
Qed.

(** The new entry is the one a lookup finds. *)
Lemma find_put_dirent name de des k :
  (k ≤ length des)%nat → Forall (λ x, ¬ entry_matches name x) des → entry_matches name de → list_find (entry_matches name) (put_dirent k de des) = Some (k, de).
Proof.
  intros Hk Hno Hde. rewrite Forall_lookup in Hno. apply list_find_Some. unfold put_dirent. destruct (Nat.ltb_spec k (length des)) as [Hlt|Hge].
  - split_and!; [by apply list_lookup_insert_eq|done|]. intros j y Hj Hlt'. rewrite list_lookup_insert_ne in Hj by lia. by eapply Hno.
  - assert (k = length des) as -> by lia. split_and!; [by rewrite lookup_app_r, Nat.sub_diag by lia|done|].
    intros j y Hj Hlt'. rewrite lookup_app_l in Hj by done. by eapply Hno.
Qed.

(** The directory and the transaction are fit for one more entry. *)
Record link_pre sb i c f t ip (name : list Z) : Prop := mklp {
  lp_st : wst sb i c f t ip;
  lp_ok : dinode_ok (inode_dinode ip);
  lp_inum : 0 <= i_inum ip < 2 ^ 31;
  lp_dir : i_type ip = T_DIR;
  lp_size : 0 <= i_size ip ∧ i_size ip + sizeof_dirent <= MAXFILE * BSIZE;
  lp_mod : i_size ip mod sizeof_dirent = 0;
  lp_holes : no_holes t ip;
  lp_name : (length name ≤ 32)%nat;
  lp_room : Z.of_nat (length (t_logged t)) + 6 <= LOGBLOCKS
}.

Lemma link_file_pre sb i c f t ip name : link_pre sb i c f t ip name → file_pre c f t i ip.
Proof.
  intros [W _ _ _ Hsz _ Hno _ Hr]. eapply wst_file_pre; [exact W|done|unfold sizeof_dirent in Hsz; lia|].
  unfold t_free. rewrite (ws_held _ _ _ _ _ _ W). unfold NBUF. fsconst. simpl in *. lia.
Qed.

(** Writing the entry. *)
Lemma link_write sb i c f t ip name inum (k : nat) :
  link_pre sb i c f t ip name → (k ≤ Z.to_nat (i_size ip / sizeof_dirent))%nat →
  ∃ w c' f' t' ip', writei i KernelVar (new_entry name inum) (sizeof_dirent * Z.of_nat k) sizeof_dirent c f = Ret w c' f' ∧ same_ctx c c' ∧
    wst sb i c' f' t' ip' ∧
    ((w = sizeof_dirent ∧ no_holes t' ip' ∧ dir_entries (t_data t') ip' = put_dirent k (new_entry name inum) (dir_entries (t_data t) ip)) ∨
     (w ≠ sizeof_dirent ∧ full sb t')).
Proof.
  intros [W Hok Hin Hty Hsz Hm Hno Hnm Hr] Hk. unfold sizeof_dirent in *. set (off := 16 * Z.of_nat k).
  assert (Hoff : 0 <= off <= i_size ip) by (unfold off; fslia).
  destruct (writei_ok sb i (λ _, True) c f t ip KernelVar (new_entry name inum) (new_entry name inum) off 16) as (w & c' & f' & t' & ip' & E & Hc & W' & _ & _ & Hw & Hf & Hwo & _).
  - split; try done; try apply supplies_kernel; try lia.
  - unfold log_room, touched, off. assert (16 * Z.of_nat k mod 16 = 0) by (rewrite Z.mul_comm; apply Z.mod_mul; lia). fslia.
  - exists w, c', f', t', ip'. split_and!; try done. destruct (decide (w = 16)) as [->|Hne]; [left|right; split; [done|apply Hf; lia]].
    split; [done|]. apply (entries_written sb _ k t ip t' ip'); try done; try lia.
    rewrite (wo_size _ _ _ _ _ _ _ _ Hwo). lia.
Qed.

(** C15. [dirlink] of a name that is in the directory takes and drops its inode and returns -1; of a new name it writes an entry with the name and the
    inode number at the first free place or after the last entry, keeps the other entries, and a lookup of the name then finds the new entry; when it
    returns -1 for a new name the disk is full.  The directory has room for an entry below the largest file size. *)
Theorem dirlink_links sb i c f t ip name inum (des := dir_entries (t_data t) ip) :
  link_pre sb i c f t ip name → 0 < inum < 2 ^ 16 →
  ∃ c1 l1, same_ctx c c1 ∧
  match list_find (entry_matches name) des with
  | Some (_, de) => dirlink i name inum c f = (do x <- iget ROOTDEV (dirent_inum de); iput x ;;; kret (-1)) c1 (set_flog l1 f)
  | None => ∃ r c' f' t' ip', dirlink i name inum c f = Ret r c' f' ∧ same_ctx c c' ∧ wst sb i c' f' t' ip' ∧
      ((r = 0 ∧ no_holes t' ip' ∧ dir_entries (t_data t') ip' = put_dirent (free_entry des) (new_entry name inum) des ∧
        list_find (entry_matches name) (dir_entries (t_data t') ip') = Some (free_entry des, new_entry name inum)) ∨
       (r = -1 ∧ full sb t'))
  end.
Proof.
  intros Hp Hin. pose proof (link_file_pre _ _ _ _ _ _ _ Hp) as Hfp. pose proof Hp as [W _ _ Hty Hsz Hm Hno Hnm Hr].
  destruct (dirlookup_ok c f t i ip name Hfp Hty Hm Hnm) as (c1 & l1 & Hc1 & Ht1 & E1). exists c1, l1. split; [done|]. fold des in E1.
  unfold dirlink. destruct (list_find (entry_matches name) des) as [[k de]|] eqn:Ef.
  { rewrite (kbind_run _ _ _ _ _ E1). unfold kbind. by destruct (iget ROOTDEV (dirent_inum de) c1 (set_flog l1 f)). }
  kstep E1. pose proof (wst_flog _ _ _ _ _ _ _ _ W Hc1 Ht1) as W1. pose proof (file_pre_same _ _ _ _ _ _ _ Hc1 Ht1 Hfp) as Hfp1.
  kstep (geti_ret c1 (set_flog l1 f) i ip (fp_entry _ _ _ _ _ Hfp1)). set (n := Z.to_nat (i_size ip / sizeof_dirent)).
  destruct (dirlink_loop_ok n (dir_fuel (i_size ip)) c1 (set_flog l1 f) t i ip 0 Hfp1) as (c2 & l2 & Hc2 & Ht2 & E2);
    [unfold n, sizeof_dirent in *; fslia|unfold n, dir_fuel; lia|].
  rewrite (set_flog_twice l2 l1 f) in Ht2, E2. change (sizeof_dirent * Z.of_nat 0) with 0 in E2. rewrite Nat.add_0_l in E2. kstep E2.
  change (entry_at (t_data t) ip <$> seq 0 n) with des.
  assert (Hs2 : same_ctx c c2) by (by transitivity c1).
  assert (Hp2 : link_pre sb i c2 (set_flog l2 f) t ip name) by (destruct Hp; split; try done; by eapply wst_flog).
  assert (Hlen : length des = n) by (unfold des, dir_entries; by rewrite length_fmap, length_seq).
  pose proof (free_entry_le des) as Hle.
  destruct (link_write sb i c2 (set_flog l2 f) t ip name inum (free_entry des) Hp2 ltac:(fold n; lia)) as (w & c3 & f3 & t3 & ip3 & E3 & Hc3 & W3 & Hcase).
  fold (new_entry name inum). kstep E3. destruct Hcase as [(-> & Hno3 & Ed)|(Hne & Hfull)].
  - exists 0, c3, f3, t3, ip3. split_and!; try done; [by transitivity c2|]. left. fold des in Ed. split_and!; try done. rewrite Ed.
    apply find_put_dirent; [done| |by apply new_entry_matches]. exact (proj1 (list_find_None (entry_matches name) des) Ef).
  - rewrite (proj2 (Z.eqb_neq w sizeof_dirent)) by done. exists (-1), c3, f3, t3, ip3. split_and!; try done; [by transitivity c2|by right].
Qed.
End dirlink.

(** ** Witness: the directory of file Dir *)

#[local] Instance no_user_link : UserOps unit := {
  u_copyout _ _ := kret (-1);
  u_copyin _ _ := kret (-1, [])
}.

Lemma demo_link_pre :
  ∃ c (f : fsys (lsys bdev) unit) t, link_pre demo_sb 0 c f t demo_dir [120; 121] ∧ fs_inode f = [demo_dir].
Proof.
  destruct demo_write_pre as (c & f & t & [[Wa Wc We Wd Ws Wh Wi] Hok Hin _ _ _ _ _ _] & _ & Hno & El).
  exists c, (set_inodes [demo_dir] f), t. split; [split|]; try done.
  - split; try done. by apply (finv_addrs _ _ t demo_inode).
  - intros x Hx. change (waddr (t_data t) demo_dir (x / BSIZE)) with (waddr (t_data t) demo_inode (x / BSIZE)). cbn [demo_dir set_isize i_size] in Hx.
    rewrite demo_slots by (right; fslia). assert (x / BSIZE = 0 ∨ x / BSIZE = 1) as [-> | ->] by fslia; done.
  - simpl. lia.
  - rewrite El. done.
Qed.

Lemma dirlink_links_witness :
  ∃ c (f : fsys (lsys bdev) unit) t c1 l1, fs_inode f = [demo_dir] ∧
  let des := dir_entries (t_data t) demo_dir in
  match list_find (entry_matches [120; 121]) des with
  | Some (_, de) => dirlink 0 [120; 121] 7 c f = (do x <- iget ROOTDEV (dirent_inum de); iput x ;;; kret (-1)) c1 (set_flog l1 f)
  | None => ∃ r c' f' t' ip', dirlink 0 [120; 121] 7 c f = Ret r c' f' ∧ same_ctx c c' ∧ wst demo_sb 0 c' f' t' ip' ∧
      ((r = 0 ∧ no_holes t' ip' ∧ dir_entries (t_data t') ip' = put_dirent (free_entry des) (new_entry [120; 121] 7) des ∧
        list_find (entry_matches [120; 121]) (dir_entries (t_data t') ip') = Some (free_entry des, new_entry [120; 121] 7)) ∨
       (r = -1 ∧ full demo_sb t'))
  end.
Proof.
  destruct demo_link_pre as (c & f & t & Hp & Ei). exists c, f, t.
  destruct (dirlink_links demo_sb 0 c f t demo_dir [120; 121] 7 Hp) as (c1 & l1 & _ & Hr); [lia|]. exists c1, l1. split; [exact Ei|exact Hr].
Defined.
