(* ===== verification/Console.v ===== *)
(** * Console and formatted output (kernel/uart.c)

    The UART transmit path, the console's line discipline and ring buffer, and [printf].  The
    transmit holding register is the list of bytes written to it; [LSR_TX_IDLE] becomes set in finite
    time, so the busy waits of [uartputc_sync] end; received characters are a list.  Of the running
    process the code uses the copy functions, [killed], its pid and [setkilled].

    A function that sleeps with work in progress returns the state of that work, and takes it as an
    argument when it continues. *)

From stdpp Require Import base list functions sets numbers strings.
From Stdlib Require Import ZArith Lia.
From S2P Require Import Prelude Machine Ring Fs File.

(** What the console uses of the current process, besides the copy functions. *)
Class TtyOps (V : Type) := {
  v_pid : V → option Z;              (* myproc()->pid, when there is a process *)
  v_setkilled : M V unit;            (* setkilled(myproc()) *)
  v_procdump : V → list Z            (* the text printed by procdump() *)
}.

Definition INPUT_BUF_SIZE : Z := 128.
Definition BACKSPACE : Z := 0x100.
(** [C(x)]: control-x *)
Definition ctrl (x : Z) : Z := x - 64.
Definition NL : Z := 10.
Definition CR : Z := 13.

(** [cons], uart_tx_busy, and the device: bytes written to THR, bytes waiting in RHR. *)
Record cons_t := mkcons {
  c_buf : list Z;
  c_r : Z;
  c_w : Z;
  c_e : Z;
  tx_busy : bool;
  tx_out : list Z;
  rx_in : list Z
}.

Definition set_crwe (r w e : Z) (k : cons_t) : cons_t := mkcons (c_buf k) r w e (tx_busy k) (tx_out k) (rx_in k).
Definition set_cbuf (b : list Z) (k : cons_t) : cons_t := mkcons b (c_r k) (c_w k) (c_e k) (tx_busy k) (tx_out k) (rx_in k).
Definition set_busy (b : bool) (k : cons_t) : cons_t := mkcons (c_buf k) (c_r k) (c_w k) (c_e k) b (tx_out k) (rx_in k).
Definition tx_put (x : Z) (k : cons_t) : cons_t :=
  mkcons (c_buf k) (c_r k) (c_w k) (c_e k) (tx_busy k) (tx_out k ++ [x]) (rx_in k).
Definition set_rx (l : list Z) (k : cons_t) : cons_t := mkcons (c_buf k) (c_r k) (c_w k) (c_e k) (tx_busy k) (tx_out k) l.

Record tty (V : Type) := mktty { t_con : cons_t; t_usr : V }.
Arguments mktty {V} t_con t_usr.
Arguments t_con {V} t.
Arguments t_usr {V} t.

Section console.
Context {V : Type} `{UserOps V} `{ProcOps V} `{TtyOps V}.
Abbreviation CM := (M (tty V)).

Definition con_lens : lens (tty V) cons_t := mklens t_con (λ k t, mktty k (t_usr t)).
Definition tusr_lens : lens (tty V) V := mklens t_usr (λ u t, mktty (t_con t) u).

Definition getc : CM cons_t := kgets t_con.
Definition modc (g : cons_t → cons_t) : CM unit := kmod (λ t, mktty (g (t_con t)) (t_usr t)).
Definition intty {A} (m : M V A) : CM A := zoom tusr_lens m.

(** ** UART *)

(** Both branches wait for LSR_TX_IDLE. *)
Definition uartputc_sync (c : Z) : CM unit :=
  (if c =? NL then modc (tx_put CR) else kret tt) ;;;
  modc (tx_put c).

(** Characters printed one after the other. *)
Fixpoint put_all (l : list Z) : CM unit :=
  match l with
  | [] => kret tt
  | x :: l' => uartputc_sync x ;;; put_all l'
  end.

(** The loop of [uartwrite] over the bytes still to send; [cr] says that the carriage return of the
    first one is out.  The result is what is left when it sleeps on uart_tx_chan. *)
Fixpoint uartwrite_loop (bs : list Z) (cr : bool) : CM (option (list Z * bool)) :=
  match bs with
  | [] => kret None
  | b :: bs' =>
      do k <- getc;
      if (b =? NL) && negb cr then
        if tx_busy k then kret (Some (bs, false))
        else modc (λ k, set_busy true (tx_put CR k)) ;;; kret (Some (bs, true))
      else if tx_busy k then kret (Some (bs, cr))
      else modc (λ k, set_busy true (tx_put b k)) ;;; uartwrite_loop bs' false
  end.

(** [uartwrite], from the given point: [None] when it returns; otherwise it sleeps. *)
Definition uartwrite (bs : list Z) (cr : bool) : CM (option (list Z * bool)) :=
  acquire LK_uart ;;;
  do r <- uartwrite_loop bs cr;
  release LK_uart ;;;
  kret r.

(** One reading of LSR and RHR. *)
Definition uartgetc : CM Z :=
  do k <- getc;
  match rx_in k with
  | [] => kret (-1)
  | x :: l => modc (set_rx l) ;;; kret x
  end.

(** ** Console *)

Definition consputc (c : Z) : CM unit :=
  if c =? BACKSPACE then uartputc_sync 8 ;;; uartputc_sync 32 ;;; uartputc_sync 8
  else uartputc_sync c.

(** How the loop of [consoleread] stops: left with [n] bytes missing, the process killed, or waiting
    for a line with [n] bytes missing. *)
Inductive crres := CRdone (n : Z) | CRkilled | CRwait (n : Z).

Fixpoint consoleread_loop (fuel : nat) (dst target n : Z) : CM crres :=
  if 0 <? n then
    match fuel with
    | O => nofuel
    | S fuel' =>
        do k <- getc;
        if c_r k =? c_w k then
          do kd <- intty u_killed;
          if negb (kd =? 0) then kret CRkilled else kret (CRwait n)
        else
          let c := nth (Z.to_nat (c_r k mod INPUT_BUF_SIZE)) (c_buf k) 0 in
          modc (λ k, set_crwe (u32 (c_r k + 1)) (c_w k) (c_e k) k) ;;;
          if c =? ctrl 68 then
            (if n <? target then modc (λ k, set_crwe (u32 (c_r k - 1)) (c_w k) (c_e k) k) else kret tt) ;;;
            kret (CRdone n)
          else
            do r <- intty (u_copyout (u64 (dst + (target - n))) [c]);
            if r =? -1 then kret (CRdone n)
            else if c =? NL then kret (CRdone (n - 1))
            else consoleread_loop fuel' dst target (n - 1)
    end
  else kret (CRdone n).

(** [consoleread] with [n] of [target] bytes missing. *)
Definition consoleread_from (dst target n : Z) : CM Z :=
  acquire LK_cons ;;;
  do r <- consoleread_loop (Z.to_nat n) dst target n;
  match r with
  | CRdone n => release LK_cons ;;; kret (target - n)
  | CRkilled => release LK_cons ;;; kret (-1)
  | CRwait n => sleep CH_cons LK_cons
  end.
Definition consoleread (dst n : Z) : CM Z := consoleread_from dst n n.

(** [consolewrite]: chunks of 32 bytes.  A chunk that has to wait for the transmitter is left as the
    bytes still to send and the value of [i] before it. *)
Inductive cwres := CWdone (i : Z) | CWwait (i : Z) (left : list Z) (cr : bool).

Fixpoint consolewrite_loop (fuel : nat) (src n i : Z) : CM cwres :=
  if i <? n then
    match fuel with
    | O => nofuel
    | S fuel' =>
        let nn := Z.min 32 (n - i) in
        do r <- intty (u_copyin (u64 (src + i)) (Z.to_nat nn));
        if r.1 =? -1 then kret (CWdone i)
        else
          do w <- uartwrite r.2 false;
          match w with
          | None => consolewrite_loop fuel' src n (i + nn)
          | Some (l, cr) => kret (CWwait i l cr)
          end
    end
  else kret (CWdone i).

(** [consolewrite] up to its first wait for the transmitter. *)
Definition consolewrite (src n : Z) : CM Z :=
  do r <- consolewrite_loop (Z.to_nat n) src n 0;
  match r with
  | CWdone i => kret i
  | CWwait _ _ _ => acquire LK_uart ;;; sleep CH_uart LK_uart
  end.

(** The loop of control-U. *)
Fixpoint kill_line (fuel : nat) : CM unit :=
  do k <- getc;
  if negb (c_e k =? c_w k) && negb (nth (Z.to_nat (u32 (c_e k - 1) mod INPUT_BUF_SIZE)) (c_buf k) 0 =? NL) then
    match fuel with
    | O => nofuel
    | S fuel' =>
        modc (λ k, set_crwe (c_r k) (c_w k) (u32 (c_e k - 1)) k) ;;;
        consputc BACKSPACE ;;;
        kill_line fuel'
    end
  else kret tt.

(** The default case: a character is echoed and stored. *)
Definition store_char (c : Z) : CM unit :=
  do k <- getc;
  if negb (c =? 0) && (u32 (c_e k - c_r k) <? INPUT_BUF_SIZE) then
    let c := if c =? CR then NL else c in
    consputc c ;;;
    modc (λ k, set_crwe (c_r k) (c_w k) (u32 (c_e k + 1))
                 (set_cbuf (<[Z.to_nat (c_e k mod INPUT_BUF_SIZE):=u8 c]> (c_buf k)) k)) ;;;
    do k <- getc;
    if (c =? NL) || (c =? ctrl 68) || (u32 (c_e k - c_r k) =? INPUT_BUF_SIZE) then
      modc (λ k, set_crwe (c_r k) (c_e k) (c_e k) k) ;;;
      wakeup CH_cons
    else kret tt
  else kret tt.

(** The switch of [consoleintr]. *)
Definition console_key (c : Z) : CM unit :=
  if c =? ctrl 80 then
    do text <- kgets (λ t, v_procdump (t_usr t));
    put_all text
  else if c =? ctrl 85 then kill_line (Z.to_nat INPUT_BUF_SIZE)
  else if c =? ctrl 88 then panic "User triggered panic!"
  else if c =? ctrl 67 then
    do pid <- kgets (λ t, v_pid (t_usr t));
    match pid with
    | Some p =>
        if 1 <? p then intty v_setkilled ;;; consputc 94 ;;; consputc 67 else kret tt
    | None => kret tt
    end
  else if (c =? ctrl 72) || (c =? 127) then
    do k <- getc;
    if negb (c_e k =? c_w k) then
      modc (λ k, set_crwe (c_r k) (c_w k) (u32 (c_e k - 1)) k) ;;;
      consputc BACKSPACE
    else kret tt
  else store_char c.

Definition consoleintr (c : Z) : CM unit :=
  acquire LK_cons ;;;
  console_key c ;;;
  release LK_cons.

(** The receive loop of [uartintr]: every waiting character goes to the console. *)
Fixpoint uartintr_rx (fuel : nat) : CM unit :=
  do c <- uartgetc;
  if c =? -1 then kret tt
  else
    match fuel with
    | O => nofuel
    | S fuel' => consoleintr c ;;; uartintr_rx fuel'
    end.

(** [uartintr]; [idle] is LSR_TX_IDLE. *)
Definition uartintr (idle : bool) : CM unit :=
  acquire LK_uart ;;;
  do k <- getc;
  (if idle && tx_busy k then modc (set_busy false) ;;; wakeup CH_uart else kret tt) ;;;
  release LK_uart ;;;
  do k <- getc;
  uartintr_rx (length (rx_in k)).
End console.

(** ** The line discipline

    What the console promises: completed input that readers get, and the line being edited. *)
Record line := mkline { ready : list Z; edit : list Z }.

(** The line without its characters after the last newline. *)
Fixpoint chop (l : list Z) : list Z :=
  match l with
  | [] => []
  | x :: l' => match chop l' with [] => if x =? NL then [x] else [] | r => x :: r end
  end.

Definition key_char (c : Z) : Z := if c =? CR then NL else c.
Definition completes (c : Z) (l : line) : bool :=
  (key_char c =? NL) || (key_char c =? ctrl 68) || (Z.of_nat (length (ready l) + length (edit l)) + 1 =? INPUT_BUF_SIZE).
Definition accepts (c : Z) (l : line) : bool :=
  negb (c =? 0) && (Z.of_nat (length (ready l) + length (edit l)) <? INPUT_BUF_SIZE).

(** The effect of one key. *)
Definition line_key (c : Z) (l : line) : line :=
  if c =? ctrl 85 then mkline (ready l) (chop (edit l))
  else if (c =? ctrl 72) || (c =? 127) then mkline (ready l) (removelast (edit l))
  else if accepts c l then
    let edit' := edit l ++ [key_char c] in
    if completes c l then mkline (ready l ++ edit') [] else mkline (ready l) edit'
  else l.
(** The key completes a line: readers are woken. *)
Definition line_wakes (c : Z) (l : line) : bool :=
  negb (c =? ctrl 85) && negb ((c =? ctrl 72) || (c =? 127)) && accepts c l && completes c l.

(** The ring buffer [k] holds the line [l]. *)
Record con_abs (k : cons_t) (l : line) : Prop := mkcabs {
  ca_len : length (c_buf k) = Z.to_nat INPUT_BUF_SIZE;
  ca_r : 0 <= c_r k < 2 ^ 32;
  ca_w : 0 <= c_w k < 2 ^ 32;
  ca_e : 0 <= c_e k < 2 ^ 32;
  ca_ready : ready l = rseg INPUT_BUF_SIZE (c_buf k) (c_r k) (udist (c_r k) (c_w k));
  ca_edit : edit l = rseg INPUT_BUF_SIZE (c_buf k) (c_w k) (udist (c_w k) (c_e k));
  ca_sum : udist (c_r k) (c_w k) + udist (c_w k) (c_e k) = udist (c_r k) (c_e k);
  ca_max : udist (c_r k) (c_e k) <= INPUT_BUF_SIZE
}.

Lemma con_pos : 0 < INPUT_BUF_SIZE.
Proof. done. Qed.
Lemma con_div : (INPUT_BUF_SIZE | 2 ^ 32).
Proof. by exists (2 ^ 25). Qed.

Lemma con_length_ready k l : con_abs k l → Z.of_nat (length (ready l)) = udist (c_r k) (c_w k).
Proof. intros Ha. rewrite (ca_ready _ _ Ha), length_rseg. apply Z2Nat.id, udist_range. Qed.
Lemma con_length_edit k l : con_abs k l → Z.of_nat (length (edit l)) = udist (c_w k) (c_e k).
Proof. intros Ha. rewrite (ca_edit _ _ Ha), length_rseg. apply Z2Nat.id, udist_range. Qed.
Lemma con_length k l : con_abs k l → Z.of_nat (length (ready l) + length (edit l)) = udist (c_r k) (c_e k).
Proof. intros Ha. pose proof (con_length_ready _ _ Ha). pose proof (con_length_edit _ _ Ha). pose proof (ca_sum _ _ Ha). lia. Qed.

(** Dropping the last character of the line. *)
Lemma con_erase k l : con_abs k l → c_e k ≠ c_w k →
  ∃ x, edit l = removelast (edit l) ++ [x] ∧ nth (Z.to_nat (u32 (c_e k - 1) mod INPUT_BUF_SIZE)) (c_buf k) 0 = x ∧
    con_abs (set_crwe (c_r k) (c_w k) (u32 (c_e k - 1)) k) (mkline (ready l) (removelast (edit l))).
Proof.
  intros [Hl Hr Hw He Er Ed Hs Hm] Hne. pose proof (udist_range (c_w k) (c_e k)) as Hd. pose proof (udist_range (c_r k) (c_w k)) as Hrw.
  assert (Hpos : 0 < udist (c_w k) (c_e k)).
  { destruct (decide (udist (c_w k) (c_e k) = 0)) as [E|]; [|lia]. apply (proj1 (udist_zero _ _ Hw He)) in E. congruence. }
  assert (E1 : udist (c_w k) (u32 (c_e k - 1)) = udist (c_w k) (c_e k) - 1).
  { rewrite udist_u32_r. apply (udist_add _ _ (-1)). lia. }
  assert (E2 : udist (c_r k) (u32 (c_e k - 1)) = udist (c_r k) (c_e k) - 1).
  { rewrite udist_u32_r. apply (udist_add _ _ (-1)). pose proof (udist_range (c_r k) (c_e k)). lia. }
  set (n := udist (c_w k) (c_e k)) in *.
  assert (Es : edit l = rseg INPUT_BUF_SIZE (c_buf k) (c_w k) (n - 1) ++ [nth (Z.to_nat ((c_w k + (n - 1)) mod INPUT_BUF_SIZE)) (c_buf k) 0]).
  { rewrite Ed. replace n with (n - 1 + 1) at 1 by lia. by rewrite rseg_app, rseg_one by lia. }
  assert (Ei : u32 (c_e k - 1) mod INPUT_BUF_SIZE = (c_w k + (n - 1)) mod INPUT_BUF_SIZE).
  { rewrite (udist_step (c_w k) (u32 (c_e k - 1)) Hw (u32_range _)), E1. rewrite <- (Z.add_0_r (u32 _)).
    rewrite u32_mod_ring; [by rewrite Z.add_0_r|apply con_pos|apply con_div]. }
  eexists. rewrite Es at 1 2. rewrite removelast_last. split; [reflexivity|]. split; [by rewrite Ei|].
  rewrite Es, removelast_last. split; cbn [set_crwe c_buf c_r c_w c_e ready edit]; try done; try lia.
  - apply u32_range.
  - by rewrite E1.
Qed.

Lemma chop_snoc l x : chop (l ++ [x]) = if x =? NL then l ++ [x] else chop l.
Proof.
  induction l as [|y l IH]; cbn [app chop]; [by destruct (x =? NL)|]. rewrite IH. destruct (x =? NL); [|done]. by destruct l.
Qed.

Section discipline.
Context {V : Type} `{UserOps V} `{ProcOps V} `{TtyOps V}.
Implicit Types (t : tty V) (c : kctx) (k : cons_t) (l : line).

(** Output changes neither the buffer nor the process. *)
Definition same_input t t' : Prop := ∃ out, t' = mktty (mkcons (c_buf (t_con t)) (c_r (t_con t)) (c_w (t_con t)) (c_e (t_con t))
  (tx_busy (t_con t)) (tx_out (t_con t) ++ out) (rx_in (t_con t))) (t_usr t).

Lemma uartputc_run x c t : ∃ t', uartputc_sync x c t = Ret tt c t' ∧ same_input t t'.
Proof.
  unfold uartputc_sync, modc. kexec. destruct t as [[b r w e bu o i] u]. destruct (x =? NL); kexec; (eexists; split; [reflexivity|]).
  - exists [CR; x]. unfold tx_put. cbn [c_buf c_r c_w c_e tx_busy tx_out rx_in t_con t_usr]. by rewrite <- app_assoc.
  - by exists [x].
Qed.

Lemma same_input_trans t1 t2 t3 : same_input t1 t2 → same_input t2 t3 → same_input t1 t3.
Proof. intros [o1 ->] [o2 ->]. exists (o1 ++ o2). cbn. by rewrite app_assoc. Qed.

Lemma consputc_run x c t : ∃ t', consputc x c t = Ret tt c t' ∧ same_input t t'.
Proof.
  unfold consputc. destruct (x =? BACKSPACE); [|apply uartputc_run].
  destruct (uartputc_run 8 c t) as (t1 & E1 & S1). destruct (uartputc_run 32 c t1) as (t2 & E2 & S2).
  destruct (uartputc_run 8 c t2) as (t3 & E3 & S3). exists t3. split; [by kstep E1; kstep E2|].
  eapply same_input_trans; [exact S1|]. by eapply same_input_trans.
Qed.

Lemma same_input_abs t t' l : same_input t t' → con_abs (t_con t) l → con_abs (t_con t') l.
Proof. intros [o ->] []. by split. Qed.

(** One erased character, as control-H and control-U do it. *)
Lemma erase_run c t l : con_abs (t_con t) l → c_e (t_con t) ≠ c_w (t_con t) →
  ∃ t', (modc (λ k, set_crwe (c_r k) (c_w k) (u32 (c_e k - 1)) k) ;;; consputc BACKSPACE) c t = Ret tt c t' ∧
    con_abs (t_con t') (mkline (ready l) (removelast (edit l))).
Proof.
  intros Ha Hne. destruct (con_erase _ _ Ha Hne) as (x & _ & _ & Ha').
  set (t1 := mktty (set_crwe (c_r (t_con t)) (c_w (t_con t)) (u32 (c_e (t_con t) - 1)) (t_con t)) (t_usr t)).
  destruct (consputc_run BACKSPACE c t1) as (t' & E & S). exists t'. split; [|by eapply same_input_abs].
  by rewrite (kbind_ret _ _ _ _ tt c t1).
Qed.

Lemma kill_line_run fuel c t l : con_abs (t_con t) l → (length (edit l) ≤ fuel)%nat →
  ∃ t', kill_line fuel c t = Ret tt c t' ∧ con_abs (t_con t') (mkline (ready l) (chop (edit l))).
Proof.
  revert t l. induction fuel as [|fuel IH]; intros t l Ha Hf; cbn [kill_line];
    rewrite (kbind_ret _ _ _ _ (t_con t) c t) by done; cbn beta;
    (destruct (Z.eqb_spec (c_e (t_con t)) (c_w (t_con t))) as [E|E];
     [assert (Hn : edit l = []) by (apply length_zero_iff_nil; pose proof (con_length_edit _ _ Ha) as Hl; rewrite E, udist_refl in Hl; lia);
      exists t; split; [done|]; destruct l as [rd ed]; cbn in *; by subst ed|]);
    destruct (con_erase _ _ Ha E) as (x & Ex & Ei & Ha'); cbn [negb andb]; rewrite Ei.
  { exfalso. apply (f_equal length) in Ex. rewrite length_app in Ex. simpl in Ex. lia. }
  destruct (Z.eqb_spec x NL) as [->|Hx]; cbn [negb].
  - exists t. split; [done|]. assert (Ec : chop (edit l) = edit l) by (rewrite Ex, chop_snoc; done). rewrite Ec. by destruct l.
  - destruct (erase_run c t l Ha E) as (t1 & E1 & Ha1). destruct (IH t1 _ Ha1) as (t2 & E2 & Ha2).
    { apply (f_equal length) in Ex. rewrite length_app in Ex. simpl in *. lia. }
    exists t2. split.
    + unfold kbind in E1 |- *. destruct (modc _ c t) as [[] c1 s1| | |]; try done. by rewrite E1.
    + assert (Ec : chop (edit l) = chop (removelast (edit l))); [|by rewrite Ec].
      rewrite Ex at 1. rewrite chop_snoc. by rewrite (proj2 (Z.eqb_neq _ _) Hx).
Qed.

(** Storing a character at the end of the line. *)
Lemma con_store k l x : con_abs k l → udist (c_r k) (c_e k) < INPUT_BUF_SIZE → byte x →
  con_abs (set_crwe (c_r k) (c_w k) (u32 (c_e k + 1))
             (set_cbuf (<[Z.to_nat (c_e k mod INPUT_BUF_SIZE):=u8 x]> (c_buf k)) k))
    (mkline (ready l) (edit l ++ [x])).
Proof.
  intros [Hl Hr Hw He Er Ed Hs Hm] Hlt Hx. unfold u8. rewrite (Z.mod_small x) by (unfold byte in Hx; lia).
  pose proof (udist_range (c_w k) (c_e k)) as Hd. pose proof (udist_range (c_r k) (c_w k)) as Hrw. pose proof (udist_range (c_r k) (c_e k)).
  assert (E1 : udist (c_w k) (u32 (c_e k + 1)) = udist (c_w k) (c_e k) + 1) by (rewrite udist_u32_r; apply udist_add; unfold INPUT_BUF_SIZE in *; lia).
  assert (E2 : udist (c_r k) (u32 (c_e k + 1)) = udist (c_r k) (c_e k) + 1) by (rewrite udist_u32_r; apply udist_add; unfold INPUT_BUF_SIZE in *; lia).
  split; cbn [set_crwe set_cbuf c_buf c_r c_w c_e ready edit]; try done; try lia.
  - by rewrite length_insert.
  - apply u32_range.
  - rewrite Er. symmetry. apply rseg_put_ne; [apply con_pos|apply con_div|lia|lia|lia].
  - rewrite E1, Ed. symmetry. apply rseg_put; [apply con_pos|apply con_div|done|lia|lia].
Qed.

(** Completing the line. *)
Lemma con_complete k l : con_abs k l → con_abs (set_crwe (c_r k) (c_e k) (c_e k) k) (mkline (ready l ++ edit l) []).
Proof.
  intros [Hl Hr Hw He Er Ed Hs Hm]. pose proof (udist_range (c_w k) (c_e k)). pose proof (udist_range (c_r k) (c_w k)).
  split; cbn [set_crwe c_buf c_r c_w c_e ready edit]; try done; rewrite ?udist_refl; try lia; [|done].
  rewrite <- Hs, rseg_app, Er, Ed by lia. f_equal. rewrite (udist_step (c_r k) (c_w k) Hr Hw) at 1.
  apply rseg_u32; [apply con_pos|apply con_div].
Qed.

Lemma store_char_run x h w me t l : con_abs (t_con t) l → byte x →
  ∃ t', store_char x (mkctx h w me) t =
      Ret tt (mkctx h (if accepts x l && completes x l then w ++ [CH_cons] else w) me) t' ∧
    con_abs (t_con t') (if accepts x l then if completes x l then mkline (ready l ++ edit l ++ [key_char x]) []
                                            else mkline (ready l) (edit l ++ [key_char x]) else l).
Proof.
  intros Ha Hx. set (c := mkctx h w me). unfold store_char. rewrite (kbind_ret _ _ _ _ (t_con t) c t) by done. cbn beta.
  pose proof (con_length _ _ Ha) as Hlen. unfold accepts. rewrite Hlen. change (u32 (c_e (t_con t) - c_r (t_con t))) with (udist (c_r (t_con t)) (c_e (t_con t))).
  destruct (negb (x =? 0) && (udist (c_r (t_con t)) (c_e (t_con t)) <? INPUT_BUF_SIZE)) eqn:Eacc; [|by exists t].
  apply andb_true_iff in Eacc as [_ Hlt%Z.ltb_lt]. cbn [andb]. fold (key_char x).
  destruct (consputc_run (key_char x) c t) as (t1 & E1 & S1). kstep E1.
  pose proof (same_input_abs _ _ _ S1 Ha) as Ha1. pose proof (con_length _ _ Ha1) as Hlen1.
  assert (Hk : byte (key_char x)) by (unfold key_char; destruct (x =? CR); [done|exact Hx]).
  pose proof (con_store _ _ (key_char x) Ha1 ltac:(lia) Hk) as Ha2.
  set (k2 := set_crwe (c_r (t_con t1)) _ _ _) in Ha2. set (t2 := mktty k2 (t_usr t1)).
  rewrite (kbind_ret _ _ _ _ tt c t2) by done. cbn beta. rewrite (kbind_ret _ _ _ _ k2 c t2) by done. cbn beta.
  change (u32 (c_e k2 - c_r k2)) with (udist (c_r k2) (c_e k2)). pose proof (con_length _ _ Ha2) as Hlen2.
  cbn [ready edit] in Hlen2. rewrite length_app in Hlen2. cbn [length] in Hlen2.
  assert (Ecmp : (key_char x =? NL) || (key_char x =? ctrl 68) || (udist (c_r k2) (c_e k2) =? INPUT_BUF_SIZE) = completes x l).
  { unfold completes. by replace (Z.of_nat (length (ready l) + length (edit l)) + 1) with (udist (c_r k2) (c_e k2)) by lia. }
  rewrite Ecmp. destruct (completes x l).
  - pose proof (con_complete _ _ Ha2) as Ha3. cbn [ready edit] in Ha3.
    eexists. split; [rewrite (kbind_ret _ _ _ _ tt c (mktty (set_crwe (c_r k2) (c_e k2) (c_e k2) k2) (t_usr t2))) by done; reflexivity|exact Ha3].
  - by exists t2.
Qed.

(** C39. An interrupt for an ordinary or editing key changes the ring buffer as the line discipline
    says: a character is appended to the line while the 128 bytes have room, backspace and control-U
    erase within the unfinished line only, newline, control-D and a full buffer hand the line to the
    readers and wake them.  The 32-bit indices may wrap; the buffer never overflows. *)
Theorem console_refines x h w me t l :
  con_abs (t_con t) l → byte x → LK_cons ∉ h → x ≠ ctrl 80 → x ≠ ctrl 88 → x ≠ ctrl 67 →
  ∃ t', consoleintr x (mkctx h w me) t = Ret tt (mkctx h (if line_wakes x l then w ++ [CH_cons] else w) me) t' ∧
    con_abs (t_con t') (line_key x l).
Proof.
  intros Ha Hx Hlk HP HX HC. set (c1 := mkctx (LK_cons :: h) w me).
  assert (Hkey : ∃ t', console_key x c1 t = Ret tt (mkctx (LK_cons :: h) (if line_wakes x l then w ++ [CH_cons] else w) me) t' ∧
    con_abs (t_con t') (line_key x l)).
  { unfold console_key, line_key, line_wakes.
    rewrite (proj2 (Z.eqb_neq x (ctrl 80))), (proj2 (Z.eqb_neq x (ctrl 88))), (proj2 (Z.eqb_neq x (ctrl 67))) by done.
    destruct (x =? ctrl 85); cbn [negb andb].
    { apply kill_line_run; [done|]. pose proof (con_length _ _ Ha). pose proof (ca_max _ _ Ha). unfold INPUT_BUF_SIZE in *. lia. }
    destruct ((x =? ctrl 72) || (x =? 127)); cbn [negb andb].
    - rewrite (kbind_ret _ _ _ _ (t_con t) c1 t) by done. cbn beta.
      destruct (Z.eqb_spec (c_e (t_con t)) (c_w (t_con t))) as [E|E]; cbn [negb]; [|by apply erase_run].
      exists t. split; [done|]. assert (Hn : edit l = []); [|destruct l; cbn in *; by subst].
      apply length_zero_iff_nil. pose proof (con_length_edit _ _ Ha) as Hl. rewrite E, udist_refl in Hl. lia.
    - destruct (store_char_run x (LK_cons :: h) w me t l Ha Hx) as (t' & E & Ha'). by exists t'. }
  destruct Hkey as (t' & E & Ha'). exists t'. split; [|done]. unfold consoleintr.
  rewrite (kbind_ret _ _ _ _ tt c1 t) by (by apply acquire_mk). cbn beta. kstep E. apply release_mk.
Qed.
End discipline.

(** ** Formatted output *)

(** [digits[x]] *)
Definition digit (x : Z) : Z := if x <? 10 then 48 + x else 87 + x.

(** The loop of [printint]: the digits, lowest first; a 64-bit number has at most 64. *)
Fixpoint print_digits (fuel : nat) (x base : Z) : list Z :=
  match fuel with
  | O => []
  | S fuel' => digit (x mod base) :: (if x / base =? 0 then [] else print_digits fuel' (x / base) base)
  end.

(** [printint]: buf when the conversion ends, and the characters in the order they are printed. *)
Definition printint_buf (xx base : Z) (sign : bool) : list Z :=
  let neg := sign && (xx <? 0) in
  print_digits 64 (u64 (if neg then - xx else xx)) base ++ (if neg then [45] else []).
Definition printint (xx base : Z) (sign : bool) : list Z := rev (printint_buf xx base sign).

Fixpoint print_hex (n : nat) (x : Z) : list Z :=
  match n with
  | O => []
  | S n' => digit (Z.shiftr x 60) :: print_hex n' (u64 (Z.shiftl x 4))
  end.
Definition printptr (x : Z) : list Z := [48; 120] ++ print_hex 16 x.

(** The arguments after the format: integers as they are passed, strings or a null pointer. *)
Inductive farg := ANum (v : Z) | AStr (s : option (list Z)).

Definition s64 (x : Z) : Z := let y := u64 x in if y <? 2 ^ 63 then y else y - 2 ^ 64.
Definition null_str : list Z := [40; 110; 117; 108; 108; 41].

(** The characters [printf] emits.  [None]: a missing or ill-typed argument, or a format that ends
    in a percent sign, where the code reads past the end of the string. *)
Fixpoint vprintf (fmt : list Z) (args : list farg) : option (list Z) :=
  match fmt with
  | [] => Some []
  | cx :: f1 =>
      if negb (cx =? 37) then cons cx <$> vprintf f1 args
      else
        match f1 with
        | [] => None
        | c0 :: f2 =>
            if c0 =? 100 then
              match args with ANum v :: a => app (printint (s32 v) 10 true) <$> vprintf f2 a | _ => None end
            else if (c0 =? 108) && (hd 0 f2 =? 100) then
              match f2, args with
              | _ :: f3, ANum v :: a => app (printint (s64 v) 10 true) <$> vprintf f3 a
              | _, _ => None
              end
            else if c0 =? 120 then
              match args with ANum v :: a => app (printint (s32 v) 16 false) <$> vprintf f2 a | _ => None end
            else if c0 =? 112 then
              match args with ANum v :: a => app (printptr (u64 v)) <$> vprintf f2 a | _ => None end
            else if c0 =? 115 then
              match args with AStr s :: a => app (default null_str s) <$> vprintf f2 a | _ => None end
            else if c0 =? 37 then cons 37 <$> vprintf f2 args
            else (λ l, 37 :: c0 :: l) <$> vprintf f2 args
        end
  end.

Section printf.
Context {V : Type}.

(** [printf] while the kernel is not panicking. *)
Definition printf (fmt : list Z) (args : list farg) : M (tty V) unit :=
  acquire LK_pr ;;;
  match vprintf fmt args with
  | Some l => put_all l
  | None => undefined "printf"
  end ;;;
  release LK_pr.
End printf.

(** The number a string of digits denotes, lowest digit first, and with a sign in front. *)
Definition digit_val (d : Z) : Z := if d <? 58 then d - 48 else d - 87.
Fixpoint le_value (base : Z) (l : list Z) : Z :=
  match l with [] => 0 | d :: l' => digit_val d + base * le_value base l' end.
Definition value_of (base : Z) (l : list Z) : Z :=
  match l with
  | [] => 0
  | d :: l' => if d =? 45 then - le_value base (rev l') else le_value base (rev l)
  end.

Lemma digit_val_digit x : 0 <= x < 16 → digit_val (digit x) = x ∧ digit x ≠ 45.
Proof.
  intros Hx. unfold digit_val, digit. destruct (Z.ltb_spec x 10).
  - rewrite (proj2 (Z.ltb_lt _ _)) by lia. lia.
  - rewrite (proj2 (Z.ltb_ge _ _)) by lia. lia.
Qed.

Lemma print_digits_spec base n fuel x :
  2 <= base <= 16 → (1 ≤ n ≤ fuel)%nat → 0 <= x < base ^ Z.of_nat n →
  let l := print_digits fuel x base in
  le_value base l = x ∧ (1 ≤ length l ≤ n)%nat ∧ Forall (λ d, d ≠ 45) l.
Proof.
  intros Hb. revert n x. induction fuel as [|fuel IH]; intros n x Hn Hx; [lia|]. cbn [print_digits].
  pose proof (Z.mod_pos_bound x base ltac:(lia)) as Hm. pose proof (Z.div_mod x base ltac:(lia)) as Hd.
  destruct (digit_val_digit (x mod base) ltac:(lia)) as [Hv Hne].
  destruct (Z.eqb_spec (x / base) 0) as [E|E].
  - cbn. split; [lia|]. split; [lia|by repeat constructor].
  - assert (Hq : 0 < x / base) by (pose proof (Z.div_pos x base ltac:(lia) ltac:(lia)); lia).
    assert (Hn2 : (2 ≤ n)%nat).
    { destruct n as [|[|n]]; [lia| |lia]. change (Z.of_nat 1) with 1 in Hx. rewrite Z.pow_1_r in Hx. rewrite Z.div_small in Hq; lia. }
    destruct (IH (n - 1)%nat (x / base)) as (Hl & Hlen & Hf); [lia| |].
    { split; [lia|]. apply Z.div_lt_upper_bound; [lia|]. rewrite <- Z.pow_succ_r by lia.
      replace (Z.succ (Z.of_nat (n - 1))) with (Z.of_nat n) by lia. apply Hx. }
    cbn [le_value length]. split; [lia|]. split; [lia|]. by constructor.
Qed.

Lemma value_unsigned base l : Forall (λ d, d ≠ 45) l → value_of base (rev l) = le_value base l.
Proof.
  intros Hf. unfold value_of. destruct (rev l) as [|d l'] eqn:E.
  - rewrite <- (rev_involutive l), E. done.
  - assert (Hd : d ≠ 45) by (rewrite Forall_forall in Hf; apply Hf, list_elem_of_In, in_rev; rewrite E; by left).
    rewrite (proj2 (Z.eqb_neq _ _) Hd). by rewrite <- E, rev_involutive.
Qed.

(** [printint] never writes past its buffer of 20 characters, for any 64-bit number printed in
    base 10 with a sign or in base 16 without, and what it prints denotes the number. *)
Theorem printint_fits xx :
  - 2 ^ 63 <= xx < 2 ^ 63 →
  (length (printint_buf xx 10 true) ≤ 20)%nat ∧ value_of 10 (printint xx 10 true) = xx ∧
  (length (printint_buf xx 16 false) ≤ 20)%nat ∧ value_of 16 (printint xx 16 false) = u64 xx.
Proof.
  intros Hx. unfold printint, printint_buf. cbn [andb].
  destruct (print_digits_spec 16 16 64 (u64 xx)) as (Hv16 & Hl16 & Hf16); [lia|lia|apply u64_range|].
  assert (H16 : (length (print_digits 64 (u64 xx) 16) ≤ 20)%nat ∧ value_of 16 (rev (print_digits 64 (u64 xx) 16)) = u64 xx)
    by (split; [lia|by rewrite value_unsigned]).
  rewrite app_nil_r. destruct (Z.ltb_spec xx 0) as [Hneg|Hpos].
  - rewrite (u64_small (- xx)) by lia. destruct (print_digits_spec 10 19 64 (- xx)) as (Hv & Hl & Hf); [lia|lia|lia|].
    rewrite length_app, rev_app_distr. cbn [rev app length]. split; [lia|]. split; [|exact H16].
    unfold value_of. rewrite Z.eqb_refl, rev_involutive. lia.
  - rewrite (u64_small xx) by lia. rewrite (u64_small xx) in H16 by lia. rewrite app_nil_r.
    destruct (print_digits_spec 10 19 64 xx) as (Hv & Hl & Hf); [lia|lia|lia|].
    split; [lia|]. split; [by rewrite value_unsigned|exact H16].
Qed.

(** The kernel's [printf] has no conversion for %lx, which trap.c uses: the text is printed as it is,
    and the argument is not consumed. *)
Lemma printf_lx v : vprintf [37; 108; 120] [ANum v] = Some [37; 108; 120].
Proof. reflexivity. Qed.

(** ** Witnesses *)
#[local] Existing Instance flat_user.
#[local] Existing Instance flat_proc.
#[local] Instance flat_tty : TtyOps mem := {
  v_pid _ := None;
  v_setkilled := kret tt;
  v_procdump _ := []
}.

(** An unfinished line of two characters, with the indices about to wrap. *)
Definition demo_tty : tty mem :=
  mktty (mkcons (<[127%nat:=98]> (<[126%nat:=97]> (replicate (Z.to_nat INPUT_BUF_SIZE) 0)))
           (2 ^ 32 - 2) (2 ^ 32 - 2) 0 false [] []) (λ _, 0).

Lemma console_refines_witness :
  ∃ t', consoleintr 13 (mkctx [] [] 1) demo_tty = Ret tt (mkctx [] [CH_cons] 1) t' ∧
    con_abs (t_con t') (mkline [97; 98; 10] []).
Proof.
  destruct (console_refines 13 [] [] 1 demo_tty (mkline [] [97; 98])) as (t' & E & Ha).
  - split; try done; vm_compute; congruence.
  - done.
  - apply not_elem_of_nil.
  - done.
  - done.
  - done.
  - exists t'. split; [exact E|exact Ha].
Defined.

Lemma printint_fits_witness : (length (printint_buf (-2 ^ 63) 10 true) ≤ 20)%nat ∧ value_of 10 (printint (-2 ^ 63) 10 true) = -2 ^ 63.
Proof. destruct (printint_fits (-2 ^ 63)) as (H1 & H2 & _); [lia|]. by split. Defined.
