(* ===== verification/Kernel.v ===== *)
(** * The whole kernel state (kernel/proc.c, kernel/syscall.c, kernel/sysproc.c)

    The file system, open files, pipes, console and process table joined in one state, with the
    functions of proc.c that use files, the fetching of system call arguments, and the system calls of
    sysproc.c.  File Sysfile has the system calls of sysfile.c, file Exec the program loader and file
    Trap the dispatch of system calls and traps. *)

From stdpp Require Import base list functions sets numbers strings.
From Stdlib Require Import ZArith Lia.
From S2P Require Import Prelude Machine Kstring Kalloc Vm Proc Sleeplock Bio Log TxStore Fs File Console.

(** ** The process as the other components see it *)

Section instances.
Context (kend : Z).

Definition my_pgtbl : M pstate Z := do i <- myproc; do p <- getp i; kret (p_pgtbl p).

(** [either_copyout(1, ...)] and [either_copyin(..., 1, ...)] copy through the page table of the
    running process. *)
#[local] Instance proc_user : UserOps pstate := {
  u_copyout va bs := do pt <- my_pgtbl; copyout_bytes kend pt va bs;
  u_copyin va n := do pt <- my_pgtbl; copyin_bytes kend pt va n
}.
#[local] Instance proc_proc : ProcOps pstate := {
  u_kalloc := zoom mem_lens kalloc;
  u_kfree pa := zoom mem_lens (kfree kend pa);
  u_killed := do i <- myproc; killed i
}.

(** The name of a state in [procdump]. *)
Definition state_name (x : procstate) : list Z :=
  match x with
  | UNUSED => [117; 110; 117; 115; 101; 100]
  | USED => [117; 115; 101; 100]
  | SLEEPING => [115; 108; 101; 101; 112; 32]
  | RUNNABLE => [114; 117; 110; 98; 108; 101]
  | RUNNING => [114; 117; 110; 32; 32; 32]
  | ZOMBIE => [122; 111; 109; 98; 105; 101]
  end.

(** One line of [procdump]: printf("%d %s %s", ...) and a newline. *)
Definition procdump_line (p : proc) : list Z :=
  if decide (p_state p = UNUSED) then []
  else default [] (vprintf [37; 100; 32; 37; 115; 32; 37; 115]
                     [ANum (p_pid p); AStr (Some (state_name (p_state p))); AStr (Some (cstr (p_name p)))]) ++ [NL].
Definition procdump (s : pstate) : list Z := NL :: concat (procdump_line <$> ps_proc s).

#[local] Instance proc_tty : TtyOps pstate := {
  v_pid s := i ← ps_cur s; p_pid <$> ps_proc s !! i;
  v_setkilled := do i <- myproc; setkilled i;
  v_procdump := procdump
}.

(** The same operations when the console is part of the state. *)
#[local] Instance kernel_user : UserOps (tty pstate) := {
  u_copyout va bs := zoom tusr_lens (u_copyout va bs);
  u_copyin va n := zoom tusr_lens (u_copyin va n)
}.
#[local] Instance kernel_proc : ProcOps (tty pstate) := {
  u_kalloc := zoom tusr_lens u_kalloc;
  u_kfree pa := zoom tusr_lens (u_kfree pa);
  u_killed := zoom tusr_lens u_killed
}.
End instances.

Section kernel.
Context {L : Type} `{TxOps L} (kend trampoline forkret_addr : Z) (stat_pad : list Z).
#[local] Instance at_user : UserOps (tty pstate) := kernel_user kend.
#[local] Instance at_proc : ProcOps (tty pstate) := kernel_proc kend.
#[local] Instance at_puser : UserOps pstate := proc_user kend.
#[local] Instance at_pproc : ProcOps pstate := proc_proc kend.
#[local] Existing Instance proc_tty.
Abbreviation ST := (fstate L (tty pstate)).
Abbreviation KM := (M ST).

Definition inproc {A} (m : M pstate A) : KM A := inusr (zoom tusr_lens m).
Definition inmem {A} (m : M kmem A) : KM A := inproc (zoom mem_lens m).

(** devsw: only CONSOLE is registered ([consoleinit]). *)
Definition CONSOLE : Z := 1.
Definition devsw_read (major : Z) : option (Z → Z → KM Z) :=
  if major =? CONSOLE then Some (λ addr n, inusr (consoleread addr n)) else None.
Definition devsw_write (major : Z) : option (Z → Z → KM Z) :=
  if major =? CONSOLE then Some (λ addr n, inusr (consolewrite addr n)) else None.

Definition kfileread := fileread devsw_read.
Definition kfilewrite := filewrite devsw_write.

(** p->cwd, where it is used as a directory. *)
Definition my_cwd : KM (option nat) :=
  inproc (do i <- myproc; do p <- getp i; kret (p_cwd p)).
Definition iput_opt (ip : option nat) : KM unit :=
  match ip with Some i => infs (iput i) | None => undefined "iput(0)" end.

(** ** System call arguments (syscall.c) *)

Definition fetchaddr (addr : Z) : KM (option Z) :=
  inproc (
    do i <- myproc;
    do p <- getp i;
    if (p_size p <=? addr) || (p_size p <? u64 (addr + 8)) then kret None
    else
      do r <- copyin_bytes kend (p_pgtbl p) addr 8;
      kret (if r.1 =? 0 then Some (le_combine r.2) else None)).

(** [fetchstr(addr, buf, max)]: the string in buf. *)
Definition fetchstr (addr max : Z) : KM (option (list Z)) :=
  inproc (
    do pt <- my_pgtbl;
    do r <- copyinstr_str pt addr max;
    kret (if r.1 <? 0 then None else Some r.2)).

Definition argraw (n : Z) : KM Z :=
  if (0 <=? n) && (n <=? 5) then inproc (tf_get (TF_a n)) else panic "argraw".
Definition argint (n : Z) : KM Z := do x <- argraw n; kret (s32 x).
Definition argaddr (n : Z) : KM Z := argraw n.
Definition argstr (n max : Z) : KM (option (list Z)) := do a <- argaddr n; fetchstr a max.

(** ** Fork, exit and the first process (proc.c) *)

(** *(np->trapframe) = *(p->trapframe) *)
Definition copy_trapframe (from to : Z) : M pstate unit :=
  zoom mem_lens (kmod (λ k, set_mem (mwrite (kmem_mem k) to (mread (kmem_mem k) from (Z.to_nat sizeof_trapframe))) k)).

(** [safestrcpy(dst, src, 16)] on the bytes of a name. *)
Definition copy_name (src dst : list Z) : list Z := splice dst 0 (take 15 (cstr src) ++ [0]).

(** Step 5 of [kfork] for descriptor [fd]. *)
Definition fork_fd (p np : nat) (fd : Z) : KM unit :=
  do q <- inproc (getp p);
  match nth (Z.to_nat fd) (p_ofile q) None with
  | Some f =>
      do f' <- filedup f;
      inproc (modp np (λ q, set_ofile (<[Z.to_nat fd:=Some f']> (p_ofile q)) q))
  | None => kret tt
  end.

Definition kfork : KM Z :=
  do p <- inproc myproc;
  do r <- inproc (allocproc kend trampoline forkret_addr);
  match r with
  | None => kret (-1)
  | Some np =>
      do pp <- inproc (getp p);
      do q <- inproc (getp np);
      do e <- inmem (uvmcopy kend (p_pgtbl pp) (p_pgtbl q) (p_size pp));
      if e <? 0 then
        inproc (freeproc kend np) ;;; release (LK_proc np) ;;; kret (-1)
      else
        inproc (modp np (set_size (p_size pp))) ;;;
        inproc (copy_trapframe (p_trapframe pp) (p_trapframe q)) ;;;
        inmem (wr (p_trapframe q + TF_a 0) 0) ;;;
        kfor NOFILE 0 (fork_fd p np) ;;;
        do pp <- inproc (getp p);
        do d <- match p_cwd pp with Some w => infs (idup w) | None => undefined "idup(0)" end;
        inproc (modp np (set_cwd (Some d))) ;;;
        inproc (modp np (λ q, set_name (copy_name (p_name pp) (p_name q)) q)) ;;;
        do q <- inproc (getp np);
        let pid := p_pid q in
        release (LK_proc np) ;;;
        acquire LK_wait ;;;
        inproc (modp np (set_parent (Some p))) ;;;
        release LK_wait ;;;
        inproc (publish np) ;;;
        kret pid
  end.

(** The loop of [kexit] over descriptor [fd]. *)
Definition exit_fd (p : nat) (fd : Z) : KM unit :=
  do q <- inproc (getp p);
  match nth (Z.to_nat fd) (p_ofile q) None with
  | Some f =>
      fileclose f ;;;
      inproc (modp p (λ q, set_ofile (<[Z.to_nat fd:=None]> (p_ofile q)) q))
  | None => kret tt
  end.

(** [kexit] up to the switch to the scheduler, from which it never comes back. *)
Definition kexit (status : Z) : KM unit :=
  do p <- inproc myproc;
  do ini <- inproc (kgets ps_initproc);
  if decide (ini = Some p) then panic "init exiting"
  else
    kfor NOFILE 0 (exit_fd p) ;;;
    infs fbegin_op ;;;
    do cwd <- my_cwd;
    iput_opt cwd ;;;
    infs fend_op ;;;
    inproc (modp p (set_cwd None)) ;;;
    inproc (exit_tail status).

(** "/" and "init" *)
Definition ROOT_PATH : list Z := [SLASH].
Definition INIT_NAME : list Z := [105; 110; 105; 116].

Definition userinit : KM unit :=
  do r <- inproc (allocproc kend trampoline forkret_addr);
  match r with
  | None => undefined "initproc == 0"
  | Some p =>
      inproc (kmod (set_initproc (Some p))) ;;;
      inproc (modp p (λ q, set_name (copy_name INIT_NAME (p_name q)) q)) ;;;
      do cwd <- infs (namei None ROOT_PATH);
      inproc (modp p (set_cwd cwd)) ;;;
      inproc (modp p (set_size 0)) ;;;
      inproc (modp p (set_state RUNNABLE)) ;;;
      release (LK_proc p)
  end.

(** ** System calls of sysproc.c *)

Definition SBRK_EAGER : Z := 1.

Definition sys_fork : KM Z := kfork.
(** [kexit] does not come back, so [sys_exit] has no value. *)
Definition sys_exit : KM unit := do n <- argint 0; kexit n.
Definition sys_getpid : KM Z := inproc (do i <- myproc; do p <- getp i; kret (p_pid p)).
Definition sys_wait : KM Z := do p <- argaddr 0; inproc (kwait kend p).

Definition sys_sbrk : KM Z :=
  do n <- argint 0;
  do t <- argint 1;
  do addr <- inproc (do i <- myproc; do p <- getp i; kret (p_size p));
  if (t =? SBRK_EAGER) || (n <? 0) then
    do r <- inproc (growproc kend n);
    kret (if r <? 0 then -1 else addr)
  else if u64 (addr + n) <? addr then kret (-1)
  else if TRAPFRAME <? u64 (addr + n) then kret (-1)
  else
    inproc (do i <- myproc; modp i (λ p, set_size (u64 (p_size p + n)) p)) ;;;
    kret addr.

(** The loop of [sys_pause], which started at tick [ticks0]. *)
Definition pause_from (ticks0 n : Z) : KM Z :=
  do ticks <- inproc (kgets ps_ticks);
  if u32 (ticks - ticks0) <? n then
    do k <- inusr u_killed;
    if negb (k =? 0) then release LK_ticks ;;; kret (-1)
    else sleep CH_ticks LK_ticks
  else release LK_ticks ;;; kret 0.

Definition sys_pause : KM Z :=
  do n <- argint 0;
  let n := if n <? 0 then 0 else n in
  acquire LK_ticks ;;;
  do ticks0 <- inproc (kgets ps_ticks);
  pause_from ticks0 n.

Definition sys_kill : KM Z := do pid <- argint 0; inproc (kkill pid).

Definition sys_uptime : KM Z :=
  acquire LK_ticks ;;;
  do x <- inproc (kgets ps_ticks);
  release LK_ticks ;;;
  kret x.
End kernel.

(** ** Lemmas: running a function of the process table *)

Section runs.
Context {L : Type} `{TxOps L}.
Abbreviation ST := (fstate L (tty pstate)).
Implicit Types (s : ST) (c : kctx) (p : proc) (i : nat).

Definition ps_of s : pstate := t_usr (fs_user (fi_fs s)).
Definition set_ps (x : pstate) s : ST :=
  let t := fs_user (fi_fs s) in
  mkfst (mkfs (fs_log (fi_fs s)) (fs_sb (fi_fs s)) (fs_inode (fi_fs s)) (mktty (t_con t) x)) (fi_file s) (fi_pipe s).

Lemma set_ps_id s : set_ps (ps_of s) s = s.
Proof. by destruct s as [[l sb ino []] fl pf]. Qed.

Lemma inproc_ret {A} (m : M pstate A) c s a c' x :
  m c (ps_of s) = Ret a c' x → inproc m c s = Ret a c' (set_ps x s).
Proof. intros E. unfold inproc, inusr. apply (zoom_ret usr_lens), (zoom_ret tusr_lens), E. Qed.

Lemma inproc_pure {A} (m : M pstate A) c s a :
  m c (ps_of s) = Ret a c (ps_of s) → inproc m c s = Ret a c s.
Proof. intros E. rewrite (inproc_ret m c s a c (ps_of s) E). by rewrite set_ps_id. Qed.

(** Process [i], in the state [p], is running. *)
Definition running s i p : Prop := ps_cur (ps_of s) = Some i ∧ ps_proc (ps_of s) !! i = Some p.

(** A word of the trapframe of the running process. *)
Definition tf_word s p (off : Z) : Z := load64 (kmem_mem (ps_mem (ps_of s))) (p_trapframe p + off).

Lemma tf_get_ok c s i p off : running s i p → inproc (tf_get off) c s = Ret (tf_word s p off) c s.
Proof.
  intros [Hc Hp]. apply inproc_pure. unfold tf_get. kstep (myproc_run i c _ Hc). kstep (getp_run i c _ p Hp). done.
Qed.

Lemma argint_ok c s i p (n : Z) : running s i p → 0 <= n <= 5 → argint n c s = Ret (s32 (tf_word s p (TF_a n))) c s.
Proof.
  intros Hr Hn. unfold argint, argraw. rewrite (proj2 (Z.leb_le 0 n)), (proj2 (Z.leb_le n 5)) by lia. cbn [andb].
  kstep (tf_get_ok c s i p (TF_a n) Hr). done.
Qed.

Lemma modp_ok c s i p g : running s i p →
  inproc (do i <- myproc; modp i g) c s = Ret tt c (set_ps (set_procs (alter g i (ps_proc (ps_of s))) (ps_of s)) s).
Proof. intros [Hc Hp]. apply inproc_ret. kstep (myproc_run i c _ Hc). done. Qed.
End runs.

(** ** Witnesses: a kernel with process table [ps], over the file system of the earlier files *)
Definition demo_kernel (ps : pstate) : fstate (lsys bdev) (tty pstate) :=
  mkfst (mkfs (mkls (boot_dev (λ _, 0) 80) log0) demo_sb demo_inodes
           (mktty (mkcons (replicate (Z.to_nat INPUT_BUF_SIZE) 0) 0 0 0 false [] []) ps)) [] (λ _, demo_pipe).
