(* ===== verification/Sysfile.v ===== *)
(** * File system calls (kernel/sysfile.c)

    One definition per system call, with the error paths in the order of the code.  [goto bad] is a
    definition for the code at the label.  A result of [None] for [create] is a null pointer. *)

From stdpp Require Import base list functions sets numbers strings.
From Stdlib Require Import ZArith Lia.
From S2P Require Import Prelude Machine Kstring Kalloc Vm Proc Sleeplock Bio Log TxStore Fs File Console Kernel.

Definition O_RDONLY : Z := 0x000.
Definition O_WRONLY : Z := 0x001.
Definition O_RDWR : Z := 0x002.
Definition O_CREATE : Z := 0x200.
Definition O_TRUNC : Z := 0x400.

Section sysfile.
Context {L : Type} `{TxOps L} (kend trampoline forkret_addr : Z) (stat_pad : list Z).
#[local] Instance sf_user : UserOps (tty pstate) := kernel_user kend.
#[local] Instance sf_proc : ProcOps (tty pstate) := kernel_proc kend.
Abbreviation ST := (fstate L (tty pstate)).
Abbreviation KM := (M ST).

(** ** File descriptors *)

Definition my_ofile : KM (list (option nat)) :=
  inproc (do i <- myproc; do p <- getp i; kret (p_ofile p)).
(** myproc()->ofile[fd] = f *)
Definition set_fd (fd : Z) (f : option nat) : KM unit :=
  inproc (do i <- myproc; modp i (λ p, set_ofile (<[Z.to_nat fd:=f]> (p_ofile p)) p)).

(** [argfd]: the descriptor and the file. *)
Definition argfd (n : Z) : KM (option (Z * nat)) :=
  do fd <- argint n;
  if (fd <? 0) || (Z.of_nat NOFILE <=? fd) then kret None
  else
    do o <- my_ofile;
    kret ((λ f, (fd, f)) <$> nth (Z.to_nat fd) o None).

Fixpoint fdalloc_loop (n : nat) (fd : Z) (f : nat) : KM Z :=
  match n with
  | O => kret (-1)
  | S n' =>
      do o <- my_ofile;
      match nth (Z.to_nat fd) o None with
      | None => set_fd fd (Some f) ;;; kret fd
      | Some _ => fdalloc_loop n' (fd + 1) f
      end
  end.
Definition fdalloc (f : nat) : KM Z := fdalloc_loop NOFILE 0 f.

Definition sys_dup : KM Z :=
  do r <- argfd 0;
  match r with
  | None => kret (-1)
  | Some (_, f) =>
      do fd <- fdalloc f;
      if fd <? 0 then kret (-1)
      else filedup f ;;; kret fd
  end.

Definition sys_read : KM Z :=
  do p <- argaddr 1;
  do n <- argint 2;
  do r <- argfd 0;
  match r with
  | None => kret (-1)
  | Some (_, f) => kfileread kend f p n
  end.

Definition sys_write : KM Z :=
  do p <- argaddr 1;
  do n <- argint 2;
  do r <- argfd 0;
  match r with
  | None => kret (-1)
  | Some (_, f) => kfilewrite kend f p n
  end.

Definition sys_close : KM Z :=
  do r <- argfd 0;
  match r with
  | None => kret (-1)
  | Some (fd, f) => set_fd fd None ;;; fileclose f ;;; kret 0
  end.

Definition sys_fstat : KM Z :=
  do st <- argaddr 1;
  do r <- argfd 0;
  match r with
  | None => kret (-1)
  | Some (_, f) => filestat stat_pad f st
  end.

(** ** Links *)

(** A path argument. *)
Definition argpath (n : Z) : KM (option (list Z)) := argstr n MAXPATH.
Definition knamei (path : list Z) : KM (option nat) := do w <- my_cwd; infs (namei w path).
Definition knameiparent (path : list Z) : KM (option (nat * list Z)) :=
  do w <- my_cwd; infs (nameiparent w path).
(** end_op(); return r *)
Definition finish {A} (r : A) : KM A := infs fend_op ;;; kret r.

Definition link_bad (ip : nat) : KM Z :=
  infs (ilock ip) ;;;
  infs (modi ip (λ i, set_inlink (s16 (i_nlink i - 1)) i)) ;;;
  infs (iupdate ip) ;;;
  infs (iunlockput ip) ;;;
  finish (-1).

Definition sys_link : KM Z :=
  do old <- argpath 0;
  match old with
  | None => kret (-1)
  | Some old =>
      do new <- argpath 1;
      match new with
      | None => kret (-1)
      | Some new =>
          infs fbegin_op ;;;
          do r <- knamei old;
          match r with
          | None => finish (-1)
          | Some ip =>
              infs (ilock ip) ;;;
              do i <- infs (geti ip);
              if i_type i =? T_DIR then infs (iunlockput ip) ;;; finish (-1)
              else
                infs (modi ip (λ i, set_inlink (s16 (i_nlink i + 1)) i)) ;;;
                infs (iupdate ip) ;;;
                infs (iunlock ip) ;;;
                do r <- knameiparent new;
                match r with
                | None => link_bad ip
                | Some (dp, name) =>
                    infs (ilock dp) ;;;
                    do d <- infs (geti dp);
                    do i <- infs (geti ip);
                    do bad <- (if negb (i_dev d =? i_dev i) then kret true
                               else do e <- infs (dirlink dp name (i_inum i)); kret (e <? 0));
                    if (bad : bool) then infs (iunlockput dp) ;;; link_bad ip
                    else
                      infs (iunlockput dp) ;;;
                      infs (iput ip) ;;;
                      finish 0
                end
          end
      end
  end.

(** The loop of [isdirempty]. *)
Fixpoint isdirempty_loop (fuel : nat) (dp : nat) (off : Z) : M (fsys L (tty pstate)) bool :=
  do d <- geti dp;
  if off <? i_size d then
    match fuel with
    | O => nofuel
    | S fuel' =>
        do de <- read_dirent dp off "isdirempty: readi";
        if negb (dirent_inum de =? 0) then kret false
        else isdirempty_loop fuel' dp (off + sizeof_dirent)
    end
  else kret true.
Definition isdirempty (dp : nat) : M (fsys L (tty pstate)) bool :=
  do d <- geti dp;
  isdirempty_loop (dir_fuel (i_size d)) dp (2 * sizeof_dirent).

Definition DOT : list Z := [46].
Definition DOTDOT : list Z := [46; 46].

Definition unlink_bad (dp : nat) : KM Z := infs (iunlockput dp) ;;; finish (-1).

Definition sys_unlink : KM Z :=
  do path <- argpath 0;
  match path with
  | None => kret (-1)
  | Some path =>
      infs fbegin_op ;;;
      do r <- knameiparent path;
      match r with
      | None => finish (-1)
      | Some (dp, name) =>
          infs (ilock dp) ;;;
          if (namecmp name DOT =? 0) || (namecmp name DOTDOT =? 0) then unlink_bad dp
          else
            do r <- infs (dirlookup dp name);
            match r with
            | None => unlink_bad dp
            | Some (ip, off) =>
                infs (ilock ip) ;;;
                do i <- infs (geti ip);
                if i_nlink i <? 1 then panic "unlink: nlink < 1"
                else
                  do empty <- (if i_type i =? T_DIR then infs (isdirempty ip) else kret true);
                  if negb empty then infs (iunlockput ip) ;;; unlink_bad dp
                  else
                    do w <- infs (writei dp KernelVar (replicate (Z.to_nat sizeof_dirent) 0) off sizeof_dirent);
                    if negb (w =? sizeof_dirent) then panic "unlink: writei"
                    else
                      do i <- infs (geti ip);
                      (if i_type i =? T_DIR then
                         infs (modi dp (λ d, set_inlink (s16 (i_nlink d - 1)) d)) ;;; infs (iupdate dp)
                       else kret tt) ;;;
                      infs (iunlockput dp) ;;;
                      infs (modi ip (λ i, set_inlink (s16 (i_nlink i - 1)) i)) ;;;
                      infs (iupdate ip) ;;;
                      infs (iunlockput ip) ;;;
                      finish 0
            end
      end
  end.

(** ** Creating and opening *)

Definition create_fail (ip dp : nat) : M (fsys L (tty pstate)) (option nat) :=
  modi ip (set_inlink 0) ;;;
  iupdate ip ;;;
  iunlockput ip ;;;
  iunlockput dp ;;;
  kret None.

(** The entries of a new directory, then the entry in its parent: true when one of them failed. *)
Definition create_links (ip dp : nat) (type : Z) (name : list Z) : M (fsys L (tty pstate)) bool :=
  do i <- geti ip;
  do d <- geti dp;
  do bad <-
    (if type =? T_DIR then
       do e1 <- dirlink ip DOT (i_inum i);
       if e1 <? 0 then kret true
       else do e2 <- dirlink ip DOTDOT (i_inum d); kret (e2 <? 0)
     else kret false);
  if (bad : bool) then kret true
  else do e <- dirlink dp name (i_inum i); kret (e <? 0).

Definition create_in (dp : nat) (name : list Z) (type major minor : Z) : M (fsys L (tty pstate)) (option nat) :=
  ilock dp ;;;
  do r <- dirlookup dp name;
  match r with
  | Some (ip, _) =>
      iunlockput dp ;;;
      ilock ip ;;;
      do i <- geti ip;
      if (type =? T_FILE) && ((i_type i =? T_FILE) || (i_type i =? T_DEVICE)) then kret (Some ip)
      else iunlockput ip ;;; kret None
  | None =>
      do d <- geti dp;
      do r <- ialloc (i_dev d) type;
      match r with
      | None => iunlockput dp ;;; kret None
      | Some ip =>
          ilock ip ;;;
          modi ip (λ i, set_inlink 1 (set_imm major minor i)) ;;;
          iupdate ip ;;;
          do bad <- create_links ip dp type name;
          if (bad : bool) then create_fail ip dp
          else
            (if type =? T_DIR then
               modi dp (λ d, set_inlink (s16 (i_nlink d + 1)) d) ;;; iupdate dp
             else kret tt) ;;;
            iunlockput dp ;;;
            kret (Some ip)
      end
  end.

Definition create (path : list Z) (type major minor : Z) : KM (option nat) :=
  do r <- knameiparent path;
  match r with
  | None => kret None
  | Some (dp, name) => infs (create_in dp name type major minor)
  end.

(** The first half of [sys_open]: the inode, locked, or [None] after [end_op]. *)
Definition open_inode (path : list Z) (omode : Z) : KM (option nat) :=
  if negb (Z.land omode O_CREATE =? 0) then
    do r <- create path T_FILE 0 0;
    match r with
    | None => finish None
    | Some ip => kret (Some ip)
    end
  else
    do r <- knamei path;
    match r with
    | None => finish None
    | Some ip =>
        infs (ilock ip) ;;;
        do i <- infs (geti ip);
        if (i_type i =? T_DIR) && negb (omode =? O_RDONLY) then infs (iunlockput ip) ;;; finish None
        else kret (Some ip)
    end.

(** The fields of the new [struct file]. *)
Definition open_file (ip : nat) (i : inode) (omode : Z) (f : file) : file :=
  let f := if i_type i =? T_DEVICE then set_fmajor (i_major i) (set_ftype FD_DEVICE f)
           else set_foff 0 (set_ftype FD_INODE f) in
  let wr := negb (Z.land omode O_WRONLY =? 0) in
  set_fmode (negb wr) (wr || negb (Z.land omode O_RDWR =? 0)) (Some ip) f.

Definition sys_open : KM Z :=
  do omode <- argint 1;
  do path <- argpath 0;
  match path with
  | None => kret (-1)
  | Some path =>
      infs fbegin_op ;;;
      do r <- open_inode path omode;
      match r with
      | None => kret (-1)
      | Some ip =>
          do i <- infs (geti ip);
          if (i_type i =? T_DEVICE) && ((i_major i <? 0) || (NDEV <=? i_major i)) then
            infs (iunlockput ip) ;;; finish (-1)
          else
            do f <- filealloc;
            do fd <- match f with Some f => fdalloc f | None => kret (-1) end;
            match f with
            | None => infs (iunlockput ip) ;;; finish (-1)
            | Some f =>
                if fd <? 0 then
                  fileclose f ;;; infs (iunlockput ip) ;;; finish (-1)
                else
                  modf f (open_file ip i omode) ;;;
                  (if negb (Z.land omode O_TRUNC =? 0) && (i_type i =? T_FILE) then infs (itrunc ip) else kret tt) ;;;
                  infs (iunlock ip) ;;;
                  finish fd
            end
      end
  end.

(** [sys_mkdir] and [sys_mknod] after the arguments. *)
Definition make_node (path : option (list Z)) (type major minor : Z) : KM Z :=
  match path with
  | None => finish (-1)
  | Some path =>
      do r <- create path type major minor;
      match r with
      | None => finish (-1)
      | Some ip => infs (iunlockput ip) ;;; finish 0
      end
  end.

Definition sys_mkdir : KM Z :=
  infs fbegin_op ;;;
  do path <- argpath 0;
  make_node path T_DIR 0 0.

Definition sys_mknod : KM Z :=
  infs fbegin_op ;;;
  do major <- argint 1;
  do minor <- argint 2;
  do path <- argpath 0;
  make_node path T_DEVICE (s16 major) (s16 minor).

Definition sys_chdir : KM Z :=
  infs fbegin_op ;;;
  do path <- argpath 0;
  match path with
  | None => finish (-1)
  | Some path =>
      do r <- knamei path;
      match r with
      | None => finish (-1)
      | Some ip =>
          infs (ilock ip) ;;;
          do i <- infs (geti ip);
          if negb (i_type i =? T_DIR) then infs (iunlockput ip) ;;; finish (-1)
          else
            infs (iunlock ip) ;;;
            do w <- my_cwd;
            iput_opt w ;;;
            infs fend_op ;;;
            inproc (do p <- myproc; modp p (set_cwd (Some ip))) ;;;
            kret 0
      end
  end.

(** ** Pipes *)

(** copyout(p->pagetable, va, &fd, sizeof(fd)) < 0 *)
Definition put_fd (va fd : Z) : KM bool :=
  do e <- inusr (u_copyout va (le_split 4 (u32 fd)));
  kret (e <? 0).

Definition sys_pipe : KM Z :=
  do fdarray <- argaddr 0;
  do r <- pipealloc;
  match r with
  | None => kret (-1)
  | Some (rf, wf) =>
      do fd0 <- fdalloc rf;
      do fd1 <- (if fd0 <? 0 then kret (-1) else fdalloc wf);
      if (fd0 <? 0) || (fd1 <? 0) then
        (if 0 <=? fd0 then set_fd fd0 None else kret tt) ;;;
        fileclose rf ;;;
        fileclose wf ;;;
        kret (-1)
      else
        do e0 <- put_fd fdarray fd0;
        do e1 <- (if (e0 : bool) then kret true else put_fd (u64 (fdarray + 4)) fd1);
        if (e1 : bool) then
          set_fd fd0 None ;;;
          set_fd fd1 None ;;;
          fileclose rf ;;;
          fileclose wf ;;;
          kret (-1)
        else kret 0
  end.
End sysfile.

(** ** Descriptors *)

Section descriptors.
Context {L : Type} `{TxOps L}.
Abbreviation ST := (fstate L (tty pstate)).
Implicit Types (s : ST) (c : kctx) (p : proc) (i f : nat) (o : list (option nat)).

(** The lowest descriptor that is not in use. *)
Fixpoint first_free o : option nat :=
  match o with
  | [] => None
  | None :: _ => Some 0%nat
  | Some _ :: o' => S <$> first_free o'
  end.

Lemma first_free_drop o (k : nat) : (∀ j, (j < k)%nat → ∃ f, o !! j = Some (Some f)) →
  first_free o = (λ x, (k + x)%nat) <$> first_free (drop k o).
Proof.
  revert o. induction k as [|k IH]; intros o Ho; [rewrite drop_0; by destruct (first_free o)|].
  destruct o as [|x o]; [by destruct (Ho 0%nat ltac:(lia))|].
  destruct (Ho 0%nat ltac:(lia)) as [f Hf]. injection Hf as ->. cbn [first_free drop]. rewrite (IH o).
  - by destruct (first_free (drop k o)).
  - intros j Hj. apply (Ho (S j)). lia.
Qed.

Lemma first_free_spec o k : first_free o = Some k → o !! k = Some None.
Proof.
  revert k. induction o as [|[f|] o IH]; intros k; cbn [first_free]; [done| |by intros [= <-]].
  destruct (first_free o) as [j|]; [|done]. intros [= <-]. by apply IH.
Qed.

Lemma my_ofile_ok c s i p : running s i p → my_ofile c s = Ret (p_ofile p) c s.
Proof.
  intros [Hc Hp]. apply inproc_pure. kstep (myproc_run i c _ Hc). kstep (getp_run i c _ p Hp). done.
Qed.

(** The state with a descriptor of process [i] changed. *)
Definition with_fd i (fd : nat) (f : option nat) s : ST :=
  set_ps (set_procs (alter (λ p, set_ofile (<[fd:=f]> (p_ofile p)) p) i (ps_proc (ps_of s))) (ps_of s)) s.

Lemma fdalloc_loop_ok n (k : nat) f c s i p :
  running s i p → (k + n)%nat = length (p_ofile p) → (∀ j, (j < k)%nat → ∃ f, p_ofile p !! j = Some (Some f)) →
  fdalloc_loop n (Z.of_nat k) f c s =
    match first_free (p_ofile p) with
    | Some fd => Ret (Z.of_nat fd) c (with_fd i fd (Some f) s)
    | None => Ret (-1) c s
    end.
Proof.
  intros Hr. revert k. induction n as [|n IH]; intros k Hlen Hused; cbn [fdalloc_loop].
  - rewrite (first_free_drop _ k Hused), drop_ge by lia. done.
  - kstep (my_ofile_ok c s i p Hr). rewrite Nat2Z.id, nth_lookup.
    destruct (lookup_lt_is_Some_2 (p_ofile p) k) as [x Hx]; [lia|]. rewrite Hx. cbn [default from_option id].
    destruct x as [g|].
    + replace (Z.of_nat k + 1) with (Z.of_nat (S k)) by lia. apply IH; [lia|]. intros j Hj.
      destruct (decide (j = k)) as [->|]; [by exists g|]. apply Hused. lia.
    + rewrite (first_free_drop _ k Hused), (drop_S _ _ _ Hx). cbn [first_free fmap option_fmap option_map].
      rewrite Nat.add_0_r. unfold set_fd. rewrite Nat2Z.id.
      rewrite (kbind_ret _ _ _ _ tt c (with_fd i k (Some f) s)) by (by apply (modp_ok c s i p)). done.
Qed.

Lemma fdalloc_ok f c s i p : running s i p → length (p_ofile p) = NOFILE →
  fdalloc f c s = match first_free (p_ofile p) with
                  | Some fd => Ret (Z.of_nat fd) c (with_fd i fd (Some f) s)
                  | None => Ret (-1) c s
                  end.
Proof. intros Hr Hl. apply (fdalloc_loop_ok NOFILE 0 f c s i p Hr); [done|intros; lia]. Qed.

(** The open file a descriptor number refers to. *)
Definition fd_lookup p (fd : Z) : option nat :=
  if (fd <? 0) || (Z.of_nat NOFILE <=? fd) then None else nth (Z.to_nat fd) (p_ofile p) None.

Lemma argfd_ok c s i p (n : Z) : running s i p → 0 <= n <= 5 →
  let fd := s32 (tf_word s p (TF_a n)) in
  argfd n c s = Ret ((λ f, (fd, f)) <$> fd_lookup p fd) c s.
Proof.
  intros Hr Hn fd. unfold argfd, fd_lookup. kstep (argint_ok c s i p n Hr Hn). fold fd.
  destruct (_ || _); [done|]. by kstep (my_ofile_ok c s i p Hr).
Qed.

Lemma filedup_ok f x h w me s : fi_file s !! f = Some x → 1 <= f_ref x < 2 ^ 31 - 1 → LK_ftable ∉ h →
  filedup f (mkctx h w me) s =
    Ret f (mkctx h w me) (mkfst (fi_fs s) (alter (set_fref (f_ref x + 1)) f (fi_file s)) (fi_pipe s)).
Proof.
  intros Hf Hr Hh. unfold filedup, getf, modf. kexec. rewrite Hf. kexec.
  rewrite (proj2 (Z.ltb_ge _ _)) by lia. kexec. by rewrite s32_small by lia.
Qed.

(** [dup] returns the lowest free descriptor, which from then on refers to the same open file
    (one more reference, the offset stays shared); nothing else changes.  With a bad descriptor, or
    none free, it returns -1 and changes nothing. *)
Theorem sys_dup_shares h w me s i p :
  running s i p → length (p_ofile p) = NOFILE → LK_ftable ∉ h →
  (∀ f x, fi_file s !! f = Some x → f_ref x < 2 ^ 31 - 1) →
  (∀ fd f, p_ofile p !! fd = Some (Some f) → ∃ x, fi_file s !! f = Some x ∧ 1 <= f_ref x) →
  let c := mkctx h w me in
  match fd_lookup p (s32 (tf_word s p (TF_a 0))), first_free (p_ofile p) with
  | Some f, Some fd =>
      ∃ s', sys_dup c s = Ret (Z.of_nat fd) c s' ∧
        (∀ x, fi_file s !! f = Some x → fi_file s' = <[f:=set_fref (f_ref x + 1) x]> (fi_file s)) ∧
        running s' i (set_ofile (<[fd:=Some f]> (p_ofile p)) p) ∧ p_ofile p !! fd = Some None ∧
        (∀ j, j ≠ i → ps_proc (ps_of s') !! j = ps_proc (ps_of s) !! j) ∧
        ps_mem (ps_of s') = ps_mem (ps_of s) ∧ fi_pipe s' = fi_pipe s ∧ fs_log (fi_fs s') = fs_log (fi_fs s) ∧
        fs_inode (fi_fs s') = fs_inode (fi_fs s)
  | _, _ => sys_dup c s = Ret (-1) c s
  end.
Proof.
  intros Hr Hl Hh Hmax Hval c. unfold sys_dup. rewrite (kbind_ret _ _ _ _ _ _ _ (argfd_ok c s i p 0 Hr ltac:(lia))). cbn beta.
  set (fd := s32 _). destruct (fd_lookup p fd) as [f|] eqn:Ef; cbn [fmap option_fmap option_map]; [|done].
  rewrite (kbind_run _ _ _ _ _ (fdalloc_ok f c s i p Hr Hl)). destruct (first_free (p_ofile p)) as [k|] eqn:Ek; [|done].
  rewrite (proj2 (Z.ltb_ge _ _)) by lia.
  assert (Hf : p_ofile p !! Z.to_nat fd = Some (Some f)).
  { unfold fd_lookup in Ef. destruct (_ || _) eqn:Eb; [done|]. rewrite nth_lookup in Ef.
    apply orb_false_iff in Eb as [_ Eb%Z.leb_gt]. destruct (p_ofile p !! Z.to_nat fd); [by f_equal|done]. }
  destruct (Hval _ _ Hf) as (x & Hx & Hx1). pose proof (Hmax f x Hx) as Hx2.
  eexists. split; [rewrite (kbind_ret _ _ _ _ _ _ _ (filedup_ok f x h w me (with_fd i k (Some f) s) Hx ltac:(lia) Hh)); reflexivity|].
  destruct Hr as [Hc Hp]. cbn [fi_file fi_pipe fi_fs with_fd set_ps]. split_and!; try done.
  - intros y Hy. rewrite Hx in Hy. injection Hy as <-. apply list_eq. intros j. destruct (decide (f = j)) as [<-|].
    + by rewrite list_lookup_alter_eq, Hx, list_lookup_insert_eq by (by eapply lookup_lt_Some).
    + by rewrite list_lookup_alter_ne, list_lookup_insert_ne.
  - split; [done|]. cbn [ps_of fi_fs fs_user t_usr set_procs ps_proc]. by rewrite list_lookup_alter_eq, Hp.
  - by apply first_free_spec.
  - intros j Hj. cbn [ps_of fi_fs fs_user t_usr set_procs ps_proc]. by rewrite list_lookup_alter_ne.
Qed.
End descriptors.

(** ** Witness *)

(** Descriptor 0 is in use and refers to file 0; dup(0) gives descriptor 1. *)
Definition demo_open : pstate :=
  mkps (mkkmem (λ _, 0) 0 (λ _, 0))
    [set_ofile (Some 0%nat :: replicate 15 None) (set_trapframe (vm_page 1) (set_state RUNNING demo_proc))] 2
    (Some 0%nat) (Some 0%nat) 0 false.
Definition demo_file : file := mkfile FD_INODE 1 true true 0 (Some 0%nat) 0 0.

Lemma sys_dup_shares_witness :
  let s := demo_kernel demo_open in
  ∃ s', sys_dup (mkctx [] [] 1) (mkfst (fi_fs s) [demo_file] (fi_pipe s)) = Ret 1 (mkctx [] [] 1) s' ∧
    fi_file s' = [set_fref 2 demo_file].
Proof.
  intros s. pose proof (sys_dup_shares [] [] 1 (mkfst (fi_fs s) [demo_file] (fi_pipe s)) 0
    (set_ofile (Some 0%nat :: replicate 15 None) (set_trapframe (vm_page 1) (set_state RUNNING demo_proc)))) as Hd.
  destruct Hd as (s' & E & Hf & _).
  - by split.
  - reflexivity.
  - apply not_elem_of_nil.
  - intros [|f] x Hx; [injection Hx as <-; done|done].
  - intros [|fd] f Hf; [injection Hf as <-; by exists demo_file|]. by apply lookup_replicate in Hf as [? _].
  - exists s'. split; [exact E|]. by rewrite (Hf demo_file eq_refl).
Defined.
