(* ===== verification/Exec.v ===== *)
(** * The program loader (kernel/exec.c, elf.h)

    [kexec] in the stages of the code: open and check the ELF file, load the segments, build the
    stack with the arguments, commit.  [exec_bad] is the code at the label [bad]. *)

From stdpp Require Import base list functions sets numbers strings.
From Stdlib Require Import ZArith Lia.
From S2P Require Import Prelude Machine Kstring Kalloc Vm Proc Sleeplock Bio Log TxStore Fs File Console Kernel Sysfile.

(** ** ELF (elf.h) *)

Definition ELF_MAGIC : Z := 0x464C457F.
Definition ELF_PROG_LOAD : Z := 1.
Definition sizeof_elfhdr : Z := 64.
Definition sizeof_proghdr : Z := 56.

Definition ld64 (d : list Z) (off : nat) : Z := le_combine (slice d off 8).

Definition elf_magic (d : list Z) : Z := ld32 d 0.
Definition elf_entry (d : list Z) : Z := ld64 d 24.
Definition elf_phoff (d : list Z) : Z := ld64 d 32.
Definition elf_phnum (d : list Z) : Z := ld16 d 56.

Definition ph_type (d : list Z) : Z := ld32 d 0.
Definition ph_flags (d : list Z) : Z := ld32 d 4.
Definition ph_off (d : list Z) : Z := ld64 d 8.
Definition ph_vaddr (d : list Z) : Z := ld64 d 16.
Definition ph_filesz (d : list Z) : Z := ld64 d 32.
Definition ph_memsz (d : list Z) : Z := ld64 d 40.

Definition flags2perm (fl : Z) : Z :=
  let perm := if negb (Z.land fl 1 =? 0) then PTE_X else 0 in
  if negb (Z.land fl 2 =? 0) then Z.lor perm PTE_W else perm.

(** What the loop of [kexec] does with a segment of the program. *)
Definition segment_ok (ph : list Z) : bool :=
  (ph_filesz ph <=? ph_memsz ph) && (ph_vaddr ph <=? u64 (ph_vaddr ph + ph_memsz ph)).

Section exec.
Context {L : Type} `{TxOps L} (kend trampoline : Z).
#[local] Instance ex_user : UserOps (tty pstate) := kernel_user kend.
#[local] Instance ex_proc : ProcOps (tty pstate) := kernel_proc kend.
Abbreviation ST := (fstate L (tty pstate)).
Abbreviation KM := (M ST).

(** [readi(ip, 0, &x, off, sizeof x)]: the bytes, when all of them were read. *)
Definition read_struct (ip : nat) (off size : Z) : KM (option (list Z)) :=
  do r <- infs (readi ip KernelVar off size);
  kret (if r.1 =? size then Some r.2 else None).

(** The number of bytes of one step of [loadseg]: up to the end of the page or of the segment. *)
Definition seg_chunk (va sz i : Z) : Z :=
  let off_in_page := u64 (va + i) mod PGSIZE in
  if sz - i <? PGSIZE - off_in_page then sz - i else PGSIZE - off_in_page.

Fixpoint loadseg_loop (fuel : nat) (pagetable va : Z) (ip : nat) (offset sz i : Z) : KM Z :=
  if i <? sz then
    match fuel with
    | O => nofuel
    | S fuel' =>
        do pa <- inmem (walkaddr pagetable (u64 (va + i)));
        if pa =? 0 then panic "loadseg: address should exist"
        else
          let off_in_page := u64 (va + i) mod PGSIZE in
          let n := seg_chunk va sz i in
          do r <- infs (readi ip KernelVar (u32 (offset + i)) n);
          inmem (kmod (λ k, set_mem (mwrite (kmem_mem k) (pa + off_in_page) r.2) k)) ;;;
          if negb (r.1 =? n) then kret (-1)
          else loadseg_loop fuel' pagetable va ip offset sz (i + n)
    end
  else kret 0.

(** Every step but the first and the last covers a page. *)
Definition loadseg (pagetable va : Z) (ip : nat) (offset sz : Z) : KM Z :=
  loadseg_loop (Z.to_nat (u32 sz / PGSIZE + 2)) pagetable va ip (u32 offset) (u32 sz) 0.

(** The loop over program headers: whether it succeeded, and [sz] where it stopped. *)
Fixpoint load_segments (n : nat) (ip : nat) (pagetable off sz : Z) : KM (bool * Z) :=
  match n with
  | O => kret (true, sz)
  | S n' =>
      do r <- read_struct ip (u32 off) sizeof_proghdr;
      match r with
      | None => kret (false, sz)
      | Some ph =>
          if negb (ph_type ph =? ELF_PROG_LOAD) then load_segments n' ip pagetable (s32 (off + sizeof_proghdr)) sz
          else if negb (segment_ok ph) then kret (false, sz)
          else
            do sz1 <- inmem (uvmalloc kend pagetable sz (u64 (ph_vaddr ph + ph_memsz ph)) (flags2perm (ph_flags ph)));
            if sz1 =? 0 then kret (false, sz)
            else
              do e <- loadseg pagetable (ph_vaddr ph) ip (ph_off ph) (ph_filesz ph);
              if e <? 0 then kret (false, sz1)
              else load_segments n' ip pagetable (s32 (off + sizeof_proghdr)) sz1
      end
  end.

(** The argument loop: the stack pointer and the addresses of the strings, or a failure. *)
Fixpoint push_args (argv : list (list Z)) (pagetable stackbase sp : Z) (ustack : list Z) : KM (option (Z * list Z)) :=
  match argv with
  | [] => kret (Some (sp, ustack))
  | a :: argv' =>
      if (MAXARG <=? length ustack)%nat then kret None
      else
        let sp := u64 (sp - (Z.of_nat (length a) + 1)) in
        let sp := sp - sp mod 16 in
        if sp <? stackbase then kret None
        else
          do e <- inproc (copyout_bytes kend pagetable sp (a ++ [0]));
          if e <? 0 then kret None
          else push_args argv' pagetable stackbase sp (ustack ++ [sp])
  end.

(** The array of pointers, with the null pointer at its end; the array has MAXARG elements. *)
Definition push_ustack (pagetable stackbase sp : Z) (ustack : list Z) : KM (option Z) :=
  if (MAXARG <=? length ustack)%nat then undefined "ustack[argc]" else
  let sp := u64 (sp - (Z.of_nat (length ustack) + 1) * 8) in
  let sp := sp - sp mod 16 in
  if sp <? stackbase then kret None
  else
    do e <- inproc (copyout_bytes kend pagetable sp (concat (le_split 8 <$> (ustack ++ [0]))));
    kret (if e <? 0 then None else Some sp).

(** [last]: the part of the path after its last slash. *)
Fixpoint last_elem (path cur : list Z) : list Z :=
  match path with
  | [] => cur
  | x :: p => if x =? SLASH then last_elem p p else last_elem p cur
  end.

Definition exec_bad (pagetable sz : Z) (ip : option nat) : KM Z :=
  (if pagetable =? 0 then kret tt else inmem (proc_freepagetable kend pagetable sz)) ;;;
  match ip with
  | Some i => infs (iunlockput i) ;;; infs fend_op
  | None => kret tt
  end ;;;
  kret (-1).

(** From the stack on: the file is closed, [pagetable] holds the program of size [sz]. *)
Definition exec_stack (path : list Z) (argv : list (list Z)) (pagetable entry sz : Z) : KM Z :=
  do p <- inproc myproc;
  do pr <- inproc (getp p);
  let oldsz := p_size pr in
  let sz := PGROUNDUP sz in
  do sz1 <- inmem (uvmalloc kend pagetable sz (u64 (sz + (USERSTACK + 1) * PGSIZE)) PTE_W);
  if sz1 =? 0 then exec_bad pagetable sz None
  else
    let sz := sz1 in
    inmem (uvmclear pagetable (sz - (USERSTACK + 1) * PGSIZE)) ;;;
    let stackbase := sz - USERSTACK * PGSIZE in
    do r <- push_args argv pagetable stackbase sz [];
    match r with
    | None => exec_bad pagetable sz None
    | Some (sp, ustack) =>
        do r <- push_ustack pagetable stackbase sp ustack;
        match r with
        | None => exec_bad pagetable sz None
        | Some sp =>
            inproc (tf_set (TF_a 1) sp) ;;;
            inproc (modp p (λ q, set_name (copy_name (last_elem path path) (p_name q)) q)) ;;;
            do pr <- inproc (getp p);
            inproc (modp p (set_pgtbl pagetable)) ;;;
            inproc (modp p (set_size sz)) ;;;
            inproc (tf_set TF_epc entry) ;;;
            inproc (tf_set TF_sp sp) ;;;
            inmem (proc_freepagetable kend (p_pgtbl pr) oldsz) ;;;
            kret (Z.of_nat (length ustack))
        end
    end.

Definition kexec (path : list Z) (argv : list (list Z)) : KM Z :=
  infs fbegin_op ;;;
  do r <- knamei kend path;
  match r with
  | None => infs fend_op ;;; kret (-1)
  | Some ip =>
      infs (ilock ip) ;;;
      do r <- read_struct ip 0 sizeof_elfhdr;
      match r with
      | None => exec_bad 0 0 (Some ip)
      | Some elf =>
          if negb (elf_magic elf =? ELF_MAGIC) then exec_bad 0 0 (Some ip)
          else
            do p <- inproc myproc;
            do pr <- inproc (getp p);
            do pagetable <- inmem (proc_pagetable kend trampoline (p_trapframe pr));
            if pagetable =? 0 then exec_bad 0 0 (Some ip)
            else
              do r <- load_segments (Z.to_nat (elf_phnum elf)) ip pagetable (s32 (elf_phoff elf)) 0;
              if negb r.1 then exec_bad pagetable r.2 (Some ip)
              else
                infs (iunlockput ip) ;;;
                infs fend_op ;;;
                exec_stack path argv pagetable (elf_entry elf) r.2
      end
  end.

(** ** sys_exec (sysfile.c) *)

Definition free_args (pages : list Z) : KM unit := foldr (λ pg k, inmem (kfree kend pg) ;;; k) (kret tt) pages.

(** The loop of [sys_exec]: the pages allocated so far and the strings in them; the boolean is false
    after [goto bad]. *)
Fixpoint exec_args (n : nat) (uargv : Z) (i : Z) (pages : list Z) (argv : list (list Z)) :
    KM (bool * list Z * list (list Z)) :=
  match n with
  | O => kret (false, pages, argv)
  | S n' =>
      do uarg <- fetchaddr kend (u64 (uargv + 8 * i));
      match uarg with
      | None => kret (false, pages, argv)
      | Some uarg =>
          if uarg =? 0 then kret (true, pages, argv)
          else
            do pg <- inmem kalloc;
            if pg =? 0 then kret (false, pages, argv)
            else
              do pt <- inproc my_pgtbl;
              do e <- inmem (copyinstr pt pg uarg PGSIZE);
              if e <? 0 then kret (false, pages ++ [pg], argv)
              else
                do s <- inmem (kgets (λ k, cstr (mread (kmem_mem k) pg (Z.to_nat PGSIZE))));
                exec_args n' uargv (i + 1) (pages ++ [pg]) (argv ++ [s])
      end
  end.

Definition sys_exec : KM Z :=
  do uargv <- argaddr 1;
  do path <- argpath 0;
  match path with
  | None => kret (-1)
  | Some path =>
      do r <- exec_args MAXARG uargv 0 [] [];
      let '(ok, pages, argv) := r in
      if (ok : bool) then
        do ret <- kexec path argv;
        free_args pages ;;;
        kret ret
      else free_args pages ;;; kret (-1)
  end.
End exec.

(** ** The argument strings on the new stack *)

Section stack.
Context {L : Type} `{TxOps L} (kend : Z).
Abbreviation ST := (fstate L (tty pstate)).
Implicit Types (s : ST) (c : kctx) (argv : list (list Z)) (ustack : list Z).

(** [placed base top argv addrs]: the strings lie below [top], one under the other, none below
    [base], each at an address that is a multiple of 16. *)
Fixpoint placed (base top : Z) argv (addrs : list Z) : Prop :=
  match argv, addrs with
  | [], [] => True
  | a :: argv', x :: addrs' =>
      base <= x ∧ x + Z.of_nat (length a) + 1 <= top ∧ x mod 16 = 0 ∧ placed base x argv' addrs'
  | _, _ => False
  end.

Lemma last_default {A} (l : list A) d d' : l ≠ [] → List.last l d = List.last l d'.
Proof. induction l as [|x [|y l] IH]; intros Hl; [done|done|]. by apply IH. Qed.

(** C18. The argument loop of [kexec] stays inside the stack: for arguments shorter than a page, as sys_exec fetches
    them, whatever their number, when it succeeds there are at most MAXARG of
    them, and the addresses it records place each string with its terminator between the stack base and the previous one, at a
    multiple of 16, and the stack pointer left is the address of the last string.
    No subtraction wraps, since the guard page lies below the base. *)
Theorem push_args_fits argv pagetable base sp ustack c s sp' us c' s' :
  PGSIZE <= base <= sp → sp < 2 ^ 64 → Forall (λ a, Z.of_nat (length a) < PGSIZE) argv → (length ustack ≤ MAXARG)%nat →
  push_args kend argv pagetable base sp ustack c s = Ret (Some (sp', us)) c' s' →
  ∃ addrs, us = ustack ++ addrs ∧ (length us ≤ MAXARG)%nat ∧ placed base sp argv addrs ∧ sp' = List.last addrs sp.
Proof.
  intros Hb Hsp Hf. revert sp ustack c s Hb Hsp. induction Hf as [|a argv Ha Hf IH]; intros sp ustack c s Hb Hsp Hu; cbn [push_args].
  { intros [= <- <- <- <-]. exists []. by rewrite app_nil_r. }
  destruct (Nat.leb_spec MAXARG (length ustack)) as [|Hlt]; [done|].
  rewrite (u64_small (sp - _)) by lia. set (x := sp - (Z.of_nat (length a) + 1)). set (y := x - x mod 16).
  destruct (Z.ltb_spec y base) as [|Hy]; [done|]. pose proof (Z.mod_pos_bound x 16 ltac:(lia)) as Hm.
  intros (e & c1 & s1 & _ & E)%kbind_inv. destruct (e <? 0); [done|].
  destruct (IH y (ustack ++ [y]) c1 s1) as (addrs & -> & Hlen & Hp & ->); [lia|lia|rewrite length_app; simpl; lia|exact E|].
  exists (y :: addrs). rewrite <- app_assoc in *. split; [done|]. split; [done|]. split.
  - cbn [placed]. split; [done|]. split; [lia|]. split; [|done]. unfold y. rewrite Zminus_mod_idemp_r, Z.sub_diag. done.
  - destruct addrs as [|z addrs]; [done|]. by apply (last_default (z :: addrs)).
Qed.
End stack.

(** ** Witness: the string "a" pushed on a stack page that is allocated on demand *)
Definition demo_exec : pstate :=
  mkps vm_k [set_size (4 * PGSIZE) (set_pgtbl (vm_page 0) (set_state RUNNING demo_proc))] 2 (Some 0%nat) (Some 0%nat) 0 false.

Lemma push_args_fits_witness :
  ∃ s' us, push_args KERNBASE [[97]] (vm_page 0) (2 * PGSIZE) (3 * PGSIZE) [] (mkctx [] [] 1) (demo_kernel demo_exec) =
      Ret (Some (12272, us)) (mkctx [] [] 1) s' ∧ placed (2 * PGSIZE) (3 * PGSIZE) [[97]] us.
Proof.
  assert (Hrun : match push_args KERNBASE [[97]] (vm_page 0) (2 * PGSIZE) (3 * PGSIZE) [] (mkctx [] [] 1) (demo_kernel demo_exec) with
                 | Ret (Some (x, us)) c _ => x = 12272 ∧ c = mkctx [] [] 1
                 | _ => False
                 end) by (vm_compute; done).
  destruct (push_args KERNBASE [[97]] (vm_page 0) (2 * PGSIZE) (3 * PGSIZE) [] (mkctx [] [] 1) (demo_kernel demo_exec))
    as [[[x us]|] c s'| | |] eqn:E; [|destruct Hrun..]. destruct Hrun as [-> ->].
  exists s', us. split; [reflexivity|].
  destruct (push_args_fits KERNBASE [[97]] (vm_page 0) (2 * PGSIZE) (3 * PGSIZE) [] (mkctx [] [] 1) (demo_kernel demo_exec)
    12272 us (mkctx [] [] 1) s') as (addrs & -> & _ & Hp & _).
  - unfold PGSIZE. lia.
  - unfold PGSIZE. lia.
  - repeat constructor.
  - unfold MAXARG. simpl. lia.
  - exact E.
  - exact Hp.
Defined.
