(* ===== verification/Trap.v ===== *)
(** * System call dispatch and traps (kernel/syscall.c, kernel/trap.c)

    The registers a trap handler reads are an argument ([csr]); the functions end where the CPU leaves
    them: back to the interrupted code, in the scheduler, or never.  Diagnostics printed by the
    handlers are left out; after a fatal exception of the kernel the board is reset. *)

From stdpp Require Import base list functions sets numbers strings.
From Stdlib Require Import ZArith Lia.
From S2P Require Import Prelude Machine Kstring Kalloc Vm Proc Sleeplock Bio Log TxStore Fs File Console Kernel Sysfile Exec.

(** ** System call numbers (syscall.h) *)

Inductive sysno :=
  | SYS_fork | SYS_exit | SYS_wait | SYS_pipe | SYS_read | SYS_kill | SYS_exec | SYS_fstat | SYS_chdir
  | SYS_dup | SYS_getpid | SYS_sbrk | SYS_pause | SYS_uptime | SYS_open | SYS_write | SYS_mknod
  | SYS_unlink | SYS_link | SYS_mkdir | SYS_close.

(** syscalls[num], where it is not null. *)
Definition sysno_of (num : Z) : option sysno :=
  if num <? 1 then None
  else nth (Z.to_nat (num - 1)) (Some <$>
    [SYS_fork; SYS_exit; SYS_wait; SYS_pipe; SYS_read; SYS_kill; SYS_exec; SYS_fstat; SYS_chdir; SYS_dup;
     SYS_getpid; SYS_sbrk; SYS_pause; SYS_uptime; SYS_open; SYS_write; SYS_mknod; SYS_unlink; SYS_link;
     SYS_mkdir; SYS_close]) None.

(** ** Registers *)

(** What the handlers read: sstatus, scause, stval, sepc, whether interrupts are enabled, cpuid(),
    plic_claim(), LSR_TX_IDLE, and the page table of the kernel. *)
Record csr := mkcsr {
  r_sstatus : Z;
  r_scause : Z;
  r_stval : Z;
  r_sepc : Z;
  r_intr : bool;
  r_cpu : Z;
  r_irq : Z;
  r_idle : bool;
  r_satp : Z
}.

Definition SSTATUS_SPP : Z := Z.shiftl 1 8.
Definition UART0_IRQ : Z := 16.
Definition SATP_SV39 : Z := Z.shiftl 8 60.
Definition MAKE_SATP (pagetable : Z) : Z := Z.lor SATP_SV39 (Z.shiftr pagetable 12).

(** How a trap from user mode continues. *)
Inductive utnext :=
  | UTexit            (* kexit was called *)
  | UTyield           (* yield() gave up the CPU; usertrap_leave follows *)
  | UTreturn.         (* usertrap_leave follows *)

Section trap.
Context {L : Type} `{TxOps L} (kend trampoline forkret_addr usertrap_addr : Z) (stat_pad : list Z).
#[local] Instance tr_user : UserOps (tty pstate) := kernel_user kend.
#[local] Instance tr_proc : ProcOps (tty pstate) := kernel_proc kend.
#[local] Instance tr_puser : UserOps pstate := proc_user kend.
#[local] Instance tr_pproc : ProcOps pstate := proc_proc kend.
#[local] Existing Instance proc_tty.
Abbreviation ST := (fstate L (tty pstate)).
Abbreviation KM := (M ST).

(** ** syscall *)

(** The handler of a system call; [None] when it does not return. *)
Definition sys_handler (n : sysno) : KM (option Z) :=
  let ret (m : KM Z) : KM (option Z) := do r <- m; kret (Some r) in
  match n with
  | SYS_fork => ret (sys_fork kend trampoline forkret_addr)
  | SYS_exit => sys_exit kend ;;; kret None
  | SYS_wait => ret (sys_wait kend)
  | SYS_pipe => ret (sys_pipe kend)
  | SYS_read => ret (sys_read kend)
  | SYS_kill => ret sys_kill
  | SYS_exec => ret (sys_exec kend trampoline)
  | SYS_fstat => ret (sys_fstat kend stat_pad)
  | SYS_chdir => ret (sys_chdir kend)
  | SYS_dup => ret sys_dup
  | SYS_getpid => ret sys_getpid
  | SYS_sbrk => ret (sys_sbrk kend)
  | SYS_pause => ret (sys_pause kend)
  | SYS_uptime => ret sys_uptime
  | SYS_open => ret (sys_open kend)
  | SYS_write => ret (sys_write kend)
  | SYS_mknod => ret (sys_mknod kend)
  | SYS_unlink => ret (sys_unlink kend)
  | SYS_link => ret (sys_link kend)
  | SYS_mkdir => ret (sys_mkdir kend)
  | SYS_close => ret (sys_close kend)
  end.

(** [syscall]: false when the process is gone. *)
Definition syscall : KM bool :=
  do a7 <- inproc (tf_get (TF_a 7));
  match sysno_of (s32 a7) with
  | Some n =>
      do r <- sys_handler n;
      match r with
      | Some v => inproc (tf_set (TF_a 0) v) ;;; kret true
      | None => kret false
      end
  | None => inproc (tf_set (TF_a 0) (-1)) ;;; kret true
  end.

(** ** Traps *)

(** An external interrupt: plic_claim, the UART handler, plic_complete. *)
Definition extintr (r : csr) : KM unit :=
  if r_irq r =? UART0_IRQ then inusr (uartintr (r_idle r)) else kret tt.

(** The timer interrupt taken in the kernel. *)
Definition clockintr (r : csr) : KM unit :=
  if r_cpu r =? 0 then
    acquire LK_ticks ;;;
    inproc (kmod (λ s, set_ticks (u32 (ps_ticks s + 1)) s)) ;;;
    wakeup CH_ticks ;;;
    release LK_ticks
  else kret tt.

(** [kerneltrap]: true when it ended in [yield]. *)
Definition kerneltrap (r : csr) : KM bool :=
  if Z.land (r_sstatus r) SSTATUS_SPP =? 0 then panic "kerneltrap: not from supervisor mode"
  else if r_intr r then panic "kerneltrap: interrupts enabled"
  else if negb (Z.land (r_scause r) (2 ^ 63) =? 0) then
    let which_int := Z.land (r_scause r) 0xff in
    if which_int =? 5 then
      clockintr r ;;;
      do running <- inproc (do s <- kget;
                            match ps_cur s with
                            | None => kret false
                            | Some i => do p <- getp i; kret (bool_decide (p_state p = RUNNING))
                            end);
      if (running : bool) then inproc yield_enter ;;; kret true else kret false
    else if which_int =? 9 then extintr r ;;; kret false
    else kret false
  else panic "KERNEL PANIC: EXCEPTION".

(** [if (killed(p)) kexit(-1)]: true when the process exited. *)
Definition exit_if_killed : KM bool :=
  do k <- inproc (do i <- myproc; killed i);
  if k =? 0 then kret false else kexit kend (-1) ;;; kret true.

(** A page fault or another exception of the user program. *)
Definition user_fault (r : csr) : KM unit :=
  inproc (
    do i <- myproc;
    do p <- getp i;
    if (r_scause r =? 15) || (r_scause r =? 13) then
      do pa <- zoom mem_lens (vmfault kend (vm_of p) (p_pgtbl p) (r_stval r));
      if negb (pa =? 0) then kret tt else setkilled i
    else setkilled i).

(** What [usertrap] does for the cause of the trap: [None] when the process exited, otherwise
    [which_dev == 2]. *)
Definition usertrap_cause (r : csr) : KM (option bool) :=
  if r_scause r =? 8 then
    do gone <- exit_if_killed;
    if (gone : bool) then kret None
    else
      do epc <- inproc (tf_get TF_epc);
      inproc (tf_set TF_epc (u64 (epc + 4))) ;;;
      do alive <- syscall;
      kret (if (alive : bool) then Some false else None)
  else if r_scause r =? 0x8000000000000005 then kret (Some true)
  else if r_scause r =? 0x8000000000000009 then extintr r ;;; kret (Some false)
  else user_fault r ;;; kret (Some false).

Definition usertrap (r : csr) : KM utnext :=
  if negb (Z.land (r_sstatus r) SSTATUS_SPP =? 0) then panic "usertrap: not from user"
  else
    inproc (tf_set TF_epc (r_sepc r)) ;;;
    do d <- usertrap_cause r;
    match d with
    | None => kret UTexit
    | Some timer =>
        do gone <- exit_if_killed;
        if (gone : bool) then kret UTexit
        else if (timer : bool) then inproc yield_enter ;;; kret UTyield
        else kret UTreturn
    end.

(** The end of [usertrap]: sepc and the page table for the return to user mode. *)
Definition usertrap_leave (r : csr) : KM (Z * Z) :=
  do epc <- inproc (prepare_return (r_satp r) usertrap_addr (r_cpu r));
  do pt <- inproc my_pgtbl;
  kret (epc, MAKE_SATP pt).

(** ** The first run of a process (proc.c: forkret) *)

Definition INIT_PATH : list Z := SLASH :: INIT_NAME.

Definition forkret (r : csr) : KM (Z * Z) :=
  do p <- inproc myproc;
  release (LK_proc p) ;;;
  do first <- inproc (kgets ps_first);
  (if (first : bool) then
     infs (fsinit ROOTDEV) ;;;
     inproc (kmod (set_first false)) ;;;
     do a0 <- kexec kend trampoline INIT_PATH [INIT_PATH];
     inproc (tf_set (TF_a 0) a0) ;;;
     if a0 =? -1 then panic "exec" else kret tt
   else kret tt) ;;;
  usertrap_leave r.
End trap.

(** ** Unknown system calls *)

Lemma sysno_of_none (num : Z) : sysno_of num = None ↔ num < 1 ∨ 21 < num.
Proof.
  unfold sysno_of. destruct (Z.ltb_spec num 1); [split; [by left|done]|]. rewrite nth_lookup. split.
  - intros E. right. destruct (decide (num <= 21)); [|lia]. exfalso. revert E.
    rewrite list_lookup_fmap. destruct (lookup_lt_is_Some_2 [SYS_fork; SYS_exit; SYS_wait; SYS_pipe; SYS_read; SYS_kill; SYS_exec;
      SYS_fstat; SYS_chdir; SYS_dup; SYS_getpid; SYS_sbrk; SYS_pause; SYS_uptime; SYS_open; SYS_write; SYS_mknod; SYS_unlink; SYS_link;
      SYS_mkdir; SYS_close] (Z.to_nat (num - 1))) as [x ->]; [simpl; lia|done].
  - intros [?|?]; [lia|]. rewrite lookup_ge_None_2; [done|]. rewrite length_fmap. simpl. lia.
Qed.

Section dispatch.
Context {L : Type} `{TxOps L} (kend trampoline forkret_addr : Z) (stat_pad : list Z).
Abbreviation ST := (fstate L (tty pstate)).
Implicit Types (s : ST) (c : kctx) (p : proc) (i : nat).

(** A system call number outside 1..21 - the int made of register a7, negative numbers
    included - makes [syscall] return -1 to the user program in a0; it calls no handler, changes no
    other byte of memory and nothing else of the kernel. *)
Theorem syscall_unknown c s i p :
  running s i p → let num := s32 (tf_word s p (TF_a 7)) in (num < 1 ∨ 21 < num) →
  ∃ s', syscall kend trampoline forkret_addr stat_pad c s = Ret true c s' ∧ running s' i p ∧
    tf_word s' p (TF_a 0) = 2 ^ 64 - 1 ∧
    (∀ x, x < p_trapframe p + TF_a 0 ∨ p_trapframe p + TF_a 1 <= x →
      kmem_mem (ps_mem (ps_of s')) x = kmem_mem (ps_mem (ps_of s)) x) ∧
    s' = set_ps (set_pmem (set_mem (kmem_mem (ps_mem (ps_of s'))) (ps_mem (ps_of s))) (ps_of s)) s.
Proof.
  intros Hr num Hnum. pose proof Hr as [Hc Hp]. unfold syscall. kstep (tf_get_ok c s i p (TF_a 7) Hr). fold num.
  rewrite (proj2 (sysno_of_none num) Hnum).
  set (m' := store64 (kmem_mem (ps_mem (ps_of s))) (p_trapframe p + TF_a 0) (-1)).
  assert (E : inproc (tf_set (TF_a 0) (-1)) c s = Ret tt c (set_ps (set_pmem (set_mem m' (ps_mem (ps_of s))) (ps_of s)) s)).
  { apply inproc_ret. unfold tf_set. kstep (myproc_run i c _ Hc). kstep (getp_run i c _ p Hp). done. }
  kstep E. eexists. split; [reflexivity|]. split; [done|]. split_and!.
  - unfold tf_word. cbn [ps_of set_ps fi_fs fs_user t_usr set_pmem ps_mem set_mem kmem_mem]. unfold m', load64, store64.
    rewrite <- (length_le_split 8 (u64 (-1))) at 2. rewrite mread_mwrite_eq. by rewrite le_combine_split.
  - intros x Hx. cbn [ps_of set_ps fi_fs fs_user t_usr set_pmem ps_mem set_mem kmem_mem]. unfold m', store64. apply mwrite_out.
    rewrite length_le_split. unfold TF_a in *. lia.
  - done.
Qed.
End dispatch.

(** ** Witnesses *)

(** A process whose trapframe, in page 1, asks for system call 99. *)
Definition demo_trap : pstate :=
  mkps (mkkmem (store64 (λ _, 0) (vm_page 1 + TF_a 7) 99) 0 (λ _, 0))
    [set_trapframe (vm_page 1) (set_state RUNNING demo_proc)] 2 (Some 0%nat) (Some 0%nat) 0 false.

Lemma syscall_unknown_witness :
  ∃ s', syscall KERNBASE 0 0 [] (mkctx [] [] 1) (demo_kernel demo_trap) = Ret true (mkctx [] [] 1) s' ∧
    tf_word s' (set_trapframe (vm_page 1) (set_state RUNNING demo_proc)) (TF_a 0) = 2 ^ 64 - 1.
Proof.
  destruct (syscall_unknown KERNBASE 0 0 [] (mkctx [] [] 1) (demo_kernel demo_trap) 0
    (set_trapframe (vm_page 1) (set_state RUNNING demo_proc))) as (s' & E & _ & Ha & _).
  - by split.
  - right. vm_compute. reflexivity.
  - exists s'. split; [exact E|exact Ha].
Defined.
