(* ===== verification/Main.v ===== *)
(** * Starting the kernel (main.c, and the initialisers of uart.c, vm.c, proc.c, trap.c, file.c)

    The machine is a hart with its devices (file Boot), the kernel's state (file Kernel, over the log
    and the buffer cache of the RAM disk), and the few variables that only the initialisers write: the
    kernel's page table, the device switch, the memory of the spin locks, [struct cpu].  [main] runs on
    it up to the call of [scheduler]. *)

From stdpp Require Import base list functions sets numbers strings.
From Stdlib Require Import ZArith Lia.
From S2P Require Import Spinlock.
From S2P Require Import Prelude Machine Kstring Kalloc Vm Kvm Sleeplock Proc BlockCache Bio Log TxStore Fs File Console Kernel Trap Boot.

(** ** UART registers (uart.c) *)

Definition THR : Z := 0.
Definition IER : Z := 1.
Definition IER_RX_ENABLE : Z := Z.shiftl 1 0.
Definition IER_TX_ENABLE : Z := Z.shiftl 1 1.
Definition FCR : Z := 2.
Definition FCR_FIFO_ENABLE : Z := Z.shiftl 1 0.
Definition FCR_FIFO_CLEAR : Z := Z.shiftl 3 1.
Definition LCR : Z := 3.
Definition LCR_EIGHT_BITS : Z := Z.shiftl 3 0.
Definition MCR : Z := 4.
Definition Reg (reg : Z) : Z := UART0 + reg * 4.

(** ** The machine *)

(** [struct devsw]: the functions that can be in it. *)
Inductive devfn := FN_consoleread | FN_consolewrite.
Record devsw := mkdevsw { dv_read : option devfn; dv_write : option devfn }.
Definition NDEV : nat := 10.

Record machine (D : Type) := mkmach {
  m_hart : hart D;
  m_cpu : cpu;                            (* cpus[cpuid()], less its process *)
  m_locks : lock → spinlock;
  m_devsw : list devsw;
  kernel_pagetable : Z;
  m_k : fstate (lsys bdev) (tty pstate)
}.
Arguments mkmach {D}. Arguments m_hart {D}. Arguments m_cpu {D}. Arguments m_locks {D}. Arguments m_devsw {D}.
Arguments kernel_pagetable {D}. Arguments m_k {D}.

Section main.
Context {D : Type} `{Bus D}.
(** Linker symbols and function addresses. *)
Context (kend etext trampoline forkret_addr kernelvec fs_img_start fs_img_end : Z).
Local Abbreviation MM := (M (machine D)).

Definition hart_lens : lens (machine D) (hart D) :=
  mklens m_hart (λ h s, mkmach h (m_cpu s) (m_locks s) (m_devsw s) (kernel_pagetable s) (m_k s)).
Definition k_lens : lens (machine D) (fstate (lsys bdev) (tty pstate)) :=
  mklens m_k (λ k s, mkmach (m_hart s) (m_cpu s) (m_locks s) (m_devsw s) (kernel_pagetable s) k).
Definition onhart {A} (m : M (hart D) A) : MM A := zoom hart_lens m.
Definition onk {A} (m : M (fstate (lsys bdev) (tty pstate)) A) : MM A := zoom k_lens m.

Definition init_lock (l : lock) : MM unit :=
  kmod (λ s, mkmach (m_hart s) (m_cpu s) (<[l:=initlock]> (m_locks s)) (m_devsw s) (kernel_pagetable s) (m_k s)).
Definition set_devsw (major : Z) (g : devsw → devsw) : MM unit :=
  kmod (λ s, mkmach (m_hart s) (m_cpu s) (m_locks s) (alter g (Z.to_nat major) (m_devsw s)) (kernel_pagetable s) (m_k s)).

(** ** uart.c *)

Definition WriteReg (reg v : Z) : M (hart D) unit := mmio_write (Reg reg) v.

Definition uartinit : MM unit :=
  init_lock LK_uart ;;;
  onhart (WriteReg IER 0x00) ;;;
  onhart (WriteReg LCR LCR_EIGHT_BITS) ;;;
  onhart (WriteReg FCR (Z.lor FCR_FIFO_ENABLE FCR_FIFO_CLEAR)) ;;;
  onhart (WriteReg MCR 0x0B) ;;;
  onhart (WriteReg IER (Z.lor IER_RX_ENABLE IER_TX_ENABLE)).

Definition printfinit : MM unit := init_lock LK_pr.

Definition consoleinit : MM unit :=
  init_lock LK_cons ;;;
  uartinit ;;;
  set_devsw CONSOLE (λ d, mkdevsw (Some FN_consoleread) (dv_write d)) ;;;
  set_devsw CONSOLE (λ d, mkdevsw (dv_read d) (Some FN_consolewrite)) ;;;
  printfinit.

Definition kprintf (fmt : list Z) (args : list farg) : MM unit := onk (inusr (printf fmt args)).

(** [panic]: with [panicking] set, [printf] takes no lock; [panicked] stops the output of the other
    CPUs.  The call does not return. *)
Definition panic_report (msg : list Z) : MM unit :=
  onhart intr_off ;;;
  onk (inusr (put_all ([NL] ++ ascii_bytes "panic: " ++ msg ++ [NL] ++ ascii_bytes "Rebooting K230..." ++ [NL]))).
Definition kpanic (msg : list Z) : MM unit := panic_report msg ;;; onhart k230_wdt_reboot.

(** ** The other initialisers *)

(** c->noff, c->intena, c->proc *)
Definition cpu_init : MM unit :=
  kmod (λ s, mkmach (m_hart s) (cpuinit (sie (m_cpu s))) (m_locks s) (m_devsw s) (kernel_pagetable s) (m_k s)) ;;;
  onk (inproc (kmod (set_cur None))).

Definition kinit_main : MM unit := init_lock LK_kmem ;;; onk (inmem (kinit kend)).

Definition set_kstack (x : Z) (p : proc) : proc :=
  mkproc (p_state p) (p_chan p) (p_killed p) (p_xstate p) (p_pid p) (p_parent p) x (p_size p)
    (p_pgtbl p) (p_trapframe p) (p_context p) (p_ofile p) (p_cwd p) (p_name p).

(** [kvmmake], with the assignments to p->kstack that [proc_mapstacks] makes in it. *)
Definition kvminit : MM unit :=
  do pt <- onk (inmem (kvmmake etext trampoline));
  onk (inproc (kfor NPROC 0 (λ i, modp (Z.to_nat i) (set_kstack (KSTACK i))))) ;;;
  kmod (λ s, mkmach (m_hart s) (m_cpu s) (m_locks s) (m_devsw s) pt (m_k s)).

(** The fences order the write of satp with the accesses to the tables. *)
Definition kvminithart : MM unit :=
  do s <- kget;
  onhart (w_satp (MAKE_SATP (kernel_pagetable s))).

Definition procinit_main : MM unit :=
  init_lock LK_pid ;;;
  init_lock LK_wait ;;;
  kfor NPROC 0 (λ i, init_lock (LK_proc (Z.to_nat i))) ;;;
  onk (inproc procinit).

Definition trap_init : MM unit := init_lock LK_ticks ;;; onhart (w_stvec kernelvec).

Definition binit_main : MM unit :=
  init_lock LK_bcache ;;;
  kfor NBUF 0 (λ i, init_lock (LK_bufsl (Z.to_nat i))) ;;;
  onk (infs (zoom log_lens (zoom cache_lens bio_binit))).

Definition iinit_main : MM unit :=
  init_lock LK_itable ;;;
  kfor NINODE 0 (λ i, init_lock (LK_inodesl (Z.to_nat i))) ;;;
  onk (infs iinit).

Definition fileinit : MM unit := init_lock LK_ftable.

Definition ramdisk_init : MM unit :=
  let size := u64 (fs_img_end - fs_img_start) in
  kprintf (ascii_bytes "ramdisk: mapped at %p - %p, size %ld KB" ++ [NL])
    [ANum fs_img_start; ANum fs_img_end; ANum (size / 1024)].

(** ** main.c *)

Definition boot_hart (id : Z) : MM unit :=
  consoleinit ;;;
  kprintf [NL] [] ;;;
  kprintf (ascii_bytes "xv6 kernel is booting" ++ [NL]) [] ;;;
  kprintf [NL] [] ;;;
  cpu_init ;;;
  kinit_main ;;;
  kvminit ;;;
  kvminithart ;;;
  procinit_main ;;;
  trap_init ;;;
  onhart plicinit ;;;
  onhart plicinithart ;;;
  binit_main ;;;
  iinit_main ;;;
  fileinit ;;;
  ramdisk_init ;;;
  onk (userinit kend trampoline forkret_addr) ;;;
  kprintf (ascii_bytes "hart %d starting" ++ [NL]) [ANum id].

(** Up to the call of [scheduler]. *)
Definition main : MM unit :=
  do id <- onhart cpuid;
  if id =? 0 then boot_hart id
  else kprintf (ascii_bytes "hart %d starting" ++ [NL]) [ANum id].

(** The loop of [scheduler]: [n] passes, each with the interrupts enabled and disabled again before it;
    [wfi] waits when a pass found nothing to run. *)
Fixpoint scheduler_loop (run : nat → M pstate unit) (n : nat) : MM unit :=
  match n with
  | O => kret tt
  | S n' =>
      onhart intr_on ;;;
      onhart intr_off ;;;
      do found <- onk (inproc (scheduler_pass run NPROC 0 false));
      scheduler_loop run n'
  end.
Definition scheduler (run : nat → M pstate unit) (n : nat) : MM unit :=
  onk (inproc (kmod (set_cur None))) ;;;
  scheduler_loop run n.
End main.

(** ** Kernel threads for testing the switch (end of proc.c) *)

Definition test_slot (i : nat) (pid fn : Z) : M pstate unit :=
  modp i (set_state RUNNABLE) ;;;
  modp i (set_pid pid) ;;;
  do ks <- zoom mem_lens kalloc;
  modp i (set_kstack ks) ;;;
  if ks =? 0 then panic "kalloc failed"
  else modp i (λ p, set_context (mkcontext fn (p_kstack p + PGSIZE) (ctx_s (p_context p))) p).

Definition test_proc_init (test_func_a test_func_b : Z) : M pstate unit :=
  test_slot 0 1 test_func_a ;;;
  test_slot 1 2 test_func_b.

(** [test_func_a] and [test_func_b]: the entry, and one round of the loop up to the switch in [yield]. *)
Definition test_func_enter : M pstate unit := do i <- myproc; release (LK_proc i).
Definition test_func_round {D} (ch : Z) : M (machine D) unit := kprintf [ch] [] ;;; onk (inproc yield_enter).

(** ** The power-on state *)

(** [entry.S] clears the uninitialised data: everything below is zero except what has an initialiser
    ([nextpid], [first]), the memory behind the kernel, the RAM disk with its image [m] of [size]
    blocks, the console's received characters and the registers. *)
Definition proc0 : proc := mkproc UNUSED None 0 0 0 None 0 0 0 0 context0 (replicate NOFILE None) None (replicate 16 0).
Definition cons0 (rx : list Z) : cons_t := mkcons (replicate (Z.to_nat INPUT_BUF_SIZE) 0) 0 0 0 false [] rx.
Definition pstate0 (mem0 : mem) : pstate := mkps (mkkmem mem0 0 (λ _, 0)) (replicate NPROC proc0) 1 None None 0 true.
Definition inodes0 : list inode := replicate NINODE inode0.

(** The bytes that reach the UART for [l]. *)
Definition crlf (l : list Z) : list Z := l ≫= λ x, if x =? NL then [CR; NL] else [x].
Definition say (l : list Z) (k : cons_t) : cons_t :=
  mkcons (c_buf k) (c_r k) (c_w k) (c_e k) (tx_busy k) (tx_out k ++ crlf l) (rx_in k).

Lemma put_all_run {V} l c : ∀ t : tty V, put_all l c t = Ret tt c (mktty (say l (t_con t)) (t_usr t)).
Proof.
  induction l as [|x l IH]; intros [[b r w e bs out rx] u]; cbn [put_all].
  - unfold say. cbn. by rewrite app_nil_r.
  - unfold uartputc_sync, modc. rewrite kbind_assoc. unfold say, crlf. csimpl. destruct (Z.eqb_spec x NL) as [->|Hx];
      unfold kbind, kmod, kret; rewrite IH; unfold say, crlf, tx_put; cbn [t_con t_usr c_buf c_r c_w c_e tx_busy tx_out rx_in]; by rewrite <- ?app_assoc.
Qed.

(** Locks that have been initialised. *)
Definition inited (ls : list lock) (lk : lock → spinlock) : Prop := ∀ l, l ∈ ls → lk l = initlock.

Lemma inited_insert l ls lk : inited ls lk → inited (l :: ls) (<[l:=initlock]> lk).
Proof. intros Hi l' Hl. destruct (decide (l' = l)) as [-> |]; [apply fn_lookup_insert|]. rewrite fn_lookup_insert_ne by done. apply Hi. set_solver. Qed.

Lemma init_locks_ok {D} (f : nat → lock) c (h : hart D) cp dv pt k n : ∀ (i : nat) lk ls, inited ls lk →
  ∃ lk', kfor n (Z.of_nat i) (λ j, init_lock (f (Z.to_nat j))) c (mkmach h cp lk dv pt k) = Ret tt c (mkmach h cp lk' dv pt k) ∧
    inited (ls ++ (f <$> seq i n)) lk'.
Proof.
  induction n as [|n IH]; intros i lk ls Hi; cbn [kfor seq]; [exists lk; by rewrite app_nil_r|].
  destruct (IH (S i) (<[f i:=initlock]> lk) (f i :: ls)) as (lk' & E & Hi'); [by apply inited_insert|].
  exists lk'. split; [|intros l Hl; apply Hi'; set_solver].
  unfold init_lock at 1. unfold kbind at 1, kmod at 1. cbn [m_hart m_cpu m_locks m_devsw kernel_pagetable m_k]. rewrite Nat2Z.id.
  replace (Z.of_nat i + 1) with (Z.of_nat (S i)) by lia. exact E.
Qed.
Section steps.
Context {D : Type} `{Bus D} (fl : list file) (pp : Z → pipe) (sb0 : superblock).
Implicit Types (h : hart D) (cp : cpu) (lk : lock → spinlock) (dv : list devsw) (con : cons_t) (ps : pstate) (ca : bdev) (ino : list inode) (c : kctx).
Abbreviation st h cp lk dv pt ca ino con ps := (mkmach h cp lk dv pt (mkfst (mkfs (mkls ca log0) sb0 ino (mktty con ps)) fl pp)).

Lemma onproc_ok {A} (m : M pstate A) c a c' ps' h cp lk dv pt ca ino con ps :
  m c ps = Ret a c' ps' → onk (D := D) (inproc m) c (st h cp lk dv pt ca ino con ps) = Ret a c' (st h cp lk dv pt ca ino con ps').
Proof. intros E. apply (zoom_ret k_lens), (zoom_ret usr_lens), (zoom_ret tusr_lens), E. Qed.

Lemma onmem_ok {A} (m : M kmem A) c a c' k' h cp lk dv pt ca ino con ps :
  m c (ps_mem ps) = Ret a c' k' →
  onk (D := D) (inmem m) c (st h cp lk dv pt ca ino con ps) = Ret a c' (st h cp lk dv pt ca ino con (set_pmem k' ps)).
Proof. intros E. apply onproc_ok. apply (zoom_ret mem_lens), E. Qed.

Lemma oncache_ok {A} (m : M bdev A) c a c' ca' h cp lk dv pt ca ino con ps :
  m c ca = Ret a c' ca' →
  onk (D := D) (infs (zoom log_lens (zoom cache_lens m))) c (st h cp lk dv pt ca ino con ps) = Ret a c' (st h cp lk dv pt ca' ino con ps).
Proof. intros E. apply (zoom_ret k_lens), (zoom_ret fs_lens), (zoom_ret log_lens), (zoom_ret cache_lens), E. Qed.

Lemma kprintf_ok fmt args l hl w q h cp lk dv pt ca ino con ps : LK_pr ∉ hl → vprintf fmt args = Some l →
  kprintf (D := D) fmt args (mkctx hl w q) (st h cp lk dv pt ca ino con ps) = Ret tt (mkctx hl w q) (st h cp lk dv pt ca ino (say l con) ps).
Proof.
  intros Hh E. apply (zoom_ret k_lens), (zoom_ret usr_lens). unfold printf. rewrite E. cbn [lget usr_lens k_lens m_k fi_fs fs_user].
  rewrite (kbind_ret _ _ _ _ _ _ _ (acquire_mk LK_pr hl w q _ Hh)). rewrite (kbind_ret _ _ _ _ _ _ _ (put_all_run l _ _)). cbn [t_con t_usr]. apply release_mk.
Qed.

End steps.

(** ** The first process *)

Definition born (forkret pid tf pt : Z) (p : proc) : proc :=
  set_context (mkcontext forkret (p_kstack p + PGSIZE) (replicate 12 0)) (set_pgtbl pt (set_trapframe tf (set_state USED (set_pid pid p)))).

(** What [allocproc] does to memory: a trapframe and a page table come from the free pages [p]; a table [T] that
    is already there keeps its entries. *)
Record fresh_space (kend trampoline : Z) (k : kmem) (p : pool) (r : Z) (T : tree) (k' : kmem) (p' : pool) (tf pt : Z) (T1 : tree) : Prop := mkfresh {
  fr_old : vms kend k' p' r T;
  fr_same : same_view k T k' T;
  fr_new : vms kend k' p' pt T1;
  fr_shows : shows (user_layout trampoline tf) k' T1;
  fr_apart : ∀ n n' a, T n = Some a → T1 n' ≠ Some a;
  fr_tf : tf ∈ pfree p ∧ page_ok kend tf ∧ (tf ∉ pfree p') ∧ prefs p' tf = 1 ∧ (∀ n, T n ≠ Some tf) ∧ (∀ n, T1 n ≠ Some tf);
  fr_ref : ∀ a, a ∉ pfree p → prefs p' a = prefs p a;
  fr_free : ∀ a, a ∈ pfree p' → a ∈ pfree p
}.

Section first.
Context (kend trampoline forkret : Z) (Hend : KERNBASE <= kend) (Htr : page_addr trampoline) (Htr2 : trampoline < 2 ^ 53).

Lemma new_space c k p r T : LK_kmem ∉ held c → vms kend k p r T → (4 < length (pfree p))%nat →
  ∃ tf k1 pt k' p' T1, kalloc c k = Ret tf c k1 ∧ tf ≠ 0 ∧ proc_pagetable kend trampoline tf c k1 = Ret pt c k' ∧ pt ≠ 0 ∧
    fresh_space kend trampoline k p r T k' p' tf pt T1.
Proof.
  intros Hc Hv Hlen. destruct p as [[|tf l] refs]; [simpl in Hlen; lia|]. pose proof (vm_kabs _ _ _ _ _ Hv) as Hk.
  pose proof (kabs_pages _ _ _ Hk) as Hpg. simpl in Hpg. apply Forall_cons in Hpg as [Htf _].
  pose proof (kabs_nodup _ _ _ Hk) as Hnd. simpl in Hnd. apply NoDup_cons in Hnd as [Hal _].
  assert (Htf0 : tf ≠ 0) by (by apply (page_ok_nonzero kend)).
  assert (E1 : kalloc c k = Ret tf c (mkkmem (mfill (kmem_mem k) tf 0 PGSIZE) (load64 (kmem_mem k) tf) (<[KREF_INDEX tf:=1]> (krefcount k)))).
  { rewrite kalloc_run by done. cbv zeta. rewrite (chain_head_ok kend _ _ Hk). cbn [pfree]. by rewrite (proj2 (Z.eqb_neq tf 0)) by done. }
  destruct (vms_alloc kend Hend k r T tf l refs _ Hv (same_outside_fill (kmem_mem k) tf 0)) as (Hv1 & Hs1 & [_ _ Hfr _]). set (k1 := mkkmem _ _ _) in *.
  destruct (proc_pagetable_ok kend c k1 (mkpool l (<[tf:=1]> refs)) trampoline tf Hend Hc (vm_kabs _ _ _ _ _ Hv1)) as (pt & k' & p' & T1 & E2 & Hpt & H1 & Hs);
    [simpl in *; lia|done..|].
  destruct (kvm_other kend _ _ _ _ _ _ _ _ r T Hend H1 Hv1) as [Hv' Hs'].
  exists tf, k1, pt, k', p', T1. split_and!; [done..|]. destruct (kv_free _ _ _ _ _ _ _ _ _ H1) as [used Hf]. cbn [pfree] in Hf.
  assert (Hin : ∀ a, a ∈ pfree p' → a ∈ l) by (intros a Ha; rewrite Hf; set_solver).
  split; try done.
  - intros x. by rewrite (Hs' x), (Hs1 x).
  - apply (kv_vms _ _ _ _ _ _ _ _ _ H1).
  - intros n n' a Ha Ha'. destruct (kv_tables _ _ _ _ _ _ _ _ _ H1 n' a Ha') as (Hl & _). by apply (vm_used _ _ _ _ _ Hv1 n a Ha).
  - split; [constructor|]. split; [done|]. split; [intros ?%Hin; done|]. split; [|split; [done|]].
    + rewrite (kv_refs _ _ _ _ _ _ _ _ _ H1) by done. apply fn_lookup_insert.
    + intros n Hn. by destruct (kv_tables _ _ _ _ _ _ _ _ _ H1 n tf Hn) as (Hl & _).
  - intros a Ha. cbn [pfree prefs] in *. rewrite (kv_refs _ _ _ _ _ _ _ _ _ H1) by (simpl; set_solver). cbn [prefs]. apply fn_lookup_insert_ne. set_solver.
  - intros a ?%Hin. cbn [pfree]. set_solver.
Qed.

Lemma allocproc_first w q k pr rest pid ip cur ti fi p r T :
  p_state pr = UNUSED → 0 <= pid < 2 ^ 31 - 1 → vms kend k p r T → (4 < length (pfree p))%nat →
  ∃ tf pt k' p' T1, allocproc kend trampoline forkret (mkctx [] w q) (mkps k (pr :: rest) pid ip cur ti fi) =
      Ret (Some 0%nat) (mkctx [LK_proc 0] w q) (mkps k' (born forkret pid tf pt pr :: rest) (pid + 1) ip cur ti fi) ∧
    fresh_space kend trampoline k p r T k' p' tf pt T1.
Proof.
  intros Hpr Hpid Hv Hlen. destruct (new_space (mkctx [LK_proc 0] w q) k p r T) as (tf & k1 & pt & k' & p' & T1 & E1 & Htf & E2 & Hpt & Hf); [set_solver|done|done|].
  exists tf, pt, k', p', T1. split; [|done]. unfold allocproc. change NPROC with 64%nat. cbn [find_unused].
  unfold getp. kexec. cbn [ps_proc lookup list_lookup]. rewrite decide_True by done. kexec.
  unfold allocproc_found, allocpid. kexec. unfold modp. kexec. cbn [ps_nextpid].
  unfold set_procs, set_nextpid. cbn [ps_mem ps_proc ps_nextpid ps_initproc ps_cur ps_ticks ps_first alter list_alter].
  unfold zoom. cbn [lget lset mem_lens ps_mem]. rewrite E1. rewrite (proj2 (Z.eqb_neq tf 0)) by done. unfold set_pmem.
  cbn [ps_mem ps_proc ps_nextpid ps_initproc ps_cur ps_ticks ps_first alter list_alter lget lset mem_lens]. rewrite E2. rewrite (proj2 (Z.eqb_neq pt 0)) by done.
  cbn [ps_mem ps_proc ps_nextpid ps_initproc ps_cur ps_ticks ps_first alter list_alter]. rewrite s32_small by lia. reflexivity.
Qed.
End first.

(** The entry of the root directory: referenced, not yet read from the disk. *)
Definition root_inode : inode :=
  mkinode ROOTDEV ROOTINO 1 (mksleep false 0) false 0 0 0 0 0 (replicate (Z.to_nat (NDIRECT + 1)) 0).
Definition inodes1 : list inode := root_inode :: replicate (pred NINODE) inode0.

Lemma inodes1_ok : itable_ok inodes1.
Proof.
  assert (Hl : ∀ i ip, inodes1 !! i = Some ip → i = 0%nat ∧ ip = root_inode ∨ ip = inode0).
  { intros [|i] ip Hi; [left; by injection Hi as <-|right]. by apply lookup_replicate in Hi as [-> _]. }
  split.
  - by intros i ip [[-> ->]| ->]%Hl.
  - by intros i j ip jp [[-> ->]| ->]%Hl [[-> ->]| ->]%Hl.
Qed.

Definition init_proc (forkret pid tf pt : Z) (p : proc) : proc :=
  let p := born forkret pid tf pt p in
  set_state RUNNABLE (set_size 0 (set_cwd (Some 0%nat) (set_name (copy_name INIT_NAME (p_name p)) p))).

Section userinit.
Context (kend trampoline forkret : Z) (Hend : KERNBASE <= kend) (Htr : page_addr trampoline) (Htr2 : trampoline < 2 ^ 53).

#[local] Instance mu : UserOps (tty pstate) := kernel_user kend.

Lemma namei_root hl w q (l : lsys bdev) sb (u : tty pstate) : LK_itable ∉ hl →
  namei None ROOT_PATH (mkctx hl w q) (mkfs l sb inodes0 u) = Ret (Some 0%nat) (mkctx hl w q) (mkfs l sb inodes1 u).
Proof.
  intros Hh. assert (Es : iget_scan inodes0 0 ROOTDEV ROOTINO None = inr (Some 0%nat)) by reflexivity.
  assert (E : iget ROOTDEV ROOTINO (mkctx hl w q) (mkfs l sb inodes0 u) = Ret 0%nat (mkctx hl w q) (mkfs l sb inodes1 u)).
  { unfold iget. rewrite (kbind_ret _ _ _ _ _ _ _ (acquire_mk LK_itable hl w q _ Hh)). unfold kget at 1, kbind at 1. cbn [fs_inode]. rewrite Es.
    unfold modi. unfold kbind at 1, kmod at 1. rewrite (kbind_ret _ _ _ _ _ _ _ (release_mk LK_itable hl w q _)). reflexivity. }
  unfold namei, namex, ROOT_PATH. change (SLASH =? SLASH) with true. cbv iota. rewrite kbind_assoc. kstep E. reflexivity.
Qed.

Lemma inproc_st {A} (m : M pstate A) c a c' (l : lsys bdev) sb ino con ps ps' fl pp :
  m c ps = Ret a c' ps' → inproc m c (mkfst (mkfs l sb ino (mktty con ps)) fl pp) = Ret a c' (mkfst (mkfs l sb ino (mktty con ps')) fl pp).
Proof. intros E. apply (zoom_ret usr_lens), (zoom_ret tusr_lens), E. Qed.

Lemma userinit_ok {D} `{Bus D} fl pp sb0 (h : hart D) cp lk dv pt0 ca con w q k pr rest pid ip ti fi p r T :
  p_state pr = UNUSED → 0 <= pid < 2 ^ 31 - 1 → vms kend k p r T → (4 < length (pfree p))%nat →
  ∃ tf pt k' p' T1, onk (userinit kend trampoline forkret) (mkctx [] w q)
      (mkmach h cp lk dv pt0 (mkfst (mkfs (mkls ca log0) sb0 inodes0 (mktty con (mkps k (pr :: rest) pid ip None ti fi))) fl pp)) =
      Ret tt (mkctx [] w q)
        (mkmach h cp lk dv pt0 (mkfst (mkfs (mkls ca log0) sb0 inodes1 (mktty con (mkps k' (init_proc forkret pid tf pt pr :: rest) (pid + 1) (Some 0%nat) None ti fi))) fl pp)) ∧
    fresh_space kend trampoline k p r T k' p' tf pt T1.
Proof.
  intros Hpr Hpid Hv Hlen. destruct (allocproc_first kend trampoline forkret Hend Htr Htr2 w q k pr rest pid ip None ti fi p r T Hpr Hpid Hv Hlen) as (tf & pt & k' & p' & T1 & E & Hf).
  exists tf, pt, k', p', T1. split; [|done]. apply (zoom_ret k_lens). cbn [lget k_lens m_k]. unfold userinit.
  erewrite kbind_ret by (apply inproc_st, E). cbn beta iota.
  do 2 (erewrite kbind_ret by (apply inproc_st; reflexivity)).
  pose proof (namei_root [LK_proc 0] w q) as En. erewrite kbind_ret by (apply (zoom_ret fs_lens), En; set_solver).
  do 3 (erewrite kbind_ret by (apply inproc_st; reflexivity)).
  rewrite release_mk. reflexivity.
Qed.
End userinit.

(** ** Booting *)

(** Slot [i] of the process table after [kvminit]. *)
Definition slot (i : nat) : proc := set_kstack (KSTACK (Z.of_nat i)) proc0.

Definition boot_locks : list lock :=
  [LK_cons; LK_uart; LK_pr; LK_kmem; LK_pid; LK_wait; LK_ticks; LK_bcache; LK_itable; LK_ftable] ++
  (LK_proc <$> seq 0 NPROC) ++ (LK_bufsl <$> seq 0 NBUF) ++ (LK_inodesl <$> seq 0 NINODE).

Lemma MAKE_SATP_small kend r : page_ok kend r → 0 <= kend → u64 (MAKE_SATP r) = MAKE_SATP r.
Proof.
  intros [_ Hr] Hk. apply u64_small. unfold MAKE_SATP. apply lor_range; [done|]. rewrite Z.shiftr_div_pow2 by done. uconst. Z.div_mod_to_equations. lia.
Qed.

(** A step whose run is known from [L], for all its arguments. *)
Ltac mstep L := erewrite kbind_ret by (apply L); cbn beta.

Section boot.
Context {D : Type} `{Bus D}.
Implicit Types (h : hart D) (cp : cpu) (lk : lock → spinlock) (dv : list devsw) (c : kctx).

Lemma onhart_ok {A} (m : M (hart D) A) c a c' h' h cp lk dv pt k :
  m c h = Ret a c' h' → onhart m c (mkmach h cp lk dv pt k) = Ret a c' (mkmach h' cp lk dv pt k).
Proof. apply (zoom_ret hart_lens m c (mkmach h cp lk dv pt k)). Qed.

Definition console_dev (d : devsw) : devsw := mkdevsw (Some FN_consoleread) (Some FN_consolewrite).

Lemma init_lock_run l c h cp lk dv pt k :
  init_lock (D := D) l c (mkmach h cp lk dv pt k) = Ret tt c (mkmach h cp (<[l:=initlock]> lk) dv pt k).
Proof. reflexivity. Qed.

Lemma set_devsw_run major g c h cp lk dv pt k :
  set_devsw (D := D) major g c (mkmach h cp lk dv pt k) = Ret tt c (mkmach h cp lk (alter g (Z.to_nat major) dv) pt k).
Proof. reflexivity. Qed.

Lemma WriteReg_run reg v c csrs d cp lk dv pt k :
  onhart (WriteReg reg v) c (mkmach (mkhart csrs d) cp lk dv pt k) = Ret tt c (mkmach (mkhart csrs (bus_store (Reg reg) (u32 v) d)) cp lk dv pt k).
Proof. reflexivity. Qed.

Lemma uartinit_ok c csrs d cp lk dv pt k :
  ∃ d', uartinit c (mkmach (mkhart csrs d) cp lk dv pt k) = Ret tt c (mkmach (mkhart csrs d') cp (<[LK_uart:=initlock]> lk) dv pt k).
Proof. unfold uartinit. mstep init_lock_run. do 4 (mstep WriteReg_run). rewrite WriteReg_run. by eexists. Qed.

Lemma consoleinit_ok c csrs d cp lk dv pt k :
  ∃ d', consoleinit c (mkmach (mkhart csrs d) cp lk dv pt k) =
    Ret tt c (mkmach (mkhart csrs d') cp (<[LK_pr:=initlock]> (<[LK_uart:=initlock]> (<[LK_cons:=initlock]> lk))) (alter console_dev (Z.to_nat CONSOLE) dv) pt k).
Proof.
  unfold consoleinit. mstep init_lock_run. destruct (uartinit_ok c csrs d cp (<[LK_cons:=initlock]> lk) dv pt k) as [d' E]. kstep E. exists d'.
  do 2 (mstep set_devsw_run). unfold printfinit. by rewrite init_lock_run, list_alter_alter_eq.
Qed.

Lemma kstacks_ok c ps : ps_proc ps = replicate NPROC proc0 →
  kfor NPROC 0 (λ i, modp (Z.to_nat i) (set_kstack (KSTACK i))) c ps = Ret tt c (set_procs (slot <$> seq 0 NPROC) ps).
Proof.
  intros Ep. rewrite (kfor_slots _ (λ j, set_kstack (KSTACK (Z.of_nat j))) c NPROC 0 ps); [rewrite Ep; do 2 f_equal; by vm_compute|by rewrite Ep, length_replicate|].
  intros j s' p Hj _ _ _. by rewrite modp_run, Nat2Z.id.
Qed.

Lemma procinit_ok c ps : ps_proc ps = slot <$> seq 0 NPROC → procinit c ps = Ret tt c (set_procs (slot <$> seq 0 NPROC) ps).
Proof.
  intros Ep. unfold procinit. rewrite (kfor_slots _ (λ _, set_state UNUSED) c NPROC 0 ps); [rewrite Ep; do 2 f_equal; by vm_compute|by rewrite Ep, length_fmap, length_seq|].
  intros j s' p Hj _ _ _. by rewrite modp_run, Nat2Z.id.
Qed.

Lemma iinit_ok c (l : lsys bdev) sb (u : tty pstate) :
  iinit c (mkfs l sb inodes0 u) = Ret tt c (mkfs l sb inodes0 u).
Proof. reflexivity. Qed.

(** A device register that holds what was written to it. *)
Definition plic_holds : Prop := ∀ d : D, let reg := PLIC_PRIORITY + UART0_IRQ * 4 in u32 (bus_load reg (bus_store reg 1 d)).1 = 1.

Lemma plicinit_ok c csrs d : plic_holds → ∃ d', plicinit c (mkhart csrs d) = Ret tt c (mkhart csrs d').
Proof. intros Hp. rewrite plicinit_checks. cbn [h_dev h_csr]. rewrite (proj2 (Z.eqb_eq _ 1)) by apply Hp. by eexists. Qed.

Lemma plicinithart_ok c csrs (d : D) : ∃ d', plicinithart c (mkhart csrs d) = Ret tt c (mkhart csrs d').
Proof. by eexists. Qed.

(** The registers [main] writes. *)
Definition boot_csrs (pt kernelvec : Z) (csrs : csr → Z) : csr → Z := <[STVEC:=u64 kernelvec]> (<[SATP:=u64 (MAKE_SATP pt)]> csrs).

Context (kend etext trampoline forkret kernelvec img0 img1 : Z) (fl : list file) (pp : Z → pipe) (sb0 : superblock).
Abbreviation st h cp lk dv pt ca ino con ps := (mkmach h cp lk dv pt (mkfst (mkfs (mkls ca log0) sb0 ino (mktty con ps)) fl pp)).

(** Up to the kernel's page table. *)
Lemma memory_up w q csrs (d : D) cp lk dv ca con ps :
  etext mod PGSIZE = 0 → KERNBASE < etext <= kend → trampoline mod PGSIZE = 0 → KERNBASE <= trampoline < etext → kend + 700 * PGSIZE <= PHYSTOP →
  freelist (ps_mem ps) = 0 → (∀ i, krefcount (ps_mem ps) i = 0) → ps_proc ps = replicate NPROC proc0 →
  ∃ r k p0 k0 p T stk, (kinit_main kend ;;; kvminit etext trampoline) (mkctx [] w q) (st (mkhart csrs d) cp lk dv 0 ca inodes0 con ps) =
      Ret tt (mkctx [] w q) (st (mkhart csrs d) cp (<[LK_kmem:=initlock]> lk) dv r ca inodes0 con (set_procs (slot <$> seq 0 NPROC) (set_pmem k ps))) ∧
    kvm kend k0 p0 kvm_paths r stk k p T ∧ kabs kend k0 p0 ∧ shows (kernel_layout etext trampoline stk) k T ∧ length stk = NPROC ∧ (4 < length (pfree p))%nat.
Proof.
  intros Het Hetr Htr Htrr Hroom Hf Hr Hps. pose proof (PGROUNDUP_spec kend) as [Hal Hge]; [uconst; lia..|].
  destruct (kinit_run kend ltac:(uconst; lia) (mkctx [] w q) (ps_mem ps) ltac:(apply not_elem_of_nil) Hf Hr) as (k1 & E1 & H1). set (free := pages_from _ _) in H1.
  assert (Hlen : (690 < length free)%nat).
  { unfold free, pages_from. rewrite length_reverse, length_fmap, length_seq. apply Nat2Z.inj_lt. rewrite Z2Nat.id by (apply Z.div_pos; uconst; lia).
    apply Z.lt_le_trans with 699; [done|]. apply Z.div_le_lower_bound; uconst; lia. }
  assert (Hnp : length kvm_paths = 552%nat) by (by vm_compute).
  destruct (kvmmake_ok etext trampoline Het ltac:(uconst; lia) Htr Htrr kend (mkctx [] w q) k1 (mkpool free (λ _, 0)) ltac:(uconst; lia) ltac:(apply not_elem_of_nil) H1)
    as (r & k & p & T & stk & E & Hk & Hs & Hn); [rewrite Hnp; change NPROC with 64%nat; cbn [pfree]; lia|].
  exists r, k, (mkpool free (λ _, 0)), k1, p, T, stk. split; [|split_and!; [done..|]].
  - unfold kinit_main, kvminit. rewrite kbind_assoc. mstep init_lock_run. erewrite kbind_ret by (apply onmem_ok, E1). cbn beta.
    erewrite kbind_ret by (apply onmem_ok, E). cbn beta. erewrite kbind_ret by (apply onproc_ok, kstacks_ok, Hps). reflexivity.
  - assert (Hl : (length free <= length (pfree p) + length kvm_paths + length stk)%nat) by (eapply (kvm_left kend k1 (mkpool free (λ _, 0))) with (room := 0%nat); [apply (kabs_nodup _ _ _ H1)|cbn [pfree]; lia|exact Hk]). rewrite Hnp, Hn in Hl. change NPROC with 64%nat in Hl. cbn [pfree] in Hl. lia.
Qed.

Lemma procinit_main_ok c h cp lk dv pt ca ino con ps ls : inited ls lk → ps_proc ps = slot <$> seq 0 NPROC →
  ∃ lk', procinit_main c (st h cp lk dv pt ca ino con ps) = Ret tt c (st h cp lk' dv pt ca ino con (set_procs (slot <$> seq 0 NPROC) ps)) ∧
    inited ((LK_wait :: LK_pid :: ls) ++ (LK_proc <$> seq 0 NPROC)) lk'.
Proof.
  intros Hi Hp. destruct (init_locks_ok LK_proc c h cp dv pt (mkfst (mkfs (mkls ca log0) sb0 ino (mktty con ps)) fl pp) NPROC 0
    (<[LK_wait:=initlock]> (<[LK_pid:=initlock]> lk)) (LK_wait :: LK_pid :: ls)) as (lk' & E & Hi'); [by do 2 apply inited_insert|].
  exists lk'. split; [|done]. unfold procinit_main. do 2 (mstep init_lock_run). kstep E. apply onproc_ok, procinit_ok, Hp.
Qed.

Lemma binit_main_ok c h cp lk dv pt ca ca' ino con ps ls : inited ls lk → bio_binit c ca = Ret tt c ca' →
  ∃ lk', binit_main c (st h cp lk dv pt ca ino con ps) = Ret tt c (st h cp lk' dv pt ca' ino con ps) ∧
    inited ((LK_bcache :: ls) ++ (LK_bufsl <$> seq 0 NBUF)) lk'.
Proof.
  intros Hi Hb. destruct (init_locks_ok LK_bufsl c h cp dv pt (mkfst (mkfs (mkls ca log0) sb0 ino (mktty con ps)) fl pp) NBUF 0
    (<[LK_bcache:=initlock]> lk) (LK_bcache :: ls)) as (lk' & E & Hi'); [by apply inited_insert|].
  exists lk'. split; [|done]. unfold binit_main. mstep init_lock_run. kstep E. by apply oncache_ok.
Qed.

Lemma iinit_main_ok c h cp lk dv pt ca con ps ls : inited ls lk →
  ∃ lk', iinit_main c (st h cp lk dv pt ca inodes0 con ps) = Ret tt c (st h cp lk' dv pt ca inodes0 con ps) ∧
    inited ((LK_itable :: ls) ++ (LK_inodesl <$> seq 0 NINODE)) lk'.
Proof.
  intros Hi. destruct (init_locks_ok LK_inodesl c h cp dv pt (mkfst (mkfs (mkls ca log0) sb0 inodes0 (mktty con ps)) fl pp) NINODE 0
    (<[LK_itable:=initlock]> lk) (LK_itable :: ls)) as (lk' & E & Hi'); [by apply inited_insert|].
  exists lk'. split; [|done]. unfold iinit_main. mstep init_lock_run. kstep E. apply (zoom_ret k_lens), (zoom_ret fs_lens), iinit_ok.
Qed.

(** Messages of [main]: their text does not matter here. *)
Lemma say_ok fmt args w q h cp lk dv pt ca ino con ps : vprintf fmt args ≠ None →
  ∃ l, kprintf fmt args (mkctx [] w q) (st h cp lk dv pt ca ino con ps) = Ret tt (mkctx [] w q) (st h cp lk dv pt ca ino (say l con) ps).
Proof. intros Hv. destruct (vprintf fmt args) as [l|] eqn:E; [|done]. exists l. apply kprintf_ok; [apply not_elem_of_nil|done]. Qed.

Lemma say_say l l' con : say l' (say l con) = say (l ++ l') con.
Proof. unfold say, crlf. cbn. by rewrite bind_app, app_assoc. Qed.

Record up_mem (r : Z) (k : kmem) (p : pool) (T : tree) (stk : list Z) (tf pt : Z) (T1 : tree) : Prop := mkupmem {
  um_table : vms kend k p r T;
  um_layout : shows (kernel_layout etext trampoline stk) k T;
  um_protected : protected etext k T;
  um_stacks : length stk = NPROC ∧ NoDup stk ∧ ∀ a, a ∈ stk → page_ok kend a ∧ (a ∉ pfree p) ∧ prefs p a = 1;
  um_user : vms kend k p pt T1;
  um_user_layout : shows (user_layout trampoline tf) k T1;
  um_apart : ∀ n n' a, T n = Some a → T1 n' ≠ Some a;
  um_tf : page_ok kend tf ∧ (tf ∉ pfree p) ∧ prefs p tf = 1 ∧ (tf ∉ stk) ∧ (∀ n, T n ≠ Some tf) ∧ (∀ n, T1 n ≠ Some tf)
}.

(** The memory after [kvminit] and [userinit]. *)
Lemma up_mem_intro k0 p0 r stk k p T k' p' tf pt T1 :
  etext mod PGSIZE = 0 → KERNBASE < etext <= kend → trampoline mod PGSIZE = 0 → KERNBASE <= trampoline < etext → kend < PHYSTOP →
  kvm kend k0 p0 kvm_paths r stk k p T → kabs kend k0 p0 → shows (kernel_layout etext trampoline stk) k T → length stk = NPROC →
  fresh_space kend trampoline k p r T k' p' tf pt T1 → up_mem r k' p' T stk tf pt T1.
Proof.
  intros Het Hetr Htr Htrr Hk Hkv Hk0 Hs Hn [F1 F2 F3 F4 F5 (F0 & F6 & F7 & F8 & F9 & F10) F11 F12].
  assert (Hpg : ∀ a, a ∈ pfree p0 → page_ok kend a) by (apply Forall_forall, Hk0).
  assert (Hs' : shows (kernel_layout etext trampoline stk) k' T) by (by eapply shows_view).
  assert (Hstk : ∀ a, a ∈ stk → page_ok kend a) by (intros a Ha; by apply Hpg, (kv_stk _ _ _ _ _ _ _ _ _ Hkv a Ha)).
  split; try done.
  - apply (layout_protected kend etext trampoline stk); try done; [uconst; lia|lia].
  - split; [done|]. split; [by eapply kv_nodup|]. intros a Ha. destruct (kv_stk _ _ _ _ _ _ _ _ _ Hkv a Ha) as (H1 & H2 & H3).
    split; [by apply Hstk|]. split; [intros ?%F12; done|by rewrite F11].
  - split_and!; try done. intros Hin. by apply (kv_stk _ _ _ _ _ _ _ _ _ Hkv tf Hin).
Qed.

Definition init_first (tf pt : Z) : list proc := init_proc forkret 1 tf pt (slot 0) :: (slot <$> seq 1 (pred NPROC)).

Lemma main_ok w q csrs (d : D) cp lk dv mem0 img size rx :
  etext mod PGSIZE = 0 → KERNBASE < etext <= kend → trampoline mod PGSIZE = 0 → KERNBASE <= trampoline < etext → kend + 700 * PGSIZE <= PHYSTOP →
  csrs TP = 0 → 0 <= kernelvec < 2 ^ 64 → 0 <= size <= 2 ^ 22 → plic_holds →
  ∃ d' lk' r ca con k p T stk tf pt T1,
    main kend etext trampoline forkret kernelvec img0 img1 (mkctx [] w q) (st (mkhart csrs d) cp lk dv 0 (boot_dev img size) inodes0 (cons0 rx) (pstate0 mem0)) =
      Ret tt (mkctx [] w q) (st (mkhart (boot_csrs r kernelvec csrs) d') (cpuinit (sie cp)) lk' (alter console_dev (Z.to_nat CONSOLE) dv) r ca inodes1 con
        (mkps k (init_first tf pt) 2 (Some 0%nat) None 0 true)) ∧
    inited boot_locks lk' ∧ up_mem r k p T stk tf pt T1 ∧ bcabs ca (view_boot size (λ b, mread img (b * BSIZE) bsize) (λ _, 0%nat)) ∧
    (∃ text, con = say text (cons0 rx)).
Proof.
  intros Het Hetr Htr Htrr Hroom Htp Hkv Hsz Hplic. unfold main. set (c := mkctx [] w q).
  erewrite kbind_ret by (apply onhart_ok; reflexivity). cbn beta. cbn [h_csr]. rewrite Htp. change (s32 0 =? 0) with true. cbv iota. unfold boot_hart.
  destruct (consoleinit_ok c csrs d cp lk dv 0 (mkfst (mkfs (mkls (boot_dev img size) log0) sb0 inodes0 (mktty (cons0 rx) (pstate0 mem0))) fl pp)) as [d1 E1]. kstep E1. clear E1.
  set (lk1 := <[LK_pr:=_]> _). assert (Hi1 : inited [LK_pr; LK_uart; LK_cons] lk1) by (do 3 apply inited_insert; by intros ? ?%not_elem_of_nil).
  clearbody lk1. set (dv1 := alter _ _ dv).
  edestruct (say_ok [NL] [] w q) as [t1 E1]; [done|]. kstep E1. clear E1.
  edestruct (say_ok (ascii_bytes "xv6 kernel is booting" ++ [NL]) [] w q) as [t2 E1]; [done|]. kstep E1. clear E1.
  edestruct (say_ok [NL] [] w q) as [t3 E1]; [done|]. kstep E1. clear E1. rewrite !say_say. set (con1 := say _ _).
  assert (Ec : cpu_init c (st (mkhart csrs d1) cp lk1 dv1 0 (boot_dev img size) inodes0 con1 (pstate0 mem0)) = Ret tt c (st (mkhart csrs d1) (cpuinit (sie cp)) lk1 dv1 0 (boot_dev img size) inodes0 con1 (pstate0 mem0))) by reflexivity.
  kstep Ec. clear Ec.
  destruct (memory_up w q csrs d1 (cpuinit (sie cp)) lk1 dv1 (boot_dev img size) con1 (pstate0 mem0)) as (r & k & p0 & k0 & p & T & stk & E & Hkvm & Hk0 & Hs & Hn & Hlen); [done..|].
  rewrite <- (kbind_assoc (kinit_main kend) (λ _, kvminit etext trampoline)). kstep E. clear E.
  pose proof (inited_insert LK_kmem _ _ Hi1) as Hi2. set (lk2 := <[LK_kmem:=_]> lk1) in *. clearbody lk2.
  unfold kvminithart. rewrite kbind_assoc. unfold kget at 1, kbind at 1. cbn [kernel_pagetable].
  erewrite kbind_ret by (apply onhart_ok; reflexivity). cbn beta.
  edestruct (procinit_main_ok c) as (lk3 & E & Hi3); [exact Hi2| |kstep E; clear E Hi2]; [reflexivity|].
  unfold trap_init. rewrite kbind_assoc. mstep init_lock_run. apply (inited_insert LK_ticks) in Hi3. set (lk4 := <[LK_ticks:=_]> lk3) in *. clearbody lk4.
  erewrite kbind_ret by (apply onhart_ok; reflexivity). cbn beta. unfold set_csr. cbn [h_csr h_dev]. fold (boot_csrs r kernelvec csrs).
  destruct (plicinit_ok c (boot_csrs r kernelvec csrs) d1 Hplic) as [d2 E]. erewrite kbind_ret by (apply onhart_ok, E). clear E. cbn beta.
  destruct (plicinithart_ok c (boot_csrs r kernelvec csrs) d2) as [d3 E]. erewrite kbind_ret by (apply onhart_ok, E). clear E. cbn beta.
  destruct (binit_bcabs c (boot_dev img size) size (λ b, mread img (b * BSIZE) bsize)) as (ca & Eb & Hca); [done| |done..|].
  { intros j Hj. unfold blank, boot_dev. cbn [bufs]. by rewrite lookup_total_replicate_2. }
  edestruct (binit_main_ok c) as (lk5 & E & Hi5); [exact Hi3|exact Eb|]. kstep E. clear E Hi3.
  edestruct (iinit_main_ok c) as (lk6 & E & Hi6); [exact Hi5|]. kstep E. clear E Hi5.
  unfold fileinit. mstep init_lock_run. apply (inited_insert LK_ftable) in Hi6. set (lk7 := <[LK_ftable:=_]> lk6) in *. clearbody lk7.
  edestruct (say_ok (ascii_bytes "ramdisk: mapped at %p - %p, size %ld KB" ++ [NL]) [ANum img0; ANum img1; ANum (u64 (img1 - img0) / 1024)] w q) as [t4 E]; [done|].
  unfold ramdisk_init. kstep E. clear E.
  destruct (userinit_ok kend trampoline forkret ltac:(lia) ltac:(split; [done|uconst; lia]) ltac:(uconst; lia) fl pp sb0
    (mkhart (boot_csrs r kernelvec csrs) d3) (cpuinit (sie cp)) lk7 dv1 r ca (say t4 con1) w q k (slot 0) (slot <$> seq 1 (pred NPROC)) 1 None 0 true p r T)
    as (tf & pt & k' & p' & T1 & E & Hf); [done|lia|by eapply kv_vms|done|].
  kstep E. clear E. edestruct (say_ok (ascii_bytes "hart %d starting" ++ [NL]) [ANum (s32 0)] w q) as [t5 E]; [done|]. rewrite E. clear E.
  exists d3, lk7, r, ca, (say t5 (say t4 con1)), k', p', T, stk, tf, pt, T1. split; [reflexivity|]. split; [|split; [|split; [done|]]].
  - intros l Hl. apply Hi6. revert Hl. clear. unfold boot_locks. generalize (LK_proc <$> seq 0 NPROC) (LK_bufsl <$> seq 0 NBUF) (LK_inodesl <$> seq 0 NINODE).
    intros l1 l2 l3. repeat first [rewrite elem_of_app|rewrite elem_of_cons|rewrite elem_of_nil]. tauto.
  - eapply up_mem_intro; try done; uconst; lia.
  - unfold con1. rewrite !say_say. by eexists.
Qed.
End boot.

(** The state in which the kernel starts. *)
Definition power_on {D} (h : hart D) (cp : cpu) (lk : lock → spinlock) (dv : list devsw) (mem0 img : mem) (size : Z) (rx : list Z)
    (sb0 : superblock) (fl : list file) (pp : Z → pipe) : machine D :=
  mkmach h cp lk dv 0 (mkfst (mkfs (mkls (boot_dev img size) log0) sb0 inodes0 (mktty (cons0 rx) (pstate0 mem0))) fl pp).

(** C14. [main] on the boot hart, from cleared variables, any memory behind the kernel and any disk image, returns to the call of [scheduler] without
    panicking and with no lock held, and leaves every component in its initial form.  Address translation is on with the kernel's own table, which maps
    exactly the kernel's layout and is protected; the trap vector is set; every lock that [main] is to initialise is free; the buffer cache shows the
    RAM disk; the inode table holds the root directory once and the console is registered.  Slot 0 of the process table is the runnable process init,
    with a private page table that maps the trampoline and its trapframe only, with its kernel stack, ready to start in [forkret]; every other slot is
    unused and has its own kernel stack.  The scheduler's first choice is init. *)
Theorem main_boots {D} `{Bus D} kend etext trampoline forkret kernelvec img0 img1 w q (h : hart D) cp lk dv mem0 img size rx sb0 fl pp :
  etext mod PGSIZE = 0 → KERNBASE < etext <= kend → trampoline mod PGSIZE = 0 → KERNBASE <= trampoline < etext → kend + 700 * PGSIZE <= PHYSTOP →
  h_csr h TP = 0 → 0 <= kernelvec < 2 ^ 64 → 0 <= size <= 2 ^ 22 → (Z.to_nat CONSOLE < length dv)%nat → plic_holds (D := D) →
  ∃ s' p T stk tf pt T1, main kend etext trampoline forkret kernelvec img0 img1 (mkctx [] w q) (power_on h cp lk dv mem0 img size rx sb0 fl pp) = Ret tt (mkctx [] w q) s' ∧
    let ps := ps_of (m_k s') in
    up_mem kend etext trampoline (kernel_pagetable s') (ps_mem ps) p T stk tf pt T1 ∧
    h_csr (m_hart s') SATP = MAKE_SATP (kernel_pagetable s') ∧ h_csr (m_hart s') STVEC = kernelvec ∧
    inited boot_locks (m_locks s') ∧ noff (m_cpu s') = 0 ∧
    m_devsw s' !! Z.to_nat CONSOLE = Some (mkdevsw (Some FN_consoleread) (Some FN_consolewrite)) ∧
    bcabs (l_cache (fs_log (fi_fs (m_k s')))) (view_boot size (λ b, mread img (b * BSIZE) bsize) (λ _, 0%nat)) ∧
    fs_inode (fi_fs (m_k s')) = inodes1 ∧ itable_ok inodes1 ∧
    ps_initproc ps = Some 0%nat ∧ ps_proc ps !! 0%nat = Some (init_proc forkret 1 tf pt (slot 0)) ∧
    (∀ i, (0 < i < NPROC)%nat → ps_proc ps !! i = Some (slot i)) ∧
    ∃ ps', sched_pick 0 (mkctx [] w q) ps = Ret true (mkctx [LK_proc 0] w q) ps' ∧ ps_cur ps' = Some 0%nat.
Proof.
  intros Het Hetr Htr Htrr Hroom Htp Hkv Hsz Hdv Hplic. destruct h as [csrs d].
  destruct (main_ok kend etext trampoline forkret kernelvec img0 img1 fl pp sb0 w q csrs d cp lk dv mem0 img size rx)
    as (d' & lk' & r & ca & con & k & p & T & stk & tf & pt & T1 & E & Hi & Hm & Hca & _); [done..|].
  eexists _, p, T, stk, tf, pt, T1. split; [exact E|]. cbn [m_k m_hart m_cpu m_locks m_devsw kernel_pagetable fi_fs fs_log fs_inode l_cache h_csr].
  unfold ps_of. cbn [fi_fs fs_user t_usr ps_mem ps_initproc ps_proc ps_cur].
  split; [exact Hm|]. split; [|split]; [unfold boot_csrs; rewrite fn_lookup_insert_ne, fn_lookup_insert by done|unfold boot_csrs; rewrite fn_lookup_insert; by apply u64_small|].
  - apply (MAKE_SATP_small kend); [|uconst; lia]. destruct (um_table _ _ _ _ _ _ _ _ _ _ _ Hm) as [Hpt _ _]. apply (pt_page kend _ _ _ Hpt []), (pt_root kend _ _ _ Hpt).
  - split; [exact Hi|]. split; [done|]. split; [rewrite list_lookup_alter_eq; by destruct (lookup_lt_is_Some_2 dv (Z.to_nat CONSOLE) Hdv) as [? ->]|].
    split; [exact Hca|]. split; [done|]. split; [|split; [done|split; [done|split]]].
    + apply inodes1_ok.
    + intros i Hlt. destruct i as [|i]; [lia|]. change NPROC with 64%nat in Hlt. change (init_first forkret tf pt !! S i) with ((slot <$> seq 1 63) !! i).
      by rewrite list_lookup_fmap, lookup_seq_lt by lia.
    + by eexists.
Qed.

(** A hart other than the boot hart goes to the scheduler as [start] left it: translation is off and the trap vector is not set, and it does not
    wait for the boot hart. *)
Theorem other_hart_unset {D} `{Bus D} kend etext trampoline forkret kernelvec img0 img1 w q csrs (d : D) cp lk dv pt ca ino con ps sb0 fl pp :
  0 < csrs TP < 2 ^ 31 →
  ∃ con', main kend etext trampoline forkret kernelvec img0 img1 (mkctx [] w q) (mkmach (mkhart csrs d) cp lk dv pt (mkfst (mkfs (mkls ca log0) sb0 ino (mktty con ps)) fl pp)) =
    Ret tt (mkctx [] w q) (mkmach (mkhart csrs d) cp lk dv pt (mkfst (mkfs (mkls ca log0) sb0 ino (mktty con' ps)) fl pp)).
Proof.
  intros Hid. unfold main. erewrite kbind_ret by (apply onhart_ok; reflexivity). cbn beta. cbn [h_csr]. rewrite s32_small by lia.
  rewrite (proj2 (Z.eqb_neq _ 0)) by lia. edestruct (say_ok (D := D) fl pp sb0 (ascii_bytes "hart %d starting" ++ [NL]) [ANum (csrs TP)] w q) as [t E]; [done|]. rewrite E. by eexists.
Qed.

(** [panic] disables interrupts, prints its message whatever locks are held, and does not return. *)
Theorem panic_stops {D} `{Bus D} msg c (s : machine D) :
  kpanic msg c s = NoFuel ∧
  ∃ s', panic_report msg c s = Ret tt c s' ∧ Z.testbit (h_csr (m_hart s') SSTATUS) 1 = false ∧
    ∃ text, t_con (fs_user (fi_fs (m_k s'))) = say text (t_con (fs_user (fi_fs (m_k s)))) ∧ ps_of (m_k s') = ps_of (m_k s).
Proof.
  assert (E : ∃ s', panic_report msg c s = Ret tt c s' ∧ Z.testbit (h_csr (m_hart s') SSTATUS) 1 = false ∧
    ∃ text, t_con (fs_user (fi_fs (m_k s'))) = say text (t_con (fs_user (fi_fs (m_k s)))) ∧ ps_of (m_k s') = ps_of (m_k s)).
  { destruct s as [[csrs d] cp lk dv pt k]. unfold panic_report. erewrite kbind_ret by (apply onhart_ok; reflexivity). cbn beta.
    eexists. split; [apply (zoom_ret k_lens), (zoom_ret usr_lens), put_all_run|]. split; [|by eexists].
    cbn [lset k_lens m_hart set_csr h_csr]. rewrite fn_lookup_insert, testbit_u64, Z.land_spec, Z.lnot_spec by lia. by rewrite andb_false_r. }
  split; [|exact E]. destruct E as (s' & E & _). unfold kpanic. kstep E. unfold onhart, zoom. by rewrite wdt_reboot_stays.
Qed.

Lemma test_slot_ok i pid fn c ps a k1 : kalloc c (ps_mem ps) = Ret a c k1 → a ≠ 0 →
  test_slot i pid fn c ps = Ret tt c (set_procs (alter (λ p, set_context (mkcontext fn (p_kstack p + PGSIZE) (ctx_s (p_context p))) p) i
    (alter (set_kstack a) i (alter (set_pid pid) i (alter (set_state RUNNABLE) i (ps_proc ps))))) (set_pmem k1 ps)).
Proof.
  intros E Ha. unfold test_slot. do 2 (mstep modp_run). erewrite kbind_ret by (apply (zoom_ret mem_lens), E). cbn beta. mstep modp_run.
  by rewrite (proj2 (Z.eqb_neq a 0)) by done.
Qed.

(** With two free pages [test_proc_init] makes slots 0 and 1 runnable on stacks of their own, and changes no other slot. *)
Theorem test_proc_init_runs kend fa fb c k p pr0 pr1 rest n ip cur ti fi :
  KERNBASE <= kend → LK_kmem ∉ held c → kabs kend k p → (2 <= length (pfree p))%nat →
  ∃ k' p' a b, test_proc_init fa fb c (mkps k (pr0 :: pr1 :: rest) n ip cur ti fi) =
      Ret tt c (mkps k' (set_context (mkcontext fa (a + PGSIZE) (ctx_s (p_context pr0))) (set_kstack a (set_pid 1 (set_state RUNNABLE pr0))) ::
                         set_context (mkcontext fb (b + PGSIZE) (ctx_s (p_context pr1))) (set_kstack b (set_pid 2 (set_state RUNNABLE pr1))) :: rest) n ip cur ti fi) ∧
    kabs kend k' p' ∧ a ≠ b ∧ pfree p = a :: b :: pfree p'.
Proof.
  intros Hend Hc Hk Hlen. destruct p as [[|a [|b l]] refs]; [simpl in Hlen; lia..|].
  pose proof (kabs_pages _ _ _ Hk) as Hpg. simpl in Hpg. apply Forall_cons in Hpg as [Ha Hpg]. apply Forall_cons in Hpg as [Hb _].
  pose proof (kabs_nodup _ _ _ Hk) as Hnd. simpl in Hnd. apply NoDup_cons in Hnd as [Hab _].
  pose proof (kabs_alloc kend Hend k a (b :: l) refs Hk) as Hk1. set (k1 := mkkmem _ _ _) in Hk1.
  pose proof (kabs_alloc kend Hend k1 b l _ Hk1) as Hk2. set (k2 := mkkmem _ _ _) in Hk2.
  assert (Ea : kalloc c k = Ret a c k1).
  { rewrite kalloc_run by done. cbv zeta. rewrite (chain_head_ok kend _ _ Hk). cbn [pfree]. by rewrite (proj2 (Z.eqb_neq a 0)) by (by apply (page_ok_nonzero kend)). }
  assert (Eb : kalloc c k1 = Ret b c k2).
  { rewrite kalloc_run by done. cbv zeta. rewrite (chain_head_ok kend _ _ Hk1). cbn [pfree]. by rewrite (proj2 (Z.eqb_neq b 0)) by (by apply (page_ok_nonzero kend)). }
  eexists k2, _, a, b. split; [|split; [exact Hk2|split; [set_solver|done]]].
  unfold test_proc_init. erewrite kbind_ret by (apply (test_slot_ok 0 _ _ _ _ a k1); [exact Ea|by apply (page_ok_nonzero kend)]). cbn beta.
  rewrite (test_slot_ok 1 _ _ _ _ b k2); [reflexivity|exact Eb|by apply (page_ok_nonzero kend)].
Qed.

(** ** Witness *)

#[local] Instance one_register : Bus Z := { bus_load _ d := (d, d); bus_store _ x _ := x }.

Lemma main_boots_witness :
  ∃ s' p T stk tf pt T1,
    main (KERNBASE + 0x80000) (KERNBASE + 0x9000) (KERNBASE + 0x8000) 0x201000 0x202000 0 0x200000 (mkctx [] [] 0)
      (power_on (mkhart (λ _, 0) 0) (mkcpu 0 false false) (λ _, initlock) (replicate NDEV (mkdevsw None None)) (λ _, 0) (λ _, 0) 2000 [] (mksb 0 0 0 0 0 0 0 0) [] (λ _, mkpipe [] 0 0 false false)) =
      Ret tt (mkctx [] [] 0) s' ∧
    up_mem (KERNBASE + 0x80000) (KERNBASE + 0x9000) (KERNBASE + 0x8000) (kernel_pagetable s') (ps_mem (ps_of (m_k s'))) p T stk tf pt T1 ∧
    ps_initproc (ps_of (m_k s')) = Some 0%nat.
Proof.
  destruct (main_boots (D := Z) (KERNBASE + 0x80000) (KERNBASE + 0x9000) (KERNBASE + 0x8000) 0x201000 0x202000 0 0x200000 [] 0
    (mkhart (λ _, 0) 0) (mkcpu 0 false false) (λ _, initlock) (replicate NDEV (mkdevsw None None)) (λ _, 0) (λ _, 0) 2000 [] (mksb 0 0 0 0 0 0 0 0) [] (λ _, mkpipe [] 0 0 false false))
    as (s' & p & T & stk & tf & pt & T1 & E & Hm & _ & _ & _ & _ & _ & _ & _ & _ & Hi & _); [done..|apply Nat.ltb_lt; reflexivity|by intros d|].
  exists s', p, T, stk, tf, pt, T1. split; [exact E|]. split; [exact Hm|exact Hi].
Defined.
