(* ===== verification/Mkfs.v ===== *)
(** * Building the file system image (mkfs/mkfs.c)

    [mkfs] runs on the build machine and writes the image the kernel mounts.  Its state is the
    image file, a list of blocks that grows when a block past its end is written, the superblock and the two
    counters of the allocator.  [die], a usage error and a failing assertion end the program: they are
    [Panic].  The files to be stored come from the build machine ([host]): opening one fails or gives the results
    of the successive calls of read until it returns 0.  The build machine is little-endian and its image file
    does not fail; messages are left out.

    The format is that of file Fs, whose accessors are used here, so that the last theorem can
    mount the image and read the files back with the functions of the kernel. *)

From stdpp Require Import base list functions sets numbers strings.
From Stdlib Require Import ZArith Lia.
From S2P Require Import Prelude Machine Kstring BlockCache Sleeplock Bio Log TxStore Fs.

Definition NINODES : Z := 200.
Definition nbitmap : Z := FSSIZE / BPB + 1.
Definition ninodeblocks : Z := NINODES / IPB + 1.
Definition nlog : Z := LOGBLOCKS + 1.
Definition nmeta : Z := 2 + nlog + ninodeblocks + nbitmap.
Definition nblocks : Z := FSSIZE - nmeta.
Definition zeroes : block := replicate bsize 0.

Record mkst := mkmk {
  fsimg : list block;
  sb : superblock;
  freeinode : Z;
  freeblock : Z
}.
Definition set_img (l : list block) (s : mkst) : mkst := mkmk l (sb s) (freeinode s) (freeblock s).
Definition set_sb (x : superblock) (s : mkst) : mkst := mkmk (fsimg s) x (freeinode s) (freeblock s).
Definition set_freeinode (n : Z) (s : mkst) : mkst := mkmk (fsimg s) (sb s) n (freeblock s).
Definition set_freeblock (n : Z) (s : mkst) : mkst := mkmk (fsimg s) (sb s) (freeinode s) n.

Abbreviation MK := (M mkst).

(** The bytes of [y] are those of [x] in the order of the RISC-V machine. *)
Definition xshort (x : Z) : Z := le_combine [u8 x; u8 (Z.shiftr x 8)].
Definition xint (x : Z) : Z := le_combine [u8 x; u8 (Z.shiftr x 8); u8 (Z.shiftr x 16); u8 (Z.shiftr x 24)].

(** ** The image file *)

(** [lseek(fsfd, sec * BSIZE, 0)]; the product is an unsigned int. *)
Definition sector (sec : Z) : nat := Z.to_nat (u32 (sec * BSIZE) / BSIZE).

(** A write past the end of a file leaves a hole, which reads as zeros. *)
Definition img_write (img : list block) (k : nat) (buf : block) : list block :=
  if (k <? length img)%nat then <[k:=buf]> img else img ++ replicate (k - length img) zeroes ++ [buf].

Definition wsect (sec : Z) (buf : block) : MK unit :=
  kmod (λ s, set_img (img_write (fsimg s) (sector sec) buf) s).

Definition rsect (sec : Z) : MK block :=
  do s <- kget;
  match fsimg s !! sector sec with
  | Some buf => kret buf
  | None => panic "read"
  end.

(** ** Inodes *)

Definition winode (inum : Z) (ip : dinode) : MK unit :=
  do s <- kget;
  let bn := IBLOCK inum (sb s) in
  do buf <- rsect bn;
  wsect bn (put_dinode buf (dinode_off inum) ip).

Definition rinode (inum : Z) : MK dinode :=
  do s <- kget;
  do buf <- rsect (IBLOCK inum (sb s));
  kret (get_dinode buf (dinode_off inum)).

Definition ialloc (type : Z) : MK Z :=
  do s <- kget;
  let inum := freeinode s in
  kmod (set_freeinode (u32 (inum + 1))) ;;;
  winode inum (mkdinode (s16 (xshort type)) 0 0 (s16 (xshort 1)) (xint 0) (replicate (Z.to_nat (NDIRECT + 1)) 0)) ;;;
  kret inum.

Definition set_daddr (k : Z) (a : Z) (d : dinode) : dinode :=
  mkdinode (d_type d) (d_major d) (d_minor d) (d_nlink d) (d_size d) (<[Z.to_nat k:=a]> (d_addrs d)).
Definition set_dsize (n : Z) (d : dinode) : dinode :=
  mkdinode (d_type d) (d_major d) (d_minor d) (d_nlink d) n (d_addrs d).
Definition daddr (d : dinode) (k : Z) : Z := nth (Z.to_nat k) (d_addrs d) 0.

(** [freeblock++] *)
Definition next_block : MK Z :=
  do s <- kget;
  kmod (set_freeblock (u32 (freeblock s + 1))) ;;;
  kret (freeblock s).

(** The block for block [fbn] of the file, allocated if there is none: the inode and the block. *)
Definition append_block (din : dinode) (fbn : Z) : MK (dinode * Z) :=
  if fbn <? NDIRECT then
    do din <- (if xint (daddr din fbn) =? 0 then do b <- next_block; kret (set_daddr fbn (xint b) din) else kret din);
    kret (din, xint (daddr din fbn))
  else
    do din <- (if xint (daddr din NDIRECT) =? 0 then do b <- next_block; kret (set_daddr NDIRECT (xint b) din)
               else kret din);
    do indirect <- rsect (xint (daddr din NDIRECT));
    do indirect <- (if ind_get indirect (fbn - NDIRECT) =? 0 then
                      do b <- next_block;
                      let indirect := st32 indirect (Z.to_nat (4 * (fbn - NDIRECT))) (xint b) in
                      wsect (xint (daddr din NDIRECT)) indirect ;;; kret indirect
                    else kret indirect);
    kret (din, xint (ind_get indirect (fbn - NDIRECT))).

(** The loop of [iappend]; [p] is the rest of the data. *)
Fixpoint iappend_loop (fuel : nat) (din : dinode) (off : Z) (p : list Z) (n : Z) : MK (dinode * Z) :=
  if 0 <? n then
    match fuel with
    | O => nofuel
    | S fuel' =>
        let fbn := off / BSIZE in
        if negb (fbn <? MAXFILE) then panic "assert(fbn < MAXFILE)" else
        do r <- append_block din fbn;
        let n1 := Z.min n (u32 ((fbn + 1) * BSIZE - off)) in
        do buf <- rsect r.2;
        wsect r.2 (splice buf (Z.to_nat (off - fbn * BSIZE)) (take (Z.to_nat n1) p)) ;;;
        iappend_loop fuel' r.1 (u32 (off + n1)) (drop (Z.to_nat n1) p) (n - n1)
    end
  else kret (din, off).

Definition iappend (inum : Z) (xp : list Z) (n : Z) : MK unit :=
  do din <- rinode inum;
  do r <- iappend_loop (rw_fuel n) din (xint (d_size din)) xp n;
  winode inum (set_dsize (xint r.2) r.1).

(** ** The bitmap *)

Fixpoint set_bits (n : nat) (i : Z) (buf : block) : block :=
  match n with
  | O => buf
  | S n' => set_bits n' (i + 1) (bit_set buf i)
  end.

Definition balloc (used : Z) : MK unit :=
  if negb (used <? BPB) then panic "assert(used < BPB)" else
  do s <- kget;
  wsect (sb_bmapstart (sb s)) (set_bits (Z.to_nat used) 0 zeroes).

(** ** main *)

Record host := mkhost {
  h_create : list Z → bool;                   (* open(argv[1], O_RDWR|O_CREAT|O_TRUNC, 0666) succeeds *)
  h_open : list Z → option (list (list Z))    (* open(argv[i], 0), and what read then returns, call by call *)
}.

Definition superblock_bytes (x : superblock) : list Z :=
  le_split 4 (sb_magic x) ++ le_split 4 (sb_size x) ++ le_split 4 (sb_nblocks x) ++ le_split 4 (sb_ninodes x) ++
  le_split 4 (sb_nlog x) ++ le_split 4 (sb_logstart x) ++ le_split 4 (sb_inodestart x) ++ le_split 4 (sb_bmapstart x).

Definition new_sb : superblock :=
  mksb FSMAGIC (xint FSSIZE) (xint nblocks) (xint NINODES) (xint nlog) (xint 2) (xint (2 + nlog))
    (xint (2 + nlog + ninodeblocks)).

(** [strcpy] into the name of a cleared entry. *)
Definition strcpy_dirent (inum : Z) (name : list Z) : list Z :=
  le_split 2 (xshort inum) ++ splice (replicate (Z.to_nat DIRSIZ) 0) 0 (name ++ [0]).
Definition strncpy_dirent (inum : Z) (name : list Z) : list Z := le_split 2 (xshort inum) ++ dirent_pad name.

Definition USER_DIR : list Z := [117; 115; 101; 114; 47].   (* "user/" *)
Definition UNDERSCORE : Z := 95.
Definition DOT : Z := 46.

Definition strip_dir (arg : list Z) : list Z := if decide (take 5 arg = USER_DIR) then drop 5 arg else arg.
Definition strip_underscore (name : list Z) : list Z :=
  match name with
  | x :: name' => if x =? UNDERSCORE then name' else name
  | [] => []
  end.

(** while((cc = read(fd, buf, sizeof(buf))) > 0) iappend(inum, buf, cc) *)
Fixpoint copy_file (inum : Z) (chunks : list (list Z)) : MK unit :=
  match chunks with
  | [] => kret tt
  | buf :: chunks' => iappend inum buf (Z.of_nat (length buf)) ;;; copy_file inum chunks'
  end.

(** One iteration of the loop over the arguments. *)
Definition add_file (h : host) (rootino : Z) (arg : list Z) : MK unit :=
  let shortname := strip_dir arg in
  if decide (SLASH ∈ shortname) then panic "assert(index(shortname, '/') == 0)" else
  match h_open h arg with
  | None => panic "open"
  | Some chunks =>
      let shortname := strip_underscore shortname in
      if negb (Z.of_nat (length shortname) <=? DIRSIZ) then panic "assert(strlen(shortname) <= DIRSIZ)" else
      do inum <- ialloc T_FILE;
      iappend rootino (strncpy_dirent inum shortname) sizeof_dirent ;;;
      copy_file inum chunks
  end.

Fixpoint add_files (h : host) (rootino : Z) (args : list (list Z)) : MK unit :=
  match args with
  | [] => kret tt
  | arg :: args' => add_file h rootino arg ;;; add_files h rootino args'
  end.

(** fix size of root inode dir *)
Definition fix_root (rootino : Z) : MK unit :=
  do din <- rinode rootino;
  let off := xint (d_size din) in
  let off := u32 ((off / BSIZE + 1) * BSIZE) in
  winode rootino (set_dsize (xint off) din).

Definition mkfs_main (h : host) (argv : list (list Z)) : MK unit :=
  match argv with
  | _ :: img :: files =>
      if negb (h_create h img) then panic "open" else
      kmod (set_img []) ;;;
      kmod (set_sb new_sb) ;;;
      kmod (set_freeblock nmeta) ;;;
      kfor (Z.to_nat FSSIZE) 0 (λ i, wsect i zeroes) ;;;
      wsect 1 (splice zeroes 0 (superblock_bytes new_sb)) ;;;
      do rootino <- ialloc T_DIR;
      if negb (rootino =? ROOTINO) then panic "assert(rootino == ROOTINO)" else
      iappend rootino (strcpy_dirent rootino [DOT]) sizeof_dirent ;;;
      iappend rootino (strcpy_dirent rootino [DOT; DOT]) sizeof_dirent ;;;
      add_files h rootino files ;;;
      fix_root rootino ;;;
      do s <- kget;
      balloc (freeblock s)
  | _ => panic "Usage: mkfs fs.img files..."
  end.

(** The state when the program starts: no image, the initial values of the global variables. *)
Definition mkfs_init : mkst := mkmk [] (mksb 0 0 0 0 0 0 0 0) 1 0.

(** ** What is in an image

    A file of the image is described by its inode, its bytes, the number of data blocks it has and whether it has an
    indirect block.  Its blocks are named by slots: [0 .. fe_nb) for the data, [IND] for the indirect block. *)
Record fentry := mkfe {
  fe_d : dinode;
  fe_bs : list Z;
  fe_nb : Z;
  fe_ind : bool
}.

Definition blk (img : list block) (b : Z) : block := img !!! Z.to_nat b.
(** The in-memory inode that [ilock] makes of a dinode. *)
Definition dfile (d : dinode) : inode := load_dinode d inode0.

Definition IND : Z := -1.
Definition slot_addr (img : list block) (d : dinode) (s : Z) : Z :=
  if s =? IND then daddr d NDIRECT else fblock (blk img) (dfile d) s.
Definition has_slot (e : fentry) (s : Z) : Prop := (0 <= s < fe_nb e) ∨ (s = IND ∧ fe_ind e = true).

(** File [e] is stored in data blocks below [fb]: its addresses are in range, the unused ones are 0, and
    the bytes of its blocks are its contents followed by zeros. *)
Record file_ok (img : list block) (fb : Z) (e : fentry) : Prop := mkfok {
  fo_addrs : length (d_addrs (fe_d e)) = Z.to_nat (NDIRECT + 1);
  fo_range : Forall (λ a, 0 <= a < 2 ^ 32) (d_addrs (fe_d e));
  fo_nb : 0 <= fe_nb e <= MAXFILE;
  fo_len : Z.of_nat (length (fe_bs e)) <= fe_nb e * BSIZE;
  fo_ind : NDIRECT < fe_nb e → fe_ind e = true;
  fo_slot : ∀ s, has_slot e s → nmeta <= slot_addr img (fe_d e) s < fb;
  fo_direct : ∀ k, fe_nb e <= k < NDIRECT → daddr (fe_d e) k = 0;
  fo_noind : fe_ind e = false → daddr (fe_d e) NDIRECT = 0;
  fo_rest : ∀ k, fe_ind e = true → Z.max NDIRECT (fe_nb e) <= k < MAXFILE →
    ind_get (blk img (daddr (fe_d e) NDIRECT)) (k - NDIRECT) = 0;
  fo_bytes : ∀ x, 0 <= x < fe_nb e * BSIZE → fbyte (blk img) (dfile (fe_d e)) x = nth (Z.to_nat x) (fe_bs e) 0
}.

(** Blocks a file uses. *)
Definition fe_used (e : fentry) : Z := fe_nb e + Z.b2z (fe_ind e).
Definition used_blocks (es : list fentry) : Z := foldr (λ e n, fe_used e + n) 0 es.

(** The data area: the files lie in the blocks [nmeta .. fb), no two slots share a block, and the blocks from
    [fb] on are zero. *)
Record layout (img : list block) (fb : Z) (es : list fentry) : Prop := mklay {
  ly_len : length img = Z.to_nat FSSIZE;
  ly_blk : ∀ b, 0 <= b < FSSIZE → length (blk img b) = bsize;
  ly_files : ∀ k e, es !! k = Some e → file_ok img fb e;
  ly_disj : ∀ k e s k' e' s', es !! k = Some e → es !! k' = Some e' → has_slot e s → has_slot e' s' →
    slot_addr img (fe_d e) s = slot_addr img (fe_d e') s' → k = k' ∧ s = s';
  ly_zero : ∀ b, fb <= b < FSSIZE → blk img b = zeroes;
  ly_fb : fb = nmeta + used_blocks es;
  ly_max : fb <= FSSIZE
}.

(** The numbers of the layout, for [lia]. *)
Ltac mkconst := change nmeta with 47 in *; change FSSIZE with 2000 in *; change MAXFILE with 268 in *;
  change NDIRECT with 12 in *; change BSIZE with 1024 in *; change NINODES with 200 in *; change IND with (-1) in *;
  change NINDIRECT with 256 in *.
Ltac mklia := mkconst; Z.div_mod_to_equations; lia.

Lemma length_zeroes : length zeroes = bsize.
Proof. apply length_replicate. Qed.

Lemma blk_insert_eq img b buf : 0 <= b → (Z.to_nat b < length img)%nat → blk (<[Z.to_nat b:=buf]> img) b = buf.
Proof. intros. unfold blk. by apply list_lookup_total_insert_eq. Qed.

Lemma blk_insert_ne img b b' buf : 0 <= b → 0 <= b' → b ≠ b' → blk (<[Z.to_nat b:=buf]> img) b' = blk img b'.
Proof. intros. unfold blk. apply list_lookup_total_insert_ne. lia. Qed.

Lemma used_blocks_insert es k e e' : es !! k = Some e → used_blocks (<[k:=e']> es) = used_blocks es - fe_used e + fe_used e'.
Proof.
  revert k. induction es as [|x es IH]; intros [|k] Hk; simpl in *; try done.
  - injection Hk as ->. lia.
  - rewrite (IH k Hk). lia.
Qed.

Lemma used_blocks_app es e : used_blocks (es ++ [e]) = used_blocks es + fe_used e.
Proof. induction es as [|x es IH]; simpl in *; [lia|]. rewrite IH. lia. Qed.

(** Changing blocks that are not those of a file leaves the file as it is. *)
Lemma slot_addr_frame img img' fb e s :
  file_ok img fb e → (∀ s, has_slot e s → blk img' (slot_addr img (fe_d e) s) = blk img (slot_addr img (fe_d e) s)) →
  has_slot e s → slot_addr img' (fe_d e) s = slot_addr img (fe_d e) s.
Proof.
  intros Hok Hsame Hs. unfold slot_addr. destruct (Z.eqb_spec s IND); [done|]. unfold fblock.
  destruct (Z.ltb_spec s NDIRECT); [done|]. destruct Hs as [Hs|[? _]]; [|done].
  specialize (Hsame IND). unfold slot_addr in Hsame. rewrite Z.eqb_refl in Hsame.
  change (nth (Z.to_nat NDIRECT) (i_addrs (dfile (fe_d e))) 0) with (daddr (fe_d e) NDIRECT).
  rewrite Hsame; [done|]. right. split; [done|]. apply (fo_ind _ _ _ Hok). lia.
Qed.

Lemma file_ok_frame img img' fb fb' e :
  file_ok img fb e → (∀ s, has_slot e s → blk img' (slot_addr img (fe_d e) s) = blk img (slot_addr img (fe_d e) s)) →
  fb <= fb' → file_ok img' fb' e.
Proof.
  intros Hok Hsame Hfb. pose proof (λ s, slot_addr_frame img img' fb e s Hok Hsame) as Ha. destruct Hok as [H1 H2 H3 H4 H5 H6 H7 H8 H9 H10].
  split; try done.
  - intros s Hs. rewrite Ha by done. specialize (H6 s Hs). lia.
  - intros k Hi Hk. specialize (Hsame IND). unfold slot_addr in Hsame. rewrite Z.eqb_refl in Hsame.
    rewrite Hsame by (by right). by apply H9.
  - intros x Hx. rewrite <- (H10 x Hx). unfold fbyte.
    assert (Hs : has_slot e (x / BSIZE)) by (left; mklia).
    pose proof (Ha _ Hs) as E. pose proof (Hsame _ Hs) as E'. unfold slot_addr in E, E'.
    rewrite (proj2 (Z.eqb_neq _ _)) in E, E' by mklia. by rewrite E, E'.
Qed.

(** File [k] changes: blocks of other files are kept, at most the slot [new] is added, in a fresh block. *)
Lemma layout_update img fb es k e img' fb' e' new :
  layout img fb es → es !! k = Some e → length img' = length img →
  (∀ b, 0 <= b < FSSIZE → length (blk img' b) = bsize) →
  (∀ b, nmeta <= b < fb → (∀ s, has_slot e s → slot_addr img (fe_d e) s ≠ b) → blk img' b = blk img b) →
  (∀ b, fb' <= b < FSSIZE → blk img' b = zeroes) →
  file_ok img' fb' e' → fb' = fb - fe_used e + fe_used e' → fb <= fb' <= FSSIZE →
  (∀ s, has_slot e' s → (has_slot e s ∧ slot_addr img' (fe_d e') s = slot_addr img (fe_d e) s) ∨
                        (s = new ∧ fb <= slot_addr img' (fe_d e') s)) →
  layout img' fb' (<[k:=e']> es).
Proof.
  intros [L1 L2 L3 L4 L5 L6 L7] Hk Hlen Hbl Hkeep Hz Hok Hfb Hle Hslot. pose proof (lookup_lt_Some _ _ _ Hk) as Hlt.
  assert (Hfr : ∀ j x, j ≠ k → es !! j = Some x →
    ∀ s, has_slot x s → blk img' (slot_addr img (fe_d x) s) = blk img (slot_addr img (fe_d x) s)).
  { intros j x Hj Hx s Hs. apply Hkeep; [by apply (fo_slot _ _ _ (L3 j x Hx))|]. intros s' Hs' E.
    by destruct (L4 k e s' j x s Hk Hx Hs' Hs E) as [-> _]. }
  assert (Hno : ∀ j x s s', j ≠ k → es !! j = Some x → has_slot x s → has_slot e' s' →
    slot_addr img' (fe_d x) s ≠ slot_addr img' (fe_d e') s').
  { intros j x s s' Hj Hx Hs Hs' E. rewrite (slot_addr_frame img img' fb x s) in E by eauto.
    pose proof (fo_slot _ _ _ (L3 j x Hx) s Hs). destruct (Hslot s' Hs') as [[Hs2 E2]|[_ Hge]]; [|lia].
    rewrite E2 in E. by destruct (L4 j x s k e s' Hx Hk Hs Hs2 E). }
  split; [lia|done|..|done| |lia].
  - intros j x Hx. destruct (decide (j = k)) as [->|Hj].
    + rewrite list_lookup_insert_eq in Hx by done. by injection Hx as <-.
    + rewrite list_lookup_insert_ne in Hx by done. eapply file_ok_frame; [by eapply L3|by eauto|lia].
  - intros j x s j' x' s' Hx Hx' Hs Hs' E. destruct (decide (j = k)) as [->|Hj], (decide (j' = k)) as [->|Hj'];
      [rewrite list_lookup_insert_eq in Hx by done; rewrite list_lookup_insert_eq in Hx' by done
      |rewrite list_lookup_insert_eq in Hx by done; rewrite list_lookup_insert_ne in Hx' by done
      |rewrite list_lookup_insert_ne in Hx by done; rewrite list_lookup_insert_eq in Hx' by done
      |rewrite list_lookup_insert_ne in Hx by done; rewrite list_lookup_insert_ne in Hx' by done]; simplify_eq.
    + split; [done|]. destruct (Hslot s Hs) as [[H1 E1]|[-> H1]], (Hslot s' Hs') as [[H2 E2]|[-> H2]]; [|exfalso..|done].
      * apply (L4 k e s k e s' Hk Hk H1 H2). congruence.
      * pose proof (fo_slot _ _ _ (L3 k e Hk) s H1). lia.
      * pose proof (fo_slot _ _ _ (L3 k e Hk) s' H2). lia.
    + by destruct (Hno j' x' s' s Hj' Hx' Hs' Hs).
    + by destruct (Hno j x s s' Hj Hx Hs Hs').
    + rewrite (slot_addr_frame img img' _ x s (L3 _ _ Hx)), (slot_addr_frame img img' _ x' s' (L3 _ _ Hx')) in E by eauto.
      by eapply (L4 j x s j' x' s').
  - rewrite (used_blocks_insert es k e e' Hk). lia.
Qed.

Lemma layout_fb img fb es : layout img fb es → nmeta <= fb <= FSSIZE.
Proof.
  intros L. split; [|apply L]. rewrite (ly_fb _ _ _ L). cut (0 <= used_blocks es); [lia|]. pose proof (ly_files _ _ _ L) as Hf.
  clear L. induction es as [|x es IH]; simpl; [lia|]. pose proof (fo_nb _ _ _ (Hf 0%nat x eq_refl)).
  assert (0 <= used_blocks es) by (apply IH; intros j y Hy; by apply (Hf (S j))).
  unfold fe_used. destruct (fe_ind x); simpl; lia.
Qed.

(** *** Addresses *)

Lemma daddr_set k j a d :
  0 <= k < NDIRECT + 1 → 0 <= j → length (d_addrs d) = Z.to_nat (NDIRECT + 1) → daddr (set_daddr k a d) j = if j =? k then a else daddr d j.
Proof.
  intros Hk Hj Hl. unfold daddr, set_daddr. cbn [d_addrs]. rewrite !nth_lookup. destruct (Z.eqb_spec j k) as [->|Hne].
  - by rewrite list_lookup_insert_eq by lia.
  - by rewrite list_lookup_insert_ne by lia.
Qed.

Lemma slot_direct img d s : 0 <= s < NDIRECT → slot_addr img d s = daddr d s.
Proof. intros. unfold slot_addr, fblock. mkconst. by rewrite (proj2 (Z.eqb_neq _ _)), (proj2 (Z.ltb_lt _ _)) by lia. Qed.

Lemma slot_indirect img d s : NDIRECT <= s → slot_addr img d s = ind_get (blk img (daddr d NDIRECT)) (s - NDIRECT).
Proof.
  intros. unfold slot_addr, fblock, daddr. mkconst. by rewrite (proj2 (Z.eqb_neq _ _)), (proj2 (Z.ltb_ge _ _)) by lia.
Qed.

Lemma slot_ind img d : slot_addr img d IND = daddr d NDIRECT.
Proof. done. Qed.

Lemma slot_fblock img d s : 0 <= s → fblock (blk img) (dfile d) s = slot_addr img d s.
Proof. intros. unfold slot_addr. by rewrite (proj2 (Z.eqb_neq _ _)) by (mkconst; lia). Qed.

Lemma fbyte_slot img d x : 0 <= x →
  fbyte (blk img) (dfile d) x = nth (Z.to_nat (x mod BSIZE)) (blk img (slot_addr img d (x / BSIZE))) 0.
Proof. intros. unfold fbyte. by rewrite slot_fblock by mklia. Qed.

Lemma addrs_range k a d : 0 <= a < 2 ^ 32 → Forall (λ a, 0 <= a < 2 ^ 32) (d_addrs d) →
  Forall (λ a, 0 <= a < 2 ^ 32) (d_addrs (set_daddr k a d)).
Proof. intros. by apply Forall_insert. Qed.

Lemma nth_zeroes k : nth k zeroes 0 = 0.
Proof. unfold zeroes. generalize bsize. intros n. revert k. induction n as [|n IH]; intros [|k]; simpl; auto. Qed.

(** A fresh block has only zeros, as the contents of the file beyond its end. *)
Lemma fresh_bytes img d bs (nb fb x : Z) :
  slot_addr img d nb = fb → blk img fb = zeroes → Z.of_nat (length bs) <= nb * BSIZE → 0 <= nb → nb * BSIZE <= x < (nb + 1) * BSIZE →
  fbyte (blk img) (dfile d) x = nth (Z.to_nat x) bs 0.
Proof.
  intros Hs Hz Hl Hn Hx. rewrite fbyte_slot by mklia. replace (x / BSIZE) with nb by mklia.
  rewrite Hs, Hz, nth_zeroes. symmetry. apply nth_overflow. mklia.
Qed.

(** *** Allocation *)

Definition add_direct (fb : Z) (e : fentry) : fentry :=
  mkfe (set_daddr (fe_nb e) fb (fe_d e)) (fe_bs e) (fe_nb e + 1) (fe_ind e).

Lemma layout_add_direct img fb es k e :
  layout img fb es → es !! k = Some e → fe_nb e < NDIRECT → fb < FSSIZE → layout img (fb + 1) (<[k:=add_direct fb e]> es).
Proof.
  intros L Hk Hnb Hfb. pose proof (ly_files _ _ _ L k e Hk) as Hok. pose proof Hok as [H1 H2 H3 H4 H5 H6 H7 H8 H9 H10].
  pose proof (ly_fb _ _ _ L) as Efb. pose proof (ly_zero _ _ _ L fb ltac:(lia)) as Hz.
  set (d' := set_daddr (fe_nb e) fb (fe_d e)).
  pose proof (layout_fb _ _ _ L) as Hfb0.
  assert (Hd : ∀ j, 0 <= j → daddr d' j = if j =? fe_nb e then fb else daddr (fe_d e) j) by (intros; apply daddr_set; mkconst; lia || done).
  assert (Hslot : ∀ s, has_slot e s → slot_addr img d' s = slot_addr img (fe_d e) s).
  { intros s Hs. destruct (decide (s = IND)) as [->|Hi].
    - rewrite !slot_ind, Hd by (mkconst; lia). by rewrite (proj2 (Z.eqb_neq _ _)) by lia.
    - destruct Hs as [Hs|[? _]]; [|done]. rewrite !slot_direct, Hd by lia. by rewrite (proj2 (Z.eqb_neq _ _)) by lia. }
  assert (Hnew : slot_addr img d' (fe_nb e) = fb) by (rewrite slot_direct, Hd, Z.eqb_refl by lia; done).
  assert (Hinv : ∀ s, has_slot (add_direct fb e) s → has_slot e s ∨ s = fe_nb e).
  { intros s [Hs|Hs]; [|left; by right]. simpl in Hs. destruct (decide (s = fe_nb e)); [by right|]. left. left. lia. }
  apply (layout_update img fb es k e img (fb + 1) (add_direct fb e) (fe_nb e)); try done; try (intros; eapply L; lia).
  - split; cbn [add_direct fe_d fe_bs fe_nb fe_ind]; fold d'; try done.
    + unfold d', set_daddr. cbn [d_addrs]. by rewrite length_insert.
    + apply addrs_range; [mkconst; lia|done].
    + mkconst; lia.
    + mkconst; lia.
    + intros; apply H5. lia.
    + intros s [Hs| ->]%Hinv; [rewrite Hslot by done; specialize (H6 s Hs); lia|]. rewrite Hnew. lia.
    + intros j Hj. rewrite Hd by lia. rewrite (proj2 (Z.eqb_neq _ _)) by lia. apply H7. lia.
    + intros Hi. rewrite Hd by (mkconst; lia). rewrite (proj2 (Z.eqb_neq _ _)) by lia. by apply H8.
    + intros j Hi Hj. rewrite Hd by (mkconst; lia). rewrite (proj2 (Z.eqb_neq _ _)) by lia. apply H9; [done|lia].
    + intros x Hx. destruct (decide (x < fe_nb e * BSIZE)).
      * rewrite <- (H10 x) by lia. rewrite !fbyte_slot by lia. rewrite Hslot; [done|]. left. mklia.
      * apply (fresh_bytes img d' (fe_bs e) (fe_nb e) fb); try done; lia.
  - unfold fe_used. simpl. lia.
  - lia.
  - intros s [Hs| ->]%Hinv; [left|right].
    + split; [done|]. by apply Hslot.
    + split; [done|]. cbn [add_direct fe_d]. fold d'. lia.
Qed.

Definition add_ind (fb : Z) (e : fentry) : fentry :=
  mkfe (set_daddr NDIRECT fb (fe_d e)) (fe_bs e) (fe_nb e) true.

Lemma slice_replicate {A} (x : A) n o m : slice (replicate n x) o m = replicate (m `min` (n - o)) x.
Proof. unfold slice. by rewrite drop_replicate, take_replicate. Qed.

Lemma le_combine_zeros n : le_combine (replicate n 0) = 0.
Proof. induction n as [|n IH]; simpl; [done|]. rewrite IH. done. Qed.

Lemma ind_get_zeroes j : ind_get zeroes j = 0.
Proof. unfold ind_get, ld32, zeroes. by rewrite slice_replicate, le_combine_zeros. Qed.

Lemma layout_add_ind img fb es k e :
  layout img fb es → es !! k = Some e → fe_ind e = false → fb < FSSIZE → layout img (fb + 1) (<[k:=add_ind fb e]> es).
Proof.
  intros L Hk Hind Hfb. pose proof (ly_files _ _ _ L k e Hk) as Hok. pose proof Hok as [H1 H2 H3 H4 H5 H6 H7 H8 H9 H10].
  pose proof (ly_zero _ _ _ L fb ltac:(lia)) as Hz. pose proof (layout_fb _ _ _ L) as Hfb0.
  set (d' := set_daddr NDIRECT fb (fe_d e)).
  assert (Hle : fe_nb e <= NDIRECT) by (destruct (decide (NDIRECT < fe_nb e)); [rewrite H5 in Hind by done; done|lia]).
  assert (Hd : ∀ j, 0 <= j → daddr d' j = if j =? NDIRECT then fb else daddr (fe_d e) j) by (intros; apply daddr_set; mkconst; lia || done).
  assert (Hslot : ∀ s, has_slot e s → slot_addr img d' s = slot_addr img (fe_d e) s).
  { intros s [Hs|[_ Hs]]; [|congruence]. rewrite !slot_direct, Hd by lia. by rewrite (proj2 (Z.eqb_neq _ _)) by lia. }
  assert (Hnew : slot_addr img d' IND = fb) by (rewrite slot_ind, Hd, Z.eqb_refl by (mkconst; lia); done).
  assert (Hinv : ∀ s, has_slot (add_ind fb e) s → has_slot e s ∨ s = IND) by (intros s [Hs|[-> _]]; [left; by left|by right]).
  apply (layout_update img fb es k e img (fb + 1) (add_ind fb e) IND); try done; try (intros; eapply L; lia).
  - split; cbn [add_ind fe_d fe_bs fe_nb fe_ind]; fold d'; try done.
    + unfold d', set_daddr. cbn [d_addrs]. by rewrite length_insert.
    + apply addrs_range; [mkconst; lia|done].
    + intros s [Hs| ->]%Hinv; [rewrite Hslot by done; specialize (H6 s Hs); lia|]. rewrite Hnew. lia.
    + intros j Hj. rewrite Hd by lia. rewrite (proj2 (Z.eqb_neq _ _)) by lia. apply H7. lia.
    + intros j Hi Hj. rewrite slot_ind in Hnew. by rewrite Hnew, Hz, ind_get_zeroes.
    + intros x Hx. rewrite <- (H10 x) by lia. rewrite !fbyte_slot by lia. rewrite Hslot; [done|]. left. mklia.
  - unfold fe_used. simpl. rewrite Hind. simpl. lia.
  - lia.
  - intros s [Hs| ->]%Hinv; [left|right].
    + split; [done|]. by apply Hslot.
    + split; [done|]. cbn [add_ind fe_d]. fold d'. lia.
Qed.

(** Setting an entry of the indirect block. *)
Definition ind_set (d : block) (j v : Z) : block := st32 d (Z.to_nat (4 * j)) v.

Lemma ind_get_set d i j v :
  length d = bsize → 0 <= i < NINDIRECT → 0 <= j < NINDIRECT → 0 <= v < 2 ^ 32 →
  ind_get (ind_set d i v) j = if j =? i then v else ind_get d j.
Proof.
  intros Hl Hi Hj Hv. unfold ind_get, ind_set, bsize in *. mkconst. destruct (Z.eqb_spec j i) as [->|Hne].
  - rewrite ld32_st32 by lia. by apply u32_small.
  - apply ld32_st32_ne; lia.
Qed.

Lemma length_ind_set d i v : length d = bsize → 0 <= i < NINDIRECT → length (ind_set d i v) = bsize.
Proof. intros Hl Hi. unfold ind_set. rewrite length_st32; [done|]. unfold bsize in *. mkconst. lia. Qed.

Definition add_indirect (e : fentry) : fentry := mkfe (fe_d e) (fe_bs e) (fe_nb e + 1) (fe_ind e).

Lemma layout_add_indirect img fb es k e (a := daddr (fe_d e) NDIRECT) :
  layout img fb es → es !! k = Some e → fe_ind e = true → NDIRECT <= fe_nb e < MAXFILE → fb < FSSIZE →
  layout (<[Z.to_nat a:=ind_set (blk img a) (fe_nb e - NDIRECT) fb]> img) (fb + 1) (<[k:=add_indirect e]> es).
Proof.
  intros L Hk Hind Hnb Hfb. pose proof (ly_files _ _ _ L k e Hk) as Hok. pose proof Hok as [H1 H2 H3 H4 H5 H6 H7 H8 H9 H10].
  pose proof (ly_zero _ _ _ L fb ltac:(lia)) as Hz. pose proof (layout_fb _ _ _ L) as Hfb0. pose proof (ly_len _ _ _ L) as Hlen.
  assert (HsI : has_slot e IND) by (by right). pose proof (H6 IND HsI) as Ha. rewrite slot_ind in Ha. fold a in Ha.
  pose proof (ly_blk _ _ _ L a ltac:(mkconst; lia)) as Hbl. set (img' := <[Z.to_nat a:=_]> img).
  assert (Ea : blk img' a = ind_set (blk img a) (fe_nb e - NDIRECT) fb) by (apply blk_insert_eq; mkconst; lia).
  assert (Eo : ∀ b, 0 <= b → b ≠ a → blk img' b = blk img b) by (intros; apply blk_insert_ne; mkconst; lia).
  assert (Hs : ∀ s, 0 <= s < MAXFILE → slot_addr img' (fe_d e) s = if s =? fe_nb e then fb else slot_addr img (fe_d e) s).
  { intros s Hs. destruct (decide (s < NDIRECT)).
    - rewrite !slot_direct by lia. by rewrite (proj2 (Z.eqb_neq _ _)) by lia.
    - rewrite !slot_indirect by lia. fold a. rewrite Ea, ind_get_set by (done || (mkconst; lia)).
      destruct (Z.eqb_spec (s - NDIRECT) (fe_nb e - NDIRECT)), (Z.eqb_spec s (fe_nb e)); done || lia. }
  assert (Hslot : ∀ s, has_slot e s → slot_addr img' (fe_d e) s = slot_addr img (fe_d e) s).
  { intros s [Hs'|[-> _]]; [|done]. rewrite Hs by lia. by rewrite (proj2 (Z.eqb_neq _ _)) by lia. }
  assert (Hnew : slot_addr img' (fe_d e) (fe_nb e) = fb) by (rewrite Hs, Z.eqb_refl by (mkconst; lia); done).
  assert (Hinv : ∀ s, has_slot (add_indirect e) s → has_slot e s ∨ s = fe_nb e).
  { intros s [Hs'|Hs']; [|left; by right]. simpl in Hs'. destruct (decide (s = fe_nb e)); [by right|]. left. left. lia. }
  apply (layout_update img fb es k e img' (fb + 1) (add_indirect e) (fe_nb e)); try done.
  - apply length_insert.
  - intros b Hb. destruct (decide (b = a)) as [->|]; [rewrite Ea; apply length_ind_set; [done|mkconst; lia]|].
    rewrite Eo by (mkconst; lia). by apply L.
  - intros b Hb Hno. apply Eo; [mkconst; lia|]. intros ->. by apply (Hno IND HsI).
  - intros b Hb. rewrite Eo by (mkconst; lia). apply L. lia.
  - split; cbn [add_indirect fe_d fe_bs fe_nb fe_ind]; try done.
    + mkconst; lia.
    + mkconst; lia.
    + intros s [Hs'| ->]%Hinv; [rewrite Hslot by done; specialize (H6 s Hs'); lia|]. rewrite Hnew. lia.
    + intros j Hj. lia.
    + intros j Hi Hj. fold a. rewrite Ea, ind_get_set by (done || (mkconst; lia)). rewrite (proj2 (Z.eqb_neq _ _)) by lia.
      apply H9; [done|lia].
    + intros x Hx. destruct (decide (x < fe_nb e * BSIZE)).
      * assert (Hx' : has_slot e (x / BSIZE)) by (left; mklia). rewrite <- (H10 x) by lia. rewrite !fbyte_slot by lia.
        rewrite Hslot by done. rewrite Eo; [done|specialize (H6 _ Hx'); mkconst; lia|]. intros E.
        destruct (ly_disj _ _ _ L k e (x / BSIZE) k e IND Hk Hk Hx' HsI E) as [_ E']. mklia.
      * apply (fresh_bytes img' (fe_d e) (fe_bs e) (fe_nb e) fb); try done; try lia. rewrite Eo by (mkconst; lia). done.
  - unfold fe_used. simpl. lia.
  - lia.
  - intros s [Hs'| ->]%Hinv; [left|right]; (split; [done|]); cbn [add_indirect fe_d]; [by apply Hslot|lia].
Qed.

(** *** Writing *)

Lemma nth_splice d o l i :
  (o + length l ≤ length d)%nat →
  nth i (splice d o l) 0 = if decide (o ≤ i < o + length l)%nat then nth (i - o) l 0 else nth i d (0 : Z).
Proof.
  intros Hl. unfold splice. destruct (decide _) as [Hi|Hi].
  - rewrite app_nth2, app_nth1; rewrite length_take; [|lia..]. f_equal. lia.
  - destruct (decide (i < o)%nat).
    + rewrite app_nth1 by (rewrite length_take; lia). rewrite !nth_lookup. by rewrite lookup_take_lt.
    + rewrite app_nth2, app_nth2; rewrite length_take; [|lia..]. rewrite !nth_lookup, lookup_drop. do 2 f_equal. lia.
Qed.

Definition add_bytes (p : list Z) (e : fentry) : fentry := mkfe (fe_d e) (fe_bs e ++ p) (fe_nb e) (fe_ind e).

Lemma layout_add_bytes img fb es k e p (off := Z.of_nat (length (fe_bs e))) (b := slot_addr img (fe_d e) (off / BSIZE)) :
  layout img fb es → es !! k = Some e → off / BSIZE < fe_nb e → off mod BSIZE + Z.of_nat (length p) <= BSIZE →
  layout (<[Z.to_nat b:=splice (blk img b) (Z.to_nat (off mod BSIZE)) p]> img) fb (<[k:=add_bytes p e]> es).
Proof.
  intros L Hk Hj Hp. pose proof (ly_files _ _ _ L k e Hk) as Hok. pose proof Hok as [H1 H2 H3 H4 H5 H6 H7 H8 H9 H10].
  pose proof (layout_fb _ _ _ L) as Hfb0. pose proof (ly_len _ _ _ L) as Hlen.
  assert (Ho : 0 <= off) by lia. assert (HsJ : has_slot e (off / BSIZE)) by (left; mklia).
  pose proof (H6 _ HsJ) as Hb. fold b in Hb. pose proof (ly_blk _ _ _ L b ltac:(mkconst; lia)) as Hbl. set (img' := <[Z.to_nat b:=_]> img).
  assert (Hfit : (Z.to_nat (off mod BSIZE) + length p ≤ length (blk img b))%nat) by (rewrite Hbl; unfold bsize; mklia).
  assert (Eb : blk img' b = splice (blk img b) (Z.to_nat (off mod BSIZE)) p) by (apply blk_insert_eq; mkconst; lia).
  assert (Eo : ∀ b', 0 <= b' → b' ≠ b → blk img' b' = blk img b') by (intros; apply blk_insert_ne; mkconst; lia).
  assert (Ha : fe_ind e = true → blk img' (daddr (fe_d e) NDIRECT) = blk img (daddr (fe_d e) NDIRECT)).
  { intros Hi. assert (HsI : has_slot e IND) by (by right). pose proof (H6 _ HsI) as Hr. rewrite slot_ind in Hr.
    apply Eo; [mkconst; lia|]. intros E. destruct (ly_disj _ _ _ L k e IND k e (off / BSIZE) Hk Hk HsI HsJ E) as [_ E']. mklia. }
  assert (Hslot : ∀ s, has_slot e s → slot_addr img' (fe_d e) s = slot_addr img (fe_d e) s).
  { intros s [Hs|[-> _]]; [|done]. destruct (decide (s < NDIRECT)); [by rewrite !slot_direct by lia|].
    rewrite !slot_indirect, Ha by (lia || (apply H5; lia)). done. }
  apply (layout_update img fb es k e img' fb (add_bytes p e) 0); try done; try lia.
  - apply length_insert.
  - intros b' Hb'. destruct (decide (b' = b)) as [->|]; [|rewrite Eo by lia; by apply L]. rewrite Eb, length_splice by done. done.
  - intros b' Hb' Hno. apply Eo; [mkconst; lia|]. intros ->. by apply (Hno _ HsJ).
  - intros b' Hb'. rewrite Eo by (mkconst; lia). apply L. lia.
  - split; cbn [add_bytes fe_d fe_bs fe_nb fe_ind]; try done.
    + rewrite length_app. fold off. mklia.
    + intros s Hs. by rewrite Hslot; [apply H6|].
    + intros j Hi Hj'. rewrite Ha by done. by apply H9.
    + intros x Hx. assert (Hx' : has_slot e (x / BSIZE)) by (left; mklia). rewrite fbyte_slot, Hslot by (done || lia).
      pose proof (H10 x Hx) as E. rewrite fbyte_slot in E by lia.
      assert (Eout : (x < off ∨ off + Z.of_nat (length p) <= x) → nth (Z.to_nat x) (fe_bs e ++ p) 0 = nth (Z.to_nat x) (fe_bs e) 0).
      { intros [Hlt|Hge]; [by rewrite app_nth1 by lia|]. rewrite !nth_overflow; [done|lia|rewrite length_app; lia]. }
      destruct (decide (x / BSIZE = off / BSIZE)) as [Eq|Hne].
      * rewrite Eq in *. fold b in E |- *. rewrite Eb, nth_splice by done. destruct (decide _) as [Hin|Hout].
        -- rewrite app_nth2 by (fold off; mklia). f_equal. mklia.
        -- rewrite E, Eout by mklia. done.
      * rewrite Eo, E, Eout; [done|mklia|specialize (H6 _ Hx'); mkconst; lia|]. intros E'.
        by destruct (ly_disj _ _ _ L k e (x / BSIZE) k e (off / BSIZE) Hk Hk Hx' HsJ E').
  - unfold fe_used. simpl. lia.
  - intros s Hs. left. split; [exact Hs|]. cbn [add_bytes fe_d]. by apply Hslot.
Qed.

(** ** Running the program *)

Lemma xint_id x : 0 <= x < 2 ^ 32 → xint x = x.
Proof. intros. unfold xint, u8. cbn [le_combine]. rewrite !Z.shiftr_div_pow2 by lia. Z.div_mod_to_equations. lia. Qed.

Lemma xshort_id x : 0 <= x < 2 ^ 16 → xshort x = x.
Proof. intros. unfold xshort, u8. cbn [le_combine]. rewrite !Z.shiftr_div_pow2 by lia. Z.div_mod_to_equations. lia. Qed.

Lemma sector_id b : 0 <= b < FSSIZE → sector b = Z.to_nat b.
Proof. intros. unfold sector. mkconst. rewrite u32_small by lia. f_equal. mklia. Qed.

Lemma rsect_ret c s b : 0 <= b < FSSIZE → length (fsimg s) = Z.to_nat FSSIZE → rsect b c s = Ret (blk (fsimg s) b) c s.
Proof.
  intros Hb Hl. unfold rsect. kexec. rewrite sector_id by done. unfold blk.
  rewrite (list_lookup_lookup_total_lt (fsimg s) (Z.to_nat b)) by (rewrite Hl; lia). done.
Qed.

Lemma wsect_ret c s b buf : 0 <= b < FSSIZE → length (fsimg s) = Z.to_nat FSSIZE →
  wsect b buf c s = Ret tt c (set_img (<[Z.to_nat b:=buf]> (fsimg s)) s).
Proof.
  intros Hb Hl. unfold wsect, img_write. kexec. rewrite sector_id by done.
  by rewrite (proj2 (Nat.ltb_lt _ _)) by (rewrite Hl; lia).
Qed.

(** Only data blocks and the block counter have changed. *)
Record data_only (s s' : mkst) : Prop := mkdo {
  do_sb : sb s' = sb s;
  do_ino : freeinode s' = freeinode s;
  do_meta : ∀ b, 0 <= b < nmeta → blk (fsimg s') b = blk (fsimg s) b
}.

#[global] Instance data_only_preorder : PreOrder data_only.
Proof.
  split.
  - by intros s.
  - intros s1 s2 s3 [A1 A2 A3] [B1 B2 B3]. split; [congruence..|]. intros b Hb. by rewrite B3, A3.
Qed.

(** The fields of an inode that [iappend] does not touch until its end. *)
Definition attrs (d : dinode) := (d_type d, d_major d, d_minor d, d_nlink d, d_size d).

Lemma attrs_size d t ma mi nl n : attrs d = (t, ma, mi, nl, n) → d_size d = n.
Proof. by intros [= _ _ _ _ ?]. Qed.

Lemma attrs_type d t ma mi nl n : attrs d = (t, ma, mi, nl, n) → d_type d = t.
Proof. by intros [= ? _ _ _ _]. Qed.
Lemma attrs_nlink d t ma mi nl n : attrs d = (t, ma, mi, nl, n) → d_nlink d = nl.
Proof. by intros [= _ _ _ ? _]. Qed.

(** Blocks of a file of [n] bytes, and all the blocks it takes when it has [nb] of them. *)
Definition nblk (n : Z) : Z := (n + (BSIZE - 1)) / BSIZE.
Definition need (nb : Z) : Z := nb + Z.b2z (NDIRECT <? nb).

Abbreviation data_ok s es := (layout (fsimg s) (freeblock s) es).

Lemma next_block_ret c s : 0 <= freeblock s < FSSIZE → next_block c s = Ret (freeblock s) c (set_freeblock (freeblock s + 1) s).
Proof. intros. unfold next_block. kexec. by rewrite u32_small by (mkconst; lia). Qed.

Lemma slot_nonzero s es k e sl : data_ok s es → es !! k = Some e → has_slot e sl →
  slot_addr (fsimg s) (fe_d e) sl ≠ 0 ∧ nmeta <= slot_addr (fsimg s) (fe_d e) sl < FSSIZE.
Proof.
  intros L Hk Hs. pose proof (fo_slot _ _ _ (ly_files _ _ _ L k e Hk) sl Hs). pose proof (layout_fb _ _ _ L). mkconst. lia.
Qed.

(** The indirect block, allocated if there is none. *)
Lemma append_ind c s es k e :
  data_ok s es → es !! k = Some e → freeblock s + 1 - Z.b2z (fe_ind e) <= FSSIZE →
  ∃ e' s', (if xint (daddr (fe_d e) NDIRECT) =? 0 then do b <- next_block; kret (set_daddr NDIRECT (xint b) (fe_d e)) else kret (fe_d e)) c s
      = Ret (fe_d e') c s' ∧ data_ok s' (<[k:=e']> es) ∧ data_only s s' ∧ freeblock s' = freeblock s + 1 - Z.b2z (fe_ind e) ∧
    fe_ind e' = true ∧ fe_bs e' = fe_bs e ∧ fe_nb e' = fe_nb e ∧ attrs (fe_d e') = attrs (fe_d e).
Proof.
  intros L Hk Hroom. pose proof (layout_fb _ _ _ L) as Hfb. pose proof (ly_files _ _ _ L k e Hk) as Hok. destruct (fe_ind e) eqn:Ei.
  - destruct (slot_nonzero s es k e IND L Hk) as [Hnz Hr]; [by right|]. rewrite slot_ind in Hnz, Hr.
    rewrite xint_id, (proj2 (Z.eqb_neq _ _)) by (done || (mkconst; lia)). exists e, s. rewrite list_insert_id by done.
    split_and!; try done. simpl. lia.
  - rewrite (fo_noind _ _ _ Hok Ei). change (xint 0 =? 0) with true. cbn iota. simpl Z.b2z in *.
    kstep (next_block_ret c s ltac:(mkconst; lia)). rewrite xint_id by (mkconst; lia).
    exists (add_ind (freeblock s) e), (set_freeblock (freeblock s + 1) s). split_and!; try done; [|simpl; lia].
    apply layout_add_ind; try done. lia.
Qed.

(** The entry of the indirect block, allocated if it is 0. *)
Lemma append_entry c s es k e fbn :
  data_ok s es → es !! k = Some e → fe_ind e = true → NDIRECT <= fbn < MAXFILE → fbn <= fe_nb e <= fbn + 1 →
  freeblock s + (fbn + 1 - fe_nb e) <= FSSIZE →
  ∃ e' s', (do indirect <- rsect (xint (daddr (fe_d e) NDIRECT));
            do indirect <- (if ind_get indirect (fbn - NDIRECT) =? 0 then
                              do b <- next_block;
                              let indirect := st32 indirect (Z.to_nat (4 * (fbn - NDIRECT))) (xint b) in
                              wsect (xint (daddr (fe_d e) NDIRECT)) indirect ;;; kret indirect
                            else kret indirect);
            kret (fe_d e, xint (ind_get indirect (fbn - NDIRECT)))) c s
      = Ret (fe_d e', slot_addr (fsimg s') (fe_d e') fbn) c s' ∧ data_ok s' (<[k:=e']> es) ∧ data_only s s' ∧
    freeblock s' = freeblock s + (fbn + 1 - fe_nb e) ∧ fe_ind e' = true ∧ fe_bs e' = fe_bs e ∧ fe_nb e' = fbn + 1 ∧
    attrs (fe_d e') = attrs (fe_d e).
Proof.
  intros L Hk Hi Hf Hnb Hroom. pose proof (layout_fb _ _ _ L) as Hfb. pose proof (ly_files _ _ _ L k e Hk) as Hok. pose proof (ly_len _ _ _ L) as Hlen.
  destruct (slot_nonzero s es k e IND L Hk) as [Hnz Hr]; [by right|]. rewrite slot_ind in Hnz, Hr. set (a := daddr (fe_d e) NDIRECT) in *.
  rewrite xint_id by (mkconst; lia). kstep (rsect_ret c s a ltac:(mkconst; lia) Hlen).
  destruct (decide (fe_nb e = fbn)) as [E|E].
  - pose proof (fo_rest _ _ _ Hok fbn Hi ltac:(mkconst; lia)) as Er. fold a in Er. rewrite Er. cbn [Z.eqb].
    rewrite kbind_assoc. kstep (next_block_ret c s ltac:(mkconst; lia)). cbv zeta. rewrite kbind_assoc.
    rewrite xint_id by (mkconst; lia). set (s1 := set_freeblock (freeblock s + 1) s).
    change (st32 (blk (fsimg s) a) (Z.to_nat (4 * (fbn - NDIRECT))) (freeblock s)) with (ind_set (blk (fsimg s) a) (fbn - NDIRECT) (freeblock s)).
    kstep (wsect_ret c s1 a (ind_set (blk (fsimg s) a) (fbn - NDIRECT) (freeblock s)) ltac:(mkconst; lia) Hlen). kexec.
    pose proof (layout_add_indirect (fsimg s) (freeblock s) es k e L Hk Hi ltac:(lia) ltac:(lia)) as L'. fold a in L'.
    pose proof (ly_blk _ _ _ L a ltac:(mkconst; lia)) as Hbl.
    assert (Ea : blk (<[Z.to_nat a:=ind_set (blk (fsimg s) a) (fbn - NDIRECT) (freeblock s)]> (fsimg s)) a = ind_set (blk (fsimg s) a) (fbn - NDIRECT) (freeblock s)).
    { apply blk_insert_eq; mkconst; lia. }
    exists (add_indirect e), (set_img (<[Z.to_nat a:=ind_set (blk (fsimg s) a) (fbn - NDIRECT) (freeblock s)]> (fsimg s)) s1).
    split_and!; try done; try (simpl; lia).
    + f_equal. f_equal. cbn [add_indirect fe_d fsimg set_img]. rewrite slot_indirect by lia. fold a. rewrite Ea.
      rewrite ind_get_set, Z.eqb_refl by (done || (mkconst; lia)). apply xint_id. mkconst; lia.
    + by rewrite <- E.
    + split; try done. intros b Hb. apply blk_insert_ne; mkconst; lia.
  - assert (E' : fe_nb e = fbn + 1) by lia. destruct (slot_nonzero s es k e fbn L Hk) as [Hnz' Hr']; [left; mkconst; lia|].
    rewrite slot_indirect in Hnz', Hr' by lia. fold a in Hnz', Hr'. rewrite (proj2 (Z.eqb_neq _ _)) by done. kexec.
    exists e, s. rewrite list_insert_id by done. split_and!; try done; try lia. rewrite slot_indirect by lia. fold a.
    by rewrite xint_id by (mkconst; lia).
Qed.

(** A file between two calls of [iappend]: the blocks are those its size needs. *)
Record tidy (e : fentry) : Prop := mktidy {
  td_nb : fe_nb e = nblk (Z.of_nat (length (fe_bs e)));
  td_ind : fe_ind e = (NDIRECT <? fe_nb e)
}.

Lemma tidy_used e : tidy e → fe_used e = need (nblk (Z.of_nat (length (fe_bs e)))).
Proof. intros [E1 E2]. unfold fe_used, need. by rewrite E2, E1. Qed.

Lemma append_block_ok c s es k e (fbn := Z.of_nat (length (fe_bs e)) / BSIZE) :
  data_ok s es → es !! k = Some e → tidy e → fbn < MAXFILE → freeblock s + need (fbn + 1) - fe_used e <= FSSIZE →
  ∃ e' s', append_block (fe_d e) fbn c s = Ret (fe_d e', slot_addr (fsimg s') (fe_d e') fbn) c s' ∧
    data_ok s' (<[k:=e']> es) ∧ data_only s s' ∧ freeblock s' = freeblock s + need (fbn + 1) - fe_used e ∧
    fe_bs e' = fe_bs e ∧ fe_nb e' = fbn + 1 ∧ fe_ind e' = (NDIRECT <? fe_nb e') ∧ attrs (fe_d e') = attrs (fe_d e).
Proof.
  intros L Hk [Hnb Hi] Hf Hroom. pose proof (layout_fb _ _ _ L) as Hfb. pose proof (ly_files _ _ _ L k e Hk) as Hok.
  assert (Hf0 : 0 <= fbn) by (unfold fbn; mklia). assert (Hcase : fbn <= fe_nb e <= fbn + 1) by (rewrite Hnb; unfold nblk, fbn; mklia).
  unfold append_block, fe_used, need in *. destruct (Z.ltb_spec fbn NDIRECT) as [Hd|Hd].
  - rewrite (proj2 (Z.ltb_ge NDIRECT (fbn + 1))) in * by lia. rewrite Hi, (proj2 (Z.ltb_ge NDIRECT (fe_nb e))) in * by lia. simpl Z.b2z in *.
    destruct (decide (fe_nb e = fbn)) as [E|E].
    + rewrite (fo_direct _ _ _ Hok) by lia. change (xint 0 =? 0) with true. cbn iota. rewrite kbind_assoc.
      kstep (next_block_ret c s ltac:(mkconst; lia)). rewrite xint_id by (mkconst; lia). kexec.
      pose proof (layout_add_direct (fsimg s) (freeblock s) es k e L Hk ltac:(lia) ltac:(lia)) as L'.
      exists (add_direct (freeblock s) e), (set_freeblock (freeblock s + 1) s). split_and!; try done; try (simpl; lia).
      * cbn [add_direct fe_d]. rewrite E, slot_direct, daddr_set, Z.eqb_refl by (apply Hok || (mkconst; lia)). by rewrite xint_id by (mkconst; lia).
      * simpl. rewrite Hi. symmetry. apply Z.ltb_ge. lia.
    + destruct (slot_nonzero s es k e fbn L Hk) as [Hnz Hr]; [left; lia|]. rewrite slot_direct in Hnz, Hr by lia.
      rewrite !xint_id, (proj2 (Z.eqb_neq _ _)) by (done || (mkconst; lia)). kexec. exists e, s. rewrite list_insert_id, slot_direct by (done || lia).
      split_and!; try done; try lia; [by rewrite xint_id by (mkconst; lia)|]. by rewrite Hi, (proj2 (Z.ltb_ge NDIRECT (fe_nb e))) by lia.
  - rewrite (proj2 (Z.ltb_lt NDIRECT (fbn + 1))) in * by lia. change (Z.b2z true) with 1 in *.
    assert (Hsub : fe_nb e <= fbn + 1) by lia. destruct (append_ind c s es k e L Hk) as (e1 & s1 & E1 & L1 & D1 & F1 & I1 & B1 & N1 & A1).
    { destruct (fe_ind e); simpl in *; lia. }
    pose proof (lookup_lt_Some _ _ _ Hk) as Hlt.
    destruct (append_entry c s1 (<[k:=e1]> es) k e1 fbn L1) as (e2 & s2 & E2 & L2 & D2 & F2 & I2 & B2 & N2 & A2);
      [by apply list_lookup_insert_eq|done|lia|lia|lia|].
    kstep E1. exists e2, s2. rewrite list_insert_insert_eq in L2. split_and!; try done; [by transitivity s1|lia|congruence| |congruence].
    rewrite I2, N2. symmetry. apply Z.ltb_lt. lia.
Qed.

Lemma nblk_div n : 0 <= n → nblk n <= n / BSIZE + 1.
Proof. unfold nblk. mklia. Qed.

Lemma nblk_mono a b : a <= b → nblk a <= nblk b.
Proof. unfold nblk. mklia. Qed.

Lemma need_mono a b : a <= b → need a <= need b.
Proof. intros. unfold need. destruct (Z.ltb_spec NDIRECT a), (Z.ltb_spec NDIRECT b); simpl; lia. Qed.

(** The loop of [iappend] appends all the data to the file. *)
Lemma iappend_loop_ok fuel c s es k e p (off := Z.of_nat (length (fe_bs e))) (n := Z.of_nat (length p)) :
  data_ok s es → es !! k = Some e → tidy e → off + n <= MAXFILE * BSIZE →
  freeblock s + need (nblk (off + n)) - fe_used e <= FSSIZE → (0 < n → n + off mod BSIZE <= BSIZE * Z.of_nat fuel) →
  ∃ e' s', iappend_loop fuel (fe_d e) off p n c s = Ret (fe_d e', off + n) c s' ∧
    data_ok s' (<[k:=e']> es) ∧ data_only s s' ∧ fe_bs e' = fe_bs e ++ p ∧ tidy e' ∧ attrs (fe_d e') = attrs (fe_d e).
Proof.
  subst off n. revert c s es e p. induction fuel as [|fuel IH]; intros c s es e p L Hk Ht Hmax Hroom Hfuel;
    set (off := Z.of_nat (length (fe_bs e))) in *; set (n := Z.of_nat (length p)) in *; cbn [iappend_loop];
    destruct (Z.ltb_spec 0 n) as [Hn|Hn];
    try (assert (p = []) as -> by (apply nil_length_inv; lia); exists e, s; rewrite app_nil_r, list_insert_id by done;
         split_and!; try done; f_equal; f_equal; lia).
  { specialize (Hfuel Hn). mklia. }
  specialize (Hfuel Hn). assert (Hoff : 0 <= off) by lia. assert (Hf : off / BSIZE < MAXFILE) by mklia. rewrite (proj2 (Z.ltb_lt _ _)) by done. cbn [negb].
  assert (Hnn : nblk (off + n) >= off / BSIZE + 1) by (unfold nblk; mklia).
  pose proof (need_mono (off / BSIZE + 1) (nblk (off + n)) ltac:(lia)) as Hneed.
  destruct (append_block_ok c s es k e L Hk Ht) as (e1 & s1 & E1 & L1 & D1 & F1 & B1 & N1 & I1 & A1); [done|fold off; lia|].
  fold off in E1, F1, N1. kstep E1. cbn [fst snd]. rewrite u32_small by mklia.
  set (n1 := Z.min n ((off / BSIZE + 1) * BSIZE - off)). assert (Hn1 : 0 < n1 <= n) by (unfold n1; mklia).
  assert (Hn1' : off mod BSIZE + n1 <= BSIZE) by (unfold n1; mklia).
  pose proof (lookup_lt_Some _ _ _ Hk) as Hlt. assert (Hk1 : <[k:=e1]> es !! k = Some e1) by (by apply list_lookup_insert_eq).
  destruct (slot_nonzero s1 (<[k:=e1]> es) k e1 (off / BSIZE) L1 Hk1) as [_ Hr]; [left; mklia|].
  set (b := slot_addr (fsimg s1) (fe_d e1) (off / BSIZE)) in *. kstep (rsect_ret c s1 b ltac:(mkconst; lia) (ly_len _ _ _ L1)).
  kstep (wsect_ret c s1 b (splice (blk (fsimg s1) b) (Z.to_nat (off - off / BSIZE * BSIZE)) (take (Z.to_nat n1) p)) ltac:(mkconst; lia) (ly_len _ _ _ L1)).
  pose proof (layout_add_bytes (fsimg s1) (freeblock s1) (<[k:=e1]> es) k e1 (take (Z.to_nat n1) p) L1 Hk1) as L2.
  rewrite B1 in L2. fold off in L2. fold b in L2. rewrite length_take, list_insert_insert_eq in L2.
  specialize (L2 ltac:(lia) ltac:(lia)). replace (off - off / BSIZE * BSIZE) with (off mod BSIZE) by mklia.
  set (s2 := set_img _ s1). set (e2 := add_bytes (take (Z.to_nat n1) p) e1) in *.
  assert (E2l : Z.of_nat (length (fe_bs e2)) = off + n1) by (cbn [e2 add_bytes fe_bs]; rewrite B1, length_app, length_take; lia).
  assert (Edl : Z.of_nat (length (drop (Z.to_nat n1) p)) = n - n1) by (rewrite length_drop; lia).
  assert (Enb : fe_nb e1 = nblk (off + n1)) by (rewrite N1; unfold nblk; mklia).
  assert (T2 : tidy e2) by (split; [rewrite E2l; exact Enb|exact I1]).
  destruct (IH c s2 (<[k:=e2]> es) e2 (drop (Z.to_nat n1) p)) as (e3 & s3 & E3 & L3 & D3 & B3 & T3 & A3).
  - exact L2.
  - by apply list_lookup_insert_eq.
  - done.
  - rewrite E2l, Edl. lia.
  - rewrite E2l, Edl. replace (off + n1 + (n - n1)) with (off + n) by lia.
    rewrite (tidy_used e2 T2), E2l, <- Enb, N1. change (freeblock s2) with (freeblock s1). rewrite F1. lia.
  - rewrite E2l, Edl. intros Hn2. unfold n1 in *. mklia.
  - rewrite E2l, Edl in E3. rewrite u32_small by mklia. exists e3, s3. rewrite list_insert_insert_eq in L3.
    split_and!; [|done| | |done|by etransitivity; [exact A3|exact A1]].
    { etransitivity; [exact E3|]. f_equal. f_equal. lia. }
    2: { rewrite B3. cbn [e2 add_bytes fe_bs]. by rewrite B1, <- app_assoc, take_drop. }
    transitivity s1; [done|]. transitivity s2; [|done]. split; try done. intros b' Hb'. apply blk_insert_ne; mkconst; lia.
Qed.

(** ** The image as a list of byte strings

    [holds s bss]: inode [1 + k] of the image of [s] is a file with the bytes [bss !! k], the first one being
    the root directory. *)
Definition kind_of (k : nat) : Z := if (k =? 0)%nat then T_DIR else T_FILE.

Record image_inv (s : mkst) (es : list fentry) : Prop := mkiv {
  iv_sb : sb s = new_sb;
  iv_data : data_ok s es;
  iv_ino : freeinode s = 1 + Z.of_nat (length es);
  iv_max : 1 + Z.of_nat (length es) <= NINODES;
  iv_tidy : ∀ k e, es !! k = Some e → tidy e;
  iv_attrs : ∀ k e, es !! k = Some e → attrs (fe_d e) = (kind_of k, 0, 0, 1, Z.of_nat (length (fe_bs e)));
  iv_disk : ∀ k e, es !! k = Some e → disk_inode new_sb (blk (fsimg s)) (1 + Z.of_nat k) = fe_d e;
  iv_super : blk (fsimg s) 1 = splice zeroes 0 (superblock_bytes new_sb);
  iv_log : blk (fsimg s) 2 = zeroes
}.

Definition holds (s : mkst) (bss : list (list Z)) : Prop := ∃ es, image_inv s es ∧ fe_bs <$> es = bss.

(** Blocks taken by the metadata and the files. *)
Definition space (bss : list (list Z)) : Z := nmeta + foldr (λ bs n, need (nblk (Z.of_nat (length bs))) + n) 0 bss.

Lemma holds_freeblock s es : image_inv s es → freeblock s = space (fe_bs <$> es).
Proof.
  intros I. rewrite (ly_fb _ _ _ (iv_data _ _ I)). unfold space. f_equal. pose proof (iv_tidy _ _ I) as Ht. clear I.
  induction es as [|e es IH]; [done|]. simpl. rewrite IH by (intros k; apply (Ht (S k))). by rewrite (tidy_used e (Ht 0%nat e eq_refl)).
Qed.

Lemma space_insert bss k bs bs' : bss !! k = Some bs →
  space (<[k:=bs']> bss) = space bss - need (nblk (Z.of_nat (length bs))) + need (nblk (Z.of_nat (length bs'))).
Proof.
  unfold space. revert k. induction bss as [|x bss IH]; intros [|k] Hk; simpl in *; try done.
  - injection Hk as ->. lia.
  - specialize (IH k Hk). lia.
Qed.

Lemma space_app bss bs : space (bss ++ [bs]) = space bss + need (nblk (Z.of_nat (length bs))).
Proof. unfold space. induction bss as [|x bss IH]; simpl in *; lia. Qed.

(** Where the inodes are. *)
Lemma iblock_range (inum : Z) : 0 <= inum < NINODES → 33 <= IBLOCK inum new_sb < 46.
Proof.
  intros H. unfold IBLOCK. change (sb_inodestart new_sb) with 33. change IPB with 16. mkconst. rewrite u32_small; mklia.
Qed.

(** Writing a block in front of the data area. *)
Lemma layout_meta img fb es b buf :
  layout img fb es → 0 <= b < nmeta → length buf = bsize → layout (<[Z.to_nat b:=buf]> img) fb es.
Proof.
  intros L Hb Hl. pose proof L as [L1 L2 L3 L4 L5 L6 L7]. pose proof (layout_fb _ _ _ L) as Hfb. set (img' := <[Z.to_nat b:=buf]> img).
  assert (Eo : ∀ x, 0 <= x → x ≠ b → blk img' x = blk img x) by (intros; apply blk_insert_ne; lia).
  assert (Hfr : ∀ k e, es !! k = Some e → ∀ s, has_slot e s → blk img' (slot_addr img (fe_d e) s) = blk img (slot_addr img (fe_d e) s)).
  { intros k e Hk s Hs. pose proof (fo_slot _ _ _ (L3 k e Hk) s Hs). apply Eo; mkconst; lia. }
  split; try done.
  - by unfold img'; rewrite length_insert.
  - intros x Hx. destruct (decide (x = b)) as [->|]; [unfold img'; rewrite blk_insert_eq by (mkconst; lia); done|]. rewrite Eo by lia. by apply L2.
  - intros k e Hk. eapply file_ok_frame; [by eapply L3|by eapply Hfr|lia].
  - intros k e x k' e' x' Hk Hk' Hx Hx'. rewrite (slot_addr_frame img img' fb e x), (slot_addr_frame img img' fb e' x') by eauto. by apply L4.
  - intros x Hx. rewrite Eo by (mkconst; lia). by apply L5.
Qed.

Definition put_inode (img : list block) (inum : Z) (d : dinode) : list block :=
  let bn := IBLOCK inum new_sb in <[Z.to_nat bn:=put_dinode (blk img bn) (dinode_off inum) d]> img.

Lemma winode_ret c s inum d : sb s = new_sb → 0 <= inum < NINODES → length (fsimg s) = Z.to_nat FSSIZE →
  winode inum d c s = Ret tt c (set_img (put_inode (fsimg s) inum d) s).
Proof.
  intros Hsb Hi Hl. pose proof (iblock_range inum Hi). unfold winode.
  rewrite (kbind_ret _ _ _ _ s c s) by done. cbn beta. rewrite Hsb.
  kstep (rsect_ret c s (IBLOCK inum new_sb) ltac:(mkconst; lia) Hl). by rewrite wsect_ret by (mkconst; done || lia).
Qed.

Lemma rinode_ret c s inum : sb s = new_sb → 0 <= inum < NINODES → length (fsimg s) = Z.to_nat FSSIZE →
  rinode inum c s = Ret (disk_inode new_sb (blk (fsimg s)) inum) c s.
Proof.
  intros Hsb Hi Hl. pose proof (iblock_range inum Hi). unfold rinode.
  rewrite (kbind_ret _ _ _ _ s c s) by done. cbn beta. rewrite Hsb.
  by kstep (rsect_ret c s (IBLOCK inum new_sb) ltac:(mkconst; lia) Hl).
Qed.

Lemma put_inode_layout img fb es inum d : layout img fb es → 0 <= inum < NINODES → length (d_addrs d) = Z.to_nat (NDIRECT + 1) →
  layout (put_inode img inum d) fb es.
Proof.
  intros L Hi Hd. pose proof (iblock_range inum Hi). apply layout_meta; [done|mkconst; lia|].
  pose proof (ly_blk _ _ _ L (IBLOCK inum new_sb) ltac:(mkconst; lia)) as Hl.
  rewrite length_put_dinode; [done|by apply dinode_off_fits|done].
Qed.

(** A dinode written is the one read; the others are kept. *)
Lemma put_inode_disk img fb es inum d i : layout img fb es → 0 <= inum < NINODES → 0 <= i < NINODES → dinode_ok d →
  disk_inode new_sb (blk (put_inode img inum d)) i = if decide (i = inum) then d else disk_inode new_sb (blk img) i.
Proof.
  intros L Hi Hj Hd. pose proof (iblock_range inum Hi). pose proof (iblock_range i Hj). pose proof (ly_len _ _ _ L).
  pose proof (ly_blk _ _ _ L (IBLOCK inum new_sb) ltac:(mkconst; lia)) as Hl. unfold disk_inode, put_inode. cbv zeta.
  destruct (decide (i = inum)) as [->|Hne].
  - rewrite blk_insert_eq by (mkconst; lia). apply get_put_dinode; [by apply dinode_off_fits|done].
  - destruct (decide (IBLOCK i new_sb = IBLOCK inum new_sb)) as [E|E].
    + rewrite E, blk_insert_eq by (mkconst; lia). apply get_put_dinode_ne; [by apply dinode_off_fits|apply Hd|].
      apply (dinode_off_apart _ _ new_sb); mkconst; done || lia.
    + by rewrite blk_insert_ne by lia.
Qed.

Lemma put_inode_other img inum d b : 0 <= inum < NINODES → 0 <= b → ~ (33 <= b < 46) → blk (put_inode img inum d) b = blk img b.
Proof. intros Hi Hb Hn. pose proof (iblock_range inum Hi). apply blk_insert_ne; lia. Qed.

Definition resize (n : Z) (e : fentry) : fentry := mkfe (set_dsize n (fe_d e)) (fe_bs e) (fe_nb e) (fe_ind e).

(** The size in the inode plays no part in the layout. *)
Lemma layout_resize img fb es k e n : layout img fb es → es !! k = Some e → layout img fb (<[k:=resize n e]> es).
Proof.
  intros L Hk. apply (layout_update img fb es k e img fb (resize n e) 0); try done; try (intros; by eapply L).
  - destruct (ly_files _ _ _ L k e Hk). by split.
  - unfold fe_used. simpl. lia.
  - pose proof (layout_fb _ _ _ L). lia.
  - intros s Hs. by left.
Qed.

Lemma dinode_ok_at img fb k e n : file_ok img fb e → attrs (fe_d e) = (kind_of k, 0, 0, 1, n) → 0 <= n < 2 ^ 32 → dinode_ok (fe_d e).
Proof.
  intros Hok [= E1 E2 E3 E4 E5] Hn. unfold dinode_ok. rewrite E1, E2, E3, E4, E5.
  assert (0 <= kind_of k < 10) by (unfold kind_of, T_DIR, T_FILE; destruct (k =? 0)%nat; lia).
  split_and!; try lia; [apply Hok..].
Qed.

(** The whole of [iappend]: the loop on the data blocks, then the inode is written. *)
Lemma iappend_inv c s es k e p (n := Z.of_nat (length p)) :
  image_inv s es → es !! k = Some e → Z.of_nat (length (fe_bs e)) + n <= MAXFILE * BSIZE →
  freeblock s + need (nblk (Z.of_nat (length (fe_bs e)) + n)) - fe_used e <= FSSIZE →
  ∃ s' e', iappend (1 + Z.of_nat k) p n c s = Ret tt c s' ∧ image_inv s' (<[k:=e']> es) ∧ fe_bs e' = fe_bs e ++ p.
Proof.
  intros I Hk Hmax Hroom. pose proof (lookup_lt_Some _ _ _ Hk) as Hlt. pose proof (iv_max _ _ I) as Hlim. pose proof (iv_data _ _ I) as L.
  set (inum := 1 + Z.of_nat k). assert (Hin : 0 <= inum < NINODES) by lia. set (off := Z.of_nat (length (fe_bs e))) in *.
  pose proof (iv_attrs _ _ I k e Hk) as Ea. fold off in Ea. assert (Es : d_size (fe_d e) = off) by (by injection Ea as ? ? ? ? ->).
  destruct (iappend_loop_ok (rw_fuel n) c s es k e p L Hk (iv_tidy _ _ I k e Hk) Hmax Hroom) as (e1 & s1 & E1 & L1 & D1 & B1 & T1 & A1).
  { fold n off. intros _. unfold rw_fuel. rewrite Z2Nat.id; mklia. }
  fold off n in E1. rewrite <- A1 in Ea.
  assert (Hk1 : <[k:=e1]> es !! k = Some e1) by (by apply list_lookup_insert_eq).
  set (e2 := resize (off + n) e1). pose proof (layout_resize _ _ _ k e1 (off + n) L1 Hk1) as L2. rewrite list_insert_insert_eq in L2. fold e2 in L2.
  assert (Hk2 : <[k:=e2]> es !! k = Some e2) by (by apply list_lookup_insert_eq).
  assert (Ea2 : attrs (fe_d e2) = (kind_of k, 0, 0, 1, off + n)) by (injection Ea as ? ? ? ? ?; unfold attrs, e2; cbn [resize set_dsize fe_d d_type d_major d_minor d_nlink d_size]; congruence).
  assert (Hd2 : dinode_ok (fe_d e2)) by (eapply dinode_ok_at; [by eapply (ly_files _ _ _ L2)|exact Ea2|mkconst; lia]).
  assert (Elen : Z.of_nat (length (fe_bs e2)) = off + n) by (cbn [e2 resize fe_bs]; rewrite B1, length_app; lia).
  exists (set_img (put_inode (fsimg s1) inum (fe_d e2)) s1), e2. split_and!; [| |exact B1].
  - unfold iappend. kstep (rinode_ret c s inum (iv_sb _ _ I) Hin (ly_len _ _ _ L)).
    pose proof (iv_disk _ _ I k e Hk) as Ed. fold inum in Ed. rewrite Ed, Es, xint_id by (mkconst; lia). kstep E1. cbn [fst snd]. rewrite xint_id by (mkconst; lia).
    rewrite winode_ret; [done|by rewrite (do_sb _ _ D1); apply I|done|apply L1].
  - pose proof (do_meta _ _ D1) as Hm. split; cbn [sb fsimg freeinode freeblock set_img].
    + rewrite (do_sb _ _ D1). apply I.
    + apply put_inode_layout; [done|done|apply Hd2].
    + rewrite (do_ino _ _ D1), length_insert. apply I.
    + rewrite length_insert. done.
    + intros j x Hx. destruct (decide (j = k)) as [->|]; [rewrite Hk2 in Hx; injection Hx as <-; split; [rewrite Elen|apply T1]|
        rewrite list_lookup_insert_ne in Hx by done; by eapply I].
      cbn [e2 resize fe_nb]. rewrite (td_nb _ T1), B1, length_app. f_equal. lia.
    + intros j x Hx. destruct (decide (j = k)) as [->|]; [rewrite Hk2 in Hx; injection Hx as <-; by rewrite Elen|
        rewrite list_lookup_insert_ne in Hx by done; by eapply I].
    + intros j x Hx. pose proof (lookup_lt_Some _ _ _ Hx) as Hj. rewrite length_insert in Hj. rewrite (put_inode_disk _ _ _ inum (fe_d e2) (1 + Z.of_nat j) L2 Hin) by (done || lia).
      destruct (decide (1 + Z.of_nat j = inum)) as [E|E].
      * assert (j = k) as -> by lia. rewrite Hk2 in Hx. by injection Hx as <-.
      * rewrite list_lookup_insert_ne in Hx by lia. rewrite <- (iv_disk _ _ I j x Hx). unfold disk_inode.
        rewrite Hm; [done|]. pose proof (iblock_range (1 + Z.of_nat j) ltac:(lia)). mkconst. lia.
    + rewrite put_inode_other, Hm by (mkconst; lia). apply (iv_super _ _ I).
    + rewrite put_inode_other, Hm by (mkconst; lia). apply (iv_log _ _ I).
Qed.

Lemma iappend_holds c s bss k bs p :
  holds s bss → bss !! k = Some bs → Z.of_nat (length (bs ++ p)) <= MAXFILE * BSIZE → space (<[k:=bs ++ p]> bss) <= FSSIZE →
  ∃ s', iappend (1 + Z.of_nat k) p (Z.of_nat (length p)) c s = Ret tt c s' ∧ holds s' (<[k:=bs ++ p]> bss).
Proof.
  intros (es & I & <-) Hk Hmax Hroom. rewrite list_lookup_fmap in Hk. destruct (es !! k) as [e|] eqn:He; [|done]. injection Hk as <-.
  rewrite length_app in Hmax. destruct (iappend_inv c s es k e p I He) as (s' & e' & E & I' & B'); [lia| |].
  - rewrite (holds_freeblock s es I), (tidy_used e (iv_tidy _ _ I k e He)). erewrite space_insert in Hroom by (by rewrite list_lookup_fmap, He).
    rewrite length_app, Nat2Z.inj_add in Hroom. lia.
  - exists s'. split; [done|]. exists (<[k:=e']> es). split; [done|]. by rewrite list_fmap_insert, B'.
Qed.

(** *** A new inode *)

Definition dinode_new (type : Z) : dinode := mkdinode type 0 0 1 0 (replicate (Z.to_nat (NDIRECT + 1)) 0).
Definition entry_new (type : Z) : fentry := mkfe (dinode_new type) [] 0 false.

Lemma entry_new_slot type s : ~ has_slot (entry_new type) s.
Proof. intros [Hs|[_ Hs]]; simpl in Hs; [lia|done]. Qed.

Lemma entry_new_ok img fb type : file_ok img fb (entry_new type).
Proof.
  assert (Hz : ∀ k, daddr (dinode_new type) k = 0).
  { intros k. unfold daddr, dinode_new. cbn [d_addrs]. generalize (Z.to_nat (NDIRECT + 1)), (Z.to_nat k). intros n m. revert m.
    induction n as [|n IH]; intros [|m]; simpl; auto. }
  split; try done; cbn [entry_new fe_d fe_bs fe_nb fe_ind].
  - by apply Forall_replicate.
  - by intros s []%entry_new_slot.
  - intros; lia.
Qed.

Lemma layout_new img fb es type : layout img fb es → layout img fb (es ++ [entry_new type]).
Proof.
  intros L. pose proof L as [L1 L2 L3 L4 L5 L6 L7].
  assert (Hold : ∀ k e s, (es ++ [entry_new type]) !! k = Some e → has_slot e s → es !! k = Some e).
  { intros k e s Hk Hs. apply lookup_snoc_Some in Hk as [[_ Hk]|[_ <-]]; [done|]. by apply entry_new_slot in Hs. }
  split; try done.
  - intros k e Hk. apply lookup_snoc_Some in Hk as [[_ Hk]|[_ <-]]; [by eapply L3|apply entry_new_ok].
  - intros k e s k' e' s' Hk Hk' Hs Hs'. eapply L4; eauto.
  - rewrite used_blocks_app. unfold fe_used. simpl. lia.
Qed.

Lemma ialloc_holds c s bss :
  holds s bss → Z.of_nat (length bss) + 2 <= NINODES →
  ∃ s', ialloc (kind_of (length bss)) c s = Ret (1 + Z.of_nat (length bss)) c s' ∧ holds s' (bss ++ [[]]).
Proof.
  intros (es & I & <-) Hlim. rewrite length_fmap in *. pose proof (iv_data _ _ I) as L. set (inum := 1 + Z.of_nat (length es)).
  set (ty := kind_of (length es)). assert (Hin : 0 <= inum < NINODES) by lia.
  assert (Hty : ty = T_DIR ∨ ty = T_FILE) by (unfold ty, kind_of; destruct (_ =? _)%nat; auto).
  assert (Ed : mkdinode (s16 (xshort ty)) 0 0 (s16 (xshort 1)) (xint 0) (replicate (Z.to_nat (NDIRECT + 1)) 0) = dinode_new ty)
    by (by destruct Hty as [-> | ->]).
  pose proof (layout_new _ _ _ ty L) as L1.
  assert (Ha : attrs (dinode_new ty) = (ty, 0, 0, 1, 0)) by done.
  assert (Hd : dinode_ok (dinode_new ty)) by (eapply (dinode_ok_at _ _ _ (entry_new ty)); [apply (entry_new_ok [] 0)|exact Ha|lia]).
  set (s1 := set_freeinode (inum + 1) s).
  exists (set_img (put_inode (fsimg s) inum (dinode_new ty)) s1). split.
  - unfold ialloc. rewrite (kbind_ret _ _ _ _ s c s) by done. cbn beta. cbv zeta. rewrite (iv_ino _ _ I). fold inum ty.
    rewrite u32_small by (mkconst; lia). rewrite (kbind_ret _ _ _ _ tt c s1) by done. cbn beta. rewrite Ed.
    kstep (winode_ret c s1 inum (dinode_new ty) (iv_sb _ _ I) Hin (ly_len _ _ _ L)). done.
  - exists (es ++ [entry_new ty]). split; [|by rewrite fmap_app].
    split; cbn [sb fsimg freeinode freeblock set_img s1 set_freeinode].
    + apply I.
    + apply put_inode_layout; [done|done|apply Hd].
    + rewrite length_app. simpl. lia.
    + rewrite length_app. simpl. lia.
    + intros k e Hk. apply lookup_snoc_Some in Hk as [[_ Hk]|[_ <-]]; [by eapply I|done].
    + intros k e Hk. apply lookup_snoc_Some in Hk as [[_ Hk]|[-> <-]]; [by eapply I|done].
    + intros k e Hk. pose proof (lookup_lt_Some _ _ _ Hk) as Hlt. rewrite length_app in Hlt. simpl in Hlt.
      rewrite (put_inode_disk _ _ _ inum _ (1 + Z.of_nat k) L Hin) by (done || lia). apply lookup_snoc_Some in Hk as [[Hk' Hk]|[-> <-]].
      * rewrite decide_False by lia. by apply (iv_disk _ _ I).
      * by rewrite decide_True by done.
    + rewrite put_inode_other by (mkconst; lia). apply (iv_super _ _ I).
    + rewrite put_inode_other by (mkconst; lia). apply (iv_log _ _ I).
Qed.

(** *** The files of the command line *)

Lemma space_prefix bss k bs bs1 bs2 : bss !! k = Some bs → (length bs1 ≤ length bs2)%nat → space (<[k:=bs1]> bss) <= space (<[k:=bs2]> bss).
Proof.
  intros Hk Hl. rewrite !(space_insert bss k bs) by done. pose proof (need_mono _ _ (nblk_mono (Z.of_nat (length bs1)) (Z.of_nat (length bs2)) ltac:(lia))). lia.
Qed.

Lemma copy_file_holds c s bss k bs chunks :
  holds s bss → bss !! k = Some bs → Z.of_nat (length (bs ++ concat chunks)) <= MAXFILE * BSIZE →
  space (<[k:=bs ++ concat chunks]> bss) <= FSSIZE →
  ∃ s', copy_file (1 + Z.of_nat k) chunks c s = Ret tt c s' ∧ holds s' (<[k:=bs ++ concat chunks]> bss).
Proof.
  revert s bss bs. induction chunks as [|p chunks IH]; intros s bss bs H Hk Hmax Hroom; cbn [copy_file concat] in *.
  - exists s. rewrite app_nil_r, list_insert_id by done. done.
  - rewrite app_assoc in Hmax, Hroom |- *.
    destruct (iappend_holds c s bss k bs p H Hk) as (s1 & E1 & H1).
    { rewrite length_app in Hmax. lia. }
    { etransitivity; [|exact Hroom]. apply (space_prefix bss k bs); [done|]. rewrite (length_app (bs ++ p)). lia. }
    destruct (IH s1 (<[k:=bs ++ p]> bss) (bs ++ p) H1) as (s2 & E2 & H2).
    { apply list_lookup_insert_eq. by eapply lookup_lt_Some. }
    { done. }
    { by rewrite list_insert_insert_eq. }
    exists s2. rewrite list_insert_insert_eq in H2. split; [|done]. by kstep E1.
Qed.

(** The name and the contents stored for an argument. *)
Definition stored_name (arg : list Z) : list Z := strip_underscore (strip_dir arg).
Definition stored_bytes (h : host) (arg : list Z) : list Z := concat (default [] (h_open h arg)).

(** An argument that mkfs accepts. *)
Record arg_ok (h : host) (arg : list Z) : Prop := mkao {
  ao_open : is_Some (h_open h arg);
  ao_slash : SLASH ∉ strip_dir arg;
  ao_len : Z.of_nat (length (stored_name arg)) <= DIRSIZ;
  ao_max : Z.of_nat (length (stored_bytes h arg)) <= MAXFILE * BSIZE
}.

(** The directory entries of the files, the first of which has inode [inum]. *)
Fixpoint entries (inum : Z) (args : list (list Z)) : list Z :=
  match args with
  | [] => []
  | arg :: args' => strncpy_dirent inum (stored_name arg) ++ entries (inum + 1) args'
  end.

Lemma length_strncpy_dirent inum name : length (strncpy_dirent inum name) = Z.to_nat sizeof_dirent.
Proof. unfold strncpy_dirent, dirent_pad. by rewrite length_app, length_le_split, length_mread. Qed.

Lemma length_entries args : ∀ inum, Z.of_nat (length (entries inum args)) = 16 * Z.of_nat (length args).
Proof.
  induction args as [|arg args IH]; intros inum; [done|]. cbn [entries]. rewrite length_app, length_strncpy_dirent.
  cbn [length]. rewrite Nat2Z.inj_add, IH. change (Z.of_nat (Z.to_nat sizeof_dirent)) with 16. lia.
Qed.

Lemma space_cons bs bss : space (bs :: bss) = need (nblk (Z.of_nat (length bs))) + space bss.
Proof. unfold space. simpl. lia. Qed.

Lemma need_nonneg n : 0 <= need (nblk (Z.of_nat n)).
Proof. unfold need. pose proof (Z.div_pos (Z.of_nat n + (BSIZE - 1)) BSIZE ltac:(mkconst; lia) ltac:(done)). unfold nblk. destruct (_ <? _); simpl; lia. Qed.

Lemma space_extend bss bss' : space bss <= space (bss ++ bss').
Proof.
  induction bss as [|bs bss IH]; simpl; [|rewrite !space_cons; lia].
  induction bss' as [|bs bss' IH]; [done|]. rewrite space_cons. pose proof (need_nonneg (length bs)). lia.
Qed.

Lemma add_file_holds c s h root files arg :
  holds s (root :: files) → arg_ok h arg → Z.of_nat (length files) + 3 <= NINODES → Z.of_nat (length root) + sizeof_dirent <= MAXFILE * BSIZE →
  let root' := root ++ strncpy_dirent (2 + Z.of_nat (length files)) (stored_name arg) in
  space (root' :: files ++ [stored_bytes h arg]) <= FSSIZE →
  ∃ s', add_file h ROOTINO arg c s = Ret tt c s' ∧ holds s' (root' :: files ++ [stored_bytes h arg]).
Proof.
  intros H [[chunks Ho] Hsl Hl Hb] Hlim Hmax root' Hroom. unfold stored_bytes in *. rewrite Ho in *. cbn [default from_option id] in *.
  destruct (ialloc_holds c s (root :: files) H) as (s1 & E1 & H1); [simpl; lia|]. cbn [length app] in E1, H1.
  change (kind_of (S (length files))) with T_FILE in E1. replace (1 + Z.of_nat (S (length files))) with (2 + Z.of_nat (length files)) in E1 by lia.
  set (inum := 2 + Z.of_nat (length files)) in *. set (de := strncpy_dirent inum (stored_name arg)) in *.
  assert (Hde : Z.of_nat (length de) = sizeof_dirent) by (unfold de; by rewrite length_strncpy_dirent).
  destruct (iappend_holds c s1 (root :: files ++ [[]]) 0 root de H1 eq_refl) as (s2 & E2 & H2).
  { rewrite length_app. lia. }
  { change (space (root' :: files ++ [[]]) <= FSSIZE). rewrite space_cons in Hroom |- *. rewrite !space_app in *. pose proof (need_nonneg (length (concat chunks))).
    change (need (nblk (Z.of_nat (length (@nil Z))))) with 0. lia. }
  rewrite Hde in E2. change (holds s2 (root' :: files ++ [[]])) in H2.
  destruct (copy_file_holds c s2 (root' :: files ++ [[]]) (S (length files)) [] chunks H2) as (s3 & E3 & H3).
  { change ((files ++ [[]]) !! length files = Some []). by rewrite lookup_app_r, Nat.sub_diag by done. }
  { done. }
  { change (space (root' :: <[length files:=concat chunks]> (files ++ [[]])) <= FSSIZE). by rewrite insert_app_r_alt, Nat.sub_diag by done. }
  change (holds s3 (root' :: <[length files:=concat chunks]> (files ++ [[]]))) in H3. rewrite insert_app_r_alt, Nat.sub_diag in H3 by done.
  replace (1 + Z.of_nat (S (length files))) with inum in E3 by lia.
  exists s3. split; [|exact H3]. unfold add_file. rewrite decide_False by done. rewrite Ho. cbv zeta. fold (stored_name arg).
  rewrite (proj2 (Z.leb_le _ _)) by done. cbn [negb]. kstep E1. fold de. change (1 + Z.of_nat 0) with ROOTINO in E2. kstep E2. exact E3.
Qed.

Lemma add_files_holds c h args : ∀ s root files,
  holds s (root :: files) → Forall (arg_ok h) args → Z.of_nat (length files) + Z.of_nat (length args) + 2 <= NINODES →
  Z.of_nat (length root) + 16 * Z.of_nat (length args) <= MAXFILE * BSIZE →
  let root' := root ++ entries (2 + Z.of_nat (length files)) args in
  space (root' :: files ++ (stored_bytes h <$> args)) <= FSSIZE →
  ∃ s', add_files h ROOTINO args c s = Ret tt c s' ∧ holds s' (root' :: files ++ (stored_bytes h <$> args)).
Proof.
  induction args as [|arg args IH]; intros s root files H Hok Hlim Hmax root' Hroom; cbn [add_files].
  { exists s. subst root'. simpl. rewrite !app_nil_r. done. }
  inversion_clear Hok as [|?? Ha Hok']. cbn [length] in Hlim, Hmax. cbn [fmap list_fmap] in Hroom |- *. cbn [entries] in root'.
  set (r1 := root ++ strncpy_dirent (2 + Z.of_nat (length files)) (stored_name arg)).
  assert (Er : root' = r1 ++ entries (2 + Z.of_nat (length (files ++ [stored_bytes h arg]))) args).
  { unfold root', r1. rewrite app_assoc, length_app. do 2 f_equal. simpl. lia. }
  assert (El : length r1 = (length root + Z.to_nat sizeof_dirent)%nat) by (unfold r1; by rewrite length_app, length_strncpy_dirent).
  change (Z.to_nat sizeof_dirent) with 16%nat in El. rewrite cons_middle, app_assoc in Hroom |- *.
  destruct (add_file_holds c s h root files arg H Ha) as (s1 & E1 & H1); [lia|unfold sizeof_dirent; lia| |].
  { fold r1. etransitivity; [|exact Hroom]. rewrite !space_cons.
    pose proof (space_extend (files ++ [stored_bytes h arg]) (stored_bytes h <$> args)).
    pose proof (need_mono _ _ (nblk_mono (Z.of_nat (length r1)) (Z.of_nat (length root')) ltac:(rewrite Er, length_app; lia))). lia. }
  fold r1 in H1. destruct (IH s1 r1 (files ++ [stored_bytes h arg]) H1 Hok') as (s2 & E2 & H2).
  { rewrite length_app. simpl. lia. }
  { lia. }
  { by rewrite <- Er. }
  rewrite <- Er in H2. exists s2. split; [|exact H2]. by kstep E1.
Qed.

(** *** The beginning and the end of main *)

Lemma format_ok n c s : ∀ i, Z.of_nat (length (fsimg s)) = i → 0 <= i → i + Z.of_nat n <= FSSIZE →
  kfor n i (λ i, wsect i zeroes) c s = Ret tt c (set_img (fsimg s ++ replicate n zeroes) s).
Proof.
  revert s. induction n as [|n IH]; intros s i Hi H0 Hn; cbn [kfor].
  { simpl. rewrite app_nil_r. by destruct s. }
  rewrite (kbind_ret _ _ _ _ tt c (set_img (fsimg s ++ [zeroes]) s)).
  - cbn beta. rewrite (IH (set_img (fsimg s ++ [zeroes]) s) (i + 1));
      [|cbn [set_img fsimg]; rewrite length_app; simpl; lia|lia|lia].
    unfold set_img. cbn [fsimg sb freeinode freeblock]. by rewrite <- app_assoc.
  - unfold wsect, img_write. kexec. rewrite sector_id by lia. replace (Z.to_nat i) with (length (fsimg s)) by lia.
    by rewrite Nat.ltb_irrefl, Nat.sub_diag.
Qed.

Definition blank_img : list block := <[1%nat:=splice zeroes 0 (superblock_bytes new_sb)]> (replicate (Z.to_nat FSSIZE) zeroes).

Lemma blank_blk b : 0 <= b < FSSIZE → blk blank_img b = if b =? 1 then splice zeroes 0 (superblock_bytes new_sb) else zeroes.
Proof.
  intros Hb. unfold blank_img. change 1%nat with (Z.to_nat 1). destruct (Z.eqb_spec b 1) as [->|Hne].
  - apply blk_insert_eq; [lia|]. rewrite length_replicate. mkconst. lia.
  - rewrite blk_insert_ne by lia. unfold blk. apply lookup_total_replicate_2. lia.
Qed.

Lemma blank_holds : holds (mkmk blank_img new_sb 1 nmeta) [].
Proof.
  exists []. split; [|done]. split; try done; cbn [fsimg sb freeinode freeblock]; try (by rewrite blank_blk by (mkconst; lia)).
  split; try done.
  - intros b Hb. rewrite blank_blk by done. by destruct (b =? 1).
  - intros b Hb. rewrite blank_blk by (mkconst; lia). by rewrite (proj2 (Z.eqb_neq _ _)) by (mkconst; lia).
Qed.

Lemma set_bits_get n : ∀ i buf b, 0 <= i → 0 <= b → i + Z.of_nat n <= 8 * Z.of_nat (length buf) →
  bit_get (set_bits n i buf) b = ((i <=? b) && (b <? i + Z.of_nat n)) || bit_get buf b.
Proof.
  induction n as [|n IH]; intros i buf b Hi Hb Hn; cbn [set_bits].
  - destruct (Z.leb_spec i b), (Z.ltb_spec b (i + Z.of_nat 0)); done || lia.
  - rewrite IH by (rewrite ?length_bit_set; lia). rewrite bit_get_set by (done || mklia).
    destruct (Z.eqb_spec b i), (Z.leb_spec (i + 1) b), (Z.leb_spec i b), (Z.ltb_spec b (i + 1 + Z.of_nat n)), (Z.ltb_spec b (i + Z.of_nat (S n)));
      done || lia.
Qed.

Lemma length_set_bits n : ∀ i buf, length (set_bits n i buf) = length buf.
Proof. induction n as [|n IH]; intros i buf; [done|]. cbn [set_bits]. by rewrite IH, length_bit_set. Qed.

Lemma bit_get_zeroes b : bit_get zeroes b = false.
Proof. unfold bit_get. by rewrite nth_zeroes, Z.testbit_0_l. Qed.

(** What an image with a root directory of contents [root] and the files [files] is.  The inode numbers are [1] for
    the directory and [2 + k] for file [k]; the size of the directory is rounded up beyond its entries. *)
Definition img_inode (img : list block) (inum : Z) : dinode := disk_inode new_sb (blk img) inum.
Definition file_slot (bs : list Z) (s : Z) : Prop :=
  (0 <= s < nblk (Z.of_nat (length bs))) ∨ (s = IND ∧ NDIRECT < nblk (Z.of_nat (length bs))).

Record image_spec (img : list block) (root : list Z) (files : list (list Z)) : Prop := mkis {
  is_len : length img = Z.to_nat FSSIZE;
  is_blk : ∀ b, 0 <= b < FSSIZE → length (blk img b) = bsize;
  is_super : get_sb (blk img 1) = new_sb;
  is_log : blk img 2 = zeroes;
  is_root : attrs (img_inode img ROOTINO) = (T_DIR, 0, 0, 1, (Z.of_nat (length root) / BSIZE + 1) * BSIZE);
  is_files : ∀ k bs, files !! k = Some bs → attrs (img_inode img (2 + Z.of_nat k)) = (T_FILE, 0, 0, 1, Z.of_nat (length bs));
  is_bytes : ∀ k bs x, (root :: files) !! k = Some bs → 0 <= x < nblk (Z.of_nat (length bs)) * BSIZE →
    fbyte (blk img) (dfile (img_inode img (1 + Z.of_nat k))) x = nth (Z.to_nat x) bs 0;
  is_nblk : ∀ k bs, (root :: files) !! k = Some bs → nblk (Z.of_nat (length bs)) <= MAXFILE;
  is_slots : ∀ k bs s, (root :: files) !! k = Some bs → file_slot bs s →
    nmeta <= slot_addr img (img_inode img (1 + Z.of_nat k)) s < space (root :: files);
  is_unused : ∀ k bs j, (root :: files) !! k = Some bs → nblk (Z.of_nat (length bs)) <= j < NDIRECT →
    daddr (img_inode img (1 + Z.of_nat k)) j = 0;
  is_disjoint : ∀ k bs s k' bs' s', (root :: files) !! k = Some bs → (root :: files) !! k' = Some bs' →
    file_slot bs s → file_slot bs' s' →
    slot_addr img (img_inode img (1 + Z.of_nat k)) s = slot_addr img (img_inode img (1 + Z.of_nat k')) s' → k = k' ∧ s = s';
  is_bitmap : ∀ b, 0 <= b < FSSIZE → bused new_sb (blk img) b = (b <? space (root :: files));
  is_space : space (root :: files) <= FSSIZE
}.

Lemma file_slot_has e s : tidy e → file_slot (fe_bs e) s → has_slot e s.
Proof.
  intros [E1 E2] [Hs|[-> Hs]]; [left; lia|]. right. split; [done|]. rewrite E2, E1. by apply Z.ltb_lt.
Qed.

(** The layout of the data, the inodes on the disk and the bitmap make an image. *)
Lemma image_spec_intro s es root files n img :
  image_inv s es → fe_bs <$> es = root :: files → length img = Z.to_nat FSSIZE →
  layout img (freeblock s) es → n = (Z.of_nat (length root) / BSIZE + 1) * BSIZE →
  (∀ k e, es !! k = Some e → img_inode img (1 + Z.of_nat k) = if (k =? 0)%nat then set_dsize n (fe_d e) else fe_d e) →
  blk img 1 = blk (fsimg s) 1 → blk img 2 = blk (fsimg s) 2 → blk img 46 = set_bits (Z.to_nat (freeblock s)) 0 zeroes →
  image_spec img root files.
Proof.
  intros I Ebs Hl L En Hino E1 E2 E46. pose proof (holds_freeblock s es I) as Efb. rewrite Ebs in Efb. pose proof (layout_fb _ _ _ L) as Hfb.
  assert (Hes : ∀ k bs, (root :: files) !! k = Some bs → ∃ e, es !! k = Some e ∧ fe_bs e = bs).
  { intros k bs Hk. rewrite <- Ebs, list_lookup_fmap in Hk. destruct (es !! k) as [e|]; [|done]. exists e. by injection Hk. }
  assert (Hin : ∀ k e, es !! k = Some e → d_addrs (img_inode img (1 + Z.of_nat k)) = d_addrs (fe_d e)).
  { intros k e Hk. rewrite (Hino k e Hk). by destruct (k =? 0)%nat. }
  assert (Hsl : ∀ k e x, es !! k = Some e → slot_addr img (img_inode img (1 + Z.of_nat k)) x = slot_addr img (fe_d e) x).
  { intros k e x Hk. unfold slot_addr, daddr, fblock, dfile, load_dinode. cbn [i_addrs]. by rewrite (Hin k e Hk). }
  split; try done.
  - apply L.
  - by rewrite E1, (iv_super _ _ I).
  - by rewrite E2, (iv_log _ _ I).
  - destruct (Hes 0%nat root eq_refl) as (e & He & <-). pose proof (Hino 0%nat e He) as Ed. change (1 + Z.of_nat 0) with ROOTINO in Ed.
    pose proof (iv_attrs _ _ I 0 e He) as [= A1 A2 A3 A4 A5]. rewrite Ed. unfold attrs. cbn [Nat.eqb set_dsize d_type d_major d_minor d_nlink d_size].
    rewrite A1, A2, A3, A4, En. done.
  - intros k bs Hk. destruct (Hes (S k) bs Hk) as (e & He & <-). replace (2 + Z.of_nat k) with (1 + Z.of_nat (S k)) by lia.
    rewrite (Hino _ _ He). apply (iv_attrs _ _ I _ _ He).
  - intros k bs x Hk Hx. destruct (Hes k bs Hk) as (e & He & <-). rewrite fbyte_slot, (Hsl k e) by (done || lia).
    rewrite <- (td_nb e (iv_tidy _ _ I k e He)) in Hx. rewrite <- (fo_bytes _ _ _ (ly_files _ _ _ L k e He) x Hx). by rewrite fbyte_slot by lia.
  - intros k bs Hk. destruct (Hes k bs Hk) as (e & He & <-). rewrite <- (td_nb e (iv_tidy _ _ I k e He)).
    apply (fo_nb _ _ _ (ly_files _ _ _ L k e He)).
  - intros k bs x Hk Hx. destruct (Hes k bs Hk) as (e & He & <-). rewrite (Hsl k e _ He), <- Efb.
    apply (fo_slot _ _ _ (ly_files _ _ _ L k e He)). apply file_slot_has; [by eapply I|done].
  - intros k bs j Hk Hj. destruct (Hes k bs Hk) as (e & He & <-). unfold daddr. rewrite (Hin k e He).
    apply (fo_direct _ _ _ (ly_files _ _ _ L k e He)). by rewrite (td_nb e (iv_tidy _ _ I k e He)).
  - intros k bs x k' bs' x' Hk Hk' Hx Hx'. destruct (Hes k bs Hk) as (e & He & <-). destruct (Hes k' bs' Hk') as (e' & He' & <-).
    rewrite (Hsl k e _ He), (Hsl k' e' _ He'). apply (ly_disj _ _ _ L); try done; (apply file_slot_has; [by eapply I|done]).
  - intros b Hb. unfold bused. assert (BBLOCK b new_sb = 46) as ->.
    { unfold BBLOCK. change (sb_bmapstart new_sb) with 46. change BPB with 8192. rewrite Z.div_small by (mkconst; lia). done. }
    rewrite E46, set_bits_get, bit_get_zeroes, orb_false_r; change BPB with 8192; mkconst; [|lia|mklia|rewrite length_zeroes; unfold bsize; mkconst; lia].
    rewrite Z.mod_small, <- Efb by lia. destruct (Z.leb_spec 0 b), (Z.ltb_spec b (0 + Z.of_nat (Z.to_nat (freeblock s)))), (Z.ltb_spec b (freeblock s)); done || lia.
  - lia.
Qed.

(** The last steps of main. *)
Lemma finish_ok c s root files :
  holds s (root :: files) → Z.of_nat (length root) <= MAXFILE * BSIZE →
  ∃ s', (fix_root ROOTINO ;;; do s <- kget; balloc (freeblock s)) c s = Ret tt c s' ∧ image_spec (fsimg s') root files.
Proof.
  intros (es & I & Ebs) Hmax. pose proof (iv_data _ _ I) as L. pose proof (layout_fb _ _ _ L) as Hfb. pose proof (ly_len _ _ _ L) as Hlen.
  assert (∃ e, es !! 0%nat = Some e ∧ fe_bs e = root) as (e & He & Er).
  { destruct es as [|e es]; [done|]. exists e. by injection Ebs. }
  pose proof (iv_disk _ _ I 0 e He) as Ed. change (1 + Z.of_nat 0) with ROOTINO in Ed.
  pose proof (iv_attrs _ _ I 0 e He) as Ea. rewrite Er in Ea. assert (Es : d_size (fe_d e) = Z.of_nat (length root)) by (by injection Ea as ? ? ? ? ->).
  set (n := (Z.of_nat (length root) / BSIZE + 1) * BSIZE). assert (Hn : 0 <= n < 2 ^ 32) by (unfold n; mklia).
  pose proof (layout_resize _ _ _ 0 e n L He) as L1. set (e1 := resize n e) in *.
  assert (Hd : dinode_ok (set_dsize n (fe_d e))).
  { eapply (dinode_ok_at _ _ 0 e1 n); [eapply (ly_files _ _ _ L1 0%nat); apply list_lookup_insert_eq; by eapply lookup_lt_Some| |done].
    injection Ea as ? ? ? ? _. unfold attrs, e1. cbn [resize fe_d set_dsize d_type d_major d_minor d_nlink d_size]. congruence. }
  set (img1 := put_inode (fsimg s) ROOTINO (set_dsize n (fe_d e))).
  assert (L2 : layout img1 (freeblock s) es) by (apply put_inode_layout; [done|done|apply Hd]).
  set (bits := set_bits (Z.to_nat (freeblock s)) 0 zeroes). set (img := <[Z.to_nat 46:=bits]> img1).
  assert (L3 : layout img (freeblock s) es) by (apply layout_meta; [done|mkconst; lia|unfold bits; by rewrite length_set_bits]).
  assert (Eo : ∀ b, 0 <= b < 46 → blk img b = blk img1 b) by (intros; apply blk_insert_ne; lia).
  exists (set_img img s). split.
  - unfold fix_root. rewrite kbind_assoc. kstep (rinode_ret c s ROOTINO (iv_sb _ _ I) ltac:(done) Hlen). cbv zeta.
    rewrite Ed, Es, (xint_id (Z.of_nat (length root))) by (mkconst; lia). change ((Z.of_nat (length root) / BSIZE + 1) * BSIZE) with n. rewrite u32_small, xint_id by lia.
    kstep (winode_ret c s ROOTINO (set_dsize n (fe_d e)) (iv_sb _ _ I) ltac:(done) Hlen). fold img1.
    rewrite (kbind_ret _ _ _ _ (set_img img1 s) c (set_img img1 s)) by done. cbn beta. unfold balloc. cbn [freeblock set_img].
    rewrite (proj2 (Z.ltb_lt _ _)) by (change BPB with 8192; mkconst; lia). cbn [negb].
    rewrite (kbind_ret _ _ _ _ (set_img img1 s) c (set_img img1 s)) by done. cbn beta. cbn [sb set_img]. rewrite (iv_sb _ _ I).
    change (sb_bmapstart new_sb) with 46. fold bits. rewrite wsect_ret; [done|mkconst; lia|apply L2].
  - cbn [fsimg set_img]. apply (image_spec_intro s es root files n); try done.
    + apply L3.
    + intros k x Hx. pose proof (lookup_lt_Some _ _ _ Hx) as Hk. pose proof (iv_max _ _ I). unfold img_inode, disk_inode.
      pose proof (iblock_range (1 + Z.of_nat k) ltac:(lia)). rewrite Eo by lia.
      change (get_dinode (blk img1 (IBLOCK (1 + Z.of_nat k) new_sb)) (dinode_off (1 + Z.of_nat k))) with (disk_inode new_sb (blk img1) (1 + Z.of_nat k)).
      unfold img1. rewrite (put_inode_disk _ _ _ ROOTINO _ (1 + Z.of_nat k) L) by (done || lia). destruct k as [|k]; [rewrite decide_True by done; rewrite He in Hx; by injection Hx as <-|].
      rewrite decide_False by (unfold ROOTINO; lia). by apply (iv_disk _ _ I).
    + rewrite Eo by lia. apply put_inode_other; done || lia.
    + rewrite Eo by lia. apply put_inode_other; done || lia.
    + apply blk_insert_eq; [lia|]. rewrite (ly_len _ _ _ L2). mkconst. lia.
Qed.

(** The bytes of the root directory: "." and "..", then an entry per argument. *)
Definition root_bytes (args : list (list Z)) : list Z :=
  strcpy_dirent ROOTINO [DOT] ++ strcpy_dirent ROOTINO [DOT; DOT] ++ entries 2 args.

Lemma length_root_bytes args : Z.of_nat (length (root_bytes args)) = 32 + 16 * Z.of_nat (length args).
Proof.
  unfold root_bytes. rewrite !length_app. change (length (strcpy_dirent ROOTINO [DOT])) with 16%nat.
  change (length (strcpy_dirent ROOTINO [DOT; DOT])) with 16%nat. pose proof (length_entries args 2). lia.
Qed.

Definition image_room (h : host) (args : list (list Z)) : Prop :=
  Z.of_nat (length args) + 2 <= NINODES ∧ space (root_bytes args :: (stored_bytes h <$> args)) <= FSSIZE.

Lemma mkfs_main_ok h prog out args c :
  h_create h out = true → Forall (arg_ok h) args → image_room h args →
  ∃ s', mkfs_main h (prog :: out :: args) c mkfs_init = Ret tt c s' ∧
    image_spec (fsimg s') (root_bytes args) (stored_bytes h <$> args).
Proof.
  intros Ho Hok [Hlim Hroom]. unfold mkfs_main. rewrite Ho. cbn [negb].
  do 3 (rewrite (kbind_ret _ _ _ _ tt c _) by reflexivity; cbn beta).
  set (s0 := set_freeblock nmeta _). kstep (format_ok (Z.to_nat FSSIZE) c s0 0 eq_refl ltac:(lia) ltac:(mkconst; lia)).
  set (s1 := set_img _ s0). kstep (wsect_ret c s1 1 (splice zeroes 0 (superblock_bytes new_sb)) ltac:(mkconst; lia) ltac:(apply length_replicate)).
  change (set_img (<[Z.to_nat 1:=splice zeroes 0 (superblock_bytes new_sb)]> (fsimg s1)) s1) with (mkmk blank_img new_sb 1 nmeta).
  destruct (ialloc_holds c _ [] blank_holds) as (s2 & E2 & H2); [by mkconst|]. change (kind_of (length [])) with T_DIR in E2.
  change (1 + Z.of_nat (length [])) with ROOTINO in E2. kstep E2. cbn [negb]. change (ROOTINO =? ROOTINO) with true. cbn [negb].
  set (d1 := strcpy_dirent ROOTINO [DOT]). set (d2 := strcpy_dirent ROOTINO [DOT; DOT]).
  destruct (iappend_holds c s2 [[]] 0 [] d1 H2 eq_refl) as (s3 & E3 & H3); [by mkconst|by mkconst|].
  destruct (iappend_holds c s3 [d1] 0 d1 d2 H3 eq_refl) as (s4 & E4 & H4); [by mkconst|by mkconst|].
  change (1 + Z.of_nat 0) with ROOTINO in E3, E4. kstep E3. kstep E4. clear E2 E3 E4 H2 H3 s0 s1.
  pose proof (length_root_bytes args) as Hlen.
  destruct (add_files_holds c h args s4 (d1 ++ d2) [] H4 Hok) as (s5 & E5 & H5).
  { simpl. lia. }
  { change (Z.of_nat (length (d1 ++ d2))) with 32. mkconst. lia. }
  { by rewrite <- app_assoc. }
  kstep E5. rewrite <- app_assoc in H5. fold d1 d2 in H5. apply (finish_ok c s5); [exact H5|]. mkconst. lia.
Qed.

(** C17. mkfs, given files it can open with names that fit a directory entry and whose blocks and inodes
    fit the image, writes an image of FSSIZE blocks with the superblock of the layout and an empty log, in which
    inode 1 is a directory with an entry for every file, in order, inode 2 + k has the bytes of file k, every block of a file is a data block that belongs
    to no other file, and the bitmap marks exactly the metadata and the blocks of the files. *)
Theorem mkfs_builds h prog out args c :
  h_create h out = true → Forall (arg_ok h) args → image_room h args →
  ∃ s', mkfs_main h (prog :: out :: args) c mkfs_init = Ret tt c s' ∧
    image_spec (fsimg s') (root_bytes args) (stored_bytes h <$> args).
Proof. apply mkfs_main_ok. Qed.

(** C40. When the entries fill the last block of the root directory (64 entries to a block), the size that mkfs gives the directory
    takes in one more block, which the directory does not have: its address is 0. *)
Theorem mkfs_root_hole h prog out args c :
  h_create h out = true → Forall (arg_ok h) args → image_room h args → (Z.of_nat (length args) + 2) mod 64 = 0 →
  ∃ s', mkfs_main h (prog :: out :: args) c mkfs_init = Ret tt c s' ∧
    let d := img_inode (fsimg s') ROOTINO in
    ∃ k, 0 <= k ∧ k * BSIZE < d_size d ∧ fblock (blk (fsimg s')) (dfile d) k = 0.
Proof.
  intros Ho Hok Hr Hm. destruct (mkfs_main_ok h prog out args c Ho Hok Hr) as (s' & E & S). exists s'. split; [exact E|]. intros d.
  pose proof (length_root_bytes args) as Hl. destruct Hr as [Hlim _]. pose proof (attrs_size _ _ _ _ _ _ (is_root _ _ _ S)) as Es. fold d in Es.
  set (n := Z.of_nat (length (root_bytes args))) in *. exists (n / BSIZE). split_and!; [mklia|rewrite Es; mklia|].
  rewrite slot_fblock, slot_direct by mklia. apply (is_unused _ _ _ S 0 (root_bytes args) (n / BSIZE) eq_refl). fold n. unfold nblk. mklia.
Qed.

(** ** Witnesses *)

Definition demo_host : host := mkhost (λ _, true) (λ arg, if decide (arg = []) then None else Some [arg; replicate 1020 7; arg]).
Definition demo_args : list (list Z) := [USER_DIR ++ [UNDERSCORE; 99; 97; 116]; [82; 69; 65; 68]].

Lemma mkfs_builds_witness :
  ∃ s', mkfs_main demo_host ([] :: [] :: demo_args) (mkctx [] [] 0) mkfs_init = Ret tt (mkctx [] [] 0) s' ∧
    image_spec (fsimg s') (root_bytes demo_args) (stored_bytes demo_host <$> demo_args).
Proof.
  apply mkfs_builds; [reflexivity| |split; apply Z.leb_le; vm_compute; reflexivity].
  repeat apply List.Forall_cons; [..|apply List.Forall_nil];
    (split; [eexists; reflexivity|apply (bool_decide_unpack _); vm_compute; exact I|apply Z.leb_le; vm_compute; reflexivity..]).
Defined.

Lemma mkfs_root_hole_witness :
  ∃ s', mkfs_main (mkhost (λ _, true) (λ _, Some [])) ([] :: [] :: replicate 62 [97]) (mkctx [] [] 0) mkfs_init = Ret tt (mkctx [] [] 0) s' ∧
    let d := img_inode (fsimg s') ROOTINO in
    ∃ k, 0 <= k ∧ k * BSIZE < d_size d ∧ fblock (blk (fsimg s')) (dfile d) k = 0.
Proof.
  apply mkfs_root_hole; [reflexivity| |split; apply Z.leb_le; vm_compute; reflexivity|reflexivity].
  apply Forall_replicate.
  split; [eexists; reflexivity|apply (bool_decide_unpack _); vm_compute; exact I|apply Z.leb_le; vm_compute; reflexivity..].
Defined.
