(* ===== verification/Image.v ===== *)
(** * From the image to the kernel: what mkfs stores, the kernel finds

    The image written by [mkfs_main] (file Mkfs) is put into the RAM disk, the buffer cache, the log and
    the superblock are initialised as the kernel does, and every file is found under its name and read back: mkfs.c
    and fs.c agree on the format. *)

From stdpp Require Import base list functions sets numbers strings.
From Stdlib Require Import ZArith Lia.
From S2P Require Import Prelude Machine Kstring BlockCache Sleeplock Bio Log TxStore Fs Dir Mkfs.

(** ** The entries of the root directory *)

Lemma slice_app_l {A} (l1 l2 : list A) o n : (o + n ≤ length l1)%nat → slice (l1 ++ l2) o n = slice l1 o n.
Proof. intros. unfold slice. rewrite drop_app_le by lia. apply take_app_le. rewrite length_drop. lia. Qed.

Lemma slice_app_r {A} (l1 l2 : list A) o n : slice (l1 ++ l2) (length l1 + o) n = slice l2 o n.
Proof. unfold slice. by rewrite drop_app_add. Qed.

Lemma slice_full {A} (l : list A) : slice l 0 (length l) = l.
Proof. unfold slice. by rewrite drop_0, firstn_all. Qed.

Lemma entries_lookup args : ∀ (inum : Z) k arg, args !! k = Some arg →
  slice (entries inum args) (16 * k) 16 = strncpy_dirent (inum + Z.of_nat k) (stored_name arg).
Proof.
  induction args as [|a args IH]; intros inum [|k] arg Hk; try done; cbn [entries].
  - injection Hk as ->. rewrite Nat.mul_0_r, Z.add_0_r. rewrite slice_app_l by (rewrite length_strncpy_dirent; done).
    by rewrite <- (slice_full (strncpy_dirent inum (stored_name arg))) at 2; rewrite length_strncpy_dirent.
  - replace (16 * S k)%nat with (length (strncpy_dirent inum (stored_name a)) + 16 * k)%nat
      by (rewrite length_strncpy_dirent; change (Z.to_nat sizeof_dirent) with 16%nat; lia).
    rewrite slice_app_r, (IH _ k arg) by done. f_equal. lia.
Qed.

Lemma dirent_inum_split (inum : Z) l : 0 <= inum < 2 ^ 16 → dirent_inum (le_split 2 (xshort inum) ++ l) = inum.
Proof.
  intros Hi. unfold dirent_inum, ld16. rewrite slice_app_l by (by rewrite length_le_split).
  rewrite <- (length_le_split 2 (xshort inum)) at 2. rewrite slice_full, le_combine_split, xshort_id by done. by apply Z.mod_small.
Qed.

Lemma dirent_name_split (inum : Z) l : dirent_name (le_split 2 (xshort inum) ++ l) = l.
Proof. unfold dirent_name. by rewrite drop_app_length' by (by rewrite length_le_split). Qed.

(** Entry [j] of the directory: ".", ".." or a file. *)
Definition root_entry (args : list (list Z)) (j : nat) : list Z := slice (root_bytes args) (16 * j) 16.

Lemma root_entry_dot args j : (j < 2)%nat →
  root_entry args j = strcpy_dirent ROOTINO (replicate (S j) DOT).
Proof.
  intros Hj. unfold root_entry, root_bytes. rewrite app_assoc, slice_app_l.
  - destruct j as [|[|]]; [done|done|lia].
  - rewrite length_app. change (length (strcpy_dirent ROOTINO [DOT])) with 16%nat. change (length (strcpy_dirent ROOTINO [DOT; DOT])) with 16%nat. lia.
Qed.

Lemma root_entry_file args k arg : args !! k = Some arg →
  root_entry args (2 + k) = strncpy_dirent (2 + Z.of_nat k) (stored_name arg).
Proof.
  intros Hk. unfold root_entry, root_bytes. rewrite app_assoc.
  replace (16 * (2 + k))%nat with (length (strcpy_dirent ROOTINO [DOT] ++ strcpy_dirent ROOTINO [DOT; DOT]) + 16 * k)%nat.
  - rewrite slice_app_r. by apply entries_lookup.
  - rewrite length_app. change (length (strcpy_dirent ROOTINO [DOT])) with 16%nat. change (length (strcpy_dirent ROOTINO [DOT; DOT])) with 16%nat. lia.
Qed.

(** The names of the files can be told from each other and from "." and "..". *)
Record names_ok (args : list (list Z)) : Prop := mkno {
  no_dup : NoDup (stored_name <$> args);
  no_nul : ∀ arg, arg ∈ args → 0 ∉ stored_name arg;
  no_empty : ∀ arg, arg ∈ args → stored_name arg ≠ [];
  no_dots : ∀ arg, arg ∈ args → stored_name arg ≠ [DOT] ∧ stored_name arg ≠ [DOT; DOT];
  no_slash : ∀ arg, arg ∈ args → SLASH ∉ stored_name arg;
  no_len : ∀ arg, arg ∈ args → Z.of_nat (length (stored_name arg)) <= DIRSIZ
}.

Lemma stored_entry_name args k arg : names_ok args → args !! k = Some arg → entry_name (stored_name arg) = stored_name arg.
Proof.
  intros Hn Hk. apply list_elem_of_lookup_2 in Hk. apply cstr_id; [|by eapply no_nul]. pose proof (no_len _ Hn _ Hk). lia.
Qed.

(** A name is found at the place of its file. *)
Lemma root_find args k arg rest :
  names_ok args → args !! k = Some arg → Z.of_nat (length args) + 2 <= NINODES →
  list_find (entry_matches (stored_name arg)) ((root_entry args <$> seq 0 (2 + length args)) ++ rest) =
    Some (2 + k, strncpy_dirent (2 + Z.of_nat k) (stored_name arg))%nat.
Proof.
  intros Hn Hk Hlim. pose proof (lookup_lt_Some _ _ _ Hk) as Hlt. pose proof (list_elem_of_lookup_2 _ _ _ Hk) as Hin.
  assert (He : ∀ j, (j < 2 + length args)%nat → ((root_entry args <$> seq 0 (2 + length args)) ++ rest) !! j = Some (root_entry args j)).
  { intros j Hj. rewrite lookup_app_l by (rewrite length_fmap, length_seq; lia). by rewrite list_lookup_fmap, lookup_seq_lt. }
  apply list_find_Some. split_and!.
  - rewrite He by lia. by rewrite (root_entry_file args k arg).
  - unfold entry_matches, strncpy_dirent. rewrite dirent_inum_split, dirent_name_split, entry_name_pad by (mkconst; lia). split; [lia|done].
  - intros j y Hj Hlt' [_ Hm]. rewrite He in Hj by lia. injection Hj as <-. rewrite (stored_entry_name args k arg) in Hm by done.
    destruct (decide (j < 2)%nat) as [H2|H2].
    + rewrite root_entry_dot in Hm by done. unfold strcpy_dirent in Hm. rewrite dirent_name_split in Hm.
      destruct (no_dots _ Hn _ Hin). destruct j as [|[|]]; [done|done|lia].
    + replace j with (2 + (j - 2))%nat in Hm by lia. destruct (lookup_lt_is_Some_2 args (j - 2)) as [arg' Hk']; [lia|].
      rewrite (root_entry_file args _ arg' Hk') in Hm. unfold strncpy_dirent in Hm.
      rewrite dirent_name_split, entry_name_pad, (stored_entry_name args _ arg' Hn Hk') in Hm.
      assert ((j - 2)%nat = k); [|lia]. eapply (NoDup_lookup (stored_name <$> args)); [apply Hn|by rewrite list_lookup_fmap, Hk'|].
      rewrite list_lookup_fmap, Hk. simpl. by rewrite Hm.
Qed.

(** ** The mounted image *)

Lemma fmap_nth_slice (l : list Z) (o n : nat) : (o + n ≤ length l)%nat → (λ k, nth (o + k) l 0) <$> seq 0 n = slice l o n.
Proof.
  intros Hl. apply list_eq. intros k. unfold slice. rewrite list_lookup_fmap. destruct (decide (k < n)%nat) as [Hk|Hk].
  - rewrite lookup_seq_lt, lookup_take_lt, lookup_drop by done. cbn [fmap option_fmap option_map].
    destruct (lookup_lt_is_Some_2 l (o + k)) as [y Hy]; [lia|]. rewrite Hy. f_equal. by apply nth_lookup_Some.
  - rewrite lookup_seq_ge, lookup_take_ge by lia. done.
Qed.

Section mounted.
Context {L U : Type} `{TxStore L} `{UserOps U}.
Abbreviation FS := (fsys L U).
Implicit Types (f : FS) (t : tview) (c : kctx) (ip : inode) (i : nat).

(** The log shows the blocks of the image and no buffer is in use. *)
Record shows (img : list block) (t : tview) : Prop := mksh {
  sh_size : t_size t = FSSIZE;
  sh_data : ∀ b, 0 <= b < FSSIZE → b ≠ 2 → t_data t b = blk img b;
  sh_held : t_held t = [];
  sh_logged : t_logged t = []
}.

Section image.
Context (img : list block) (root : list Z) (files : list (list Z)) (t : tview).
Context (S : image_spec img root files) (Sh : shows img t).

(** An inode in memory with the addresses of inode [1 + k] of the image. *)
Definition inode_of (k : nat) (ip : inode) : Prop := i_addrs ip = d_addrs (img_inode img (1 + Z.of_nat k)).

Lemma image_block k bs ip (s : Z) : (root :: files) !! k = Some bs → inode_of k ip → 0 <= s < nblk (Z.of_nat (length bs)) →
  fblock (t_data t) ip s = slot_addr img (img_inode img (1 + Z.of_nat k)) s.
Proof.
  intros Hk Hip Hs. unfold inode_of in Hip. pose proof (is_space _ _ _ S) as Hsp. destruct (decide (s < NDIRECT)).
  - rewrite slot_direct by lia. unfold fblock, daddr. rewrite (proj2 (Z.ltb_lt _ _)) by done. by rewrite Hip.
  - rewrite slot_indirect by lia. unfold fblock, daddr. rewrite (proj2 (Z.ltb_ge _ _)) by lia. rewrite Hip.
    pose proof (is_slots _ _ _ S k bs IND Hk ltac:(right; split; [done|lia])) as Hr. rewrite slot_ind in Hr. unfold daddr in Hr.
    rewrite (sh_data _ _ Sh) by (mkconst; lia). done.
Qed.

Lemma image_readable k bs (s : Z) : (root :: files) !! k = Some bs → file_slot bs s →
  readable t (slot_addr img (img_inode img (1 + Z.of_nat k)) s) ∧
  t_data t (slot_addr img (img_inode img (1 + Z.of_nat k)) s) = blk img (slot_addr img (img_inode img (1 + Z.of_nat k)) s).
Proof.
  intros Hk Hs. pose proof (is_slots _ _ _ S k bs s Hk Hs) as Hr. pose proof (is_space _ _ _ S) as Hsp. split.
  - unfold readable. rewrite (sh_held _ _ Sh), (sh_size _ _ Sh). split_and!; [mkconst; lia..|apply not_elem_of_nil].
  - apply Sh; mkconst; lia.
Qed.

Lemma image_byte k bs ip (x : Z) : (root :: files) !! k = Some bs → inode_of k ip → 0 <= x < nblk (Z.of_nat (length bs)) * BSIZE →
  fbyte (t_data t) ip x = nth (Z.to_nat x) bs 0.
Proof.
  intros Hk Hip Hx. rewrite <- (is_bytes _ _ _ S k bs x Hk Hx), fbyte_slot by lia. unfold fbyte.
  assert (Hs : 0 <= x / BSIZE < nblk (Z.of_nat (length bs))) by mklia.
  rewrite (image_block k bs ip (x / BSIZE) Hk Hip Hs). by destruct (image_readable k bs (x / BSIZE) Hk (or_introl Hs)) as [_ ->].
Qed.

Lemma image_contents k bs ip (o n : nat) : (root :: files) !! k = Some bs → inode_of k ip → (o + n ≤ length bs)%nat →
  fcontents (t_data t) ip (Z.of_nat o) (Z.of_nat n) = slice bs o n.
Proof.
  intros Hk Hip Hn. rewrite <- fmap_nth_slice by done. unfold fcontents. rewrite Nat2Z.id. apply list_fmap_ext. intros j y Hy.
  apply lookup_seq in Hy as [-> Hj]. rewrite (image_byte k bs) by (done || (unfold nblk; mklia)). f_equal. lia.
Qed.

Lemma image_file_pre c f k bs i ip :
  fabs c f t → tx_clear c → fs_inode f !! i = Some ip → i_dev ip = ROOTDEV → (root :: files) !! k = Some bs → inode_of k ip →
  0 <= i_size ip <= nblk (Z.of_nat (length bs)) * BSIZE → file_pre c f t i ip.
Proof.
  intros Ha Hc Hi Hdv Hk Hip Hsz. pose proof (is_nblk _ _ _ S k bs Hk) as Hnb. split; try done.
  - mkconst. lia.
  - intros s Hs0 Hs. assert (Hs' : 0 <= s < nblk (Z.of_nat (length bs))) by (mkconst; lia).
    rewrite (image_block k bs ip s Hk Hip Hs'). by apply (image_readable k bs s Hk (or_introl Hs')).
  - intros Hs. unfold inode_of in Hip. rewrite Hip.
    apply (image_readable k bs IND Hk). right. split; [done|]. mkconst. lia.
  - unfold t_free. rewrite (sh_held _ _ Sh), (sh_logged _ _ Sh). done.
Qed.
End image.

(** The entries of the root directory, as the kernel reads them. *)
Lemma image_entries img args files t ip :
  image_spec img (root_bytes args) files → shows img t → inode_of img 0 ip →
  Z.of_nat (length (root_bytes args)) <= i_size ip <= nblk (Z.of_nat (length (root_bytes args))) * BSIZE →
  ∃ rest, dir_entries (t_data t) ip = (root_entry args <$> seq 0 (2 + length args)) ++ rest.
Proof.
  intros S Sh Hip Hsz. pose proof (length_root_bytes args) as Hl. set (n := (2 + length args)%nat).
  set (m := Z.to_nat (i_size ip / sizeof_dirent)). assert (Hnm : (n ≤ m)%nat) by (unfold m, n, sizeof_dirent; mklia).
  exists (entry_at (t_data t) ip <$> seq n (m - n)). unfold dir_entries. fold m. replace m with (n + (m - n))%nat at 1 by lia.
  rewrite seq_app, fmap_app. f_equal. apply list_fmap_ext. intros j y Hy. apply lookup_seq in Hy as [-> Hj]. rewrite Nat.add_0_l. unfold entry_at, root_entry.
  rewrite <- (image_contents img _ files t S Sh 0 (root_bytes args) ip (16 * j) 16) by (done || (unfold n in Hj; lia)).
  f_equal; unfold sizeof_dirent; lia.
Qed.

(** *** The inode table *)

(** An entry of the table that [iget] has just taken, and the entry once [ilock] has read its dinode. *)
Definition taken (inum : Z) : inode :=
  mkinode ROOTDEV inum 1 (mksleep false 0) false 0 0 0 0 0 (replicate (Z.to_nat (NDIRECT + 1)) 0).
Definition loaded (img : list block) (inum pid : Z) : inode :=
  set_ivalid true (load_dinode (img_inode img inum) (set_ilock (mksleep true pid) (taken inum))).

Lemma iget_empty c f dev inum i :
  LK_itable ∉ held c → iget_scan (fs_inode f) 0 dev inum None = inr (Some i) →
  iget dev inum c f = Ret i c (set_inodes (alter (λ ip, mkinode dev inum 1 (i_lock ip) false (i_type ip) (i_major ip) (i_minor ip)
                      (i_nlink ip) (i_size ip) (i_addrs ip)) i (fs_inode f)) f).
Proof. destruct c as [h w p]. simpl. intros Hl Hs. unfold iget. kexec. rewrite Hs. unfold modi. by kexec. Qed.

Lemma iput_linked c f i ip :
  LK_itable ∉ held c → fs_inode f !! i = Some ip → i_nlink ip ≠ 0 →
  iput i c f = Ret tt c (set_inodes (alter (λ ip, set_iref (s32 (i_ref ip - 1)) ip) i (fs_inode f)) f).
Proof.
  destruct c as [h w p]. simpl. intros Hl Hi Hn. unfold iput, geti. kexec. rewrite Hi.
  rewrite (proj2 (Z.eqb_neq (i_nlink ip) 0)), andb_false_r by done. unfold modi. by kexec.
Qed.

Lemma iget_scan_inode0 n : ∀ k dev inum i, iget_scan (replicate n inode0) k dev inum (Some i) = inr (Some i).
Proof. induction n as [|n IH]; intros; [done|]. cbn. apply IH. Qed.

Lemma path_names_root name : name ≠ [] → SLASH ∉ name → Z.of_nat (length name) <= DIRSIZ → path_names (SLASH :: name) = [name].
Proof.
  intros Hne Hs Hl. assert (E : split_on SLASH name = [name]).
  { clear Hne Hl. induction name as [|x name IH]; [done|]. cbn [split_on]. rewrite (proj2 (Z.eqb_neq x SLASH)) by set_solver.
    by rewrite IH by set_solver. }
  unfold path_names, path_parts. cbn [split_on]. rewrite Z.eqb_refl, E. rewrite filter_cons_False by (by intros []).
  rewrite filter_cons_True by done. cbn. f_equal. apply take_ge. lia.
Qed.

Lemma ilock_taken img t c (l : L) tbl (u : U) i inum :
  shows img t → tabs (curpid c) l t → held c = [] → 0 <= inum < NINODES → tbl !! i = Some (taken inum) → d_type (img_inode img inum) ≠ 0 →
  ∃ c' l', ilock i c (mkfs l new_sb tbl u) = Ret tt c' (mkfs l' new_sb (<[i:=loaded img inum (curpid c)]> tbl) u) ∧
    same_ctx c c' ∧ tabs (curpid c') l' t.
Proof.
  intros Sh Ha Hh Hin Hi Hty. pose proof (iblock_range inum Hin) as Hr.
  assert (Ed : disk_inode new_sb (t_data t) inum = img_inode img inum).
  { unfold img_inode, disk_inode. rewrite (sh_data _ _ Sh) by (mkconst; lia). done. }
  destruct (ilock_load c (mkfs l new_sb tbl u) t i (taken inum)) as (c' & l' & E & Hc & Ht); try done.
  - unfold tx_clear, bio_clear. rewrite Hh. split_and!; [|intros j|]; apply not_elem_of_nil.
  - rewrite Hh. apply not_elem_of_nil.
  - cbn [taken i_inum fs_sb]. rewrite (sh_size _ _ Sh). mkconst. lia.
  - rewrite (sh_held _ _ Sh). apply not_elem_of_nil.
  - unfold t_free. rewrite (sh_held _ _ Sh), (sh_logged _ _ Sh). done.
  - cbn [taken i_inum fs_sb]. by rewrite Ed.
  - cbn [taken i_inum fs_sb] in E, Ht. rewrite Ed in E, Ht. exists c', l'. split_and!; [|done|exact Ht].
    rewrite E. unfold set_inodes, set_flog. cbn [fs_log fs_sb fs_inode fs_user]. f_equal. f_equal.
    apply list_eq. intros j. destruct (decide (i = j)) as [->|Hne].
    + rewrite list_lookup_alter_eq, Hi, list_lookup_insert_eq by (by eapply lookup_lt_Some). done.
    + by rewrite list_lookup_alter_ne, list_lookup_insert_ne by done.
Qed.

Definition table0 : list inode := replicate NINODE inode0.
(** The table with its first two entries in use. *)
Definition table2 (r x : inode) : list inode := r :: x :: replicate 48 inode0.

(** Scans of a table of unused entries. *)
Lemma scan_first rest dev inum :
  (∀ k i, iget_scan rest k dev inum (Some i) = inr (Some i)) → iget_scan (inode0 :: rest) 0 dev inum None = inr (Some 0%nat).
Proof. intros Hr. cbn. apply Hr. Qed.

Lemma scan_second r rest dev inum :
  (∀ k i, iget_scan rest k dev inum (Some i) = inr (Some i)) → i_ref r = 1 → i_inum r ≠ inum →
  iget_scan (r :: inode0 :: rest) 0 dev inum None = inr (Some 1%nat).
Proof.
  intros Hs Hr Hne. cbn. rewrite (proj2 (Z.eqb_neq (i_inum r) inum)), andb_false_r, Hr by done. apply Hs.
Qed.

Lemma iget_first c (l : L) x (u : U) inum : held c = [] →
  iget ROOTDEV inum c (mkfs l x table0 u) = Ret 0%nat c (mkfs l x (table2 (taken inum) inode0) u).
Proof.
  intros Hh. rewrite (iget_empty c (mkfs l x table0 u) ROOTDEV inum 0); [done|rewrite Hh; apply not_elem_of_nil|].
  apply (scan_first (replicate 49 inode0)). intros. apply iget_scan_inode0.
Qed.

Lemma iget_second c (l : L) x (u : U) r inum : held c = [] → i_ref r = 1 → i_inum r ≠ inum →
  iget ROOTDEV inum c (mkfs l x (table2 r inode0) u) = Ret 1%nat c (mkfs l x (table2 r (taken inum)) u).
Proof.
  intros Hh Hr Hne. rewrite (iget_empty c (mkfs l x (table2 r inode0) u) ROOTDEV inum 1); [done|rewrite Hh; apply not_elem_of_nil|].
  apply (scan_second r (replicate 48 inode0)); [|done..]. intros. apply iget_scan_inode0.
Qed.

Lemma iunlockput_first c (l : L) x (u : U) r y :
  held c = [] → i_lock r = mksleep true (curpid c) → i_ref r = 1 → i_nlink r ≠ 0 →
  ∃ c', iunlockput 0 c (mkfs l x (table2 r y) u) = Ret tt c' (mkfs l x (table2 (set_iref 0 (set_ilock (mksleep false 0) r)) y) u) ∧ same_ctx c c'.
Proof.
  intros Hh Hl Hr Hn. destruct (iunlock_ok c (mkfs l x (table2 r y) u) 0 r) as (c' & E & Hc); [done|rewrite Hh; apply not_elem_of_nil|done|lia|].
  exists c'. split; [|done]. unfold iunlockput. rewrite (kbind_ret _ _ _ _ _ _ _ E). set (r' := set_ilock (mksleep false 0) r).
  change (set_inodes _ _) with (mkfs l x (table2 r' y) u). rewrite (iput_linked c' _ 0 r'); [|by destruct Hc as [-> _]; rewrite Hh; apply not_elem_of_nil|done|done].
  unfold set_inodes. cbn [fs_log fs_sb fs_inode fs_user table2 alter list_alter]. change (i_ref r') with (i_ref r). by rewrite Hr.
Qed.

(** Looking a file up by its absolute path: the root directory is taken, read and released, and entry 1 of the
    table is the inode of the file. *)
Lemma lookup_image img args files t c (l : L) (u : U) k arg bs :
  image_spec img (root_bytes args) files → shows img t → tabs (curpid c) l t → held c = [] →
  names_ok args → Z.of_nat (length args) + 2 <= NINODES → (Z.of_nat (length args) + 2) mod 64 ≠ 0 →
  args !! k = Some arg → files !! k = Some bs → ∀ pid,
  let r := loaded img ROOTINO pid in
  ∃ c' l', dirlookup 0 (stored_name arg) c (mkfs l new_sb (table2 r inode0) u) =
      Ret (Some (1%nat, sizeof_dirent * Z.of_nat (2 + k))) c' (mkfs l' new_sb (table2 r (taken (2 + Z.of_nat k))) u) ∧
    same_ctx c c' ∧ tabs (curpid c') l' t.
Proof.
  intros S Sh Ha Hh Hn Hlim Hm Hk Hbs pid r. pose proof (list_elem_of_lookup_2 _ _ _ Hk) as Hin. pose proof (lookup_lt_Some _ _ _ Hk) as Hlt.
  pose proof (is_root _ _ _ S) as Hr. pose proof (length_root_bytes args) as Hlen. set (n := Z.of_nat (length (root_bytes args))) in *.
  assert (Hty : i_type r = T_DIR) by exact (attrs_type _ _ _ _ _ _ Hr).
  assert (Hrs : i_size r = (n / BSIZE + 1) * BSIZE) by exact (attrs_size _ _ _ _ _ _ Hr).
  assert (Hof : inode_of img 0 r) by reflexivity.
  assert (Hdv : i_dev r = ROOTDEV) by reflexivity. assert (Href : i_ref r = 1) by reflexivity. assert (Hino : i_inum r = ROOTINO) by reflexivity.
  clearbody r. assert (Hnb : nblk n = n / BSIZE + 1) by (unfold nblk; mklia).
  assert (Hp : file_pre c (mkfs l new_sb (table2 r inode0) u) t 0 r).
  { eapply (image_file_pre img (root_bytes args) files t S Sh c _ 0 (root_bytes args)); try done.
    - unfold tx_clear, bio_clear. rewrite Hh. split_and!; [|intros j|]; apply not_elem_of_nil.
    - fold n. rewrite Hrs, Hnb. mklia. }
  destruct (image_entries img args files t r S Sh Hof) as [rest Er]; [fold n; rewrite Hrs, Hnb; mklia|].
  destruct (dirlookup_ok c _ t 0 r (stored_name arg) Hp Hty) as (c' & l' & Hc & Ht & E).
  { rewrite Hrs. unfold sizeof_dirent. mklia. }
  { pose proof (no_len _ Hn _ Hin) as Hl. unfold DIRSIZ in Hl. lia. }
  rewrite Er, (root_find args k arg rest Hn Hk Hlim) in E. unfold strncpy_dirent in E. rewrite dirent_inum_split in E by (mkconst; lia).
  exists c', l'. split_and!; [|done|exact Ht]. rewrite E. unfold set_flog. cbn [fs_sb fs_inode fs_user].
  rewrite (kbind_ret _ _ _ _ _ _ _ (iget_second c' l' new_sb u r (2 + Z.of_nat k) ltac:(by destruct Hc as [-> _]) Href ltac:(rewrite Hino; unfold ROOTINO; lia))).
  done.
Qed.

Lemma namei_image img args files t c (l : L) (u : U) k arg bs :
  image_spec img (root_bytes args) files → shows img t → tabs (curpid c) l t → held c = [] →
  names_ok args → Z.of_nat (length args) + 2 <= NINODES → (Z.of_nat (length args) + 2) mod 64 ≠ 0 →
  args !! k = Some arg → files !! k = Some bs →
  ∃ c' l' tbl, namei None (SLASH :: stored_name arg) c (mkfs l new_sb table0 u) = Ret (Some 1%nat) c' (mkfs l' new_sb tbl u) ∧
    same_ctx c c' ∧ tabs (curpid c') l' t ∧ tbl !! 1%nat = Some (taken (2 + Z.of_nat k)).
Proof.
  intros S Sh Ha Hh Hn Hlim Hm Hk Hbs. pose proof (list_elem_of_lookup_2 _ _ _ Hk) as Hin.
  pose proof (is_root _ _ _ S) as Hr. pose proof (attrs_type _ _ _ _ _ _ Hr) as Hty. pose proof (iget_first c l new_sb u ROOTINO Hh) as E1.
  destruct (ilock_taken img t c l (table2 (taken ROOTINO) inode0) u 0 ROOTINO Sh Ha Hh ltac:(done) eq_refl) as (c2 & l2 & E2 & Hc2 & Ht2); [by rewrite Hty|].
  destruct (lookup_image img args files t c2 l2 u k arg bs S Sh Ht2 ltac:(by destruct Hc2 as [-> _]) Hn Hlim Hm Hk Hbs (curpid c)) as (c3 & l3 & E3 & Hc3 & Ht3).
  assert (Hs3 : same_ctx c c3) by (by transitivity c2).
  assert (Hnl : i_nlink (loaded img ROOTINO (curpid c)) ≠ 0) by (change (d_nlink (img_inode img ROOTINO) ≠ 0); by rewrite (attrs_nlink _ _ _ _ _ _ Hr)).
  assert (Hlk : i_lock (loaded img ROOTINO (curpid c)) = mksleep true (curpid c3)) by (by destruct Hs3 as [_ ->]).
  assert (Htyp : i_type (loaded img ROOTINO (curpid c)) = T_DIR) by exact Hty.
  assert (Href : i_ref (loaded img ROOTINO (curpid c)) = 1) by reflexivity.
  change (<[0%nat:=loaded img ROOTINO (curpid c)]> (table2 (taken ROOTINO) inode0)) with (table2 (loaded img ROOTINO (curpid c)) inode0) in E2.
  set (r := loaded img ROOTINO (curpid c)) in *. clearbody r.
  destruct (iunlockput_first c3 l3 new_sb u r (taken (2 + Z.of_nat k))) as (c4 & E4 & Hc4); [by destruct Hs3 as [-> _]|done..|].
  exists c4, l3, (table2 (set_iref 0 (set_ilock (mksleep false 0) r)) (taken (2 + Z.of_nat k))). split_and!; [|by transitivity c3| |done].
  - unfold namei, namex. rewrite Z.eqb_refl, kbind_assoc, (kbind_ret _ _ _ _ _ _ _ E1).
    rewrite (kbind_run _ _ _ _ _ (namex_loop_walk _ 0 (SLASH :: stored_name arg) false [] c _ (le_n _))).
    rewrite path_names_root; [|by eapply no_empty|by eapply no_slash|by eapply no_len]. cbn [walk].
    rewrite (kbind_ret _ _ _ _ _ _ _ E2). rewrite (kbind_ret _ _ _ _ _ _ _ (geti_ret c2 (mkfs l2 new_sb (table2 r inode0) u) 0 r eq_refl)).
    rewrite Htyp. cbn [negb andb]. change (T_DIR =? T_DIR) with true. cbn [negb]. rewrite (kbind_ret _ _ _ _ _ _ _ E3).
    rewrite (kbind_ret _ _ _ _ _ _ _ E4). done.
  - destruct Hc4 as [_ ->]. exact Ht3.
Qed.

(** Opening a file by its path and reading all of it. *)
Definition read_path (path : list Z) (n : Z) : M FS (Z * list Z) :=
  do ip <- namei None path;
  match ip with
  | Some i => ilock i ;;; readi i KernelVar 0 n
  | None => kret (-1, [])
  end.

Lemma read_image img args files t c (l : L) (u : U) k arg bs :
  image_spec img (root_bytes args) files → shows img t → tabs (curpid c) l t → held c = [] →
  names_ok args → Z.of_nat (length args) + 2 <= NINODES → (Z.of_nat (length args) + 2) mod 64 ≠ 0 →
  args !! k = Some arg → files !! k = Some bs →
  ∃ c' f', read_path (SLASH :: stored_name arg) (Z.of_nat (length bs)) c (mkfs l new_sb table0 u) = Ret (Z.of_nat (length bs), bs) c' f'.
Proof.
  intros S Sh Ha Hh Hn Hlim Hm Hk Hbs. pose proof (lookup_lt_Some _ _ _ Hk) as Hlt.
  destruct (namei_image img args files t c l u k arg bs S Sh Ha Hh Hn Hlim Hm Hk Hbs) as (c1 & l1 & tbl & E1 & Hc1 & Ht1 & Htb).
  pose proof (is_files _ _ _ S k bs Hbs) as Hat. set (inum := 2 + Z.of_nat k) in *.
  destruct (ilock_taken img t c1 l1 tbl u 1 inum Sh Ht1 ltac:(by destruct Hc1 as [-> _]) ltac:(unfold inum; mkconst; lia) Htb) as (c2 & l2 & E2 & Hc2 & Ht2);
    [by rewrite (attrs_type _ _ _ _ _ _ Hat)|].
  assert (Hs2 : same_ctx c c2) by (by transitivity c1).
  assert (Hk' : (root_bytes args :: files) !! Datatypes.S k = Some bs) by exact Hbs.
  pose proof (is_nblk _ _ _ S _ bs Hk') as Hnb.
  set (ip := loaded img inum (curpid c1)) in *.
  assert (Hof : inode_of img (Datatypes.S k) ip).
  { unfold inode_of. change (i_addrs ip) with (d_addrs (img_inode img inum)). do 2 f_equal. unfold inum. lia. }
  assert (Hsz : i_size ip = Z.of_nat (length bs)) by exact (attrs_size _ _ _ _ _ _ Hat).
  assert (Hdv : i_dev ip = ROOTDEV) by reflexivity. clearbody ip.
  assert (Hp : file_pre c2 (mkfs l2 new_sb (<[1%nat:=ip]> tbl) u) t 1 ip).
  { eapply (image_file_pre img _ files t S Sh c2 _ (Datatypes.S k) bs); try done.
    - unfold tx_clear, bio_clear. destruct Hs2 as [-> _]. rewrite Hh. split_and!; [|intros j|]; apply not_elem_of_nil.
    - cbn [fs_inode]. apply list_lookup_insert_eq. by eapply lookup_lt_Some.
    - rewrite Hsz. unfold nblk. mklia. }
  destruct (readi_ok c2 _ t 1 ip 0 (Z.of_nat (length bs)) Hp) as (c3 & l3 & E3 & _ & _); [lia|mkconst; unfold nblk in Hnb; mklia|].
  rewrite Hsz, (proj2 (Z.ltb_ge _ 0)), (proj2 (Z.leb_gt (2 ^ 32) _)) in E3 by (lia || (unfold nblk in Hnb; mklia)). cbn [orb] in E3.
  rewrite Z.sub_0_r, Z.min_id in E3. pose proof (image_contents img _ files t S Sh _ bs ip 0 (length bs) Hk' Hof (le_n _)) as Ec.
  change (Z.of_nat 0) with 0 in Ec. rewrite Ec, slice_full in E3.
  eexists c3, _. unfold read_path. rewrite (kbind_ret _ _ _ _ _ _ _ E1). rewrite (kbind_ret _ _ _ _ _ _ _ E2). exact E3.
Qed.

Lemma readsb_image img root files t c (l : L) x tbl (u : U) :
  image_spec img root files → shows img t → tabs (curpid c) l t → held c = [] →
  ∃ c' l', readsb ROOTDEV c (mkfs l x tbl u) = Ret tt c' (mkfs l' new_sb tbl u) ∧ same_ctx c c' ∧ tabs (curpid c') l' t.
Proof.
  intros S Sh Ha Hh. assert (Hc : tx_clear c) by (unfold tx_clear, bio_clear; rewrite Hh; split_and!; [|intros j|]; apply not_elem_of_nil).
  destruct (fbread_ok c (mkfs l x tbl u) t 1 Ha Hc) as (i & l1 & E1 & Ht1 & Ed).
  { rewrite (sh_size _ _ Sh). mkconst. lia. }
  { rewrite (sh_held _ _ Sh). apply not_elem_of_nil. }
  { unfold t_free. rewrite (sh_held _ _ Sh), (sh_logged _ _ Sh). done. }
  rewrite (sh_data _ _ Sh 1) in Ed by (mkconst; lia).
  destruct (fbrelse_ok c (mkfs l1 new_sb tbl u) (t_take 1 i t) 1 i Ht1 Hc) as (c' & l' & E2 & Hc' & Ht2); [constructor|].
  rewrite drop_take in Ht2 by (rewrite (sh_held _ _ Sh); apply not_elem_of_nil).
  exists c', l'. split_and!; [|done|exact Ht2]. unfold readsb. rewrite (kbind_ret _ _ _ _ _ _ _ E1), (kbind_ret _ _ _ _ _ _ _ Ed).
  rewrite (kbind_ret _ _ _ _ tt c (mkfs l1 new_sb tbl u)); [exact E2|]. unfold kmod. by rewrite (is_super _ _ _ S).
Qed.
End mounted.

(** ** The image in the RAM disk *)

(** The memory of the RAM disk with the image in it. *)
Definition img_mem (img : list block) : mem := λ x, nth (Z.to_nat (x mod BSIZE)) (blk img (x / BSIZE)) 0.

Lemma mread_img img b : length (blk img b) = bsize → mread (img_mem img) (b * BSIZE) bsize = blk img b.
Proof.
  intros Hl. unfold mread. rewrite <- (slice_full (blk img b)), Hl, <- fmap_nth_slice by (rewrite Hl; done).
  apply list_fmap_ext. intros j y Hy. apply lookup_seq in Hy as [-> Hj]. unfold img_mem, bsize in *. rewrite !Nat.add_0_l.
  replace ((b * BSIZE + Z.of_nat j) / BSIZE) with b by mklia. replace ((b * BSIZE + Z.of_nat j) mod BSIZE) with (Z.of_nat j) by mklia.
  by rewrite Nat2Z.id.
Qed.

(** C16. The kernel finds what mkfs stored: when the image is in the RAM disk, and the cache, the log and the superblock have been initialised,
    resolving the path of a file of the command line with [namei] and reading it with [ilock] and [readi] gives exactly the bytes of the file.
    The stored names are distinct valid names, and the number of directory entries does not fill whole blocks (see [mkfs_root_hole]). *)
Theorem mkfs_then_read {U} `{UserOps U} h prog out args c0 k arg (u : U) x :
  h_create h out = true → Forall (arg_ok h) args → image_room h args → names_ok args → (Z.of_nat (length args) + 2) mod 64 ≠ 0 →
  args !! k = Some arg →
  let bs := stored_bytes h arg in
  ∃ s' c1 (l1 : lsys bdev) c2 f2,
    mkfs_main h (prog :: out :: args) c0 mkfs_init = Ret tt c0 s' ∧
    (zoom cache_lens binit ;;; initlog ROOTDEV 2 ;;; begin_op) (mkctx [] [] 1) (mkls (boot_dev (img_mem (fsimg s')) FSSIZE) log0) = Ret tt c1 l1 ∧
    (readsb ROOTDEV ;;; read_path (SLASH :: stored_name arg) (Z.of_nat (length bs))) c1 (mkfs l1 x table0 u) =
      Ret (Z.of_nat (length bs), bs) c2 f2.
Proof.
  intros Ho Hok Hroom Hn Hm Hk bs. destruct (mkfs_main_ok h prog out args c0 Ho Hok Hroom) as (s' & E & S). set (img := fsimg s') in *.
  destruct (tx_boot (img_mem img) FSSIZE 2) as (c1 & l1 & data & E1 & Hh & Hp & Ht & Hd); [lia|uconst; lia| |].
  { rewrite mread_img by (apply S; mkconst; lia). by rewrite (is_log _ _ _ S). }
  set (t := mktv FSSIZE 2 data [] []) in *. rewrite <- Hp in Ht.
  assert (Sh : shows img t).
  { split; [reflexivity| |reflexivity|reflexivity]. intros b Hb Hne. cbn [t t_data]. rewrite Hd by assumption. apply mread_img. apply S. exact Hb. }
  destruct (readsb_image img _ _ t c1 l1 x table0 u S Sh Ht Hh) as (c2 & l2 & E2 & Hc2 & Ht2).
  destruct (read_image img args (stored_bytes h <$> args) t c2 l2 u k arg bs S Sh Ht2) as (c3 & f3 & E3);
    [by destruct Hc2 as [-> _]|done|apply Hroom|done|done|by rewrite list_lookup_fmap, Hk|].
  exists s', c1, l1, c3, f3. split_and!; [exact E|exact E1|]. by rewrite (kbind_ret _ _ _ _ _ _ _ E2).
Qed.

(** ** Witness *)

#[local] Instance no_user_image : UserOps unit := {
  u_copyout _ _ := kret (-1);
  u_copyin _ _ := kret (-1, [])
}.

Lemma demo_names : names_ok demo_args.
Proof.
  split; [apply (bool_decide_unpack _); vm_compute; exact I|..];
    (intros arg Hin; revert arg Hin; apply Forall_forall; apply (bool_decide_unpack _); vm_compute; exact I).
Qed.

Lemma mkfs_then_read_witness :
  let arg := [82; 69; 65; 68] in let bs := stored_bytes demo_host arg in
  ∃ s' c1 (l1 : lsys bdev) c2 f2,
    mkfs_main demo_host ([] :: [] :: demo_args) (mkctx [] [] 0) mkfs_init = Ret tt (mkctx [] [] 0) s' ∧
    (zoom cache_lens binit ;;; initlog ROOTDEV 2 ;;; begin_op) (mkctx [] [] 1) (mkls (boot_dev (img_mem (fsimg s')) FSSIZE) log0) = Ret tt c1 l1 ∧
    (readsb ROOTDEV ;;; read_path (SLASH :: stored_name arg) (Z.of_nat (length bs))) c1 (mkfs l1 (mksb 0 0 0 0 0 0 0 0) table0 tt) =
      Ret (Z.of_nat (length bs), bs) c2 f2.
Proof.
  intros arg bs. apply (mkfs_then_read demo_host [] [] demo_args (mkctx [] [] 0) 1 arg tt); [reflexivity| | |exact demo_names|done|reflexivity].
  - repeat apply List.Forall_cons; [..|apply List.Forall_nil];
      (split; [eexists; reflexivity|apply (bool_decide_unpack _); vm_compute; exact I|apply Z.leb_le; vm_compute; reflexivity..]).
  - split; apply Z.leb_le; vm_compute; reflexivity.
Defined.
