(* ===== verification/Ulib.v ===== *)
(** * The C library of the user programs (user/ulib.c)

    The functions run on the byte memory of the process, like those of file Kstring.  A loop that runs
    until it finds a NUL takes fuel and returns [None] when that is used up; [string_at] says that
    memory holds a C string, and each lemma shows that fuel larger than the string is enough.  The
    system calls [read], [open], [fstat] and [close] are parameters. *)

From stdpp Require Import base list functions numbers strings.
From Stdlib Require Import ZArith Lia.
From S2P Require Import Prelude Machine Kstring.

Implicit Types (m : mem) (a d s t p q c : Z).

(** ** Operations *)

Fixpoint strcpy_loop m s t (fuel : nat) : option mem :=
  match fuel with
  | O => None
  | S fuel' =>
      let m' := mput m s (m t) in
      if m t =? 0 then Some m' else strcpy_loop m' (s + 1) (t + 1) fuel'
  end.
(** The memory after the copy, and the result [os]. *)
Definition strcpy (fuel : nat) m s t : option (mem * Z) :=
  m' ← strcpy_loop m s t fuel; Some (m', s).

Fixpoint strcmp (fuel : nat) m p q : option Z :=
  match fuel with
  | O => None
  | S fuel' =>
      if negb (m p =? 0) && (m p =? m q) then strcmp fuel' m (p + 1) (q + 1)
      else Some (m p - m q)
  end.

Definition strlen (fuel : nat) m s : option Z := strlen_loop m s 0 fuel.

Definition memset m (dst c n : Z) : mem := memset_loop m dst c 0 (Z.to_nat n).

(** The address of the first [c], 0 when there is none. *)
Fixpoint strchr (fuel : nat) m s c : option Z :=
  match fuel with
  | O => None
  | S fuel' =>
      if m s =? 0 then Some 0
      else if m s =? c then Some s
      else strchr fuel' m (s + 1) c
  end.

(** [n] is an int: a value outside its range is undefined. *)
Fixpoint atoi_loop (fuel : nat) m s (n : Z) : option Z :=
  match fuel with
  | O => None
  | S fuel' =>
      if (48 <=? m s) && (m s <=? 57) then
        let n' := n * 10 + m s - 48 in
        if n' <? 2 ^ 31 then atoi_loop fuel' m (s + 1) n' else None
      else Some n
  end.
Definition atoi (fuel : nat) m s : option Z := atoi_loop fuel m s 0.

(** The copy goes up when the source lies above the destination, down otherwise. *)
Definition memmove m (vdst vsrc n : Z) : mem :=
  if vdst <? vsrc then copy_up m vdst vsrc (Z.to_nat n)
  else copy_down m (vdst + n) (vsrc + n) (Z.to_nat n).

Definition memcmp m (s1 s2 n : Z) : Z := memcmp_loop m s1 s2 (Z.to_nat n).

Definition memcpy m (dst src n : Z) : mem := memmove m dst src n.

Section syscalls.
Context {R : Type} (read : R → nat → option (list Z) * R).

(** The loop of [gets]: [i] bytes stored so far, [left] = max - 1 - i. *)
Fixpoint gets_loop m (r : R) buf (i : Z) (left : nat) : mem * R * Z :=
  match left with
  | O => (m, r, i)
  | S left' =>
      match read r 1 with
      | (Some (c :: _), r') =>
          let m' := mput m (buf + i) c in
          if (c =? 10) || (c =? 13) then (m', r', i + 1)
          else gets_loop m' r' buf (i + 1) left'
      | (_, r') => (m, r', i)
      end
  end.
Definition gets m (r : R) buf (max : Z) : mem * R :=
  let '(m', r', i) := gets_loop m r buf 0 (Z.to_nat (max - 1)) in
  (mput m' (buf + i) 0, r').
End syscalls.

(** [stat(n, st)] with the system calls as parameters on the state [S] of the kernel. *)
Definition stat {S St : Type} (open : S → Z * S) (fstat : Z → S → Z * St * S) (close : Z → S → S)
    (st : St) (w : S) : Z * St * S :=
  let '(fd, w1) := open w in
  if fd <? 0 then (-1, st, w1)
  else let '(r, st', w2) := fstat fd w1 in (r, st', close fd w2).

(** ** C strings in memory *)

Fixpoint string_at m s (l : list Z) : Prop :=
  match l with
  | [] => m s = 0
  | x :: l' => m s = x ∧ x ≠ 0 ∧ string_at m (s + 1) l'
  end.

Lemma string_at_ext m m' s l :
  (∀ x, s <= x <= s + Z.of_nat (length l) → m' x = m x) → string_at m s l → string_at m' s l.
Proof.
  revert s. induction l as [|x l IH]; simpl; intros s E.
  - intros <-. apply E. lia.
  - intros (<- & ? & H). split_and!; [apply E; lia|done|]. apply IH; [|done]. intros. apply E. lia.
Qed.

Lemma string_at_unique m s l l' : string_at m s l → string_at m s l' → l = l'.
Proof.
  revert s l'. induction l as [|x l IH]; intros s [|y l']; simpl; [done|naive_solver..|].
  intros (<- & _ & H) (<- & _ & H'). f_equal. eauto.
Qed.

Lemma mread_app m a n k : mread m a (n + k) = mread m a n ++ mread m (a + Z.of_nat n) k.
Proof.
  unfold mread. rewrite seq_app, fmap_app. f_equal. simpl.
  rewrite <- (Nat.add_0_r n) at 1. rewrite <- fmap_add_seq, <- list_fmap_compose.
  apply list_fmap_ext. intros i j _. simpl. f_equal. lia.
Qed.

Lemma mread_S m a n : mread m a (S n) = m a :: mread m (a + 1) n.
Proof. change (S n) with (1 + n)%nat. rewrite mread_app. simpl. by rewrite Z.add_0_r. Qed.

Lemma mread_S_end m a n : mread m a (S n) = mread m a n ++ [m (a + Z.of_nat n)].
Proof. replace (S n) with (n + 1)%nat by lia. by rewrite mread_app, mread_S. Qed.

(** A string is made of the bytes before the NUL. *)
Lemma string_at_mread m s n :
  0 ∉ mread m s n → m (s + Z.of_nat n) = 0 → string_at m s (mread m s n).
Proof.
  revert s. induction n as [|n IH]; intros s Hz H0.
  { simpl. by replace s with (s + Z.of_nat 0) by lia. }
  rewrite mread_S in *. apply not_elem_of_cons in Hz as [? Hz].
  simpl. split_and!; [done..|]. apply IH; [done|]. rewrite <- H0. f_equal. lia.
Qed.

Lemma strlen_string m s l fuel :
  string_at m s l → (length l < fuel)%nat → strlen fuel m s = Some (Z.of_nat (length l)).
Proof.
  intros Hs Hf. unfold strlen. replace (Z.of_nat (length l)) with (0 + Z.of_nat (length l)) by lia.
  assert (string_at m (s + 0) l) as Hs' by (by rewrite Z.add_0_r). clear Hs. revert Hs' Hf.
  generalize 0 as n. revert l. induction fuel as [|fuel IH]; intros [|x l] n Hs Hf; simpl in *; try lia.
  - rewrite Hs. simpl. f_equal. lia.
  - destruct Hs as (-> & Hx%Z.eqb_neq & Hs). rewrite Hx. rewrite (IH l); [f_equal; lia| |lia].
    by rewrite Z.add_assoc.
Qed.

Lemma strchr_string m s l c fuel :
  string_at m s l → c ≠ 0 → (length l < fuel)%nat →
  strchr fuel m s c = Some (match list_find (λ x, x = c) l with
                            | Some (i, _) => s + Z.of_nat i
                            | None => 0
                            end).
Proof.
  revert s l. induction fuel as [|fuel IH]; intros s [|x l] Hs Hc Hf; simpl in *; try lia.
  { by rewrite Hs. }
  destruct Hs as (-> & Hx%Z.eqb_neq & Hs). rewrite Hx. case_decide as E.
  - subst. rewrite Z.eqb_refl. f_equal. lia.
  - rewrite (proj2 (Z.eqb_neq _ _) E). rewrite (IH _ l) by (done || lia).
    destruct (list_find _ l) as [[i ?]|]; simpl; f_equal; lia.
Qed.

(** [strcmp] is 0 exactly on equal strings. *)
Lemma strcmp_zero m p q l l' fuel :
  string_at m p l → string_at m q l' → (length l < fuel)%nat →
  ∃ r, strcmp fuel m p q = Some r ∧ (r = 0 ↔ l = l').
Proof.
  revert p q l l'. induction fuel as [|fuel IH]; intros p q l l' Hp Hq Hf; [lia|].
  destruct l as [|x l], l' as [|y l']; cbn [strcmp string_at] in *.
  - rewrite Hp, Hq. by eexists.
  - destruct Hq as (-> & ? & _). rewrite Hp. eexists. split; [done|]. split; [lia|done].
  - destruct Hp as (-> & Hx & _). rewrite Hq. rewrite (proj2 (Z.eqb_neq _ _) Hx), andb_false_r.
    eexists. split; [done|]. split; [lia|done].
  - destruct Hp as (-> & Hx & Hp), Hq as (-> & Hy & Hq). rewrite (proj2 (Z.eqb_neq _ _) Hx). simpl.
    destruct (Z.eqb_spec x y) as [-> |Hxy].
    + destruct (IH _ _ _ _ Hp Hq) as (r & -> & Hr); [simpl in Hf; lia|].
      eexists. split; [done|]. naive_solver.
    + eexists. split; [done|]. split; [lia|congruence].
Qed.

(** The copy is a string again, and the bytes outside it are unchanged. *)
Lemma strcpy_string m s t l fuel :
  string_at m t l → (length l < fuel)%nat →
  s + Z.of_nat (length l) < t ∨ t + Z.of_nat (length l) < s →
  ∃ m', strcpy fuel m s t = Some (m', s) ∧ string_at m' s l ∧
    ∀ x, x < s ∨ s + Z.of_nat (length l) < x → m' x = m x.
Proof.
  intros Hs Hf Hd. unfold strcpy.
  cut (∃ m', strcpy_loop m s t fuel = Some m' ∧ string_at m' s l ∧
    ∀ x, x < s ∨ s + Z.of_nat (length l) < x → m' x = m x); [intros (m' & -> & ?); eauto|].
  revert m s t l Hs Hf Hd. induction fuel as [|fuel IH]; intros m s t [|x l] Hs Hf Hd; simpl in *; try lia.
  - rewrite Hs. simpl. eexists. split_and!; [done|apply mput_eq|]. intros. apply mput_ne. lia.
  - destruct Hs as (-> & Hx & Hs). rewrite (proj2 (Z.eqb_neq _ _) Hx).
    destruct (IH (mput m s x) (s + 1) (t + 1) l) as (m' & -> & Hm' & Ho); [|lia..|].
    { eapply string_at_ext; [|done]. intros. apply mput_ne. lia. }
    eexists. split_and!; [done| |done|done|].
    + rewrite Ho by lia. apply mput_eq.
    + intros y Hy. rewrite Ho by lia. apply mput_ne. lia.
Qed.

(** [memmove] copies correctly also when the areas overlap. *)
Lemma umemmove_spec m dst src n x : 0 <= n →
  memmove m dst src n x = if (dst <=? x) && (x <? dst + n) then m (src + (x - dst)) else m x.
Proof.
  intros Hn. unfold memmove. destruct (Z.ltb_spec dst src).
  - rewrite copy_up_spec by lia. by rewrite Z2Nat.id.
  - rewrite copy_down_spec by lia. rewrite Z2Nat.id by done.
    replace (dst + n - n) with dst by lia. destruct (_ && _); [|done]. f_equal. lia.
Qed.

(** The number a string of digits stands for. *)
Definition digits_value (l : list Z) : Z := foldl (λ n x, n * 10 + (x - 48)) 0 l.

Lemma foldl_digits_le l n : Forall (λ x, 48 <= x <= 57) l → 0 <= n →
  n <= foldl (λ n x, n * 10 + (x - 48)) n l.
Proof.
  intros Hl. revert n. induction Hl as [|x l ? _ IH]; intros n Hn; simpl; [lia|].
  etrans; [|apply IH]; lia.
Qed.

Lemma atoi_loop_digits m s l n fuel :
  mread m s (length l) = l → Forall (λ x, 48 <= x <= 57) l →
  ¬ 48 <= m (s + Z.of_nat (length l)) <= 57 →
  0 <= n → foldl (λ n x, n * 10 + (x - 48)) n l < 2 ^ 31 → (length l < fuel)%nat →
  atoi_loop fuel m s n = Some (foldl (λ n x, n * 10 + (x - 48)) n l).
Proof.
  revert s l n. induction fuel as [|fuel IH]; intros s l n Hl Hd Hend Hn Hv Hf; [lia|].
  destruct l as [|x l]; cbn [atoi_loop].
  - simpl in *. rewrite Z.add_0_r in Hend.
    destruct (Z.leb_spec 48 (m s)), (Z.leb_spec (m s) 57); done || lia.
  - cbn [length] in Hl. rewrite mread_S in Hl. injection Hl as Hx Hl.
    inversion_clear Hd as [|? ? Hd1 Hd2]. rewrite Hx.
    replace (48 <=? x) with true by (symmetry; apply Z.leb_le; lia).
    replace (x <=? 57) with true by (symmetry; apply Z.leb_le; lia). simpl in *.
    replace (n * 10 + x - 48) with (n * 10 + (x - 48)) by lia.
    assert (n * 10 + (x - 48) < 2 ^ 31) as Hb.
    { eapply Z.le_lt_trans; [apply (foldl_digits_le l)|exact Hv]; [done|lia]. }
    rewrite (proj2 (Z.ltb_lt _ _) Hb). apply IH; try done; [|lia..].
    by replace (s + 1 + Z.of_nat (length l)) with (s + Z.of_nat (S (length l))) by lia.
Qed.

(** [atoi] reads the digits up to the first other character. *)
Lemma atoi_digits m s l fuel :
  mread m s (length l) = l → Forall (λ x, 48 <= x <= 57) l →
  ¬ 48 <= m (s + Z.of_nat (length l)) <= 57 →
  digits_value l < 2 ^ 31 → (length l < fuel)%nat → atoi fuel m s = Some (digits_value l).
Proof. intros. by apply atoi_loop_digits. Qed.
