(* ===== verification/Grep.v ===== *)
(** * grep (user/grep.c)

    A pointer to a C string is the list of the bytes from it to the NUL, so that [p + 1] is the tail of
    the list and [*p == 0] says that the list is empty.  The matcher recurses on the pattern and, in
    [matchstar], on the text; it is structural and so returns on every input.

    The first part gives patterns a meaning as languages and shows that [match_] decides it.  The
    second part is the loop of [grep] over its 1024-byte buffer, with [read] as a parameter, and shows
    that it prints exactly the matching lines however the reads split the input. *)

From stdpp Require Import base list functions sets numbers strings.
From Stdlib Require Import ZArith Lia.
From S2P Require Import Prelude Machine Kstring Ulib.

Abbreviation CARET := 94.
Abbreviation DOLLAR := 36.
Abbreviation STAR := 42.
Abbreviation PERIOD := 46.
Abbreviation NEWLINE := 10.

(** ** The matcher *)

(** [re[0] == '.' || re[0] == *text] *)
Definition fits (c x : Z) : bool := (c =? PERIOD) || (c =? x).

(** The loop of [matchstar]; [here] is [matchhere] on the rest of the pattern. *)
Fixpoint matchstar (here : list Z → bool) (c : Z) (text : list Z) : bool :=
  if here text then true
  else match text with
       | [] => false
       | x :: text' => if (x =? c) || (c =? PERIOD) then matchstar here c text' else false
       end.

Fixpoint matchhere (re text : list Z) {struct re} : bool :=
  match re with
  | [] => true
  | c :: re1 =>
      let next := match text with
                  | [] => false
                  | x :: text' => if fits c x then matchhere re1 text' else false
                  end in
      match re1 with
      | [] => if c =? DOLLAR then match text with [] => true | _ => false end else next
      | d :: re2 => if d =? STAR then matchstar (matchhere re2) c text else next
      end
  end.

(** The loop of [match]: every suffix of the text, the empty one included. *)
Fixpoint match_loop (re text : list Z) : bool :=
  if matchhere re text then true
  else match text with
       | [] => false
       | _ :: text' => match_loop re text'
       end.

Definition match_ (re text : list Z) : bool :=
  match re with
  | c :: re1 => if c =? CARET then matchhere re1 text else match_loop re text
  | [] => match_loop re text
  end.

(** ** The loop of grep *)

Definition BUFSZ : nat := 1024.

(** The string at [p], as [match] reads it. *)
Fixpoint cstr (fuel : nat) (m : mem) (p : Z) : option (list Z) :=
  match fuel with
  | O => None
  | S fuel' => if m p =? 0 then Some [] else cons (m p) <$> cstr fuel' m (p + 1)
  end.

Section grep.
Context {R : Type} (read : R → nat → option (list Z) * R) (buf : Z).

(** The inner loop: the text written to descriptor 1, the memory and the final [p]. *)
Fixpoint grep_lines (fuel : nat) (pattern : list Z) (m : mem) (p : Z) : option (list Z * mem * Z) :=
  match fuel with
  | O => None
  | S fuel' =>
      q ← strchr BUFSZ m p NEWLINE;
      if q =? 0 then Some ([], m, p)
      else
        let m1 := mput m q 0 in
        text ← cstr BUFSZ m1 p;
        let '(w, m2) :=
          if match_ pattern text then
            let m' := mput m1 q NEWLINE in (mread m' p (Z.to_nat (q + 1 - p)), m')
          else ([], m1) in
        '(ws, m3, p') ← grep_lines fuel' pattern m2 (q + 1);
        Some (w ++ ws, m3, p')
  end.

(** The outer loop, with [k] bytes of an unfinished line in the buffer; [read] returns [None] for
    -1. *)
Fixpoint grep_loop (fuel : nat) (pattern : list Z) (r : R) (m : mem) (k : nat)
    : option (list Z * R * mem) :=
  match fuel with
  | O => None
  | S fuel' =>
      match read r (BUFSZ - k - 1) with
      | (Some ((_ :: _) as l), r') =>
          let k1 := (k + length l)%nat in
          let m1 := mput (mwrite m (buf + Z.of_nat k) l) (buf + Z.of_nat k1) 0 in
          '(out, m2, p) ← grep_lines BUFSZ pattern m1 buf;
          let '(k2, m3) :=
            if (0 <? k1)%nat then
              let k2 := (k1 - Z.to_nat (p - buf))%nat in (k2, memmove m2 buf p (Z.of_nat k2))
            else (k1, m2) in
          '(outs, r'', m4) ← grep_loop fuel' pattern r' m3 k2;
          Some (out ++ outs, r'', m4)
      | (_, r') => Some ([], r', m)
      end
  end.

Definition grep (fuel : nat) (pattern : list Z) (r : R) (m : mem) : option (list Z * R * mem) :=
  grep_loop fuel pattern r m 0.

(** [main]: what is written to descriptors 1 and 2, and the exit status.  [open_] is [None] for a
    file that cannot be opened. *)
Context (open_ : list Z → option R).


Fixpoint grep_files (fuel : nat) (pattern : list Z) (files : list (list Z)) (m : mem)
    : option (list Z * Z) :=
  match files with
  | [] => Some ([], 0)
  | f :: files' =>
      match open_ f with
      | None => Some (ascii_bytes "grep: cannot open " ++ f ++ [NEWLINE], 1)
      | Some r =>
          '(out, _, m') ← grep fuel pattern r m;
          '(outs, status) ← grep_files fuel pattern files' m';
          Some (out ++ outs, status)
      end
  end.

Definition grep_main (fuel : nat) (argv : list (list Z)) (stdin : R) (m : mem)
    : option (list Z * list Z * Z) :=
  match argv with
  | _ :: pattern :: files =>
      match files with
      | [] => '(out, _, _) ← grep fuel pattern stdin m; Some (out, [], 0)
      | _ => '(out, status) ← grep_files fuel pattern files m; Some (out, [], status)
      end
  | _ => Some ([], ascii_bytes "usage: grep pattern [file ...]" ++ [NEWLINE], 1)
  end.
End grep.

(** ** What a pattern means *)

(** A pattern is a sequence of single characters and starred characters, which may be anchored at
    either end. *)
Inductive piece := One (c : Z) | Many (c : Z).

(** The pieces of a pattern without its [^], and whether it ends in the anchor [$].  A [*] that does
    not follow a character stands for itself, and so does a [$] that is not the last character. *)
Fixpoint pieces (re : list Z) : list piece * bool :=
  match re with
  | [] => ([], false)
  | c :: re1 =>
      match re1 with
      | [] => if c =? DOLLAR then ([], true) else ([One c], false)
      | d :: re2 =>
          if d =? STAR then let '(ps, e) := pieces re2 in (Many c :: ps, e)
          else let '(ps, e) := pieces re1 in (One c :: ps, e)
      end
  end.

(** The strings a sequence of pieces describes; [.] stands for any character. *)
Inductive denotes : list piece → list Z → Prop :=
  | denotes_nil : denotes [] []
  | denotes_one c x ps u : fits c x = true → denotes ps u → denotes (One c :: ps) (x :: u)
  | denotes_many c w ps u :
      Forall (λ x, fits c x = true) w → denotes ps u → denotes (Many c :: ps) (w ++ u).

(** Some part of [text] is in the language, at the beginning or up to the end if the pattern is
    anchored there. *)
Definition occurs (re text : list Z) : Prop :=
  let anchored := match re with c :: _ => c =? CARET | [] => false end in
  let '(ps, at_end) := pieces (if anchored then tail re else re) in
  ∃ before u after,
    text = before ++ u ++ after ∧ denotes ps u ∧
    (anchored = true → before = []) ∧ (at_end = true → after = []).

(** ** The matcher decides the meaning *)

(** A match of [pieces re] at the beginning of [text]. *)
Definition at_start (re text : list Z) : Prop :=
  ∃ u after, text = u ++ after ∧ denotes (pieces re).1 u ∧ ((pieces re).2 = true → after = []).

Lemma fits_swap c x : (x =? c) || (c =? PERIOD) = fits c x.
Proof. unfold fits. by rewrite orb_comm, (Z.eqb_sym x c). Qed.

Lemma matchstar_split here c text :
  matchstar here c text = true ↔
  ∃ w t, text = w ++ t ∧ Forall (λ x, fits c x = true) w ∧ here t = true.
Proof.
  induction text as [|x text IH]; simpl.
  - destruct (here []) eqn:E; split; try done.
    + intros _. by exists [], [].
    + intros (w & t & Hwt & _ & Ht). by symmetry in Hwt; apply app_nil in Hwt as [-> ->]; congruence.
  - rewrite fits_swap. destruct (here (x :: text)) eqn:E.
    { split; [|done]. intros _. by exists [], (x :: text). }
    destruct (fits c x) eqn:F; [rewrite IH|]; split; try done.
    + intros (w & t & -> & Hw & Ht). exists (x :: w), t. by split_and!; [|constructor|].
    + intros ([|y w] & t & Hwt & Hw & Ht); simplify_eq/=; [congruence|].
      inversion_clear Hw. by exists w, t.
    + intros ([|y w] & t & Hwt & Hw & Ht); simplify_eq/=; [congruence|].
      inversion_clear Hw. congruence.
Qed.

Lemma pieces_one c d re : d ≠ STAR →
  pieces (c :: d :: re) = (One c :: (pieces (d :: re)).1, (pieces (d :: re)).2).
Proof.
  intros Hd%Z.eqb_neq. remember (d :: re) as re1 eqn:E. simpl. rewrite E at 1. rewrite Hd.
  by destruct (pieces re1).
Qed.

(** How a pattern starts, in the order of the tests of [matchhere]. *)
Lemma at_start_one c re text :
  (pieces (c :: re) = (One c :: (pieces re).1, (pieces re).2)) →
  at_start (c :: re) text ↔ ∃ x t, text = x :: t ∧ fits c x = true ∧ at_start re t.
Proof.
  intros E. unfold at_start. rewrite E. simpl. split.
  - intros (u & after & -> & Hd & He). inversion_clear Hd. eexists _, _. split; [done|]. split; [done|]. eauto 10.
  - intros (x & t & -> & Hx & u & after & -> & Hd & He). exists (x :: u), after.
    split_and!; [done| by constructor |done].
Qed.

Lemma at_start_many c re text :
  at_start (c :: STAR :: re) text ↔
  ∃ w t, text = w ++ t ∧ Forall (λ x, fits c x = true) w ∧ at_start re t.
Proof.
  unfold at_start. simpl. destruct (pieces re) as [ps e]. simpl. split.
  - intros (u & after & -> & Hd & He). inversion_clear Hd.
    eexists _, _. rewrite <- app_assoc. split; [done|]. split; [done|]. eauto 10.
  - intros (w & t & -> & Hw & u & after & -> & Hd & He). exists (w ++ u), after.
    rewrite app_assoc. split_and!; [done| by constructor |done].
Qed.

Lemma matchhere_decides re text : matchhere re text = true ↔ at_start re text.
Proof.
  revert text. induction re as [re IH] using (induction_ltof1 _ length); unfold ltof in IH.
  intros text. destruct re as [|c re1].
  { split; [|done]. intros _. exists [], text. by split_and!; [|constructor|]. }
  assert (pieces (c :: re1) = (One c :: (pieces re1).1, (pieces re1).2) →
    (match text with [] => false | x :: t => if fits c x then matchhere re1 t else false end) = true
      ↔ at_start (c :: re1) text) as Hnext.
  { intros E. rewrite (at_start_one _ _ _ E). destruct text as [|x t]; [naive_solver|].
    destruct (fits c x) eqn:F; [|naive_solver]. rewrite IH by (simpl; lia). naive_solver. }
  destruct re1 as [|d re2]; cbn [matchhere].
  - destruct (Z.eqb_spec c DOLLAR) as [-> |Hc].
    + unfold at_start. simpl. split.
      * destruct text; [|done]. intros _. exists [], []. by split_and!; [|constructor|].
      * intros (u & after & -> & Hd & He). inversion_clear Hd. by rewrite He.
    + apply Hnext. simpl. by rewrite (proj2 (Z.eqb_neq _ _) Hc).
  - destruct (Z.eqb_spec d STAR) as [-> |Hd].
    + rewrite matchstar_split, at_start_many. f_equiv. intros w. f_equiv. intros t.
      by rewrite IH by (simpl; lia).
    + apply Hnext. by apply pieces_one.
Qed.

Lemma match_loop_suffix re text :
  match_loop re text = true ↔ ∃ before t, text = before ++ t ∧ matchhere re t = true.
Proof.
  induction text as [|x text IH]; simpl; destruct (matchhere re _) eqn:E.
  - split; [|done]. intros _. by exists [], [].
  - split; [done|]. intros ([] & t & [=] & Ht). subst. congruence.
  - split; [|done]. intros _. by exists [], (x :: text).
  - rewrite IH. split.
    + intros (b & t & -> & Ht). by exists (x :: b), t.
    + intros ([|y b] & t & [=] & Ht); simplify_eq/=; [congruence|]. by exists b, t.
Qed.

(** [matchhere] and [match] decide whether the pattern occurs in the text: concatenation of
    characters and starred characters, [.] for any character, anchors at both ends. *)
Lemma match_occurs re text : match_ re text = true ↔ occurs re text.
Proof.
  unfold occurs, match_. destruct re as [|c re].
  { cbn [pieces]. rewrite match_loop_suffix. split.
    - intros (b & t & -> & _). exists b, [], t. by split_and!; [|constructor| |].
    - intros (b & u & a & -> & _). by eexists b, _. }
  destruct (Z.eqb_spec c CARET) as [-> |Hc]; cbn [tail].
  - rewrite matchhere_decides. unfold at_start. destruct (pieces re) as [ps e]. simpl. split.
    + intros (u & a & -> & ?). exists [], u, a. naive_solver.
    + intros (b & u & a & -> & Hu & Hb & He). rewrite Hb by done. exists u, a. naive_solver.
  - rewrite match_loop_suffix. setoid_rewrite matchhere_decides. unfold at_start.
    destruct (pieces (c :: re)) as [ps e]. simpl. split.
    + intros (b & t & -> & u & a & -> & ?). exists b, u, a. naive_solver.
    + intros (b & u & a & -> & Hu & _ & He). exists b, (u ++ a). naive_solver.
Qed.

#[global] Instance occurs_dec re text : Decision (occurs re text).
Proof.
  destruct (match_ re text) eqn:E; [left|right]; rewrite <- match_occurs; congruence.
Defined.

(** ** Lines *)

(** The lines of a text, without their newlines, and what follows the last newline. *)
Fixpoint split_lines (s : list Z) : list (list Z) * list Z :=
  match s with
  | [] => ([], [])
  | x :: s' =>
      let '(ls, r) := split_lines s' in
      if x =? NEWLINE then ([] :: ls, r)
      else match ls with
           | [] => ([], x :: r)
           | l :: ls' => ((x :: l) :: ls', r)
           end
  end.

(** The matching lines, with their newlines. *)
Definition matching (pattern : list Z) (ls : list (list Z)) : list Z :=
  concat ((λ l, l ++ [NEWLINE]) <$> filter (occurs pattern) ls).

Lemma matching_cons pattern l ls :
  matching pattern (l :: ls) = (if match_ pattern l then l ++ [NEWLINE] else []) ++ matching pattern ls.
Proof.
  unfold matching. rewrite filter_cons. destruct (match_ pattern l) eqn:E; case_decide as D;
    rewrite <- match_occurs in D; congruence || done.
Qed.

Lemma matching_app pattern ls ls' :
  matching pattern (ls ++ ls') = matching pattern ls ++ matching pattern ls'.
Proof. unfold matching. by rewrite filter_app, fmap_app, concat_app. Qed.

Lemma split_none u : NEWLINE ∉ u → split_lines u = ([], u).
Proof.
  induction u as [|x u IH]; [done|]. intros [Hx Hu]%not_elem_of_cons. simpl. rewrite IH by done.
  by rewrite (proj2 (Z.eqb_neq x NEWLINE)) by congruence.
Qed.

Lemma split_first u s :
  NEWLINE ∉ u → split_lines (u ++ NEWLINE :: s) = (u :: (split_lines s).1, (split_lines s).2).
Proof.
  induction u as [|x u IH]; simpl; [by destruct (split_lines s)|].
  intros [Hx Hu]%not_elem_of_cons. rewrite IH by done.
  by rewrite (proj2 (Z.eqb_neq x NEWLINE)) by congruence.
Qed.

(** What is left of the first part is the beginning of the next line. *)
Lemma split_app a b :
  split_lines (a ++ b) =
    ((split_lines a).1 ++ (split_lines ((split_lines a).2 ++ b)).1,
     (split_lines ((split_lines a).2 ++ b)).2).
Proof.
  induction a as [|x a IH]; simpl; [by destruct (split_lines b)|].
  rewrite IH. destruct (split_lines a) as [ls r]. simpl.
  destruct (x =? NEWLINE) eqn:E; [done|]. destruct ls as [|l ls]; [|done].
  simpl. rewrite E. by destruct (split_lines (r ++ b)) as [[|??] ?].
Qed.

Lemma split_rest_free s : NEWLINE ∉ (split_lines s).2.
Proof.
  induction s as [|x s IH]; simpl; [apply not_elem_of_nil|].
  destruct (split_lines s) as [ls r]. simpl in IH. destruct (Z.eqb_spec x NEWLINE); [done|].
  destruct ls; [|done]. apply not_elem_of_cons. split; [congruence|done].
Qed.

(** The text ends in what follows its last newline. *)
Lemma split_rest_suffix s : ∃ a, s = a ++ (split_lines s).2.
Proof.
  induction s as [|x s [a IH]]; simpl; [by exists []|].
  destruct (split_lines s) as [ls r] eqn:E. simpl in IH.
  destruct (x =? NEWLINE); [by exists (x :: a); rewrite IH at 1|].
  destruct ls; [|by exists (x :: a); rewrite IH at 1].
  exists []. simpl. f_equal. revert E. clear. revert r.
  induction s as [|y s IH]; simpl; intros r; [by intros [= <-]|].
  destruct (split_lines s) as [[|??] r']; destruct (y =? NEWLINE); try done.
  intros [= <-]. f_equal. by apply IH.
Qed.

(** ** The inner loop *)

Lemma BUFSZ_eq : BUFSZ = 1024%nat.
Proof. done. Qed.
#[local] Opaque BUFSZ.

Lemma cstr_string fuel m p l :
  string_at m p l → (length l < fuel)%nat → cstr fuel m p = Some l.
Proof.
  revert p l. induction fuel as [|fuel IH]; intros p [|x l] Hs Hf; simpl in *; try lia.
  - by rewrite Hs.
  - destruct Hs as (-> & Hx & Hs). rewrite (proj2 (Z.eqb_neq _ _) Hx). rewrite (IH _ l) by (done || lia).
    done.
Qed.

(** [s] is in memory at [p], without NUL bytes and followed by one. *)
Definition text_at (m : mem) (p : Z) (s : list Z) : Prop :=
  mread m p (length s) = s ∧ (0 ∉ s) ∧ m (p + Z.of_nat (length s)) = 0.

Lemma text_string m p s : text_at m p s → string_at m p s.
Proof. intros (E & Hz & H0). rewrite <- E. apply string_at_mread; [by rewrite E|done]. Qed.

Lemma text_ext m m' p s :
  (∀ x, p <= x <= p + Z.of_nat (length s) → m' x = m x) → text_at m p s → text_at m' p s.
Proof.
  intros E (Hm & Hz & H0). split_and!; [|done|].
  - rewrite <- Hm at 2. apply mread_ext. intros. apply E. lia.
  - rewrite <- H0. apply E. lia.
Qed.

Lemma text_suffix m p u s :
  text_at m p (u ++ s) → text_at m (p + Z.of_nat (length u)) s.
Proof.
  intros (Hm & Hz & H0). rewrite length_app, mread_app in Hm.
  apply app_inj_1 in Hm as [_ Hm]; [|apply length_mread].
  rewrite elem_of_app in Hz. split_and!; [done|naive_solver|].
  rewrite <- H0. rewrite length_app. f_equal. lia.
Qed.

(** Cutting the text at a newline leaves the line before it as a string. *)
Lemma text_cut m p u s :
  text_at m p (u ++ NEWLINE :: s) →
  string_at (mput m (p + Z.of_nat (length u)) 0) p u ∧ mread m p (S (length u)) = u ++ [NEWLINE].
Proof.
  intros (Hm & Hz & H0).
  assert (mread m p (S (length u)) = u ++ [NEWLINE]) as HS.
  { revert Hm. rewrite length_app. cbn [length].
    replace (length u + S (length s))%nat with (S (length u) + length s)%nat by lia.
    rewrite mread_app. rewrite (cons_middle NEWLINE u s), app_assoc.
    intros [Hm _]%app_inj_1; [done|]. rewrite length_mread, length_app. simpl. lia. }
  split; [|done].
  replace (S (length u)) with (length u + 1)%nat in HS by lia. rewrite mread_app in HS.
  apply app_inj_1 in HS as [HS _]; [|apply length_mread].
  assert (mread (mput m (p + Z.of_nat (length u)) 0) p (length u) = u) as Hu.
  { rewrite <- HS at 3. apply mread_ext. intros. apply mput_ne. lia. }
  rewrite <- Hu at 2. apply string_at_mread; [|apply mput_eq].
  rewrite Hu. rewrite elem_of_app in Hz. naive_solver.
Qed.

Lemma find_newline s i x : list_find (λ x, x = NEWLINE) s = Some (i, x) →
  ∃ u s2, s = u ++ NEWLINE :: s2 ∧ length u = i ∧ (NEWLINE ∉ u).
Proof.
  intros (Hi & -> & Hbefore)%list_find_Some. exists (take i s), (drop (S i) s). split_and!.
  - symmetry. by apply take_drop_middle.
  - apply length_take_le. apply lookup_lt_Some in Hi. lia.
  - intros [j Hj]%list_elem_of_lookup. apply lookup_take_Some in Hj as [Hj ?]. by eapply Hbefore.
Qed.

Lemma grep_lines_ok pattern fuel : ∀ m p s,
  text_at m p s → 0 < p → (length s < fuel)%nat → (length s < BUFSZ)%nat →
  ∃ m', grep_lines fuel pattern m p =
      Some (matching pattern (split_lines s).1, m',
            p + Z.of_nat (length s) - Z.of_nat (length (split_lines s).2)) ∧
    text_at m' (p + Z.of_nat (length s) - Z.of_nat (length (split_lines s).2)) (split_lines s).2.
Proof.
  induction fuel as [|fuel IH]; intros m p s Ht Hp Hf Hb; [lia|]. cbn [grep_lines].
  rewrite (strchr_string m p s) by (done || by apply text_string). simpl.
  destruct (list_find _ s) as [[i ?]|] eqn:F.
  - apply find_newline in F as (u & s2 & -> & <- & Hn). rename s2 into s.
    rewrite (proj2 (Z.eqb_neq _ _)) by lia. rewrite split_first by done.
    destruct (text_cut _ _ _ _ Ht) as [Hline Hw].
    rewrite (cstr_string _ _ _ u) by (done || rewrite length_app in Hb; simpl in Hb; lia).
    cbn [mbind option_bind fst snd]. rewrite matching_cons.
    set (q := p + Z.of_nat (length u)) in *.
    set (m2 := if match_ pattern u then mput (mput m q 0) q NEWLINE else mput m q 0).
    assert (∀ x, x ≠ q → m2 x = m x) as Hm2.
    { intros x Hx. unfold m2. destruct (match_ pattern u); by rewrite !mput_ne. }
    destruct (IH m2 (q + 1) s) as (m' & Hrun & Htext); [| |rewrite length_app in *; simpl in *; lia..|].
    { rewrite cons_middle, app_assoc in Ht. apply text_suffix in Ht.
      rewrite length_app, Nat2Z.inj_add, Z.add_assoc in Ht. fold q in Ht. simpl in Ht.
      eapply text_ext; [|done]. intros. apply Hm2. lia. }
    { unfold q. lia. }
    replace (q + 1 + Z.of_nat (length s)) with (p + Z.of_nat (length (u ++ NEWLINE :: s))) in *
      by (unfold q; rewrite length_app; simpl; lia).
    exists m'. split; [|done]. subst m2. destruct (match_ pattern u) eqn:Hmatch; rewrite Hrun; [|done].
    simpl. do 4 f_equal. replace (Z.to_nat (q + 1 - p)) with (S (length u)) by lia.
    rewrite <- Hw. apply mread_ext. intros x _. destruct (decide (x = q)) as [-> |].
    + rewrite mput_eq. symmetry. rewrite mread_S_end in Hw. apply app_inj_2 in Hw as [_ Hw]; [|done].
      by injection Hw.
    + by rewrite !mput_ne.
  - apply list_find_None in F.
    rewrite (split_none s).
    + simpl. exists m. split; [|by replace (p + Z.of_nat (length s) - Z.of_nat (length s)) with p by lia].
      do 2 f_equal. lia.
    + intros Hin. rewrite Forall_forall in F. by apply (F _ Hin).
Qed.

(** ** The outer loop *)

(** What [read] promises on a file or pipe that is read to its end without error: some of the next
    bytes, at least one unless the end is reached or none was asked for. *)
Class ReadStream {R : Type} (read : R → nat → option (list Z) * R) := {
  stream : R → list Z;
  read_next r n : ∃ l r', read r n = (Some l, r') ∧ stream r = l ++ stream r' ∧ (length l ≤ n)%nat ∧
    (l = [] → n = 0%nat ∨ stream r = [])
}.

(** The newline that ends a text without newlines. *)
Lemma split_first_long u s l ls :
  NEWLINE ∉ u → (split_lines (u ++ s)).1 = l :: ls → (length u ≤ length l)%nat.
Proof.
  revert l. induction u as [|x u IH]; simpl; [lia|].
  intros l [Hx Hu]%not_elem_of_cons. destruct (split_lines (u ++ s)) as [[|l' ls'] r]; simpl in *;
    rewrite (proj2 (Z.eqb_neq x NEWLINE)) by congruence; [done|].
  intros [= <- <-]. specialize (IH l' Hu eq_refl). simpl. lia.
Qed.

(** Every line fits in the buffer with its newline and the final NUL. *)
Definition lines_fit (s : list Z) : Prop :=
  Forall (λ l, (length l + 2 ≤ BUFSZ)%nat) (split_lines s).1.

Section outer.
Context {R : Type} (read : R → nat → option (list Z) * R) `{!ReadStream read} (buf : Z).

(** A text that fills the buffer without a newline has no line left. *)
Lemma no_more_lines u s :
  NEWLINE ∉ u → (length u + 1 = BUFSZ)%nat → lines_fit (u ++ s) → (split_lines (u ++ s)).1 = [].
Proof.
  intros Hn Hu Hfit. unfold lines_fit in Hfit. destruct (split_lines (u ++ s)).1 as [|l ls] eqn:E; [done|].
  pose proof (split_first_long _ _ _ _ Hn E). inversion_clear Hfit. lia.
Qed.

Lemma lines_fit_rest a b : lines_fit (a ++ b) → lines_fit ((split_lines a).2 ++ b).
Proof. unfold lines_fit. rewrite split_app. simpl. by intros [_ ?]%Forall_app. Qed.

(** Storing what was read after the pending bytes. *)
Lemma text_append m k pending l :
  mread m buf k = pending → 0 ∉ pending ++ l →
  text_at (mput (mwrite m (buf + Z.of_nat k) l) (buf + Z.of_nat (k + length l)) 0) buf (pending ++ l).
Proof.
  intros Hp Hz. assert (length pending = k) as Hk by (by rewrite <- Hp, length_mread).
  split_and!; [|done|rewrite length_app, Hk; apply mput_eq].
  rewrite length_app, Hk, mread_app. f_equal.
  - rewrite <- Hp. apply mread_ext. intros. rewrite mput_ne by lia. apply mwrite_out. lia.
  - etrans; [|apply (mread_mwrite_eq m (buf + Z.of_nat k))]. apply mread_ext. intros. apply mput_ne. lia.
Qed.

(** Moving the rest of the text to the beginning of the buffer. *)
Lemma text_moved m p s : text_at m p s → mread (memmove m buf p (Z.of_nat (length s))) buf (length s) = s.
Proof.
  intros (Hm & _ & _). etrans; [|exact Hm]. unfold mread. apply list_fmap_ext. intros i j Hi.
  apply lookup_seq in Hi as [-> ?]. rewrite umemmove_spec by lia.
  rewrite (proj2 (Z.leb_le _ _)), (proj2 (Z.ltb_lt _ _)) by lia. simpl. f_equal. lia.
Qed.

Lemma grep_loop_ok pattern fuel : 0 < buf → ∀ r m k,
  NEWLINE ∉ mread m buf k → 0 ∉ mread m buf k ++ stream r → (k < BUFSZ)%nat →
  lines_fit (mread m buf k ++ stream r) → (length (stream r) < fuel)%nat →
  ∃ r' m', grep_loop read buf fuel pattern r m k =
    Some (matching pattern (split_lines (mread m buf k ++ stream r)).1, r', m').
Proof.
  intros Hbuf. induction fuel as [|fuel IH]; intros r m k Hn Hz Hk Hfit Hf; [lia|].
  cbn [grep_loop]. destruct (read_next r (BUFSZ - k - 1)) as (l & r' & -> & Hs & Hl & Hnil).
  destruct l as [|x l].
  { exists r', m. do 3 f_equal. destruct Hnil as [H0|H0]; [done|..].
    - by rewrite no_more_lines by (rewrite ?length_mread; done || lia).
    - by rewrite H0, app_nil_r, split_none. }
  remember (x :: l) as l1 eqn:El1. assert (length l1 ≠ 0%nat) by (by subst). clear x l El1 Hnil. rewrite Hs in *.
  rewrite app_assoc in *. apply not_elem_of_app in Hz as [Hz1 Hz2].
  set (pend := mread m buf k) in *.
  assert (length (pend ++ l1) = (k + length l1)%nat) as Hlen
    by (unfold pend; by rewrite length_app, length_mread).
  destruct (grep_lines_ok pattern BUFSZ _ _ _ (text_append m k pend l1 eq_refl Hz1) Hbuf)
    as (m' & -> & Ht); [lia..|].
  cbn [mbind option_bind]. rewrite (proj2 (Nat.ltb_lt 0 _)) by lia.
  set (rest := (split_lines (pend ++ l1)).2) in *.
  destruct (split_rest_suffix (pend ++ l1)) as [a Ha]. fold rest in Ha.
  assert (length (pend ++ l1) = (length a + length rest)%nat) as Hal by (by rewrite Ha at 1; rewrite length_app).
  replace (k + length l1 - Z.to_nat _)%nat with (length rest) by lia.
  pose proof (text_moved _ _ _ Ht) as Hmv.
  match type of Hmv with mread ?m3 _ _ = _ => destruct (IH r' m3 (length rest)) as (r2 & m2 & ->) end.
  - rewrite Hmv. apply split_rest_free.
  - rewrite Hmv. apply not_elem_of_app. split; [|done]. intros Hin. apply Hz1. rewrite Ha. set_solver.
  - lia.
  - rewrite Hmv. by apply lines_fit_rest.
  - rewrite length_app in Hf. lia.
  - exists r2, m2. simpl. rewrite Hmv, (split_app (pend ++ l1)). simpl. by rewrite matching_app.
Qed.
End outer.

(** ** Theorem *)

(** C32. On an input without NUL bytes in which no line that a newline ends is longer than 1022 bytes, [grep]
    returns and prints, of those lines, exactly the ones in which the pattern occurs, each with its newline
    and in order, however the reads split the input.  What follows the last newline is not printed; an input with a longer line
    is cut short there ([grep_stops_at_long_line]). *)
Theorem grep_prints_matching_lines {R : Type} (read : R → nat → option (list Z) * R)
    `{!ReadStream read} (buf : Z) pattern r m :
  0 < buf → 0 ∉ stream r → lines_fit (stream r) →
  ∃ r' m', grep read buf (S (length (stream r))) pattern r m =
    Some (matching pattern (split_lines (stream r)).1, r', m').
Proof.
  intros Hb Hz Hfit. unfold grep.
  pose proof (grep_loop_ok read buf pattern (S (length (stream r))) Hb r m 0) as H.
  apply H; simpl; [apply not_elem_of_nil|done|rewrite BUFSZ_eq; lia|done|lia].
Qed.

(** A file that is read in pieces of the given sizes, and then as fast as possible. *)
Definition chunked : Type := list Z * list nat.

Definition chunk_read (r : chunked) (n : nat) : option (list Z) * chunked :=
  let '(s, sizes) := r in
  let k := Nat.min n (match sizes with [] => n | c :: _ => S c end) in
  (Some (take k s), (drop k s, tail sizes)).

Lemma chunk_next (r : chunked) n : ∃ l r', chunk_read r n = (Some l, r') ∧ r.1 = l ++ r'.1 ∧
  (length l ≤ n)%nat ∧ (l = [] → n = 0%nat ∨ r.1 = []).
Proof.
  destruct r as [s sizes]. eexists _, _. split; [reflexivity|]. set (k := Nat.min n _).
  split_and!; simpl.
  - by rewrite take_drop.
  - rewrite length_take. lia.
  - intros Hk. destruct s as [|x s]; [by right|]. left. destruct k as [|k'] eqn:E; [|done].
    destruct sizes; lia.
Qed.

#[global] Instance chunk_stream : ReadStream chunk_read := {| stream := fst; read_next := chunk_next |}.

(** ab*c is searched in three lines, of which the first and the last match, read in four pieces. *)
Definition demo_input : chunked :=
  (ascii_bytes "xabbbc" ++ [NEWLINE] ++ ascii_bytes "abb" ++ [NEWLINE] ++ ascii_bytes "ac" ++ [NEWLINE],
   [2%nat; 4%nat; 0%nat]).

Lemma grep_prints_matching_lines_witness :
  matching (ascii_bytes "ab*c") (split_lines (stream demo_input)).1 =
    ascii_bytes "xabbbc" ++ [NEWLINE] ++ ascii_bytes "ac" ++ [NEWLINE] ∧
  ∃ r' m', grep chunk_read 4096 (S (length (stream demo_input))) (ascii_bytes "ab*c") demo_input (λ _, 0) =
    Some (matching (ascii_bytes "ab*c") (split_lines (stream demo_input)).1, r', m').
Proof.
  split; [vm_compute; reflexivity|].
  apply (grep_prints_matching_lines chunk_read 4096 (ascii_bytes "ab*c") demo_input (λ _, 0)).
  - lia.
  - apply (bool_decide_unpack _). vm_compute. exact I.
  - unfold lines_fit. apply (bool_decide_unpack _). vm_compute. exact I.
Defined.

(** A line that does not fit ends the search: the matching line after it is not printed. *)
Lemma grep_stops_at_long_line :
  let input := (replicate 1023 97 ++ [NEWLINE] ++ ascii_bytes "b" ++ [NEWLINE], []) : chunked in
  occurs (ascii_bytes "b") (ascii_bytes "b") ∧
  (λ x, x.1.1) <$> grep chunk_read 4096 10 (ascii_bytes "b") input (λ _, 0) = Some [].
Proof.
  split; [by apply (bool_decide_unpack _); vm_compute|]. vm_compute. reflexivity.
Qed.
