(* ===== verification/Umalloc.v ===== *)
(** * The memory allocator of the user programs (user/umalloc.c)

    The allocator of Kernighan and Ritchie on the byte memory of the process.  A [Header] is 16
    bytes, [s.ptr] at offset 0 and [s.size] at offset 8, and sizes count headers; pointers are
    addresses.  [base] is the address of the static header, [freep] the static pointer (0 before the
    first call), and [sbrk] a parameter.

    The free blocks and [base] form a ring of headers in address order ([heap_ok]).  The search of
    [free] finds the neighbours of the block from any starting point of the ring, and the search of
    [malloc] ends; the two theorems say what the calls do to the free area, and that they do not write
    into memory that belongs to the program. *)

From stdpp Require Import base list functions sets relations numbers strings.
From Stdlib Require Import ZArith Lia.
From S2P Require Import Prelude Machine.

Implicit Types (m : mem) (a b p x : Z).

(** ** Headers *)

Definition sizeof_Header : Z := 16.

Definition hptr m a : Z := load64 m a.
Definition hsize m a : Z := le_combine (mread m (a + 8) 4).
Definition set_ptr m a v : mem := store64 m a v.
Definition set_size m a v : mem := mwrite m (a + 8) (le_split 4 (u32 v)).

(** ** Operations *)

(** The loop of [free]: the header after which [bp] belongs. *)
Fixpoint free_loop (fuel : nat) m (bp p : Z) : option Z :=
  match fuel with
  | O => None
  | S fuel' =>
      let nx := hptr m p in
      if (p <? bp) && (bp <? nx) then Some p
      else if (nx <=? p) && ((p <? bp) || (bp <? nx)) then Some p
      else free_loop fuel' m bp nx
  end.

(** Joining [bp] with the block above it, when they touch. *)
Definition join_upper m (bp p : Z) : mem :=
  let nx := hptr m p in
  if u64 (bp + sizeof_Header * hsize m bp) =? nx then
    let m1 := set_size m bp (hsize m bp + hsize m nx) in
    set_ptr m1 bp (hptr m1 nx)
  else set_ptr m bp nx.

(** Joining [bp] with the block below it, when they touch. *)
Definition join_lower m (bp p : Z) : mem :=
  if u64 (p + sizeof_Header * hsize m p) =? bp then
    let m1 := set_size m p (hsize m p + hsize m bp) in
    set_ptr m1 p (hptr m1 bp)
  else set_ptr m p bp.

(** [free(ap)]: the memory and the new [freep]. *)
Definition free (fuel : nat) m (freep ap : Z) : option (mem * Z) :=
  let bp := ap - sizeof_Header in
  p ← free_loop fuel m bp freep;
  Some (join_lower (join_upper m bp p) bp p, p).

Section malloc.
Context (base : Z) {W : Type} (sbrk : W → Z → option Z * W).

(** [morecore(nu)]: [None] in the result for a null pointer; otherwise the memory and [freep].  The
    argument of [sbrk] is an int. *)
Definition morecore (fuel : nat) m (freep : Z) (w : W) (nu : Z) : option (option (mem * Z) * W) :=
  let nu := if nu <? 4096 then 4096 else nu in
  match sbrk w (s32 (nu * sizeof_Header)) with
  | (None, w') => Some (None, w')
  | (Some p, w') =>
      r ← free fuel (set_size m p nu) freep (p + sizeof_Header);
      Some (Some r, w')
  end.

(** Taking [nunits] from the block [p] that follows [prevp]: the memory and the address returned. *)
Definition carve m (prevp p nunits : Z) : mem * Z :=
  if hsize m p =? nunits then (set_ptr m prevp (hptr m p), p + sizeof_Header)
  else
    let m1 := set_size m p (hsize m p - nunits) in
    let p' := p + sizeof_Header * hsize m1 p in
    (set_size m1 p' nunits, p' + sizeof_Header).

(** The loop of [malloc]: memory, [freep], the world and the address returned. *)
Fixpoint malloc_loop (fuel : nat) m (freep prevp p nunits : Z) (w : W) : option (mem * Z * W * Z) :=
  match fuel with
  | O => None
  | S fuel' =>
      if nunits <=? hsize m p then
        let '(m', ap) := carve m prevp p nunits in Some (m', prevp, w, ap)
      else if p =? freep then
        r ← morecore fuel m freep w nunits;
        match r with
        | (None, w') => Some (m, freep, w', 0)
        | (Some (m', freep'), w') => malloc_loop fuel' m' freep' freep' (hptr m' freep') nunits w'
        end
      else malloc_loop fuel' m freep p (hptr m p) nunits w
  end.

Definition nunits_of (nbytes : Z) : Z := (nbytes + sizeof_Header - 1) / sizeof_Header + 1.

Definition malloc (fuel : nat) m (freep : Z) (w : W) (nbytes : Z) : option (mem * Z * W * Z) :=
  let nunits := nunits_of nbytes in
  let '(m, freep) := if freep =? 0 then (set_size (set_ptr m base base) base 0, base) else (m, freep) in
  malloc_loop fuel m freep freep (hptr m freep) nunits w.
End malloc.

(** ** Reading and writing headers *)

(** Two headers that do not overlap. *)
Definition apart a b : Prop := a + 16 <= b ∨ b + 16 <= a.

Lemma hptr_set_ptr m a v : 0 <= v < 2 ^ 64 → hptr (set_ptr m a v) a = v.
Proof. apply load64_store64. Qed.

Lemma hptr_set_ptr_ne m a v b : apart a b → hptr (set_ptr m a v) b = hptr m b.
Proof. intros. apply load64_store64_ne. unfold apart in *. lia. Qed.

Lemma set_size_out m a v x : x < a + 8 ∨ a + 12 <= x → set_size m a v x = m x.
Proof. intros. apply mwrite_out. rewrite length_le_split. lia. Qed.

Lemma set_ptr_out m a v x : x < a ∨ a + 8 <= x → set_ptr m a v x = m x.
Proof. intros. apply mwrite_out. rewrite length_le_split. lia. Qed.

Lemma hptr_set_size m a v b : a = b ∨ apart a b → hptr (set_size m a v) b = hptr m b.
Proof. intros. apply load64_ext. intros. apply set_size_out. unfold apart in *. lia. Qed.

Lemma hsize_ext m m' a : (∀ x, a + 8 <= x < a + 12 → m' x = m x) → hsize m' a = hsize m a.
Proof. intros E. unfold hsize. f_equal. apply mread_ext. intros. apply E. lia. Qed.

Lemma hsize_set_ptr m a v b : a = b ∨ apart a b → hsize (set_ptr m a v) b = hsize m b.
Proof. intros. apply hsize_ext. intros. apply set_ptr_out. unfold apart in *. lia. Qed.

Lemma hsize_set_size m a v : 0 <= v < 2 ^ 32 → hsize (set_size m a v) a = v.
Proof.
  intros. unfold hsize, set_size. rewrite <- (length_le_split 4 (u32 v)) at 2.
  rewrite mread_mwrite_eq, le_combine_split, u32_small by done. by apply Z.mod_small.
Qed.

Lemma hsize_set_size_ne m a v b : apart a b → hsize (set_size m a v) b = hsize m b.
Proof. intros. apply hsize_ext. intros. apply set_size_out. unfold apart in *. lia. Qed.

(** ** The ring of free blocks *)

(** Each header points to the next one, the last to [z]. *)
Fixpoint linked m (ns : list Z) (z : Z) : Prop :=
  match ns with
  | [] => True
  | x :: ns' => hptr m x = hd z ns' ∧ linked m ns' z
  end.

(** The end of a block; [base] has size 0 but occupies a header. *)
Definition block_end m x : Z := x + 16 * Z.max 1 (hsize m x).

(** The blocks lie in address order between [lo] and [top] and do not touch. *)
Fixpoint layout m (lo : Z) (ns : list Z) (top : Z) : Prop :=
  match ns with
  | [] => lo <= top
  | x :: ns' => lo < x ∧ layout m (block_end m x) ns' top
  end.

(** The free bytes. *)
Definition farea m (ns : list Z) x : Prop := ∃ y, y ∈ ns ∧ y <= x < y + 16 * hsize m y.

(** The allocator's state: the ring of the headers [base :: l], with [freep] on it. *)
Record heap_ok (base : Z) m (freep : Z) (l : list Z) (top : Z) : Prop := mkheap {
  hp_base : 0 < base;
  hp_size0 : hsize m base = 0;
  hp_sizes : Forall (λ x, 0 < hsize m x) l;
  hp_ring : linked m (base :: l) base;
  hp_layout : layout m (base - 1) (base :: l) top;
  hp_freep : freep ∈ base :: l;
  hp_top : top <= 2 ^ 36
}.

Lemma block_end_gt m x : x + 16 <= block_end m x.
Proof. unfold block_end. lia. Qed.

Lemma linked_app m (a b : list Z) z : linked m (a ++ b) z ↔ linked m a (hd z b) ∧ linked m b z.
Proof.
  induction a as [|x a IH]; simpl; [tauto|]. rewrite IH. destruct a; simpl; tauto.
Qed.

Lemma linked_ext m m' ns z : (∀ x, x ∈ ns → hptr m' x = hptr m x) → linked m ns z → linked m' ns z.
Proof.
  induction ns as [|x ns IH]; simpl; [done|]. intros E [<- H].
  split; [apply E; left|]. apply IH; [|done]. intros. apply E. by right.
Qed.

Lemma linked_next m ns z i x : linked m ns z → ns !! i = Some x → hptr m x = default z (ns !! S i).
Proof.
  revert i. induction ns as [|y ns IH]; [done|]. intros [|i] [Hy Hl] Hi; simpl in *.
  - simplify_eq. by destruct ns.
  - by apply IH.
Qed.

Lemma layout_mono m lo lo' ns top : lo' <= lo → layout m lo ns top → layout m lo' ns top.
Proof. destruct ns; simpl; [lia|]. intros ? [??]. split; [lia|done]. Qed.

Lemma layout_top m lo ns top top' : top <= top' → layout m lo ns top → layout m lo ns top'.
Proof. revert lo. induction ns; simpl; [lia|]. intros ?? [??]. auto. Qed.

Lemma layout_app m lo (a b : list Z) top :
  layout m lo (a ++ b) top ↔ ∃ mid, layout m lo a mid ∧ layout m mid b top.
Proof.
  revert lo. induction a as [|x a IH]; intros lo; simpl.
  - split; [intros; by exists lo|]. intros (mid & ? & ?). by eapply layout_mono.
  - rewrite IH. naive_solver.
Qed.

Lemma layout_ext m m' lo ns top :
  (∀ x, x ∈ ns → hsize m' x = hsize m x) → layout m lo ns top → layout m' lo ns top.
Proof.
  revert lo. induction ns as [|x ns IH]; simpl; [done|]. intros lo E [? H]. split; [done|].
  unfold block_end. rewrite (E x) by left. apply IH; [|done]. intros. apply E. by right.
Qed.

Lemma layout_le m lo ns top : layout m lo ns top → lo <= top.
Proof.
  revert lo. induction ns as [|x ns IH]; simpl; [done|]. intros lo [? H%IH].
  pose proof (block_end_gt m x). lia.
Qed.

Lemma layout_bounds m lo ns top x : layout m lo ns top → x ∈ ns → lo < x ∧ block_end m x <= top.
Proof.
  revert lo. induction ns as [|y ns IH]; simpl; intros lo; [by intros _ ?%elem_of_nil|].
  intros [Hy Hl] [Hx|Hx]%elem_of_cons; [subst; by apply layout_le in Hl|].
  destruct (IH _ Hl Hx). pose proof (block_end_gt m y). lia.
Qed.

(** A block is above the blocks before it in the ring and below those after it. *)
Lemma layout_mid m lo (a : list Z) x (b : list Z) top :
  layout m lo (a ++ x :: b) top →
  (∀ y, y ∈ a → block_end m y < x) ∧ (∀ y, y ∈ b → block_end m x < y) ∧ block_end m x <= top.
Proof.
  intros (mid & Ha & Hx & Hb)%layout_app. split_and!.
  - intros y Hy. pose proof (layout_bounds m _ _ _ y Ha Hy). lia.
  - intros y Hy. pose proof (layout_bounds m _ _ _ y Hb Hy). lia.
  - by apply layout_le in Hb.
Qed.

Lemma layout_index m lo ns top i j x y :
  layout m lo ns top → ns !! i = Some x → ns !! j = Some y → (i < j)%nat → block_end m x < y.
Proof.
  intros Hl Hi Hj Hij. rewrite <- (take_drop_middle ns i x Hi) in Hl.
  apply layout_mid in Hl as (_ & Hb & _). apply Hb. apply list_elem_of_lookup.
  exists (j - S i)%nat. rewrite lookup_drop. rewrite <- Hj. f_equal. lia.
Qed.

(** ** The search of [free] *)

Section search.
Context {m : mem} {base : Z} {l : list Z} {top : Z}.
Context (Hring : linked m (base :: l) base) (Hlay : layout m (base - 1) (base :: l) top).
Abbreviation ns := (base :: l).

Lemma ring_next i x : ns !! i = Some x →
  (hptr m x = base ∧ i = length l) ∨ (∃ y, ns !! S i = Some y ∧ hptr m x = y).
Proof.
  intros Hi. rewrite (linked_next _ _ _ _ _ Hring Hi). pose proof (lookup_lt_Some _ _ _ Hi) as Hlt.
  destruct (ns !! S i) as [y|] eqn:E; [by right; exists y|]. left. split; [done|].
  apply lookup_ge_None in E. simpl in *. lia.
Qed.

Lemma ring_lt i j x y : ns !! i = Some x → ns !! j = Some y → (i < j)%nat → x + 16 <= y.
Proof.
  intros. pose proof (layout_index _ _ _ _ i j x y Hlay). pose proof (block_end_gt m x). intuition lia.
Qed.

Lemma ring_inj i j x : ns !! i = Some x → ns !! j = Some x → i = j.
Proof.
  intros Hi Hj. destruct (Nat.lt_trichotomy i j) as [Hlt|[|Hlt]]; [|done|].
  - pose proof (ring_lt _ _ _ _ Hi Hj Hlt). lia.
  - pose proof (ring_lt _ _ _ _ Hj Hi Hlt). lia.
Qed.

Lemma ring_base i x : ns !! i = Some x → base <= x.
Proof. destruct i; [intros [= ->]; lia|]. intros. enough (base + 16 <= x) by lia. by eapply (ring_lt 0 (S i)); [..|lia]. Qed.

(** The number of steps from [i] to [j] around the ring. *)
Definition steps (i j : nat) : nat := if (i <=? j)%nat then j - i else length ns - i + j.

Lemma steps_next i j : (i < length ns)%nat → (j < length ns)%nat → i ≠ j →
  steps i j = S (steps (if (S i <? length ns)%nat then S i else 0) j).
Proof.
  unfold steps. intros. destruct (Nat.ltb_spec (S i) (length ns)); repeat case_match;
    rewrite ?Nat.leb_le, ?Nat.leb_gt in *; lia.
Qed.

(** The entry after [i] is the next in address order, or [base]. *)
Lemma ring_step i x : ns !! i = Some x →
  ns !! (if (S i <? length ns)%nat then S i else 0%nat) = Some (hptr m x).
Proof.
  intros Hi. destruct (ring_next i x Hi) as [[-> ->] |(y & Hy & ->)].
  - simpl. by rewrite Nat.ltb_irrefl.
  - pose proof (lookup_lt_Some _ _ _ Hy) as Hlt. apply Nat.ltb_lt in Hlt. by rewrite Hlt.
Qed.

(** Away from that entry, both tests of the loop fail. *)
Lemma away_from bp j p i x :
  ns !! j = Some p → p < bp → (∀ y, ns !! S j = Some y → bp < y) → ns !! i = Some x → i ≠ j →
  (x <? bp) && (bp <? hptr m x) = false ∧
  (hptr m x <=? x) && ((x <? bp) || (bp <? hptr m x)) = false.
Proof.
  intros Hj Hp Hnext Hi Hij. pose proof (ring_base _ _ Hj).
  destruct (decide (i < j)%nat) as [Hlt|Hge].
  - destruct (ring_next _ _ Hi) as [[_ ->] |(y & Hy & ->)].
    { apply lookup_lt_Some in Hj. simpl in Hj. lia. }
    pose proof (ring_lt _ _ _ _ Hi Hy). assert (y <= p).
    { destruct (decide (S i = j)) as [<- |]; [by simplify_eq|]. pose proof (ring_lt _ _ _ _ Hy Hj). lia. }
    rewrite !andb_false_iff, Z.ltb_ge, Z.leb_gt. lia.
  - assert (bp < x).
    { assert (is_Some (ns !! S j)) as [y Hy].
      { apply lookup_lt_is_Some. apply lookup_lt_Some in Hi. lia. }
      pose proof (Hnext _ Hy). destruct (decide (S j = i)) as [<- |]; [by simplify_eq|].
      pose proof (ring_lt _ _ _ _ Hy Hi). lia. }
    rewrite !andb_false_iff, orb_false_iff, !Z.ltb_ge, Z.leb_gt.
    destruct (ring_next _ _ Hi) as [[-> _] |(y & Hy & ->)]; [lia|].
    pose proof (ring_lt _ _ _ _ Hi Hy). lia.
Qed.

(** From the entry at [i] the loop reaches the entry at [j] after which [bp] belongs; it goes round the
    end of the ring when [i] lies after [j]. *)
Lemma free_loop_finds bp j p :
  ns !! j = Some p → p < bp → (∀ y, ns !! S j = Some y → bp < y) →
  ∀ fuel i x, ns !! i = Some x → (steps i j < fuel)%nat → free_loop fuel m bp x = Some p.
Proof.
  intros Hj Hp Hnext. pose proof (ring_base _ _ Hj) as Hbase.
  induction fuel as [|fuel IH]; intros i x Hi Hf; [lia|]. cbn [free_loop].
  pose proof (lookup_lt_Some _ _ _ Hi). pose proof (lookup_lt_Some _ _ _ Hj).
  destruct (decide (i = j)) as [-> |Hij].
  - assert (x = p) as -> by congruence. rewrite (proj2 (Z.ltb_lt _ _) Hp). simpl.
    destruct (ring_next _ _ Hj) as [[-> _] |(y & Hy & ->)].
    + rewrite (proj2 (Z.ltb_ge _ _)), (proj2 (Z.leb_le _ _)) by lia. done.
    + by rewrite (proj2 (Z.ltb_lt _ _) (Hnext y Hy)).
  - assert ((x <? bp) && (bp <? hptr m x) = false ∧
      (hptr m x <=? x) && ((x <? bp) || (bp <? hptr m x)) = false) as [-> ->].
    { by apply (away_from bp j p i x). }
    rewrite (steps_next i j) in Hf by done. eapply IH; [by apply ring_step|lia].
Qed.
End search.

(** ** Inserting a block *)

(** The part of the ring at and after a header. *)
Record tail_ok m (lo : Z) (ns : list Z) (base top : Z) : Prop := mktail {
  tl_linked : linked m ns base;
  tl_layout : layout m lo ns top;
  tl_sizes : ∀ x, x ∈ ns → x ≠ base → 0 < hsize m x
}.

Lemma tail_ext m m' lo ns base top :
  (∀ x z, x ∈ ns → x <= z < x + 16 → m' z = m z) → tail_ok m lo ns base top → tail_ok m' lo ns base top.
Proof.
  intros E [Hl Hy Hs].
  assert (∀ x, x ∈ ns → hsize m' x = hsize m x) as Es.
  { intros x Hx. apply hsize_ext. intros. apply (E x); [done|lia]. }
  split; [|by eapply layout_ext|by intros; rewrite Es; auto].
  eapply linked_ext; [|done]. intros x Hx. symmetry. apply load64_ext. intros. symmetry. apply (E x); [done|lia].
Qed.

Lemma farea_cons m x ns z : farea m (x :: ns) z ↔ x <= z < x + 16 * hsize m x ∨ farea m ns z.
Proof. unfold farea. setoid_rewrite elem_of_cons. naive_solver. Qed.

Lemma farea_app m (a b : list Z) z : farea m (a ++ b) z ↔ farea m a z ∨ farea m b z.
Proof. unfold farea. setoid_rewrite elem_of_app. naive_solver. Qed.

Lemma farea_ext m m' ns z : (∀ x, x ∈ ns → hsize m' x = hsize m x) → farea m' ns z ↔ farea m ns z.
Proof. intros E. unfold farea. split; intros (y & Hy & ?); exists y; rewrite E in *; auto. Qed.

Lemma tail_cons m lo x ns base top :
  tail_ok m lo (x :: ns) base top ↔
  hptr m x = hd base ns ∧ lo < x ∧ (x ≠ base → 0 < hsize m x) ∧ tail_ok m (block_end m x) ns base top.
Proof.
  split.
  - intros [[??] [??] Hs]. split_and!; [done..| |].
    + intros. apply Hs; [left|done].
    + split; [done..|]. intros. apply Hs; [by right|done].
  - intros (? & ? & Hx & [? ? Hs]). split; [done..|]. intros y [-> |]%elem_of_cons; auto.
Qed.

Lemma tail_lo m lo lo' ns base top :
  tail_ok m lo ns base top → lo' <= top → (∀ y, y ∈ ns → lo' < y) → tail_ok m lo' ns base top.
Proof.
  intros [Hl Hy Hs] Ht Hlt. split; [done| |done]. destruct ns as [|x ns]; [done|].
  destruct Hy. split; [|done]. apply Hlt. left.
Qed.

Lemma tail_hd m lo ns base top :
  tail_ok m lo ns base top → 0 <= lo → 0 <= base < 2 ^ 64 → top <= 2 ^ 36 → 0 <= hd base ns < 2 ^ 64.
Proof.
  intros [_ Hy _] ???. destruct ns as [|x ns]; [done|].
  destruct (layout_bounds _ _ _ _ x Hy); [left|]. pose proof (block_end_gt m x). simpl. lia.
Qed.

(** After joining with the block above, [bp] stands for both and is followed by [b1]. *)
Lemma join_upper_ok m base top p (bp : Z) (b : list Z) :
  let s := hsize m bp in
  tail_ok m (block_end m p) b base top → hptr m p = hd base b → base <= p → p + 16 <= bp →
  0 < base → 0 < s → top <= 2 ^ 36 → bp + 16 * s <= top → (∀ y, y ∈ b → bp + 16 * s <= y) →
  ∃ b1 : list Z, let m1 := join_upper m bp p in
    tail_ok m1 (bp - 1) (bp :: b1) base top ∧ s <= hsize m1 bp ∧ (length b1 ≤ length b)%nat ∧
    (∀ z, farea m1 (bp :: b1) z ↔ bp <= z < bp + 16 * s ∨ farea m b z) ∧
    (∀ z, z < bp ∨ bp + 16 <= z → m1 z = m z).
Proof.
  intros s Hb Hp Hbase Hbp H0 Hs Htop Hend Hclear. pose proof (block_end_gt m p) as Hge.
  unfold join_upper. fold s. rewrite Hp. unfold sizeof_Header. rewrite u64_small by lia.
  destruct (Z.eqb_spec (bp + 16 * s) (hd base b)) as [E|E].
  - destruct b as [|nx b1]; simpl in E; [lia|]. subst nx. simpl. set (nx := bp + 16 * s) in *. exists b1.
    apply tail_cons in Hb as (Hnx & Hlt & Hsz & Hb). assert (0 < hsize m nx) as Hsn by (apply Hsz; lia).
    assert (block_end m nx = nx + 16 * hsize m nx) as En by (unfold block_end; lia).
    pose proof (layout_le _ _ _ _ (tl_layout _ _ _ _ _ Hb)) as Hle.
    pose proof (λ x, layout_bounds _ _ _ _ x (tl_layout _ _ _ _ _ Hb)) as Hin.
    rewrite hptr_set_size, Hnx by (right; unfold apart; lia).
    set (m1 := set_ptr _ _ _).
    assert (hsize m1 bp = s + hsize m nx) as Es.
    { unfold m1. rewrite hsize_set_ptr by auto. apply hsize_set_size. lia. }
    assert (∀ z, z < bp ∨ bp + 16 <= z → m1 z = m z) as Hout.
    { intros z Hz. unfold m1. rewrite set_ptr_out, set_size_out by lia. done. }
    assert (tail_ok m1 (block_end m1 bp) b1 base top) as Hb1.
    { unfold block_end at 1. rewrite Es. replace (bp + _) with (block_end m nx) by lia.
      eapply tail_ext; [|exact Hb]. intros x z Hx ?. apply Hout. destruct (Hin x Hx). lia. }
    split_and!; [|lia|lia| |done].
    + apply tail_cons. split_and!; [|lia|lia|done].
      unfold m1. apply hptr_set_ptr. eapply tail_hd; [exact Hb|lia..].
    + intros z. rewrite !farea_cons, Es, (farea_ext m).
      * assert (bp <= z < bp + 16 * (s + hsize m nx) ↔
          bp <= z < bp + 16 * s ∨ nx <= z < nx + 16 * hsize m nx) by lia. tauto.
      * intros x Hx. apply hsize_ext. intros. apply Hout. destruct (Hin x Hx). lia.
  - exists b. set (m1 := set_ptr _ _ _).
    assert (∀ z, z < bp ∨ bp + 16 <= z → m1 z = m z) as Hout.
    { intros z Hz. unfold m1. by rewrite set_ptr_out by lia. }
    assert (hsize m1 bp = s) as Es by (unfold m1; rewrite hsize_set_ptr by auto; done).
    assert (∀ y, y ∈ b → bp + 16 * s < y) as Hlt.
    { intros y Hy. destruct b as [|nx b]; [by apply elem_of_nil in Hy|]. simpl in E.
      pose proof (Hclear nx ltac:(left)). apply elem_of_cons in Hy as [-> |Hy]; [lia|].
      destruct (tl_layout _ _ _ _ _ Hb) as [_ Hl]. destruct (layout_bounds _ _ _ _ _ Hl Hy).
      pose proof (block_end_gt m nx). lia. }
    split_and!; [|lia|lia| |done].
    + apply tail_cons. split_and!; [|lia|lia|].
      * unfold m1. apply hptr_set_ptr. eapply tail_hd; [exact Hb|lia..].
      * unfold block_end. rewrite Es. replace (bp + _) with (bp + 16 * s) by lia.
        apply (tail_lo _ (block_end m p)); [|lia|done].
        eapply tail_ext; [|exact Hb]. intros x z Hx ?. apply Hout. specialize (Hlt x Hx). lia.
    + intros z. rewrite farea_cons, Es, (farea_ext m); [done|].
      intros x Hx. apply hsize_ext. intros. apply Hout. specialize (Hlt x Hx). lia.
Qed.

(** After joining with the block below, [p] is followed by [bp] or stands for both. *)
Lemma join_lower_ok m base top lo p (bp : Z) (b : list Z) :
  tail_ok m (bp - 1) (bp :: b) base top → lo < p → base <= p → block_end m p <= bp →
  base + 16 < bp → 0 < base → 0 <= hsize m p → (p ≠ base → 0 < hsize m p) → top <= 2 ^ 36 →
  ∃ c : list Z, let m2 := join_lower m bp p in
    tail_ok m2 lo (p :: c) base top ∧ (hsize m p = 0 → hsize m2 p = 0) ∧ (length c ≤ S (length b))%nat ∧
    (∃ y, y ∈ p :: c ∧ hsize m bp <= hsize m2 y) ∧
    (∀ z, farea m2 (p :: c) z ↔ farea m (p :: bp :: b) z) ∧
    (∀ z, z < p ∨ p + 16 <= z → m2 z = m z).
Proof.
  intros Hbp Hlo Hbase Hend Hfar H0 Hs Hsp Htop. pose proof (block_end_gt m p) as Hge.
  pose proof (λ x, layout_bounds _ _ _ _ x (tl_layout _ _ _ _ _ Hbp)) as Hin.
  destruct (Hin bp ltac:(left)) as [_ Hbt]. pose proof (block_end_gt m bp).
  assert (p + 16 * hsize m p <= block_end m p) by (unfold block_end; lia).
  unfold join_lower, sizeof_Header. rewrite u64_small by lia.
  destruct (Z.eqb_spec (p + 16 * hsize m p) bp) as [E|E].
  - exists b. apply tail_cons in Hbp as (Hptr & _ & Hsz & Hb).
    assert (0 < hsize m bp) as Hsb by (apply Hsz; lia).
    assert (block_end m bp = bp + 16 * hsize m bp) as Eb by (unfold block_end; lia).
    rewrite hptr_set_size, Hptr by (right; unfold apart; lia). set (m2 := set_ptr _ _ _).
    assert (hsize m2 p = hsize m p + hsize m bp) as Es.
    { unfold m2. rewrite hsize_set_ptr by auto. apply hsize_set_size. lia. }
    assert (∀ z, z < p ∨ p + 16 <= z → m2 z = m z) as Hout.
    { intros z Hz. unfold m2. by rewrite set_ptr_out, set_size_out by lia. }
    assert (∀ x, x ∈ b → bp <= x) as Hin' by (intros x Hx; destruct (Hin x); [by right|lia]).
    split_and!; [|lia|lia|exists p; split; [left|lia]| |done].
    + apply tail_cons. split_and!; [|done|lia|].
      * unfold m2. apply hptr_set_ptr. eapply tail_hd; [exact Hb|lia..].
      * unfold block_end. rewrite Es. replace (p + _) with (block_end m bp) by lia.
        eapply tail_ext; [|exact Hb]. intros x z Hx ?. apply Hout. specialize (Hin' x Hx). lia.
    + intros z. rewrite !farea_cons, Es, (farea_ext m).
      * assert (p <= z < p + 16 * (hsize m p + hsize m bp) ↔
          p <= z < p + 16 * hsize m p ∨ bp <= z < bp + 16 * hsize m bp) by lia. tauto.
      * intros x Hx. apply hsize_ext. intros. apply Hout. specialize (Hin' x Hx). lia.
  - exists (bp :: b). set (m2 := set_ptr _ _ _).
    assert (∀ z, z < p ∨ p + 16 <= z → m2 z = m z) as Hout.
    { intros z Hz. unfold m2. by rewrite set_ptr_out by lia. }
    assert (hsize m2 p = hsize m p) as Es by (unfold m2; by rewrite hsize_set_ptr by auto).
    assert (∀ x, x ∈ bp :: b → hsize m2 x = hsize m x) as Eb.
    { intros x Hx. apply hsize_ext. intros. apply Hout. specialize (Hin x Hx). lia. }
    assert (block_end m2 p < bp) as Hstrict.
    { unfold block_end in *. rewrite Es. destruct (decide (p = base)); [|specialize (Hsp ltac:(done))]; lia. }
    split_and!; [|lia|simpl; lia|exists bp; rewrite Eb by left; split; [set_solver|lia]| |done].
    + apply tail_cons. split_and!; [|done|by rewrite Es|].
      * unfold m2. apply hptr_set_ptr. simpl. lia.
      * apply (tail_lo _ (bp - 1)); [|lia|intros x Hx; specialize (Hin x Hx); lia].
        eapply tail_ext; [|exact Hbp]. intros x z Hx ?. apply Hout. specialize (Hin x Hx). lia.
    + intros z. rewrite !farea_cons, Es, Eb, (farea_ext m) by (done || left || (intros; apply Eb; by right)). done.
Qed.

(** ** [free] *)

(** The block at [bp] lies in the heap and overlaps no free block. *)
Record clear (base : Z) m (l : list Z) (top bp s : Z) : Prop := mkclear {
  cl_base : base + 16 < bp;
  cl_top : bp + 16 * s <= top;
  cl_apart : ∀ x, x ∈ l → block_end m x <= bp ∨ bp + 16 * s <= x
}.

(** The ring splits at the block. *)
Lemma split_at m lo x (l : list Z) top (bp : Z) :
  layout m lo (x :: l) top → x < bp → bp ∉ l →
  ∃ (a : list Z) p (b : list Z), x :: l = a ++ p :: b ∧ p < bp ∧ ∀ y, y ∈ b → bp < y.
Proof.
  revert lo x. induction l as [|y l IH]; intros lo x [Hx Hl] Hlt Hnin.
  { exists [], x, []. split_and!; [done..|]. by intros y ?%elem_of_nil. }
  apply not_elem_of_cons in Hnin as [Hy Hnin].
  destruct (Z.lt_ge_cases bp y) as [Hb|Hb].
  - exists [], x, (y :: l). split_and!; [done..|]. destruct Hl as [_ Hl].
    intros z [-> |Hz]%elem_of_cons; [done|]. destruct (layout_bounds _ _ _ _ _ Hl Hz).
    pose proof (block_end_gt m y). lia.
  - destruct (IH _ y Hl) as (a & p & b & -> & ?); [lia|done|]. by exists (x :: a), p, b.
Qed.

Lemma heap_tail base m freep l top (a : list Z) p (b : list Z) :
  heap_ok base m freep l top → base :: l = a ++ p :: b →
  ∃ mid, layout m (base - 1) a mid ∧ linked m a p ∧ tail_ok m mid (p :: b) base top ∧
    (∀ x, x ∈ a ++ p :: b → x ≠ base → 0 < hsize m x) ∧ base <= p.
Proof.
  intros [H0 Hs0 Hs Hr Hy Hf Ht] E. rewrite E in *.
  apply layout_app in Hy as (mid & Ha & Hp). apply linked_app in Hr as [Hla Hlp].
  assert (∀ x, x ∈ a ++ p :: b → x ≠ base → 0 < hsize m x) as Hsz.
  { intros x Hx Hne. rewrite <- E in Hx. apply elem_of_cons in Hx as [|Hx]; [done|].
    by eapply Forall_forall in Hs. }
  exists mid. split_and!; [done..| |done|].
  - split; [done..|]. intros. apply Hsz; [set_solver|done].
  - destruct a as [|x a]; injection E as Ex _; [lia|]. destruct Ha as [_ Ha%layout_le], Hp as [? _].
    pose proof (block_end_gt m x). lia.
Qed.

(** A ring is put together again from its parts. *)
Lemma heap_join base m freep (l a : list Z) p (c : list Z) mid top :
  0 < base → top <= 2 ^ 36 → hsize m base = 0 → base :: l = a ++ p :: c →
  layout m (base - 1) a mid → linked m a p → tail_ok m mid (p :: c) base top →
  (∀ x, x ∈ a → x ≠ base → 0 < hsize m x) → freep ∈ base :: l → heap_ok base m freep l top.
Proof.
  intros H0 Ht Hs0 E Ha Hla [Hlp Hyp Hsp] Hsa Hf.
  assert (layout m (base - 1) (base :: l) top) as Hy by (rewrite E; apply layout_app; eauto).
  split; try done.
  - apply Forall_forall. intros x Hx. assert (x ≠ base) as Hne.
    { destruct Hy as [_ Hy]. destruct (layout_bounds _ _ _ _ _ Hy Hx). pose proof (block_end_gt m base). lia. }
    assert (x ∈ a ++ p :: c) as [Hin|Hin]%elem_of_app by (rewrite <- E; by right); auto.
  - rewrite E. by apply linked_app.
Qed.

Lemma farea_base base m freep l top z : heap_ok base m freep l top →
  farea m (base :: l) z ↔ farea m l z.
Proof. intros []. rewrite farea_cons. intuition lia. Qed.

Lemma free_search base m freep l top (a : list Z) p (b : list Z) (bp : Z) fuel :
  heap_ok base m freep l top → base :: l = a ++ p :: b → p < bp → (∀ y, y ∈ b → bp < y) →
  (length l < fuel)%nat → free_loop fuel m bp freep = Some p.
Proof.
  intros [_ _ _ Hr Hy Hfp _] E Hp Hb Hf. apply list_elem_of_lookup in Hfp as [i Hi].
  apply (free_loop_finds Hr Hy bp (length a) p) with (i := i); [..|].
  - by rewrite E, list_lookup_middle.
  - done.
  - intros y Hl. apply Hb. rewrite E, lookup_app_r in Hl by lia.
    replace (S (length a) - length a)%nat with 1%nat in Hl by lia. simpl in Hl.
    by apply list_elem_of_lookup_2 in Hl.
  - done.
  - unfold steps. apply lookup_lt_Some in Hi. apply (f_equal length) in E. rewrite length_app in E. simpl in *.
    case_match; rewrite ?Nat.leb_le, ?Nat.leb_gt in *; lia.
Qed.

(** What lies before [p] in the ring is not touched by writes at and above [p]. *)
Lemma before_ext m m' lo (a : list Z) p mid :
  layout m lo a mid → mid < p → linked m a p → (∀ z, z < p → m' z = m z) →
  layout m' lo a mid ∧ linked m' a p ∧ (∀ x, x ∈ a → hsize m' x = hsize m x).
Proof.
  intros Ha Hmid Hla Hout.
  assert (∀ x, x ∈ a → x + 16 <= mid) as Hin.
  { intros x Hx. destruct (layout_bounds _ _ _ _ _ Ha Hx). pose proof (block_end_gt m x). lia. }
  assert (∀ x, x ∈ a → hsize m' x = hsize m x) as Es.
  { intros x Hx. apply hsize_ext. intros. apply Hout. specialize (Hin x Hx). lia. }
  split_and!; [by eapply layout_ext| |done].
  eapply linked_ext; [|done]. intros x Hx. symmetry. apply load64_ext. intros. symmetry. apply Hout.
  specialize (Hin x Hx). lia.
Qed.

(** Both joins: the ring with the block at [bp] inserted after [p]. *)
Lemma insert_ok base m freep l top (a : list Z) p (b : list Z) (bp : Z) :
  let s := hsize m bp in
  heap_ok base m freep l top → base :: l = a ++ p :: b → block_end m p <= bp →
  (∀ y, y ∈ b → bp + 16 * s <= y) → 0 < s → base + 16 < bp → bp + 16 * s <= top →
  let m' := join_lower (join_upper m bp p) bp p in
  ∃ l' : list Z, heap_ok base m' p l' top ∧ (length l' ≤ S (length l))%nat ∧
    (∀ z, farea m' l' z ↔ farea m l z ∨ bp <= z < bp + 16 * s) ∧
    (∃ y, y ∈ l' ∧ s <= hsize m' y) ∧
    (∀ z, z < p ∨ p + 16 <= z → z < bp ∨ bp + 16 <= z → m' z = m z).
Proof.
  intros s Hok E Hend Hbb Hs Hcb Hct. pose proof Hok as [H0 Hs0 _ _ _ _ Ht].
  destruct (heap_tail _ _ _ _ _ _ _ _ Hok E) as (mid & Ha & Hla & Hpb & Hsz & Hbp).
  pose proof Hpb as (Hpp & Hmid & Hps & Hbt)%tail_cons. pose proof (block_end_gt m p).
  destruct (join_upper_ok m base top p bp b) as (b1 & Ht1 & Hs1 & Hn1 & Hf1 & Ho1); [done || lia..|].
  set (m1 := join_upper m bp p) in *.
  assert (hsize m1 p = hsize m p) as Ep by (apply hsize_ext; intros; apply Ho1; lia).
  assert (0 <= hsize m p) as Hp0 by (destruct (decide (p = base)) as [-> |]; [|specialize (Hps ltac:(done))]; lia).
  destruct (join_lower_ok m1 base top mid p bp b1) as (c & Ht2 & Hz2 & Hn2 & (y & Hyc & Hsy) & Hf2 & Ho2);
    [done|done|done|unfold block_end; by rewrite Ep|done|done|by rewrite Ep|by rewrite Ep|done|].
  set (m2 := join_lower m1 bp p) in *.
  destruct (before_ext m m2 (base - 1) a p mid) as (Ha2 & Hla2 & Hsa2); [done..| |].
  { intros z Hz. rewrite Ho2, Ho1 by lia. done. }
  assert (∃ l', base :: l' = a ++ p :: c) as [l' E'].
  { destruct a as [|x a]; injection E as -> _; [by exists c|by exists (a ++ p :: c)]. }
  assert (hsize m2 base = 0) as Hs2.
  { assert (base ∈ a ++ p :: b) as [Hin|[Hin|Hin]%elem_of_cons]%elem_of_app by (rewrite <- E; left).
    - by rewrite Hsa2. - subst p. apply Hz2. congruence. - specialize (Hbb _ Hin). lia. }
  assert (heap_ok base m2 p l' top) as Hok2.
  { eapply heap_join; eauto; [|rewrite E'; set_solver].
    intros x Hx Hne. rewrite Hsa2 by done. apply Hsz; [set_solver|done]. }
  exists l'. split_and!; [done| | | |].
  - apply (f_equal length) in E, E'. rewrite length_app in *. simpl in *. lia.
  - intros z. rewrite <- (farea_base _ _ _ _ _ _ Hok2), <- (farea_base _ _ _ _ _ _ Hok), E, E'.
    rewrite !farea_app, Hf2, (farea_ext m m2 a), !farea_cons, <- (farea_cons m1 bp b1), Hf1, Ep by done. tauto.
  - exists y. split; [|lia]. assert (y ∈ base :: l') as [-> |]%elem_of_cons by (rewrite E'; set_solver); [lia|done].
  - intros z ??. by rewrite Ho2, Ho1.
Qed.

(** A header of the ring other than [base] lies in the free area. *)
Lemma ring_farea base m freep l top x z : heap_ok base m freep l top →
  x ∈ base :: l → x <= z < x + 16 → farea m l z ∨ base <= z < base + 16.
Proof.
  intros Hok [-> |Hx]%elem_of_cons Hz; [by right|]. left. exists x. split; [done|].
  pose proof (proj1 (Forall_forall _ _) (hp_sizes _ _ _ _ _ Hok) x Hx). simpl in *. lia.
Qed.

Lemma free_ok base m freep l top (bp : Z) fuel :
  let s := hsize m bp in
  heap_ok base m freep l top → clear base m l top bp s → 0 < s → (length l < fuel)%nat →
  ∃ m' p (l' : list Z), free fuel m freep (bp + 16) = Some (m', p) ∧ heap_ok base m' p l' top ∧
    (length l' ≤ S (length l))%nat ∧
    (∀ z, farea m' l' z ↔ farea m l z ∨ bp <= z < bp + 16 * s) ∧
    (∃ y, y ∈ l' ∧ s <= hsize m' y) ∧
    (∀ z, ¬ farea m' l' z → z < base ∨ base + 16 <= z → m' z = m z).
Proof.
  intros s Hok [Hcb Hct Hca] Hs Hf. pose proof Hok as [H0 Hs0 Hsl Hr Hy Hfp Ht].
  destruct (split_at _ _ _ _ _ bp Hy) as (a & p & b & E & Hp & Hb); [lia| |].
  { intros Hin. destruct (Hca _ Hin); [pose proof (block_end_gt m bp)|]; lia. }
  assert (block_end m p <= bp) as Hend.
  { destruct (decide (p = base)) as [-> |Hne]; [unfold block_end; rewrite Hs0; lia|].
    assert (p ∈ base :: l) as Hin by (rewrite E; set_solver).
    destruct (Hca p); [set_solver|done|lia]. }
  assert (∀ y, y ∈ b → bp + 16 * s <= y) as Hbb.
  { intros y Hyb. specialize (Hb y Hyb). assert (y ∈ base :: l) as Hin by (rewrite E; set_solver).
    destruct (Hca y); [|pose proof (block_end_gt m y); lia|done].
    apply elem_of_cons in Hin as [-> |]; [lia|done]. }
  destruct (insert_ok base m freep l top a p b bp) as (l' & Hok' & Hlen & Hfa & Hbig & Hout); [done..|].
  eexists _, p, l'. split_and!; [|done..|].
  - unfold free, sizeof_Header. replace (bp + 16 - 16) with bp by lia.
    by rewrite (free_search base m freep l top a p b bp).
  - intros z Hz Hzb. apply Hout.
    + destruct (decide (z < p ∨ p + 16 <= z)); [done|]. exfalso.
      destruct (ring_farea _ _ _ _ _ p z Hok) as [Hin|]; [rewrite E; set_solver|lia| |lia]. apply Hz, Hfa. by left.
    + destruct (decide (z < bp ∨ bp + 16 <= z)); [done|]. exfalso. apply Hz, Hfa. right. lia.
Qed.

(** ** [malloc] *)

(** What [sbrk] promises for a positive argument: the old break, from which the heap grows, or an
    error without effect. *)
Class Sbrk {W : Type} (sbrk : W → Z → option Z * W) := {
  brk : W → Z;
  sbrk_grows w n : 0 < n < 2 ^ 31 →
    match sbrk w n with
    | (Some p, w') => p = brk w ∧ brk w' = brk w + n ∧ brk w' <= 2 ^ 36
    | (None, w') => brk w' = brk w
    end
}.

(** The block at [hb] of [n] headers has been taken out of the free area [F]. *)
Record taken (base : Z) m' (l' : list Z) (top hb n : Z) (F : Z → Prop) : Prop := mktaken {
  tk_size : hsize m' hb = n;
  tk_clear : clear base m' l' top hb n;
  tk_area : ∀ z, farea m' l' z ∨ hb <= z < hb + 16 * n ↔ F z
}.

(** Taking the whole block unlinks it. *)
Lemma carve_all base m freep l top (a : list Z) prevp p (b : list Z) :
  heap_ok base m freep l top → base :: l = a ++ prevp :: p :: b → 0 < hsize m p →
  let m' := set_ptr m prevp (hptr m p) in
  ∃ l' : list Z, heap_ok base m' prevp l' top ∧ taken base m' l' top p (hsize m p) (farea m l).
Proof.
  intros Hok E Hsz m'. pose proof Hok as [H0 Hs0 _ _ _ _ Ht].
  destruct (heap_tail _ _ _ _ _ _ _ _ Hok E) as (mid & Ha & Hla & Hpb & Hsa & Hbp).
  pose proof Hpb as (_ & Hmid & Hps & Hp)%tail_cons. pose proof Hp as (Hpp & Hlt & _ & Hb)%tail_cons.
  pose proof (block_end_gt m prevp). pose proof (block_end_gt m p).
  pose proof (λ x, layout_bounds _ _ _ _ x (tl_layout _ _ _ _ _ Hb)) as Hin.
  pose proof (layout_le _ _ _ _ (tl_layout _ _ _ _ _ Hb)).
  assert (block_end m p = p + 16 * hsize m p) as Ee by (unfold block_end; lia).
  assert (∀ z, z < prevp ∨ prevp + 8 <= z → m' z = m z) as Hout by (intros; by apply set_ptr_out).
  destruct (before_ext m m' (base - 1) a prevp mid) as (Ha2 & Hla2 & Hsa2); [done..|intros; apply Hout; lia|].
  assert (hsize m' prevp = hsize m prevp) as Esv by (apply hsize_set_ptr; auto).
  assert (∀ x, prevp + 16 <= x → hsize m' x = hsize m x) as Esx.
  { intros. apply hsize_set_ptr. right. unfold apart. lia. }
  assert (∃ l', base :: l' = a ++ prevp :: b) as [l' E'].
  { destruct a as [|x a]; injection E as -> _; [by exists b|by exists (a ++ prevp :: b)]. }
  assert (∀ x, x ∈ a ++ prevp :: b → hsize m' x = hsize m x) as Es.
  { intros x [Hx|[-> |Hx]%elem_of_cons]%elem_of_app; [by apply Hsa2|done|]. apply Esx. destruct (Hin x Hx). lia. }
  assert (base ∈ a ++ prevp :: b) as Hbase by (rewrite <- E'; left).
  assert (heap_ok base m' prevp l' top) as Hok'.
  { eapply heap_join; eauto; [by rewrite Es| | |rewrite E'; set_solver].
    - apply tail_cons. split_and!; [|done|by rewrite Esv|].
      + unfold m'. rewrite Hpp. apply hptr_set_ptr. eapply tail_hd; [exact Hb|lia..].
      + apply (tail_lo _ (block_end m p)); [|unfold block_end in *; rewrite Esv; lia|].
        * eapply tail_ext; [|exact Hb]. intros x z Hx ?. apply Hout. destruct (Hin x Hx). lia.
        * intros x Hx. destruct (Hin x Hx). unfold block_end in *. rewrite Esv. lia.
    - intros x Hx Hne. rewrite Hsa2 by done. apply Hsa; [set_solver|done]. }
  exists l'. split; [done|]. split.
  - apply Esx. lia.
  - split; [lia|lia|]. intros x Hx. assert (x ∈ a ++ prevp :: b) as Hx' by (rewrite <- E'; by right).
    unfold block_end. rewrite Es by done. fold (block_end m x).
    apply elem_of_app in Hx' as [Hx'|[-> |Hx']%elem_of_cons]; [left|left; lia|right].
    + destruct (layout_bounds _ _ _ _ _ Ha Hx'). lia.
    + destruct (Hin x Hx'). lia.
  - intros z. rewrite <- (farea_base _ _ _ _ _ _ Hok'), <- (farea_base _ _ _ _ _ _ Hok), E, E'.
    rewrite (farea_ext m) by done. rewrite !farea_app, !farea_cons. tauto.
Qed.

Lemma layout_shrink m m' lo ns top :
  (∀ x, x ∈ ns → hsize m' x <= hsize m x) → layout m lo ns top → layout m' lo ns top.
Proof.
  revert lo. induction ns as [|x ns IH]; simpl; [done|]. intros lo E [? H]. split; [done|].
  apply (layout_mono _ (block_end m x)); [unfold block_end; specialize (E x ltac:(left)); lia|].
  apply IH; [|done]. intros. apply E. by right.
Qed.

(** Taking the end of a block leaves the ring as it is. *)
Lemma carve_part base m freep l top (a : list Z) prevp p (b : list Z) n :
  heap_ok base m freep l top → base :: l = a ++ prevp :: p :: b → 0 < n < hsize m p →
  let hb := p + 16 * (hsize m p - n) in
  let m' := set_size (set_size m p (hsize m p - n)) hb n in
  heap_ok base m' prevp l top ∧ taken base m' l top hb n (farea m l).
Proof.
  intros Hok E Hn hb m'. pose proof Hok as [H0 Hs0 Hsl Hr Hy Hfp Ht].
  rewrite cons_middle, app_assoc in E. set (a1 := a ++ [prevp]) in *.
  pose proof Hy as Hy'. rewrite E in Hy'. apply layout_mid in Hy' as (Hbelow & Habove & Htop).
  assert (block_end m p = p + 16 * hsize m p) as Ep by (unfold block_end; lia).
  assert (prevp ∈ base :: l) as Hprev by (rewrite E; unfold a1; set_solver).
  assert (∀ x, x ∈ base :: l → x = p ∨ apart p x ∧ apart hb x) as Hap.
  { intros x Hx. rewrite E in Hx. apply elem_of_app in Hx as [Hx|[-> |Hx]%elem_of_cons]; [|by left|]; right.
    - specialize (Hbelow x Hx). pose proof (block_end_gt m x). unfold apart, hb. lia.
    - specialize (Habove x Hx). unfold apart, hb. lia. }
  assert (apart hb p) as Hhp by (unfold apart, hb; lia).
  assert (p ∈ base :: l) as Hin by (rewrite E; set_solver).
  destruct (layout_bounds _ _ _ _ _ Hy Hin) as [Hlo _].
  assert (hsize m' p = hsize m p - n) as Es.
  { unfold m'. rewrite hsize_set_size_ne by done. apply hsize_set_size. lia. }
  assert (∀ x, x ∈ base :: l → x ≠ p → hsize m' x = hsize m x) as Esx.
  { intros x Hx ?. destruct (Hap x Hx) as [|[??]]; [done|]. unfold m'. by rewrite !hsize_set_size_ne. }
  assert (p ≠ base) as Hpb by (intros ->; lia).
  assert (base + 16 < p) as Hbp.
  { apply elem_of_cons in Hin as [|Hin]; [done|]. destruct Hy as [_ Hy].
    destruct (layout_bounds _ _ _ _ _ Hy Hin). pose proof (block_end_gt m base). lia. }
  split; [split; try done|split].
  - by rewrite Esx by (done || left).
  - apply Forall_forall. intros x Hx. destruct (decide (x = p)) as [-> |]; [lia|].
    rewrite Esx by (done || by right). by eapply Forall_forall in Hsl.
  - eapply linked_ext; [|exact Hr]. intros x Hx. unfold m'.
    destruct (Hap x Hx) as [-> |[??]]; rewrite !hptr_set_size; auto.
  - eapply layout_shrink; [|exact Hy]. intros x Hx. destruct (decide (x = p)) as [-> |]; [lia|].
    by rewrite Esx.
  - apply hsize_set_size. lia.
  - split; [unfold hb; lia|unfold hb; lia|]. intros x Hx. destruct (decide (x = p)) as [-> |Hne].
    { left. unfold block_end. rewrite Es. unfold hb. lia. }
    unfold block_end. rewrite Esx by (done || by right). fold (block_end m x).
    assert (x ∈ a1 ++ p :: b) as [Hxa|[|Hxb]%elem_of_cons]%elem_of_app by (rewrite <- E; by right); [|done|].
    + left. specialize (Hbelow x Hxa). unfold hb. lia.
    + right. specialize (Habove x Hxb). unfold hb. lia.
  - intros z. transitivity (farea m' (base :: l) z ∨ hb <= z < hb + 16 * n).
    { rewrite farea_cons, Esx by (done || left). rewrite Hs0. split; intuition lia. }
    rewrite <- (farea_base _ _ _ _ _ _ Hok), E, !farea_app, !farea_cons, Es.
    rewrite !(farea_ext m m'); [|intros x Hx; apply Esx; [rewrite E; set_solver|]; intros ->..].
    + assert (p <= z < p + 16 * (hsize m p - n) ∨ hb <= z < hb + 16 * n ↔ p <= z < p + 16 * hsize m p)
        by (unfold hb; lia). tauto.
    + specialize (Habove p Hx). pose proof (block_end_gt m p). lia.
    + specialize (Hbelow p Hx). pose proof (block_end_gt m p). lia.
Qed.

Lemma carve_ok base m freep l top (a : list Z) prevp p (b : list Z) n :
  heap_ok base m freep l top → base :: l = a ++ prevp :: p :: b → 0 < n <= hsize m p →
  ∃ m' hb (l' : list Z), carve m prevp p n = (m', hb + 16) ∧ heap_ok base m' prevp l' top ∧
    taken base m' l' top hb n (farea m l) ∧
    (∀ z, ¬ farea m l z → z < base ∨ base + 16 <= z → m' z = m z).
Proof.
  intros Hok E Hn. unfold carve.
  assert (prevp ∈ base :: l ∧ p ∈ base :: l) as [Hv Hp] by (rewrite E; set_solver).
  destruct (Z.eqb_spec (hsize m p) n) as [En|En].
  - destruct (carve_all base m freep l top a prevp p b) as (l' & Hok' & Htk); [done|done|lia|].
    eexists _, p, l'. split_and!; [done..|by rewrite <- En|].
    intros z Hz Hb. apply set_ptr_out. destruct (decide (prevp <= z < prevp + 16)); [|lia].
    destruct (ring_farea _ _ _ _ _ prevp z Hok Hv); [done|done|lia].
  - destruct (carve_part base m freep l top a prevp p b n) as [Hok' Htk]; [done|done|lia|].
    pose proof Htk as [Hsz Hcl Har]. set (hb := p + 16 * (hsize m p - n)) in *.
    rewrite hsize_set_size.
    + eexists _, hb, l. split_and!; [done..|]. intros z Hz Hb.
      rewrite !set_size_out; [done| |].
      * destruct (decide (p <= z < p + 16)); [|lia].
        destruct (ring_farea _ _ _ _ _ p z Hok Hp); [done|done|lia].
      * destruct (decide (hb <= z < hb + 16 * n)) as [Hin|]; [|unfold sizeof_Header; lia].
        exfalso. apply Hz, Har. by right.
    + pose proof (hp_layout _ _ _ _ _ Hok) as Hy. pose proof (hp_top _ _ _ _ _ Hok).
      pose proof (hp_base _ _ _ _ _ Hok).
      destruct (layout_bounds _ _ _ _ p Hy) as [? He]; [done|]. unfold block_end in He. lia.
Qed.

(** Writes above the heap, and a higher break, keep the ring. *)
Lemma heap_grow base m m' freep l top top' :
  heap_ok base m freep l top → (∀ z, z < top → m' z = m z) → top <= top' <= 2 ^ 36 →
  heap_ok base m' freep l top' ∧ (∀ x, x ∈ base :: l → hsize m' x = hsize m x).
Proof.
  intros [H0 Hs0 Hsl Hr Hy Hf Ht] E Htop.
  assert (∀ x, x ∈ base :: l → x + 16 <= top) as Hin.
  { intros x Hx. destruct (layout_bounds _ _ _ _ _ Hy Hx). pose proof (block_end_gt m x). lia. }
  assert (∀ x, x ∈ base :: l → hsize m' x = hsize m x) as Es.
  { intros x Hx. apply hsize_ext. intros. apply E. specialize (Hin x Hx). lia. }
  split; [split|]; try done || lia.
  - by rewrite Es by left.
  - apply Forall_forall. intros x Hx. rewrite Es by (by right).
    by eapply Forall_forall in Hsl.
  - eapply linked_ext; [|done]. intros x Hx. symmetry. apply load64_ext. intros. symmetry. apply E.
    specialize (Hin x Hx). lia.
  - apply (layout_top _ _ _ top); [lia|]. by eapply layout_ext.
Qed.

Section malloc_proofs.
Context (base : Z) {W : Type} (sbrk : W → Z → option Z * W) `{!Sbrk sbrk}.

(** Once around the ring from [freep]: a block that is large enough is taken, or the loop comes back to
    [freep] and no block is. *)
Lemma malloc_round m freep l top n w : heap_ok base m freep l top → 0 < n → ∀ f,
  (base :: l) !! f = Some freep → ∀ fuel i prevp, (base :: l) !! i = Some prevp →
  let q := (if (S i <? length (base :: l))%nat then S i else 0)%nat in
  (@steps base l q f < fuel)%nat →
  (∃ (a : list Z) prevp' p (b : list Z), base :: l = a ++ prevp' :: p :: b ∧ n <= hsize m p ∧
    malloc_loop sbrk fuel m freep prevp (hptr m prevp) n w =
      let '(m', ap) := carve m prevp' p n in Some (m', prevp', w, ap)) ∨
  (∃ x, malloc_loop sbrk fuel m freep prevp (hptr m prevp) n w =
      malloc_loop sbrk (fuel - @steps base l q f) m freep x freep n w ∧
    ∀ j y, (base :: l) !! j = Some y → (@steps base l q j <= @steps base l q f)%nat → hsize m y < n).
Proof.
  intros Hok Hn f Hf. pose proof Hok as [H0 Hs0 _ Hr Hy _ _].
  induction fuel as [|fuel IH]; intros i prevp Hi q Hfuel; [lia|].
  pose proof (ring_step Hr i prevp Hi) as Hq. fold q in Hq. cbn [malloc_loop].
  destruct (Z.leb_spec n (hsize m (hptr m prevp))) as [Hfit|Hfit].
  - left. exists (take i (base :: l)), prevp, (hptr m prevp), (drop (S (S i)) (base :: l)).
    split_and!; [|done|done]. unfold q in Hq. destruct (S i <? _)%nat.
    + rewrite <- (take_drop_middle _ _ _ Hi) at 1. f_equal. f_equal.
      by apply drop_S.
    + simpl in Hq. injection Hq as Hq. rewrite <- Hq in Hfit. lia.
  - destruct (Z.eqb_spec (hptr m prevp) freep) as [Efp|Efp].
    + right. exists prevp. rewrite Efp in *. assert (q = f) as -> by (by eapply (ring_inj Hy)).
      assert (@steps base l f f = 0%nat) as Es by (unfold steps; rewrite Nat.leb_refl; lia).
      rewrite Es. split; [|].
      * rewrite Nat.sub_0_r. cbn [malloc_loop]. by rewrite (proj2 (Z.leb_gt _ _) Hfit), Z.eqb_refl.
      * intros j y Hj Hle. assert (j = f) as ->; [|by simplify_eq].
        pose proof (lookup_lt_Some _ _ _ Hj). pose proof (lookup_lt_Some _ _ _ Hf).
        unfold steps in Hle. case_match; rewrite ?Nat.leb_le, ?Nat.leb_gt in *; lia.
    + assert (q ≠ f) as Hqf by congruence.
      assert (q < length (base :: l))%nat by (by eapply lookup_lt_Some).
      assert (f < length (base :: l))%nat by (by eapply lookup_lt_Some).
      rewrite (steps_next q f) in Hfuel |- * by done.
      destruct (IH q (hptr m prevp) Hq) as [Hl|(x & Hx & Hall)]; [lia|by left|].
      right. exists x. split.
      * rewrite Hx. f_equal.
      * intros j y Hj Hle. destruct (decide (q = j)) as [<- |]; [congruence|].
        rewrite (steps_next q j) in Hle by (done || by eapply lookup_lt_Some). eapply Hall; [done|lia].
Qed.

Lemma malloc_pass m freep l top n w fuel : heap_ok base m freep l top → 0 < n → (length l < fuel)%nat →
  (∃ (a : list Z) prevp p (b : list Z), base :: l = a ++ prevp :: p :: b ∧ n <= hsize m p ∧
    malloc_loop sbrk fuel m freep freep (hptr m freep) n w =
      let '(m', ap) := carve m prevp p n in Some (m', prevp, w, ap)) ∨
  (∃ x, malloc_loop sbrk fuel m freep freep (hptr m freep) n w =
      malloc_loop sbrk (fuel - length l) m freep x freep n w ∧
    ∀ y, y ∈ base :: l → hsize m y < n).
Proof.
  intros Hok Hn Hf. destruct (proj1 (list_elem_of_lookup _ _) (hp_freep _ _ _ _ _ Hok)) as [f Hi].
  set (q := (if (S f <? length (base :: l))%nat then S f else 0)%nat).
  pose proof (lookup_lt_Some _ _ _ Hi) as Hlt.
  assert (@steps base l q f = length l) as Es.
  { unfold steps, q. destruct (Nat.ltb_spec (S f) (length (base :: l))); simpl in *;
      repeat case_match; rewrite ?Nat.leb_le, ?Nat.leb_gt in *; lia. }
  destruct (malloc_round m freep l top n w Hok Hn f Hi fuel f freep Hi) as [|(x & Hx & Hall)];
    [fold q; lia|by left|].
  fold q in Hx, Hall. right. exists x. rewrite Es in Hx, Hall. split; [done|].
  intros y [j Hj]%list_elem_of_lookup. apply (Hall j y Hj).
  pose proof (lookup_lt_Some _ _ _ Hj). unfold steps, q in *. simpl in *.
  repeat case_match; rewrite ?Nat.leb_le, ?Nat.leb_gt, ?Nat.ltb_lt, ?Nat.ltb_ge in *; lia.
Qed.

Lemma morecore_ok m freep l w n fuel :
  heap_ok base m freep l (brk w) → base + 16 < brk w → 0 < n → 16 * n < 2 ^ 31 → (length l < fuel)%nat →
  ∃ r w', morecore sbrk fuel m freep w n = Some (r, w') ∧
    match r with
    | None => brk w' = brk w
    | Some (m', freep') => ∃ l' : list Z, heap_ok base m' freep' l' (brk w') ∧
        (length l' ≤ S (length l))%nat ∧ brk w < brk w' ∧
        (∀ z, farea m' l' z ↔ farea m l z ∨ brk w <= z < brk w') ∧
        (∃ y, y ∈ l' ∧ n <= hsize m' y) ∧
        (∀ z, ¬ farea m' l' z → z < base ∨ base + 16 <= z → m' z = m z)
    end.
Proof.
  intros Hok Hb Hn Hmax Hf. unfold morecore, sizeof_Header.
  set (nu := if n <? 4096 then 4096 else n).
  assert (0 < nu ∧ n <= nu ∧ nu * 16 < 2 ^ 31) as (Hnu & Hle & Hnm)
    by (unfold nu; destruct (Z.ltb_spec n 4096); lia).
  rewrite s32_small by lia. pose proof (sbrk_grows w (nu * 16) ltac:(lia)) as Hg.
  destruct (sbrk w (nu * 16)) as [[p|] w']; [|by exists None, w'].
  destruct Hg as (-> & Hw & Hw36). set (m1 := set_size m (brk w) nu).
  assert (hsize m1 (brk w) = nu) as Es by (apply hsize_set_size; lia).
  destruct (heap_grow base m m1 freep l (brk w) (brk w') Hok) as [Hok1 Es1]; [|lia|].
  { intros. apply set_size_out. lia. }
  destruct (free_ok base m1 freep l (brk w') (brk w) fuel Hok1) as
    (m' & p & l' & Hfree & Hok' & Hlen & Hfa & (y & Hy & Hyn) & Hout); [|lia|done|].
  { split; [done|lia|]. intros x Hx. left. unfold block_end. rewrite Es1 by (by right).
    by destruct (layout_bounds _ _ _ _ x (hp_layout _ _ _ _ _ Hok)); [by right|]. }
  rewrite Hfree. simpl. eexists (Some _), w'. split; [done|]. exists l'. rewrite Es in *. split_and!; try done.
  - lia.
  - intros z. rewrite Hfa, (farea_ext m) by (intros; apply Es1; by right). intuition lia.
  - exists y. split; [done|lia].
  - intros z Hz Hzb. rewrite Hout by done. apply set_size_out.
    destruct (decide (brk w <= z < brk w + 16 * nu)) as [Hin|]; [|lia].
    exfalso. apply Hz, Hfa. by right.
Qed.

Lemma taken_iff m l top hb n (F G : Z → Prop) :
  (∀ z, F z ↔ G z) → taken base m l top hb n F → taken base m l top hb n G.
Proof. intros E [Hs Hc Ha]. split; [done..|]. intros z. by rewrite Ha. Qed.

(** What [malloc] does to the heap: it takes a block of [n] headers from the free area and the memory
    added by [sbrk], or returns 0, when the free blocks are too small and [sbrk] fails. *)
Record malloc_result m l w m' l' w' ap n : Prop := mkmr {
  mr_brk : brk w <= brk w';
  mr_frame : ∀ z, ¬ (farea m l z ∨ brk w <= z < brk w') → z < base ∨ base + 16 <= z → m' z = m z;
  mr_block : (ap = 0 ∧ brk w' = brk w ∧ (∀ z, farea m' l' z ↔ farea m l z) ∧ ∀ y, y ∈ l → hsize m y < n) ∨
    taken base m' l' (brk w') (ap - 16) n (λ z, farea m l z ∨ brk w <= z < brk w')
}.

Lemma malloc_loop_ok m freep l w n fuel :
  heap_ok base m freep l (brk w) → base + 16 < brk w → 0 < n → 16 * n < 2 ^ 31 →
  (2 * length l + 4 ≤ fuel)%nat →
  ∃ m' freep' w' ap (l' : list Z),
    malloc_loop sbrk fuel m freep freep (hptr m freep) n w = Some (m', freep', w', ap) ∧
    heap_ok base m' freep' l' (brk w') ∧ malloc_result m l w m' l' w' ap n.
Proof.
  intros Hok Hb Hn Hmax Hf.
  destruct (malloc_pass m freep l (brk w) n w fuel Hok Hn) as
    [(a & prevp & p & b & E & Hfit & ->)|(x & -> & Hsmall)]; [lia|..].
  { destruct (carve_ok base m freep l (brk w) a prevp p b n Hok E) as (m' & hb & l' & -> & Hok' & Htk & Hout);
      [lia|].
    eexists _, _, _, _, l'. split_and!; [done..|]. split; [lia|naive_solver|].
    right. replace (hb + 16 - 16) with hb by lia. eapply taken_iff; [|exact Htk]. simpl. intuition lia. }
  destruct (fuel - length l)%nat as [|fuel'] eqn:Ef; [lia|]. cbn [malloc_loop].
  rewrite (proj2 (Z.leb_gt _ _)) by (apply Hsmall, (hp_freep _ _ _ _ _ Hok)). rewrite Z.eqb_refl.
  destruct (morecore_ok m freep l w n (S fuel') Hok Hb Hn Hmax) as ([[m1 freep1]|] & w1 & -> & Hr); [lia|..].
  - destruct Hr as (l1 & Hok1 & Hlen & Hw & Hfa & (y & Hy & Hyn) & Hout). simpl.
    destruct (malloc_pass m1 freep1 l1 (brk w1) n w1 fuel' Hok1 Hn) as
      [(a & prevp & p & b & E & Hfit & ->)|(x1 & _ & Hsmall1)]; [lia|..].
    + destruct (carve_ok base m1 freep1 l1 (brk w1) a prevp p b n Hok1 E) as (m' & hb & l' & -> & Hok' & Htk & Hout');
        [lia|].
      eexists _, _, _, _, l'. split_and!; [done..|]. split; [lia| |].
      * intros z Hz Hzb. rewrite <- Hfa in Hz. by rewrite Hout', Hout.
      * right. replace (hb + 16 - 16) with hb by lia. by eapply taken_iff.
    + specialize (Hsmall1 y ltac:(by right)). lia.
  - simpl. eexists _, _, _, _, l. split_and!; [done|by rewrite Hr|]. split; [lia|done|].
    left. split_and!; [done..|]. intros y Hy. apply Hsmall. by right.
Qed.

(** The state before the first call, or a ring. *)
Definition heap_inv m freep (l : list Z) top : Prop :=
  heap_ok base m freep l top ∨ (freep = 0 ∧ l = [] ∧ 0 < base ∧ base + 16 <= top <= 2 ^ 36).

Lemma malloc_ok m freep l w nbytes fuel :
  heap_inv m freep l (brk w) → base + 16 < brk w → 0 <= nbytes < 2 ^ 31 - 32 → (2 * length l + 4 ≤ fuel)%nat →
  ∃ m' freep' w' ap (l' : list Z),
    malloc base sbrk fuel m freep w nbytes = Some (m', freep', w', ap) ∧
    heap_ok base m' freep' l' (brk w') ∧ malloc_result m l w m' l' w' ap (nunits_of nbytes).
Proof.
  intros Hinv Hb Hbytes Hf.
  assert (0 < nunits_of nbytes ∧ 16 * nunits_of nbytes < 2 ^ 31) as [Hn Hmax].
  { unfold nunits_of, sizeof_Header. pose proof (Z.mul_div_le (nbytes + 16 - 1) 16).
    pose proof (Z.div_pos (nbytes + 16 - 1) 16). lia. }
  unfold malloc. destruct Hinv as [Hok|(-> & -> & H0 & Htop)].
  - destruct (Z.eqb_spec freep 0) as [-> |]; [|by apply malloc_loop_ok].
    destruct (layout_bounds _ _ _ _ _ (hp_layout _ _ _ _ _ Hok) (hp_freep _ _ _ _ _ Hok)).
    pose proof (hp_base _ _ _ _ _ Hok). lia.
  - simpl. set (m1 := set_size _ _ _).
    assert (hsize m1 base = 0) as Hs by (by apply hsize_set_size).
    assert (hptr m1 base = base) as Hp.
    { unfold m1. rewrite hptr_set_size by auto. apply hptr_set_ptr. lia. }
    assert (heap_ok base m1 base [] (brk w)) as Hok.
    { split; [done|done|constructor|by split| |left|lia]. split; [lia|]. unfold block_end. rewrite Hs. simpl. lia. }
    destruct (malloc_loop_ok m1 base [] w (nunits_of nbytes) fuel) as (m' & f' & w' & ap & l' & Hrun & Hok' & Hres);
      [done..|].
    exists m', f', w', ap, l'. split_and!; [done..|]. destruct Hres as [? Hfr Hbl].
    assert (∀ m0 z, ¬ farea m0 [] z) as Hnil by (intros m0 z (y & Hy & _); by apply elem_of_nil in Hy).
    split; [done| |].
    + intros z Hz Hzb. rewrite Hfr; [|intros [?%Hnil|]; auto|done].
      unfold m1. by rewrite set_size_out, set_ptr_out by lia.
    + destruct Hbl as [(-> & ? & Hfa & ?)|Htk]; [left|right].
      * split_and!; [done..| |by intros y ?%elem_of_nil]. intros z. rewrite Hfa. split; by intros ?%Hnil.
      * eapply taken_iff; [|exact Htk]. intros z. split; (intros [?%Hnil|?]; [done|by right]).
Qed.
End malloc_proofs.

(** ** Fuel

    A result does not depend on the fuel. *)

Lemma free_loop_fuel m bp p fuel fuel' r :
  free_loop fuel m bp p = Some r → (fuel ≤ fuel')%nat → free_loop fuel' m bp p = Some r.
Proof.
  revert p fuel'. induction fuel as [|fuel IH]; intros p [|fuel'] H Hle; try done; [lia|].
  cbn [free_loop] in *. repeat case_match; try done. apply IH; [done|lia].
Qed.

Lemma free_fuel m freep ap fuel fuel' r :
  free fuel m freep ap = Some r → (fuel ≤ fuel')%nat → free fuel' m freep ap = Some r.
Proof.
  unfold free. intros (p & Hp & H)%bind_Some Hle. by rewrite (free_loop_fuel _ _ _ _ _ _ Hp Hle).
Qed.

Lemma malloc_loop_fuel {W} (sbrk : W → Z → option Z * W) fuel : ∀ fuel' m freep prevp p n w r,
  malloc_loop sbrk fuel m freep prevp p n w = Some r → (fuel ≤ fuel')%nat →
  malloc_loop sbrk fuel' m freep prevp p n w = Some r.
Proof.
  induction fuel as [|fuel IH]; intros [|fuel'] m freep prevp p n w r H Hle; try done; [lia|].
  cbn [malloc_loop] in *. destruct (_ <=? _); [done|]. destruct (_ =? _).
  - apply bind_Some in H as ([o w'] & Hm & H). unfold morecore in *.
    destruct (sbrk _ _) as [[q|] w1].
    + apply bind_Some in Hm as (r1 & Hf & [= <- <-]).
      rewrite (free_fuel _ _ _ _ (S fuel') _ Hf) by lia. simpl. destruct r1. apply IH; [done|lia].
    + injection Hm as <- <-. done.
  - apply IH; [done|lia].
Qed.

Lemma malloc_fuel base {W} (sbrk : W → Z → option Z * W) fuel fuel' m freep w nb r :
  malloc base sbrk fuel m freep w nb = Some r → (fuel ≤ fuel')%nat →
  malloc base sbrk fuel' m freep w nb = Some r.
Proof. unfold malloc. destruct (_ =? _); apply malloc_loop_fuel. Qed.

(** ** A program that uses the allocator *)

Lemma nunits_enough nbytes : 0 <= nbytes → 0 < nunits_of nbytes ∧ nbytes + 16 <= 16 * nunits_of nbytes.
Proof.
  intros. unfold nunits_of, sizeof_Header. pose proof (Z.mod_pos_bound (nbytes + 16 - 1) 16).
  pose proof (Z.div_mod (nbytes + 16 - 1) 16). pose proof (Z.div_pos (nbytes + 16 - 1) 16). lia.
Qed.

(** The live areas of the program, as pointer and requested size: [malloc] has returned them and they
    have not been freed. *)
Definition area : Type := Z * Z.
Definition start (r : area) : Z := r.1 - 16.
Definition units (r : area) : Z := nunits_of r.2.
Definition in_area (r : area) z : Prop := start r <= z < start r + 16 * units r.

Definition disjoint_areas (r r' : area) : Prop :=
  start r + 16 * units r <= start r' ∨ start r' + 16 * units r' <= start r.

Fixpoint separate (rs : list area) : Prop :=
  match rs with
  | [] => True
  | r :: rs' => Forall (disjoint_areas r) rs' ∧ separate rs'
  end.

#[global] Instance separate_perm : Proper ((≡ₚ) ==> iff) separate.
Proof.
  assert (∀ rs rs', rs ≡ₚ rs' → separate rs → separate rs') as H.
  { induction 1 as [|r rs rs' Hp IH|r r' rs|]; simpl; [done| | |tauto].
    - intros [Hr Hs]. split; [by rewrite <- Hp|auto].
    - rewrite !Forall_cons. intros [[H1 H2] [H3 H4]]. by split_and!. }
  intros rs rs' Hp. split; apply H; [done|by symmetry].
Qed.

Lemma separate_in rs r r' : separate rs → r ∈ rs → r' ∈ rs → r = r' ∨ disjoint_areas r r'.
Proof.
  intros Hs [k Hk]%list_elem_of_lookup. apply delete_Permutation in Hk. rewrite Hk in Hs |- *.
  intros [-> |Hr]%elem_of_cons; [by left|right]. destruct Hs as [Hs _]. by eapply Forall_forall in Hs.
Qed.

Record uheap (W : Type) := mkuh { uh_mem : mem; uh_freep : Z; uh_w : W; uh_live : list area }.
Arguments mkuh {W}. Arguments uh_mem {W}. Arguments uh_freep {W}. Arguments uh_w {W}. Arguments uh_live {W}.

Inductive uop := OMalloc (nbytes : Z) | OFree (ap : Z) | OWrite (z v : Z).

Section program.
Context (base : Z) {W : Type} (sbrk : W → Z → option Z * W) `{!Sbrk sbrk}.

(** The program allocates, frees what it has allocated, and writes into its areas. *)
Inductive ustep (u : uheap W) : uop → uheap W → Prop :=
  | us_malloc fuel nbytes m' f' w' ap :
      0 <= nbytes < 2 ^ 31 - 32 →
      malloc base sbrk fuel (uh_mem u) (uh_freep u) (uh_w u) nbytes = Some (m', f', w', ap) →
      ustep u (OMalloc nbytes)
        (mkuh m' f' w' (if ap =? 0 then uh_live u else (ap, nbytes) :: uh_live u))
  | us_free fuel ap nbytes m' f' live :
      uh_live u ≡ₚ (ap, nbytes) :: live →
      free fuel (uh_mem u) (uh_freep u) ap = Some (m', f') →
      ustep u (OFree ap) (mkuh m' f' (uh_w u) live)
  | us_write ap nbytes z v :
      (ap, nbytes) ∈ uh_live u → ap <= z < ap + nbytes →
      ustep u (OWrite z v) (mkuh (mput (uh_mem u) z v) (uh_freep u) (uh_w u) (uh_live u)).

(** Before the first call of [malloc]. *)
Definition uinit (u : uheap W) : Prop :=
  uh_freep u = 0 ∧ uh_live u = [] ∧ 0 < base ∧ base + 16 < brk (uh_w u) <= 2 ^ 36.

Record live_ok m (l : list Z) (w : W) (r : area) : Prop := mklive {
  lv_bytes : 0 <= r.2;
  lv_size : hsize m (start r) = units r;
  lv_clear : clear base m l (brk w) (start r) (units r)
}.

Definition uinv (u : uheap W) : Prop :=
  ∃ l, (heap_ok base (uh_mem u) (uh_freep u) l (brk (uh_w u)) ∨ uinit u ∧ l = []) ∧
    base + 16 < brk (uh_w u) ∧ Forall (live_ok (uh_mem u) l (uh_w u)) (uh_live u) ∧ separate (uh_live u).

(** An area overlaps no free block exactly when none of its bytes is free. *)
Lemma clear_area m l top hb n z : clear base m l top hb n → hb <= z < hb + 16 * n → ¬ farea m l z.
Proof.
  intros [_ _ Hap] Hz (y & Hy & Hyz). destruct (Hap y Hy) as [He|He]; [unfold block_end in He|]; lia.
Qed.

Lemma area_clear m freep l top hb n : heap_ok base m freep l top →
  base + 16 < hb → hb + 16 * n <= top → 0 < n → (∀ z, hb <= z < hb + 16 * n → ¬ farea m l z) →
  clear base m l top hb n.
Proof.
  intros Hok Hb Ht Hn Hz. split; [done..|]. intros x Hx.
  pose proof (proj1 (Forall_forall _ _) (hp_sizes _ _ _ _ _ Hok) x Hx) as Hs. simpl in Hs.
  destruct (decide (block_end m x <= hb ∨ hb + 16 * n <= x)) as [|Hno]; [done|]. exfalso.
  unfold block_end in Hno. apply (Hz (Z.max x hb)); [lia|]. exists x. split; [done|lia].
Qed.

(** A live area stays as it is when its bytes are not written and none of them becomes free. *)
Lemma live_keep m l w m' freep' l' w' r :
  live_ok m l w r → heap_ok base m' freep' l' (brk w') → brk w <= brk w' →
  (∀ z, in_area r z → m' z = m z) → (∀ z, in_area r z → ¬ farea m' l' z) → live_ok m' l' w' r.
Proof.
  intros [Hb Hs Hc] Hok Hw Hm Hf. destruct (nunits_enough r.2 Hb) as [Hn _]. fold (units r) in Hn.
  split; [done| |].
  - rewrite <- Hs. apply hsize_ext. intros. apply Hm. unfold in_area. lia.
  - destruct Hc. by eapply area_clear; [done|done|lia|done|].
Qed.

Lemma intervals_apart (a n a' n' : Z) : 0 < n → 0 < n' →
  (∀ z, a <= z < a + 16 * n → a' <= z < a' + 16 * n' → False) → a + 16 * n <= a' ∨ a' + 16 * n' <= a.
Proof. intros ?? H. specialize (H (Z.max a a')). lia. Qed.

(** The bytes of a live area are neither free, nor above the break, nor those of [base]. *)
Lemma live_bytes m l w r z : live_ok m l w r → in_area r z →
  ¬ farea m l z ∧ z < brk w ∧ (z < base ∨ base + 16 <= z).
Proof.
  intros [Hb Hs Hc] Hz. split; [by eapply clear_area|]. destruct Hc. unfold in_area in *. lia.
Qed.

Lemma malloc_keeps u nbytes fuel m' f' w' ap :
  uinv u → 0 <= nbytes < 2 ^ 31 - 32 →
  malloc base sbrk fuel (uh_mem u) (uh_freep u) (uh_w u) nbytes = Some (m', f', w', ap) →
  uinv (mkuh m' f' w' (if ap =? 0 then uh_live u else (ap, nbytes) :: uh_live u)) ∧
  ∀ r z, r ∈ uh_live u → in_area r z → m' z = uh_mem u z.
Proof.
  intros (l & Hheap & Hb & Hlive & Hsep) Hnb Hrun.
  assert (heap_inv base (uh_mem u) (uh_freep u) l (brk (uh_w u))) as Hinv.
  { destruct Hheap as [|[(? & ? & ? & ?) ->]]; [by left|right]. split_and!; done || lia. }
  destruct (malloc_ok base sbrk _ _ l _ nbytes (2 * length l + 4 + fuel) Hinv Hb Hnb) as
    (m1 & f1 & w1 & ap1 & l' & Hrun1 & Hok & [Hbrk Hfr Hbl]); [lia|].
  rewrite (malloc_fuel _ _ _ (2 * length l + 4 + fuel) _ _ _ _ _ Hrun) in Hrun1 by lia.
  injection Hrun1 as <- <- <- <-.
  rewrite Forall_forall in Hlive.
  assert (∀ r z, r ∈ uh_live u → in_area r z →
    ¬ (farea (uh_mem u) l z ∨ brk (uh_w u) <= z < brk w') ∧ m' z = uh_mem u z) as Hkeep.
  { intros r z Hr Hz. destruct (live_bytes _ _ _ _ _ (Hlive r Hr) Hz) as (? & ? & ?).
    assert (¬ (farea (uh_mem u) l z ∨ brk (uh_w u) <= z < brk w')) by (intros [|]; [done|lia]). auto. }
  split; [|intros r z Hr Hz; by apply (Hkeep r z)].
  exists l'. cbn [uh_mem uh_freep uh_w uh_live]. split; [by left|]. split; [lia|].
  assert ((∀ z, farea m' l' z → farea (uh_mem u) l z ∨ brk (uh_w u) <= z < brk w') →
    Forall (live_ok m' l' w') (uh_live u)) as Hothers.
  { intros Hsub. apply Forall_forall. intros r Hr. eapply live_keep; [by apply Hlive|done|done|..];
      intros z Hz; destruct (Hkeep r z Hr Hz); [done|]. intros ?%Hsub. done. }
  destruct Hbl as [(-> & _ & Hfa & _)|[Hsz Hcl Hfa]].
  { split; [|done]. apply Hothers. intros z ?%Hfa. by left. }
  assert (ap ≠ 0) as Hap%Z.eqb_neq. { pose proof (cl_base _ _ _ _ _ _ Hcl). destruct Hok. lia. }
  rewrite Hap. split; [constructor|split; [|done]].
  - split; [simpl; lia|exact Hsz|exact Hcl].
  - apply Hothers. intros z Hz. apply Hfa. by left.
  - apply Forall_forall. intros r Hr. destruct (nunits_enough nbytes) as [Hn _]; [lia|].
    destruct (nunits_enough r.2 (lv_bytes _ _ _ _ (Hlive r Hr))) as [Hn' _]. fold (units r) in Hn'.
    apply intervals_apart; [unfold units; simpl; lia|lia|]. intros z Hz Hz'.
    destruct (Hkeep r z Hr Hz') as [Hno _]. apply Hno, Hfa. by right.
Qed.

(** The free blocks of a program with a live area form a ring. *)
Lemma live_ring u r : uinv u → r ∈ uh_live u →
  ∃ l, heap_ok base (uh_mem u) (uh_freep u) l (brk (uh_w u)) ∧ base + 16 < brk (uh_w u) ∧
    Forall (live_ok (uh_mem u) l (uh_w u)) (uh_live u) ∧ separate (uh_live u).
Proof.
  intros (l & [Hok|[(_ & E & _) _]] & ?) Hr; [by exists l|]. rewrite E in Hr. by apply elem_of_nil in Hr.
Qed.

Lemma free_keeps u fuel ap nbytes m' f' live :
  uinv u → uh_live u ≡ₚ (ap, nbytes) :: live →
  free fuel (uh_mem u) (uh_freep u) ap = Some (m', f') →
  uinv (mkuh m' f' (uh_w u) live) ∧ ∀ r z, r ∈ live → in_area r z → m' z = uh_mem u z.
Proof.
  intros Hinv Hp Hrun. destruct (live_ring u (ap, nbytes) Hinv) as (l & Hok & Hb & Hlive & Hsep).
  { rewrite Hp. left. }
  rewrite Hp in Hlive, Hsep. apply Forall_cons in Hlive as [[Hnb Hs Hc] Hlive]. destruct Hsep as [Hd Hsep].
  destruct (nunits_enough nbytes Hnb) as [Hn _]. unfold start, units in Hs, Hc. cbn [fst snd] in *.
  destruct (free_ok base (uh_mem u) (uh_freep u) l (brk (uh_w u)) (ap - 16) (length l + 1 + fuel)) as
    (m1 & f1 & l' & Hrun1 & Hok' & _ & Hfa & _ & Hfr); [done|by rewrite Hs|lia|lia|].
  replace (ap - 16 + 16) with ap in Hrun1 by lia.
  rewrite (free_fuel _ _ _ _ (length l + 1 + fuel) _ Hrun) in Hrun1 by lia. injection Hrun1 as <- <-.
  rewrite Forall_forall in Hlive, Hd. rewrite Hs in Hfa.
  assert (∀ r z, r ∈ live → in_area r z → ¬ farea m' l' z ∧ m' z = uh_mem u z) as Hkeep.
  { intros r z Hr Hz. destruct (live_bytes _ _ _ _ _ (Hlive r Hr) Hz) as (? & ? & ?).
    assert (¬ farea m' l' z) as Hno.
    { intros [|Hin]%Hfa; [done|]. specialize (Hd r Hr).
      unfold disjoint_areas, in_area, start, units in *. cbn [fst snd] in *. lia. }
    auto. }
  split; [|intros r z Hr Hz; by apply (Hkeep r z)].
  exists l'. cbn [uh_mem uh_freep uh_w uh_live]. split_and!; [by left|done| |done].
  apply Forall_forall. intros r Hr. eapply live_keep; [by apply Hlive|done|lia|..];
    intros z Hz; by destruct (Hkeep r z Hr Hz).
Qed.

(** Writing outside the ring. *)
Lemma heap_write m freep l top (z v : Z) : heap_ok base m freep l top →
  ¬ farea m l z → z < base ∨ base + 16 <= z →
  heap_ok base (mput m z v) freep l top ∧ (∀ x, x ∈ base :: l → hsize (mput m z v) x = hsize m x).
Proof.
  intros Hok Hz Hb. pose proof Hok as [H0 Hs0 Hsl Hr Hy Hf Ht].
  assert (∀ x y, x ∈ base :: l → x <= y < x + 16 → mput m z v y = m y) as E.
  { intros x y Hx Hxy. apply mput_ne. intros ->.
    destruct (ring_farea _ _ _ _ _ x z Hok Hx Hxy); [done|lia]. }
  assert (∀ x, x ∈ base :: l → hsize (mput m z v) x = hsize m x) as Es.
  { intros x Hx. apply hsize_ext. intros. apply (E x); [done|lia]. }
  split; [|done]. split; try done.
  - by rewrite Es by left.
  - apply Forall_forall. intros x Hx. rewrite Es by (by right). by eapply Forall_forall in Hsl.
  - eapply linked_ext; [|done]. intros x Hx. symmetry. apply load64_ext. intros. symmetry. apply (E x); [done|lia].
  - by eapply layout_ext.
Qed.

Lemma write_keeps u ap nbytes z v :
  uinv u → (ap, nbytes) ∈ uh_live u → ap <= z < ap + nbytes →
  uinv (mkuh (mput (uh_mem u) z v) (uh_freep u) (uh_w u) (uh_live u)).
Proof.
  intros Hinv Hin Hz. destruct (live_ring u _ Hinv Hin) as (l & Hok & Hb & Hlive & Hsep).
  rewrite Forall_forall in Hlive. pose proof (Hlive _ Hin) as Hr.
  destruct (nunits_enough nbytes (lv_bytes _ _ _ _ Hr)) as [_ Hn].
  destruct (live_bytes _ _ _ _ z Hr) as (Hf & _ & Hzb).
  { unfold in_area, start, units. simpl. lia. }
  destruct (heap_write _ _ _ _ z v Hok Hf Hzb) as [Hok' Hs'].
  exists l. cbn [uh_mem uh_freep uh_w uh_live]. split_and!; [by left|done| |done].
  apply Forall_forall. intros r Hr'. pose proof (Hlive r Hr') as [Hb' Hs Hc]. split; [done| |].
  - rewrite <- Hs. apply hsize_ext. intros y Hy. apply mput_ne. intros ->.
    destruct (separate_in _ _ _ Hsep Hin Hr') as [<- |Hd]; unfold disjoint_areas, start, units in *; cbn [fst snd] in *.
    + lia.
    + destruct (nunits_enough r.2 Hb') as [Hn' _]. lia.
  - destruct Hc as [? ? Hap]. split; [done..|]. intros x Hx. unfold block_end. rewrite Hs' by (by right).
    by apply Hap.
Qed.

Lemma ustep_inv u op u' : uinv u → ustep u op u' → uinv u'.
Proof.
  intros Hinv [fuel nb m' f' w' ap Hnb Hrun|fuel ap nb m' f' live Hp Hrun|ap nb z v Hin Hz].
  - by apply (malloc_keeps u nb fuel).
  - by apply (free_keeps u fuel ap nb).
  - by eapply write_keeps.
Qed.

Definition usteps (u u' : uheap W) : Prop := rtc (λ u u', ∃ op, ustep u op u') u u'.

Lemma ureach_inv u u' : uinit u → usteps u u' → uinv u'.
Proof.
  intros Hi Hs. assert (uinv u) as Hinv.
  { pose proof Hi as (_ & E & ? & ?). exists []. rewrite E. split_and!; [by right|lia|constructor|done]. }
  clear Hi. induction Hs as [|u u1 u2 [op Hstep] _ IH]; [done|]. apply IH. by eapply ustep_inv.
Qed.

(** In such a state both calls return. *)
Lemma malloc_returns u nbytes : uinv u → 0 <= nbytes < 2 ^ 31 - 32 → ∃ u', ustep u (OMalloc nbytes) u'.
Proof.
  intros (l & Hheap & Hb & _) Hnb.
  assert (heap_inv base (uh_mem u) (uh_freep u) l (brk (uh_w u))) as Hinv.
  { destruct Hheap as [|[(? & ? & ? & ?) ->]]; [by left|right]. split_and!; done || lia. }
  destruct (malloc_ok base sbrk _ _ l _ nbytes _ Hinv Hb Hnb (Nat.le_refl _)) as (? & ? & ? & ? & ? & Hrun & _).
  eexists. by eapply us_malloc.
Qed.

Lemma free_returns u r : uinv u → r ∈ uh_live u → ∃ u', ustep u (OFree r.1) u'.
Proof.
  intros Hinv Hr. destruct (live_ring u r Hinv Hr) as (l & Hok & _ & Hlive & _).
  rewrite Forall_forall in Hlive. destruct (Hlive r Hr) as [Hb Hs Hc].
  destruct (nunits_enough r.2 Hb) as [Hn _]. fold (units r) in Hn.
  destruct (free_ok base (uh_mem u) (uh_freep u) l (brk (uh_w u)) (start r) (S (length l))) as
    (m' & f' & l' & Hrun & _); [done|by rewrite Hs|lia|lia|].
  unfold start in Hrun. replace (r.1 - 16 + 16) with r.1 in Hrun by lia.
  apply list_elem_of_lookup in Hr as [k Hk]. apply delete_Permutation in Hk. destruct r as [ap nb].
  eexists. by eapply us_free.
Qed.
End program.

(** ** Theorem *)

(** C37. Whatever sequence of [malloc], [free] and writes into its own areas a program performs: its live
    areas, with their headers, are pairwise disjoint and lie between the static data and the break;
    [malloc] (up to 2 GB) and [free] of a live area return; and neither changes a byte of an area that
    stays live. *)
Theorem malloc_areas_disjoint (base : Z) {W : Type} (sbrk : W → Z → option Z * W) `{!Sbrk sbrk} u0 u :
  uinit base sbrk u0 → usteps base sbrk u0 u →
  separate (uh_live u) ∧
  (∀ r, r ∈ uh_live u → base + 16 < r.1 - 16 ∧ r.1 + r.2 <= brk (uh_w u)) ∧
  (∀ nbytes, 0 <= nbytes < 2 ^ 31 - 32 → ∃ u', ustep base sbrk u (OMalloc nbytes) u') ∧
  (∀ r, r ∈ uh_live u → ∃ u', ustep base sbrk u (OFree r.1) u') ∧
  (∀ op u' r z, ustep base sbrk u op u' → (∀ y v, op ≠ OWrite y v) →
    r ∈ uh_live u → r ∈ uh_live u' → r.1 <= z < r.1 + r.2 → uh_mem u' z = uh_mem u z).
Proof.
  intros Hi Hs. pose proof (ureach_inv base sbrk u0 u Hi Hs) as Hinv.
  pose proof Hinv as (l & _ & Hb & Hlive & Hsep). rewrite Forall_forall in Hlive.
  assert (∀ r, r ∈ uh_live u → r.2 + 16 <= 16 * units r) as Hfit.
  { intros r Hr. by apply nunits_enough, (Hlive r Hr). }
  split_and!; [done| | | |].
  - intros r Hr. destruct (Hlive r Hr) as [_ _ []]. specialize (Hfit r Hr). unfold start in *. lia.
  - intros nb Hnb. by apply (malloc_returns base sbrk u nb Hinv).
  - intros r Hr. by apply (free_returns base sbrk u r Hinv).

  - intros op u' r z Hstep Hop Hr Hr' Hz.
    assert (in_area r z) as Hin by (specialize (Hfit r Hr); unfold in_area, start; lia).
    destruct Hstep as [fuel nb m' f' w' ap Hnb Hrun|fuel ap nb m' f' live Hp Hrun|]; [| |by edestruct Hop].
    + destruct (malloc_keeps base sbrk u nb fuel m' f' w' ap Hinv Hnb Hrun) as [_ Hkeep]. by apply (Hkeep r).
    + destruct (free_keeps base sbrk u fuel ap nb m' f' live Hinv Hp Hrun) as [_ Hkeep]. by apply (Hkeep r).
Qed.

(** A break that grows up to the limit. *)
Definition plain_sbrk (w n : Z) : option Z * Z :=
  if w + n <=? 2 ^ 36 then (Some w, w + n) else (None, w).

Lemma plain_grows w n : 0 < n < 2 ^ 31 →
  match plain_sbrk w n with
  | (Some p, w') => p = w ∧ w' = w + n ∧ w' <= 2 ^ 36
  | (None, w') => w' = w
  end.
Proof. intros. unfold plain_sbrk. destruct (Z.leb_spec (w + n) (2 ^ 36)); lia. Qed.

#[global] Instance plain_sbrk_ok : Sbrk plain_sbrk := {| brk := id; sbrk_grows := plain_grows |}.

Definition demo_uheap : uheap Z := mkuh (λ _, 0) 0 8192 [].
Definition demo_run : option (mem * Z * Z * Z) := malloc 4096 plain_sbrk 4 (λ _, 0) 0 8192 100.
Definition demo_after : uheap Z :=
  match demo_run with
  | Some (m, f, w, ap) => mkuh m f w [(ap, 100)]
  | None => demo_uheap
  end.

Lemma demo_live : uh_live demo_after = [(73616, 100)].
Proof. vm_compute. reflexivity. Qed.

Lemma demo_steps : usteps 4096 plain_sbrk demo_uheap demo_after.
Proof.
  eapply rtc_once. exists (OMalloc 100).
  assert ((λ r, r.2) <$> demo_run = Some 73616) as E by (vm_compute; reflexivity).
  unfold demo_after. destruct demo_run as [[[[m f] w] ap]|] eqn:Er; [|done].
  injection E as ->. exact (us_malloc 4096 plain_sbrk demo_uheap 4 100 m f w 73616 ltac:(lia) Er).
Qed.

Lemma malloc_areas_disjoint_witness :
  ∃ u', ustep 4096 plain_sbrk demo_after (OFree 73616) u'.
Proof.
  destruct (malloc_areas_disjoint 4096 plain_sbrk demo_uheap demo_after) as (_ & _ & _ & H & _).
  - split_and!; [reflexivity|reflexivity|lia|simpl; unfold id; lia|simpl; unfold id; lia].
  - apply demo_steps.
  - apply (H (73616, 100)). rewrite demo_live. left.
Defined.

(** The size given to [sbrk] is cut to an int: a request of almost 4 GB grows the heap by 16 bytes and
    yields a block that claims all of it. *)
Lemma malloc_huge_overflows :
  (λ '(m, _, w, ap), (w - 8192, hsize m (ap - 16))) <$> malloc 4096 plain_sbrk 4 (λ _, 0) 0 8192 (2 ^ 32 - 1) =
    Some (16, 2 ^ 28 + 1).
Proof. vm_compute. reflexivity. Qed.
