(* ===== verification/Sh.v ===== *)
(** * The shell's parser (user/sh.c)

    The command line is a list of bytes without NUL; [char *] pointers into it are positions, and
    [es] is its length.  A parsed command keeps the positions of its words, as the C structures keep
    pointers.  [panic] ends the process, so the functions return a value or the message.

    A grammar of command lines ([line], [pipe], [exec]) says which token sequences are commands and what
    they denote.  [lexs] is the token sequence of a text; the recursive-descent parser accepts exactly
    the texts whose tokens form a [line] and returns its meaning, it always ends, and after
    [nulterminate] every word of the command is a C string of its own. *)

From stdpp Require Import base list functions sets numbers strings.
From Stdlib Require Import ZArith Lia.
From S2P Require Import Prelude Machine Ulib Sysfile.

(** ** Commands *)

(** A word of the command line: the pointers [q] and [eq]. *)
Definition span : Type := nat * nat.

Inductive cmd :=
  | EXEC (argv : list span)
  | REDIR (c : cmd) (file : span) (mode fd : Z)
  | PIPE (left right : cmd)
  | LIST (left right : cmd)
  | BACK (c : cmd).

Definition MAXARGS : nat := 10.

Inductive pres (A : Type) := POk (a : A) | PPanic (msg : string) | PNoFuel.
Arguments POk {A} a. Arguments PPanic {A} msg. Arguments PNoFuel {A}.

Definition pbind {A B} (r : pres A) (f : A → pres B) : pres B :=
  match r with
  | POk a => f a
  | PPanic msg => PPanic msg
  | PNoFuel => PNoFuel
  end.
Notation "'let!' x := r 'in' k" := (pbind r (λ x, k)) (at level 10, x pattern, r at level 200, k at level 200).

(** ** Tokens *)

(** Space, tab, carriage return, newline, vertical tab. *)
Definition whitespace : list Z := [32; 9; 13; 10; 11].
(** < | > & ; ( and ) *)
Definition symbols : list Z := [60; 124; 62; 38; 59; 40; 41].

(** [strchr(set, c)] as a test; [strchr] does not find the NUL. *)
Definition among (set : list Z) (c : Z) : bool := existsb (Z.eqb c) set.

Section text.
Context (s : list Z).

Definition es : nat := length s.
Definition ch (i : nat) : Z := nth i s 0.

(** [while(s < es && ...) s++]: at most [n] steps. *)
Fixpoint skip_while (test : Z → bool) (n i : nat) : nat :=
  match n with
  | O => i
  | S n' => if (i <? es)%nat && test (ch i) then skip_while test n' (S i) else i
  end.

Definition skip (i : nat) : nat := skip_while (among whitespace) (es - i) i.
Definition word_char (c : Z) : bool := negb (among whitespace c) && negb (among symbols c).

(** The token, its two ends and the new position. *)
Definition gettoken (i : nat) : Z * span * nat :=
  let q := skip i in
  let c := ch q in
  let '(ret, eq) :=
    if c =? 0 then (0, q)
    else if among [124; 40; 41; 59; 38; 60] c then (c, S q)
    else if c =? 62 then (if ch (S q) =? 62 then (43, S (S q)) else (62, S q))
    else (97, skip_while word_char (es - q) q) in
  (ret, (q, eq), skip eq).

Definition peek (i : nat) (toks : list Z) : bool * nat :=
  let i' := skip i in (negb (ch i' =? 0) && among toks (ch i'), i').

(** ** The parser *)

Definition O_WRONLY_CREATE_TRUNC : Z := Z.lor (Z.lor O_WRONLY O_CREATE) O_TRUNC.

(** [parseredirs]: each iteration consumes two tokens. *)
Fixpoint parseredirs (fuel : nat) (c : cmd) (i : nat) : pres (cmd * nat) :=
  match fuel with
  | O => PNoFuel
  | S fuel' =>
      let '(more, i) := peek i [60; 62] in
      if more then
        let '(tok, _, i) := gettoken i in
        let '(ret, w, i) := gettoken i in
        if ret =? 97 then
          parseredirs fuel'
            (if tok =? 60 then REDIR c w O_RDONLY 0
             else if tok =? 62 then REDIR c w O_WRONLY_CREATE_TRUNC 1
             else if tok =? 43 then REDIR c w (Z.lor O_WRONLY O_CREATE) 1
             else c) i
        else PPanic "missing file for redirection"
      else POk (c, i)
  end.

(** [cmd->argv[argc] = q; cmd->eargv[argc] = eq]: [cmd] is the [execcmd] at the bottom of [ret]. *)
Fixpoint set_arg (ret : cmd) (w : span) : cmd :=
  match ret with
  | EXEC argv => EXEC (argv ++ [w])
  | REDIR c f mode fd => REDIR (set_arg c w) f mode fd
  | c => c
  end.

(** The loop of [parseexec]. *)
Fixpoint parseargs (fuel : nat) (ret : cmd) (argc : nat) (i : nat) : pres (cmd * nat) :=
  match fuel with
  | O => PNoFuel
  | S fuel' =>
      let '(stop, i) := peek i [124; 41; 38; 59] in
      if stop then POk (ret, i)
      else
        let '(tok, w, i) := gettoken i in
        if tok =? 0 then POk (ret, i)
        else if negb (tok =? 97) then PPanic "syntax"
        else
          let ret := set_arg ret w in
          if (MAXARGS <=? S argc)%nat then PPanic "too many args"
          else let! (ret, i) := parseredirs fuel ret i in parseargs fuel' ret (S argc) i
  end.

(** The loop of [parseline]. *)
Fixpoint parseback (fuel : nat) (c : cmd) (i : nat) : pres (cmd * nat) :=
  match fuel with
  | O => PNoFuel
  | S fuel' =>
      let '(more, i) := peek i [38] in
      if more then let '(_, _, i) := gettoken i in parseback fuel' (BACK c) i
      else POk (c, i)
  end.

(** A loop has one round more than there are characters. *)
Definition rounds : nat := S es.

Fixpoint parseline (fuel : nat) (i : nat) : pres (cmd * nat) :=
  match fuel with
  | O => PNoFuel
  | S fuel' =>
      let! (c, i) := parsepipe fuel' i in
      let! (c, i) := parseback rounds c i in
      let '(more, i) := peek i [59] in
      if more then
        let '(_, _, i) := gettoken i in
        let! (r, i) := parseline fuel' i in POk (LIST c r, i)
      else POk (c, i)
  end
with parsepipe (fuel : nat) (i : nat) : pres (cmd * nat) :=
  match fuel with
  | O => PNoFuel
  | S fuel' =>
      let! (c, i) := parseexec fuel' i in
      let '(more, i) := peek i [124] in
      if more then
        let '(_, _, i) := gettoken i in
        let! (r, i) := parsepipe fuel' i in POk (PIPE c r, i)
      else POk (c, i)
  end
with parseexec (fuel : nat) (i : nat) : pres (cmd * nat) :=
  match fuel with
  | O => PNoFuel
  | S fuel' =>
      let '(block, i) := peek i [40] in
      if block then parseblock fuel' i
      else
        let! (ret, i) := parseredirs rounds (EXEC []) i in
        parseargs rounds ret 0 i
  end
with parseblock (fuel : nat) (i : nat) : pres (cmd * nat) :=
  match fuel with
  | O => PNoFuel
  | S fuel' =>
      let '(open, i) := peek i [40] in
      if negb open then PPanic "parseblock"
      else
        let '(_, _, i) := gettoken i in
        let! (c, i) := parseline fuel' i in
        let '(closed, i) := peek i [41] in
        if negb closed then PPanic "syntax - missing )"
        else
          let '(_, _, i) := gettoken i in
          parseredirs rounds c i
  end.
End text.

(** The pointers [eq] are set to NUL, in this order, in the buffer of the line. *)
Fixpoint nulterminate (c : cmd) (buf : list Z) : list Z :=
  match c with
  | EXEC argv => foldl (λ b w, <[w.2 := 0]> b) buf argv
  | REDIR c w _ _ => <[w.2 := 0]> (nulterminate c buf)
  | PIPE l r => nulterminate r (nulterminate l buf)
  | LIST l r => nulterminate r (nulterminate l buf)
  | BACK c => nulterminate c buf
  end.

(** [parsecmd(s)]: the command and the buffer, which ends in a NUL.  The text left over, which is printed
    before the panic, is left out. *)
Definition parsecmd (s : list Z) : pres (cmd * list Z) :=
  let! (c, i) := parseline s (4 * (es s + 1)) 0 in
  let '(_, i) := peek s i [] in
  if (i =? es s)%nat then POk (c, nulterminate c (s ++ [0])) else PPanic "syntax".

(** ** The grammar of command lines *)

Inductive token := TWord (w : span) | TSym (c : Z).

(** A redirection: <, > or >> ([+]) and the file. *)
Definition redir : Type := Z * span.

Definition redir_ok (r : redir) : Prop := r.1 = 60 ∨ r.1 = 62 ∨ r.1 = 43.

Inductive line :=
  | Line (p : pipe) (backs : nat)
  | LineSeq (p : pipe) (backs : nat) (rest : line)
with pipe :=
  | Pipe (e : exec)
  | PipeSeq (e : exec) (rest : pipe)
with exec :=
  | Block (l : line) (rs : list redir)
  | Simple (rs : list redir) (args : list (span * list redir)).

(** The tokens of a command line. *)
Definition redir_tokens (rs : list redir) : list token :=
  concat ((λ r, [TSym r.1; TWord r.2]) <$> rs).
Definition arg_tokens (args : list (span * list redir)) : list token :=
  concat ((λ a, TWord a.1 :: redir_tokens a.2) <$> args).

Fixpoint line_tokens (l : line) : list token :=
  match l with
  | Line p n => pipe_tokens p ++ replicate n (TSym 38)
  | LineSeq p n l' => pipe_tokens p ++ replicate n (TSym 38) ++ TSym 59 :: line_tokens l'
  end
with pipe_tokens (p : pipe) : list token :=
  match p with
  | Pipe e => exec_tokens e
  | PipeSeq e p' => exec_tokens e ++ TSym 124 :: pipe_tokens p'
  end
with exec_tokens (e : exec) : list token :=
  match e with
  | Block l rs => TSym 40 :: line_tokens l ++ TSym 41 :: redir_tokens rs
  | Simple rs args => redir_tokens rs ++ arg_tokens args
  end.

(** The command a line denotes: redirections wrap the command, the first one innermost. *)
Definition redirect (c : cmd) (r : redir) : cmd :=
  if r.1 =? 60 then REDIR c r.2 O_RDONLY 0
  else if r.1 =? 62 then REDIR c r.2 O_WRONLY_CREATE_TRUNC 1
  else REDIR c r.2 (Z.lor O_WRONLY O_CREATE) 1.

Fixpoint line_cmd (l : line) : cmd :=
  match l with
  | Line p n => Nat.iter n BACK (pipe_cmd p)
  | LineSeq p n l' => LIST (Nat.iter n BACK (pipe_cmd p)) (line_cmd l')
  end
with pipe_cmd (p : pipe) : cmd :=
  match p with
  | Pipe e => exec_cmd e
  | PipeSeq e p' => PIPE (exec_cmd e) (pipe_cmd p')
  end
with exec_cmd (e : exec) : cmd :=
  match e with
  | Block l rs => foldl redirect (line_cmd l) rs
  | Simple rs args => foldl redirect (EXEC args.*1) (rs ++ concat args.*2)
  end.

(** At most MAXARGS - 1 arguments. *)
Fixpoint line_ok (l : line) : Prop :=
  match l with
  | Line p _ => pipe_ok p
  | LineSeq p _ l' => pipe_ok p ∧ line_ok l'
  end
with pipe_ok (p : pipe) : Prop :=
  match p with
  | Pipe e => exec_ok e
  | PipeSeq e p' => exec_ok e ∧ pipe_ok p'
  end
with exec_ok (e : exec) : Prop :=
  match e with
  | Block l rs => line_ok l ∧ Forall redir_ok rs
  | Simple rs args =>
      Forall redir_ok rs ∧ Forall (λ a, Forall redir_ok a.2) args ∧ (length args < MAXARGS)%nat
  end.

(** The tokens of a text, from a position. *)
Definition token_of (ret : Z) (w : span) : token := if ret =? 97 then TWord w else TSym ret.

Fixpoint lex (s : list Z) (fuel i : nat) : list token :=
  match fuel with
  | O => []
  | S fuel' =>
      let '(ret, w, i') := gettoken s i in
      if ret =? 0 then [] else token_of ret w :: lex s fuel' i'
  end.
Definition lexs (s : list Z) (i : nat) : list token := lex s (S (es s - i)) i.

(** ** Reading tokens *)

Section tokens.
Context (s : list Z) (Hs : 0 ∉ s).

Lemma ch_zero i : ch s i = 0 ↔ (es s ≤ i)%nat.
Proof.
  unfold ch, es. split.
  - intros H. destruct (decide (length s ≤ i)%nat) as [|Hlt]; [done|]. exfalso. apply Hs.
    rewrite <- H. apply list_elem_of_In, nth_In. lia.
  - intros. by apply nth_overflow.
Qed.

Lemma skip_while_ge test n i : (i ≤ skip_while s test n i)%nat.
Proof.
  revert i. induction n as [|n IH]; intros i; simpl; [lia|]. destruct (_ && _); [|lia].
  specialize (IH (S i)). lia.
Qed.

(** The loop stops at the first character that fails the test. *)
Lemma skip_while_stop test n i : (es s - i ≤ n)%nat →
  let j := skip_while s test n i in
  (∀ k, (i ≤ k < j)%nat → (k < es s)%nat ∧ test (ch s k) = true) ∧ ((es s ≤ j)%nat ∨ test (ch s j) = false).
Proof.
  revert i. induction n as [|n IH]; intros i Hn; simpl.
  { split; [lia|left; lia]. }
  destruct (Nat.ltb_spec i (es s)) as [Hlt|]; simpl; [|split; [lia|by left]].
  destruct (test (ch s i)) eqn:T; [|split; [lia|by right]].
  destruct (IH (S i)) as [H1 H2]; [lia|]. split; [|done].
  intros k Hk. destruct (decide (k = i)) as [-> |]; [done|]. apply H1. lia.
Qed.

Lemma skip_while_le test n i : (i ≤ es s)%nat → (skip_while s test n i ≤ es s)%nat.
Proof.
  revert i. induction n as [|n IH]; intros i Hi; simpl; [done|].
  destruct (Nat.ltb_spec i (es s)); simpl; [|lia]. destruct (test _); [|lia]. apply IH. lia.
Qed.

Lemma skip_done i : (es s ≤ skip s i)%nat ∨ among whitespace (ch s (skip s i)) = false.
Proof. by apply skip_while_stop. Qed.

Lemma skip_fixed i : (es s ≤ i)%nat ∨ among whitespace (ch s i) = false → skip s i = i.
Proof.
  unfold skip. destruct (es s - i)%nat eqn:E; [done|]. simpl.
  destruct (Nat.ltb_spec i (es s)); simpl; [|done]. intros [|Hw]; [lia|]. by rewrite Hw.
Qed.

Lemma skip_skip i : skip s (skip s i) = skip s i.
Proof. apply skip_fixed, skip_done. Qed.

Lemma gettoken_skip i : gettoken s (skip s i) = gettoken s i.
Proof. unfold gettoken. by rewrite skip_skip. Qed.

(** A word: a maximal run of word characters. *)
Definition word_ok (w : span) : Prop :=
  (w.1 < w.2)%nat ∧ (w.2 ≤ es s)%nat ∧ (∀ k, (w.1 ≤ k < w.2)%nat → word_char (ch s k) = true) ∧
  ((es s ≤ w.2)%nat ∨ word_char (ch s w.2) = false).

(** The first character of a symbol token. *)
Definition sym_char (c : Z) : Z := if c =? 43 then 62 else c.
Definition is_sym (c : Z) : Prop := c ∈ [124; 40; 41; 59; 38; 60; 62; 43].

Lemma among_spec set c : among set c = true ↔ c ∈ set.
Proof.
  unfold among. rewrite existsb_exists. setoid_rewrite Z.eqb_eq.
  setoid_rewrite <- list_elem_of_In. split; [by intros (x & ? & ->)|eauto].
Qed.

Lemma among_false set c : among set c = false ↔ c ∉ set.
Proof. rewrite <- among_spec. destruct (among set c); naive_solver. Qed.

Lemma gettoken_end i : (es s ≤ skip s i)%nat → gettoken s i = (0, (skip s i, skip s i), skip s i).
Proof.
  intros H. unfold gettoken. rewrite (proj2 (ch_zero _) H). simpl. by rewrite skip_skip.
Qed.

(** What a token is when there is one. *)
Lemma gettoken_token i ret w i' : (skip s i < es s)%nat → gettoken s i = (ret, w, i') →
  ret ≠ 0 ∧ (i < i' ≤ es s)%nat ∧ skip s i' = i' ∧
  (ret = 97 ∧ word_ok w ∧ among symbols (ch s (skip s i)) = false ∨
   ret ≠ 97 ∧ is_sym ret ∧ ch s (skip s i) = sym_char ret).
Proof.
  intros Hlt. unfold gettoken. set (q := skip s i) in *. pose proof (skip_while_ge (among whitespace) (es s - i) i) as Hq.
  change (skip_while s (among whitespace) (es s - i) i) with q in Hq.
  assert (ch s q ≠ 0) as Hc by (rewrite ch_zero; lia). rewrite (proj2 (Z.eqb_neq _ _) Hc).
  assert (∀ e, (q < e ≤ es s)%nat → (i < skip s e ≤ es s)%nat ∧ skip s (skip s e) = skip s e) as Hend.
  { intros e He. split; [|apply skip_skip]. split; [|apply skip_while_le; lia].
    pose proof (skip_while_ge (among whitespace) (es s - e) e). unfold skip. lia. }
  destruct (among [124; 40; 41; 59; 38; 60] (ch s q)) eqn:A.
  { intros [= <- <- <-]. apply among_spec in A. split_and!; [done|apply Hend; lia..|]. right.
    unfold is_sym, sym_char. split_and!; [set_unfold; lia|set_unfold; tauto|].
    destruct (Z.eqb_spec (ch s q) 43); [set_unfold; lia|done]. }
  destruct (Z.eqb_spec (ch s q) 62) as [E|E].
  { destruct (Z.eqb_spec (ch s (S q)) 62) as [E'|E']; intros [= <- <- <-].
    - assert (S q < es s)%nat by (apply Nat.nle_gt; rewrite <- ch_zero; lia).
      split_and!; [done|apply Hend; lia..|]. right. unfold is_sym. split_and!; [done|set_solver|done].
    - split_and!; [done|apply Hend; lia..|]. right. unfold is_sym. split_and!; [done|set_solver|done]. }
  intros [= <- <- <-]. set (e := skip_while s word_char (es s - q) q).
  apply among_false in A. assert (ch s q ∉ symbols) as Hsym by (unfold symbols; set_unfold; tauto).
  assert (word_char (ch s q) = true) as Hw.
  { unfold word_char. apply among_false in Hsym. rewrite Hsym.
    destruct (skip_done i) as [Hd|Hd]; fold q in Hd; [lia|]. by rewrite Hd. }
  destruct (skip_while_stop word_char (es s - q) q) as [Hin Hstop]; [done|]. fold e in Hin, Hstop.
  assert (q < e)%nat as Hqe.
  { unfold e. destruct (es s - q)%nat eqn:En; [lia|]. simpl. rewrite (proj2 (Nat.ltb_lt _ _) Hlt), Hw. simpl.
    pose proof (skip_while_ge word_char n (S q)). lia. }
  assert (e ≤ es s)%nat by (apply skip_while_le; lia).
  split_and!; [done|apply Hend; lia..|]. left. split_and!; [done| |by apply among_false].
  split_and!; simpl; [done|done| |done]. intros k Hk. by apply Hin.
Qed.

Lemma lex_fuel fuel i : (es s - i < fuel)%nat → lex s fuel i = lexs s i.
Proof.
  unfold lexs. generalize (S (es s - i)) as fuel', (Nat.lt_succ_diag_r (es s - i)).
  revert i. induction fuel as [|fuel IH]; intros i [|fuel'] H' H; try lia. cbn [lex].
  destruct (gettoken s i) as [[ret w] i'] eqn:G.
  destruct (decide (es s ≤ skip s i)%nat) as [He|He].
  { rewrite gettoken_end in G by done. by injection G as <- _ _. }
  apply gettoken_token in G as (? & ? & _); [|lia]. destruct (ret =? 0); [done|]. f_equal. apply IH; lia.
Qed.

(** The token at a position, and the tokens after it. *)
Lemma lexs_cons i ret w i' : gettoken s i = (ret, w, i') →
  lexs s i = if ret =? 0 then [] else token_of ret w :: lexs s i'.
Proof.
  intros G. unfold lexs at 1. cbn [lex]. rewrite G. destruct (Z.eqb_spec ret 0) as [|Hr]; [done|].
  f_equal. destruct (decide (es s ≤ skip s i)%nat) as [He|He].
  { rewrite gettoken_end in G by done. congruence. }
  apply gettoken_token in G as (_ & ? & _); [|lia]. apply lex_fuel. lia.
Qed.

Lemma lexs_skip i : lexs s (skip s i) = lexs s i.
Proof.
  destruct (gettoken s i) as [[ret w] i'] eqn:G. rewrite (lexs_cons _ _ _ _ G).
  rewrite <- gettoken_skip in G. by rewrite (lexs_cons _ _ _ _ G).
Qed.

(** The parser stands before the tokens [ts]. *)
Definition before (i : nat) (ts : list token) : Prop := (i ≤ es s)%nat ∧ lexs s i = ts.

(** The next token begins with one of the characters [toks]. *)
Definition starts (toks : list Z) (ts : list token) : bool :=
  match ts with
  | TSym c :: _ => among toks (sym_char c)
  | _ => false
  end.

Lemma before_skip i ts : before i ts → before (skip s i) ts.
Proof. intros [Hi <-]. split; [by apply skip_while_le|apply lexs_skip]. Qed.

Lemma before_end i : before i [] → gettoken s i = (0, (es s, es s), es s) ∧ skip s i = es s.
Proof.
  intros [Hi Hl]. assert (skip s i ≤ es s)%nat by (by apply skip_while_le).
  destruct (decide (es s ≤ skip s i)%nat) as [He|He].
  { rewrite gettoken_end by done. replace (skip s i) with (es s) by lia. done. }
  destruct (gettoken s i) as [[ret w] i'] eqn:G. rewrite (lexs_cons _ _ _ _ G) in Hl.
  apply gettoken_token in G as (Hr%Z.eqb_neq & _); [|lia]. by rewrite Hr in Hl.
Qed.

(** [gettoken] before a token. *)
Lemma before_token i t ts : before i (t :: ts) →
  ∃ ret w i', gettoken s i = (ret, w, i') ∧ before i' ts ∧ t = token_of ret w ∧
    (ret = 97 ∧ word_ok w ∧ among symbols (ch s (skip s i)) = false ∨
     ret ≠ 97 ∧ ret ≠ 0 ∧ is_sym ret ∧ ch s (skip s i) = sym_char ret).
Proof.
  intros [Hi Hl]. destruct (decide (es s ≤ skip s i)%nat) as [He|He].
  { rewrite (lexs_cons _ _ _ _ (gettoken_end i He)) in Hl. done. }
  destruct (gettoken s i) as [[ret w] i'] eqn:G. rewrite (lexs_cons _ _ _ _ G) in Hl.
  apply gettoken_token in G as (Hr & Hi' & _ & Hc); [|lia].
  rewrite (proj2 (Z.eqb_neq _ _) Hr) in Hl. injection Hl as <- <-.
  exists ret, w, i'. split_and!; [done|by split; [lia|]|done|naive_solver].
Qed.

Lemma before_word i w ts : before i (TWord w :: ts) →
  ∃ i', gettoken s i = (97, w, i') ∧ before i' ts ∧ word_ok w.
Proof.
  intros (ret & w' & i' & G & Hb & Ht & Hc)%before_token. unfold token_of in Ht.
  destruct (Z.eqb_spec ret 97) as [-> |]; [|done]. injection Ht as <-. exists i'. naive_solver.
Qed.

Lemma before_sym i c ts : before i (TSym c :: ts) →
  ∃ w i', gettoken s i = (c, w, i') ∧ before i' ts ∧ is_sym c ∧ c ≠ 97 ∧ c ≠ 0.
Proof.
  intros (ret & w' & i' & G & Hb & Ht & Hc)%before_token. unfold token_of in Ht.
  destruct (Z.eqb_spec ret 97) as [-> |]; [done|]. injection Ht as <-. exists w', i'. naive_solver.
Qed.

Lemma peek_starts i ts toks : before i ts → (∀ c, c ∈ toks → c ∈ symbols) →
  peek s i toks = (starts toks ts, skip s i).
Proof.
  intros Hb Htoks. unfold peek. f_equal. destruct ts as [|t ts].
  - apply before_end in Hb as [_ ->]. rewrite (proj2 (ch_zero (es s))) by lia. done.
  - pose proof (before_token _ _ _ Hb) as (ret & w & i' & G & _ & -> & Hc).
    destruct (ch s (skip s i) =? 0) eqn:E.
    { apply Z.eqb_eq, ch_zero in E. rewrite gettoken_end in G by done. injection G as <- _ _. naive_solver. }
    unfold token_of. destruct Hc as [(-> & _ & Hn)|(Hr & _ & _ & ->)]; simpl.
    + apply among_false. apply among_false in Hn. auto.
    + by rewrite (proj2 (Z.eqb_neq _ _) Hr).
Qed.

Lemma lexs_length i : (length (lexs s i) ≤ es s - i)%nat.
Proof.
  remember (es s - i)%nat as n eqn:En. revert i En. induction n as [n IH] using lt_wf_ind. intros i ->.
  destruct (decide (es s ≤ skip s i)%nat) as [He|He].
  { rewrite (lexs_cons _ _ _ _ (gettoken_end i He)). simpl. lia. }
  destruct (gettoken s i) as [[ret w] i'] eqn:G. rewrite (lexs_cons _ _ _ _ G).
  apply gettoken_token in G as (Hr & Hi' & _); [|lia]. rewrite (proj2 (Z.eqb_neq _ _) Hr). simpl.
  specialize (IH (es s - i')%nat ltac:(lia) i' eq_refl). lia.
Qed.
End tokens.

(** ** The loops of the parser *)

Section loops.
Context (s : list Z) (Hs : 0 ∉ s).

(** [peek] with a constant set of symbols. *)
Ltac peek_at H := rewrite (peek_starts s Hs _ _ _ H) by (intros ?; unfold symbols; set_solver);
  apply (before_skip s Hs) in H; cbn beta iota zeta.

Definition stays (ts : list token) : bool := starts [60; 62] ts.

(** A symbol that begins with one of the given characters. *)
Lemma starts_sym toks ts : starts toks ts = true → ∃ c ts', ts = TSym c :: ts' ∧ sym_char c ∈ toks.
Proof. destruct ts as [|[w|c] ts]; try done. simpl. intros ?%among_spec. eauto. Qed.

Lemma starts_one c ts : starts [c] ts = true → c ≠ 62 → ∃ ts', ts = TSym c :: ts'.
Proof.
  intros (c' & ts' & -> & Hin)%starts_sym Hc. exists ts'. unfold sym_char in Hin. set_unfold.
  destruct (Z.eqb_spec c' 43); naive_solver lia.
Qed.

Lemma redirect_cases c (k : Z) (w : span) : redir_ok (k, w) →
  (if k =? 60 then REDIR c w O_RDONLY 0
   else if k =? 62 then REDIR c w O_WRONLY_CREATE_TRUNC 1
   else if k =? 43 then REDIR c w (Z.lor O_WRONLY O_CREATE) 1 else c) = redirect c (k, w).
Proof.
  unfold redir_ok, redirect. simpl. intros Hok.
  destruct (Z.eqb_spec k 60), (Z.eqb_spec k 62), (Z.eqb_spec k 43); done || lia.
Qed.

Lemma parseredirs_sound fuel : ∀ c i ts, before s i ts → (length ts < fuel)%nat →
  match parseredirs s fuel c i with
  | POk (c', j) => ∃ rs ts', ts = redir_tokens rs ++ ts' ∧ before s j ts' ∧ Forall redir_ok rs ∧
      c' = foldl redirect c rs ∧ stays ts' = false
  | PPanic _ => True
  | PNoFuel => False
  end.
Proof.
  induction fuel as [|fuel IH]; intros c i ts Hb Hf; [lia|]. cbn [parseredirs]. peek_at Hb.
  destruct (starts [60; 62] ts) eqn:E.
  2: { exists [], ts. by split_and!. }
  apply starts_sym in E as (k & ts1 & -> & Hk).
  destruct (before_sym s Hs _ _ _ Hb) as (w1 & i1 & -> & Hb1 & Hsym & _).
  destruct ts1 as [|[w|k2] ts2].
  - destruct (before_end s Hs _ Hb1) as [-> _]. done.
  - destruct (before_word s Hs _ _ _ Hb1) as (i2 & -> & Hb2 & _). cbn beta iota zeta.
    change (97 =? 97) with true. cbv iota.
    assert (redir_ok (k, w)) as Hok.
    { unfold redir_ok, sym_char in *. simpl. set_unfold. destruct (Z.eqb_spec k 43); lia. }
    replace (if k =? 60 then _ else _) with (redirect c (k, w)).
    2: { by rewrite redirect_cases. }
    specialize (IH (redirect c (k, w)) i2 ts2 Hb2 ltac:(simpl in Hf; lia)).
    destruct (parseredirs s fuel _ i2) as [[c' j]|msg|]; [|done..].
    destruct IH as (rs & ts' & -> & Hj & Hrs & -> & Hst). exists ((k, w) :: rs), ts'. split_and!; try done.
    by constructor.
  - destruct (before_sym s Hs _ _ _ Hb1) as (w2 & i2 & -> & _ & _ & Hne & _).
    by rewrite (proj2 (Z.eqb_neq _ _) Hne).
Qed.

Lemma set_arg_redirect (argv : list span) rs w :
  set_arg (foldl redirect (EXEC argv) rs) w = foldl redirect (EXEC (argv ++ [w])) rs.
Proof.
  induction rs as [|r rs IH] using rev_ind; [done|]. rewrite !foldl_snoc. unfold redirect at 1 3.
  repeat case_match; simpl; by rewrite IH.
Qed.

Definition ends_exec (ts : list token) : bool :=
  match ts with [] => true | _ => starts [124; 41; 38; 59] ts end.

Lemma parseargs_sound fuel : ∀ argv rs i ts, before s i ts → (length ts < fuel)%nat →
  (length argv < MAXARGS)%nat →
  match parseargs s fuel (foldl redirect (EXEC argv) rs) (length argv) i with
  | POk (c', j) => ∃ args ts', ts = arg_tokens args ++ ts' ∧ before s j ts' ∧
      Forall (λ a, Forall redir_ok a.2) args ∧ (length argv + length args < MAXARGS)%nat ∧
      c' = foldl redirect (EXEC (argv ++ args.*1)) (rs ++ concat args.*2)
  | PPanic _ => True
  | PNoFuel => False
  end.
Proof.
  induction fuel as [|fuel IH]; intros argv rs i ts Hb Hf Hargc; [lia|]. cbn [parseargs]. peek_at Hb.
  destruct (starts [124; 41; 38; 59] ts) eqn:E.
  { exists [], ts. simpl. rewrite !app_nil_r. split_and!; try done. simpl. lia. }
  destruct ts as [|[w|k] ts].
  - destruct (before_end s Hs _ Hb) as [G Hi]. rewrite G. cbn beta iota zeta.
    change (0 =? 0) with true. cbv iota. exists [], []. simpl. rewrite !app_nil_r.
    split_and!; try done; [|lia]. rewrite <- Hi. by apply before_skip.
  - destruct (before_word s Hs _ _ _ Hb) as (i1 & -> & Hb1 & _). cbn beta iota zeta.
    change (97 =? 0) with false. change (97 =? 97) with true. cbv iota. cbn [negb].
    destruct (Nat.leb_spec MAXARGS (S (length argv))) as [|Hlt]; [done|].
    rewrite set_arg_redirect.
    pose proof (parseredirs_sound (S fuel) (foldl redirect (EXEC (argv ++ [w])) rs) i1 ts Hb1 ltac:(simpl in Hf; lia)) as Hr.
    destruct (parseredirs s (S fuel) _ i1) as [[c1 i2]|msg|]; [|done..]. cbn [pbind].
    destruct Hr as (rs1 & ts1 & -> & Hb2 & Hok1 & -> & _). rewrite <- foldl_app.
    specialize (IH (argv ++ [w]) (rs ++ rs1) i2 ts1 Hb2). rewrite length_app in IH. simpl length in IH.
    rewrite Nat.add_1_r in IH. cbn [length] in Hf. rewrite length_app in Hf. specialize (IH ltac:(lia) Hlt).
    destruct (parseargs s fuel _ _ i2) as [[c' j]|msg|]; [|done..].
    destruct IH as (args & ts' & -> & Hj & Hok & Hlen & ->). exists ((w, rs1) :: args), ts'. split_and!.
    + unfold arg_tokens. simpl. by rewrite <- app_assoc.
    + done.
    + by constructor.
    + simpl. lia.
    + simpl. by rewrite <- !app_assoc.
  - destruct (before_sym s Hs _ _ _ Hb) as (w1 & i1 & -> & _ & _ & Hne & Hnz). cbn beta iota zeta.
    by rewrite (proj2 (Z.eqb_neq _ _) Hne), (proj2 (Z.eqb_neq _ _) Hnz).
Qed.

Lemma parseback_sound fuel : ∀ c i ts, before s i ts → (length ts < fuel)%nat →
  match parseback s fuel c i with
  | POk (c', j) => ∃ n ts', ts = replicate n (TSym 38) ++ ts' ∧ before s j ts' ∧ c' = Nat.iter n BACK c
  | PPanic _ => True
  | PNoFuel => False
  end.
Proof.
  induction fuel as [|fuel IH]; intros c i ts Hb Hf; [lia|]. cbn [parseback]. peek_at Hb.
  destruct (starts [38] ts) eqn:E.
  2: { by exists 0%nat, ts. }
  apply starts_one in E as [ts1 ->]; [|done]. destruct (before_sym s Hs _ _ _ Hb) as (w1 & i1 & -> & Hb1 & _).
  specialize (IH (BACK c) i1 ts1 Hb1 ltac:(simpl in Hf; lia)).
  destruct (parseback s fuel _ i1) as [[c' j]|msg|]; [|done..].
  destruct IH as (n & ts' & -> & Hj & ->). exists (S n), ts'. split_and!; [done..|]. by rewrite Nat.iter_succ_r.
Qed.

(** ** What the parser accepts *)

(** The outcome of a parsing function: a tree of the grammar that spells the tokens consumed, or an
    error; never out of fuel. *)
Definition parsed {X : Type} (tokens : X → list token) (ok : X → Prop) (mean : X → cmd) (ts : list token)
    (r : pres (cmd * nat)) : Prop :=
  match r with
  | POk (c, j) => ∃ x ts', ts = tokens x ++ ts' ∧ before s j ts' ∧ ok x ∧ c = mean x
  | PPanic _ => True
  | PNoFuel => False
  end.

Definition line_parsed := parsed line_tokens line_ok line_cmd.
Definition pipe_parsed := parsed pipe_tokens pipe_ok pipe_cmd.
Definition exec_parsed := parsed exec_tokens exec_ok exec_cmd.

Lemma before_length i ts : before s i ts → (length ts < rounds s)%nat.
Proof. intros [_ <-]. pose proof (lexs_length s Hs i). unfold rounds. lia. Qed.

Lemma line_sound fuel i ts : before s i ts →
  pipe_parsed ts (parsepipe s fuel i) →
  (∀ j ts', before s j ts' → (length ts' < length ts)%nat → line_parsed ts' (parseline s fuel j)) →
  line_parsed ts (parseline s (S fuel) i).
Proof.
  intros Hb Hp Hrec. cbn [parseline]. destruct (parsepipe s fuel i) as [[c i1]|msg|]; [|done..]. cbn [pbind].
  destruct Hp as (p & ts1 & -> & Hb1 & Hok & ->).
  pose proof (parseback_sound (rounds s) (pipe_cmd p) i1 ts1 Hb1 (before_length _ _ Hb1)) as Hk.
  destruct (parseback s (rounds s) _ i1) as [[c i2]|msg|]; [|done..]. cbn [pbind].
  destruct Hk as (n & ts2 & -> & Hb2 & ->). peek_at Hb2. destruct (starts [59] ts2) eqn:E.
  - apply starts_one in E as [ts3 ->]; [|done]. destruct (before_sym s Hs _ _ _ Hb2) as (w & i3 & -> & Hb3 & _).
    cbn beta iota zeta. specialize (Hrec i3 ts3 Hb3). rewrite !length_app in Hrec. simpl in Hrec.
    specialize (Hrec ltac:(lia)). destruct (parseline s fuel i3) as [[c j]|msg|]; [|done..].
    destruct Hrec as (l & ts' & -> & Hj & Hl & ->). exists (LineSeq p n l), ts'.
    split_and!; try done. simpl. by rewrite <- !app_assoc.
  - exists (Line p n), ts2. split_and!; try done. simpl. by rewrite <- app_assoc.
Qed.

Lemma pipe_sound fuel i ts : before s i ts →
  exec_parsed ts (parseexec s fuel i) →
  (∀ j ts', before s j ts' → (length ts' < length ts)%nat → pipe_parsed ts' (parsepipe s fuel j)) →
  pipe_parsed ts (parsepipe s (S fuel) i).
Proof.
  intros Hb Hp Hrec. cbn [parsepipe]. destruct (parseexec s fuel i) as [[c i1]|msg|]; [|done..]. cbn [pbind].
  destruct Hp as (e & ts2 & -> & Hb2 & Hok & ->). peek_at Hb2. destruct (starts [124] ts2) eqn:E.
  - apply starts_one in E as [ts3 ->]; [|done]. destruct (before_sym s Hs _ _ _ Hb2) as (w & i3 & -> & Hb3 & _).
    cbn beta iota zeta. specialize (Hrec i3 ts3 Hb3). rewrite !length_app in Hrec. simpl in Hrec.
    specialize (Hrec ltac:(lia)). destruct (parsepipe s fuel i3) as [[c j]|msg|]; [|done..].
    destruct Hrec as (l & ts' & -> & Hj & Hl & ->). exists (PipeSeq e l), ts'.
    split_and!; try done. simpl. by rewrite <- !app_assoc.
  - by exists (Pipe e), ts2.
Qed.

Lemma block_sound fuel i ts : before s i (TSym 40 :: ts) →
  (∀ j, before s j ts → line_parsed ts (parseline s fuel j)) →
  exec_parsed (TSym 40 :: ts) (parseblock s (S fuel) i).
Proof.
  intros Hb Hrec. cbn [parseblock]. peek_at Hb. change (starts [40] (TSym 40 :: ts)) with true. cbn [negb].
  destruct (before_sym s Hs _ _ _ Hb) as (w & i1 & -> & Hb1 & _). cbn beta iota zeta. specialize (Hrec i1 Hb1).
  destruct (parseline s fuel i1) as [[c i2]|msg|]; [|done..]. cbn [pbind].
  destruct Hrec as (l & ts2 & -> & Hb2 & Hl & ->). peek_at Hb2. destruct (starts [41] ts2) eqn:E; [|done]. cbn [negb].
  apply starts_one in E as [ts3 ->]; [|done]. destruct (before_sym s Hs _ _ _ Hb2) as (w2 & i3 & -> & Hb3 & _).
  cbn beta iota zeta.
  pose proof (parseredirs_sound (rounds s) (line_cmd l) i3 ts3 Hb3 (before_length _ _ Hb3)) as Hr.
  destruct (parseredirs s (rounds s) _ i3) as [[c j]|msg|]; [|done..].
  destruct Hr as (rs & ts' & -> & Hj & Hrs & -> & _). exists (Block l rs), ts'. split_and!; try done.
  simpl. by rewrite <- !app_assoc.
Qed.

Lemma exec_sound fuel i ts : before s i ts →
  (∀ ts', ts = TSym 40 :: ts' → ∀ j, before s j ts → exec_parsed ts (parseblock s fuel j)) →
  exec_parsed ts (parseexec s (S fuel) i).
Proof.
  intros Hb Hblock. cbn [parseexec]. peek_at Hb. destruct (starts [40] ts) eqn:E.
  { apply starts_one in E as [ts1 ->]; [|done]. by eapply Hblock. }
  pose proof (parseredirs_sound (rounds s) (EXEC []) _ ts Hb (before_length _ _ Hb)) as Hr.
  destruct (parseredirs s (rounds s) _ _) as [[c i1]|msg|]; [|done..]. cbn [pbind].
  destruct Hr as (rs & ts1 & -> & Hb1 & Hrs & -> & _).
  pose proof (parseargs_sound (rounds s) [] rs i1 ts1 Hb1 (before_length _ _ Hb1) ltac:(unfold MAXARGS; simpl; lia)) as Ha.
  simpl length in Ha. destruct (parseargs s (rounds s) _ 0 i1) as [[c j]|msg|]; [|done..].
  destruct Ha as (args & ts' & -> & Hj & Hargs & Hlen & ->). exists (Simple rs args), ts'. split_and!; try done.
  simpl. by rewrite <- app_assoc.
Qed.

(** Four calls per token are enough. *)
Lemma parser_sound fuel : ∀ i ts, before s i ts →
  ((4 * length ts + 4 ≤ fuel)%nat → line_parsed ts (parseline s fuel i)) ∧
  ((4 * length ts + 3 ≤ fuel)%nat → pipe_parsed ts (parsepipe s fuel i)) ∧
  ((4 * length ts + 2 ≤ fuel)%nat → exec_parsed ts (parseexec s fuel i)) ∧
  ((4 * length ts + 1 ≤ fuel)%nat → ∀ ts', ts = TSym 40 :: ts' → exec_parsed ts (parseblock s fuel i)).
Proof.
  induction fuel as [|fuel IH]; intros i ts Hb; [split_and!; lia|]. split_and!; intros Hf.
  - apply line_sound; [done|apply IH; [done|lia]|]. intros j ts' Hj Hlt. apply IH; [done|lia].
  - apply pipe_sound; [done|apply IH; [done|lia]|]. intros j ts' Hj Hlt. apply IH; [done|lia].
  - apply exec_sound; [done|]. intros ts' E j Hj. destruct (IH j ts Hj) as (_ & _ & _ & H).
    by eapply H; [lia|].
  - intros ts' ->. apply block_sound; [done|]. intros j Hj. apply IH; [done|simpl in Hf; lia].
Qed.

(** ** Every command line is accepted *)

Lemma parseredirs_complete rs : ∀ fuel c i ts, before s i (redir_tokens rs ++ ts) →
  Forall redir_ok rs → stays ts = false → (length (redir_tokens rs ++ ts) < fuel)%nat →
  ∃ j, parseredirs s fuel c i = POk (foldl redirect c rs, j) ∧ before s j ts.
Proof.
  induction rs as [|[k w] rs IH]; intros [|fuel] c i ts Hb Hok Hst Hf; try lia; cbn [parseredirs]; peek_at Hb.
  - cbn [redir_tokens fmap list_fmap concat app]. unfold stays in Hst. rewrite Hst. eauto.
  - inversion_clear Hok as [|? ? Hk Hrs]. cbn [redir_tokens fmap list_fmap concat app fst snd] in *.
    replace (starts [60; 62] _) with true.
    2: { symmetry. apply among_spec. unfold redir_ok, sym_char in *. simpl in Hk. destruct Hk as [-> |[-> | ->]]; set_solver. }
    destruct (before_sym s Hs _ _ _ Hb) as (w1 & i1 & -> & Hb1 & _).
    destruct (before_word s Hs _ _ _ Hb1) as (i2 & -> & Hb2 & _). cbn beta iota zeta.
    change (97 =? 97) with true. cbv iota. rewrite redirect_cases by done.
    apply IH; try done. simpl in Hf. unfold redir_tokens. lia.
Qed.

Lemma ends_stays ts : ends_exec ts = true → stays ts = false.
Proof.
  destruct ts as [|[|c] ts]; try done. cbn [ends_exec starts stays]. intros Hin%among_spec. apply among_false.
  intros ?. set_unfold. lia.
Qed.

(** A word does not start like a redirection. *)
Lemma args_stay args ts : stays ts = false → stays (arg_tokens args ++ ts) = false.
Proof. by destruct args. Qed.

Lemma parseargs_complete args : ∀ fuel argv rs i ts, before s i (arg_tokens args ++ ts) →
  Forall (λ a, Forall redir_ok a.2) args → ends_exec ts = true → (length argv + length args < MAXARGS)%nat →
  (length (arg_tokens args ++ ts) < fuel)%nat →
  ∃ j, parseargs s fuel (foldl redirect (EXEC argv) rs) (length argv) i =
      POk (foldl redirect (EXEC (argv ++ args.*1)) (rs ++ concat args.*2), j) ∧ before s j ts.
Proof.
  induction args as [|[w rs1] args IH]; intros [|fuel] argv rs i ts Hb Hok Hend Hn Hf; try lia;
    cbn [parseargs]; peek_at Hb.
  - unfold arg_tokens in *. cbn [fmap list_fmap concat app] in *. rewrite !app_nil_r. destruct ts as [|t ts].
    + simpl. destruct (before_end s Hs _ Hb) as [-> Hi]. simpl. eexists. split; [done|].
      rewrite <- Hi. by apply before_skip.
    + change (starts [124; 41; 38; 59] (t :: ts) = true) in Hend. rewrite Hend. eauto.
  - unfold arg_tokens in *. cbn [fmap list_fmap concat app fst snd starts] in *. rewrite <- app_assoc in *.
    destruct (before_word s Hs _ _ _ Hb) as (i1 & -> & Hb1 & _). cbn beta iota zeta.
    change (97 =? 0) with false. change (97 =? 97) with true. cbv iota. cbn [negb].
    cbn [length] in Hn. rewrite (proj2 (Nat.leb_gt _ _)) by lia. rewrite set_arg_redirect.
    inversion_clear Hok as [|? ? Hok1 Hoks]. simpl in Hok1.
    destruct (parseredirs_complete rs1 (S fuel) (foldl redirect (EXEC (argv ++ [w])) rs) i1 _ Hb1 Hok1) as (i2 & -> & Hb2).
    { by apply args_stay, ends_stays. }
    { simpl in Hf. lia. }
    cbn [pbind]. rewrite <- foldl_app.
    destruct (IH fuel (argv ++ [w]) (rs ++ rs1) i2 ts Hb2 Hoks Hend) as (j & Hj & Hbj).
    { rewrite length_app. simpl. lia. }
    { simpl in Hf. rewrite length_app in Hf. unfold arg_tokens. lia. }
    rewrite length_app in Hj. simpl length in Hj. rewrite Nat.add_1_r in Hj. rewrite Hj, <- !app_assoc. eauto.
Qed.

Lemma parseback_complete n : ∀ fuel c i ts, before s i (replicate n (TSym 38) ++ ts) →
  starts [38] ts = false → (n + length ts < fuel)%nat →
  ∃ j, parseback s fuel c i = POk (Nat.iter n BACK c, j) ∧ before s j ts.
Proof.
  induction n as [|n IH]; intros [|fuel] c i ts Hb Hst Hf; try lia; cbn [parseback]; peek_at Hb.
  - simpl. rewrite Hst. eauto.
  - cbn [replicate app] in *. destruct (before_sym s Hs _ _ _ Hb) as (w1 & i1 & -> & Hb1 & _). cbn beta iota zeta.
    change (starts [38] (TSym 38 :: _)) with true. cbv iota. rewrite Nat.iter_succ_r. apply IH; [done..|lia].
Qed.

(** What may follow a line, a pipeline and a command. *)
Definition ends_line (ts : list token) : Prop := ts = [] ∨ ∃ ts', ts = TSym 41 :: ts'.
Definition ends_pipe (ts : list token) : Prop :=
  ends_line ts ∨ (∃ ts', ts = TSym 38 :: ts') ∨ (∃ ts', ts = TSym 59 :: ts').

Lemma ends_pipe_exec ts : ends_pipe ts → ends_exec ts = true.
Proof. by intros [[-> |[? ->]]|[[? ->]|[? ->]]]. Qed.

Definition completes {X : Type} (parse : list Z → nat → nat → pres (cmd * nat)) (k : nat)
    (tokens : X → list token) (ok : X → Prop) (mean : X → cmd) (follow : list token → Prop) (x : X) : Prop :=
  ∀ fuel i ts, before s i (tokens x ++ ts) → ok x → follow ts → (4 * length (tokens x ++ ts) + k ≤ fuel)%nat →
  ∃ j, parse s fuel i = POk (mean x, j) ∧ before s j ts.

Definition line_completes := completes parseline 4 line_tokens line_ok line_cmd ends_line.
Definition pipe_completes := completes parsepipe 3 pipe_tokens pipe_ok pipe_cmd ends_pipe.
Definition exec_completes := completes parseexec 2 exec_tokens exec_ok exec_cmd (λ ts, ends_exec ts = true).

(** A pipeline followed by its ampersands. *)
Lemma backs_complete p n fuel i ts : pipe_completes p → pipe_ok p →
  before s i (pipe_tokens p ++ replicate n (TSym 38) ++ ts) →
  ends_line ts ∨ (∃ ts', ts = TSym 59 :: ts') →
  (4 * length (pipe_tokens p ++ replicate n (TSym 38) ++ ts) + 3 ≤ fuel)%nat →
  ∃ j, (let! (c, i) := parsepipe s fuel i in parseback s (rounds s) c i) =
    POk (Nat.iter n BACK (pipe_cmd p), j) ∧ before s j ts.
Proof.
  intros IH Hok Hb Hts Hf. destruct (IH fuel i _ Hb Hok) as (i1 & -> & Hb1); [|done|].
  { destruct n; [|right; left; eauto]. destruct Hts as [|]; [by left|by right; right]. }
  cbn [pbind]. apply parseback_complete; [done| |].
  - by destruct Hts as [[-> |[? ->]]|[? ->]].
  - apply before_length in Hb1. rewrite length_app, length_replicate in Hb1. done.
Qed.

Lemma pbind_assoc {A B C} (r : pres A) (f : A → pres B) (g : B → pres C) :
  pbind (pbind r f) g = pbind r (λ x, pbind (f x) g).
Proof. by destruct r. Qed.

(** [parseline] up to the test for a semicolon. *)
Lemma parseline_unfold fuel i :
  parseline s (S fuel) i =
  let! (c, i) := (let! (c, i) := parsepipe s fuel i in parseback s (rounds s) c i) in
  let '(more, i) := peek s i [59] in
  if more then
    let '(_, _, i) := gettoken s i in
    let! (r, i) := parseline s fuel i in POk (LIST c r, i)
  else POk (c, i).
Proof. cbn [parseline]. rewrite pbind_assoc. by destruct (parsepipe s fuel i) as [[c j]| |]. Qed.

Lemma line1_complete p n : pipe_completes p → line_completes (Line p n).
Proof.
  intros IH [|fuel] i ts Hb Hok Hend Hf; [lia|]. cbn [line_tokens line_cmd line_ok] in *.
  rewrite <- app_assoc in Hb, Hf. rewrite parseline_unfold.
  destruct (backs_complete p n fuel i ts IH Hok Hb) as (j & -> & Hj); [by left|lia|]. cbn [pbind].
  peek_at Hj. replace (starts [59] ts) with false by (by destruct Hend as [-> |[? ->]]). eauto.
Qed.

Lemma lineseq_complete p n l : pipe_completes p → line_completes l → line_completes (LineSeq p n l).
Proof.
  intros IH IHl [|fuel] i ts Hb [Hok Hokl] Hend Hf; [lia|]. cbn [line_tokens line_cmd] in *.
  rewrite <- !app_assoc in Hb, Hf. cbn [app] in Hb, Hf. rewrite parseline_unfold.
  destruct (backs_complete p n fuel i _ IH Hok Hb) as (j & -> & Hj); [by right; eauto|lia|]. cbn [pbind].
  peek_at Hj. change (starts [59] (TSym 59 :: _)) with true. cbv iota.
  destruct (before_sym s Hs _ _ _ Hj) as (w & i1 & -> & Hb1 & _). cbn beta iota zeta.
  destruct (IHl fuel i1 ts Hb1 Hokl Hend) as (k & -> & Hk); [|by eexists].
  rewrite !length_app in Hf. simpl in Hf. rewrite !length_app in *. lia.
Qed.

Lemma pipe1_complete e : exec_completes e → pipe_completes (Pipe e).
Proof.
  intros IH [|fuel] i ts Hb Hok Hend Hf; [lia|]. cbn [pipe_tokens pipe_cmd pipe_ok parsepipe] in *.
  destruct (IH fuel i ts Hb Hok (ends_pipe_exec _ Hend)) as (j & -> & Hj); [lia|]. cbn [pbind].
  peek_at Hj. replace (starts [124] ts) with false by (by destruct Hend as [[-> |[? ->]]|[[? ->]|[? ->]]]). eauto.
Qed.

Lemma pipeseq_complete e p : exec_completes e → pipe_completes p → pipe_completes (PipeSeq e p).
Proof.
  intros IH IHp [|fuel] i ts Hb [Hok Hokp] Hend Hf; [lia|]. cbn [pipe_tokens pipe_cmd parsepipe] in *.
  rewrite <- app_assoc in Hb, Hf. cbn [app] in Hb, Hf.
  destruct (IH fuel i _ Hb Hok) as (j & -> & Hj); [done|lia|]. cbn [pbind].
  peek_at Hj. change (starts [124] (TSym 124 :: _)) with true. cbv iota.
  destruct (before_sym s Hs _ _ _ Hj) as (w & i1 & -> & Hb1 & _). cbn beta iota zeta.
  destruct (IHp fuel i1 ts Hb1 Hokp Hend) as (k & -> & Hk); [|by eexists].
  rewrite !length_app in Hf. simpl in Hf. rewrite !length_app in *. lia.
Qed.

Lemma block_complete l rs : line_completes l → exec_completes (Block l rs).
Proof.
  intros IH [|[|fuel]] i ts Hb [Hok Hrs] Hend Hf; [lia|lia|]. cbn [exec_tokens exec_cmd app] in *.
  rewrite <- app_assoc in Hb, Hf. cbn [app] in Hb, Hf. cbn [parseexec]. peek_at Hb.
  change (starts [40] (TSym 40 :: _)) with true. cbv iota. cbn [parseblock]. peek_at Hb.
  change (starts [40] (TSym 40 :: _)) with true. cbn [negb].
  destruct (before_sym s Hs _ _ _ Hb) as (w & i1 & -> & Hb1 & _). cbn beta iota zeta.
  destruct (IH fuel i1 _ Hb1 Hok) as (i2 & -> & Hb2); [by right; eexists|simpl in Hf; lia|]. cbn [pbind].
  peek_at Hb2. change (starts [41] (TSym 41 :: _)) with true. cbn [negb].
  destruct (before_sym s Hs _ _ _ Hb2) as (w2 & i3 & -> & Hb3 & _). cbn beta iota zeta.
  apply parseredirs_complete; [done|done|by apply ends_stays|by apply (before_length i3)].
Qed.

Lemma simple_complete rs args : exec_completes (Simple rs args).
Proof.
  intros [|fuel] i ts Hb (Hrs & Hargs & Hn) Hend Hf; [lia|]. cbn [exec_tokens exec_cmd] in *.
  rewrite <- app_assoc in Hb. cbn [parseexec]. peek_at Hb.
  replace (starts [40] _) with false.
  2: { symmetry. destruct rs as [|[k w] rs]; [destruct args as [|a args]; [|done]|].
       - destruct ts as [|[|c] ts]; try done. cbn [ends_exec starts redir_tokens arg_tokens fmap list_fmap concat app] in *.
         apply among_spec in Hend. apply among_false. intros ?. set_unfold. lia.
       - inversion_clear Hrs as [|? ? Hk _]. apply among_false. unfold redir_ok, sym_char in *. simpl in *.
         destruct Hk as [-> |[-> | ->]]; set_solver. }
  destruct (parseredirs_complete rs (rounds s) (EXEC []) _ _ Hb Hrs) as (i1 & -> & Hb1);
    [by apply args_stay, ends_stays|by eapply before_length|]. cbn [pbind].
  apply (parseargs_complete args (rounds s) [] rs i1 ts); try done. by eapply before_length.
Qed.

Scheme line_mind := Induction for line Sort Prop
  with pipe_mind := Induction for pipe Sort Prop
  with exec_mind := Induction for exec Sort Prop.

Lemma line_complete l : line_completes l.
Proof.
  apply (line_mind line_completes pipe_completes exec_completes);
    auto using line1_complete, lineseq_complete, pipe1_complete, pipeseq_complete, block_complete, simple_complete.
Qed.
End loops.

(** ** Words *)

Fixpoint words (c : cmd) : list span :=
  match c with
  | EXEC argv => argv
  | REDIR c w _ _ => words c ++ [w]
  | PIPE l r | LIST l r => words l ++ words r
  | BACK c => words c
  end.

Lemma words_back n c : words (Nat.iter n BACK c) = words c.
Proof. by induction n. Qed.

Lemma words_redirect c rs w : w ∈ words (foldl redirect c rs) → w ∈ words c ∨ TWord w ∈ redir_tokens rs.
Proof.
  revert c. induction rs as [|[k w'] rs IH]; intros c; simpl; [by left|]. intros [Hw|Hw]%IH; [|set_solver].
  assert (words (redirect c (k, w')) = words c ++ [w']) as E by (unfold redirect; repeat case_match; done).
  rewrite E in Hw. set_solver.
Qed.

Lemma redir_tokens_app rs rs' : redir_tokens (rs ++ rs') = redir_tokens rs ++ redir_tokens rs'.
Proof. unfold redir_tokens. by rewrite fmap_app, concat_app. Qed.

Lemma words_args args w : w ∈ args.*1 ∨ TWord w ∈ redir_tokens (concat args.*2) → TWord w ∈ arg_tokens args.
Proof.
  induction args as [|[v rs] args IH]; unfold arg_tokens; simpl; [set_solver|].
  rewrite redir_tokens_app. fold (arg_tokens args). set_solver.
Qed.

(** The words of a command are words of the line. *)
Lemma words_tokens l w : w ∈ words (line_cmd l) → TWord w ∈ line_tokens l.
Proof.
  revert l. apply (line_mind (λ l, w ∈ words (line_cmd l) → TWord w ∈ line_tokens l)
    (λ p, w ∈ words (pipe_cmd p) → TWord w ∈ pipe_tokens p)
    (λ e, w ∈ words (exec_cmd e) → TWord w ∈ exec_tokens e)); simpl.
  - intros p IH n. rewrite words_back. set_solver.
  - intros p IH n l IHl. rewrite words_back. set_solver.
  - done.
  - set_solver.
  - intros l IH rs [Hw|Hw]%words_redirect; set_solver.
  - intros rs args [Hw|Hw]%words_redirect; apply elem_of_app; simpl in Hw.
    + right. apply words_args. by left.
    + rewrite redir_tokens_app in Hw. apply elem_of_app in Hw as [|]; [by left|]. right. apply words_args. by right.
Qed.

Lemma lexs_words s i w : 0 ∉ s → TWord w ∈ lexs s i → word_ok s w.
Proof.
  intros Hs. remember (es s - i)%nat as n eqn:En. revert i En. induction n as [n IH] using lt_wf_ind. intros i ->.
  destruct (decide (es s ≤ skip s i)%nat) as [He|He].
  { rewrite (lexs_cons s Hs _ _ _ _ (gettoken_end s Hs i He)). simpl. by intros ?%elem_of_nil. }
  destruct (gettoken s i) as [[ret v] i'] eqn:G. rewrite (lexs_cons s Hs _ _ _ _ G).
  apply gettoken_token in G as (Hr & Hi' & _ & Hc); [|done|lia]. rewrite (proj2 (Z.eqb_neq _ _) Hr).
  intros [E|Hin]%elem_of_cons; [|by apply (IH (es s - i')%nat ltac:(lia) i')].
  unfold token_of in E. destruct (ret =? 97) eqn:E97; [|done]. injection E as ->.
  apply Z.eqb_eq in E97. naive_solver.
Qed.

(** ** NUL-termination *)

Definition zero_ends (buf : list Z) (ws : list span) : list Z := foldl (λ b w, <[w.2 := 0]> b) buf ws.

Lemma nulterminate_words c buf : nulterminate c buf = zero_ends buf (words c).
Proof.
  revert buf. induction c; intros buf; simpl; unfold zero_ends in *; rewrite ?foldl_app; simpl; congruence.
Qed.

Lemma zero_ends_lookup ws : ∀ buf k,
  zero_ends buf ws !! k =
    if decide (k ∈ ws.*2) then (if decide (k < length buf)%nat then Some 0 else None) else buf !! k.
Proof.
  unfold zero_ends. induction ws as [|w ws IH]; intros buf k; cbn [foldl].
  - rewrite decide_False; [done|]. set_solver.
  - rewrite IH, length_insert. destruct (decide (k ∈ ws.*2)) as [Hin|Hin].
    { rewrite (decide_True (P := k ∈ (w :: ws).*2)) by set_solver. done. }
    destruct (decide (k = w.2)) as [-> |Hne].
    + rewrite (decide_True (P := w.2 ∈ (w :: ws).*2)) by set_solver. case_decide.
      * by apply list_lookup_insert_eq.
      * apply lookup_ge_None. rewrite length_insert. lia.
    + rewrite (decide_False (P := k ∈ (w :: ws).*2)) by set_solver. by apply list_lookup_insert_ne.
Qed.

(** The C string at the beginning of a buffer. *)
Fixpoint c_string (l : list Z) : option (list Z) :=
  match l with
  | [] => None
  | x :: l' => if x =? 0 then Some [] else cons x <$> c_string l'
  end.

Lemma c_string_app u rest : 0 ∉ u → c_string (u ++ 0 :: rest) = Some u.
Proof.
  induction u as [|x u IH]; [done|]. intros [Hx Hu]%not_elem_of_cons. simpl.
  rewrite (proj2 (Z.eqb_neq x 0)) by congruence. by rewrite IH.
Qed.

(** No end of a word lies inside a word: there the line has a character that is not one of a word. *)
Lemma end_outside s w w' : word_ok s w → word_ok s w' → ¬ (w.1 ≤ w'.2 < w.2)%nat.
Proof.
  intros (_ & Hle & Hin & _) (_ & _ & _ & Hend) Hk. specialize (Hin _ Hk). destruct Hend; [lia|congruence].
Qed.

Lemma word_string s ws w : 0 ∉ s → (∀ w, w ∈ ws → word_ok s w) → w ∈ ws →
  c_string (drop w.1 (zero_ends (s ++ [0]) ws)) = Some (slice s w.1 (w.2 - w.1)).
Proof.
  intros Hs Hok Hw. pose proof (Hok w Hw) as (Hlt & Hle & _). unfold es in Hle.
  assert (drop w.1 (zero_ends (s ++ [0]) ws) =
    slice s w.1 (w.2 - w.1) ++ 0 :: drop (S w.2) (zero_ends (s ++ [0]) ws)) as ->.
  - apply list_eq. intros k. rewrite lookup_drop.
    assert (length (slice s w.1 (w.2 - w.1)) = (w.2 - w.1)%nat) as Hlen by (apply length_slice; lia).
    destruct (Nat.lt_trichotomy (w.1 + k) w.2) as [Hk|[Hk|Hk]].
    + rewrite lookup_app_l by lia. unfold slice. rewrite lookup_take_lt, lookup_drop by lia.
      rewrite zero_ends_lookup, decide_False.
      * rewrite lookup_app_l by lia. done.
      * intros (w' & E & Hin)%list_elem_of_fmap. apply (end_outside s w w'); auto. lia.
    + rewrite list_lookup_middle by lia. rewrite zero_ends_lookup, Hk, decide_True, decide_True; [done| |].
      * rewrite length_app. simpl. lia.
      * by apply list_elem_of_fmap_2.
    + rewrite lookup_app_r by lia. rewrite Hlen. destruct (w.1 + k - w.2)%nat eqn:E; [lia|].
      replace (k - (w.2 - w.1))%nat with (S n) by lia. simpl. rewrite lookup_drop. f_equal. lia.
  - apply c_string_app. intros Hin. apply Hs. apply list_elem_of_lookup in Hin as [j Hj].
    apply lookup_take_Some in Hj as [Hj _]. rewrite lookup_drop in Hj. by eapply list_elem_of_lookup_2.
Qed.

(** ** Theorems *)

Lemma before_start s : before s 0 (lexs s 0).
Proof. split; [lia|done]. Qed.

(** The end of [parsecmd]. *)
Lemma parsecmd_ok s c j ts : 0 ∉ s → parseline s (4 * (es s + 1)) 0 = POk (c, j) → before s j ts →
  parsecmd s = if decide (ts = []) then POk (c, nulterminate c (s ++ [0])) else PPanic "syntax".
Proof.
  intros Hs Hp Hb. unfold parsecmd. rewrite Hp. cbn [pbind].
  rewrite (peek_starts s Hs _ _ _ Hb) by (intros ? ?%elem_of_nil; done). cbn beta iota.
  case_decide as E; subst.
  - apply before_end in Hb as [_ ->]; [|done]. by rewrite Nat.eqb_refl.
  - destruct (Nat.eqb_spec (skip s j) (es s)) as [He|]; [|done]. destruct E, Hb as [_ <-].
    by rewrite (lexs_cons s Hs _ _ _ _ (gettoken_end s Hs j ltac:(lia))).
Qed.

Lemma parse_sound s : 0 ∉ s → line_parsed s (lexs s 0) (parseline s (4 * (es s + 1)) 0).
Proof.
  intros Hs. destruct (parser_sound s Hs (4 * (es s + 1)) 0 _ (before_start s)) as [H _]. apply H.
  pose proof (lexs_length s Hs 0). lia.
Qed.

Lemma parse_complete s l : 0 ∉ s → line_ok l → lexs s 0 = line_tokens l →
  parsecmd s = POk (line_cmd l, nulterminate (line_cmd l) (s ++ [0])).
Proof.
  intros Hs Hok E. pose proof (before_start s) as Hb. rewrite E, <- (app_nil_r (line_tokens l)) in Hb.
  destruct (line_complete s Hs l (4 * (es s + 1))%nat 0%nat [] Hb Hok) as (j & Hp & Hj); [by left| |].
  { rewrite app_nil_r, <- E. pose proof (lexs_length s Hs 0). lia. }
  by rewrite (parsecmd_ok s _ _ _ Hs Hp Hj), decide_True.
Qed.

(** A successful parse comes from a line of the grammar. *)
Lemma parse_line s c buf : 0 ∉ s → parsecmd s = POk (c, buf) →
  ∃ l, line_ok l ∧ lexs s 0 = line_tokens l ∧ c = line_cmd l ∧ buf = nulterminate c (s ++ [0]).
Proof.
  intros Hs H. pose proof (parse_sound s Hs) as Hp.
  destruct (parseline s (4 * (es s + 1)) 0) as [[c' j]|msg|] eqn:E;
    [|unfold parsecmd in H; by rewrite E in H..].
  destruct Hp as (l & ts' & Hl & Hj & Hok & ->). rewrite (parsecmd_ok s _ _ _ Hs E Hj) in H.
  case_decide; [|done]. injection H as <- <-. subst ts'. rewrite app_nil_r in Hl. by exists l.
Qed.

(** C33. The shell's parser is total: on every command line it ends, with a command when the tokens of
    the line form a sentence of the grammar (with at most MAXARGS - 1 arguments per command) and with a
    syntax error exactly when they do not. *)
Theorem parsecmd_decides s : 0 ∉ s →
  match parsecmd s with
  | POk _ => ∃ l, line_ok l ∧ lexs s 0 = line_tokens l
  | PPanic _ => ¬ ∃ l, line_ok l ∧ lexs s 0 = line_tokens l
  | PNoFuel => False
  end.
Proof.
  intros Hs. destruct (parsecmd s) as [[c buf]|msg|] eqn:E.
  - destruct (parse_line s c buf Hs E) as (l & ? & ? & _). eauto.
  - intros (l & Hok & Hl). rewrite (parse_complete s l Hs Hok Hl) in E. done.
  - pose proof (parse_sound s Hs) as Hp. unfold parsecmd in E.
    destruct (parseline s (4 * (es s + 1)) 0) as [[c j]|msg|]; [|done..]. cbn [pbind] in E.
    destruct (peek s j []) as [? ?]. by destruct (_ =? _)%nat.
Qed.

(** C34. The command [parsecmd] returns is the one the grammar gives to the line: background, sequence,
    pipeline, block, redirections with their modes and descriptors, and the arguments in order. *)
Theorem parsecmd_means s c buf : 0 ∉ s →
  parsecmd s = POk (c, buf) ↔
  ∃ l, line_ok l ∧ lexs s 0 = line_tokens l ∧ c = line_cmd l ∧ buf = nulterminate c (s ++ [0]).
Proof.
  intros Hs. split; [by apply parse_line|]. intros (l & Hok & Hl & -> & ->). by apply parse_complete.
Qed.

(** C35. After [nulterminate], every argument and file name of the command is a C string in the buffer: the
    characters of its word, although all words share the buffer of the line. *)
Theorem parsecmd_strings s c buf w : 0 ∉ s → parsecmd s = POk (c, buf) → w ∈ words c →
  c_string (drop w.1 buf) = Some (slice s w.1 (w.2 - w.1)) ∧ (w.1 < w.2 ≤ length s)%nat.
Proof.
  intros Hs H Hw. destruct (parse_line s c buf Hs H) as (l & _ & Hl & -> & ->).
  assert (∀ v, v ∈ words (line_cmd l) → word_ok s v) as Hok.
  { intros v Hv. apply (lexs_words s 0 v Hs). rewrite Hl. by apply words_tokens. }
  rewrite nulterminate_words. split; [by apply word_string|]. by destruct (Hok w Hw) as (? & ? & _).
Qed.

(** (ls; cat<x) | wc >y & *)
Definition demo_line : list Z :=
  (λ a, Z.of_N (Ascii.N_of_ascii a)) <$> String.list_ascii_of_string "(ls; cat<x) | wc >y &".

Definition demo_cmd : cmd :=
  BACK (PIPE (LIST (EXEC [(1, 3)%nat]) (REDIR (EXEC [(5, 8)%nat]) (9, 10)%nat O_RDONLY 0))
             (REDIR (EXEC [(14, 16)%nat]) (18, 19)%nat O_WRONLY_CREATE_TRUNC 1)).

Lemma demo_parsed : parsecmd demo_line = POk (demo_cmd, nulterminate demo_cmd (demo_line ++ [0])).
Proof. vm_compute. reflexivity. Qed.

Lemma demo_nul : 0 ∉ demo_line.
Proof. apply (bool_decide_unpack _). vm_compute. exact I. Qed.

Lemma parsecmd_decides_witness :
  match parsecmd demo_line with
  | POk _ => ∃ l, line_ok l ∧ lexs demo_line 0 = line_tokens l
  | PPanic _ => ¬ ∃ l, line_ok l ∧ lexs demo_line 0 = line_tokens l
  | PNoFuel => False
  end.
Proof. apply (parsecmd_decides demo_line). apply demo_nul. Defined.

Lemma parsecmd_means_witness :
  ∃ l, line_ok l ∧ lexs demo_line 0 = line_tokens l ∧ demo_cmd = line_cmd l ∧
    nulterminate demo_cmd (demo_line ++ [0]) = nulterminate demo_cmd (demo_line ++ [0]).
Proof.
  apply (parsecmd_means demo_line demo_cmd (nulterminate demo_cmd (demo_line ++ [0])) demo_nul).
  apply demo_parsed.
Defined.

Lemma parsecmd_strings_witness :
  c_string (drop 5 (nulterminate demo_cmd (demo_line ++ [0]))) = Some [99; 97; 116].
Proof.
  destruct (parsecmd_strings demo_line demo_cmd (nulterminate demo_cmd (demo_line ++ [0])) (5, 8)%nat
    demo_nul demo_parsed) as [H _].
  - apply (bool_decide_unpack _). vm_compute. exact I.
  - exact H.
Defined.

(** A redirection that comes later is opened first, and the earlier one replaces it. *)
Lemma first_redirection_wins c r r' : r.1 ≠ 60 → r'.1 ≠ 60 →
  ∃ mode mode', foldl redirect c [r; r'] = REDIR (REDIR c r.2 mode 1) r'.2 mode' 1.
Proof.
  intros H H'. simpl. unfold redirect. rewrite (proj2 (Z.eqb_neq _ _) H), (proj2 (Z.eqb_neq _ _) H').
  destruct (_ =? 62), (_ =? 62); eauto.
Qed.
