(* ===== verification/Uprog.v ===== *)
(** * User programs as system-call trees (user/printf.c, cat.c, echo.c, ls.c, mkdir.c, rm.c, init.c)

    A user program is a tree of the system calls it makes: each call is followed by what the program does
    for every reply.  [exit] ends the tree.  A loop whose length depends on the replies takes fuel.  The
    shell's execution of commands is in file Shrun. *)

From stdpp Require Import base list functions sets numbers strings.
From Stdlib Require Import ZArith Lia.
From S2P Require Import Prelude Machine Ulib Fs Console Kernel Sysfile Grep.

(** ** System calls *)

(** An argument register of a system call: a value, or the address of something in the program's memory:
    given bytes, [n] bytes to be filled, an array of pointers to strings that ends in a null pointer. *)
Inductive sarg :=
  | AVal (v : Z)
  | AData (l : list Z)
  | AOut (n : nat)
  | AArgv (l : list (list Z)).

(** What a program does that the rest of the system can see: the common system calls with their
    arguments as values, any system call by its number, loads and stores at given addresses, and
    computing until the next timer interrupt. *)
Inductive call :=
  | SysFork
  | SysWait
  | SysPipe
  | SysRead (fd : Z) (n : nat)
  | SysWrite (fd : Z) (bytes : list Z)
  | SysClose (fd : Z)
  | SysExec (path : list Z) (argv : list (list Z))
  | SysOpen (path : list Z) (mode : Z)
  | SysMknod (path : list Z) (major minor : Z)
  | SysUnlink (path : list Z)
  | SysFstat (fd : Z)
  | SysMkdir (path : list Z)
  | SysChdir (path : list Z)
  | SysDup (fd : Z)
  | SysCall (num : Z) (args : list sarg)
  | MemLoad (a : Z) (n : nat)
  | MemStore (a : Z) (l : list Z)
  | Spin.

(** What a call returns: its value, the bytes it stores at a pointer argument, and for [pipe] the two
    descriptors. *)
Record reply := mkreply { rv : Z; rbytes : list Z; rpipe : Z * Z }.

Inductive uprog (A : Type) :=
  | URet (a : A)
  | UExit (status : Z)
  | UCall (c : call) (k : reply → uprog A)
  | UUndef                                (* C gives the program no meaning *)
  | UFuel.
Arguments URet {A} a. Arguments UExit {A} status. Arguments UCall {A} c k.
Arguments UUndef {A}. Arguments UFuel {A}.

Fixpoint ubind {A B} (p : uprog A) (f : A → uprog B) : uprog B :=
  match p with
  | URet a => f a
  | UExit n => UExit n
  | UCall c k => UCall c (λ r, ubind (k r) f)
  | UUndef => UUndef
  | UFuel => UFuel
  end.
Notation "'ulet' x := p 'in' k" := (ubind p (λ x, k)) (at level 10, x pattern, p at level 200, k at level 200).

Definition usys (c : call) : uprog reply := UCall c URet.
Definition ucall (c : call) : uprog Z := UCall c (λ r, URet (rv r)).
Definition uexit {A} (status : Z) : uprog A := UExit status.

(** ** Formatted output (printf.c) *)

Definition putc (fd c : Z) : uprog unit := ulet _ := usys (SysWrite fd [u8 c]) in URet tt.

Fixpoint puts (fd : Z) (l : list Z) : uprog unit :=
  match l with
  | [] => URet tt
  | c :: l' => ulet _ := putc fd c in puts fd l'
  end.

Definition udigits : list Z := ascii_bytes "0123456789ABCDEF".

(** The digits of [x], least significant first: the contents of [buf]. *)
Fixpoint digits_loop (fuel : nat) (x base : Z) : list Z :=
  match fuel with
  | O => []
  | S fuel' =>
      nth (Z.to_nat (x mod base)) udigits 0 ::
        (if x / base =? 0 then [] else digits_loop fuel' (x / base) base)
  end.

(** [printint(fd, xx, base, sgn)]: [xx] is a long long, [x] an unsigned long long. *)
Definition uprintint_buf (xx base : Z) (sgn : bool) : list Z :=
  let neg := sgn && (xx <? 0) in
  let x := if neg then u64 (- xx) else u64 xx in
  digits_loop 64 x base ++ (if neg then [45] else []).

Definition uprintint (fd xx base : Z) (sgn : bool) : uprog unit := puts fd (rev (uprintint_buf xx base sgn)).

Fixpoint printptr_loop (fd : Z) (n : nat) (x : Z) : uprog unit :=
  match n with
  | O => URet tt
  | S n' => ulet _ := putc fd (nth (Z.to_nat (Z.shiftr x 60)) udigits 0) in printptr_loop fd n' (u64 (Z.shiftl x 4))
  end.

Definition printptr (fd x : Z) : uprog unit :=
  ulet _ := putc fd 48 in ulet _ := putc fd 120 in printptr_loop fd 16 x.

(** Arguments of [printf]. *)
Inductive uarg := UNum (v : Z) | UStr (s : option (list Z)).

(** [va_arg] for a number and for a string; a missing or ill-typed argument has no meaning. *)
Definition va_num {A} (ap : list uarg) (k : Z → list uarg → uprog A) : uprog A :=
  match ap with UNum v :: ap' => k v ap' | _ => UUndef end.
Definition va_str {A} (ap : list uarg) (k : list Z → list uarg → uprog A) : uprog A :=
  match ap with UStr s :: ap' => k (default (ascii_bytes "(null)") s) ap' | _ => UUndef end.

(** The loop of [vprintf]: [fmt] is the rest of the format, [pct] is true after a %, and [skip] is the
    number of characters still to be passed over ([i += skip]). *)
Fixpoint vprintf_loop (fd : Z) (fmt : list Z) (ap : list uarg) (pct : bool) (skip : nat) : uprog unit :=
  match fmt with
  | [] => URet tt
  | c0 :: fmt' =>
      match skip with
      | S skip' => vprintf_loop fd fmt' ap pct skip'
      | O =>
          if negb pct then
            if c0 =? 37 then vprintf_loop fd fmt' ap true 0
            else ulet _ := putc fd c0 in vprintf_loop fd fmt' ap false 0
          else
            let c1 := nth 0 fmt' 0 in
            let c2 := if c1 =? 0 then 0 else nth 1 fmt' 0 in
            let int (conv : Z → Z) (base : Z) (sgn : bool) (skip : nat) :=
              va_num ap (λ v ap', ulet _ := uprintint fd (conv v) base sgn in vprintf_loop fd fmt' ap' false skip) in
            if c0 =? 100 then int s32 10 true 0%nat
            else if (c0 =? 108) && (c1 =? 100) then int s64 10 true 1%nat
            else if (c0 =? 108) && (c1 =? 108) && (c2 =? 100) then int s64 10 true 2%nat
            else if c0 =? 117 then int u32 10 false 0%nat
            else if (c0 =? 108) && (c1 =? 117) then int s64 10 false 1%nat
            else if (c0 =? 108) && (c1 =? 108) && (c2 =? 117) then int s64 10 false 2%nat
            else if c0 =? 120 then int u32 16 false 0%nat
            else if (c0 =? 108) && (c1 =? 120) then int s64 16 false 1%nat
            else if (c0 =? 108) && (c1 =? 108) && (c2 =? 120) then int s64 16 false 2%nat
            else if c0 =? 112 then
              va_num ap (λ v ap', ulet _ := printptr fd (u64 v) in vprintf_loop fd fmt' ap' false 0)
            else if c0 =? 99 then
              va_num ap (λ v ap', ulet _ := putc fd v in vprintf_loop fd fmt' ap' false 0)
            else if c0 =? 115 then
              va_str ap (λ s ap', ulet _ := puts fd s in vprintf_loop fd fmt' ap' false 0)
            else if c0 =? 37 then ulet _ := putc fd 37 in vprintf_loop fd fmt' ap false 0
            else ulet _ := putc fd 37 in ulet _ := putc fd c0 in vprintf_loop fd fmt' ap false 0
      end
  end.

Definition vprintf (fd : Z) (fmt : list Z) (ap : list uarg) : uprog unit := vprintf_loop fd fmt ap false 0.
Definition fprintf (fd : Z) (fmt : list Z) (ap : list uarg) : uprog unit := vprintf fd fmt ap.
Definition uprintf (fmt : list Z) (ap : list uarg) : uprog unit := vprintf 1 fmt ap.

(** A format that ends in a newline. *)
Definition ln (fmt : string) : list Z := ascii_bytes fmt ++ [10].

(** ** cat.c *)

Fixpoint cat_loop (fuel : nat) (fd : Z) : uprog Z :=
  match fuel with
  | O => UFuel
  | S fuel' =>
      ulet r := usys (SysRead fd 512) in
      if 0 <? rv r then
        ulet n := ucall (SysWrite 1 (rbytes r)) in
        if negb (n =? rv r) then
          ulet _ := fprintf 2 (ln "cat: write error") [] in uexit 1
        else cat_loop fuel' fd
      else URet (rv r)
  end.

Definition cat (fuel : nat) (fd : Z) : uprog unit :=
  ulet n := cat_loop fuel fd in
  if n <? 0 then ulet _ := fprintf 2 (ln "cat: read error") [] in uexit 1 else URet tt.

Fixpoint cat_files (fuel : nat) (files : list (list Z)) : uprog unit :=
  match files with
  | [] => uexit 0
  | f :: files' =>
      ulet fd := ucall (SysOpen f O_RDONLY) in
      if fd <? 0 then ulet _ := fprintf 2 (ln "cat: cannot open %s") [UStr (Some f)] in uexit 1
      else
        ulet _ := cat fuel fd in
        ulet _ := ucall (SysClose fd) in
        cat_files fuel files'
  end.

Definition cat_main (fuel : nat) (argv : list (list Z)) : uprog unit :=
  match tail argv with
  | [] => ulet _ := cat fuel 0 in uexit 0
  | files => cat_files fuel files
  end.

(** ** echo.c *)

Fixpoint echo_args (args : list (list Z)) : uprog unit :=
  match args with
  | [] => uexit 0
  | a :: args' =>
      ulet _ := ucall (SysWrite 1 a) in
      ulet _ := ucall (SysWrite 1 (match args' with [] => [10] | _ => [32] end)) in
      echo_args args'
  end.
Definition echo_main (argv : list (list Z)) : uprog unit := echo_args (tail argv).

(** ** mkdir.c and rm.c *)

Fixpoint mkdir_args (args : list (list Z)) : uprog unit :=
  match args with
  | [] => uexit 0
  | a :: args' =>
      ulet r := ucall (SysMkdir a) in
      if r <? 0 then ulet _ := fprintf 2 (ln "mkdir: %s failed to create") [UStr (Some a)] in uexit 0
      else mkdir_args args'
  end.
Definition mkdir_main (argv : list (list Z)) : uprog unit :=
  match tail argv with
  | [] => ulet _ := fprintf 2 (ln "Usage: mkdir files...") [] in uexit 1
  | args => mkdir_args args
  end.

Fixpoint rm_args (args : list (list Z)) : uprog unit :=
  match args with
  | [] => uexit 0
  | a :: args' =>
      ulet r := ucall (SysUnlink a) in
      if r <? 0 then ulet _ := fprintf 2 (ln "rm: %s failed to delete") [UStr (Some a)] in uexit 0
      else rm_args args'
  end.
Definition rm_main (argv : list (list Z)) : uprog unit :=
  match tail argv with
  | [] => ulet _ := fprintf 2 (ln "Usage: rm files...") [] in uexit 1
  | args => rm_args args
  end.

(** ** ls.c *)

(** The characters up to a slash; [fmtname] looks for the last slash from the end of the path. *)
Fixpoint upto_slash (l : list Z) : list Z :=
  match l with [] => [] | c :: l' => if c =? 47 then [] else c :: upto_slash l' end.
Definition last_part (path : list Z) : list Z := rev (upto_slash (rev path)).

(** The name padded with blanks to DIRSIZ, or longer. *)
Definition fmtname (path : list Z) : list Z :=
  let p := last_part path in
  if DIRSIZ <=? Z.of_nat (length p) then p
  else p ++ replicate (Z.to_nat DIRSIZ - length p) 32.

(** [struct stat] as [fstat] stores it: dev, ino, type, nlink, padding, size. *)
Definition stat_ino (b : list Z) : Z := ld32 b 4.
Definition stat_type (b : list Z) : Z := le_combine (slice b 8 2).
Definition stat_size (b : list Z) : Z := le_combine (slice b 16 8).

Definition ls_line (path st : list Z) : uprog unit :=
  uprintf (ln "%s %d %d %d")
    [UStr (Some (fmtname path)); UNum (stat_type st); UNum (stat_ino st); UNum (stat_size st)].

(** [stat(path, &st)] (ulib.c): the result and the structure. *)
Definition ustat (path : list Z) : uprog (Z * list Z) :=
  ulet fd := ucall (SysOpen path O_RDONLY) in
  if fd <? 0 then URet (-1, [])
  else
    ulet r := usys (SysFstat fd) in
    ulet _ := ucall (SysClose fd) in
    URet (rv r, rbytes r).

(** A name in a directory entry ends at its first NUL. *)
Fixpoint upto_nul (l : list Z) : list Z :=
  match l with [] => [] | c :: l' => if c =? 0 then [] else c :: upto_nul l' end.

Fixpoint ls_entries (fuel : nat) (fd : Z) (path : list Z) : uprog unit :=
  match fuel with
  | O => UFuel
  | S fuel' =>
      ulet r := usys (SysRead fd 16) in
      if negb (rv r =? 16) then URet tt
      else if le_combine (slice (rbytes r) 0 2) =? 0 then ls_entries fuel' fd path
      else
        let buf := path ++ [47] ++ upto_nul (slice (rbytes r) 2 14) in
        ulet (st, b) := ustat buf in
        ulet _ := (if st <? 0 then uprintf (ln "ls: cannot stat %s") [UStr (Some buf)] else ls_line buf b) in
        ls_entries fuel' fd path
  end.

Definition ls (fuel : nat) (path : list Z) : uprog unit :=
  ulet fd := ucall (SysOpen path O_RDONLY) in
  if fd <? 0 then fprintf 2 (ln "ls: cannot open %s") [UStr (Some path)]
  else
    ulet r := usys (SysFstat fd) in
    if rv r <? 0 then
      ulet _ := fprintf 2 (ln "ls: cannot stat %s") [UStr (Some path)] in
      ulet _ := ucall (SysClose fd) in URet tt
    else
      let ty := stat_type (rbytes r) in
      ulet _ :=
        (if (ty =? T_DEVICE) || (ty =? T_FILE) then ls_line path (rbytes r)
         else if ty =? T_DIR then
           if 512 <? Z.of_nat (length path) + 1 + DIRSIZ + 1 then uprintf (ln "ls: path too long") []
           else ls_entries fuel fd path
         else URet tt) in
      ulet _ := ucall (SysClose fd) in URet tt.

Fixpoint ls_args (fuel : nat) (args : list (list Z)) : uprog unit :=
  match args with
  | [] => uexit 0
  | a :: args' => ulet _ := ls fuel a in ls_args fuel args'
  end.
Definition ls_main (fuel : nat) (argv : list (list Z)) : uprog unit :=
  match tail argv with
  | [] => ulet _ := ls fuel (ascii_bytes ".") in uexit 0
  | args => ls_args fuel args
  end.

(** ** init.c *)

(** Waiting for the shell [pid]; other children are orphans. *)
Fixpoint init_wait (fuel : nat) (pid : Z) : uprog unit :=
  match fuel with
  | O => UFuel
  | S fuel' =>
      ulet wpid := ucall SysWait in
      if wpid =? pid then URet tt
      else if wpid <? 0 then ulet _ := uprintf (ln "init: wait returned an error") [] in uexit 1
      else init_wait fuel' pid
  end.

Fixpoint init_loop (fuel : nat) : uprog unit :=
  match fuel with
  | O => UFuel
  | S fuel' =>
      ulet _ := uprintf (ln "init: starting sh") [] in
      ulet _ := uprintf (ln "welcome to xv6-k230") [] in
      ulet pid := ucall SysFork in
      if pid <? 0 then ulet _ := uprintf (ln "init: fork failed") [] in uexit 1
      else if pid =? 0 then
        ulet _ := ucall (SysExec (ascii_bytes "sh") [ascii_bytes "sh"]) in
        ulet _ := uprintf (ln "init: exec sh failed") [] in uexit 1
      else ulet _ := init_wait fuel pid in init_loop fuel'
  end.

Definition init_main (fuel : nat) : uprog unit :=
  ulet fd := ucall (SysOpen (ascii_bytes "console") O_RDWR) in
  ulet _ :=
    (if fd <? 0 then
       ulet _ := ucall (SysMknod (ascii_bytes "console") CONSOLE 0) in
       ucall (SysOpen (ascii_bytes "console") O_RDWR)
     else URet 0) in
  ulet _ := ucall (SysDup 0) in
  ulet _ := ucall (SysDup 0) in
  init_loop fuel.

(** ** Running a program

    [h] performs the system calls on the state [W] of the system. *)

Inductive uout (A W : Type) := Done (a : A) (w : W) | Exited (status : Z) (w : W) | Undefined | OutOfFuel.
Arguments Done {A W} a w. Arguments Exited {A W} status w. Arguments Undefined {A W}. Arguments OutOfFuel {A W}.

Section run.
Context {W : Type} (h : call → W → reply * W).

Fixpoint urun {A} (p : uprog A) (w : W) : uout A W :=
  match p with
  | URet a => Done a w
  | UExit n => Exited n w
  | UCall c k => let '(r, w') := h c w in urun (k r) w'
  | UUndef => Undefined
  | UFuel => OutOfFuel
  end.

Lemma urun_bind {A B} (p : uprog A) (f : A → uprog B) w :
  urun (ubind p f) w = match urun p w with
                       | Done a w' => urun (f a) w'
                       | Exited n w' => Exited n w'
                       | Undefined => Undefined
                       | OutOfFuel => OutOfFuel
                       end.
Proof. revert w. induction p as [a|n|c k IH| |]; intros w; simpl; try done. by destruct (h c w) as [r w']. Qed.

(** What [cat] relies on: [read] delivers the next bytes of the input, at least one before its end, and
    [write] appends all its bytes to the output. *)
Class CatOps (fd : Z) := {
  input : W → list Z;
  output : W → list Z;
  cat_read w n : (0 < n)%nat → let '(r, w') := h (SysRead fd n) w in
    rv r = Z.of_nat (length (rbytes r)) ∧ input w = rbytes r ++ input w' ∧ output w' = output w ∧
    (rbytes r = [] → input w = []);
  cat_write w l : let '(r, w') := h (SysWrite 1 l) w in
    rv r = Z.of_nat (length l) ∧ output w' = output w ++ l ∧ input w' = input w
}.

(** [cat] copies its input to descriptor 1, however the reads split it. *)
Lemma cat_copies fd `{!CatOps fd} fuel w : (length (input w) < fuel)%nat →
  ∃ w', urun (cat fuel fd) w = Done tt w' ∧ output w' = output w ++ input w ∧ input w' = [].
Proof.
  intros Hf. unfold cat. rewrite urun_bind.
  enough (∃ w', urun (cat_loop fuel fd) w = Done 0 w' ∧ output w' = output w ++ input w ∧ input w' = []) as (w' & -> & ?)
    by eauto.
  revert w Hf. induction fuel as [|fuel IH]; intros w Hf; [lia|]. cbn [cat_loop usys ubind urun].
  pose proof (cat_read w 512 ltac:(lia)) as Hr. destruct (h (SysRead fd 512) w) as [r w1].
  destruct Hr as (Hv & Hin & Hout & Hnil). rewrite Hv. destruct (rbytes r) as [|x l] eqn:E.
  - exists w1. simpl. rewrite Hnil in Hin by done. rewrite Hnil by done. rewrite app_nil_r.
    symmetry in Hin. simpl in Hin. by rewrite Hin, Hout.
  - rewrite <- E in *. assert (0 < length (rbytes r))%nat by (rewrite E; simpl; lia).
    rewrite (proj2 (Z.ltb_lt _ _)) by lia. cbn [ucall ubind urun].
    pose proof (cat_write w1 (rbytes r)) as Hw. destruct (h (SysWrite 1 (rbytes r)) w1) as [r2 w2].
    destruct Hw as (-> & Hout2 & Hin2). rewrite Z.eqb_refl. cbn [negb].
    rewrite Hin, length_app in Hf.
    destruct (IH w2) as (w' & Hrun & Ho & Hi); [rewrite Hin2; lia|].
    exists w'. split_and!; [done| |done]. rewrite Ho, Hout2, Hin2, Hout, Hin. by rewrite app_assoc.
Qed.
End run.

(** The buffer of [printint] holds 20 characters. *)
Lemma digits_loop_length fuel x base : length (digits_loop fuel x base) = length (print_digits fuel x base).
Proof. revert x. induction fuel as [|fuel IH]; intros x; simpl; [done|]. destruct (_ =? 0); simpl; auto. Qed.

Lemma uprintint_fits xx base sgn : base = 10 ∨ base = 16 → - 2 ^ 63 <= xx < 2 ^ 64 → (sgn = true → xx < 2 ^ 63) →
  (length (uprintint_buf xx base sgn) ≤ 20)%nat.
Proof.
  intros Hb Hx Hsgn. unfold uprintint_buf. rewrite length_app, digits_loop_length.
  destruct (sgn && (xx <? 0)) eqn:E; cbn [length].
  - apply andb_true_iff in E as [_ E%Z.ltb_lt]. rewrite u64_small by lia.
    destruct (print_digits_spec base 19 64 (- xx)) as (_ & Hl & _); [lia|lia| |lia]. destruct Hb as [-> | ->]; lia.
  - destruct (print_digits_spec base 20 64 (u64 xx)) as (_ & Hl & _); [lia|lia| |lia].
    pose proof (u64_range xx). destruct Hb as [-> | ->]; lia.
Qed.
