(* ===== verification/Shrun.v ===== *)
(** * Running commands (user/sh.c)

    The second half of the shell: [runcmd], [getcmd] and [main] as system-call trees (file Uprog), over the
    commands of file Sh.

    [launch] follows all processes a tree creates, with their descriptor tables and the pipes they
    share, and collects the programs they start.  [plumb] says directly which programs a command
    should start and what their standard input and output should be; [runcmd_plumbs] shows that the
    sequences of pipe, fork, close, dup and open of [runcmd] achieve it, and that no program inherits
    any other descriptor. *)

From stdpp Require Import base list functions sets numbers strings.
From Stdlib Require Import ZArith Lia.
From S2P Require Import Prelude Machine Sysfile Sh Grep Uprog.

(** ** Executing a command *)

Definition sh_panic {A} (msg : string) : uprog A :=
  ulet _ := fprintf 2 (ln "%s") [UStr (Some (ascii_bytes msg))] in uexit 1.

Definition fork1 : uprog Z :=
  ulet pid := ucall SysFork in if pid =? -1 then sh_panic "fork" else URet pid.

Section runcmd.
Context (text : span → list Z).

Fixpoint runcmd (c : cmd) : uprog unit :=
  match c with
  | EXEC argv =>
      match argv with
      | [] => uexit 1
      | w :: _ =>
          ulet _ := ucall (SysExec (text w) (text <$> argv)) in
          ulet _ := fprintf 2 (ln "exec %s failed") [UStr (Some (text w))] in
          uexit 0
      end
  | REDIR c w mode fd =>
      ulet _ := ucall (SysClose fd) in
      ulet r := ucall (SysOpen (text w) mode) in
      if r <? 0 then ulet _ := fprintf 2 (ln "open %s failed") [UStr (Some (text w))] in uexit 1
      else runcmd c
  | LIST l r =>
      ulet pid := fork1 in
      if pid =? 0 then runcmd l
      else ulet _ := ucall SysWait in runcmd r
  | PIPE l r =>
      ulet p := usys SysPipe in
      if rv p <? 0 then sh_panic "pipe"
      else
        ulet pid := fork1 in
        if pid =? 0 then
          ulet _ := ucall (SysClose 1) in
          ulet _ := ucall (SysDup (rpipe p).2) in
          ulet _ := ucall (SysClose (rpipe p).1) in
          ulet _ := ucall (SysClose (rpipe p).2) in
          runcmd l
        else
          ulet pid := fork1 in
          if pid =? 0 then
            ulet _ := ucall (SysClose 0) in
            ulet _ := ucall (SysDup (rpipe p).1) in
            ulet _ := ucall (SysClose (rpipe p).1) in
            ulet _ := ucall (SysClose (rpipe p).2) in
            runcmd r
          else
            ulet _ := ucall (SysClose (rpipe p).1) in
            ulet _ := ucall (SysClose (rpipe p).2) in
            ulet _ := ucall SysWait in
            ulet _ := ucall SysWait in
            uexit 0
  | BACK c =>
      ulet pid := fork1 in
      if pid =? 0 then runcmd c else uexit 0
  end.
End runcmd.

(** ** Reading commands *)

(** [gets(buf, max)] on descriptor 0 (ulib.c): [left] = max - 1 - i more characters fit. *)
Fixpoint gets_loop (left : nat) (acc : list Z) : uprog (list Z) :=
  match left with
  | O => URet acc
  | S left' =>
      ulet r := usys (SysRead 0 1) in
      if rv r <? 1 then URet acc
      else
        let c := nth 0 (rbytes r) 0 in
        if (c =? 10) || (c =? 13) then URet (acc ++ [c]) else gets_loop left' (acc ++ [c])
  end.

Definition nbuf : nat := 100.

(** [None] at the end of the input: [buf] is then the empty string. *)
Definition getcmd : uprog (option (list Z)) :=
  ulet _ := ucall (SysWrite 2 [36; 32]) in
  ulet l := gets_loop (nbuf - 1) [] in
  let buf := upto_nul l in
  URet (match buf with [] => None | _ => Some buf end).

Fixpoint skip_blanks (l : list Z) : list Z :=
  match l with
  | c :: l' => if (c =? 32) || (c =? 9) then skip_blanks l' else l
  | [] => []
  end.

(** The word at [w] of the buffer that [nulterminate] has cut into strings. *)
Definition word_text (buf : list Z) (w : span) : list Z := default [] (c_string (drop w.1 buf)).

(** [runcmd(parsecmd(cmd))] in the child; [panic] prints the message. *)
Definition run_line (cmd : list Z) : uprog unit :=
  match parsecmd cmd with
  | POk (c, buf) => runcmd (word_text buf) c
  | PPanic msg => ulet _ := fprintf 2 (ln "%s") [UStr (Some (ascii_bytes msg))] in uexit 1
  | PNoFuel => UFuel
  end.

(** The body of the command loop. *)
Definition sh_command (buf : list Z) : uprog unit :=
  match skip_blanks buf with
  | 10 :: _ => URet tt
  | 99 :: 100 :: 32 :: dir =>
      let dir := take (length dir - 1) dir in
      ulet r := ucall (SysChdir dir) in
      if r <? 0 then fprintf 2 (ln "cannot cd %s") [UStr (Some dir)] else URet tt
  | cmd =>
      ulet pid := fork1 in
      if pid =? 0 then run_line cmd
      else ulet _ := ucall SysWait in URet tt
  end.

Fixpoint sh_loop (fuel : nat) : uprog unit :=
  match fuel with
  | O => UFuel
  | S fuel' =>
      ulet l := getcmd in
      match l with
      | None => uexit 0
      | Some buf => ulet _ := sh_command buf in sh_loop fuel'
      end
  end.

(** Three descriptors are opened on the console. *)
Fixpoint sh_open (fuel : nat) : uprog unit :=
  match fuel with
  | O => UFuel
  | S fuel' =>
      ulet fd := ucall (SysOpen (ascii_bytes "console") O_RDWR) in
      if 0 <=? fd then
        if 3 <=? fd then ulet _ := ucall (SysClose fd) in URet tt else sh_open fuel'
      else URet tt
  end.

Definition sh_main (fuel : nat) : uprog unit := ulet _ := sh_open fuel in sh_loop fuel.

(** ** Processes and descriptors *)

(** What a descriptor refers to. *)
Inductive obj :=
  | OFile (path : list Z) (mode : Z)
  | OPipeR (id : nat)
  | OPipeW (id : nat)
  | OOther (n : nat).

Definition fdtable : Type := list (option obj).

(** The lowest free descriptor. *)
Definition lowest (t : fdtable) : option nat := fst <$> list_find (λ o, o = None) t.

Definition put_obj (t : fdtable) (o : obj) : Z * fdtable :=
  match lowest t with
  | Some fd => (Z.of_nat fd, <[fd := Some o]> t)
  | None => (-1, t)
  end.

(** A program that was started: its arguments and descriptors. *)
Definition started : Type := list (list Z) * fdtable.

(** All programs started by a process and its descendants; [n] is the number of pipes made so far.
    This is an idealised system, not the model of sysfile.c: fork, exec and open always succeed, the others while
    there are descriptors, and a child runs before its parent goes on. *)
Fixpoint launch (p : uprog unit) (t : fdtable) (n : nat) : list started * nat :=
  match p with
  | UCall c k =>
      match c with
      | SysFork =>
          let '(a, n1) := launch (k (mkreply 0 [] (0, 0))) t n in
          let '(b, n2) := launch (k (mkreply 1 [] (0, 0))) t n1 in
          (a ++ b, n2)
      | SysExec _ argv => ([(argv, t)], n)
      | SysClose fd => launch (k (mkreply 0 [] (0, 0))) (<[Z.to_nat fd := None]> t) n
      | SysDup fd =>
          match t !! Z.to_nat fd with
          | Some (Some o) => let '(r, t') := put_obj t o in launch (k (mkreply r [] (0, 0))) t' n
          | _ => launch (k (mkreply (-1) [] (0, 0))) t n
          end
      | SysOpen path mode =>
          let '(r, t') := put_obj t (OFile path mode) in launch (k (mkreply r [] (0, 0))) t' n
      | SysPipe =>
          let '(p0, t1) := put_obj t (OPipeR n) in
          let '(p1, t2) := put_obj t1 (OPipeW n) in
          if p1 <? 0 then launch (k (mkreply (-1) [] (0, 0))) t n
          else launch (k (mkreply 0 [] (p0, p1))) t2 (S n)
      | _ => launch (k (mkreply 0 [] (0, 0))) t n
      end
  | _ => ([], n)
  end.

(** Descriptors 0, 1 and 2, and no others. *)
Definition std (i o e : obj) : fdtable := [Some i; Some o; Some e] ++ replicate 13 None.

(** ** What a command means *)

Section plumb.
Context (text : span → list Z).

Fixpoint plumb (c : cmd) (i o e : obj) (n : nat) : list started * nat :=
  match c with
  | EXEC [] => ([], n)
  | EXEC argv => ([(text <$> argv, std i o e)], n)
  | REDIR c w mode fd =>
      if fd =? 0 then plumb c (OFile (text w) mode) o e n else plumb c i (OFile (text w) mode) e n
  | LIST l r =>
      let '(a, n1) := plumb l i o e n in
      let '(b, n2) := plumb r i o e n1 in (a ++ b, n2)
  | PIPE l r =>
      let '(a, n1) := plumb l i (OPipeW n) e (S n) in
      let '(b, n2) := plumb r (OPipeR n) o e n1 in (a ++ b, n2)
  | BACK c => plumb c i o e n
  end.

(** Redirections concern descriptors 0 and 1. *)
Fixpoint redirs_std (c : cmd) : Prop :=
  match c with
  | EXEC _ => True
  | REDIR c _ _ fd => (fd = 0 ∨ fd = 1) ∧ redirs_std c
  | LIST l r | PIPE l r => redirs_std l ∧ redirs_std r
  | BACK c => redirs_std c
  end.

Lemma launch_runcmd c : redirs_std c → ∀ i o e n,
  launch (runcmd text c) (std i o e) n = plumb c i o e n.
Proof.
  induction c as [argv|c IH w mode fd|l IHl r IHr|l IHl r IHr|c IH]; intros Hok i o e n.
  - by destruct argv.
  - destruct Hok as [[-> | ->] Hok]; apply (IH Hok).
  - destruct Hok as [Hl Hr]. pose proof (IHl Hl i (OPipeW n) e (S n)) as El.
    pose proof (IHr Hr (OPipeR n) o e) as Er. unfold std in *. simpl in *. rewrite El. destruct (plumb l _ _ _ _) as [a n1].
    rewrite Er. destruct (plumb r _ _ _ _) as [b n2]. by rewrite app_nil_r.
  - destruct Hok as [Hl Hr]. pose proof (IHl Hl i o e n) as El. pose proof (IHr Hr i o e) as Er. unfold std in *. simpl in *.
    rewrite El. destruct (plumb l _ _ _ _) as [a n1]. by rewrite Er.
  - pose proof (IH Hok i o e n) as E. unfold std in *. simpl in *. rewrite E. destruct (plumb c _ _ _ _) as [a n1].
    by rewrite app_nil_r.
Qed.

(** The parser only makes such redirections. *)
Lemma redirs_fold c rs : redirs_std c → redirs_std (foldl redirect c rs).
Proof.
  revert c. induction rs as [|r rs IH]; intros c Hc; simpl; [done|]. apply IH. unfold redirect.
  repeat case_match; simpl; auto.
Qed.

Lemma redirs_line l : redirs_std (line_cmd l).
Proof.
  apply (line_mind (λ l, redirs_std (line_cmd l)) (λ p, redirs_std (pipe_cmd p)) (λ e, redirs_std (exec_cmd e)));
    simpl; auto using redirs_fold.
  - intros p Hp n. by induction n.
  - intros p Hp n l' Hl. split; [by induction n|done].
  - intros rs args. by apply redirs_fold.
Qed.
End plumb.

(** C36. Executing a command line starts exactly the programs it names, in order, with the argument strings
    of the line; each has its standard input and output connected as the pipes and redirections say,
    and no descriptor besides 0, 1 and 2: the shell's ends of the pipes are closed everywhere.  The system calls are
    those of [launch], where fork, exec and open always succeed. *)
Theorem runcmd_plumbs s c buf i o e n : 0 ∉ s → parsecmd s = POk (c, buf) →
  launch (run_line s) (std i o e) n = plumb (word_text buf) c i o e n.
Proof.
  intros Hs H. unfold run_line. rewrite H. apply launch_runcmd.
  destruct (parse_line s c buf Hs H) as (l & _ & _ & -> & _). apply redirs_line.
Qed.

Lemma runcmd_plumbs_witness :
  fst (launch (run_line demo_line) (std (OOther 0) (OOther 1) (OOther 2)) 0) =
    [([ascii_bytes "ls"], std (OOther 0) (OPipeW 0) (OOther 2));
     ([ascii_bytes "cat"], std (OFile (ascii_bytes "x") 0) (OPipeW 0) (OOther 2));
     ([ascii_bytes "wc"], std (OPipeR 0) (OFile (ascii_bytes "y") 1537) (OOther 2))].
Proof.
  rewrite (runcmd_plumbs demo_line demo_cmd (nulterminate demo_cmd (demo_line ++ [0])) _ _ _ _ demo_nul demo_parsed).
  vm_compute. reflexivity.
Defined.
