(* ===== verification/System.v ===== *)
(** * User programs on the kernel

    The programs of file Uprog, run as processes of the kernel model on one CPU.  A system call puts its
    arguments into the memory and the registers of the process and enters [usertrap]; a load or store goes
    through the page table of the process and, where that does not allow it, through the page-fault
    handler; a process that sleeps, yields or exits gives the CPU to the next runnable process in the
    order of [scheduler].  What the assembly files do is part of the definitions here: saving the
    argument registers in the trapframe and loading a0 from it (trampoline.S), and the switch between
    processes (swtch.S), for which the suspended part of every process is kept in [w_threads]. *)

From stdpp Require Import base list functions sets numbers strings.
From Stdlib Require Import ZArith Lia.
From S2P Require Import Prelude Machine Kstring Kalloc Vm Proc Sleeplock Bio Log TxStore Fs File Console Kernel Sysfile Exec Trap Uprog.

(** ** System calls as register values *)

Definition SBRK_LAZY : Z := 2.

(** The number and the arguments of a call that is a system call. *)
Definition lower (c : call) : option (Z * list sarg) :=
  match c with
  | SysFork => Some (1, [])
  | SysWait => Some (3, [AVal 0])
  | SysPipe => Some (4, [AOut 8])
  | SysRead fd n => Some (5, [AVal fd; AOut n; AVal (Z.of_nat n)])
  | SysExec path argv => Some (7, [AData (path ++ [0]); AArgv argv])
  | SysFstat fd => Some (8, [AVal fd; AOut 24])
  | SysChdir path => Some (9, [AData (path ++ [0])])
  | SysDup fd => Some (10, [AVal fd])
  | SysOpen path mode => Some (15, [AData (path ++ [0]); AVal mode])
  | SysWrite fd l => Some (16, [AVal fd; AData l; AVal (Z.of_nat (length l))])
  | SysMknod path major minor => Some (17, [AData (path ++ [0]); AVal major; AVal minor])
  | SysUnlink path => Some (18, [AData (path ++ [0])])
  | SysMkdir path => Some (20, [AData (path ++ [0])])
  | SysClose fd => Some (21, [AVal fd])
  | SysCall num args => Some (num, args)
  | MemLoad _ _ | MemStore _ _ | Spin => None
  end.

(** Where the arguments are: from address [a] the program keeps the data it passes.  The result is the
    values of the registers, the bytes to be stored and the address and length of what is filled. *)
Definition align8 (a : Z) : Z := (a + 7) / 8 * 8.

Fixpoint place_strings (a : Z) (l : list (list Z)) : list Z * list (Z * list Z) * Z :=
  match l with
  | [] => ([], [], a)
  | x :: l' =>
      let '(ptrs, stores, a') := place_strings (align8 (a + Z.of_nat (length x) + 1)) l' in
      (a :: ptrs, (a, x ++ [0]) :: stores, a')
  end.

Fixpoint place (a : Z) (args : list sarg) : list Z * list (Z * list Z) * option (Z * nat) :=
  match args with
  | [] => ([], [], None)
  | AVal v :: args' => let '(regs, stores, out) := place a args' in (v :: regs, stores, out)
  | AData l :: args' =>
      let '(regs, stores, out) := place (align8 (a + Z.of_nat (length l))) args' in (a :: regs, (a, l) :: stores, out)
  | AOut n :: args' =>
      let '(regs, stores, _) := place (align8 (a + Z.of_nat n)) args' in (a :: regs, stores, Some (a, n))
  | AArgv l :: args' =>
      let '(ptrs, stores, a') := place_strings a l in
      let '(regs, stores', out) := place (a' + 8 * (Z.of_nat (length l) + 1)) args' in
      (a' :: regs, stores ++ (a', concat (le_split 8 <$> ptrs ++ [0])) :: stores', out)
  end.

(** ** Processes that are not running *)

(** What a process does when it comes back from its sleep: the whole handler again (wait, and read from a
    pipe, which keep nothing across the sleep), or the rest of [sys_pause], [pipewrite] or
    [consolewrite]. *)
Inductive blocked :=
  | BAgain
  | BPause (ticks0 n : Z)
  | BPipe (pi addr n i : Z)
  | BCons (src n i : Z) (todo : list Z) (cr : bool).

Inductive thread :=
  | TNew (p : uprog unit)                                (* has not run since fork *)
  | TUser (p : uprog unit)                               (* gave up the CPU on its way back to user mode *)
  | TAsleep (num : Z) (regs : list Z) (b : blocked) (out : option (Z * nat)) (k : reply → uprog unit).

Section system.
Context {L : Type} `{TxOps L} (kend trampoline forkret_addr usertrap_addr : Z) (stat_pad : list Z).
(** The program in an executable file, and the first address of the data it passes to the kernel. *)
Context (prog : list Z → list (list Z) → uprog unit) (scratch : Z).
#[local] Instance sy_user : UserOps (tty pstate) := kernel_user kend.
#[local] Instance sy_proc : ProcOps (tty pstate) := kernel_proc kend.
#[local] Instance sy_puser : UserOps pstate := proc_user kend.
#[local] Instance sy_pproc : ProcOps pstate := proc_proc kend.
#[local] Existing Instance proc_tty.
Abbreviation ST := (fstate L (tty pstate)).
Abbreviation KM := (M ST).

(** The registers at a trap from user mode with the given cause and address. *)
Definition trap_csr (scause stval : Z) : csr := mkcsr 0 scause stval 0 false 0 UART0_IRQ true 0.
Definition utrap (scause stval : Z) : KM utnext := usertrap kend trampoline forkret_addr stat_pad (trap_csr scause stval).

(** ** Loads and stores of a user program *)

(** The physical address the hardware finds for [va], if the page table allows the access. *)
Definition mmu (va : Z) (store : bool) : KM (option Z) :=
  do pt <- inproc my_pgtbl;
  if (va <? 0) || (MAXVA <=? va) then kret None
  else
    do a <- inmem (Vm.walk pt va false);
    if a =? 0 then kret None
    else
      do pte <- inmem (rd a);
      if has pte PTE_V && has pte PTE_U && has pte (if store then PTE_W else PTE_R)
      then kret (Some (PTE2PA pte + va mod PGSIZE)) else kret None.

(** One access, with the traps it may take; [None] when the process was killed.  A fault is
    followed by a retry; the third one would mean that [vmfault] reports success without making the page
    accessible. *)
Fixpoint access_loop (tries : nat) (va : Z) (store : bool) : KM (option Z) :=
  do r <- mmu va store;
  match r, tries with
  | Some pa, _ => kret (Some pa)
  | None, O => nofuel
  | None, S tries' =>
      do t <- utrap (if store then 15 else 13) va;
      match t with UTexit => kret None | _ => access_loop tries' va store end
  end.
Definition access : Z → bool → KM (option Z) := access_loop 2.

(** Accesses to [n] bytes from [va], a page at a time; [n / PGSIZE + 2] steps suffice. *)
Fixpoint uload_loop (fuel : nat) (va n : Z) (acc : list Z) : KM (option (list Z)) :=
  if n <=? 0 then kret (Some acc)
  else
    match fuel with
    | O => nofuel
    | S fuel' =>
        let k := Z.min n (PGSIZE - va mod PGSIZE) in
        do r <- access va false;
        match r with
        | None => kret None
        | Some pa =>
            do l <- inmem (kgets (λ m, mread (kmem_mem m) pa (Z.to_nat k)));
            uload_loop fuel' (va + k) (n - k) (acc ++ l)
        end
    end.
Definition uload (va : Z) (n : nat) : KM (option (list Z)) := uload_loop (copy_fuel (Z.of_nat n)) va (Z.of_nat n) [].

Fixpoint ustore_loop (fuel : nat) (va : Z) (l : list Z) : KM bool :=
  match l with
  | [] => kret true
  | _ =>
      match fuel with
      | O => nofuel
      | S fuel' =>
          let k := Z.to_nat (PGSIZE - va mod PGSIZE) in
          do r <- access va true;
          match r with
          | None => kret false
          | Some pa =>
              inmem (kmod (λ m, set_mem (mwrite (kmem_mem m) pa (take k l)) m)) ;;;
              ustore_loop fuel' (va + Z.of_nat k) (drop k l)
          end
      end
  end.
Definition ustore (va : Z) (l : list Z) : KM bool := ustore_loop (copy_fuel (Z.of_nat (length l))) va l.

Fixpoint ustores (stores : list (Z * list Z)) : KM bool :=
  match stores with
  | [] => kret true
  | (a, l) :: stores' => do ok <- ustore a l; if (ok : bool) then ustores stores' else kret false
  end.

(** ** Entering the kernel and coming back *)

(** The transmitter reports that it is idle, when it was busy. *)
Definition tx_irq : KM unit :=
  do busy <- inusr (kgets (λ t, tx_busy (t_con t)));
  if (busy : bool) then extintr (trap_csr 0x8000000000000009 0) else kret tt.

(** [ecall] with the number and the argument registers. *)
Fixpoint set_regs (i : Z) (l : list Z) : M pstate unit :=
  match l with [] => kret tt | v :: l' => tf_set (TF_a i) v ;;; set_regs (i + 1) l' end.
Definition ecall (num : Z) (regs : list Z) : KM utnext :=
  inproc (set_regs 0 regs) ;;; inproc (tf_set (TF_a 7) num) ;;; utrap 8 0.

(** What is left of a system call after a sleep, from the handler's continuation to the end of
    [usertrap]. *)
Definition cons_rest (src n i : Z) (todo : list Z) (cr : bool) : M (tty pstate) cwres :=
  do w <- uartwrite todo cr;
  match w with
  | None => consolewrite_loop (Z.to_nat n) src n (i + Z.min 32 (n - i))
  | Some (l, cr) => kret (CWwait i l cr)
  end.

Definition rest (num : Z) (b : blocked) : KM (option Z) :=
  match b with
  | BAgain => match sysno_of num with Some n => sys_handler kend trampoline forkret_addr stat_pad n | None => kret (Some (-1)) end
  | BPause ticks0 n => acquire LK_ticks ;;; do r <- pause_from kend ticks0 n; kret (Some r)
  | BPipe pi addr n i => do r <- pipewrite_from pi addr n i; kret (Some r)
  | BCons src n i todo cr =>
      do r <- inusr (cons_rest src n i todo cr);
      match r with CWdone i => kret (Some i) | CWwait _ _ _ => acquire LK_uart ;;; sleep CH_uart LK_uart end
  end.

Definition resume (num : Z) (b : blocked) : KM utnext :=
  do r <- rest num b;
  match r with
  | None => kret UTexit
  | Some v =>
      inproc (tf_set (TF_a 0) v) ;;;
      do gone <- exit_if_killed kend;
      kret (if (gone : bool) then UTexit else UTreturn)
  end.

(** How far the work was when the process went to sleep on [ch], from the state before it ran and the
    argument registers. *)
Definition reblock (regs : list Z) (b : blocked) (ch : chan) : KM blocked :=
  let addr := nth 1 regs 0 in
  let n := nth 2 regs 0 in
  match ch with
  | CH_ticks =>
      match b with
      | BPause _ _ => kret b
      | _ => do t <- inproc (kgets ps_ticks); kret (BPause t (Z.max 0 (nth 0 regs 0)))
      end
  | CH_nwrite pi =>
      let i := match b with BPipe _ _ _ i => i | _ => 0 end in
      do r <- pipewrite_loop (Z.to_nat n) pi addr n i;
      match r with PWfull i => kret (BPipe pi addr n i) | _ => nofuel end
  | CH_uart =>
      do r <- inusr (match b with
                     | BCons src n i todo cr => cons_rest src n i todo cr
                     | _ => consolewrite_loop (Z.to_nat n) addr n 0
                     end);
      match r with CWwait i todo cr => kret (BCons addr n i todo cr) | CWdone _ => nofuel end
  | _ => kret BAgain
  end.

(** The end of [sleep]'s first half: the lock is released and [sched] is called. *)
Definition fall_asleep (i : nat) (ch : chan) : M pstate unit :=
  acquire (LK_proc i) ;;; modp i (set_chan (Some ch)) ;;; modp i (set_state SLEEPING) ;;; sched ;;; sched_back i.
(** The end of its second half, up to the lock, which the rest of the handler acquires. *)
Definition wake_up (i : nat) : M pstate unit := modp i (set_chan None) ;;; release (LK_proc i).

(** The wake-ups of a run, in order. *)
Fixpoint wake_all (l : list chan) : M pstate unit :=
  match l with [] => kret tt | ch :: l' => pwakeup ch ;;; wake_all l' end.

(** ** Running *)

(** The machine: the kernel, what every process does when it continues, and the position of the
    scheduler in the process table. *)
Record world := mkworld { w_k : ST; w_threads : nat → option thread; w_at : nat }.

(** How a run ends: in a world where no process can run and none waits for the clock, by a panic, or by
    using up the steps it was given. *)
Inductive result := Idle (w : world) | Panicked (msg : string) | Stopped.

(** A function of the kernel run on its own: its value and the channels it woke up are acted on. *)
Inductive ran (A : Type) := Did (a : A) (s : ST) | Slept (ch : chan) (s : ST) | Died (msg : string).
Arguments Did {A} a s. Arguments Slept {A} ch s. Arguments Died {A} msg.

Definition run_k {A} (m : KM A) (s : ST) : ran A :=
  match m (mkctx [] [] 0) s with
  | Ret a c s' =>
      match inproc (wake_all (woken c)) c s' with Ret _ _ s2 => Did a s2 | Panic msg => Died msg | _ => Died "wakeup" end
  | Asleep ch c s' =>
      match inproc (wake_all (woken c)) c s' with Ret _ _ s2 => Slept ch s2 | Panic msg => Died msg | _ => Died "wakeup" end
  | Panic msg => Died msg
  | NoFuel => Died "fuel"
  end.

(** What the current process does next: go on in user mode, or leave the CPU. *)
Inductive next := NUser (p : uprog unit) (w : world) | NLeave (w : world) | NDead (msg : string).

Definition set_thread (i : nat) (t : option thread) (w : world) : world := mkworld (w_k w) (<[i:=t]> (w_threads w)) (w_at w).
Definition set_k (s : ST) (w : world) : world := mkworld s (w_threads w) (w_at w).

(** The slot of process [pid]. *)
Definition slot_of (pid : Z) (s : ST) : nat :=
  default NPROC (fst <$> list_find (λ p, p_pid p = pid) (ps_proc (ps_of s))).

Definition the_pipe (l : list Z) : Z * Z := (s32 (ld32 l 0), s32 (ld32 l 4)).

(** Process [i] leaves the CPU with p->lock held, to continue as [t]. *)
Definition leave_cpu (i : nat) (t : option thread) (s : ST) (w : world) : next :=
  match inproc (sched_back i) (mkctx [LK_proc i] [] 0) s with
  | Ret _ _ s => NLeave (set_thread i t (set_k s w))
  | _ => NDead "sched"
  end.

(** After a system call of process [i] returned to user mode: the reply is read; the child of a fork gets its own
    continuation, and a successful exec replaces the program. *)
Definition returned (i : nat) (num : Z) (args : list sarg) (out : option (Z * nat)) (k : reply → uprog unit) (w : world) : next :=
  match run_k (do a0 <- inproc (tf_get (TF_a 0));
               do l <- (match out with Some (a, n) => uload a n | None => kret (Some []) end);
               kret (s64 a0, l)) (w_k w) with
  | Did (v, Some l) s =>
      let w := set_k s w in
      let again := k (mkreply v l (the_pipe l)) in
      if (num =? 1) && (0 <? v) then NUser again (set_thread (slot_of v s) (Some (TNew (k (mkreply 0 [] (0, 0))))) w)
      else match args with
           | [AData path; AArgv argv] => if (num =? 7) && (0 <=? v) then NUser (prog (cstr path) argv) w else NUser again w
           | _ => NUser again w
           end
  | Did (_, None) s => leave_cpu i None s w
  | Slept _ _ => NDead "fault"
  | Died msg => NDead msg
  end.

(** The end of a trap of process [i], with what follows if it goes back to user mode and if it
    sleeps. *)
Definition finish_trap (i : nat) (r : ran utnext) (back : world → next) (asleep : chan → world → next) (again : option thread) (w : world) : next :=
  match r with
  | Did UTreturn s => back (set_k s w)
  | Did UTexit s => leave_cpu i None s w
  | Did UTyield s => leave_cpu i again s w
  | Slept ch s => asleep ch (set_k s w)
  | Died msg => NDead msg
  end.

(** Process [i] goes to sleep: [s0] is the state before it ran. *)
Definition asleep_in (i : nat) (num : Z) (regs : list Z) (b : blocked) (out : option (Z * nat)) (k : reply → uprog unit) (s0 : ST) (ch : chan) (w : world) : next :=
  match run_k (reblock regs b ch) s0, run_k (inproc (fall_asleep i ch)) (w_k w) with
  | Did b' _, Did _ s => NLeave (set_thread i (Some (TAsleep num regs b' out k)) (set_k s w))
  | Died msg, _ | _, Died msg => NDead msg
  | _, _ => NDead "sleep"
  end.

(** A call of process [i]. *)
Definition do_call (i : nat) (c : call) (k : reply → uprog unit) (w : world) : next :=
  match c, lower c with
  | _, Some (num, args) =>
      let '(regs, stores, out) := place scratch args in
      match run_k (tx_irq ;;; ustores stores) (w_k w) with
      | Did false s => leave_cpu i None s w
      | Did true s0 =>
          finish_trap i (run_k (ecall num regs) s0) (returned i num args out k) (asleep_in i num regs BAgain out k s0) None w
      | Slept _ _ => NDead "fault"
      | Died msg => NDead msg
      end
  | MemLoad a n, None =>
      match run_k (uload a n) (w_k w) with
      | Did (Some l) s => NUser (k (mkreply 0 l (0, 0))) (set_k s w)
      | Did None s => leave_cpu i None s w
      | Slept _ _ => NDead "fault"
      | Died msg => NDead msg
      end
  | MemStore a l, None =>
      match run_k (ustore a l) (w_k w) with
      | Did true s => NUser (k (mkreply 0 [] (0, 0))) (set_k s w)
      | Did false s => leave_cpu i None s w
      | Slept _ _ => NDead "fault"
      | Died msg => NDead msg
      end
  | _, None =>
      let p := k (mkreply 0 [] (0, 0)) in
      finish_trap i (run_k (utrap 0x8000000000000005 0) (w_k w)) (NUser p) (λ _ _, NDead "timer") (Some (TUser p)) w
  end.

(** The first half of the scheduler's loop: the next runnable process, which then goes on. *)
Fixpoint pick (n : nat) (i : nat) (s : ST) : option (nat * ST) :=
  match n with
  | O => None
  | S n' =>
      match inproc (sched_pick i) (mkctx [] [] 0) s with
      | Ret true _ s' => Some (i, s')
      | Ret false _ s' => pick n' (if (S i =? NPROC)%nat then O else S i) s'
      | _ => None
      end
  end.

(** Process [i] continues after [swtch]. *)
Definition go_on (i : nat) (w : world) : next :=
  let leave m := match m (mkctx [LK_proc i] [] 0) (w_k w) with Ret _ _ s => Some s | _ => None end in
  match w_threads w i with
  | Some (TNew p) =>
      match leave (forkret kend trampoline usertrap_addr (trap_csr 0 0) ;;; kret tt) with
      | Some s => NUser p (set_k s w)
      | None => NDead "forkret"
      end
  | Some (TUser p) => match leave (inproc yield_leave) with Some s => NUser p (set_k s w) | None => NDead "yield" end
  | Some (TAsleep num regs b out k) =>
      match leave (inproc (wake_up i)) with
      | Some s0 => finish_trap i (run_k (resume num b) s0) (returned i num [] out k) (asleep_in i num regs b out k s0) None w
      | None => NDead "wakeup"
      end
  | None => NDead "thread"
  end.

(** Interrupts while the CPU is idle: the transmitter's, and the clock's. *)
Definition idle_irq : KM bool :=
  tx_irq ;;; kerneltrap (mkcsr SSTATUS_SPP 0x8000000000000005 0 0 false 0 0 false 0).

(** [NUser]: a process runs; [NLeave]: the scheduler runs.  [fuel] bounds the calls and the switches. *)
Fixpoint steps (fuel : nat) (x : next) : result :=
  match fuel with
  | O => Stopped
  | S fuel' =>
      match x with
      | NDead msg => Panicked msg
      | NUser p w =>
          match ps_cur (ps_of (w_k w)) with
          | None => Panicked "thread"
          | Some i =>
              match p with
              | URet _ => steps fuel' (do_call i (SysCall 2 [AVal 0]) (λ _, UUndef) w)
              | UExit n => steps fuel' (do_call i (SysCall 2 [AVal n]) (λ _, UUndef) w)
              | UCall c k => steps fuel' (do_call i c k w)
              | UUndef => Panicked "undefined"
              | UFuel => Stopped
              end
          end
      | NLeave w =>
          match pick NPROC (if (S (w_at w) =? NPROC)%nat then O else S (w_at w)) (w_k w) with
          | Some (i, s) => steps fuel' (go_on i (mkworld s (w_threads w) i))
          | None =>
              match run_k idle_irq (w_k w) with
              | Did _ s =>
                  match pick NPROC 0 s with
                  | Some (i, s') => steps fuel' (go_on i (mkworld s' (w_threads w) i))
                  | None =>
                      if existsb (λ p, bool_decide (p_chan p = Some CH_ticks)) (ps_proc (ps_of s)) then steps fuel' (NLeave (set_k s w))
                      else Idle (set_k s w)
                  end
              | Slept _ _ => Panicked "interrupt"
              | Died msg => Panicked msg
              end
          end
      end
  end.
End system.
