(* ===== verification/Usertests.v ===== *)
(** * The kernel's test programs (user/usertests.c, schedtest.c)

    Every test of usertests.c as a system-call tree (file Uprog), and the driver that runs each of them in a
    process of its own.  A static array of the program is an address ([buf], [uninit]), and the tests
    that read or write it use that memory; a local array is the bytes a call returns.  File Tested runs the
    tests on the kernel model. *)

From stdpp Require Import base list functions sets numbers strings.
From Stdlib Require Import ZArith Lia.
From S2P Require Import Prelude Machine Ulib Fs Console Kernel Sysfile Exec Trap Grep Uprog System.

(** ** What the tests are written with *)

Notation "p ;> k" := (ubind p (λ _, k)) (at level 199, right associativity).

Abbreviation b_ := ascii_bytes (only parsing).

Definition BUFSZ : Z := (MAXOPBLOCKS + 2) * BSIZE.
Definition SBRK_ERROR : Z := -1.

(** The stubs of usys.S and the wrappers of ulib.c for the calls that have no constructor. *)
Definition link (old new : list Z) : uprog Z := ucall (SysCall 19 [AData (old ++ [0]); AData (new ++ [0])]).
Definition kill (pid : Z) : uprog Z := ucall (SysCall 6 [AVal pid]).
Definition getpid : uprog Z := ucall (SysCall 11 []).
Definition sbrk (n : Z) : uprog Z := ucall (SysCall 12 [AVal (s32 n); AVal SBRK_EAGER]).
Definition sbrklazy (n : Z) : uprog Z := ucall (SysCall 12 [AVal (s32 n); AVal SBRK_LAZY]).
Definition pause (n : Z) : uprog Z := ucall (SysCall 13 [AVal n]).
Definition fork : uprog Z := ucall SysFork.
Definition wait0 : uprog Z := ucall SysWait.
Definition open_ (path : list Z) (mode : Z) : uprog Z := ucall (SysOpen path mode).
Definition close (fd : Z) : uprog Z := ucall (SysClose fd).
Definition unlink (path : list Z) : uprog Z := ucall (SysUnlink path).
Definition mkdir (path : list Z) : uprog Z := ucall (SysMkdir path).
Definition chdir (path : list Z) : uprog Z := ucall (SysChdir path).
Definition write (fd : Z) (l : list Z) : uprog Z := ucall (SysWrite fd l).
Definition exec (path : list Z) (argv : list (list Z)) : uprog Z := ucall (SysExec path argv).

(** [wait(&st)]: the pid and the status. *)
Definition wait_st : uprog (Z * Z) :=
  ulet r := usys (SysCall 3 [AOut 4]) in URet (rv r, s32 (ld32 (rbytes r) 0)).
(** [pipe(fds)]: the result and the two descriptors. *)
Definition pipe_fds : uprog (Z * (Z * Z)) := ulet r := usys SysPipe in URet (rv r, rpipe r).
(** [read(fd, b, n)] into a local array: the result and the array. *)
Definition read_ (fd : Z) (n : nat) : uprog (Z * list Z) := ulet r := usys (SysRead fd n) in URet (rv r, rbytes r).

(** Calls with pointers of the program's choice. *)
Definition read_at (fd a n : Z) : uprog Z := ucall (SysCall 5 [AVal fd; AVal a; AVal n]).
Definition write_at (fd a n : Z) : uprog Z := ucall (SysCall 16 [AVal fd; AVal a; AVal n]).
Definition open_at (a mode : Z) : uprog Z := ucall (SysCall 15 [AVal a; AVal mode]).
Definition unlink_at (a : Z) : uprog Z := ucall (SysCall 18 [AVal a]).
Definition link_at (a b : Z) : uprog Z := ucall (SysCall 19 [AVal a; AVal b]).
Definition exec_at (a : Z) (argv : list (list Z)) : uprog Z := ucall (SysCall 7 [AVal a; AArgv argv]).
Definition pipe_at (a : Z) : uprog Z := ucall (SysCall 4 [AVal a]).

(** Loads and stores. *)
Definition load (a : Z) (n : nat) : uprog (list Z) := ulet r := usys (MemLoad a n) in URet (rbytes r).
Definition store (a : Z) (l : list Z) : uprog unit := usys (MemStore a l) ;> URet tt.

(** [printf(...); exit(1);] with a message that starts with the name of the test, and without. *)
Definition fails {A} (s : list Z) (msg : list Z) (args : list uarg) : uprog A :=
  uprintf (b_ "%s: " ++ msg) (UStr (Some s) :: args) ;> uexit 1.
Definition failp {A} (msg : list Z) (args : list uarg) : uprog A := uprintf msg args ;> uexit 1.
Definition when (b : bool) (p : uprog unit) : uprog unit := if b then p else URet tt.
(** [if(bad){ printf("%s: msg\n", s); exit(1); }] *)
Definition chk (s : list Z) (bad : bool) (msg : string) : uprog unit := when bad (fails s (ln msg) []).

(** [for(i = lo; ...; i++) body(i)], [n] rounds. *)
Fixpoint ufor (n : nat) (i : Z) (body : Z → uprog unit) : uprog unit :=
  match n with O => URet tt | S n' => body i ;> ufor n' (i + 1) body end.
Fixpoint ueach {A} (l : list A) (body : A → uprog unit) : uprog unit :=
  match l with [] => URet tt | x :: l' => body x ;> ueach l' body end.
(** A loop with a break: [inr] leaves it. *)
Fixpoint uloop {A B} (fuel : nat) (a : A) (body : A → uprog (A + B)) : uprog B :=
  match fuel with
  | O => UFuel
  | S fuel' => ulet r := body a in match r with inl a' => uloop fuel' a' body | inr b => URet b end
  end.
(** [for(;;) body], left only by [exit]. *)
Definition forever (fuel : nat) (body : uprog unit) : uprog unit := uloop fuel tt (λ _, body ;> URet (inl tt)).

Section usertests.
(** The addresses of [buf] and [uninit], the stack pointer in [stacktest], and a bound for the loops
    that the kernel ends. *)
Context (buf uninit stack_ptr : Z) (fuel : nat).

(** ** Bad pointers *)

Definition copyin_addrs : list Z :=
  [0x00200000; 0x91400000; 0x0f00000000; 0x3fffffe000; 0x3ffffff000; 0x4000000000; 0xffffffffffffffff].

Definition copyin (s : list Z) : uprog unit :=
  uprintf (b_ "tests: copyin protection (K230 layout)... ") [] ;>
  ueach copyin_addrs (λ addr,
    ulet fd := open_ (b_ "copyin1") (Z.lor O_CREATE O_WRONLY) in
    when (fd <? 0) (failp (ln "open(copyin1) failed") []) ;>
    ulet n := write_at fd addr 8192 in
    when (0 <=? n)
      (uprintf (10 :: ln "FAILED: write(fd, %p, 8192) returned %d, expected -1") [UNum addr; UNum n] ;>
       failp (ln "  --> Security Breach: Kernel allowed access to protected address %p") [UNum addr]) ;>
    close fd ;>
    unlink (b_ "copyin1") ;>
    ulet n := write_at 1 addr 8192 in
    when (0 <? n) (failp (10 :: ln "FAILED: write(1, %p, 8192) returned %d, expected -1") [UNum addr; UNum n]) ;>
    ulet (r, fds) := pipe_fds in
    when (r <? 0) (failp (ln "pipe() failed") []) ;>
    ulet n := write_at fds.2 addr 8192 in
    when (0 <? n) (failp (10 :: ln "FAILED: write(pipe, %p, 8192) returned %d, expected -1") [UNum addr; UNum n]) ;>
    close fds.1 ;>
    close fds.2 ;>
    URet tt).

Definition copyout_addrs : list Z := 0 :: copyin_addrs.

Definition copyout (s : list Z) : uprog unit :=
  uprintf (b_ "tests: copyout protection (K230 layout)... ") [] ;>
  ueach copyout_addrs (λ addr,
    ulet fd := open_ (b_ "README") 0 in
    when (fd <? 0) (failp (ln "open(README) failed") []) ;>
    ulet n := read_at fd addr 8192 in
    when (0 <? n)
      (uprintf (10 :: ln "FAILED: read(fd, %p, 8192) returned %d, expected error") [UNum addr; UNum n] ;>
       uprintf (ln "  --> Security Breach: Kernel allowed OVERWRITE of protected address %p") [UNum addr] ;>
       when (addr =? 0)
         (uprintf (ln "  --> Hint: Check your exec() implementation. User text segment should not be Writable (PTE_W should be 0).") []) ;>
       uexit 1) ;>
    close fd ;>
    ulet (r, fds) := pipe_fds in
    when (r <? 0) (failp (ln "pipe() failed") []) ;>
    ulet n := write fds.2 (b_ "x") in
    when (negb (n =? 1)) (failp (ln "pipe write failed") []) ;>
    ulet n := read_at fds.1 addr 8192 in
    when (0 <? n) (failp (10 :: ln "FAILED: read(pipe, %p, 8192) returned %d, expected error") [UNum addr; UNum n]) ;>
    close fds.1 ;>
    close fds.2 ;>
    URet tt).

Definition copyinstr1 (s : list Z) : uprog unit :=
  uprintf (b_ "tests: copyinstr protection (K230 layout)... ") [] ;>
  ueach [0x00200000; 0x91400000; 0x3fffffe000; 0x3ffffff000; 0x4000000000; 0xffffffffffffffff] (λ addr,
    ulet fd := open_at addr (Z.lor O_CREATE O_WRONLY) in
    when (0 <=? fd)
      (uprintf (10 :: ln "FAILED: open(%p) returned %d, expected -1") [UNum addr; UNum fd] ;>
       failp (ln "  --> Kernel accepted an illegal string pointer!") [])).

Definition copyinstr2 (s : list Z) : uprog unit :=
  let b := replicate (Z.to_nat MAXPATH) 120 in
  ulet ret := unlink b in
  when (negb (ret =? -1)) (failp (ln "unlink(%s) returned %d, not -1") [UStr (Some b); UNum ret]) ;>
  ulet fd := open_ b (Z.lor O_CREATE O_WRONLY) in
  when (negb (fd =? -1)) (failp (ln "open(%s) returned %d, not -1") [UStr (Some b); UNum fd]) ;>
  ulet ret := link b b in
  when (negb (ret =? -1)) (failp (ln "link(%s, %s) returned %d, not -1") [UStr (Some b); UStr (Some b); UNum ret]) ;>
  ulet ret := exec b [b_ "xx"] in
  when (negb (ret =? -1)) (failp (ln "exec(%s) returned %d, not -1") [UStr (Some b); UNum fd]) ;>
  ulet pid := fork in
  when (pid <? 0) (failp (ln "fork failed") []) ;>
  when (pid =? 0)
    (let big := replicate (Z.to_nat PGSIZE) 120 in
     ulet ret := exec (b_ "echo") [big; big; big] in
     when (negb (ret =? -1)) (failp (ln "exec(echo, BIG) returned %d, not -1") [UNum fd]) ;>
     uexit 747) ;>
  ulet (_, st) := wait_st in
  when (negb (st =? 747)) (failp (ln "exec(echo, BIG) succeeded, should have failed") []).

(** [sbrk] to the next page boundary. *)
Definition page_align : uprog unit :=
  ulet top := sbrk 0 in
  when (negb (top mod PGSIZE =? 0)) (sbrk (PGSIZE - top mod PGSIZE) ;> URet tt).

(** The string at [b] has no end; its first character stands for it in the messages. *)
Definition copyinstr3 (s : list Z) : uprog unit :=
  sbrk 8192 ;>
  page_align ;>
  ulet top := sbrk 0 in
  when (negb (top mod PGSIZE =? 0)) (failp (ln "oops") []) ;>
  let b := top - 1 in
  store b (b_ "x") ;>
  ulet ret := unlink_at b in
  when (negb (ret =? -1)) (failp (ln "unlink(%s) returned %d, not -1") [UStr (Some (b_ "x")); UNum ret]) ;>
  ulet fd := open_at b (Z.lor O_CREATE O_WRONLY) in
  when (negb (fd =? -1)) (failp (ln "open(%s) returned %d, not -1") [UStr (Some (b_ "x")); UNum fd]) ;>
  ulet ret := link_at b b in
  when (negb (ret =? -1)) (failp (ln "link(%s, %s) returned %d, not -1") [UStr (Some (b_ "x")); UStr (Some (b_ "x")); UNum ret]) ;>
  ulet ret := exec_at b [b_ "xx"] in
  when (negb (ret =? -1)) (failp (ln "exec(%s) returned %d, not -1") [UStr (Some (b_ "x")); UNum fd]).

Definition rwsbrk (s : list Z) : uprog unit :=
  ulet a := sbrk 8192 in
  when (a =? SBRK_ERROR) (failp (ln "sbrk(rwsbrk) failed") []) ;>
  ulet r := sbrk (-8192) in
  when (r =? SBRK_ERROR) (failp (ln "sbrk(rwsbrk) shrink failed") []) ;>
  ulet fd := open_ (b_ "rwsbrk") (Z.lor O_CREATE O_WRONLY) in
  when (fd <? 0) (failp (ln "open(rwsbrk) failed") []) ;>
  ulet n := write_at fd (a + PGSIZE) 1024 in
  when (0 <=? n) (failp (ln "write(fd, %p, 1024) returned %d, not -1") [UNum (a + PGSIZE); UNum n]) ;>
  close fd ;>
  unlink (b_ "rwsbrk") ;>
  ulet fd := open_ (b_ "README") O_RDONLY in
  when (fd <? 0) (failp (ln "open(README) failed") []) ;>
  ulet n := read_at fd (a + PGSIZE) 10 in
  when (0 <=? n) (failp (ln "read(fd, %p, 10) returned %d, not -1") [UNum (a + PGSIZE); UNum n]) ;>
  close fd ;>
  uexit 0.

(** ** Truncation *)

Definition wanted (s : list Z) (n k : Z) : uprog unit :=
  when (negb (n =? k)) (fails s (ln "read %d bytes, wanted %d") [UNum n; UNum k]).

Definition truncate1 (s : list Z) : uprog unit :=
  unlink (b_ "truncfile") ;>
  ulet fd1 := open_ (b_ "truncfile") (Z.lor O_CREATE (Z.lor O_WRONLY O_TRUNC)) in
  write fd1 (b_ "abcd") ;>
  close fd1 ;>
  ulet fd2 := open_ (b_ "truncfile") O_RDONLY in
  ulet (n, _) := read_ fd2 32 in
  wanted s n 4 ;>
  ulet fd1 := open_ (b_ "truncfile") (Z.lor O_WRONLY O_TRUNC) in
  ulet fd3 := open_ (b_ "truncfile") O_RDONLY in
  ulet (n, _) := read_ fd3 32 in
  when (negb (n =? 0)) (uprintf (ln "aaa fd3=%d") [UNum fd3] ;> wanted s n 0) ;>
  ulet (n, _) := read_ fd2 32 in
  when (negb (n =? 0)) (uprintf (ln "bbb fd2=%d") [UNum fd2] ;> wanted s n 0) ;>
  write fd1 (b_ "abcdef") ;>
  ulet (n, _) := read_ fd3 32 in
  wanted s n 6 ;>
  ulet (n, _) := read_ fd2 32 in
  wanted s n 2 ;>
  unlink (b_ "truncfile") ;>
  close fd1 ;>
  close fd2 ;>
  close fd3 ;>
  URet tt.

Definition truncate2 (s : list Z) : uprog unit :=
  unlink (b_ "truncfile") ;>
  ulet fd1 := open_ (b_ "truncfile") (Z.lor O_CREATE (Z.lor O_TRUNC O_WRONLY)) in
  write fd1 (b_ "abcd") ;>
  ulet fd2 := open_ (b_ "truncfile") (Z.lor O_TRUNC O_WRONLY) in
  ulet n := write fd1 (b_ "x") in
  when (negb (n =? -1)) (fails s (ln "write returned %d, expected -1") [UNum n]) ;>
  unlink (b_ "truncfile") ;>
  close fd1 ;>
  close fd2 ;>
  URet tt.

Definition truncate3 (s : list Z) : uprog unit :=
  ulet fd := open_ (b_ "truncfile") (Z.lor O_CREATE (Z.lor O_TRUNC O_WRONLY)) in
  close fd ;>
  ulet pid := fork in
  chk s (pid <? 0) "fork failed" ;>
  when (pid =? 0)
    (ufor 100 0 (λ _,
       ulet fd := open_ (b_ "truncfile") O_WRONLY in
       chk s (fd <? 0) "open failed" ;>
       ulet n := write fd (b_ "1234567890") in
       when (negb (n =? 10)) (fails s (ln "write got %d, expected 10") [UNum n]) ;>
       close fd ;>
       ulet fd := open_ (b_ "truncfile") O_RDONLY in
       read_ fd 32 ;>
       close fd ;>
       URet tt) ;>
     uexit 0) ;>
  ufor 150 0 (λ _,
    ulet fd := open_ (b_ "truncfile") (Z.lor O_CREATE (Z.lor O_WRONLY O_TRUNC)) in
    chk s (fd <? 0) "open failed" ;>
    ulet n := write fd (b_ "xxx") in
    when (negb (n =? 3)) (fails s (ln "write got %d, expected 3") [UNum n]) ;>
    close fd ;>
    URet tt) ;>
  ulet (_, xstatus) := wait_st in
  unlink (b_ "truncfile") ;>
  uexit xstatus.

(** ** Inodes that are in use when they are removed *)

Definition iputtest (s : list Z) : uprog unit :=
  ulet r := mkdir (b_ "iputdir") in
  chk s (r <? 0) "mkdir failed" ;>
  ulet r := chdir (b_ "iputdir") in
  chk s (r <? 0) "chdir iputdir failed" ;>
  ulet r := unlink (b_ "../iputdir") in
  chk s (r <? 0) "unlink ../iputdir failed" ;>
  ulet r := chdir (b_ "/") in
  chk s (r <? 0) "chdir / failed".

Definition exitiputtest (s : list Z) : uprog unit :=
  ulet pid := fork in
  chk s (pid <? 0) "fork failed" ;>
  when (pid =? 0)
    (ulet r := mkdir (b_ "iputdir") in
     chk s (r <? 0) "mkdir failed" ;>
     ulet r := chdir (b_ "iputdir") in
     chk s (r <? 0) "child chdir failed" ;>
     ulet r := unlink (b_ "../iputdir") in
     chk s (r <? 0) "unlink ../iputdir failed" ;>
     uexit 0) ;>
  ulet (_, xstatus) := wait_st in
  uexit xstatus.

Definition openiputtest (s : list Z) : uprog unit :=
  ulet r := mkdir (b_ "oidir") in
  chk s (r <? 0) "mkdir oidir failed" ;>
  ulet pid := fork in
  chk s (pid <? 0) "fork failed" ;>
  when (pid =? 0)
    (ulet fd := open_ (b_ "oidir") O_RDWR in
     chk s (0 <=? fd) "open directory for write succeeded" ;>
     uexit 0) ;>
  pause 1 ;>
  ulet r := unlink (b_ "oidir") in
  chk s (negb (r =? 0)) "unlink failed" ;>
  ulet (_, xstatus) := wait_st in
  uexit xstatus.

(** ** Simple files *)

Definition opentest (s : list Z) : uprog unit :=
  ulet fd := open_ (b_ "echo") 0 in
  chk s (fd <? 0) "open echo failed!" ;>
  close fd ;>
  ulet fd := open_ (b_ "doesnotexist") 0 in
  chk s (0 <=? fd) "open doesnotexist succeeded!".

Definition writetest (s : list Z) : uprog unit :=
  ulet fd := open_ (b_ "small") (Z.lor O_CREATE O_RDWR) in
  chk s (fd <? 0) "error: creat small failed!" ;>
  ufor 100 0 (λ i,
    ulet n := write fd (b_ "aaaaaaaaaa") in
    when (negb (n =? 10)) (fails s (ln "error: write aa %d new file failed") [UNum i]) ;>
    ulet n := write fd (b_ "bbbbbbbbbb") in
    when (negb (n =? 10)) (fails s (ln "error: write bb %d new file failed") [UNum i])) ;>
  close fd ;>
  ulet fd := open_ (b_ "small") O_RDONLY in
  chk s (fd <? 0) "error: open small failed!" ;>
  ulet i := read_at fd buf 2000 in
  chk s (negb (i =? 2000)) "read failed" ;>
  close fd ;>
  ulet r := unlink (b_ "small") in
  chk s (r <? 0) "unlink small failed".

Definition writebig (s : list Z) : uprog unit :=
  ulet fd := open_ (b_ "big") (Z.lor O_CREATE O_RDWR) in
  chk s (fd <? 0) "error: creat big failed!" ;>
  ufor (Z.to_nat MAXFILE) 0 (λ i,
    store buf (le_split 4 i) ;>
    ulet n := write_at fd buf BSIZE in
    when (negb (n =? BSIZE)) (fails s (ln "error: write big file failed i=%d") [UNum i])) ;>
  close fd ;>
  ulet fd := open_ (b_ "big") O_RDONLY in
  chk s (fd <? 0) "error: open big failed!" ;>
  uloop (S (Z.to_nat MAXFILE)) 0 (λ n,
    ulet i := read_at fd buf BSIZE in
    if i =? 0 then
      when (negb (n =? MAXFILE)) (fails s (b_ "read only %d blocks from big") [UNum n]) ;> URet (inr tt)
    else
      when (negb (i =? BSIZE)) (fails s (ln "read failed %d") [UNum i]) ;>
      ulet x := load buf 4 in
      when (negb (s32 (ld32 x 0) =? n)) (fails s (ln "read content of block %d is %d") [UNum n; UNum (s32 (ld32 x 0))]) ;>
      URet (inl (n + 1))) ;>
  close fd ;>
  ulet r := unlink (b_ "big") in
  chk s (r <? 0) "unlink big failed".

Definition createtest (s : list Z) : uprog unit :=
  ufor 52 0 (λ i,
    ulet fd := open_ [97; 48 + i] (Z.lor O_CREATE O_RDWR) in close fd ;> URet tt) ;>
  ufor 52 0 (λ i, unlink [97; 48 + i] ;> URet tt).

Definition dirtest (s : list Z) : uprog unit :=
  ulet r := mkdir (b_ "dir0") in
  chk s (r <? 0) "mkdir failed" ;>
  ulet r := chdir (b_ "dir0") in
  chk s (r <? 0) "chdir dir0 failed" ;>
  ulet r := chdir (b_ "..") in
  chk s (r <? 0) "chdir .. failed" ;>
  ulet r := unlink (b_ "dir0") in
  chk s (r <? 0) "unlink dir0 failed".

Definition exectest (s : list Z) : uprog unit :=
  unlink (b_ "echo-ok") ;>
  ulet pid := fork in
  chk s (pid <? 0) "fork failed" ;>
  when (pid =? 0)
    (close 1 ;>
     ulet fd := open_ (b_ "echo-ok") (Z.lor O_CREATE O_WRONLY) in
     chk s (fd <? 0) "create failed" ;>
     chk s (negb (fd =? 1)) "wrong fd" ;>
     ulet r := exec (b_ "echo") [b_ "echo"; b_ "OK"] in
     chk s (r <? 0) "exec echo failed") ;>
  ulet (r, xstatus) := wait_st in
  when (negb (r =? pid)) (uprintf (ln "%s: wait failed!") [UStr (Some s)]) ;>
  when (negb (xstatus =? 0)) (uexit xstatus) ;>
  ulet fd := open_ (b_ "echo-ok") O_RDONLY in
  chk s (fd <? 0) "open failed" ;>
  ulet (n, b) := read_ fd 2 in
  chk s (negb (n =? 2)) "read failed" ;>
  unlink (b_ "echo-ok") ;>
  if bool_decide (b = b_ "OK") then uexit 0 else fails s (ln "wrong output") [].

(** ** Pipes, kill, fork and wait *)

Definition pipe1 (s : list Z) : uprog unit :=
  let N := 5 in let SZ := 1033 in
  ulet (r, fds) := pipe_fds in
  chk s (negb (r =? 0)) "pipe() failed" ;>
  ulet pid := fork in
  if pid =? 0 then
    close fds.1 ;>
    ufor 5 0 (λ n,
      store buf ((λ i, u8 (n * SZ + Z.of_nat i)) <$> seq 0 (Z.to_nat SZ)) ;>
      ulet r := write_at fds.2 buf SZ in
      chk s (negb (r =? SZ)) "pipe1 oops 1") ;>
    uexit 0
  else if 0 <? pid then
    close fds.2 ;>
    ulet r := uloop (S (Z.to_nat (N * SZ))) (0, 1) (λ '(total, cc),
      ulet n := read_at fds.1 buf cc in
      if 0 <? n then
        ulet b := load buf (Z.to_nat n) in
        if bool_decide (b = (λ i, u8 (total + Z.of_nat i)) <$> seq 0 (Z.to_nat n)) then
          URet (inl (total + n, Z.min (cc * 2) BUFSZ))
        else uprintf (ln "%s: pipe1 oops 2") [UStr (Some s)] ;> URet (inr None)
      else URet (inr (Some total))) in
    match r with
    | None => URet tt
    | Some total =>
        when (negb (total =? N * SZ)) (fails s (ln "pipe1 oops 3 total %d") [UNum total]) ;>
        close fds.1 ;>
        ulet (_, xstatus) := wait_st in
        uexit xstatus
    end
  else fails s (ln "fork() failed") [].

Definition killstatus (s : list Z) : uprog unit :=
  ufor 100 0 (λ _,
    ulet pid1 := fork in
    chk s (pid1 <? 0) "fork failed" ;>
    when (pid1 =? 0) (forever fuel (getpid ;> URet tt)) ;>
    pause 1 ;>
    kill pid1 ;>
    ulet (_, xst) := wait_st in
    chk s (negb (xst =? -1)) "status should be -1") ;>
  uexit 0.

(** [for(;;) ;] *)
Definition spin : uprog unit := forever fuel (usys Spin ;> URet tt).

Definition preempt (s : list Z) : uprog unit :=
  ulet pid1 := fork in
  when (pid1 <? 0) (fails s (b_ "fork failed") []) ;>
  when (pid1 =? 0) spin ;>
  ulet pid2 := fork in
  chk s (pid2 <? 0) "fork failed" ;>
  when (pid2 =? 0) spin ;>
  ulet (_, pfds) := pipe_fds in
  ulet pid3 := fork in
  chk s (pid3 <? 0) "fork failed" ;>
  when (pid3 =? 0)
    (close pfds.1 ;>
     ulet n := write pfds.2 (b_ "x") in
     when (negb (n =? 1)) (uprintf (b_ "%s: preempt write error") [UStr (Some s)]) ;>
     close pfds.2 ;>
     spin) ;>
  close pfds.2 ;>
  ulet n := read_at pfds.1 buf BUFSZ in
  if negb (n =? 1) then uprintf (b_ "%s: preempt read error") [UStr (Some s)]
  else
    close pfds.1 ;>
    uprintf (b_ "kill... ") [] ;>
    kill pid1 ;>
    kill pid2 ;>
    kill pid3 ;>
    uprintf (b_ "wait... ") [] ;>
    wait0 ;>
    wait0 ;>
    wait0 ;>
    URet tt.

Definition exitwait (s : list Z) : uprog unit :=
  ufor 100 0 (λ i,
    ulet pid := fork in
    chk s (pid <? 0) "fork failed" ;>
    if negb (pid =? 0) then
      ulet (r, xstate) := wait_st in
      chk s (negb (r =? pid)) "wait wrong pid" ;>
      chk s (negb (i =? xstate)) "wait wrong exit status"
    else uexit i).

Definition reparent (s : list Z) : uprog unit :=
  ulet master_pid := getpid in
  ufor 200 0 (λ _,
    ulet pid := fork in
    chk s (pid <? 0) "fork failed" ;>
    if negb (pid =? 0) then
      ulet r := wait0 in
      chk s (negb (r =? pid)) "wait wrong pid"
    else
      ulet pid2 := fork in
      when (pid2 <? 0) (kill master_pid ;> uexit 1) ;>
      uexit 0) ;>
  uexit 0.

Definition twochildren (s : list Z) : uprog unit :=
  ufor (Z.to_nat 1000) 0 (λ _,
    ulet pid1 := fork in
    chk s (pid1 <? 0) "fork failed" ;>
    if pid1 =? 0 then uexit 0
    else
      ulet pid2 := fork in
      chk s (pid2 <? 0) "fork failed" ;>
      if pid2 =? 0 then uexit 0 else wait0 ;> wait0 ;> URet tt).

Definition forkfork (s : list Z) : uprog unit :=
  ufor 2 0 (λ _,
    ulet pid := fork in
    when (pid <? 0) (fails s (b_ "fork failed") []) ;>
    when (pid =? 0)
      (ufor 200 0 (λ _,
         ulet pid1 := fork in
         when (pid1 <? 0) (uexit 1) ;>
         when (pid1 =? 0) (uexit 0) ;>
         wait0 ;>
         URet tt) ;>
       uexit 0)) ;>
  ufor 2 0 (λ _,
    ulet (_, xstatus) := wait_st in
    when (negb (xstatus =? 0)) (fails s (b_ "fork in child failed") [])).

Definition forkforkfork (s : list Z) : uprog unit :=
  unlink (b_ "stopforking") ;>
  ulet pid := fork in
  when (pid <? 0) (fails s (b_ "fork failed") []) ;>
  when (pid =? 0)
    (forever fuel
       (ulet fd := open_ (b_ "stopforking") 0 in
        when (0 <=? fd) (uexit 0) ;>
        ulet r := fork in
        when (r <? 0)
          (ulet fd := open_ (b_ "stopforking") (Z.lor O_CREATE O_RDWR) in close fd ;> URet tt)) ;>
     uexit 0) ;>
  pause 20 ;>
  ulet fd := open_ (b_ "stopforking") (Z.lor O_CREATE O_RDWR) in
  close fd ;>
  wait0 ;>
  pause 10 ;>
  URet tt.

Definition reparent2 (s : list Z) : uprog unit :=
  ufor 800 0 (λ _,
    ulet pid1 := fork in
    when (pid1 <? 0) (failp (ln "fork failed") []) ;>
    when (pid1 =? 0) (fork ;> fork ;> uexit 0) ;>
    wait0 ;>
    URet tt) ;>
  uexit 0.

(** [mem]: [malloc] and [free] are those of umalloc.c (file Umalloc) on the memory of the process. *)
Definition mem_child (malloc : Z → uprog Z) (free : Z → uprog unit) (s : list Z) : uprog unit :=
  ulet m1 := uloop fuel 0 (λ m1,
    ulet m2 := malloc 10001 in
    if m2 =? 0 then URet (inr m1) else store m2 (le_split 8 m1) ;> URet (inl m2)) in
  uloop fuel m1 (λ m1,
    if m1 =? 0 then URet (inr tt)
    else ulet m2 := load m1 8 in free m1 ;> URet (inl (ld64 m2 0))) ;>
  ulet m1 := malloc (1024 * 20) in
  chk s (m1 =? 0) "couldn't allocate mem?!!" ;>
  free m1 ;>
  uexit 0.

Definition mem (malloc : Z → uprog Z) (free : Z → uprog unit) (s : list Z) : uprog unit :=
  ulet pid := fork in
  if pid =? 0 then mem_child malloc free s
  else
    ulet (_, xstatus) := wait_st in
    when (xstatus =? -1) (uexit 0) ;>
    uexit xstatus.

(** ** Several processes and the same files *)

Definition count (c : Z) (l : list Z) : Z := Z.of_nat (length (List.filter (Z.eqb c) l)).

Definition sharedfd (s : list Z) : uprog unit :=
  let N := 1000 in let SZ := 10 in
  unlink (b_ "sharedfd") ;>
  ulet fd := open_ (b_ "sharedfd") (Z.lor O_CREATE O_RDWR) in
  when (fd <? 0) (fails s (b_ "cannot open sharedfd for writing") []) ;>
  ulet pid := fork in
  let b := replicate 10 (if pid =? 0 then 99 else 112) in
  ufor (Z.to_nat N) 0 (λ _,
    ulet n := write fd b in
    chk s (negb (n =? SZ)) "write sharedfd failed") ;>
  (if pid =? 0 then uexit 0
   else
     ulet (_, xstatus) := wait_st in
     when (negb (xstatus =? 0)) (uexit xstatus)) ;>
  close fd ;>
  ulet fd := open_ (b_ "sharedfd") 0 in
  chk s (fd <? 0) "cannot open sharedfd for reading" ;>
  ulet (nc, np) := uloop (S (Z.to_nat (2 * N))) (0, 0) (λ '(nc, np),
    ulet (n, b) := read_ fd 10 in
    if 0 <? n then URet (inl (nc + count 99 b, np + count 112 b)) else URet (inr (nc, np))) in
  close fd ;>
  unlink (b_ "sharedfd") ;>
  if (nc =? N * SZ) && (np =? N * SZ) then uexit 0 else fails s (ln "nc/np test fails") [].

Definition fourfiles (s : list Z) : uprog unit :=
  let N := 12 in let SZ := 500 in
  let fname pi := [102; 48 + pi] in
  ufor 4 0 (λ pi,
    unlink (fname pi) ;>
    ulet pid := fork in
    chk s (pid <? 0) "fork failed" ;>
    when (pid =? 0)
      (ulet fd := open_ (fname pi) (Z.lor O_CREATE O_RDWR) in
       chk s (fd <? 0) "create failed" ;>
       store buf (replicate 500 (48 + pi)) ;>
       ufor 12 0 (λ _,
         ulet n := write_at fd buf SZ in
         when (negb (n =? SZ)) (failp (ln "write failed %d") [UNum n])) ;>
       uexit 0)) ;>
  ufor 4 0 (λ _,
    ulet (_, xstatus) := wait_st in
    when (negb (xstatus =? 0)) (uexit xstatus)) ;>
  ufor 4 0 (λ i,
    ulet fd := open_ (fname i) 0 in
    ulet total := uloop (S (Z.to_nat (N * SZ))) 0 (λ total,
      ulet n := read_at fd buf BUFSZ in
      if 0 <? n then
        ulet b := load buf (Z.to_nat n) in
        chk s (negb (count (48 + i) b =? n)) "wrong char" ;>
        URet (inl (total + n))
      else URet (inr total)) in
    close fd ;>
    when (negb (total =? N * SZ)) (failp (ln "wrong length %d") [UNum total]) ;>
    unlink (fname i) ;>
    URet tt).

Definition createdelete (s : list Z) : uprog unit :=
  let N := 20 in
  ufor 4 0 (λ pi,
    ulet pid := fork in
    chk s (pid <? 0) "fork failed" ;>
    when (pid =? 0)
      (ufor 20 0 (λ i,
         ulet fd := open_ [112 + pi; 48 + i] (Z.lor O_CREATE O_RDWR) in
         chk s (fd <? 0) "create failed" ;>
         close fd ;>
         when ((0 <? i) && (i mod 2 =? 0))
           (ulet r := unlink [112 + pi; 48 + i / 2] in
            chk s (r <? 0) "unlink failed")) ;>
       uexit 0)) ;>
  ufor 4 0 (λ _,
    ulet (_, xstatus) := wait_st in
    when (negb (xstatus =? 0)) (uexit 1)) ;>
  ufor 20 0 (λ i,
    ufor 4 0 (λ pi,
      let name := [112 + pi; 48 + i] in
      ulet fd := open_ name 0 in
      (if ((i =? 0) || (N / 2 <=? i)) && (fd <? 0) then fails s (ln "oops createdelete %s didn't exist") [UStr (Some name)]
       else when ((1 <=? i) && (i <? N / 2) && (0 <=? fd)) (fails s (ln "oops createdelete %s did exist") [UStr (Some name)])) ;>
      when (0 <=? fd) (close fd ;> URet tt))) ;>
  ufor 20 0 (λ i, ufor 4 0 (λ pi, unlink [112 + pi; 48 + i] ;> URet tt)).

(** ** Links and directories *)

Definition unlinkread (s : list Z) : uprog unit :=
  ulet fd := open_ (b_ "unlinkread") (Z.lor O_CREATE O_RDWR) in
  chk s (fd <? 0) "create unlinkread failed" ;>
  write fd (b_ "hello") ;>
  close fd ;>
  ulet fd := open_ (b_ "unlinkread") O_RDWR in
  chk s (fd <? 0) "open unlinkread failed" ;>
  ulet r := unlink (b_ "unlinkread") in
  chk s (negb (r =? 0)) "unlink unlinkread failed" ;>
  ulet fd1 := open_ (b_ "unlinkread") (Z.lor O_CREATE O_RDWR) in
  write fd1 (b_ "yyy") ;>
  close fd1 ;>
  ulet n := read_at fd buf BUFSZ in
  when (negb (n =? 5)) (fails s (b_ "unlinkread read failed") []) ;>
  ulet b := load buf 1 in
  chk s (negb (nth 0 b 0 =? 104)) "unlinkread wrong data" ;>
  ulet n := write_at fd buf 10 in
  chk s (negb (n =? 10)) "unlinkread write failed" ;>
  close fd ;>
  unlink (b_ "unlinkread") ;>
  URet tt.

Definition linktest (s : list Z) : uprog unit :=
  unlink (b_ "lf1") ;>
  unlink (b_ "lf2") ;>
  ulet fd := open_ (b_ "lf1") (Z.lor O_CREATE O_RDWR) in
  chk s (fd <? 0) "create lf1 failed" ;>
  ulet n := write fd (b_ "hello") in
  chk s (negb (n =? 5)) "write lf1 failed" ;>
  close fd ;>
  ulet r := link (b_ "lf1") (b_ "lf2") in
  chk s (r <? 0) "link lf1 lf2 failed" ;>
  unlink (b_ "lf1") ;>
  ulet fd := open_ (b_ "lf1") 0 in
  chk s (0 <=? fd) "unlinked lf1 but it is still there!" ;>
  ulet fd := open_ (b_ "lf2") 0 in
  chk s (fd <? 0) "open lf2 failed" ;>
  ulet n := read_at fd buf BUFSZ in
  chk s (negb (n =? 5)) "read lf2 failed" ;>
  close fd ;>
  ulet r := link (b_ "lf2") (b_ "lf2") in
  chk s (0 <=? r) "link lf2 lf2 succeeded! oops" ;>
  unlink (b_ "lf2") ;>
  ulet r := link (b_ "lf2") (b_ "lf1") in
  chk s (0 <=? r) "link non-existent succeeded! oops" ;>
  ulet r := link (b_ ".") (b_ "lf1") in
  chk s (0 <=? r) "link . lf1 succeeded! oops".

(** The part of [concreate] that reads the directory: the marks [fa] and the number of files found. *)
Definition concreate_scan (s : list Z) (fd : Z) : uprog Z :=
  ulet r := uloop fuel (replicate 40 0, 0) (λ '(fa, n),
    ulet (k, de) := read_ fd 16 in
    if k <=? 0 then URet (inr n)
    else if ld16 de 0 =? 0 then URet (inl (fa, n))
    else if (nth 2 de 0 =? 67) && (nth 4 de 0 =? 0) then
      let i := nth 3 de 0 - 48 in
      let name := upto_nul (slice de 2 14) in
      when ((i <? 0) || (40 <=? i)) (fails s (ln "concreate weird file %s") [UStr (Some name)]) ;>
      when (negb (nth (Z.to_nat i) fa 0 =? 0)) (fails s (ln "concreate duplicate file %s") [UStr (Some name)]) ;>
      URet (inl (<[Z.to_nat i:=1]> fa, n + 1))
    else URet (inl (fa, n))) in
  URet r.

Definition concreate (s : list Z) : uprog unit :=
  let N := 40 in
  let file i := [67; 48 + i] in
  ufor 40 0 (λ i,
    unlink (file i) ;>
    ulet pid := fork in
    (if negb (pid =? 0) && (i mod 3 =? 1) then link (b_ "C0") (file i) ;> URet tt
     else if (pid =? 0) && (i mod 5 =? 1) then link (b_ "C0") (file i) ;> URet tt
     else
       ulet fd := open_ (file i) (Z.lor O_CREATE O_RDWR) in
       when (fd <? 0) (failp (ln "concreate create %s failed") [UStr (Some (file i))]) ;>
       close fd ;> URet tt) ;>
    if pid =? 0 then uexit 0
    else
      ulet (_, xstatus) := wait_st in
      when (negb (xstatus =? 0)) (uexit 1)) ;>
  ulet fd := open_ (b_ ".") 0 in
  ulet n := concreate_scan s fd in
  close fd ;>
  chk s (negb (n =? N)) "concreate not enough files in directory listing" ;>
  ufor 40 0 (λ i,
    ulet pid := fork in
    chk s (pid <? 0) "fork failed" ;>
    (if ((i mod 3 =? 0) && (pid =? 0)) || ((i mod 3 =? 1) && negb (pid =? 0)) then
       ufor 6 0 (λ _, ulet fd := open_ (file i) 0 in close fd ;> URet tt)
     else ufor 6 0 (λ _, unlink (file i) ;> URet tt)) ;>
    if pid =? 0 then uexit 0 else wait0 ;> URet tt).

Definition linkunlink (s : list Z) : uprog unit :=
  unlink (b_ "x") ;>
  ulet pid := fork in
  chk s (pid <? 0) "fork failed" ;>
  uloop 101 (0, if pid =? 0 then 97 else 1) (λ '(i, x),
    if 100 <=? i then URet (inr tt)
    else
      let x := u32 (x * 1103515245 + 12345) in
      (if x mod 3 =? 0 then ulet fd := open_ (b_ "x") (Z.lor O_RDWR O_CREATE) in close fd
       else if x mod 3 =? 1 then link (b_ "cat") (b_ "x")
       else unlink (b_ "x")) ;>
      URet (inl (i + 1, x))) ;>
  if negb (pid =? 0) then wait0 ;> URet tt else uexit 0.

(** Calls that have to fail, or to succeed, with the message that is printed otherwise. *)
Definition must (s : list Z) (p : uprog Z) (bad : Z → bool) (msg : string) : uprog unit :=
  ulet r := p in chk s (bad r) msg.
Definition neg (r : Z) : bool := r <? 0.
Definition nonneg (r : Z) : bool := 0 <=? r.
Definition zero (r : Z) : bool := r =? 0.
Definition nonzero (r : Z) : bool := negb (r =? 0).

Definition subdir_build (s : list Z) : uprog unit :=
  unlink (b_ "ff") ;>
  must s (mkdir (b_ "dd")) nonzero "mkdir dd failed" ;>
  ulet fd := open_ (b_ "dd/ff") (Z.lor O_CREATE O_RDWR) in
  chk s (fd <? 0) "create dd/ff failed" ;>
  write fd (b_ "ff") ;>
  close fd ;>
  must s (unlink (b_ "dd")) nonneg "unlink dd (non-empty dir) succeeded!" ;>
  must s (mkdir (b_ "/dd/dd")) nonzero "subdir mkdir dd/dd failed" ;>
  ulet fd := open_ (b_ "dd/dd/ff") (Z.lor O_CREATE O_RDWR) in
  chk s (fd <? 0) "create dd/dd/ff failed" ;>
  write fd (b_ "FF") ;>
  close fd ;>
  ulet fd := open_ (b_ "dd/dd/../ff") 0 in
  chk s (fd <? 0) "open dd/dd/../ff failed" ;>
  ulet cc := read_at fd buf BUFSZ in
  ulet b := load buf 1 in
  chk s (negb (cc =? 2) || negb (nth 0 b 0 =? 102)) "dd/dd/../ff wrong content" ;>
  close fd ;>
  must s (link (b_ "dd/dd/ff") (b_ "dd/dd/ffff")) nonzero "link dd/dd/ff dd/dd/ffff failed" ;>
  must s (unlink (b_ "dd/dd/ff")) nonzero "unlink dd/dd/ff failed" ;>
  must s (open_ (b_ "dd/dd/ff") O_RDONLY) nonneg "open (unlinked) dd/dd/ff succeeded".

Definition subdir_walk (s : list Z) : uprog unit :=
  must s (chdir (b_ "dd")) nonzero "chdir dd failed" ;>
  must s (chdir (b_ "dd/../../dd")) nonzero "chdir dd/../../dd failed" ;>
  must s (chdir (b_ "dd/../../../dd")) nonzero "chdir dd/../../../dd failed" ;>
  must s (chdir (b_ "./..")) nonzero "chdir ./.. failed" ;>
  ulet fd := open_ (b_ "dd/dd/ffff") 0 in
  chk s (fd <? 0) "open dd/dd/ffff failed" ;>
  ulet n := read_at fd buf BUFSZ in
  chk s (negb (n =? 2)) "read dd/dd/ffff wrong len" ;>
  close fd ;>
  must s (open_ (b_ "dd/dd/ff") O_RDONLY) nonneg "open (unlinked) dd/dd/ff succeeded!".

Definition subdir_refused (s : list Z) : uprog unit :=
  must s (open_ (b_ "dd/ff/ff") (Z.lor O_CREATE O_RDWR)) nonneg "create dd/ff/ff succeeded!" ;>
  must s (open_ (b_ "dd/xx/ff") (Z.lor O_CREATE O_RDWR)) nonneg "create dd/xx/ff succeeded!" ;>
  must s (open_ (b_ "dd") O_CREATE) nonneg "create dd succeeded!" ;>
  must s (open_ (b_ "dd") O_RDWR) nonneg "open dd rdwr succeeded!" ;>
  must s (open_ (b_ "dd") O_WRONLY) nonneg "open dd wronly succeeded!" ;>
  must s (link (b_ "dd/ff/ff") (b_ "dd/dd/xx")) zero "link dd/ff/ff dd/dd/xx succeeded!" ;>
  must s (link (b_ "dd/xx/ff") (b_ "dd/dd/xx")) zero "link dd/xx/ff dd/dd/xx succeeded!" ;>
  must s (link (b_ "dd/ff") (b_ "dd/dd/ffff")) zero "link dd/ff dd/dd/ffff succeeded!" ;>
  must s (mkdir (b_ "dd/ff/ff")) zero "mkdir dd/ff/ff succeeded!" ;>
  must s (mkdir (b_ "dd/xx/ff")) zero "mkdir dd/xx/ff succeeded!" ;>
  must s (mkdir (b_ "dd/dd/ffff")) zero "mkdir dd/dd/ffff succeeded!" ;>
  must s (unlink (b_ "dd/xx/ff")) zero "unlink dd/xx/ff succeeded!" ;>
  must s (unlink (b_ "dd/ff/ff")) zero "unlink dd/ff/ff succeeded!" ;>
  must s (chdir (b_ "dd/ff")) zero "chdir dd/ff succeeded!" ;>
  must s (chdir (b_ "dd/xx")) zero "chdir dd/xx succeeded!".

Definition subdir (s : list Z) : uprog unit :=
  subdir_build s ;>
  subdir_walk s ;>
  subdir_refused s ;>
  must s (unlink (b_ "dd/dd/ffff")) nonzero "unlink dd/dd/ff failed" ;>
  must s (unlink (b_ "dd/ff")) nonzero "unlink dd/ff failed" ;>
  must s (unlink (b_ "dd")) zero "unlink non-empty dd succeeded!" ;>
  must s (unlink (b_ "dd/dd")) neg "unlink dd/dd failed" ;>
  must s (unlink (b_ "dd")) neg "unlink dd failed".

Definition bigwrite (s : list Z) : uprog unit :=
  unlink (b_ "bigwrite") ;>
  uloop (Z.to_nat BUFSZ) 499 (λ sz,
    if BUFSZ <=? sz then URet (inr tt)
    else
      ulet fd := open_ (b_ "bigwrite") (Z.lor O_CREATE O_RDWR) in
      chk s (fd <? 0) "cannot create bigwrite" ;>
      ufor 2 0 (λ _,
        ulet cc := write_at fd buf sz in
        when (negb (cc =? sz)) (fails s (ln "write(%d) ret %d") [UNum sz; UNum cc])) ;>
      close fd ;>
      unlink (b_ "bigwrite") ;>
      URet (inl (sz + 471))).

Definition bigfile (s : list Z) : uprog unit :=
  let N := 20 in let SZ := 600 in
  unlink (b_ "bigfile.dat") ;>
  ulet fd := open_ (b_ "bigfile.dat") (Z.lor O_CREATE O_RDWR) in
  when (fd <? 0) (fails s (b_ "cannot create bigfile") []) ;>
  ufor 20 0 (λ i,
    store buf (replicate 600 (u8 i)) ;>
    ulet n := write_at fd buf SZ in
    chk s (negb (n =? SZ)) "write bigfile failed") ;>
  close fd ;>
  ulet fd := open_ (b_ "bigfile.dat") 0 in
  chk s (fd <? 0) "cannot open bigfile" ;>
  ulet total := uloop (S (Z.to_nat (N * SZ))) (0, 0) (λ '(i, total),
    ulet cc := read_at fd buf (SZ / 2) in
    chk s (cc <? 0) "read bigfile failed" ;>
    if cc =? 0 then URet (inr total)
    else
      chk s (negb (cc =? SZ / 2)) "short read bigfile" ;>
      ulet b := load buf 300 in
      chk s (negb (nth 0 b 0 =? i / 2) || negb (nth 299 b 0 =? i / 2)) "read bigfile wrong data" ;>
      URet (inl (i + 1, total + cc))) in
  close fd ;>
  chk s (negb (total =? N * SZ)) "read bigfile wrong total" ;>
  unlink (b_ "bigfile.dat") ;>
  URet tt.

Definition fourteen (s : list Z) : uprog unit :=
  must s (mkdir (b_ "12345678901234")) nonzero "mkdir 12345678901234 failed" ;>
  must s (mkdir (b_ "12345678901234/123456789012345")) nonzero "mkdir 12345678901234/123456789012345 failed" ;>
  ulet fd := open_ (b_ "123456789012345/123456789012345/123456789012345") O_CREATE in
  chk s (fd <? 0) "create 123456789012345/123456789012345/123456789012345 failed" ;>
  close fd ;>
  ulet fd := open_ (b_ "12345678901234/12345678901234/12345678901234") 0 in
  chk s (fd <? 0) "open 12345678901234/12345678901234/12345678901234 failed" ;>
  close fd ;>
  must s (mkdir (b_ "12345678901234/12345678901234")) zero "mkdir 12345678901234/12345678901234 succeeded!" ;>
  must s (mkdir (b_ "123456789012345/12345678901234")) zero "mkdir 12345678901234/123456789012345 succeeded!" ;>
  unlink (b_ "123456789012345/12345678901234") ;>
  unlink (b_ "12345678901234/12345678901234") ;>
  unlink (b_ "12345678901234/12345678901234/12345678901234") ;>
  unlink (b_ "123456789012345/123456789012345/123456789012345") ;>
  unlink (b_ "12345678901234/123456789012345") ;>
  unlink (b_ "12345678901234") ;>
  URet tt.

Definition rmdot (s : list Z) : uprog unit :=
  must s (mkdir (b_ "dots")) nonzero "mkdir dots failed" ;>
  must s (chdir (b_ "dots")) nonzero "chdir dots failed" ;>
  must s (unlink (b_ ".")) zero "rm . worked!" ;>
  must s (unlink (b_ "..")) zero "rm .. worked!" ;>
  must s (chdir (b_ "/")) nonzero "chdir / failed" ;>
  must s (unlink (b_ "dots/.")) zero "unlink dots/. worked!" ;>
  must s (unlink (b_ "dots/..")) zero "unlink dots/.. worked!" ;>
  must s (unlink (b_ "dots")) nonzero "unlink dots failed!".

Definition dirfile (s : list Z) : uprog unit :=
  ulet fd := open_ (b_ "dirfile") O_CREATE in
  chk s (fd <? 0) "create dirfile failed" ;>
  close fd ;>
  must s (chdir (b_ "dirfile")) zero "chdir dirfile succeeded!" ;>
  must s (open_ (b_ "dirfile/xx") 0) nonneg "create dirfile/xx succeeded!" ;>
  must s (open_ (b_ "dirfile/xx") O_CREATE) nonneg "create dirfile/xx succeeded!" ;>
  must s (mkdir (b_ "dirfile/xx")) zero "mkdir dirfile/xx succeeded!" ;>
  must s (unlink (b_ "dirfile/xx")) zero "unlink dirfile/xx succeeded!" ;>
  must s (link (b_ "README") (b_ "dirfile/xx")) zero "link to dirfile/xx succeeded!" ;>
  must s (unlink (b_ "dirfile")) nonzero "unlink dirfile failed!" ;>
  must s (open_ (b_ ".") O_RDWR) nonneg "open . for writing succeeded!" ;>
  ulet fd := open_ (b_ ".") 0 in
  must s (write fd (b_ "x")) (λ n, 0 <? n) "write . succeeded!" ;>
  close fd ;>
  URet tt.

Definition iref (s : list Z) : uprog unit :=
  ufor (S NINODE) 0 (λ _,
    must s (mkdir (b_ "irefd")) nonzero "mkdir irefd failed" ;>
    must s (chdir (b_ "irefd")) nonzero "chdir irefd failed" ;>
    mkdir [] ;>
    link (b_ "README") [] ;>
    ulet fd := open_ [] O_CREATE in
    when (0 <=? fd) (close fd ;> URet tt) ;>
    ulet fd := open_ (b_ "xx") O_CREATE in
    when (0 <=? fd) (close fd ;> URet tt) ;>
    unlink (b_ "xx") ;>
    URet tt) ;>
  ufor (S NINODE) 0 (λ _, chdir (b_ "..") ;> unlink (b_ "irefd") ;> URet tt) ;>
  chdir (b_ "/") ;>
  URet tt.

(** ** Running out of processes and memory *)

Definition forktest (s : list Z) : uprog unit :=
  let N := 1000 in
  ulet n := uloop (S (Z.to_nat N)) 0 (λ n,
    if N <=? n then URet (inr n)
    else
      ulet pid := fork in
      if pid <? 0 then URet (inr n)
      else if pid =? 0 then uexit 0
      else URet (inl (n + 1))) in
  chk s (n =? 0) "no fork at all!" ;>
  chk s (n =? N) "fork claimed to work 1000 times!" ;>
  ufor (Z.to_nat n) 0 (λ _, ulet r := wait0 in chk s (r <? 0) "wait stopped early") ;>
  ulet r := wait0 in
  chk s (negb (r =? -1)) "wait got too many".

Definition sbrkbasic (s : list Z) : uprog unit :=
  let TOOMUCH := 1024 * 1024 * 1024 in
  ulet pid := fork in
  when (pid <? 0) (failp (ln "fork failed in sbrkbasic") []) ;>
  when (pid =? 0)
    (ulet a := sbrk TOOMUCH in
     when (a =? SBRK_ERROR) (uexit 0) ;>
     ufor (Z.to_nat (TOOMUCH / PGSIZE)) 0 (λ i, store (a + i * PGSIZE) [99]) ;>
     uexit 1) ;>
  ulet (_, xstatus) := wait_st in
  chk s (xstatus =? 1) "too much memory allocated!" ;>
  ulet a := sbrk 0 in
  ulet a := uloop (Z.to_nat 5001) (0, a) (λ '(i, a),
    if 5000 <=? i then URet (inr a)
    else
      ulet b := sbrk 1 in
      when (negb (b =? a)) (fails s (ln "sbrk test failed %d %p %p") [UNum i; UNum a; UNum b]) ;>
      store b [1] ;>
      URet (inl (i + 1, b + 1))) in
  ulet pid := fork in
  chk s (pid <? 0) "sbrk test fork failed" ;>
  sbrk 1 ;>
  ulet c := sbrk 1 in
  chk s (negb (c =? a + 1)) "sbrk test failed post-fork" ;>
  when (pid =? 0) (uexit 0) ;>
  ulet (_, xstatus) := wait_st in
  uexit xstatus.

Definition sbrkmuch (s : list Z) : uprog unit :=
  let BIG := 100 * 1024 * 1024 in
  ulet oldbrk := sbrk 0 in
  ulet a := sbrk 0 in
  ulet p := sbrk (BIG - a) in
  chk s (negb (p =? a)) "sbrk test failed to grow big address space; enough phys mem?" ;>
  let lastaddr := BIG - 1 in
  store lastaddr [99] ;>
  ulet a := sbrk 0 in
  ulet c := sbrk (- PGSIZE) in
  chk s (c =? SBRK_ERROR) "sbrk could not deallocate" ;>
  ulet c := sbrk 0 in
  when (negb (c =? a - PGSIZE)) (fails s (ln "sbrk deallocation produced wrong address, a %p c %p") [UNum a; UNum c]) ;>
  ulet a := sbrk 0 in
  ulet c := sbrk PGSIZE in
  ulet top := (if negb (c =? a) then URet 0 else sbrk 0) in
  when (negb (c =? a) || negb (top =? a + PGSIZE)) (fails s (ln "sbrk re-allocation failed, a %p c %p") [UNum a; UNum c]) ;>
  ulet b := load lastaddr 1 in
  chk s (nth 0 b 0 =? 99) "sbrk de-allocation didn't really deallocate" ;>
  ulet a := sbrk 0 in
  ulet top := sbrk 0 in
  ulet c := sbrk (- (top - oldbrk)) in
  when (negb (c =? a)) (fails s (ln "sbrk downsize failed, a %p c %p") [UNum a; UNum c]).

Definition kernmem (s : list Z) : uprog unit :=
  ufor 40 0 (λ i,
    let a := KERNBASE + i * 50000 in
    ulet pid := fork in
    chk s (pid <? 0) "fork failed" ;>
    when (pid =? 0)
      (ulet b := load a 1 in
       fails s (ln "oops could read %p = %x") [UNum a; UNum (nth 0 b 0)]) ;>
    ulet (_, xstatus) := wait_st in
    when (negb (xstatus =? -1)) (uexit 1)).

Definition MAXVAplus (s : list Z) : uprog unit :=
  uloop 65 MAXVA (λ a,
    if a =? 0 then URet (inr tt)
    else
      ulet pid := fork in
      chk s (pid <? 0) "fork failed" ;>
      when (pid =? 0) (store a [99] ;> fails s (ln "oops wrote %p") [UNum a]) ;>
      ulet (_, xstatus) := wait_st in
      when (negb (xstatus =? -1)) (uexit 1) ;>
      URet (inl (u64 (Z.shiftl a 1)))).

(** The loop of [sbrkfail] that starts ten processes: their pids, and whether one could not allocate. *)
Definition sbrkfail_start (s : list Z) (fds : Z * Z) (BIG : Z) : uprog (list Z * bool) :=
  uloop 11 (0%nat, [], false) (λ '(i, pids, failed),
    if (10 <=? i)%nat then URet (inr (pids, failed))
    else
      ulet pid := fork in
      when (pid =? 0)
        (ulet sz := sbrk 0 in
         ulet r := sbrk (BIG - sz) in
         write fds.2 (b_ (if r =? SBRK_ERROR then "0" else "1")) ;>
         forever fuel (pause 1000 ;> URet tt)) ;>
      ulet f := (if negb (pid =? -1) then ulet (_, b) := read_ fds.1 1 in URet (nth 0 b 0 =? 48) else URet false) in
      URet (inl (S i, pids ++ [pid], failed || f))).

Definition sbrkfail (s : list Z) : uprog unit :=
  let BIG := 200 * 1024 * 1024 in
  ulet (r, fds) := pipe_fds in
  chk s (negb (r =? 0)) "pipe() failed" ;>
  ulet (pids, failed) := sbrkfail_start s fds BIG in
  when (negb failed) (uprintf (ln "%s: no allocation failed; allocate more?") [UStr (Some s)]) ;>
  ulet c := sbrk PGSIZE in
  ueach pids (λ pid, when (negb (pid =? -1)) (kill pid ;> wait0 ;> URet tt)) ;>
  chk s (c =? SBRK_ERROR) "failed sbrk leaked memory" ;>
  ulet pid := fork in
  chk s (pid <? 0) "fork failed" ;>
  when (pid =? 0)
    (ulet a := sbrk (10 * BIG) in
     when (a =? SBRK_ERROR) (uexit 0) ;>
     fails s (ln "allocate a lot of memory succeeded %d") [UNum (10 * BIG)]) ;>
  ulet (_, xstatus) := wait_st in
  when (negb (xstatus =? 0)) (uexit 1).

Definition sbrkarg (s : list Z) : uprog unit :=
  ulet a := sbrk PGSIZE in
  ulet fd := open_ (b_ "sbrk") (Z.lor O_CREATE O_WRONLY) in
  unlink (b_ "sbrk") ;>
  chk s (fd <? 0) "open sbrk failed" ;>
  ulet n := write_at fd a PGSIZE in
  chk s (n <? 0) "write sbrk failed" ;>
  close fd ;>
  ulet a := sbrk PGSIZE in
  ulet r := pipe_at a in
  chk s (negb (r =? 0)) "pipe() failed".

Definition validatetest (s : list Z) : uprog unit :=
  ufor 276 0 (λ i,
    ulet r := ucall (SysCall 19 [AData (b_ "nosuchfile" ++ [0]); AVal (i * PGSIZE)]) in
    chk s (negb (r =? -1)) "link should not succeed").

Definition bsstest (s : list Z) : uprog unit :=
  ulet b := load uninit (Z.to_nat 10000) in
  chk s (negb (forallb (Z.eqb 0) b)) "bss test failed".

Definition bigargtest (s : list Z) : uprog unit :=
  unlink (b_ "bigarg-ok") ;>
  ulet pid := fork in
  (if pid =? 0 then
     exec (b_ "echo") (replicate (pred MAXARG) (replicate 399 32)) ;>
     ulet fd := open_ (b_ "bigarg-ok") O_CREATE in
     close fd ;>
     uexit 0
   else chk s (pid <? 0) "bigargtest: fork failed") ;>
  ulet (_, xstatus) := wait_st in
  when (negb (xstatus =? 0)) (uexit xstatus) ;>
  ulet fd := open_ (b_ "bigarg-ok") 0 in
  chk s (fd <? 0) "bigarg test failed!" ;>
  close fd ;>
  URet tt.

(** [fsfull], which no table of tests contains. *)
Definition fs_name (n : Z) : list Z :=
  [102; 48 + n / 1000; 48 + n mod 1000 / 100; 48 + n mod 100 / 10; 48 + n mod 10].

Definition fsfull : uprog unit :=
  uprintf (ln "fsfull test") [] ;>
  ulet nfiles := uloop fuel 0 (λ nfiles,
    uprintf (ln "writing %s") [UStr (Some (fs_name nfiles))] ;>
    ulet fd := open_ (fs_name nfiles) (Z.lor O_CREATE O_RDWR) in
    if fd <? 0 then uprintf (ln "open %s failed") [UStr (Some (fs_name nfiles))] ;> URet (inr nfiles)
    else
      ulet total := uloop fuel 0 (λ total,
        ulet cc := write_at fd buf BSIZE in
        if cc <? BSIZE then URet (inr total) else URet (inl (total + cc))) in
      uprintf (ln "wrote %d bytes") [UNum total] ;>
      close fd ;>
      if total =? 0 then URet (inr nfiles) else URet (inl (nfiles + 1))) in
  uloop (S (S (Z.to_nat nfiles))) nfiles (λ n,
    if 0 <=? n then unlink (fs_name n) ;> URet (inl (n - 1)) else URet (inr tt)) ;>
  uprintf (ln "fsfull test finished") [].

Definition argptest (s : list Z) : uprog unit :=
  ulet fd := open_ (b_ "init") O_RDONLY in
  chk s (fd <? 0) "open failed" ;>
  ulet top := sbrk 0 in
  read_at fd (top - 1) (-1) ;>
  close fd ;>
  URet tt.

(** ** Faults of user programs *)

Definition stacktest (s : list Z) : uprog unit :=
  ulet pid := fork in
  (if pid =? 0 then
     ulet b := load (stack_ptr - USERSTACK * PGSIZE) 1 in
     fails s (ln "stacktest: read below stack %d") [UNum (nth 0 b 0)]
   else chk s (pid <? 0) "fork failed") ;>
  ulet (_, xstatus) := wait_st in
  if xstatus =? -1 then uexit 0 else uexit xstatus.

Definition nowrite (s : list Z) : uprog unit :=
  ueach [0; 0x00200000; 0x3fffffe000; 0x3ffffff000; 0x4000000000; 0xffffffffffffffff] (λ addr,
    ulet pid := fork in
    (if pid =? 0 then
       store addr (le_split 4 10) ;>
       uprintf (ln "%s: write to %p did not fail!") [UStr (Some s); UNum addr] ;>
       uexit 0
     else chk s (pid <? 0) "fork failed") ;>
    ulet (_, xstatus) := wait_st in
    when (xstatus =? 0) (uexit 1)) ;>
  uexit 0.

Definition big : Z := 0xeaeb0b5b00002f5e.

Definition pgbug (s : list Z) : uprog unit := exec_at big [] ;> pipe_at big ;> uexit 0.

(** A child that runs [p]; its status is not looked at. *)
Definition in_child (p : uprog unit) : uprog unit :=
  ulet pid := fork in
  when (pid <? 0) (failp (ln "fork failed") []) ;>
  when (pid =? 0) p ;>
  wait0 ;>
  URet tt.

Definition sbrkbugs (s : list Z) : uprog unit :=
  in_child (ulet top := sbrk 0 in let sz := s32 top in sbrk (- sz) ;> uexit 0) ;>
  in_child (ulet top := sbrk 0 in let sz := s32 top in sbrk (- (sz - 3500)) ;> uexit 0) ;>
  in_child (ulet top := sbrk 0 in sbrk (10 * PGSIZE + 2048 - top) ;> sbrk (-10) ;> uexit 0) ;>
  uexit 0.

Definition sbrklast (s : list Z) : uprog unit :=
  page_align ;>
  sbrk PGSIZE ;>
  sbrk 10 ;>
  sbrk (-20) ;>
  ulet top := sbrk 0 in
  let p := top - 64 in
  store p (b_ "x" ++ [0]) ;>
  ulet fd := open_at p (Z.lor O_RDWR O_CREATE) in
  write_at fd p 1 ;>
  close fd ;>
  ulet fd := open_at p O_RDWR in
  store p [0] ;>
  read_at fd p 1 ;>
  ulet b := load p 1 in
  when (negb (nth 0 b 0 =? 120)) (uexit 1).

Definition sbrk8000 (s : list Z) : uprog unit :=
  sbrk 0x80000004 ;>
  ulet top := sbrk 0 in
  ulet b := load (top - 1) 1 in
  store (top - 1) [u8 (nth 0 b 0 + 1)].

Definition badarg (s : list Z) : uprog unit :=
  ufor (Z.to_nat 50000) 0 (λ _,
    ucall (SysCall 7 [AData (b_ "echo" ++ [0]); AData (le_split 8 0xffffffff ++ le_split 8 0)]) ;> URet tt) ;>
  uexit 0.

(** ** Memory that is allocated when it is used *)

Definition REGION_SZ : Z := 1024 * 1024 * 1024.

Definition lazy_alloc (s : list Z) : uprog unit :=
  ulet prev_end := sbrklazy REGION_SZ in
  when (prev_end =? SBRK_ERROR) (failp (ln "sbrklazy() failed") []) ;>
  let at_ i := prev_end + PGSIZE + i * (64 * PGSIZE) in
  let rounds := Z.to_nat (REGION_SZ / (64 * PGSIZE)) in
  ufor rounds 0 (λ i, store (at_ i) (le_split 8 (at_ i))) ;>
  ufor rounds 0 (λ i,
    ulet b := load (at_ i) 8 in
    when (negb (ld64 b 0 =? at_ i)) (failp (ln "failed to read value from memory") [])) ;>
  uexit 0.

Definition lazy_unmap (s : list Z) : uprog unit :=
  ulet prev_end := sbrklazy REGION_SZ in
  when (prev_end =? SBRK_ERROR) (failp (ln "sbrklazy() failed") []) ;>
  let at_ i := prev_end + PGSIZE + i * (PGSIZE * PGSIZE) in
  let rounds := Z.to_nat (REGION_SZ / (PGSIZE * PGSIZE)) in
  ufor rounds 0 (λ i, store (at_ i) (le_split 8 (at_ i))) ;>
  ufor rounds 0 (λ i,
    ulet pid := fork in
    if pid <? 0 then failp (ln "error forking") []
    else if pid =? 0 then
      sbrklazy (-1 * REGION_SZ) ;>
      store (at_ i) (le_split 8 (at_ i)) ;>
      uexit 0
    else
      ulet (_, status) := wait_st in
      when (status =? 0) (failp (ln "memory not unmapped") [])) ;>
  uexit 0.

Definition lazy_copy (s : list Z) : uprog unit :=
  ulet p := sbrk 0 in
  sbrklazy (4 * PGSIZE) ;>
  open_at (p + 8192) 0 ;>
  ulet xx := sbrk 0 in
  ulet ret := sbrk (- (xx + 1)) in
  when (negb (ret =? xx)) (failp (ln "sbrk(sbrk(0)+1) returned %p, not old sz") [UNum ret]) ;>
  ueach [0x3fffffc000; 0x3fffffd000; 0x3fffffe000; 0x3ffffff000; 0x4000000000; 0x8000000000] (λ bad,
    ulet fd := open_ (b_ "README") 0 in
    when (fd <? 0) (failp (ln "cannot open README") []) ;>
    ulet n := read_at fd bad 512 in
    when (0 <=? n) (failp (ln "read succeeded") []) ;>
    close fd ;>
    ulet fd := open_ (b_ "junk") (Z.lor O_CREATE (Z.lor O_RDWR O_TRUNC)) in
    when (fd <? 0) (failp (ln "cannot open junk") []) ;>
    ulet n := write_at fd bad 512 in
    when (0 <=? n) (failp (ln "write succeeded") []) ;>
    close fd ;>
    URet tt) ;>
  uexit 0.

(** A comparison of a pointer with 0 is never true. *)
Definition lazy_sbrk (s : list Z) : uprog unit :=
  let GB := 2 ^ 30 in
  ulet p := sbrk 0 in
  ulet p := uloop 257 p (λ p,
    if u64 p <? MAXVA - GB then sbrklazy GB ;> ulet p := sbrklazy 0 in URet (inl p) else URet (inr p)) in
  let n := s32 (TRAPFRAME - PGSIZE - p) in
  ulet p1 := sbrklazy n in
  when (negb (p1 =? p)) (failp (ln "sbrklazy(%d) returned %p, not expected %p") [UNum n; UNum p1; UNum p]) ;>
  ulet p := sbrk PGSIZE in
  when (negb (p =? TRAPFRAME - PGSIZE)) (failp (ln "sbrk(%d) returned %p, not expected TRAPFRAME-PGSIZE") [UNum PGSIZE; UNum p]) ;>
  store p [1] ;>
  ulet b := load (p + 1) 1 in
  when (negb (nth 0 b 0 =? 0)) (failp (ln "sbrk() returned non-zero-filled memory") []) ;>
  ulet p := sbrk 1 in
  when (negb (p =? -1)) (failp (ln "sbrk(1) returned %p, expected error") [UNum p]) ;>
  ulet p := sbrklazy 1 in
  when (negb (p =? -1)) (failp (ln "sbrklazy(1) returned %p, expected error") [UNum p]) ;>
  uexit 0.

(** ** The slow tests *)

Definition bigdir (s : list Z) : uprog unit :=
  let name i := [120; 48 + i / 64; 48 + i mod 64] in
  unlink (b_ "bd") ;>
  ulet fd := open_ (b_ "bd") O_CREATE in
  chk s (fd <? 0) "bigdir create failed" ;>
  close fd ;>
  ufor 500 0 (λ i,
    ulet r := link (b_ "bd") (name i) in
    when (negb (r =? 0)) (fails s (ln "bigdir i=%d link(bd, %s) failed") [UNum i; UStr (Some (name i))])) ;>
  unlink (b_ "bd") ;>
  ufor 500 0 (λ i,
    ulet r := unlink (name i) in
    when (negb (r =? 0)) (fails s (b_ "bigdir unlink failed") [])).

Definition manywrites (s : list Z) : uprog unit :=
  ufor 4 0 (λ ci,
    ulet pid := fork in
    when (pid <? 0) (failp (ln "fork failed") []) ;>
    when (pid =? 0)
      (let name := [98; 97 + ci] in
       unlink name ;>
       ufor 30 0 (λ _,
         ufor (S (Z.to_nat ci)) 0 (λ _,
           ulet fd := open_ name (Z.lor O_CREATE O_RDWR) in
           when (fd <? 0) (fails s (ln "cannot create %s") [UStr (Some name)]) ;>
           ulet cc := write_at fd buf BUFSZ in
           when (negb (cc =? BUFSZ)) (fails s (ln "write(%d) ret %d") [UNum BUFSZ; UNum cc]) ;>
           close fd ;>
           URet tt) ;>
         unlink name ;>
         URet tt) ;>
       unlink name ;>
       uexit 0)) ;>
  ufor 4 0 (λ _,
    ulet (_, st) := wait_st in
    when (negb (st =? 0)) (uexit st)) ;>
  uexit 0.

Definition badwrite (s : list Z) : uprog unit :=
  unlink (b_ "junk") ;>
  ufor 600 0 (λ _,
    ulet fd := open_ (b_ "junk") (Z.lor O_CREATE O_WRONLY) in
    when (fd <? 0) (failp (ln "open junk failed") []) ;>
    write_at fd 0xffffffffff 1 ;>
    close fd ;>
    unlink (b_ "junk") ;>
    URet tt) ;>
  ulet fd := open_ (b_ "junk") (Z.lor O_CREATE O_WRONLY) in
  when (fd <? 0) (failp (ln "open junk failed") []) ;>
  ulet n := write fd (b_ "x") in
  when (negb (n =? 1)) (failp (ln "write failed") []) ;>
  close fd ;>
  unlink (b_ "junk") ;>
  uexit 0.

Definition execout (s : list Z) : uprog unit :=
  ufor 15 0 (λ avail,
    ulet pid := fork in
    if pid <? 0 then failp (ln "fork failed") []
    else if pid =? 0 then
      uloop fuel tt (λ _,
        ulet a := sbrk PGSIZE in
        if a =? SBRK_ERROR then URet (inr tt) else store (a + PGSIZE - 1) [1] ;> URet (inl tt)) ;>
      ufor (Z.to_nat avail) 0 (λ _, sbrk (- PGSIZE) ;> URet tt) ;>
      close 1 ;>
      exec (b_ "echo") [b_ "echo"; b_ "x"] ;>
      uexit 0
    else wait0 ;> URet tt) ;>
  uexit 0.

(** "zz" and two more characters; "big" and one more. *)
Definition zz_name (i : Z) : list Z := [122; 122; 48 + i / 32; 48 + i mod 32].
Definition big_name (i : Z) : list Z := b_ "big" ++ [48 + i].

(** Creating the files zz.. until one cannot be created. *)
Definition create_zz (n : nat) : uprog unit :=
  uloop (S n) 0 (λ i,
    if Z.of_nat n <=? i then URet (inr tt)
    else
      unlink (zz_name i) ;>
      ulet fd := open_ (zz_name i) (Z.lor O_CREATE (Z.lor O_RDWR O_TRUNC)) in
      if fd <? 0 then URet (inr tt) else close fd ;> URet (inl (i + 1))).

(** The loop of [diskfull] that fills the disk; [local] is its array, which is not initialised. *)
Definition diskfull_fill (s : list Z) (local : list Z) : uprog unit :=
  uloop 80 0 (λ fi,
    if 127 <=? 48 + fi then URet (inr tt)
    else
      unlink (big_name fi) ;>
      ulet fd := open_ (big_name fi) (Z.lor O_CREATE (Z.lor O_RDWR O_TRUNC)) in
      if fd <? 0 then uprintf (ln "%s: could not create file %s") [UStr (Some s); UStr (Some (big_name fi))] ;> URet (inr tt)
      else
        ulet done := uloop (S (Z.to_nat MAXFILE)) 0 (λ i,
          if MAXFILE <=? i then URet (inr false)
          else
            ulet n := write fd local in
            if negb (n =? BSIZE) then close fd ;> URet (inr true) else URet (inl (i + 1))) in
        close fd ;>
        URet (if (done : bool) then inr tt else inl (fi + 1))).

Definition diskfull (local : list Z) (s : list Z) : uprog unit :=
  unlink (b_ "diskfulldir") ;>
  diskfull_fill s local ;>
  create_zz 128 ;>
  ulet r := mkdir (b_ "diskfulldir") in
  when (r =? 0) (uprintf (ln "%s: mkdir(diskfulldir) unexpectedly succeeded!") [UStr (Some s)]) ;>
  unlink (b_ "diskfulldir") ;>
  ufor 128 0 (λ i, unlink (zz_name i) ;> URet tt) ;>
  ufor 79 0 (λ i, unlink (big_name i) ;> URet tt).

Definition outofinodes (s : list Z) : uprog unit :=
  create_zz (Z.to_nat (32 * 32)) ;>
  ufor (Z.to_nat (32 * 32)) 0 (λ i, unlink (zz_name i) ;> URet tt).

(** ** The driver *)

(** [run]: 1 when the child exits with status 0. *)
Definition run (f : list Z → uprog unit) (s : list Z) : uprog bool :=
  uprintf (b_ "test %s: ") [UStr (Some s)] ;>
  ulet pid := fork in
  when (pid <? 0) (failp (ln "runtest: fork error") []) ;>
  if pid =? 0 then f s ;> uexit 0
  else
    ulet (_, xstatus) := wait_st in
    (if negb (xstatus =? 0) then uprintf (ln "FAILED") [] else uprintf (ln "OK") []) ;>
    URet (xstatus =? 0).

Definition test : Type := (list Z → uprog unit) * list Z.

Fixpoint runtests (tests : list test) (justone : option (list Z)) (continuous ntests : Z) : uprog Z :=
  match tests with
  | [] => URet ntests
  | (f, s) :: tests' =>
      if bool_decide (justone = None ∨ justone = Some s) then
        ulet ok := run f s in
        if negb ok && negb (continuous =? 2) then uprintf (ln "SOME TESTS FAILED") [] ;> URet (-1)
        else runtests tests' justone continuous (ntests + 1)
      else runtests tests' justone continuous ntests
  end.

Definition countfree : uprog Z :=
  ulet sz0 := sbrk 0 in
  ulet n := uloop fuel 0 (λ n,
    ulet a := sbrk PGSIZE in
    if a =? SBRK_ERROR then URet (inr n) else URet (inl (n + 1))) in
  ulet top := sbrk 0 in
  sbrk (- (top - sz0)) ;>
  URet n.

(** One round of the loop of [drivetests]: [Some r] returns [r]. *)
Definition drive_round (quicktests slowtests : list test) (quick : bool) (continuous : Z) (justone : option (list Z)) : uprog (option Z) :=
  uprintf (ln "usertests starting") [] ;>
  ulet free0 := countfree in
  ulet n := runtests quicktests justone continuous 0 in
  if (n <? 0) && negb (continuous =? 2) then URet (Some 1)
  else
    let ntests := if n <? 0 then 0 else n in
    ulet n2 :=
      (if quick then URet 0
       else
         when (bool_decide (justone = None)) (uprintf (ln "usertests slow tests starting") []) ;>
         runtests slowtests justone continuous 0) in
    if (n2 <? 0) && negb (continuous =? 2) then URet (Some 1)
    else
      let ntests := if n2 <? 0 then ntests else ntests + n2 in
      ulet free1 := countfree in
      when (free1 <? free0) (uprintf (ln "FAILED -- lost some free pages %d (out of %d)") [UNum free1; UNum free0]) ;>
      if (free1 <? free0) && negb (continuous =? 2) then URet (Some 1)
      else if negb (bool_decide (justone = None)) && (ntests =? 0) then uprintf (ln "NO TESTS EXECUTED") [] ;> URet (Some 1)
      else URet None.

Definition drivetests (rounds : nat) (quicktests slowtests : list test) (quick : bool) (continuous : Z) (justone : option (list Z)) : uprog Z :=
  uloop rounds tt (λ _,
    ulet r := drive_round quicktests slowtests quick continuous justone in
    match r with
    | Some x => URet (inr x)
    | None => if continuous =? 0 then URet (inr 0) else URet (inl tt)
    end).

Definition quicktests (malloc : Z → uprog Z) (free : Z → uprog unit) : list test :=
  (λ '(f, s), (f, b_ s)) <$>
  [(copyin, "copyin"); (copyout, "copyout"); (copyinstr1, "copyinstr1"); (copyinstr2, "copyinstr2"); (copyinstr3, "copyinstr3");
   (rwsbrk, "rwsbrk"); (truncate1, "truncate1"); (truncate2, "truncate2"); (truncate3, "truncate3");
   (openiputtest, "openiput"); (exitiputtest, "exitiput"); (iputtest, "iput"); (opentest, "opentest"); (writetest, "writetest");
   (writebig, "writebig"); (createtest, "createtest"); (dirtest, "dirtest"); (exectest, "exectest"); (pipe1, "pipe1");
   (killstatus, "killstatus"); (preempt, "preempt"); (exitwait, "exitwait"); (reparent, "reparent"); (twochildren, "twochildren");
   (forkfork, "forkfork"); (forkforkfork, "forkforkfork"); (reparent2, "reparent2"); (mem malloc free, "mem"); (sharedfd, "sharedfd");
   (fourfiles, "fourfiles"); (createdelete, "createdelete"); (unlinkread, "unlinkread"); (linktest, "linktest");
   (concreate, "concreate"); (linkunlink, "linkunlink"); (subdir, "subdir"); (bigwrite, "bigwrite"); (bigfile, "bigfile");
   (fourteen, "fourteen"); (rmdot, "rmdot"); (dirfile, "dirfile"); (iref, "iref"); (forktest, "forktest");
   (sbrkbasic, "sbrkbasic"); (sbrkmuch, "sbrkmuch"); (kernmem, "kernmem"); (MAXVAplus, "MAXVAplus"); (sbrkfail, "sbrkfail");
   (sbrkarg, "sbrkarg"); (validatetest, "validatetest"); (bsstest, "bsstest"); (bigargtest, "bigargtest"); (argptest, "argptest");
   (stacktest, "stacktest"); (nowrite, "nowrite"); (pgbug, "pgbug"); (sbrkbugs, "sbrkbugs"); (sbrklast, "sbrklast");
   (sbrk8000, "sbrk8000"); (badarg, "badarg"); (lazy_alloc, "lazy_alloc"); (lazy_unmap, "lazy_unmap"); (lazy_copy, "lazy_copy");
   (lazy_sbrk, "lazy_sbrk")]%string.

Definition slowtests (local : list Z) : list test :=
  (λ '(f, s), (f, b_ s)) <$>
  [(bigdir, "bigdir"); (manywrites, "manywrites"); (badwrite, "badwrite"); (execout, "execout"); (diskfull local, "diskfull");
   (outofinodes, "outofinodes")]%string.

(** [main]; [rounds] bounds the loop of -c and -C. *)
Definition usertests_main (malloc : Z → uprog Z) (free : Z → uprog unit) (rounds : nat) (local : list Z) (argv : list (list Z)) : uprog unit :=
  let drive quick continuous justone :=
    ulet r := drivetests rounds (quicktests malloc free) (slowtests local) quick continuous justone in
    when (negb (r =? 0)) (uexit 1) ;>
    uprintf (ln "ALL TESTS PASSED") [] ;>
    uexit 0 in
  match argv with
  | [_; a] =>
      if bool_decide (a = b_ "-q") then drive true 0 None
      else if bool_decide (a = b_ "-c") then drive false 1 None
      else if bool_decide (a = b_ "-C") then drive false 2 None
      else if negb (nth 0 a 0 =? 45) then drive false 0 (Some a)
      else failp (ln "Usage: usertests [-c] [-C] [-q] [testname]") []
  | _ :: _ :: _ => failp (ln "Usage: usertests [-c] [-C] [-q] [testname]") []
  | _ => drive false 0 None
  end.
End usertests.

(** ** schedtest.c *)

(** The delay lasts for [ticks] timer interrupts. *)
Definition spin_delay (ticks : nat) : uprog unit := ufor ticks 0 (λ _, usys Spin ;> URet tt).

Definition schedtest_main (ticks : nat) : uprog unit :=
  uprintf (ln "Scheduler test starting...") [] ;>
  uprintf (ln "If scheduler is working, you should see A and B outputs interleaved.") [] ;>
  uprintf (ln "If hung on AAAAA... or BBBBB..., preemption is NOT working." ++ [10]) [] ;>
  ulet pid := fork in
  when (pid <? 0) (failp (ln "fork failed") []) ;>
  (if pid =? 0 then
     ufor 20 0 (λ _, spin_delay ticks ;> uprintf (b_ "B ") []) ;>
     uprintf (10 :: ln "Child finished.") [] ;>
     uexit 0
   else
     ufor 20 0 (λ _, spin_delay ticks ;> uprintf (b_ "A ") []) ;>
     uprintf (10 :: ln "Parent finished.") [] ;>
     wait0 ;>
     URet tt) ;>
  uexit 0.
