(* ===== verification/Tested.v ===== *)
(** * Running the kernel

    A check of the model, not a property of the program: some of the repository's own tests, executed.

    A disk image with the programs init and echo is written by [mkfs_main], the kernel's tables are
    initialised as main.c does, the first process executes /init, and the tests of usertests.c (file
    Usertests) run on it as user programs (file System).  Every result below is computed: each system call
    goes through the whole kernel, from the trap to the blocks of the RAM disk. *)

From stdpp Require Import base list functions sets numbers strings.
From Stdlib Require Import ZArith Lia.
From S2P Require Import Prelude Machine Kstring Kalloc Vm Proc Sleeplock BlockCache Bio Log TxStore Fs File Console Kernel Sysfile Exec Trap Main Mkfs Image Uprog System Usertests.

(** ** The machine *)

Abbreviation ST := (fstate (lsys bdev) (tty pstate)).

(** The state at the end of a run that returns. *)
Definition state_after {S A} (d : S) (o : outcome S A) : S := match o with Ret _ _ s => s | _ => d end.

(** The kernel leaves 64 pages; the trampoline is its first page. *)
Definition the_kend : Z := PHYSTOP - 64 * PGSIZE.
Definition the_trampoline : Z := KERNBASE.

(** An executable with a page of text, which cannot be written, and eleven pages of data: the arguments
    of system calls from 0x1000, [buf] and [uninit]. *)
Definition program_header (fl vaddr memsz : Z) : list Z :=
  le_split 4 ELF_PROG_LOAD ++ le_split 4 fl ++ le_split 8 0 ++ le_split 8 vaddr ++ le_split 8 0 ++ le_split 8 0 ++ le_split 8 memsz ++ le_split 8 PGSIZE.
Definition executable : list Z :=
  le_split 4 ELF_MAGIC ++ replicate 20 0 ++ le_split 8 0 ++ le_split 8 sizeof_elfhdr ++ replicate 16 0 ++ le_split 2 2 ++ replicate 6 0 ++
  program_header 5 0 PGSIZE ++ program_header 6 PGSIZE 0xB000.
Definition args_at : Z := 0x1000.
Definition buf_at : Z := 0x6000.
Definition uninit_at : Z := 0x9000.

(** The image: init, echo and README. *)
Definition build_host : host := mkhost (λ _, true) (λ _, Some [executable; []]).
Definition build_args : list (list Z) := (λ s, USER_DIR ++ [UNDERSCORE] ++ ascii_bytes s) <$> ["init"; "echo"; "README"]%string.
Definition the_image : list block :=
  fsimg (state_after mkfs_init (mkfs_main build_host ([] :: [] :: build_args) (mkctx [] [] 0) mkfs_init)).

(** Before the initialisers run. *)
Definition cold : ST :=
  mkfst (mkfs (mkls (boot_dev (img_mem the_image) FSSIZE) log0) (mksb 0 0 0 0 0 0 0 0) inodes0 (mktty (cons0 []) (pstate0 (λ _, 0))))
    (replicate 100 (mkfile FD_NONE 0 false false 0 None 0 0)) (λ _, demo_pipe).

(** The initialisers of main.c that set up the state a system call uses, the scheduler's choice of process 1, and
    its first run, which mounts the file system and executes /init. *)
Definition start_up : M ST unit :=
  inmem (kinit the_kend) ;;;
  inproc procinit ;;;
  infs (zoom log_lens (zoom cache_lens bio_binit)) ;;;
  infs iinit ;;;
  userinit the_kend the_trampoline 0 ;;;
  do picked <- inproc (sched_pick 0);
  forkret the_kend the_trampoline 0 (trap_csr 0 0) ;;;
  kret tt.
Definition booted : ST := state_after cold (start_up (mkctx [] [] 0) cold).

(** The only program the tests execute is echo. *)
Definition programs (path : list Z) (argv : list (list Z)) : uprog unit := echo_main argv.

(** Process 1 runs [p]: at most [fuel] system calls and switches. *)
Definition on_kernel (fuel : nat) (p : uprog unit) : result (L := lsys bdev) :=
  steps the_kend the_trampoline 0 0 [] programs args_at fuel (NUser p (mkworld booted (λ _, None) 0)).

Definition printed (w : world (L := lsys bdev)) : list Z := tx_out (t_con (fs_user (fi_fs (w_k w)))).

(** Process 1 opens the console as init does, runs [p], reports that it came back, and waits for input. *)
Definition session (p : uprog unit) : uprog unit :=
  ucall (SysMknod (ascii_bytes "console") CONSOLE 0) ;>
  ucall (SysOpen (ascii_bytes "console") O_RDWR) ;>
  ucall (SysDup 0) ;>
  ucall (SysDup 0) ;>
  p ;>
  uprintf (ascii_bytes "done") [] ;>
  usys (SysRead 0 1) ;>
  URet tt.

(** ** Running the tests *)

(** A run that ends with every process asleep and the given text on the console. *)
Definition ends_with (r : result (L := lsys bdev)) (out : list Z) : bool :=
  match r with Idle w => bool_decide (printed w = out) | _ => false end.

Lemma ends_with_true r out : ends_with r out = true → ∃ w, r = Idle w ∧ printed w = out.
Proof. destruct r as [w| |]; cbn [ends_with]; try done. intros E%bool_decide_eq_true. by exists w. Qed.

(** A program for process 1, and what it prints when it finds nothing wrong.  A check that fails prints a
    message and ends in the exit of process 1. *)
Definition case : Type := uprog unit * list Z.

(** A test that process 1 calls itself. *)
Definition single (f : list Z → uprog unit) (s banner : string) : case := (f (ascii_bytes s), ascii_bytes banner).
(** A test in a process of its own, as the driver runs it. *)
Definition driven (f : list Z → uprog unit) (s : string) : case :=
  (run f (ascii_bytes s) ;> URet tt, ascii_bytes ("test " +:+ s +:+ ": OK") ++ [CR; NL]).

Definition cases : list case :=
  [single copyinstr3 "copyinstr3" "";
   single iputtest "iput" "";
   single dirtest "dirtest" "";
   single (unlinkread buf_at) "unlinkread" "";
   single (linktest buf_at) "linktest" "";
   driven pgbug "pgbug"].

Definition run_case (x : case) : result (L := lsys bdev) := on_kernel 2000 (session x.1).
Definition out_case (x : case) : list Z := x.2 ++ ascii_bytes "done".

Lemma report_elem {A} (run : A → result (L := lsys bdev)) (out : A → list Z) l x :
  forallb (λ x, ends_with (run x) (out x)) l = true → x ∈ l → ∃ w, run x = Idle w ∧ printed w = out x.
Proof.
  intros E Hx. apply ends_with_true. rewrite forallb_forall in E. apply E. by apply list_elem_of_In.
Qed.

(** Computed by the virtual machine of the proof checker. *)
Lemma tests_report : forallb (λ x, ends_with (run_case x) (out_case x)) cases = true.
Proof. vm_cast_no_check (eq_refl true). Qed.

(** The model of the kernel runs: from a disk image written by mkfs, and the kernel's initialisers, process 1 executes /init and
    runs a test of usertests.c; every system call goes through the trap handler, the page tables, the file system and the log.  The program comes back with nothing
    but its banner printed - for the last test, which the driver forks, executes in a child and waits for, with
    "OK" -, all processes end asleep and the kernel does not panic. *)
Lemma tests_pass x : x ∈ cases → ∃ w, run_case x = Idle w ∧ printed w = out_case x.
Proof. exact (report_elem run_case out_case cases x tests_report). Qed.
